(* ===== verification/_CoqProject ===== *)
-Q . S2P
Prelude.v
RlpBase.v
RlpRaw.v
RlpEncode.v
RlpStream.v
RlpStruct.v
RlpCodes.v
TrieEncoding.v
Trie.v
TrieHash.v
TrieHashOk.v
TrieRoot.v
TrieMerkle.v
StackTrie.v
StackTrieOk.v
StackTrieRoot.v
DeriveSha.v
TrieProof.v
TrieProofOk.v
TrieProve.v
EvmAnalysis.v
EvmBase.v
EvmMachine.v
EvmGas.v
EvmTable.v
EvmInterp.v
EvmTrace.v
EvmSafety.v
EvmOps.v
EvmGasOk.v
EvmCallOk.v
EvmTotal.v
EvmTheorems.v
StateAccess.v
StateDb.v
StateJournal.v
StateUndo.v
StateOps.v
StateRevert.v
StateErase.v
StateCommit.v
StatePersist.v
StateEvm.v
StateLedger.v
StateTyped.v
TxMeta.v
TxTransition.v
TxGas.v
TxFees.v
TxTypes.v
TxCodec.v
TxSign.v
TxSignOk.v
CongressSnapshot.v
CongressSafe.v
CongressVerify.v
CongressCache.v
CongressSeal.v
CongressMint.v
CongressAccess.v
CongressGuard.v
CongressGas.v
CongressReward.v
CongressToy.v
Bloom.v
TxHeap.v
TxList.v
TxListOk.v
TxListCaps.v
ForkId.v
BlockProcess.v
BlockHash.v
BlockGas.v
BlockLedger.v
