(* ===== verification/Prelude.v ===== *)
(** * A verification library of the node's core

    The program is a go-ethereum derived node (src/geth) with a proof-of-authority
    engine of its own, Congress.  A block is a header and transactions; the engine says
    who may sign it, the message transition buys gas and runs the transactions on the
    EVM, the EVM works on a journaled state database, the database stores accounts and
    slots in Merkle Patricia tries, and everything that is hashed or stored is RLP.  The
    transaction pool keeps what is waiting.  The library models these parts from the
    encoding up, and proves what the parts above rely on.

    ** Conventions

    A Go function that returns an error is a function into [res] (value, error, panic,
    out of fuel), a panic with its reason; code that mutates is in the state monad [st]
    over the record of what it mutates.  Integers are [Z]; a conversion or an operation that wraps around in Go
    is written with [u8], [u64], [u256] or [i64].  Bytes are lists of integers below 256;
    hashes and addresses are the integers of their bytes.  Slices are lists, with [go_index],
    [go_slice] and [go_set] panicking as Go does.  Maps are [gmap], sets [gset].  Code outside
    of the repository is a parameter: uint256, the key-value store, LRU caches, JSON, the
    hash, public key recovery, precompiled contracts, and calls of system contracts.

    ** Files and what they model

    RLP (src/geth/rlp)
    - RlpBase, RlpRaw: raw.go and iterator.go, reading kinds and sizes of encoded values.
    - RlpEncode: encode.go, the encode buffer with its list headers and the writers.
    - RlpStream, RlpStruct: decode.go, the stream with its stack of list limits and the
      decoders, struct decoders in RlpStruct.  RlpCodes: round trips of Go types.
    Shown: splitting accepts exactly canonical encodings; the encoder is the reference
    encoding; decoding what was encoded gives it back; decoding any input ends.

    Trie (src/geth/trie)
    - TrieEncoding: encoding.go.  Trie: node.go, trie.go, the in-memory trie with
      insertion, deletion and the resolution of hashed nodes from the database.
    - TrieHash: hasher.go, Hash and New of trie.go.  TrieHashOk: the hasher computes the
      protocol's encoding whatever is cached.  TrieRoot: operations keep the cached hashes
      right.  TrieMerkle: the Merkle root as the Yellow Paper defines it.
    - StackTrie: stacktrie.go.  StackTrieOk: insertion simulates insertion into the whole
      trie.  StackTrieRoot: its root, and the writes of Commit.  DeriveSha: hashing.go of
      core/types, over an interface of hashers that the stack trie and the trie implement.
    - TrieProof: decoding of nodes (node.go), Prove and VerifyProof (proof.go).  TrieProofOk:
      decoding gives nodes back.  TrieProve: proofs are sound and complete.
    Shown: get, update and delete implement a finite map, the shape stays canonical, so
    that it depends on the content only, and a missing node is an error, not a wrong answer;
    the root hash is the Merkle root of the contents, for the trie over any sequence of
    operations, for the stack trie for keys in order, and for DeriveSha; a Merkle proof
    verifies to what the trie holds, present or absent, or a node is reported missing.

    EVM (src/geth/core/vm)
    - EvmAnalysis: analysis.go.  EvmBase: memory, stack, contracts, gas and the interfaces
      StateDB and Uint256.  EvmMachine: instructions.go and eips.go.  EvmGas: gas and memory
      tables.  EvmTable: the jump tables of every fork.  EvmInterp: the interpreter and the
      calls and creations of evm.go.
    - EvmTrace: what an execution may do to the database, as a relation.  EvmSafety: the
      class [WorldLaws] of what the EVM relies on in a database, and the invariant of
      frames; EvmOps, EvmGasOk, EvmCallOk, EvmTotal: its proof for each instruction.
      EvmTheorems: the theorems.
    Shown, for every database with these laws and every hash function: jump destinations;
    memory gas; every call and creation returns within fuel given by its gas (each round of
    the loop uses gas, each frame is deeper), and the machine panics for one of three reasons
    at most ([evm_panic]: the refund counter below zero, a running contract missing from
    the access list, a cached analysis shorter than the code); static calls write nothing;
    failing calls are undone; the arithmetic of two-word instructions.

    State (src/geth/core/state)
    - StateAccess: access_list.go.  StateDb: statedb.go, state_object.go and journal.go, every
      getter and journaled operation.  StateCommit: Finalise, New and IntermediateRoot.
    - StateJournal, StateUndo, StateOps, StateRevert: what is observable, how each journal entry
      undoes its operation, and that reverting restores everything.  StateErase: erasing an
      account and its undo.  StatePersist: what the root keeps.  StateEvm: the database
      as the EVM's StateDB, with core/evm.go.  StateLedger: balances and their sum.
      StateTyped: objects stay under their addresses and hold codes; with this the
      database is an instance of [WorldLaws].  A panic of the database is a value of it
      that nothing gets out of, so that theorems on its contents are about runs that end
      with a database.
    Shown: reverts after any sequence of operations; a failed call leaves every getter as
    it was; committing keeps what was observable; the access list is a map of sets; two
    defects of SetStorage and Erase.

    Transactions (src/geth/core)
    - TxMeta: meta transactions.  TxTransition: state_transition.go and the gas pool.
      TxGas, TxFees: gas and money of a message.
    - TxHeap, TxList: tx_list.go over Go's container/heap.  TxListOk, TxListCaps: theorems.
    - Bloom: types/bloom9.go.  ForkId: forkid/forkid.go.
    - TxTypes: types/transaction.go and the three kinds of contents, with codecs and hashes.
      TxCodec: their round trips.  TxSign: types/transaction_signing.go, the signers of
      every fork.  TxSignOk: theorems, over an elliptic curve given by its documented laws.
    - BlockProcess: state_processor.go and evm.go, the transactions of a block over an
      interface of databases and engines.  BlockHash: ancestor hashes.  BlockGas: gas of a
      block, over the laws [BlockLaws] of the processor's operations.  BlockLedger: the
      journaled database as that interface, with its laws, and the money of a block.
    Shown: applying a message ends and accounts for its gas; a block ends and its receipts
    account for its gas; without meta transactions, a message makes the sender pay exactly
    for its gas and creates no money, and over the transactions of a block no account gets
    into debt and no money is created; BLOCKHASH gives the ancestors' hashes whatever is
    cached; intrinsic gas; an overdraft by self-signed meta transactions;
    the sorted map is a sorted list; affordability filters; the bloom filter finds every
    log; the fork filter connects exactly the peers its rules allow; transactions are decoded
    from their encodings; what is signed for a chain is attributed to the signer there and
    to no one on another chain; a defect of meta transactions after Berlin.

    Congress (src/geth/consensus/congress, consensus/misc)
    - CongressSnapshot: signers, snapshots and turns.  CongressVerify: retrieval of snapshots,
      verification, Prepare and Seal, gas limits.  CongressAccess: blacklists, event rules,
      developer verification.  CongressGas: CalcGasLimit.  CongressReward: where fees go.
    - CongressSafe: the window of recent signers.  CongressCache: coherent caches.  CongressSeal:
      turns and seals.  CongressMint: from Prepare to verifyHeader.  CongressGuard: the
      blacklist.  CongressToy: a small network, with the concrete instances for the others.
    Shown: snapshots stay well formed and half of the validators can always go on; retrieval
    through any coherent cache is a replay of the chain and ends; a minted block is
    accepted; turns are fair; the seal's check and apply agree except in the first blocks,
    where the check is void; the blacklist is exact; the gas limit is within bounds; block fees are paid out once.

    ** Bounds and fuel

    Loops that are not structural take fuel.  The theorems say that a given fuel is enough:
    the length of the input for decoding, the gas and the depth limit for the EVM, the block
    number plus one for snapshot retrieval, the block number for ancestor hashes, the number of elements for heaps and lists.
    Hypotheses such as a size below 2^62 or a number below 2^64 are the width of Go's
    integers.

    ** What is assumed of the parameters

    No theorem assumes a hash function without collisions.  Where a theorem depends on
    hashes being different, it says so of the strings at hand: the nodes of the trie
    (TrieMerkle, TrieProve), the headers of the chain (CongressCache), the encodings of two
    transactions (TxCodec); the laws of the account database (StateJournal) ask it of the
    20-byte addresses.  The arithmetic of uint256, the caches, signing with recovery, the
    JSON codec and the stored codes are used as documented, as classes or named hypotheses
    with a concrete instance.

    ** Not modelled

    Reflection in rlp; committing, iterating and syncing tries, range proofs; state
    snapshots and pruning; copying and disk commit of the state; precompiled contracts and
    tracing; Finalize and the system contracts of Congress, and the goroutine that hands out a sealed block; the price heaps and the event
    loop of the pool; the block chain, miner, networking, light client, RPC, wallets,
    databases and commands: orchestration by goroutines, I/O or bindings, without a
    function of their input that could be stated.  Clique and Ethash are not used by this
    chain.  Of these the committer, the price heaps of the pool and the state snapshots are
    functions of memory that could be added to this library in the same style. *)
From Stdlib Require Export ZArith Lia.
From stdpp Require Export base tactics option list list_numbers numbers.
From Stdlib Require String.
Export String.StringSyntax.
#[global] Delimit Scope string_scope with string.

#[global] Open Scope Z_scope.
#[export] Set Default Goal Selector "!".

(** ** Outcomes of Go code

    A Go function that returns [(value, error)] is modelled by [res E A]; a
    panic is the value [Panic] with its reason, and a loop whose bound was too small
    is [OutOfFuel], so that the absence of panics, their reasons and termination are
    statements about values. *)

(** Why a program panics: an error of Go's run time (an index or slice out of
    range, a nil pointer or map, a division by zero), an index out of range of a
    slice that is named, or the message that the source raises. *)
Inductive panic :=
| runtime_error
| index_of (slice : String.string)
| raised (msg : String.string).

Inductive res (E A : Type) : Type :=
| Ok (a : A)
| Err (e : E)
| Panic (why : panic)
| OutOfFuel.
Arguments Ok {E A} _.
Arguments Err {E A} _.
Arguments Panic {E A} _.
Arguments index_of slice%_string.
Arguments raised msg%_string.
Arguments OutOfFuel {E A}.

#[export] Instance res_ret {E} : MRet (res E) := λ A a, Ok a.
#[export] Instance res_bind {E} : MBind (res E) := λ A B f m,
  match m with
  | Ok a => f a
  | Err e => Err e
  | Panic p => Panic p
  | OutOfFuel => OutOfFuel
  end.

Definition is_ok {E A} (m : res E A) : Prop := match m with Ok _ => True | _ => False end.
Definition is_panic {E A} (m : res E A) : bool := match m with Panic _ => true | _ => false end.

(** A state and error monad: the state survives an error, as a Go receiver
    that was mutated before the error was returned. *)
Definition st (S E A : Type) : Type := S → S * res E A.

#[export] Instance st_ret {S E} : MRet (st S E) := λ A a s, (s, Ok a).
#[export] Instance st_bind {S E} : MBind (st S E) := λ A B f m s,
  match m s with
  | (s', Ok a) => f a s'
  | (s', Err e) => (s', Err e)
  | (s', Panic p) => (s', Panic p)
  | (s', OutOfFuel) => (s', OutOfFuel)
  end.

Definition st_get {S E} : st S E S := λ s, (s, Ok s).
Definition st_put {S E} (s : S) : st S E unit := λ _, (s, Ok tt).
Definition st_modify {S E} (f : S → S) : st S E unit := λ s, (f s, Ok tt).
Definition st_err {S E A} (e : E) : st S E A := λ s, (s, Err e).
Definition st_panic {S E A} (why : panic) : st S E A := λ s, (s, Panic why).
Definition st_lift {S E A} (m : res E A) : st S E A := λ s, (s, m).

(** ** Machine integers *)

Definition u8 (x : Z) : Z := x mod 2 ^ 8.
Definition u64 (x : Z) : Z := x mod 2 ^ 64.
Definition u256 (x : Z) : Z := x mod 2 ^ 256.
(** The conversion to a signed integer of 64 bits. *)
Definition i64 (x : Z) : Z := if u64 x <? 2 ^ 63 then u64 x else u64 x - 2 ^ 64.

Definition is_u8 (x : Z) : Prop := 0 ≤ x < 2 ^ 8.
Definition is_u64 (x : Z) : Prop := 0 ≤ x < 2 ^ 64.
Definition is_u256 (x : Z) : Prop := 0 ≤ x < 2 ^ 256.

Lemma u64_small x : is_u64 x → u64 x = x.
Proof. intros H. by apply Z.mod_small. Qed.
Lemma u64_range x : is_u64 (u64 x).
Proof. apply Z.mod_pos_bound; lia. Qed.
Lemma i64_small x : - 2 ^ 63 ≤ x < 2 ^ 63 → i64 x = x.
Proof.
  intros Hx. unfold i64, u64. destruct (Z.le_gt_cases 0 x).
  - rewrite Z.mod_small by lia. destruct (Z.ltb_spec x (2 ^ 63)); lia.
  - rewrite <-(Z_mod_plus_full x 1), Z.mod_small by lia. destruct (Z.ltb_spec (x + 1 * 2 ^ 64) (2 ^ 63)); lia.
Qed.
Lemma u8_small x : is_u8 x → u8 x = x.
Proof. intros H. by apply Z.mod_small. Qed.
Lemma u8_range x : is_u8 (u8 x).
Proof. apply Z.mod_pos_bound; lia. Qed.
Lemma u256_small x : is_u256 x → u256 x = x.
Proof. intros H. by apply Z.mod_small. Qed.
Lemma u256_range x : is_u256 (u256 x).
Proof. apply Z.mod_pos_bound; lia. Qed.

Create HintDb go discriminated.
#[export] Hint Resolve u64_range u8_range u256_range : go.

(** ** Byte strings and Go slices *)

Abbreviation bytes := (list Z).
Definition bytes_ok (l : bytes) : Prop := Forall is_u8 l.

(** [len(l)] as a Go integer. *)
Definition len {A} (l : list A) : Z := Z.of_nat (length l).

(** [l[i]]: a panic out of range. *)
Definition go_index {E A} (l : list A) (i : Z) : res E A :=
  if decide (0 ≤ i) then
    match l !! Z.to_nat i with Some x => Ok x | None => Panic runtime_error end
  else Panic runtime_error.

(** [l[i:j]] of a slice whose capacity is its length: a panic out of range. *)
Definition go_slice {E A} (l : list A) (i j : Z) : res E (list A) :=
  if decide (0 ≤ i ∧ i ≤ j ∧ j ≤ len l)
  then Ok (take (Z.to_nat (j - i)) (drop (Z.to_nat i) l))
  else Panic runtime_error.

(** [l[i] = x]: a panic out of range. *)
Definition go_set {E A} (l : list A) (i : Z) (x : A) : res E (list A) :=
  if decide (0 ≤ i < len l) then Ok (<[Z.to_nat i := x]> l) else Panic runtime_error.

Lemma len_nonneg {A} (l : list A) : 0 ≤ len l.
Proof. unfold len. lia. Qed.
Lemma len_app {A} (l k : list A) : len (l ++ k) = len l + len k.
Proof. unfold len. rewrite length_app. lia. Qed.
Lemma len_cons {A} (x : A) l : len (x :: l) = 1 + len l.
Proof. unfold len. simpl length. lia. Qed.
Lemma len_nil {A} : len ([] : list A) = 0.
Proof. reflexivity. Qed.

#[export] Hint Resolve len_nonneg : go.
Create Rewrite HintDb len.
#[export] Hint Rewrite @len_app @len_cons @len_nil : len.

Lemma bytes_ok_app l k : bytes_ok (l ++ k) ↔ bytes_ok l ∧ bytes_ok k.
Proof. apply Forall_app. Qed.
Lemma bytes_ok_cons b l : bytes_ok (b :: l) ↔ is_u8 b ∧ bytes_ok l.
Proof. apply Forall_cons_iff. Qed.
Lemma bytes_ok_take n l : bytes_ok l → bytes_ok (take n l).
Proof. apply Forall_take. Qed.
Lemma bytes_ok_drop n l : bytes_ok l → bytes_ok (drop n l).
Proof. apply Forall_drop. Qed.
Lemma bytes_ok_lookup l i b : bytes_ok l → l !! i = Some b → is_u8 b.
Proof. intros H. by apply Forall_lookup. Qed.
#[export] Hint Resolve bytes_ok_take bytes_ok_drop : go.

Lemma go_index_ok {E A} (l : list A) i x :
  0 ≤ i → l !! Z.to_nat i = Some x → go_index (E:=E) l i = Ok x.
Proof. intros Hi Hx. unfold go_index. by rewrite decide_True, Hx. Qed.
Lemma go_slice_ok {E A} (l : list A) i j :
  0 ≤ i → i ≤ j → j ≤ len l →
  go_slice (E:=E) l i j = Ok (take (Z.to_nat (j - i)) (drop (Z.to_nat i) l)).
Proof. intros. unfold go_slice. by rewrite decide_True. Qed.
Lemma go_set_ok {E A} (l : list A) i x :
  0 ≤ i < len l → go_set (E:=E) l i x = Ok (<[Z.to_nat i := x]> l).
Proof. intros. unfold go_set. by rewrite decide_True. Qed.
Lemma len_insert {A} (l : list A) i x : len (<[i := x]> l) = len l.
Proof. unfold len. by rewrite length_insert. Qed.
#[export] Hint Rewrite @len_insert : len.
(** Slicing out the middle of a concatenation. *)
Lemma go_slice_app {E A} (p m s : list A) i j :
  i = len p → j = len p + len m → go_slice (E:=E) (p ++ m ++ s) i j = Ok m.
Proof.
  intros -> ->. rewrite go_slice_ok.
  - f_equal. replace (len p + len m - len p) with (len m) by lia.
    unfold len. rewrite !Nat2Z.id, drop_app_length. apply take_app_length.
  - apply len_nonneg.
  - pose proof (len_nonneg m). lia.
  - rewrite !len_app. pose proof (len_nonneg s). lia.
Qed.
Lemma go_slice_tail {E A} (p m : list A) j :
  j = len p + len m → go_slice (E:=E) (p ++ m) (len p) j = Ok m.
Proof. intros ->. rewrite <-(app_nil_r m) at 1. by apply go_slice_app. Qed.

(** ** Big-endian byte strings *)

Fixpoint be_val (l : bytes) : Z :=
  match l with
  | [] => 0
  | b :: l' => b * 2 ^ (8 * len l') + be_val l'
  end.

Lemma be_val_single b : be_val [b] = b.
Proof. unfold be_val. change (2 ^ (8 * len [])) with 1. lia. Qed.

(** The [n] low-order bytes of [x], most significant first. *)
Fixpoint be_bytes (n : nat) (x : Z) : bytes :=
  match n with
  | O => []
  | S n' => u8 (Z.shiftr x (8 * Z.of_nat n')) :: be_bytes n' x
  end.

Lemma length_be_bytes n x : length (be_bytes n x) = n.
Proof. induction n; simpl; congruence. Qed.
Lemma len_be_bytes n x : len (be_bytes n x) = Z.of_nat n.
Proof. unfold len. by rewrite length_be_bytes. Qed.
#[export] Hint Rewrite len_be_bytes : len.

Lemma be_bytes_ok n x : bytes_ok (be_bytes n x).
Proof. induction n; simpl; constructor; auto with go. Qed.
#[export] Hint Resolve be_bytes_ok : go.

Lemma pow2_8_succ n : 2 ^ (8 * Z.of_nat (S n)) = 256 * 2 ^ (8 * Z.of_nat n).
Proof.
  replace (8 * Z.of_nat (S n)) with (8 + 8 * Z.of_nat n) by lia.
  rewrite Z.pow_add_r by lia. reflexivity.
Qed.

Lemma be_val_be_bytes n x : be_val (be_bytes n x) = x mod 2 ^ (8 * Z.of_nat n).
Proof.
  induction n as [|n IH]; [by rewrite Z.mod_1_r|].
  cbn [be_bytes be_val]. rewrite IH, len_be_bytes, pow2_8_succ. unfold u8.
  rewrite Z.shiftr_div_pow2 by lia. set (p := 2 ^ (8 * Z.of_nat n)).
  assert (0 < p) by (apply Z.pow_pos_nonneg; lia). change (2 ^ 8) with 256.
  rewrite (Z.mul_comm 256 p), Z.rem_mul_r by lia. lia.
Qed.

Lemma be_val_bound l : bytes_ok l → 0 ≤ be_val l < 2 ^ (8 * len l).
Proof.
  induction 1 as [|b l Hb _ IH]; [done|].
  cbn [be_val]. unfold len in *. simpl length. rewrite pow2_8_succ.
  unfold is_u8 in Hb. nia.
Qed.

Lemma be_bytes_add n k x : be_bytes n (k * 2 ^ (8 * Z.of_nat n) + x) = be_bytes n x.
Proof.
  assert (∀ m, (m ≤ n)%nat → be_bytes m (k * 2 ^ (8 * Z.of_nat n) + x) = be_bytes m x) as H;
    [|by apply H].
  induction m as [|m IH]; intros Hm; [done|]. cbn [be_bytes]. f_equal; [|apply IH; lia].
  unfold u8. rewrite !Z.shiftr_div_pow2 by lia.
  replace (k * 2 ^ (8 * Z.of_nat n) + x)
    with (x + k * 2 ^ (8 * (Z.of_nat (n - S m))) * 2 ^ 8 * 2 ^ (8 * Z.of_nat m)).
  - rewrite Z.div_add by (apply Z.pow_nonzero; lia).
    rewrite Z.mod_add by lia. reflexivity.
  - rewrite <-!Z.mul_assoc, <-!Z.pow_add_r by lia.
    replace (8 * Z.of_nat (n - S m) + (8 + 8 * Z.of_nat m)) with (8 * Z.of_nat n) by lia. lia.
Qed.

Lemma be_bytes_split n m x :
  be_bytes (n + m) x = be_bytes n (Z.shiftr x (8 * Z.of_nat m)) ++ be_bytes m x.
Proof.
  induction n as [|n IH]; [done|]. cbn [Nat.add be_bytes app]. rewrite IH. f_equal.
  rewrite Z.shiftr_shiftr by lia. do 2 f_equal. lia.
Qed.
Lemma be_bytes_snoc n x : be_bytes (S n) x = be_bytes n (Z.shiftr x 8) ++ [u8 x].
Proof.
  rewrite <-Nat.add_1_r, be_bytes_split. f_equal.
Qed.
Lemma be_bytes_0 n : be_bytes n 0 = replicate n 0.
Proof. induction n as [|n IH]; [done|]. cbn. by rewrite Z.shiftr_0_l, IH. Qed.

Lemma be_bytes_be_val l : bytes_ok l → be_bytes (length l) (be_val l) = l.
Proof.
  induction 1 as [|b l Hb Hl IH]; [done|].
  cbn [length be_bytes be_val]. f_equal.
  - unfold u8. rewrite Z.shiftr_div_pow2 by lia. fold (len l).
    rewrite Z.div_add_l by (apply Z.pow_nonzero; unfold len; lia).
    rewrite Z.div_small by (by apply be_val_bound). by rewrite Z.add_0_r, Z.mod_small.
  - unfold len. by rewrite be_bytes_add.
Qed.

Lemma be_val_inj l k :
  bytes_ok l → bytes_ok k → length l = length k → be_val l = be_val k → l = k.
Proof.
  intros Hl Hk Hlen Heq.
  by rewrite <-(be_bytes_be_val l), <-(be_bytes_be_val k), Hlen, Heq.
Qed.

Lemma be_val_app l k : be_val (l ++ k) = be_val l * 2 ^ (8 * len k) + be_val k.
Proof.
  induction l as [|b l IH]; [done|]. cbn [app be_val]. rewrite IH, len_app.
  rewrite Z.mul_add_distr_l, Z.pow_add_r by (unfold len; lia). lia.
Qed.

Lemma land_shiftl_small a b n : 0 ≤ n → 0 ≤ b < 2 ^ n → Z.land (Z.shiftl a n) b = 0.
Proof.
  intros Hn Hb. apply Z.bits_inj'. intros i Hi.
  rewrite Z.land_spec, Z.bits_0. destruct (Z.ltb_spec i n).
  - by rewrite Z.shiftl_spec_low.
  - destruct (Z.eq_dec b 0) as [->|]; [by rewrite Z.bits_0, andb_false_r|].
    rewrite (Z.bits_above_log2 b); [by rewrite andb_false_r|lia|].
    apply Z.log2_lt_pow2; [lia|].
    apply Z.lt_le_trans with (2 ^ n); [lia|]. apply Z.pow_le_mono_r; lia.
Qed.

(** A [lor] of a multiple of a power of two and a smaller number is a sum. *)
Lemma lor_shiftl_add a b n : 0 ≤ n → 0 ≤ b < 2 ^ n → Z.lor (Z.shiftl a n) b = a * 2 ^ n + b.
Proof.
  intros Hn Hb. pose proof (land_shiftl_small a b n Hn Hb) as Hl.
  rewrite <-Z.shiftl_mul_pow2, Z.add_nocarry_lxor, Z.lxor_lor by done. reflexivity.
Qed.

(** ** [sort.Search]

    The binary search of Go's standard library: the smallest index in [[0, n)]
    at which a monotone predicate holds, or [n].  The interval halves, so [n]
    rounds and one more are enough. *)
Fixpoint search_loop (fuel : nat) (i j : Z) (f : Z → bool) : Z :=
  match fuel with
  | O => i
  | S fuel =>
      if i <? j then
        let h := (i + j) / 2 in
        if f h then search_loop fuel i h f else search_loop fuel (h + 1) j f
      else i
  end.
Definition sort_Search (n : Z) (f : Z → bool) : Z := search_loop (S (Z.to_nat n)) 0 n f.

Lemma search_loop_spec fuel i j f (n : Z) :
  0 ≤ i ≤ j → j ≤ n → (Z.to_nat (j - i) < fuel)%nat →
  (∀ x y, x ≤ y → f x = true → f y = true) →
  (∀ x, 0 ≤ x < i → f x = false) → (∀ x, j ≤ x < n → f x = true) →
  let r := search_loop fuel i j f in
  0 ≤ r ≤ n ∧ (∀ x, 0 ≤ x < r → f x = false) ∧ (∀ x, r ≤ x < n → f x = true).
Proof.
  revert i j. induction fuel as [|fuel IH]; intros i j Hij Hj Hf Hm Hlo Hhi; [lia|]. cbn [search_loop].
  destruct (Z.ltb_spec i j) as [Hlt|Hge]; [|split_and!; [lia|lia|done|intros x ?; apply Hhi; lia]].
  pose proof (Z.div_mod (i + j) 2). pose proof (Z.mod_pos_bound (i + j) 2).
  destruct (f ((i + j) / 2)) eqn:Hh; apply IH; try done; try lia.
  - intros x Hx. apply (Hm ((i + j) / 2)); [lia|done].
  - intros x Hx. destruct (f x) eqn:Hfx; [|done]. rewrite (Hm x ((i + j) / 2)) in Hh; [done|lia|done].
Qed.
Lemma sort_Search_spec n f :
  0 ≤ n → (∀ x y, x ≤ y → f x = true → f y = true) →
  let r := sort_Search n f in
  0 ≤ r ≤ n ∧ (∀ x, 0 ≤ x < r → f x = false) ∧ (∀ x, r ≤ x < n → f x = true).
Proof. intros Hn Hm. apply search_loop_spec; try done; try lia. Qed.
