(* ===== verification/RlpBase.v ===== *)
(** * RLP headers and the reference encoding

    Models the header arithmetic of [src/geth/rlp/encode.go] ([intsize],
    [headsize], [putint], [puthead]) and the kinds and errors of
    [src/geth/rlp/decode.go]; states the reference RLP encoding of the
    Yellow Paper against which the encoders and decoders of the following files
    are proved. *)
From S2P Require Import Prelude.

#[local] Set Warnings "-register-all".

(** ** Kinds and errors (decode.go) *)

Inductive Kind := Byte | String | List.
#[export] Instance Kind_eq_dec : EqDecision Kind.
Proof. solve_decision. Defined.

(** The messages of [decodeError]; the reflected type and the context path,
    which only serve the printed text, are left out. *)
Inductive decode_msg :=
| MsgCanonInt | MsgCanonSize | MsgExpectedList | MsgExpectedString
| MsgTooLong | MsgTooShort | MsgTooManyElements | MsgTooFewElements
| MsgTooFewFields | MsgWrongEmptyKind.
#[export] Instance decode_msg_eq_dec : EqDecision decode_msg.
Proof. solve_decision. Defined.

Inductive rlp_err :=
| EOL | ErrExpectedString | ErrExpectedList | ErrCanonInt | ErrCanonSize
| ErrElemTooLarge | ErrValueTooLarge | ErrMoreThanOneValue
| errNotInList | errNotAtEOL | errUintOverflow
| ErrUnexpectedEOF | ErrEOF
| ErrNegativeBigInt | ErrInvalidBool (num : Z)
| decodeError (msg : decode_msg).
#[export] Instance rlp_err_eq_dec : EqDecision rlp_err.
Proof. solve_decision. Defined.

(** ** Header arithmetic (encode.go) *)

(** The loop of [intsize]: [i] is shifted until it is zero; a [uint64] is zero
    after at most eight shifts, which is the fuel [intsize] gives. *)
Fixpoint intsize_loop (fuel : nat) (size i : Z) : Z :=
  let i := Z.shiftr i 8 in
  if i =? 0 then size else
  match fuel with
  | O => size
  | S fuel => intsize_loop fuel (size + 1) i
  end.
Definition intsize (i : Z) : Z := intsize_loop 7 1 i.

Definition headsize (size : Z) : Z :=
  if size <? 56 then 1 else 1 + intsize size.

(** [putint b i] as the list of bytes it stores at the start of [b]; the
    returned size is the length of that list. *)
Definition putint (i : Z) : bytes :=
  let at_ n := u8 (Z.shiftr i n) in
  if i <? Z.shiftl 1 8 then [u8 i]
  else if i <? Z.shiftl 1 16 then [at_ 8; u8 i]
  else if i <? Z.shiftl 1 24 then [at_ 16; at_ 8; u8 i]
  else if i <? Z.shiftl 1 32 then [at_ 24; at_ 16; at_ 8; u8 i]
  else if i <? Z.shiftl 1 40 then [at_ 32; at_ 24; at_ 16; at_ 8; u8 i]
  else if i <? Z.shiftl 1 48 then [at_ 40; at_ 32; at_ 24; at_ 16; at_ 8; u8 i]
  else if i <? Z.shiftl 1 56 then
    [at_ 48; at_ 40; at_ 32; at_ 24; at_ 16; at_ 8; u8 i]
  else [at_ 56; at_ 48; at_ 40; at_ 32; at_ 24; at_ 16; at_ 8; u8 i].

(** [puthead buf smalltag largetag size] as the list of bytes it stores. *)
Definition puthead (smalltag largetag size : Z) : bytes :=
  if size <? 56 then [u8 (smalltag + u8 size)]
  else
    let s := putint size in
    u8 (largetag + u8 (len s)) :: s.

(** ** The reference encoding *)

(** Minimal number of bytes of a positive integer. *)
Definition nbytes (x : Z) : nat := if x =? 0 then 0%nat else Z.to_nat (Z.log2 x / 8 + 1).

(** The header of a string ([tag = 0x80]) or of a list ([tag = 0xC0]) with a
    payload of [size] bytes. *)
Definition rlp_head (tag size : Z) : bytes :=
  if size <? 56 then [tag + size]
  else (tag + 55 + Z.of_nat (nbytes size)) :: be_bytes (nbytes size) size.

Definition rlp_string (b : bytes) : bytes :=
  match b with
  | [x] => if x <? 0x80 then [x] else 0x81 :: [x]
  | _ => rlp_head 0x80 (len b) ++ b
  end.

Definition rlp_list (payload : bytes) : bytes := rlp_head 0xC0 (len payload) ++ payload.

(** RLP items: byte strings and lists of items. *)
Inductive item :=
| Str (b : bytes)
| Lst (l : list item).

Fixpoint rlp_encode (t : item) : bytes :=
  match t with
  | Str b => rlp_string b
  | Lst l => rlp_list (concat (map rlp_encode l))
  end.

(** Scalars are the byte strings without leading zero bytes. *)
Definition rlp_scalar (x : Z) : bytes := rlp_string (be_bytes (nbytes x) x).

(** ** Properties of the header arithmetic *)

Lemma nbytes_spec x :
  0 < x → 2 ^ (8 * (Z.of_nat (nbytes x) - 1)) ≤ x < 2 ^ (8 * Z.of_nat (nbytes x)).
Proof.
  intros Hx. unfold nbytes. rewrite (proj2 (Z.eqb_neq x 0)) by lia.
  pose proof (Z.log2_nonneg x) as Hl. pose proof (Z.log2_spec x Hx) as [Hlo Hhi].
  pose proof (Z.div_mod (Z.log2 x) 8 ltac:(lia)) as Hdm.
  pose proof (Z.mod_pos_bound (Z.log2 x) 8 ltac:(lia)).
  rewrite Z2Nat.id by (pose proof (Z.div_pos (Z.log2 x) 8); lia). split.
  - etransitivity; [|exact Hlo]. apply Z.pow_le_mono_r; lia.
  - eapply Z.lt_le_trans; [exact Hhi|]. apply Z.pow_le_mono_r; lia.
Qed.

Lemma nbytes_unique x n :
  0 < x → 1 ≤ n → 2 ^ (8 * (n - 1)) ≤ x < 2 ^ (8 * n) → Z.of_nat (nbytes x) = n.
Proof.
  intros Hx Hn [Hlo Hhi]. destruct (nbytes_spec x Hx) as [Hlo' Hhi'].
  assert (8 * (n - 1) < 8 * Z.of_nat (nbytes x)) by
    (apply (Z.pow_lt_mono_r_iff 2); lia).
  assert (8 * (Z.of_nat (nbytes x) - 1) < 8 * n); [|lia].
  destruct (Z.le_gt_cases (8 * (Z.of_nat (nbytes x) - 1)) 0); [lia|].
  apply (Z.pow_lt_mono_r_iff 2); lia.
Qed.

Lemma nbytes_pos x : 0 < x → (1 ≤ nbytes x)%nat.
Proof.
  intros Hx. destruct (nbytes_spec x Hx) as [_ H].
  destruct (nbytes x); simpl in *; lia.
Qed.

Lemma nbytes_u64 x : is_u64 x → (nbytes x ≤ 8)%nat.
Proof.
  intros [H0 H1]. destruct (Z.eq_dec x 0) as [->|]; [vm_compute; lia|].
  destruct (nbytes_spec x ltac:(lia)) as [Hlo _].
  assert (8 * (Z.of_nat (nbytes x) - 1) < 64); [|lia].
  destruct (Z.le_gt_cases (8 * (Z.of_nat (nbytes x) - 1)) 0); [lia|].
  apply (Z.pow_lt_mono_r_iff 2); lia.
Qed.

Lemma nbytes_is x n : 0 < x → 2 ^ (8 * Z.of_nat n) ≤ x < 2 ^ (8 * Z.of_nat (S n)) → nbytes x = S n.
Proof.
  intros Hx H. apply Nat2Z.inj. apply nbytes_unique; [lia..|].
  replace (Z.of_nat (S n) - 1) with (Z.of_nat n) by lia. done.
Qed.

Lemma nbytes_ge_2 x : 0 < x → (2 ≤ nbytes x)%nat → 2 ^ 8 ≤ x.
Proof.
  intros Hx Hn. destruct (nbytes_spec x Hx) as [Hlo _]. etransitivity; [|exact Hlo].
  apply Z.pow_le_mono_r; lia.
Qed.

Ltac case_ltb :=
  match goal with
  | |- context [?a <? ?b] => destruct (Z.ltb_spec a b)
  end.

Lemma putint_spec x : is_u64 x → 0 < x → putint x = be_bytes (nbytes x) x.
Proof.
  intros [_ Hx] H0. unfold putint. rewrite !Z.shiftl_1_l.
  repeat case_ltb.
  1: rewrite (nbytes_is x 0) by (simpl Z.of_nat; lia).
  2: rewrite (nbytes_is x 1) by (simpl Z.of_nat; lia).
  3: rewrite (nbytes_is x 2) by (simpl Z.of_nat; lia).
  4: rewrite (nbytes_is x 3) by (simpl Z.of_nat; lia).
  5: rewrite (nbytes_is x 4) by (simpl Z.of_nat; lia).
  6: rewrite (nbytes_is x 5) by (simpl Z.of_nat; lia).
  7: rewrite (nbytes_is x 6) by (simpl Z.of_nat; lia).
  8: rewrite (nbytes_is x 7) by (simpl Z.of_nat; lia).
  all: cbn [be_bytes]; by rewrite Z.shiftr_0_r.
Qed.

Lemma intsize_loop_spec fuel size x :
  0 < x → x < 2 ^ (8 * Z.of_nat (S fuel)) →
  intsize_loop fuel size x = size + Z.of_nat (nbytes x) - 1.
Proof.
  revert size x. induction fuel as [|fuel IH]; intros size x Hx Hlt.
  all: cbn [intsize_loop]; rewrite Z.shiftr_div_pow2 by lia; change (2 ^ 8) with 256.
  all: destruct (Z.eqb_spec (x / 256) 0) as [Hz|Hz].
  1, 3: rewrite (nbytes_is x 0); [lia..|split; [simpl; lia|]];
    simpl; pose proof (Z.mod_pos_bound x 256); pose proof (Z.div_mod x 256); lia.
  - exfalso. apply Hz. apply Z.div_small. simpl in Hlt. lia.
  - pose proof (Z.div_mod x 256 ltac:(lia)) as Hdm.
    pose proof (Z.mod_pos_bound x 256 ltac:(lia)) as Hm.
    assert (0 < x / 256) as Hpos by (pose proof (Z.div_pos x 256); lia).
    rewrite IH; [|done|].
    + destruct (nbytes_spec (x / 256) Hpos) as [Hlo Hhi].
      pose proof (nbytes_pos _ Hpos) as Hn.
      rewrite (nbytes_is x (nbytes (x / 256))); [lia..|]. rewrite pow2_8_succ.
      replace (nbytes (x / 256)) with (S (nbytes (x / 256) - 1)) at 1 by lia.
      rewrite pow2_8_succ.
      replace (Z.of_nat (nbytes (x / 256) - 1)) with (Z.of_nat (nbytes (x / 256)) - 1) by lia.
      lia.
    + rewrite pow2_8_succ in Hlt. lia.
Qed.

Lemma intsize_spec x : is_u64 x → 0 < x → intsize x = Z.of_nat (nbytes x).
Proof.
  intros [_ Hx] H0. unfold intsize. rewrite intsize_loop_spec; [lia..|done].
Qed.

Lemma puthead_spec tag size :
  tag = 0x80 ∨ tag = 0xC0 → is_u64 size → puthead tag (tag + 55) size = rlp_head tag size.
Proof.
  intros Htag Hs. unfold puthead, rlp_head. case_ltb.
  - unfold is_u64 in Hs. rewrite (u8_small size) by (unfold is_u8; lia).
    rewrite u8_small by (unfold is_u8; lia). done.
  - rewrite putint_spec by (done || lia). rewrite len_be_bytes.
    pose proof (nbytes_u64 _ Hs).
    rewrite (u8_small (Z.of_nat _)) by (unfold is_u8; lia).
    rewrite u8_small by (unfold is_u8; lia). done.
Qed.

Lemma headsize_spec tag size : is_u64 size → headsize size = len (rlp_head tag size).
Proof.
  intros Hs. unfold headsize, rlp_head. case_ltb; [done|].
  rewrite intsize_spec by (done || lia). autorewrite with len. lia.
Qed.

Lemma rlp_head_ok tag size : tag = 0x80 ∨ tag = 0xC0 → is_u64 size → bytes_ok (rlp_head tag size).
Proof.
  intros Htag Hs. unfold rlp_head. pose proof (nbytes_u64 _ Hs).
  unfold is_u64 in Hs. case_ltb; apply bytes_ok_cons; split; auto with go;
    try (unfold is_u8; lia). constructor.
Qed.

Lemma rlp_head_nonempty tag size : ∃ b l, rlp_head tag size = b :: l.
Proof. unfold rlp_head. case_ltb; eauto. Qed.

(** The size of an encoded string or list, as a function of its payload. *)
Lemma len_rlp_list p : is_u64 (len p) → len (rlp_list p) = headsize (len p) + len p.
Proof. intros. unfold rlp_list. rewrite len_app. by rewrite (headsize_spec 0xC0). Qed.

Lemma rlp_string_cases b :
  (∃ x, b = [x] ∧ x < 0x80 ∧ rlp_string b = [x]) ∨
  ((∀ x, b = [x] → 0x80 ≤ x) ∧ rlp_string b = rlp_head 0x80 (len b) ++ b).
Proof.
  destruct b as [|x [|y b]]; simpl rlp_string.
  - right. split; [intros ? [=]|done].
  - case_ltb; [left; eauto|right]. split; [intros ? [= ->]; done|done].
  - right. split; [intros ? [=]|done].
Qed.

(** Induction on items through the nested list. *)
Lemma item_ind' (P : item → Prop)
    (HStr : ∀ b, P (Str b)) (HLst : ∀ l, Forall P l → P (Lst l)) t : P t.
Proof.
  revert t. fix IH 1. intros [b|l]; [apply HStr|]. apply HLst.
  induction l as [|t l IHl]; constructor; [apply IH|apply IHl].
Qed.

Fixpoint item_ok (t : item) : Prop :=
  match t with
  | Str b => bytes_ok b
  | Lst l => foldr (λ t P, item_ok t ∧ P) True l
  end.

Lemma item_ok_Lst l : item_ok (Lst l) ↔ Forall item_ok l.
Proof.
  induction l as [|t l IH]; [split; intros; constructor|].
  change (item_ok t ∧ item_ok (Lst l) ↔ Forall item_ok (t :: l)).
  by rewrite Forall_cons_iff, IH.
Qed.

Lemma rlp_encode_nonempty t : 1 ≤ len (rlp_encode t).
Proof.
  destruct t as [b|l]; simpl rlp_encode.
  - destruct (rlp_string_cases b) as [(x & -> & _ & ->)|[_ ->]]; [done|].
    destruct (rlp_head_nonempty 0x80 (len b)) as (? & k & ->).
    rewrite <-app_comm_cons, len_cons. pose proof (len_nonneg (k ++ b)). lia.
  - unfold rlp_list. destruct (rlp_head_nonempty 0xC0 (len (concat (map rlp_encode l)))) as (? & k & ->).
    rewrite <-app_comm_cons, len_cons.
    pose proof (len_nonneg (k ++ concat (map rlp_encode l))). lia.
Qed.

Lemma rlp_string_ok b : bytes_ok b → is_u64 (len b) → bytes_ok (rlp_string b).
Proof.
  intros Hb Hl. destruct (rlp_string_cases b) as [(x & -> & ? & ->)|[_ ->]]; [done|].
  apply bytes_ok_app. split; [apply rlp_head_ok; auto|done].
Qed.

Lemma len_concat_encode_In t l : In t l → len (rlp_encode t) ≤ len (concat (map rlp_encode l)).
Proof.
  induction l as [|t' l IH]; [done|]. intros [->|Hin]; cbn [map concat]; rewrite len_app.
  - pose proof (len_nonneg (concat (map rlp_encode l))). lia.
  - specialize (IH Hin). pose proof (len_nonneg (rlp_encode t')). lia.
Qed.
