(* ===== verification/RlpRaw.v ===== *)
(** * Splitting raw RLP (src/geth/rlp/raw.go, src/geth/rlp/iterator.go)

    [readKind], [readSize], the [Split*] functions, [CountValues],
    [AppendUint64] and the list iterator, on byte strings.  The theorems show
    that [Split] accepts exactly the canonical encodings, without a panic on any
    input, and that the integer codec is a bijection. *)
From S2P Require Import Prelude RlpBase.

Abbreviation R := (res rlp_err).

Definition ListSize (contentSize : Z) : Z := u64 (headsize contentSize + contentSize).

Definition IntSize (x : Z) : Z := if x <? 0x80 then 1 else 1 + intsize x.

(** [readSize b slen]: the eight shift-and-or cases of the switch, then the
    canonicity check. [b[0]] panics on an empty [b] when [slen] is zero. *)
Definition readSize (b : bytes) (slen : Z) : R Z :=
  if slen >? len b then Err ErrUnexpectedEOF else
  let at_ i n := Z.shiftl (nth i b 0) n in
  let s :=
    if slen =? 1 then nth 0 b 0
    else if slen =? 2 then Z.lor (at_ 0%nat 8) (nth 1 b 0)
    else if slen =? 3 then Z.lor (Z.lor (at_ 0%nat 16) (at_ 1%nat 8)) (nth 2 b 0)
    else if slen =? 4 then
      Z.lor (Z.lor (Z.lor (at_ 0%nat 24) (at_ 1%nat 16)) (at_ 2%nat 8)) (nth 3 b 0)
    else if slen =? 5 then
      Z.lor (Z.lor (Z.lor (Z.lor (at_ 0%nat 32) (at_ 1%nat 24)) (at_ 2%nat 16)) (at_ 3%nat 8))
        (nth 4 b 0)
    else if slen =? 6 then
      Z.lor (Z.lor (Z.lor (Z.lor (Z.lor (at_ 0%nat 40) (at_ 1%nat 32)) (at_ 2%nat 24))
        (at_ 3%nat 16)) (at_ 4%nat 8)) (nth 5 b 0)
    else if slen =? 7 then
      Z.lor (Z.lor (Z.lor (Z.lor (Z.lor (Z.lor (at_ 0%nat 48) (at_ 1%nat 40)) (at_ 2%nat 32))
        (at_ 3%nat 24)) (at_ 4%nat 16)) (at_ 5%nat 8)) (nth 6 b 0)
    else if slen =? 8 then
      Z.lor (Z.lor (Z.lor (Z.lor (Z.lor (Z.lor (Z.lor (at_ 0%nat 56) (at_ 1%nat 48))
        (at_ 2%nat 40)) (at_ 3%nat 32)) (at_ 4%nat 24)) (at_ 5%nat 16)) (at_ 6%nat 8)) (nth 7 b 0)
    else 0 in
  if s <? 56 then Err ErrCanonSize else
  b0 ← go_index b 0;
  if b0 =? 0 then Err ErrCanonSize else Ok s.

(** [readKind buf]: kind, tag size and content size of the first value. *)
Definition readKind (buf : bytes) : R (Kind * Z * Z) :=
  match buf with
  | [] => Err ErrUnexpectedEOF
  | b :: rest =>
      '(k, tagsize, contentsize) ←
        (if b <? 0x80 then Ok (Byte, 0, 1)
         else if b <? 0xB8 then
           let contentsize := u8 (b - 0x80) in
           if (contentsize =? 1) && (1 <? len buf) && (nth 1 buf 0 <? 128)
           then Err ErrCanonSize
           else Ok (String, 1, contentsize)
         else if b <? 0xC0 then
           contentsize ← readSize rest (u8 (b - 0xB7));
           Ok (String, u8 (b - 0xB7) + 1, contentsize)
         else if b <? 0xF8 then Ok (List, 1, u8 (b - 0xC0))
         else
           contentsize ← readSize rest (u8 (b - 0xF7));
           Ok (List, u8 (b - 0xF7) + 1, contentsize) : R (Kind * Z * Z));
      if contentsize >? u64 (len buf - tagsize) then Err ErrValueTooLarge
      else Ok (k, tagsize, contentsize)
  end.

(** [Split b]: kind, content and rest; the two slice expressions can panic. *)
Definition Split (b : bytes) : R (Kind * bytes * bytes) :=
  '(k, ts, cs) ← readKind b;
  content ← go_slice b ts (u64 (ts + cs));
  rest ← go_slice b (u64 (ts + cs)) (len b);
  Ok (k, content, rest).

Definition SplitString (b : bytes) : R (bytes * bytes) :=
  '(k, content, rest) ← Split b;
  if bool_decide (k = List) then Err ErrExpectedString else Ok (content, rest).

Definition SplitList (b : bytes) : R (bytes * bytes) :=
  '(k, content, rest) ← Split b;
  if bool_decide (k = List) then Ok (content, rest) else Err ErrExpectedList.

Definition SplitUint64 (b : bytes) : R (Z * bytes) :=
  '(content, rest) ← SplitString b;
  match content with
  | [] => Ok (0, rest)
  | [c] => if c =? 0 then Err ErrCanonInt else Ok (c, rest)
  | _ =>
      if len content >? 8 then Err errUintOverflow else
      match readSize content (u8 (len content)) with
      | Ok x => Ok (x, rest)
      | Err _ => Err ErrCanonInt
      | Panic p => Panic p
      | OutOfFuel => OutOfFuel
      end
  end.

(** The loop of [CountValues]: one iteration per value. *)
Fixpoint CountValues_loop (fuel : nat) (i : Z) (b : bytes) : R Z :=
  match b with
  | [] => Ok i
  | _ =>
      match fuel with
      | O => OutOfFuel
      | S fuel =>
          '(_, tagsize, size) ← readKind b;
          b' ← go_slice b (u64 (tagsize + size)) (len b);
          CountValues_loop fuel (i + 1) b'
      end
  end.
(** Every value has at least one byte, so [len b] iterations are enough. *)
Definition CountValues (b : bytes) : R Z := CountValues_loop (length b) 0 b.

Definition AppendUint64 (b : bytes) (i : Z) : bytes :=
  let at_ n := u8 (Z.shiftr i n) in
  if i =? 0 then b ++ [0x80]
  else if i <? 128 then b ++ [u8 i]
  else if i <? Z.shiftl 1 8 then b ++ [0x81; u8 i]
  else if i <? Z.shiftl 1 16 then b ++ [0x82; at_ 8; u8 i]
  else if i <? Z.shiftl 1 24 then b ++ [0x83; at_ 16; at_ 8; u8 i]
  else if i <? Z.shiftl 1 32 then b ++ [0x84; at_ 24; at_ 16; at_ 8; u8 i]
  else if i <? Z.shiftl 1 40 then b ++ [0x85; at_ 32; at_ 24; at_ 16; at_ 8; u8 i]
  else if i <? Z.shiftl 1 48 then b ++ [0x86; at_ 40; at_ 32; at_ 24; at_ 16; at_ 8; u8 i]
  else if i <? Z.shiftl 1 56 then
    b ++ [0x87; at_ 48; at_ 40; at_ 32; at_ 24; at_ 16; at_ 8; u8 i]
  else b ++ [0x88; at_ 56; at_ 48; at_ 40; at_ 32; at_ 24; at_ 16; at_ 8; u8 i].

(** ** The list iterator (iterator.go) *)

Record listIterator := mk_listIterator {
  it_data : bytes;
  it_next : bytes;
  it_err : option rlp_err;
}.

Definition NewListIterator (data : bytes) : R listIterator :=
  '(k, t, c) ← readKind data;
  if bool_decide (k = List) then
    d ← go_slice data t (u64 (t + c));
    Ok (mk_listIterator d [] None)
  else Err ErrExpectedList.

(** [Next]: on a malformed value [readKind] returns sizes of zero, so that the
    position does not move and the error is recorded. *)
Definition it_Next (it : listIterator) : R (bool * listIterator) :=
  match it_data it with
  | [] => Ok (false, it)
  | _ =>
      let '(t, c, err) :=
        match readKind (it_data it) with
        | Ok (_, t, c) => (t, c, None)
        | Err e => (0, 0, Some e)
        | _ => (0, 0, None)
        end in
      next ← go_slice (it_data it) 0 (u64 (t + c));
      data ← go_slice (it_data it) (u64 (t + c)) (len (it_data it));
      Ok (true, mk_listIterator data next err)
  end.

Example Split_dog : Split [0x83; 100; 111; 103; 7] = Ok (String, [100; 111; 103], [7]).
Proof. reflexivity. Qed.
Example Split_noncanon : Split [0x81; 5] = Err ErrCanonSize.
Proof. reflexivity. Qed.
Example CountValues_3 : CountValues [0x83; 100; 111; 103; 7; 0xC0] = Ok 3.
Proof. reflexivity. Qed.

(** ** [readSize] reads a big-endian number *)

Fixpoint be_lor (l : bytes) : Z :=
  match l with
  | [] => 0
  | [b] => b
  | b :: l' => Z.lor (Z.shiftl b (8 * len l')) (be_lor l')
  end.

Lemma be_lor_val l : bytes_ok l → be_lor l = be_val l.
Proof.
  induction 1 as [|b l Hb Hl IH]; [done|]. destruct l as [|c l]; [by rewrite be_val_single|].
  change (Z.lor (Z.shiftl b (8 * len (c :: l))) (be_lor (c :: l)) = be_val (b :: c :: l)).
  rewrite IH, lor_shiftl_add; [done|unfold len; lia|by apply be_val_bound].
Qed.

Lemma readSize_spec b slen :
  bytes_ok b → 1 ≤ slen ≤ 8 → slen ≤ len b →
  readSize b slen =
    if (be_val (take (Z.to_nat slen) b) <? 56) || (nth 0 b 0 =? 0) then Err ErrCanonSize
    else Ok (be_val (take (Z.to_nat slen) b)).
Proof.
  intros Hb Hs Hlen. unfold readSize.
  destruct (slen >? len b) eqn:Hgt; [apply Z.gtb_lt in Hgt; lia|]. clear Hgt.
  assert (bytes_ok (take (Z.to_nat slen) b)) as Ht by auto with go.
  rewrite <-be_lor_val by done. clear Ht Hb.
  assert (slen = 1 ∨ slen = 2 ∨ slen = 3 ∨ slen = 4 ∨ slen = 5 ∨ slen = 6 ∨ slen = 7 ∨ slen = 8)
    as H by lia. unfold len in Hlen.
  destruct_or! H; subst slen.
  all: do 8 try (destruct b as [|? b]; [try (simpl length in Hlen; lia)|]).
  all: cbn [nth]; rewrite <-?Z.lor_assoc.
  all: match goal with |- (if ?s <? 56 then _ else _) = (if (?t <? 56) || _ then _ else _) =>
         change s with t; destruct (t <? 56); [done|] end.
  all: reflexivity.
Qed.

Lemma be_bytes_lead x : 0 < x → ∃ b l, be_bytes (nbytes x) x = b :: l ∧ 0 < b < 256.
Proof.
  intros Hx. pose proof (nbytes_pos x Hx) as Hn. destruct (nbytes_spec x Hx) as [Hlo Hhi].
  destruct (nbytes x) as [|n]; [lia|]. cbn [be_bytes]. eexists _, _. split; [done|].
  replace (Z.of_nat (S n) - 1) with (Z.of_nat n) in Hlo by lia. rewrite pow2_8_succ in Hhi.
  rewrite Z.shiftr_div_pow2 by lia. set (p := 2 ^ (8 * Z.of_nat n)) in *.
  assert (0 < p) by (apply Z.pow_pos_nonneg; lia).
  assert (1 ≤ x / p) by (apply Z.div_le_lower_bound; lia).
  assert (x / p < 256) by (apply Z.div_lt_upper_bound; lia).
  rewrite u8_small by (unfold is_u8; lia). lia.
Qed.

Lemma be_val_min x : 0 ≤ x → be_val (be_bytes (nbytes x) x) = x.
Proof.
  intros Hx. rewrite be_val_be_bytes. destruct (Z.eq_dec x 0) as [->|]; [done|].
  apply Z.mod_small. destruct (nbytes_spec x); lia.
Qed.

(** A byte string without leading zero is the minimal form of its value. *)
Lemma be_min_val b l : bytes_ok (b :: l) → b ≠ 0 →
  nbytes (be_val (b :: l)) = S (length l) ∧
  be_bytes (nbytes (be_val (b :: l))) (be_val (b :: l)) = b :: l ∧ 0 < be_val (b :: l).
Proof.
  intros Hok Hb. pose proof (be_val_bound _ Hok) as Hbd.
  pose proof Hok as [Hb8 Hl]%bytes_ok_cons. pose proof (be_val_bound _ Hl) as Hbl.
  assert (2 ^ (8 * Z.of_nat (length l)) ≤ be_val (b :: l)).
  { cbn [be_val]. unfold is_u8 in Hb8. unfold len in *. nia. }
  assert (0 < be_val (b :: l)).
  { pose proof (Z.pow_pos_nonneg 2 (8 * Z.of_nat (length l))). lia. }
  assert (nbytes (be_val (b :: l)) = S (length l)) as Hn.
  { apply nbytes_is; [done|]. split; [done|]. apply Hbd. }
  split; [done|]. split; [|done]. rewrite Hn. by apply (be_bytes_be_val (b :: l)).
Qed.

Lemma readSize_complete s tl :
  is_u64 s → 56 ≤ s → bytes_ok tl →
  readSize (be_bytes (nbytes s) s ++ tl) (Z.of_nat (nbytes s)) = Ok s.
Proof.
  intros Hs H56 Htl. pose proof (nbytes_u64 _ Hs). pose proof (nbytes_pos s ltac:(lia)).
  destruct (be_bytes_lead s ltac:(lia)) as (b & l & Heq & Hb).
  rewrite readSize_spec; [| |lia|].
  - rewrite Nat2Z.id, take_app_le by (rewrite length_be_bytes; lia).
    rewrite take_ge by (rewrite length_be_bytes; lia). rewrite be_val_min by lia.
    rewrite Heq. cbn [app nth].
    destruct (Z.ltb_spec s 56); [lia|]. by destruct (Z.eqb_spec b 0); [lia|].
  - apply bytes_ok_app. auto with go.
  - autorewrite with len. pose proof (len_nonneg tl). lia.
Qed.

Lemma readSize_sound b n s :
  bytes_ok b → 1 ≤ n ≤ 8 → readSize b n = Ok s →
  ∃ tl, b = be_bytes (nbytes s) s ++ tl ∧ Z.of_nat (nbytes s) = n ∧ 56 ≤ s ∧ is_u64 s.
Proof.
  intros Hb Hn H. assert (n ≤ len b) as Hlen.
  { destruct (Z.leb_spec n (len b)); [done|]. unfold readSize in H.
    by rewrite (proj2 (Z.gtb_lt n (len b))) in H by lia. }
  rewrite readSize_spec in H by done.
  destruct (Z.ltb_spec (be_val (take (Z.to_nat n) b)) 56); [done|].
  destruct (Z.eqb_spec (nth 0 b 0) 0) as [|Hz]; [done|]. simpl in H. injection H as <-.
  unfold len in Hlen. destruct b as [|b0 b]; [simpl in Hlen; lia|].
  replace (Z.to_nat n) with (S (Z.to_nat (n - 1))) in * by lia. cbn [take] in *.
  assert (bytes_ok (b0 :: take (Z.to_nat (n - 1)) b)) as Hok.
  { apply bytes_ok_cons in Hb as [??]. apply bytes_ok_cons. auto with go. }
  destruct (be_min_val _ _ Hok Hz) as (Hnb & Heq & Hpos).
  exists (drop (Z.to_nat (n - 1)) b). rewrite Heq, Hnb. simpl length in Hlen.
  rewrite length_take. split_and!.
  - cbn [app]. by rewrite take_drop.
  - lia.
  - done.
  - split; [lia|]. eapply Z.lt_le_trans; [apply be_val_bound, Hok|].
    apply Z.pow_le_mono_r; [lia|]. rewrite len_cons. unfold len. rewrite length_take. lia.
Qed.

(** ** Canonical values

    [rlp_value k c] is the canonical encoding of content [c] with kind [k], and
    [kind_ok] says which content a kind may have. *)

Definition rlp_value (k : Kind) (c : bytes) : bytes :=
  match k with
  | Byte => c
  | String => rlp_head 0x80 (len c) ++ c
  | List => rlp_head 0xC0 (len c) ++ c
  end.

Definition kind_ok (k : Kind) (c : bytes) : Prop :=
  match k with
  | Byte => ∃ x, c = [x] ∧ 0 ≤ x < 0x80
  | String => ∀ x, c = [x] → 0x80 ≤ x
  | List => True
  end.

Definition tag_size (k : Kind) (c : bytes) : Z :=
  match k with Byte => 0 | String => len (rlp_head 0x80 (len c)) | List => len (rlp_head 0xC0 (len c)) end.

Lemma len_rlp_value k c : len (rlp_value k c) = tag_size k c + len c.
Proof. destruct k; simpl; rewrite ?len_app; lia. Qed.

Lemma tag_size_nonneg k c : 0 ≤ tag_size k c.
Proof. destruct k; simpl; auto with go. lia. Qed.

Lemma rlp_value_nonempty k c : kind_ok k c → 1 ≤ len (rlp_value k c).
Proof.
  intros Hk. rewrite len_rlp_value. destruct k; cbn [tag_size].
  - destruct Hk as (x & -> & _). done.
  - destruct (rlp_head_nonempty 0x80 (len c)) as (? & l & ->). rewrite len_cons.
    pose proof (len_nonneg c). pose proof (len_nonneg l). lia.
  - destruct (rlp_head_nonempty 0xC0 (len c)) as (? & l & ->). rewrite len_cons.
    pose proof (len_nonneg c). pose proof (len_nonneg l). lia.
Qed.

(** The final size check of [readKind] passes on a complete value. *)
Lemma readKind_finish (k : Kind) (tag c r : bytes) ts :
  is_u64 (len (tag ++ c ++ r)) → ts = len tag →
  (if len c >? u64 (len (tag ++ c ++ r) - ts) then Err ErrValueTooLarge
   else Ok (k, ts, len c)) = (Ok (k, len tag, len c) : R (Kind * Z * Z)).
Proof.
  intros H ->. unfold is_u64 in *. rewrite !len_app in *.
  pose proof (len_nonneg tag). pose proof (len_nonneg c). pose proof (len_nonneg r).
  rewrite u64_small by (unfold is_u64; lia).
  by rewrite Z.gtb_ltb, (proj2 (Z.ltb_ge _ _)) by lia.
Qed.

Lemma is_u64_app_r {A} (l k : list A) : is_u64 (len (l ++ k)) → is_u64 (len k).
Proof.
  unfold is_u64. rewrite len_app. pose proof (len_nonneg l). pose proof (len_nonneg k). lia.
Qed.
Lemma is_u64_app_l {A} (l k : list A) : is_u64 (len (l ++ k)) → is_u64 (len l).
Proof.
  unfold is_u64. rewrite len_app. pose proof (len_nonneg l). pose proof (len_nonneg k). lia.
Qed.

Ltac ltb_true := match goal with |- context [?a <? ?b] => rewrite (proj2 (Z.ltb_lt a b)) by lia end.
Ltac ltb_false := match goal with |- context [?a <? ?b] => rewrite (proj2 (Z.ltb_ge a b)) by lia end.

(** The header of a string or list is read back by [readKind]. *)
Lemma readKind_head_short k tag c r :
  (k, tag) = (String, 0x80) ∨ (k, tag) = (List, 0xC0) →
  kind_ok k c → len c < 56 → is_u64 (len ([tag + len c] ++ c ++ r)) →
  readKind ([tag + len c] ++ c ++ r) = Ok (k, 1, len c).
Proof.
  intros Hkt Hk Hs Hu. pose proof (len_nonneg c) as Hc0.
  unfold readKind. cbn [app].
  destruct Hkt as [[= -> ->]|[= -> ->]].
  - ltb_false. ltb_true. replace (0x80 + len c - 0x80) with (len c) by lia.
    rewrite (u8_small (len c)) by (unfold is_u8; lia).
    assert ((len c =? 1) && (1 <? len (128 + len c :: c ++ r)) &&
            (nth 1 (128 + len c :: c ++ r) 0 <? 128) = false) as ->.
    { destruct (Z.eqb_spec (len c) 1) as [H1|]; [|done].
      destruct c as [|x [|y c]]; [done| |exfalso; revert H1; rewrite !len_cons;
        pose proof (len_nonneg c); lia].
      cbn [app nth]. specialize (Hk x eq_refl). apply andb_false_intro2, Z.ltb_ge. lia. }
    by apply (readKind_finish String [128 + len c]).
  - do 3 ltb_false. ltb_true. replace (0xC0 + len c - 0xC0) with (len c) by lia.
    rewrite (u8_small (len c)) by (unfold is_u8; lia).
    by apply (readKind_finish List [192 + len c]).
Qed.

Lemma readKind_head_long k tag c r :
  (k, tag) = (String, 0x80) ∨ (k, tag) = (List, 0xC0) →
  56 ≤ len c → bytes_ok (c ++ r) → is_u64 (len (rlp_head tag (len c) ++ c ++ r)) →
  readKind (rlp_head tag (len c) ++ c ++ r) = Ok (k, len (rlp_head tag (len c)), len c).
Proof.
  intros Hkt Hs Hok Hu. pose proof (is_u64_app_l _ _ (is_u64_app_r _ _ Hu)) as Huc.
  pose proof (nbytes_u64 _ Huc) as Hn8. pose proof (nbytes_pos (len c) ltac:(lia)) as Hn1.
  erewrite <-(readKind_finish k _ c r) by done. unfold rlp_head in *.
  rewrite (proj2 (Z.ltb_ge (len c) 56)) in * by lia.
  rewrite len_cons, len_be_bytes, (Z.add_comm 1 (Z.of_nat _)).
  rewrite <-!app_comm_cons. unfold readKind.
  destruct Hkt as [[= -> ->]|[= -> ->]].
  - do 2 ltb_false. ltb_true.
    replace (0x80 + 55 + Z.of_nat (nbytes (len c)) - 0xB7) with (Z.of_nat (nbytes (len c))) by lia.
    rewrite u8_small by (unfold is_u8; lia). by rewrite readSize_complete by (done || lia).
  - do 4 ltb_false.
    replace (0xC0 + 55 + Z.of_nat (nbytes (len c)) - 0xF7) with (Z.of_nat (nbytes (len c))) by lia.
    rewrite u8_small by (unfold is_u8; lia). by rewrite readSize_complete by (done || lia).
Qed.

Lemma readKind_complete k c r :
  kind_ok k c → bytes_ok (c ++ r) → is_u64 (len (rlp_value k c ++ r)) →
  readKind (rlp_value k c ++ r) = Ok (k, tag_size k c, len c).
Proof.
  intros Hk Hok Hu. destruct k; cbn [rlp_value tag_size] in *.
  - destruct Hk as (x & -> & Hx). unfold readKind. cbn [app]. ltb_true.
    by apply (readKind_finish Byte [] [x]).
  - rewrite <-app_assoc in *. destruct (Z.lt_ge_cases (len c) 56).
    + unfold rlp_head in *. rewrite (proj2 (Z.ltb_lt (len c) 56)) in * by done.
      by apply (readKind_head_short String); auto.
    + by apply readKind_head_long; auto.
  - rewrite <-app_assoc in *. destruct (Z.lt_ge_cases (len c) 56).
    + unfold rlp_head in *. rewrite (proj2 (Z.ltb_lt (len c) 56)) in * by done.
      by apply (readKind_head_short List); auto.
    + by apply readKind_head_long; auto.
Qed.

(** Cutting the content of size [cs] off what follows the header. *)
Lemma take_content (rest : bytes) cs :
  0 ≤ cs ≤ len rest → ∃ c r, rest = c ++ r ∧ len c = cs.
Proof.
  intros H. exists (take (Z.to_nat cs) rest), (drop (Z.to_nat cs) rest).
  unfold len in *. rewrite take_drop, length_take. split; [done|lia].
Qed.

Lemma readKind_finish_inv (k k' : Kind) (buf : bytes) ts cs ts' cs' :
  (if cs >? u64 (len buf - ts) then Err ErrValueTooLarge else Ok (k, ts, cs))
    = (Ok (k', ts', cs') : R (Kind * Z * Z)) →
  is_u64 (len buf) → 0 ≤ ts ≤ len buf → k' = k ∧ ts' = ts ∧ cs' = cs ∧ cs ≤ len buf - ts.
Proof.
  intros H Hu Hts. unfold is_u64 in Hu. rewrite u64_small in H by (unfold is_u64; lia).
  rewrite Z.gtb_ltb in H. destruct (Z.ltb_spec (len buf - ts) cs); [done|].
  by injection H as <- <- <-.
Qed.

(** What a one-byte header followed by enough bytes is. *)
Lemma head_short_sound tag b rest :
  tag ≤ b < tag + 56 → b - tag ≤ len rest →
  ∃ c r, b :: rest = (rlp_head tag (len c) ++ c) ++ r ∧ len c = b - tag ∧
         len (rlp_head tag (len c)) = 1 ∧ rest = c ++ r.
Proof.
  intros Hb Hl. destruct (take_content rest (b - tag)) as (c & r & -> & Hc); [lia|].
  exists c, r. unfold rlp_head. rewrite Hc, (proj2 (Z.ltb_lt _ 56)) by lia.
  cbn [app]. replace (tag + (b - tag)) with b by lia. done.
Qed.

(** What a header with an explicit size followed by enough bytes is. *)
Lemma head_long_sound tag b rest s :
  tag + 56 ≤ b < tag + 64 → bytes_ok rest → readSize rest (b - tag - 55) = Ok s →
  s ≤ len (b :: rest) - (b - tag - 55 + 1) →
  ∃ c r, b :: rest = (rlp_head tag (len c) ++ c) ++ r ∧ len c = s ∧ 56 ≤ s ∧
         len (rlp_head tag (len c)) = b - tag - 55 + 1.
Proof.
  intros Hb Hok Hrs Hl.
  apply readSize_sound in Hrs as (tl & -> & Hn & H56 & Hs64); [|done|lia].
  rewrite len_cons, len_app, len_be_bytes in Hl.
  destruct (take_content tl s) as (c & r & -> & Hc); [lia|].
  exists c, r. unfold rlp_head. subst s. rewrite (proj2 (Z.ltb_ge _ 56)) by lia.
  rewrite len_cons, len_be_bytes, <-app_assoc, <-app_comm_cons.
  replace (tag + 55 + Z.of_nat (nbytes (len c))) with b by lia. split_and!; done || lia.
Qed.

Lemma readSize_len b n s : readSize b n = Ok s → n ≤ len b.
Proof.
  unfold readSize. rewrite Z.gtb_ltb. by destruct (Z.ltb_spec (len b) n).
Qed.

Lemma readKind_sound b k ts cs :
  bytes_ok b → is_u64 (len b) → readKind b = Ok (k, ts, cs) →
  ∃ c r, b = rlp_value k c ++ r ∧ kind_ok k c ∧ ts = tag_size k c ∧ cs = len c.
Proof.
  intros Hok Hu H. destruct b as [|b rest]; [done|]. unfold readKind in H.
  apply bytes_ok_cons in Hok as [Hb Hrest]. unfold is_u8 in Hb.
  assert (1 ≤ len (b :: rest)) as H1 by (rewrite len_cons; pose proof (len_nonneg rest); lia).
  destruct (Z.ltb_spec b 0x80) as [H80|H80].
  { apply readKind_finish_inv in H as (-> & -> & -> & _); [|done|lia].
    exists [b], rest. split_and!; [done|exists b; split; [done|lia]|done..]. }
  destruct (Z.ltb_spec b 0xB8) as [HB8|HB8].
  { rewrite u8_small in H by (unfold is_u8; lia).
    destruct ((b - 128 =? 1) && _ && _) eqn:Hcan; [done|].
    apply readKind_finish_inv in H as (-> & -> & -> & Hl); [|done|lia]. rewrite len_cons in Hl.
    destruct (head_short_sound 0x80 b rest) as (c & r & Heq & Hc & Ht & ->); [lia..|].
    exists c, r. split_and!; try done. intros x ->. rewrite <-Hc in Hcan.
    apply andb_false_elim in Hcan as [Hcan|Hcan]; [|by apply Z.ltb_ge in Hcan].
    apply Z.ltb_ge in Hcan. autorewrite with len in Hcan. pose proof (len_nonneg r). lia. }
  destruct (Z.ltb_spec b 0xC0) as [HC0|HC0].
  { rewrite u8_small in H by (unfold is_u8; lia).
    destruct (readSize rest (b - 0xB7)) as [s| | |] eqn:Hrs; try done.
    pose proof (readSize_len _ _ _ Hrs).
    apply readKind_finish_inv in H as (-> & -> & -> & Hl); [|done|rewrite len_cons; lia].
    replace (b - 0xB7) with (b - 0x80 - 55) in Hrs, Hl |- * by lia.
    destruct (head_long_sound 0x80 b rest s) as (c & r & Heq & Hc & H56 & Ht); [done || lia..|].
    exists c, r. cbn [tag_size]. split_and!; try done; try lia. intros x ->.
    by subst s. }
  destruct (Z.ltb_spec b 0xF8) as [HF8|HF8].
  { rewrite u8_small in H by (unfold is_u8; lia).
    apply readKind_finish_inv in H as (-> & -> & -> & Hl); [|done|lia]. rewrite len_cons in Hl.
    destruct (head_short_sound 0xC0 b rest) as (c & r & Heq & Hc & Ht & ->); [lia..|].
    by exists c, r. }
  rewrite u8_small in H by (unfold is_u8; lia).
  destruct (readSize rest (b - 0xF7)) as [s| | |] eqn:Hrs; try done.
  pose proof (readSize_len _ _ _ Hrs).
  apply readKind_finish_inv in H as (-> & -> & -> & Hl); [|done|rewrite len_cons; lia].
  replace (b - 0xF7) with (b - 0xC0 - 55) in Hrs, Hl |- * by lia.
  destruct (head_long_sound 0xC0 b rest s) as (c & r & Heq & Hc & H56 & Ht); [done || lia..|].
  exists c, r. cbn [tag_size]. split_and!; done || lia.
Qed.

(** ** Splitting is the inverse of encoding *)

Lemma readSize_total l n : 1 ≤ n → (∃ s, readSize l n = Ok s) ∨ (∃ e, readSize l n = Err e).
Proof.
  intros Hn. unfold readSize. rewrite Z.gtb_ltb. destruct (Z.ltb_spec (len l) n); [by eauto|].
  destruct l as [|b l]; [rewrite len_nil in *; lia|].
  match goal with |- context [?x <? 56] => destruct (x <? 56) end; [by eauto|].
  change (go_index (b :: l) 0) with (Ok b : R Z). cbn [mbind res_bind].
  destruct (b =? 0); eauto.
Qed.

Lemma readKind_total b :
  bytes_ok b → (∃ r, readKind b = Ok r) ∨ (∃ e, readKind b = Err e).
Proof.
  destruct b as [|b rest]; [by eauto|]. intros [Hb _]%bytes_ok_cons. unfold is_u8 in Hb.
  unfold readKind.
  destruct (Z.ltb_spec b 0x80); [cbn; case_match; eauto|].
  destruct (Z.ltb_spec b 0xB8); [destruct (_ && _); [by eauto|]; cbn; case_match; eauto|].
  destruct (Z.ltb_spec b 0xC0).
  { rewrite u8_small by (unfold is_u8; lia).
    destruct (readSize_total rest (b - 0xB7)) as [[? ->]|[? ->]]; [lia| |by eauto].
    cbn. case_match; eauto. }
  destruct (Z.ltb_spec b 0xF8); [cbn; case_match; eauto|].
  rewrite u8_small by (unfold is_u8; lia).
  destruct (readSize_total rest (b - 0xF7)) as [[? ->]|[? ->]]; [lia| |by eauto].
  cbn. case_match; eauto.
Qed.

(** The two slice expressions of [Split] on a canonical value. *)
Lemma go_slices_value k c r :
  is_u64 (len (rlp_value k c ++ r)) →
  go_slice (E:=rlp_err) (rlp_value k c ++ r) (tag_size k c) (u64 (tag_size k c + len c)) = Ok c ∧
  go_slice (E:=rlp_err) (rlp_value k c ++ r) (u64 (tag_size k c + len c))
    (len (rlp_value k c ++ r)) = Ok r.
Proof.
  intros Hu. rewrite <-len_rlp_value, u64_small by (by eapply is_u64_app_l). split.
  - assert (∃ t, rlp_value k c = t ++ c ∧ len t = tag_size k c) as (t & Ht & Hlt).
    { destruct k; [by exists []|by eexists|by eexists]. }
    rewrite Ht, <-app_assoc. apply go_slice_app; [done|]. rewrite len_app. lia.
  - apply go_slice_tail, len_app.
Qed.

Lemma Split_value k c r :
  kind_ok k c → bytes_ok (c ++ r) → is_u64 (len (rlp_value k c ++ r)) →
  Split (rlp_value k c ++ r) = Ok (k, c, r).
Proof.
  intros Hk Hok Hu. destruct (go_slices_value k c r Hu) as [H1 H2].
  unfold Split. rewrite readKind_complete by done. cbn. rewrite H1. cbn. by rewrite H2.
Qed.

Lemma Split_Ok_inv b k c r :
  bytes_ok b → is_u64 (len b) → Split b = Ok (k, c, r) → b = rlp_value k c ++ r ∧ kind_ok k c.
Proof.
  intros Hok Hu H. unfold Split in H.
  destruct (readKind b) as [[[k' ts] cs]| | |] eqn:Hrk; try done.
  apply readKind_sound in Hrk as (c' & r' & -> & Hk & -> & ->); [|done..].
  destruct (go_slices_value k' c' r' Hu) as [H1 H2].
  cbn in H. rewrite H1 in H. cbn in H. rewrite H2 in H. by injection H as <- <- <-.
Qed.

(** C27: [Split] accepts exactly the canonical encodings: on any byte string of
    a length a Go slice can have, it returns kind [k], content [c] and rest [r]
    if and only if the input is the canonical encoding of [c] as a [k] followed
    by [r]. *)
Theorem Split_canonical b k c r :
  bytes_ok b → is_u64 (len b) →
  Split b = Ok (k, c, r) ↔ b = rlp_value k c ++ r ∧ kind_ok k c.
Proof.
  intros Hok Hu. split; [by apply Split_Ok_inv|]. intros [-> Hk].
  apply Split_value; [done| |done].
  apply bytes_ok_app in Hok as [Hv Hr]. apply bytes_ok_app. split; [|done].
  destruct k; [done|by apply bytes_ok_app in Hv as [_ ?]..].
Qed.

Lemma Split_canonical_witness :
  Split [0x82; 1; 2; 9] = Ok (String, [1; 2], [9]) ↔
  [0x82; 1; 2; 9] = rlp_value String [1; 2] ++ [9] ∧ kind_ok String [1; 2].
Proof.
  apply Split_canonical; [|done].
  repeat constructor; done.
Defined.

(** [Split], on every byte string, either returns a value or one of the
    errors of the decoder; in particular its slice expressions never panic,
    whatever sizes the input declares. *)
Theorem Split_no_panic b :
  bytes_ok b → is_u64 (len b) →
  (∃ k c r, Split b = Ok (k, c, r)) ∨ (∃ e, Split b = Err e).
Proof.
  intros Hok Hu. unfold Split.
  destruct (readKind_total b Hok) as [[[[k ts] cs] Hrk]|[e ->]]; [|by eauto].
  rewrite Hrk. apply readKind_sound in Hrk as (c & r & -> & Hk & -> & ->); [|done..].
  destruct (go_slices_value k c r Hu) as [H1 H2]. cbn. rewrite H1. cbn. rewrite H2. cbn. eauto 6.
Qed.

Lemma Split_no_panic_witness :
  (∃ k c r, Split [0xBF; 255; 255; 255; 255; 255; 255; 255; 255] = Ok (k, c, r)) ∨
  (∃ e, Split [0xBF; 255; 255; 255; 255; 255; 255; 255; 255] = Err e).
Proof. apply Split_no_panic; [|done]. repeat constructor; done. Defined.

(** ** Integers *)

Lemma AppendUint64_spec b x : is_u64 x → AppendUint64 b x = b ++ rlp_scalar x.
Proof.
  intros Hx. unfold AppendUint64, rlp_scalar. pose proof Hx as [H0 H1].
  destruct (Z.eqb_spec x 0) as [->|Hnz]; [done|].
  pose proof (putint_spec x Hx ltac:(lia)) as Hp. revert Hp. unfold putint.
  destruct (Z.ltb_spec x 128) as [H128|H128].
  { rewrite Z.shiftl_1_l, (proj2 (Z.ltb_lt x (2 ^ 8))) by lia. intros <-.
    rewrite u8_small by (unfold is_u8; lia). cbn. by rewrite (proj2 (Z.ltb_lt x 128)) by done. }
  rewrite !Z.shiftl_1_l.
  destruct (Z.ltb_spec x (2 ^ 8)).
  { intros <-. rewrite u8_small by (unfold is_u8; lia). cbn.
    by rewrite (proj2 (Z.ltb_ge x 128)) by done. }
  repeat case_ltb; intros <-; reflexivity.
Qed.

Lemma IntSize_spec x : is_u64 x → IntSize x = len (rlp_scalar x).
Proof.
  intros Hx. pose proof Hx as [H0 H1]. unfold IntSize, rlp_scalar.
  destruct (Z.ltb_spec x 0x80) as [Hs|Hs].
  - destruct (Z.eq_dec x 0) as [->|]; [done|].
    rewrite (nbytes_is x 0) by (simpl Z.of_nat; lia). cbn.
    rewrite Z.shiftr_0_r, u8_small by (unfold is_u8; lia). by rewrite (proj2 (Z.ltb_lt x 128)).
  - rewrite intsize_spec by (done || lia).
    destruct (rlp_string_cases (be_bytes (nbytes x) x)) as [(y & Hy & Hlt & _)|[_ ->]].
    + pose proof (be_val_min x H0) as Hv. rewrite Hy, be_val_single in Hv. lia.
    + rewrite len_app, len_be_bytes. unfold rlp_head.
      pose proof (nbytes_u64 x Hx). by rewrite (proj2 (Z.ltb_lt _ 56)) by lia.
Qed.

(** An encoded string is a canonical value that is not a list, and conversely. *)
Lemma rlp_string_value c :
  bytes_ok c → ∃ k, k ≠ List ∧ rlp_string c = rlp_value k c ∧ kind_ok k c.
Proof.
  intros Hok. destruct (rlp_string_cases c) as [(x & -> & Hx & ->)|[Hk ->]].
  - exists Byte. apply bytes_ok_cons in Hok as [[? ?] _]. split_and!; [done..|]. by exists x.
  - by exists String.
Qed.

Lemma rlp_value_string k c : k ≠ List → kind_ok k c → rlp_value k c = rlp_string c.
Proof.
  intros Hl Hk. destruct k; [| |done].
  - destruct Hk as (x & -> & Hx). simpl. by rewrite (proj2 (Z.ltb_lt x 128)) by lia.
  - destruct (rlp_string_cases c) as [(x & -> & Hx & _)|[_ ->]]; [|done].
    specialize (Hk x eq_refl). lia.
Qed.

Lemma SplitString_Ok_inv b c r :
  bytes_ok b → is_u64 (len b) → SplitString b = Ok (c, r) → b = rlp_string c ++ r.
Proof.
  intros Hok Hu H. unfold SplitString in H.
  destruct (Split b) as [[[k c'] r']| | |] eqn:Hs; try done. cbn in H.
  case_bool_decide as Hk; [done|]. injection H as -> ->.
  apply Split_Ok_inv in Hs as [-> Hko]; [|done..]. by rewrite rlp_value_string.
Qed.

Lemma SplitString_string c r :
  bytes_ok (c ++ r) → is_u64 (len (rlp_string c ++ r)) →
  SplitString (rlp_string c ++ r) = Ok (c, r).
Proof.
  intros Hok Hu. pose proof Hok as [Hc _]%bytes_ok_app.
  destruct (rlp_string_value c Hc) as (k & Hk & Heq & Hko). rewrite Heq in *.
  unfold SplitString. rewrite Split_value by done. cbn. by rewrite bool_decide_eq_false_2.
Qed.

Lemma SplitList_list c r :
  bytes_ok (c ++ r) → is_u64 (len (rlp_list c ++ r)) →
  SplitList (rlp_list c ++ r) = Ok (c, r).
Proof.
  intros Hok Hu. unfold SplitList. change (rlp_list c) with (rlp_value List c) in *.
  by rewrite Split_value.
Qed.

Lemma SplitList_Ok_inv b c r :
  bytes_ok b → is_u64 (len b) → SplitList b = Ok (c, r) → b = rlp_list c ++ r.
Proof.
  intros Hok Hu H. unfold SplitList in H.
  destruct (Split b) as [[[k c'] r']| | |] eqn:Hs; try done. cbn in H.
  case_bool_decide as Hk; [|done]. injection H as -> ->.
  by apply Split_Ok_inv in Hs as [-> _]; subst.
Qed.

Lemma SplitUint64_Ok_inv b x r :
  bytes_ok b → is_u64 (len b) → SplitUint64 b = Ok (x, r) → is_u64 x ∧ b = rlp_scalar x ++ r.
Proof.
  intros Hok Hu H. unfold SplitUint64 in H.
  destruct (SplitString b) as [[c r']| | |] eqn:Hs; try done. cbn in H.
  apply SplitString_Ok_inv in Hs as ->; [|done..].
  assert (bytes_ok c) as Hc.
  { apply bytes_ok_app in Hok as [Hok _].
    destruct (rlp_string_cases c) as [(? & -> & ? & <-)|[_ Heq]]; [done|].
    rewrite Heq in Hok. by apply bytes_ok_app in Hok as [_ ?]. }
  assert (∀ y, is_u64 y → be_bytes (nbytes y) y = c → is_u64 y ∧ rlp_string c ++ r' = rlp_scalar y ++ r')
    as Hfin by (intros y Hy <-; done).
  destruct c as [|b0 [|b1 c]].
  - injection H as <- <-. by apply Hfin.
  - apply bytes_ok_cons in Hc as [Hb _]. unfold is_u8 in Hb.
    destruct (Z.eqb_spec b0 0); [done|]. injection H as <- <-.
    apply Hfin; [unfold is_u64; lia|]. rewrite (nbytes_is b0 0) by (simpl Z.of_nat; lia).
    cbn. by rewrite Z.shiftr_0_r, u8_small.
  - rewrite Z.gtb_ltb in H. destruct (Z.ltb_spec 8 (len (b0 :: b1 :: c))) as [|H8]; [done|].
    rewrite u8_small in H by (unfold is_u8; pose proof (len_nonneg (b0 :: b1 :: c)); lia).
    destruct (readSize _ _) as [y| | |] eqn:Hrs; try done. injection H as <- <-.
    apply readSize_sound in Hrs as (tl & Heq & Hn & _ & Hy64); [|done|].
    2: rewrite !len_cons in *; pose proof (len_nonneg c); lia.
    apply Hfin; [done|]. rewrite Heq in Hn |- *. autorewrite with len in Hn.
    destruct tl as [|t tl]; [by rewrite app_nil_r|]. rewrite len_cons in Hn.
    pose proof (len_nonneg tl). lia.
Qed.

(** The integer codec is a bijection between the [uint64]s and the inputs
    that [SplitUint64] accepts: it returns [x] and the rest exactly on the bytes
    [AppendUint64] produces for [x], followed by that rest. *)
Theorem SplitUint64_AppendUint64 b x r :
  bytes_ok b → is_u64 (len b) →
  SplitUint64 b = Ok (x, r) ↔ is_u64 x ∧ b = AppendUint64 [] x ++ r.
Proof.
  intros Hok Hu. split.
  - intros H. apply SplitUint64_Ok_inv in H as [Hx ->]; [|done..].
    by rewrite AppendUint64_spec.
  - intros [Hx ->]. rewrite AppendUint64_spec in * by done. cbn [app] in *.
    apply bytes_ok_app in Hok as [_ Hr]. unfold SplitUint64, rlp_scalar in *.
    rewrite SplitString_string; [|apply bytes_ok_app; auto with go|done]. cbn.
    destruct Hx as [H0 H1]. destruct (Z.eq_dec x 0) as [->|Hx0]; [done|].
    pose proof (nbytes_u64 x ltac:(done)) as Hn.
    destruct (be_bytes_lead x ltac:(lia)) as (b0 & l & Heq & Hb0).
    pose proof (be_val_min x H0) as Hv. rewrite Heq in *.
    pose proof (len_be_bytes (nbytes x) x) as Hlen. rewrite Heq in Hlen.
    destruct l as [|b1 l].
    + rewrite be_val_single in Hv. subst b0. by destruct (Z.eqb_spec x 0).
    + rewrite Hlen, Z.gtb_ltb, (proj2 (Z.ltb_ge 8 _)) by lia.
      rewrite u8_small by (unfold is_u8; lia).
      rewrite <-(app_nil_r (b0 :: b1 :: l)), <-Heq, readSize_complete; [done|done| |constructor].
      enough (2 ^ 8 ≤ x) by lia. apply nbytes_ge_2; [lia|]. rewrite !len_cons in Hlen.
      pose proof (len_nonneg l). lia.
Qed.

Lemma SplitUint64_AppendUint64_witness :
  SplitUint64 [0x82; 1; 0; 7] = Ok (256, [7]) ↔
  is_u64 256 ∧ [0x82; 1; 0; 7] = AppendUint64 [] 256 ++ [7].
Proof. apply SplitUint64_AppendUint64; [repeat constructor; done|done]. Defined.

(** ** Counting values *)

(** A sequence of canonical values, as its kinds and contents. *)
Definition rlp_values (vs : list (Kind * bytes)) : bytes :=
  concat (map (λ v, rlp_value v.1 v.2) vs).

Lemma CountValues_loop_values fuel i vs :
  Forall (λ v, kind_ok v.1 v.2) vs → bytes_ok (rlp_values vs) → is_u64 (len (rlp_values vs)) →
  (length (rlp_values vs) ≤ fuel)%nat →
  CountValues_loop fuel i (rlp_values vs) = Ok (i + len vs).
Proof.
  revert fuel i. induction vs as [|[k c] vs IH]; intros fuel i Hk Hok Hu Hf.
  { destruct fuel; cbn; f_equal; rewrite len_nil; lia. }
  apply Forall_cons_iff in Hk as [Hk Hks]. cbn [fst snd] in Hk.
  change (rlp_values ((k, c) :: vs)) with (rlp_value k c ++ rlp_values vs) in *.
  pose proof (rlp_value_nonempty k c Hk) as Hne.
  pose proof Hok as [Hv Hvs]%bytes_ok_app.
  assert (bytes_ok (c ++ rlp_values vs)) as Hok'.
  { apply bytes_ok_app. split; [|done]. destruct k; [done|by apply bytes_ok_app in Hv as [_ ?]..]. }
  rewrite length_app in Hf. unfold len in Hne.
  destruct fuel as [|fuel]; [lia|].
  assert (∃ b l, rlp_value k c ++ rlp_values vs = b :: l) as (b & l & Hbl).
  { destruct (rlp_value k c) as [|b l]; [simpl in Hne; lia|]. eexists _, _. apply app_comm_cons. }
  destruct (go_slices_value k c (rlp_values vs) Hu) as [_ Hsl].
  pose proof (readKind_complete k c _ Hk Hok' Hu) as Hrk.
  rewrite Hbl in *. cbn [CountValues_loop]. rewrite Hrk. cbn [mbind res_bind]. rewrite Hsl.
  cbn [mbind res_bind]. rewrite IH; [rewrite len_cons; f_equal; lia|done..| |lia].
  by eapply is_u64_app_r; rewrite Hbl.
Qed.

Lemma CountValues_loop_inv fuel i b n :
  bytes_ok b → is_u64 (len b) → CountValues_loop fuel i b = Ok n →
  ∃ vs, b = rlp_values vs ∧ Forall (λ v, kind_ok v.1 v.2) vs ∧ n = i + len vs.
Proof.
  revert i b. induction fuel as [|fuel IH]; intros i b Hok Hu H.
  { destruct b; [|done]. injection H as <-. exists []. split_and!; [done..|]. rewrite len_nil. lia. }
  destruct b as [|b0 b].
  { injection H as <-. exists []. split_and!; [done..|]. rewrite len_nil. lia. }
  cbn [CountValues_loop] in H.
  destruct (readKind (b0 :: b)) as [[[k ts] cs]| | |] eqn:Hrk; try done.
  apply readKind_sound in Hrk as (c & r & Heq & Hk & -> & ->); [|done..].
  rewrite Heq in *. destruct (go_slices_value k c r Hu) as [_ Hsl].
  cbn [mbind res_bind] in H. rewrite Hsl in H. cbn [mbind res_bind] in H.
  apply IH in H as (vs & -> & Hks & ->);
    [|by apply bytes_ok_app in Hok as [_ ?]|by eapply is_u64_app_r].
  exists ((k, c) :: vs). split_and!; [done|by constructor|]. rewrite len_cons. lia.
Qed.

(** [CountValues] returns [n] exactly when the input is a sequence of [n]
    canonical values (so it accepts nothing else, and its loop terminates
    within one iteration per input byte). *)
Theorem CountValues_spec b n :
  bytes_ok b → is_u64 (len b) →
  CountValues b = Ok n ↔
  ∃ vs, b = rlp_values vs ∧ Forall (λ v, kind_ok v.1 v.2) vs ∧ n = len vs.
Proof.
  intros Hok Hu. unfold CountValues. split.
  - intros H. by apply CountValues_loop_inv in H.
  - intros (vs & -> & Hk & ->). by rewrite CountValues_loop_values.
Qed.

Lemma CountValues_spec_witness :
  CountValues [0x83; 100; 111; 103; 7; 0xC0] = Ok 3 ↔
  ∃ vs, [0x83; 100; 111; 103; 7; 0xC0] = rlp_values vs ∧
        Forall (λ v, kind_ok v.1 v.2) vs ∧ 3 = len vs.
Proof. apply CountValues_spec; [repeat constructor; done|done]. Defined.

(** On malformed data the iterator reports the error but does not move: a
    caller that only loops on [Next] never stops. *)
Lemma it_Next_stuck it e :
  it_data it ≠ [] → readKind (it_data it) = Err e →
  it_Next it = Ok (true, mk_listIterator (it_data it) [] (Some e)).
Proof.
  intros Hd Hrk. unfold it_Next. rewrite Hrk. destruct (it_data it) as [|b l]; [done|].
  change (u64 (0 + 0)) with 0. rewrite !go_slice_ok by (pose proof (len_nonneg (b :: l)); lia).
  cbn. unfold len. rewrite Z.sub_0_r, Nat2Z.id. by rewrite firstn_all.
Qed.
