(* ===== verification/RlpEncode.v ===== *)
(** * The RLP encoder (src/geth/rlp/encode.go)

    The encoder writes string data into one buffer and keeps the list headers
    aside ([encbuf.lheads]), because the size of a list is known only at
    [listEnd]; the headers are merged in when the output is produced, by
    [toBytes], by [toWriter] or piecewise by [encReader].  This file models the
    buffer, the writer function of every kind of Go value, and the three output
    routines, and proves that all three produce the reference encoding. *)
From S2P Require Import Prelude RlpBase RlpRaw.

#[local] Set Warnings "-register-all".

(** ** The buffer *)

Record listhead := mk_listhead { lh_offset : Z; lh_size : Z }.

(** [sizebuf], a scratch buffer overwritten before each use, is left out. *)
Record encbuf := mk_encbuf { str : bytes; lheads : list listhead; lhsize : Z }.

Definition reset : encbuf := mk_encbuf [] [] 0.

(** [Write], and every [w.str = append(w.str, ...)]. *)
Definition append_str (b : bytes) (w : encbuf) : encbuf :=
  mk_encbuf (str w ++ b) (lheads w) (lhsize w).

Definition encbuf_size (w : encbuf) : Z := len (str w) + lhsize w.

(** [head.encode]. *)
Definition head_encode (h : listhead) : bytes := puthead 0xC0 0xF7 (u64 (lh_size h)).

Definition encodeStringHeader (size : Z) (w : encbuf) : encbuf :=
  if size <? 56 then append_str [u8 (0x80 + u8 size)] w
  else
    let s := putint (u64 size) in
    append_str (u8 (0xB7 + u8 (len s)) :: s) w.

Definition encodeString (b : bytes) (w : encbuf) : encbuf :=
  match b with
  | [x] => if x <=? 0x7F then append_str [x] w
           else append_str b (encodeStringHeader (len b) w)
  | _ => append_str b (encodeStringHeader (len b) w)
  end.

Definition encodeUint (i : Z) (w : encbuf) : encbuf :=
  if i =? 0 then append_str [0x80] w
  else if i <? 128 then append_str [u8 i] w
  else let s := putint i in append_str (u8 (0x80 + u8 (len s)) :: s) w.

(** [list] returns the index of the new header. *)
Definition enc_list (w : encbuf) : nat * encbuf :=
  (length (lheads w),
   mk_encbuf (str w) (lheads w ++ [mk_listhead (len (str w)) (lhsize w)]) (lhsize w)).

Definition enc_listEnd (index : nat) (w : encbuf) : R encbuf :=
  match lheads w !! index with
  | None => Panic runtime_error
  | Some lh =>
      let size := encbuf_size w - lh_offset lh - lh_size lh in
      let heads := <[index := mk_listhead (lh_offset lh) size]> (lheads w) in
      Ok (mk_encbuf (str w) heads
            (if size <? 56 then lhsize w + 1 else lhsize w + (1 + intsize (u64 size))))
  end.

(** ** Output *)

(** [copy(out[pos:], src)]: how many bytes are copied, and the new [out]. *)
Definition copy_at (out : bytes) (pos : Z) (src : bytes) : R (Z * bytes) :=
  if decide (0 ≤ pos ≤ len out) then
    let n := Z.min (len out - pos) (len src) in
    Ok (n, take (Z.to_nat pos) out ++ take (Z.to_nat n) src ++ drop (Z.to_nat (pos + n)) out)
  else Panic runtime_error.

(** [head.encode(out[pos:])]: the header is stored in place; a panic if it does
    not fit. *)
Definition puthead_at (out : bytes) (pos : Z) (h : listhead) : R (Z * bytes) :=
  let enc := head_encode h in
  if decide (0 ≤ pos ∧ pos + len enc ≤ len out) then
    Ok (len enc, take (Z.to_nat pos) out ++ enc ++ drop (Z.to_nat (pos + len enc)) out)
  else Panic runtime_error.

Fixpoint toBytes_loop (s : bytes) (heads : list listhead) (strpos pos : Z) (out : bytes)
    : R bytes :=
  match heads with
  | [] =>
      src ← go_slice s strpos (len s);
      '(_, out) ← copy_at out pos src;
      Ok out
  | h :: heads =>
      src ← go_slice s strpos (lh_offset h);
      '(n, out) ← copy_at out pos src;
      '(m, out) ← puthead_at out (pos + n) h;
      toBytes_loop s heads (strpos + n) (pos + n + m) out
  end.

(** [toBytes]: the output slice is allocated with [w.size()] zero bytes. *)
Definition toBytes (w : encbuf) : R bytes :=
  toBytes_loop (str w) (lheads w) 0 0 (replicate (Z.to_nat (encbuf_size w)) 0).

(** [toWriter] as the sequence of byte strings passed to [out.Write], for a
    writer that accepts everything it is given. *)
Fixpoint toWriter_loop (s : bytes) (heads : list listhead) (strpos : Z) : R (list bytes) :=
  match heads with
  | [] =>
      if strpos <? len s then src ← go_slice s strpos (len s); Ok [src] else Ok []
  | h :: heads =>
      if lh_offset h - strpos >? 0 then
        src ← go_slice s strpos (lh_offset h);
        rest ← toWriter_loop s heads (strpos + len src);
        Ok (src :: head_encode h :: rest)
      else
        rest ← toWriter_loop s heads strpos;
        Ok (head_encode h :: rest)
  end.
Definition toWriter (w : encbuf) : R (list bytes) := toWriter_loop (str w) (lheads w) 0.

(** [encReader]: [rd_buf] is [None] after EOF, [rd_piece] is [None] for nil. *)
Record encReader := mk_encReader {
  rd_buf : option encbuf;
  rd_lhpos : nat;
  rd_strpos : Z;
  rd_piece : option bytes;
}.

Definition rd_next (r : encReader) : R (option bytes * encReader) :=
  match rd_buf r with
  | None => Ok (None, r)
  | Some w =>
      match rd_piece r with
      | Some p => Ok (Some p, r)
      | None =>
          match lheads w !! rd_lhpos r with
          | Some head =>
              let sizebefore := lh_offset head - rd_strpos r in
              if sizebefore >? 0 then
                p ← go_slice (str w) (rd_strpos r) (lh_offset head);
                Ok (Some p, mk_encReader (Some w) (rd_lhpos r) (rd_strpos r + sizebefore) None)
              else
                Ok (Some (head_encode head),
                    mk_encReader (Some w) (S (rd_lhpos r)) (rd_strpos r) None)
          | None =>
              if rd_strpos r <? len (str w) then
                p ← go_slice (str w) (rd_strpos r) (len (str w));
                Ok (Some p, mk_encReader (Some w) (rd_lhpos r) (len (str w)) None)
              else Ok (None, r)
          end
      end
  end.

(** The loop of [Read] into a buffer with [room] bytes left; the result is what
    was copied, whether [io.EOF] is returned, and the new reader. *)
Fixpoint rd_Read_loop (fuel : nat) (room : nat) (acc : bytes) (r : encReader)
    : R (bytes * bool * encReader) :=
  match fuel with
  | O => OutOfFuel
  | S fuel =>
      '(p, r) ← rd_next r;
      match p with
      | None => Ok (acc, true, mk_encReader None (rd_lhpos r) (rd_strpos r) None)
      | Some p =>
          let nn := Nat.min room (length p) in
          let acc := acc ++ take nn p in
          if (nn <? length p)%nat then
            Ok (acc, false, mk_encReader (rd_buf r) (rd_lhpos r) (rd_strpos r) (Some (drop nn p)))
          else
            rd_Read_loop fuel (room - nn) acc
              (mk_encReader (rd_buf r) (rd_lhpos r) (rd_strpos r) None)
      end
  end.
(** Each header contributes at most two pieces, and there is one tail piece and
    one pending piece. *)
Definition rd_Read (n : nat) (r : encReader) : R (bytes * bool * encReader) :=
  rd_Read_loop (match rd_buf r with Some w => 2 * length (lheads w) + 3 | None => 1 end) n [] r.

(** ** Go values and their writers

    [makeWriter] chooses a writer by reflection on the type of the value; a
    [gval] is a value together with the choice made for its type.  A struct field
    carries its [optional] tag and the result of [reflect.Value.IsZero]; a pointer
    carries the kind [nilEncoding] chose for nil.  Values with a custom
    [EncodeRLP] are not modelled. *)

Inductive gval :=
| VRaw (b : bytes)                        (* rawValueType *)
| VBigIntPtr (i : option Z)               (* *big.Int *)
| VBigInt (i : Z)                         (* big.Int *)
| VPtr (nilKind : Kind) (v : option gval) (* reflect.Ptr *)
| VUint (i : Z)
| VBool (b : bool)
| VString (s : bytes)
| VBytes (b : bytes)                      (* slice of bytes *)
| VByteArray (b : bytes)                  (* array of bytes *)
| VSlice (tail : bool) (l : list gval)    (* other slices and arrays *)
| VStruct (fields : list (bool * bool * gval))
| VInterface (v : option gval).

(** [i.Bits()]: the little-endian 64-bit words of a natural number. *)
Fixpoint big_words (fuel : nat) (i : Z) : list Z :=
  match fuel with
  | O => []
  | S fuel => if i =? 0 then [] else i mod 2 ^ 64 :: big_words fuel (i / 2 ^ 64)
  end.
Definition big_Bits (i : Z) : list Z := big_words (nbytes i) i.
(** [i.BitLen()]. *)
Definition big_BitLen (i : Z) : Z := if i =? 0 then 0 else Z.log2 (Z.abs i) + 1.

(** The inner loop of [writeBigInt]: store the bytes of a word [d] downwards
    from [index]. *)
Fixpoint put_word (j : nat) (d : Z) (index : nat) (buf : bytes) : nat * bytes :=
  match j, index with
  | S j, S k => put_word j (Z.shiftr d 8) k (<[k := u8 d]> buf)
  | _, _ => (index, buf)
  end.
(** The outer loop, over the words. *)
Fixpoint put_words (ds : list Z) (index : nat) (buf : bytes) : bytes :=
  match ds with
  | [] => buf
  | d :: ds => let '(index, buf) := put_word 8 d index buf in put_words ds index buf
  end.

Definition writeBigInt (i : Z) (w : encbuf) : R encbuf :=
  if i <? 0 then Err ErrNegativeBigInt else
  let bitlen := big_BitLen i in
  if bitlen <=? 64 then Ok (encodeUint (u64 i) w) else
  let length := Z.shiftr (Z.land (bitlen + 7) (-8)) 3 in
  Ok (append_str (put_words (big_Bits i) (Z.to_nat length) (replicate (Z.to_nat length) 0))
        (encodeStringHeader length w)).

Definition writeByteArray (b : bytes) (w : encbuf) : encbuf :=
  match b with
  | [] => append_str [0x80] w
  | [x] => if x <=? 0x7f then append_str [x] w else append_str [0x81; x] w
  | _ => append_str b (encodeStringHeader (len b) w)
  end.

Definition writeString (s : bytes) (w : encbuf) : encbuf :=
  match s with
  | [x] => if x <=? 0x7f then append_str [x] w
           else append_str s (encodeStringHeader (len s) w)
  | _ => append_str s (encodeStringHeader (len s) w)
  end.

Definition nil_encoding (k : Kind) : R bytes :=
  match k with String => Ok [0x80] | List => Ok [0xC0] | Byte => Panic (raised "rlp: invalid nil kind") end.

Fixpoint firstOptionalField (fields : list (bool * bool * gval)) : nat :=
  match fields with
  | [] => 0
  | (optional, _, _) :: fields => if optional then 0%nat else S (firstOptionalField fields)
  end.

(** The loop that skips zero-valued optional fields from the end; the result is
    the number of fields written, [lastField + 1]. *)
Fixpoint fields_written (fields : list (bool * bool * gval)) (first n : nat) : nat :=
  match n with
  | O => 0
  | S m =>
      if (first <=? m)%nat then
        match fields !! m with
        | Some (_, is_zero, _) => if is_zero : bool then fields_written fields first m else n
        | None => n
        end
      else n
  end.

Definition struct_fields (fields : list (bool * bool * gval)) : nat :=
  let first := firstOptionalField fields in
  if (first =? length fields)%nat then length fields
  else fields_written fields first (length fields).

(** The writers, composed as [makeWriter] composes them. *)
Fixpoint write (v : gval) (w : encbuf) : R encbuf :=
  match v with
  | VRaw b => Ok (append_str b w)
  | VBigIntPtr None => Ok (append_str [0x80] w)
  | VBigIntPtr (Some i) => writeBigInt i w
  | VBigInt i => writeBigInt i w
  | VPtr k None => e ← nil_encoding k; Ok (append_str e w)
  | VPtr _ (Some v) => write v w
  | VUint i => Ok (encodeUint i w)
  | VBool b => Ok (append_str (if b then [0x01] else [0x80]) w)
  | VString s => Ok (writeString s w)
  | VBytes b => Ok (encodeString b w)
  | VByteArray b => Ok (writeByteArray b w)
  | VSlice tail l =>
      let elems :=
        (fix elems (l : list gval) (w : encbuf) : R encbuf :=
           match l with
           | [] => Ok w
           | v :: l => w ← write v w; elems l w
           end) in
      if tail then elems l w
      else match l with
           | [] => Ok (append_str [0xC0] w)
           | _ =>
               let '(index, w) := enc_list w in
               w ← elems l w;
               enc_listEnd index w
           end
  | VStruct fields =>
      let '(index, w) := enc_list w in
      w ← (fix elems (n : nat) (l : list (bool * bool * gval)) (w : encbuf) {struct l} : R encbuf :=
             match n, l with
             | S n, (_, _, v) :: l => w ← write v w; elems n l w
             | _, _ => Ok w
             end) (struct_fields fields) fields w;
      enc_listEnd index w
  | VInterface None => Ok (append_str [0xC0] w)
  | VInterface (Some v) => write v w
  end.

Definition EncodeToBytes (v : gval) : R bytes := w ← write v reset; toBytes w.

Definition Encode (v : gval) : R (list bytes) := w ← write v reset; toWriter w.

Definition EncodeToReader (v : gval) : R (Z * encReader) :=
  w ← write v reset; Ok (encbuf_size w, mk_encReader (Some w) 0 0 None).

Example Encode_cat_dog :
  EncodeToBytes (VSlice false [VString [99; 97; 116]; VSlice false [VUint 1024; VBool true]]) =
  Ok [0xC9; 0x83; 99; 97; 116; 0xC4; 0x82; 4; 0; 1].
Proof. reflexivity. Qed.
Example Encode_optional :
  EncodeToBytes (VStruct [(false, false, VUint 1); (true, false, VUint 2); (true, true, VUint 0)]) =
  Ok [0xC2; 1; 2].
Proof. reflexivity. Qed.
Example Encode_big :
  EncodeToBytes (VBigInt (2 ^ 64)) = Ok [0x89; 1; 0; 0; 0; 0; 0; 0; 0; 0].
Proof. reflexivity. Qed.

(** ** The reference encoding of a value: headers first, no buffer *)

Definition concat_res (l : list (R bytes)) : R bytes :=
  foldr (λ m acc, b ← m; bs ← acc; Ok (b ++ bs)) (Ok []) l.

Definition big_ref (i : Z) : R bytes := if i <? 0 then Err ErrNegativeBigInt else Ok (rlp_scalar i).

Fixpoint enc_ref (v : gval) : R bytes :=
  match v with
  | VRaw b => Ok b
  | VBigIntPtr None => Ok (rlp_string [])
  | VBigIntPtr (Some i) => big_ref i
  | VBigInt i => big_ref i
  | VPtr k None => nil_encoding k
  | VPtr _ (Some v) => enc_ref v
  | VUint i => Ok (rlp_scalar i)
  | VBool b => Ok (rlp_scalar (if b then 1 else 0))
  | VString s | VBytes s | VByteArray s => Ok (rlp_string s)
  | VSlice tail l =>
      b ← concat_res (map enc_ref l);
      Ok (if tail then b else rlp_list b)
  | VStruct fields =>
      b ← concat_res (take (struct_fields fields) (map (λ f, enc_ref (snd f)) fields));
      Ok (rlp_list b)
  | VInterface None => Ok (rlp_list [])
  | VInterface (Some v) => enc_ref v
  end.

(** The values a Go variable of the type can hold: integers and bytes in their
    range, byte strings of addressable length. *)
Definition string_ok (b : bytes) : Prop := bytes_ok b ∧ is_u64 (len b).
Fixpoint gval_ok (v : gval) : Prop :=
  match v with
  | VRaw _ | VBool _ | VBigIntPtr None | VPtr _ None | VInterface None => True
  | VUint i => is_u64 i
  | VBigIntPtr (Some i) | VBigInt i => is_u64 (big_BitLen i)
  | VPtr _ (Some v) | VInterface (Some v) => gval_ok v
  | VString s | VBytes s | VByteArray s => string_ok s
  | VSlice _ l => foldr (λ v P, gval_ok v ∧ P) True l
  | VStruct fields => foldr (λ f P, gval_ok (snd f) ∧ P) True fields
  end.

Lemma gval_ok_VSlice tail l : gval_ok (VSlice tail l) ↔ Forall gval_ok l.
Proof.
  induction l as [|v l IH]; [split; intros; constructor|].
  change (gval_ok v ∧ gval_ok (VSlice tail l) ↔ Forall gval_ok (v :: l)).
  by rewrite Forall_cons_iff, IH.
Qed.
Lemma gval_ok_VStruct fs : gval_ok (VStruct fs) ↔ Forall gval_ok (map snd fs).
Proof.
  induction fs as [|v l IH]; [split; intros; constructor|].
  change (gval_ok (snd v) ∧ gval_ok (VStruct l) ↔ Forall gval_ok (snd v :: map snd l)).
  by rewrite Forall_cons_iff, IH.
Qed.

Lemma gval_ind' (P : gval → Prop)
    (HRaw : ∀ b, P (VRaw b)) (HBigPtr : ∀ i, P (VBigIntPtr i)) (HBig : ∀ i, P (VBigInt i))
    (HPtr0 : ∀ k, P (VPtr k None)) (HPtr1 : ∀ k v, P v → P (VPtr k (Some v)))
    (HUint : ∀ i, P (VUint i)) (HBool : ∀ b, P (VBool b)) (HString : ∀ s, P (VString s))
    (HBytes : ∀ s, P (VBytes s)) (HArr : ∀ s, P (VByteArray s))
    (HSlice : ∀ tail l, Forall P l → P (VSlice tail l))
    (HStruct : ∀ fs, Forall P (map snd fs) → P (VStruct fs))
    (HIface0 : P (VInterface None)) (HIface1 : ∀ v, P v → P (VInterface (Some v))) v : P v.
Proof.
  revert v. fix IH 1. intros [b|i|i|k [v|]|i|b|s|s|s|tail l|fs|[v|]].
  - apply HRaw.
  - apply HBigPtr.
  - apply HBig.
  - apply HPtr1, IH.
  - apply HPtr0.
  - apply HUint.
  - apply HBool.
  - apply HString.
  - apply HBytes.
  - apply HArr.
  - apply HSlice. induction l as [|v l IHl]; constructor; [apply IH|apply IHl].
  - apply HStruct. induction fs as [|[[o z] v] fs IHf]; constructor; [apply IH|apply IHf].
  - apply HIface1, IH.
  - apply HIface0.
Qed.

(** ** Writing a list of values *)

Definition write_all : list gval → encbuf → R encbuf :=
  fix elems (l : list gval) (w : encbuf) : R encbuf :=
    match l with
    | [] => Ok w
    | v :: l => w ← write v w; elems l w
    end.

Definition write_framed (l : list gval) (w : encbuf) : R encbuf :=
  let '(index, w) := enc_list w in w ← write_all l w; enc_listEnd index w.

Lemma write_VSlice tail l w :
  write (VSlice tail l) w =
  if tail then write_all l w
  else match l with [] => Ok (append_str [0xC0] w) | _ => write_framed l w end.
Proof. by destruct tail, l. Qed.

Lemma write_VStruct fs w :
  write (VStruct fs) w = write_framed (take (struct_fields fs) (map snd fs)) w.
Proof.
  unfold write_framed. cbn [write]. destruct (enc_list w) as [index w'].
  generalize (struct_fields fs) as n, w'. intros n w0.
  match goal with |- (?f n fs w0 ≫= _) = _ =>
    assert (∀ l n w, f n l w = write_all (take n (map snd l)) w) as -> end; [|done].
  clear. induction l as [|[[? ?] v] l IH]; intros [|n] w; try done.
  cbn [take map snd write_all]. cbn. destruct (write v w); cbn; [apply IH|done..].
Qed.

(** ** Segments of the buffer

    [render off s hs] merges the headers [hs] into the string data [s] that
    starts at buffer offset [off]; [heads_from off s hs] says that the offsets of
    [hs] lie in that data, in order. *)

Fixpoint render (off : Z) (s : bytes) (hs : list listhead) : bytes :=
  match hs with
  | [] => s
  | h :: hs =>
      let n := Z.to_nat (lh_offset h - off) in
      take n s ++ head_encode h ++ render (lh_offset h) (drop n s) hs
  end.

Fixpoint heads_from (off : Z) (s : bytes) (hs : list listhead) : Prop :=
  match hs with
  | [] => True
  | h :: hs =>
      off ≤ lh_offset h ≤ off + len s ∧
      heads_from (lh_offset h) (drop (Z.to_nat (lh_offset h - off)) s) hs
  end.

(** What [listEnd] adds to [lhsize] for a header. *)
Definition head_len (h : listhead) : Z :=
  if lh_size h <? 56 then 1 else 1 + intsize (u64 (lh_size h)).
Definition heads_len (hs : list listhead) : Z := foldr (λ h n, head_len h + n) 0 hs.

Definition extend (w : encbuf) (s : bytes) (hs : list listhead) : encbuf :=
  mk_encbuf (str w ++ s) (lheads w ++ hs) (lhsize w + heads_len hs).

Definition seg (off : Z) (s : bytes) (hs : list listhead) (b : bytes) : Prop :=
  render off s hs = b ∧ heads_from off s hs ∧ len b = len s + heads_len hs.

Lemma heads_len_app hs1 hs2 : heads_len (hs1 ++ hs2) = heads_len hs1 + heads_len hs2.
Proof. induction hs1 as [|h hs1 IH]; simpl; lia. Qed.

Lemma render_app_nil off s1 s2 hs :
  heads_from (off + len s1) s2 hs →
  render off (s1 ++ s2) hs = s1 ++ render (off + len s1) s2 hs ∧ heads_from off (s1 ++ s2) hs.
Proof.
  destruct hs as [|h hs]; [done|]. intros [Hoff Hin]. cbn [render heads_from].
  pose proof (len_nonneg s1). rewrite len_app.
  replace (Z.to_nat (lh_offset h - off))
    with (length s1 + Z.to_nat (lh_offset h - (off + len s1)))%nat by (unfold len in *; lia).
  rewrite drop_app_add, take_app_add, <-app_assoc. split; [done|]. split; [lia|done].
Qed.

Lemma render_app off s1 hs1 s2 hs2 :
  heads_from off s1 hs1 → heads_from (off + len s1) s2 hs2 →
  render off (s1 ++ s2) (hs1 ++ hs2) = render off s1 hs1 ++ render (off + len s1) s2 hs2 ∧
  heads_from off (s1 ++ s2) (hs1 ++ hs2).
Proof.
  revert off s1. induction hs1 as [|h hs1 IH]; intros off s1 H1 H2; [by apply render_app_nil|].
  destruct H1 as [Hoff H1]. cbn [app render heads_from].
  assert (Z.to_nat (lh_offset h - off) ≤ length s1)%nat as Hle by (unfold len in *; lia).
  rewrite drop_app_le, take_app_le by done.
  assert (lh_offset h + len (drop (Z.to_nat (lh_offset h - off)) s1) = off + len s1) as Heq.
  { unfold len in *. rewrite length_drop. lia. }
  destruct (IH (lh_offset h) (drop (Z.to_nat (lh_offset h - off)) s1) H1) as [-> Hhf].
  { by rewrite Heq. }
  rewrite Heq, <-!app_assoc. split; [done|]. split; [|done].
  rewrite len_app. pose proof (len_nonneg s2). lia.
Qed.

Lemma seg_app off s1 hs1 b1 s2 hs2 b2 :
  seg off s1 hs1 b1 → seg (off + len s1) s2 hs2 b2 →
  seg off (s1 ++ s2) (hs1 ++ hs2) (b1 ++ b2).
Proof.
  intros (<- & H1 & L1) (<- & H2 & L2). destruct (render_app off s1 hs1 s2 hs2 H1 H2) as [Hr Hh].
  split_and!; [done..|]. rewrite !len_app, heads_len_app, L1, L2. lia.
Qed.

Lemma seg_str off s : seg off s [] s.
Proof. split_and!; [done..|]. simpl. lia. Qed.

Lemma head_len_spec off sz : is_u64 sz →
  head_encode (mk_listhead off sz) = rlp_head 0xC0 sz ∧
  head_len (mk_listhead off sz) = len (rlp_head 0xC0 sz).
Proof.
  intros Hs. unfold head_encode, head_len. cbn. rewrite u64_small by done. split.
  - apply (puthead_spec 0xC0); [by right|done].
  - by rewrite <-headsize_spec.
Qed.

(** A header placed in front of a segment makes it a list. *)
Lemma seg_list off s hs b :
  seg off s hs b → is_u64 (len b) → seg off s (mk_listhead off (len b) :: hs) (rlp_list b).
Proof.
  intros (<- & Hh & Hl) Hu. destruct (head_len_spec off _ Hu) as [He Hle].
  unfold seg, rlp_list. cbn [render heads_from lh_offset].
  rewrite Z.sub_diag. cbn [Z.to_nat take drop app]. rewrite He. split_and!; [done|lia| |done|].
  - pose proof (len_nonneg s). lia.
  - rewrite len_app. cbn [heads_len foldr]. fold (heads_len hs). lia.
Qed.

Lemma extend_extend w s1 hs1 s2 hs2 :
  extend (extend w s1 hs1) s2 hs2 = extend w (s1 ++ s2) (hs1 ++ hs2).
Proof. unfold extend. cbn. by rewrite !app_assoc, heads_len_app, Z.add_assoc. Qed.

Lemma append_str_extend b w : append_str b w = extend w b [].
Proof. unfold append_str, extend. simpl. by rewrite app_nil_r, Z.add_0_r. Qed.

(** ** The leaf writers *)

Lemma encodeStringHeader_extend size w :
  is_u64 size → encodeStringHeader size w = extend w (rlp_head 0x80 size) [].
Proof.
  intros Hs. rewrite <-append_str_extend, <-(puthead_spec 0x80) by auto.
  unfold encodeStringHeader, puthead. rewrite u64_small by done. by case_ltb.
Qed.

Lemma string_header_extend s w :
  is_u64 (len s) →
  append_str s (encodeStringHeader (len s) w) = extend w (rlp_head 0x80 (len s) ++ s) [].
Proof.
  intros Hs. by rewrite encodeStringHeader_extend, append_str_extend, extend_extend.
Qed.

Lemma single_byte_header x w : is_u8 x → append_str [0x81; x] w = append_str [x] (encodeStringHeader 1 w).
Proof. intros _. unfold append_str, encodeStringHeader. cbn. by rewrite <-app_assoc. Qed.

Lemma encodeString_extend s w : string_ok s → encodeString s w = extend w (rlp_string s) [].
Proof.
  intros [_ Hs]. unfold encodeString, rlp_string. destruct s as [|x [|y s]].
  - by apply (string_header_extend []).
  - destruct (Z.leb_spec x 0x7F), (Z.ltb_spec x 0x80); try lia.
    + apply append_str_extend.
    + by apply (string_header_extend [x]).
  - by apply (string_header_extend (x :: y :: s)).
Qed.

Lemma writeString_extend s w : string_ok s → writeString s w = extend w (rlp_string s) [].
Proof. apply encodeString_extend. Qed.

Lemma writeByteArray_extend s w : string_ok s → writeByteArray s w = extend w (rlp_string s) [].
Proof.
  intros Hs. rewrite <-encodeString_extend by done. unfold writeByteArray, encodeString.
  destruct s as [|x [|y s]]; [|destruct (_ <=? _)|]; try done.
  - unfold append_str, encodeStringHeader. cbn. by rewrite app_nil_r.
  - destruct Hs as [[Hx _]%bytes_ok_cons _]. by rewrite single_byte_header.
Qed.

Lemma encodeUint_extend i w : is_u64 i → encodeUint i w = extend w (rlp_scalar i) [].
Proof.
  intros Hi. rewrite <-append_str_extend. unfold encodeUint. destruct (Z.eqb_spec i 0) as [->|]; [done|].
  pose proof Hi as [H0 H1]. pose proof (AppendUint64_spec [] i Hi) as Ha. cbn [app] in Ha.
  destruct (Z.ltb_spec i 128).
  - rewrite <-Ha. unfold AppendUint64.
    by rewrite (proj2 (Z.eqb_neq i 0)), (proj2 (Z.ltb_lt i 128)).
  - f_equal. unfold rlp_scalar.
    destruct (rlp_string_cases (be_bytes (nbytes i) i)) as [(y & Hy & Hlt & _)|[_ ->]].
    { pose proof (be_val_min i H0) as Hv. rewrite Hy, be_val_single in Hv. lia. }
    rewrite putint_spec by (done || lia). rewrite !len_be_bytes. unfold rlp_head.
    pose proof (nbytes_u64 i Hi). rewrite (proj2 (Z.ltb_lt _ 56)) by lia.
    rewrite (u8_small (Z.of_nat _)) by (unfold is_u8; lia).
    by rewrite u8_small by (unfold is_u8; lia).
Qed.

(** *** Big integers *)

Fixpoint le_words (ds : list Z) : Z :=
  match ds with [] => 0 | d :: ds => d + 2 ^ 64 * le_words ds end.

Lemma big_words_value fuel i :
  0 ≤ i < 2 ^ (64 * Z.of_nat fuel) → le_words (big_words fuel i) = i.
Proof.
  revert i. induction fuel as [|fuel IH]; intros i Hi; [change (64 * Z.of_nat 0) with 0 in Hi; simpl; lia|].
  cbn [big_words]. destruct (Z.eqb_spec i 0) as [->|]; [done|]. cbn [le_words]. rewrite IH.
  - pose proof (Z.div_mod i (2 ^ 64)). lia.
  - split; [apply Z.div_pos; lia|]. apply Z.div_lt_upper_bound; [lia|].
    rewrite <-Z.pow_add_r by lia. replace (64 + 64 * Z.of_nat fuel) with (64 * Z.of_nat (S fuel)) by lia. apply Hi.
Qed.

Lemma big_Bits_value i : 0 ≤ i → le_words (big_Bits i) = i.
Proof.
  intros Hi. apply big_words_value. split; [done|]. destruct (Z.eq_dec i 0) as [->|]; [done|].
  eapply Z.lt_le_trans; [apply nbytes_spec; lia|]. apply Z.pow_le_mono_r; lia.
Qed.

Lemma put_word_spec j d k buf :
  (k ≤ length buf)%nat →
  put_word j d k buf =
  ((k - Nat.min j k)%nat,
   take (k - Nat.min j k) buf ++ be_bytes (Nat.min j k) d ++ drop k buf).
Proof.
  revert d k buf. induction j as [|j IH]; intros d k buf Hk.
  { cbn. by rewrite Nat.sub_0_r, take_drop. }
  destruct k as [|k]; [cbn; done|]. cbn [put_word]. rewrite IH by (rewrite length_insert; lia).
  cbn [Nat.min Nat.sub]. f_equal.
  rewrite take_insert_ge by lia. rewrite be_bytes_snoc, <-app_assoc. f_equal. f_equal.
  rewrite (drop_S _ (u8 d)) by (apply list_lookup_insert_eq; lia).
  by rewrite drop_insert_lt by lia.
Qed.

Lemma big_words_u64 fuel i : Forall is_u64 (big_words fuel i).
Proof.
  revert i. induction fuel as [|fuel IH]; intros i; [constructor|]. cbn [big_words].
  destruct (i =? 0); constructor; [apply u64_range|apply IH].
Qed.

Lemma put_words_spec ds k tl :
  Forall is_u64 ds → put_words ds k (replicate k 0 ++ tl) = be_bytes k (le_words ds) ++ tl.
Proof.
  intros Hds. revert k tl. induction Hds as [|d ds Hd Hds IH]; intros k tl.
  { cbn. by rewrite be_bytes_0. }
  cbn [put_words le_words].
  rewrite put_word_spec by (rewrite length_app, length_replicate; lia).
  rewrite drop_app_length' by (by rewrite length_replicate).
  rewrite take_app_le by (rewrite length_replicate; lia).
  rewrite take_replicate, (Nat.min_l (k - _) k) by lia. rewrite IH, app_assoc. f_equal.
  rewrite (Z.mul_comm (2 ^ 64)), (Z.add_comm d).
  destruct (Nat.le_gt_cases k 8).
  - rewrite Nat.min_r, Nat.sub_diag by lia. cbn [be_bytes app].
    replace (2 ^ 64) with (2 ^ (8 * Z.of_nat (8 - k)) * 2 ^ (8 * Z.of_nat k)).
    + by rewrite Z.mul_assoc, be_bytes_add.
    + rewrite <-Z.pow_add_r by lia. f_equal. lia.
  - rewrite Nat.min_l by lia. replace k with ((k - 8) + 8)%nat at 2 by lia.
    rewrite be_bytes_split. change (2 ^ 64) with (2 ^ (8 * Z.of_nat 8)).
    rewrite (be_bytes_add 8). rewrite Z.shiftr_div_pow2 by lia.
    rewrite Z.div_add_l by done. by rewrite (Z.div_small d), Z.add_0_r by done.
Qed.

Lemma writeBigInt_spec i w :
  is_u64 (big_BitLen i) →
  writeBigInt i w = b ← big_ref i; Ok (extend w b []).
Proof.
  intros Hbl. unfold writeBigInt, big_ref. destruct (Z.ltb_spec i 0); [done|]. cbn.
  destruct (Z.leb_spec (big_BitLen i) 64) as [Hle|Hgt].
  - assert (is_u64 i) as Hi.
    { split; [done|]. unfold big_BitLen in Hle. destruct (Z.eqb_spec i 0); [lia|].
      rewrite Z.abs_eq in Hle by done. apply Z.log2_lt_pow2; lia. }
    by rewrite u64_small, encodeUint_extend.
  - rewrite Z.shiftr_land. change (Z.shiftr (-8) 3) with (-1). rewrite Z.land_m1_r.
    assert (Z.shiftr (big_BitLen i + 7) 3 = Z.of_nat (nbytes i) ∧ 0 < i) as [Hlen Hpos].
    { unfold big_BitLen in *. destruct (Z.eqb_spec i 0); [lia|]. rewrite Z.abs_eq in * by done.
      split; [|lia]. unfold nbytes. rewrite (proj2 (Z.eqb_neq i 0)) by done.
      rewrite Z.shiftr_div_pow2 by lia. change (2 ^ 3) with 8.
      replace (Z.log2 i + 1 + 7) with (Z.log2 i + 1 * 8) by lia. rewrite Z.div_add by lia.
      rewrite Z2Nat.id; [done|]. pose proof (Z.div_pos (Z.log2 i) 8 (Z.log2_nonneg i)). lia. }
    rewrite Hlen, Nat2Z.id. rewrite <-(app_nil_r (replicate _ 0)).
    rewrite put_words_spec by apply big_words_u64. rewrite app_nil_r, big_Bits_value by done.
    rewrite encodeStringHeader_extend, append_str_extend, extend_extend.
    + unfold rlp_scalar. f_equal. f_equal.
      destruct (rlp_string_cases (be_bytes (nbytes i) i)) as [(y & Hy & Hlt & _)|[_ ->]].
      * pose proof (be_val_min i ltac:(lia)) as Hv. rewrite Hy, be_val_single in Hv. subst y.
        revert Hgt. unfold big_BitLen. destruct (Z.eqb_spec i 0); [done|].
        rewrite Z.abs_eq by done. pose proof (Z.log2_le_mono i 128). change (Z.log2 128) with 7 in *. lia.
      * by rewrite len_be_bytes.
    + rewrite <-Hlen, Z.shiftr_div_pow2 by lia. change (2 ^ 3) with 8. unfold is_u64 in *.
      split; [apply Z.div_pos; lia|]. apply Z.div_lt_upper_bound; lia.
Qed.

(** ** The writers implement the reference encoding

    [implements f m]: run on any buffer, [f] fails exactly as [m] does, and
    otherwise extends the buffer by a segment that renders as the bytes of [m]. *)

Definition implements (f : encbuf → R encbuf) (m : R bytes) : Prop :=
  ∀ w, match m with
       | Ok b => ∃ s hs, f w = Ok (extend w s hs) ∧ (is_u64 (len b) → seg (len (str w)) s hs b)
       | Err e => f w = Err e
       | Panic p => f w = Panic p
       | OutOfFuel => f w = OutOfFuel
       end.

Lemma implements_str f b : (∀ w, f w = Ok (extend w b [])) → implements f (Ok b).
Proof. intros H w. exists b, []. split; [apply H|]. intros _. apply seg_str. Qed.

Lemma implements_all l :
  Forall (λ v, implements (write v) (enc_ref v)) l →
  implements (write_all l) (concat_res (map enc_ref l)).
Proof.
  induction 1 as [|v l Hv Hl IH]; intros w; cbn [map concat_res foldr write_all].
  { exists [], []. split; [|intros _; apply seg_str].
    f_equal. unfold extend. destruct w. cbn. by rewrite !app_nil_r, Z.add_0_r. }
  specialize (Hv w). destruct (enc_ref v) as [b| | |]; cbn [mbind res_bind];
    [|by rewrite Hv..].
  destruct Hv as (s & hs & -> & Hseg). cbn [mbind res_bind].
  specialize (IH (extend w s hs)). fold (concat_res (map enc_ref l)).
  destruct (concat_res (map enc_ref l)) as [bs| | |]; cbn [mbind res_bind]; try exact IH.
  destruct IH as (s' & hs' & Hw & Hseg'). exists (s ++ s'), (hs ++ hs').
  rewrite <-extend_extend. split; [exact Hw|]. intros Hu.
  apply seg_app; [by eapply Hseg, is_u64_app_l|].
  rewrite <-len_app. by eapply Hseg', is_u64_app_r.
Qed.

Lemma enc_listEnd_extend w s hs :
  enc_listEnd (length (lheads w)) (extend (enc_list w).2 s hs) =
  Ok (extend w s (mk_listhead (len (str w)) (len s + heads_len hs) :: hs)).
Proof.
  unfold enc_listEnd, extend. cbn [enc_list snd lheads str lhsize].
  rewrite <-(app_assoc (lheads w)). cbn [app]. rewrite list_lookup_middle by done.
  unfold encbuf_size. cbn [str lhsize lh_offset lh_size]. rewrite len_app.
  replace (len (str w) + len s + (lhsize w + heads_len hs) - len (str w) - lhsize w)
    with (len s + heads_len hs) by lia.
  rewrite insert_app_r_alt, Nat.sub_diag by done. cbn [insert list_insert].
  f_equal. f_equal. cbn [heads_len foldr]. fold (heads_len hs). unfold head_len. cbn [lh_size].
  destruct (_ <? 56); lia.
Qed.

Lemma implements_framed l m :
  implements (write_all l) m → implements (write_framed l) (b ← m; Ok (rlp_list b)).
Proof.
  intros H w. unfold write_framed. cbn [enc_list]. specialize (H (enc_list w).2).
  cbn [enc_list snd] in H. destruct m as [b| | |]; cbn [mbind res_bind]; [|by rewrite H..].
  destruct H as (s & hs & -> & Hseg). cbn [mbind res_bind].
  exists s, (mk_listhead (len (str w)) (len s + heads_len hs) :: hs).
  split; [apply enc_listEnd_extend|]. intros Hu. apply is_u64_app_r in Hu.
  specialize (Hseg Hu). replace (len s + heads_len hs) with (len b) by apply Hseg.
  by apply seg_list.
Qed.

Lemma implements_big i : is_u64 (big_BitLen i) → implements (writeBigInt i) (big_ref i).
Proof.
  intros Hi w. rewrite writeBigInt_spec by done. destruct (big_ref i); try done.
  eexists _, _. split; [done|]. intros _. apply seg_str.
Qed.

Lemma write_implements v : gval_ok v → implements (write v) (enc_ref v).
Proof.
  induction v as [b|i|i|k|k v IH|i|b|s|s|s|tail l IH|fs IH| |v IH] using gval_ind'; intros Hok.
  - apply implements_str. intros w. cbn. by rewrite append_str_extend.
  - destruct i as [i|]; [by apply implements_big|].
    apply implements_str. intros w. cbn. by rewrite append_str_extend.
  - by apply implements_big.
  - intros w. cbn. destruct k; cbn; try done.
    all: eexists _, _; rewrite append_str_extend; split; [done|]; intros _; apply seg_str.
  - by apply IH.
  - apply implements_str. intros w. cbn. by rewrite encodeUint_extend.
  - apply implements_str. intros w. cbn. rewrite append_str_extend. by destruct b.
  - apply implements_str. intros w. cbn. by rewrite writeString_extend.
  - apply implements_str. intros w. cbn. by rewrite encodeString_extend.
  - apply implements_str. intros w. cbn. by rewrite writeByteArray_extend.
  - apply gval_ok_VSlice in Hok.
    assert (implements (write_all l) (concat_res (map enc_ref l))) as Hall.
    { apply implements_all, Forall_forall. intros v Hv. rewrite Forall_forall in IH, Hok. auto. }
    intros w. rewrite write_VSlice. cbn [enc_ref]. destruct tail.
    + specialize (Hall w). by destruct (concat_res _).
    + destruct l as [|v l]; [|by apply implements_framed].
      apply (implements_str (λ w, Ok (append_str [0xC0] w)) [0xC0]).
      intros w'. by rewrite append_str_extend.
  - apply gval_ok_VStruct in Hok. intros w. rewrite write_VStruct. cbn [enc_ref].
    rewrite <-(map_map snd enc_ref), firstn_map. revert w. apply implements_framed.
    apply implements_all, Forall_take, Forall_forall. intros v Hv.
    rewrite Forall_forall in IH, Hok. auto.
  - apply implements_str. intros w. cbn. by rewrite append_str_extend.
  - by apply IH.
Qed.

(** ** The three outputs render the buffer *)

(** One [copy] of [toBytes] into the zero-filled rest of the output. *)
Lemma copy_at_next (done_ src tl : bytes) :
  copy_at (done_ ++ replicate (length src) 0 ++ tl) (len done_) src =
  Ok (len src, (done_ ++ src) ++ tl).
Proof.
  unfold copy_at. rewrite decide_True.
  2: { rewrite len_app. split; [apply len_nonneg|].
       pose proof (len_nonneg (replicate (length src) 0 ++ tl)). lia. }
  assert (Z.min (len (done_ ++ replicate (length src) 0 ++ tl) - len done_) (len src) = len src) as ->.
  { rewrite !len_app. unfold len. rewrite length_replicate. lia. }
  unfold len. rewrite !Nat2Z.id, take_app_length, firstn_all.
  replace (Z.to_nat (Z.of_nat (length done_) + Z.of_nat (length src)))
    with (length done_ + length src)%nat by lia.
  rewrite drop_app_add, drop_app_length' by (by rewrite length_replicate).
  by rewrite <-app_assoc.
Qed.

Lemma puthead_at_next (done_ tl : bytes) h :
  puthead_at (done_ ++ replicate (length (head_encode h)) 0 ++ tl) (len done_) h =
  Ok (len (head_encode h), (done_ ++ head_encode h) ++ tl).
Proof.
  unfold puthead_at. rewrite decide_True.
  2: { rewrite !len_app. pose proof (len_nonneg done_). pose proof (len_nonneg tl).
       assert (len (replicate (length (head_encode h)) 0) = len (head_encode h)) as ->
         by (unfold len; by rewrite length_replicate). lia. }
  unfold len. rewrite Nat2Z.id, take_app_length.
  replace (Z.to_nat (Z.of_nat (length done_) + Z.of_nat (length (head_encode h))))
    with (length done_ + length (head_encode h))%nat by lia.
  rewrite drop_app_add, drop_app_length' by (by rewrite length_replicate).
  by rewrite <-app_assoc.
Qed.

Lemma toBytes_loop_render heads s0 s done_ :
  heads_from (len s0) s heads →
  toBytes_loop (s0 ++ s) heads (len s0) (len done_)
    (done_ ++ replicate (length (render (len s0) s heads)) 0) =
  Ok (done_ ++ render (len s0) s heads).
Proof.
  revert s0 s done_. induction heads as [|h heads IH]; intros s0 s done_ Hh.
  - cbn [toBytes_loop render]. rewrite go_slice_tail by apply len_app.
    cbn [mbind res_bind].
    rewrite <-(app_nil_r (replicate _ 0)), copy_at_next. cbn. by rewrite app_nil_r.
  - destruct Hh as [Hoff Hh]. cbn [toBytes_loop render].
    set (n := Z.to_nat (lh_offset h - len s0)) in *.
    assert (n ≤ length s)%nat as Hn by (unfold n, len in *; lia).
    assert (s = take n s ++ drop n s) as Hs by (by rewrite take_drop).
    assert (lh_offset h = len s0 + len (take n s)) as Ho.
    { unfold len in *. rewrite length_take. lia. }
    rewrite Hs at 1. rewrite go_slice_app by (done || lia). cbn [mbind res_bind].
    rewrite !length_app, !replicate_add. rewrite copy_at_next. cbn [mbind res_bind].
    rewrite <-(len_app done_), puthead_at_next. cbn [mbind res_bind]. rewrite <-!len_app.
    rewrite Hs at 1. rewrite app_assoc. rewrite Ho, <-len_app in Hh |- *.
    rewrite IH by done. by rewrite <-!app_assoc.
Qed.

Lemma toBytes_seg w b :
  lhsize w = heads_len (lheads w) → seg 0 (str w) (lheads w) b → toBytes w = Ok b.
Proof.
  intros Hl (<- & Hh & Hlen). unfold toBytes, encbuf_size. rewrite Hl, <-Hlen.
  unfold len. rewrite Nat2Z.id. apply (toBytes_loop_render _ [] (str w) []). done.
Qed.

Lemma toWriter_loop_render heads s0 s :
  heads_from (len s0) s heads →
  ∃ chunks, toWriter_loop (s0 ++ s) heads (len s0) = Ok chunks ∧
            concat chunks = render (len s0) s heads.
Proof.
  revert s0 s. induction heads as [|h heads IH]; intros s0 s Hh.
  - cbn [toWriter_loop render]. rewrite len_app. destruct (Z.ltb_spec (len s0) (len s0 + len s)).
    + rewrite go_slice_tail by done.
      eexists. split; [done|]. cbn. by rewrite app_nil_r.
    + destruct s as [|x s]; [by exists []|]. rewrite len_cons in *. pose proof (len_nonneg s). lia.
  - destruct Hh as [Hoff Hh]. cbn [toWriter_loop render].
    set (n := Z.to_nat (lh_offset h - len s0)) in *.
    assert (n ≤ length s)%nat as Hn by (unfold n, len in *; lia).
    assert (s = take n s ++ drop n s) as Hs by (by rewrite take_drop).
    assert (lh_offset h = len s0 + len (take n s)) as Ho.
    { unfold len in *. rewrite length_take. lia. }
    destruct (IH (s0 ++ take n s) (drop n s)) as (chunks & Hc & Hcc).
    { by rewrite len_app, <-Ho. }
    rewrite <-app_assoc, take_drop, len_app in Hc. rewrite len_app, <-Ho in Hcc.
    rewrite Z.gtb_ltb. destruct (Z.ltb_spec 0 (lh_offset h - len s0)).
    + assert (go_slice (E:=rlp_err) (s0 ++ s) (len s0) (lh_offset h) = Ok (take n s)) as ->.
      { rewrite Hs at 1. apply go_slice_app; done || lia. }
      cbn [mbind res_bind]. rewrite Hc. eexists. split; [done|]. cbn. by rewrite Hcc.
    + assert (take n s = []) as Htn by (apply nil_length_inv; rewrite length_take; unfold n; lia).
      rewrite Htn, len_nil, Z.add_0_r in *. rewrite Hc. eexists. split; [done|]. cbn. by rewrite Hcc.
Qed.

(** *** The reader *)

Definition rd_set_piece (r : encReader) (p : option bytes) : encReader :=
  mk_encReader (rd_buf r) (rd_lhpos r) (rd_strpos r) p.

(** What a reader still has to deliver. *)
Definition rd_remaining (r : encReader) : bytes :=
  match rd_buf r with
  | None => []
  | Some w =>
      default [] (rd_piece r) ++
      render (rd_strpos r) (drop (Z.to_nat (rd_strpos r)) (str w)) (drop (rd_lhpos r) (lheads w))
  end.

Definition rd_ok (r : encReader) : Prop :=
  match rd_buf r with
  | None => True
  | Some w =>
      0 ≤ rd_strpos r ≤ len (str w) ∧
      heads_from (rd_strpos r) (drop (Z.to_nat (rd_strpos r)) (str w)) (drop (rd_lhpos r) (lheads w)) ∧
      rd_piece r ≠ Some []
  end.

(** Bound on the pieces left to produce. *)
Definition rd_pieces (r : encReader) : nat :=
  match rd_buf r with
  | None => 0
  | Some w =>
      2 * length (drop (rd_lhpos r) (lheads w)) +
      (if match drop (rd_lhpos r) (lheads w) with
          | h :: _ => rd_strpos r <? lh_offset h
          | [] => rd_strpos r <? len (str w)
          end then 1 else 0) +
      (match rd_piece r with Some _ => 1 | None => 0 end)
  end.

Lemma head_encode_nonempty h : head_encode h ≠ [].
Proof. unfold head_encode, puthead. by case_ltb. Qed.

Definition rd_step_ok (r : encReader) (p : bytes) (r' : encReader) : Prop :=
  p ≠ [] ∧ rd_buf r' = rd_buf r ∧ is_Some (rd_buf r) ∧
  rd_remaining r = p ++ rd_remaining (rd_set_piece r' None) ∧
  rd_ok (rd_set_piece r' None) ∧ (rd_pieces (rd_set_piece r' None) < rd_pieces r)%nat.

(** [next] before a list header. *)
Lemma rd_next_head w lhpos strpos h hs :
  rd_ok (mk_encReader (Some w) lhpos strpos None) → drop lhpos (lheads w) = h :: hs →
  ∃ p r', rd_next (mk_encReader (Some w) lhpos strpos None) = Ok (Some p, r') ∧
          rd_step_ok (mk_encReader (Some w) lhpos strpos None) p r'.
Proof.
  intros (Hpos & Hh & _) Hd. cbn [rd_buf rd_strpos rd_lhpos rd_piece] in *.
  assert (lheads w !! lhpos = Some h) as Hl.
  { rewrite <-(Nat.add_0_r lhpos), <-lookup_drop, Hd. done. }
  assert (drop (S lhpos) (lheads w) = hs) as Hd'.
  { by rewrite <-Nat.add_1_r, <-drop_drop, Hd. }
  rewrite Hd in Hh. destruct Hh as [Hoff Hh].
  assert (len (drop (Z.to_nat strpos) (str w)) = len (str w) - strpos) as Hlen.
  { unfold len in *. rewrite length_drop. lia. }
  assert (drop (Z.to_nat (lh_offset h - strpos)) (drop (Z.to_nat strpos) (str w)) =
          drop (Z.to_nat (lh_offset h)) (str w)) as Hdd by (rewrite drop_drop; f_equal; lia).
  unfold rd_next. cbn [rd_buf rd_strpos rd_lhpos rd_piece]. rewrite Hl, Z.gtb_ltb.
  destruct (Z.ltb_spec 0 (lh_offset h - strpos)) as [Hgap|Hgap].
  - rewrite go_slice_ok by lia. eexists _, _. split; [done|].
    replace (strpos + (lh_offset h - strpos)) with (lh_offset h) by lia.
    split_and!; [|done|done|..].
    + intros Heq%(f_equal length). rewrite length_take in Heq. simpl in Heq. unfold len in *. lia.
    + unfold rd_remaining. cbn. rewrite Hd. cbn [render]. rewrite Z.sub_diag, Hdd. done.
    + unfold rd_ok. cbn. rewrite Hd. cbn [heads_from]. rewrite Z.sub_diag. cbn. rewrite Hdd in Hh.
      assert (len (drop (Z.to_nat (lh_offset h)) (str w)) = len (str w) - lh_offset h)
        by (unfold len in *; rewrite length_drop; lia).
      split_and!; done || lia.
    + unfold rd_pieces. cbn. rewrite Hd, Z.ltb_irrefl.
      rewrite (proj2 (Z.ltb_lt strpos _)) by lia. simpl length. lia.
  - assert (lh_offset h = strpos) as Heq by lia. eexists _, _. split; [done|].
    split_and!; [apply head_encode_nonempty|done|done|..].
    + unfold rd_remaining. cbn. rewrite Hd, Hd'. cbn [render]. by rewrite Heq, Z.sub_diag.
    + unfold rd_ok. cbn. rewrite Hd', Heq in *. by rewrite Z.sub_diag in Hh.
    + unfold rd_pieces. cbn. rewrite Hd, Hd'. simpl length.
      case_match; case_match; lia.
Qed.

Lemma rd_next_spec r :
  rd_ok r →
  (rd_remaining r = [] ∧ ∃ r', rd_next r = Ok (None, r')) ∨
  (∃ p r', rd_next r = Ok (Some p, r') ∧ rd_step_ok r p r').
Proof.
  destruct r as [[w|] lhpos strpos [p|]]; intros Hok; [| |left; split; [done|by eexists]..].
  - right. exists p. eexists. split; [done|]. destruct Hok as (H1 & H2 & H3). cbn in *.
    split_and!; [congruence|done..| |].
    + done.
    + unfold rd_pieces. cbn. lia.
  - destruct (drop lhpos (lheads w)) as [|h hs] eqn:Hd; [|right; by eapply rd_next_head].
    destruct Hok as (Hpos & _ & _). cbn [rd_buf rd_strpos rd_lhpos rd_piece] in *.
    assert (lheads w !! lhpos = None) as Hl.
    { rewrite <-(Nat.add_0_r lhpos), <-lookup_drop, Hd. done. }
    unfold rd_next, rd_remaining. cbn [rd_buf rd_strpos rd_lhpos rd_piece]. rewrite Hl, Hd.
    cbn [render default app]. destruct (Z.ltb_spec strpos (len (str w))) as [Hlt|Hge].
    + right. rewrite go_slice_ok by lia. eexists _, _. split; [done|].
      replace (Z.to_nat (len (str w) - strpos)) with (length (drop (Z.to_nat strpos) (str w)))
        by (rewrite length_drop; unfold len; lia).
      rewrite firstn_all. split_and!; [|done|done|..].
      * intros Heq%(f_equal length). rewrite length_drop in Heq. simpl in Heq. unfold len in *. lia.
      * unfold rd_remaining. cbn. rewrite Hd. cbn [render]. unfold len.
        by rewrite Nat2Z.id, drop_all, app_nil_r.
      * unfold rd_ok. cbn. rewrite Hd. split_and!; done || (pose proof (len_nonneg (str w)); lia).
      * unfold rd_pieces. cbn. rewrite Hd, Z.ltb_irrefl.
        rewrite (proj2 (Z.ltb_lt strpos _)) by lia. simpl length. lia.
    + left. split; [|by eexists]. apply nil_length_inv. rewrite length_drop. unfold len in *. lia.
Qed.

Lemma rd_Read_loop_spec fuel room acc r :
  rd_ok r → (rd_pieces r < fuel)%nat →
  ∃ r', rd_Read_loop fuel room acc r =
          Ok (acc ++ take room (rd_remaining r), (length (rd_remaining r) <=? room)%nat, r') ∧
        rd_ok r' ∧ rd_remaining r' = drop room (rd_remaining r).
Proof.
  revert room acc r. induction fuel as [|fuel IH]; intros room acc r Hok Hf; [lia|].
  cbn [rd_Read_loop].
  destruct (rd_next_spec r Hok) as [(Hrem & r' & ->)|(p & r' & -> & Hstep)]; cbn [mbind res_bind].
  { rewrite Hrem, take_nil, drop_nil, app_nil_r. eexists. split_and!; done. }
  destruct Hstep as (Hp & Hb & [w Hw] & Hrem & Hok' & Hfuel).
  destruct (Nat.ltb_spec (Nat.min room (length p)) (length p)) as [Hlt|Hge].
  - rewrite Nat.min_l by lia. rewrite Hrem.
    rewrite take_app_le, drop_app_le, length_app by lia.
    rewrite (proj2 (Nat.leb_gt _ room)) by lia. eexists. split_and!; [done|..].
    + unfold rd_ok in *. cbn in *. rewrite Hb, Hw in *. destruct Hok' as (? & ? & _).
      split; [done|]. split; [done|]. intros [= Heq%(f_equal length)]. rewrite length_drop in Heq.
      simpl in Heq. lia.
    + unfold rd_remaining. cbn. by rewrite Hb, Hw.
  - rewrite Nat.min_r, firstn_all by lia.
    destruct (IH (room - length p)%nat (acc ++ p) (rd_set_piece r' None) Hok') as (r2 & Hr & Hok2 & Hrem2);
      [lia|]. fold (rd_set_piece r' None). rewrite Hr, Hrem. exists r2.
    rewrite length_app, take_app_ge, drop_app_ge, <-app_assoc by lia. split_and!; [|done..].
    assert ((length (rd_remaining (rd_set_piece r' None)) <=? room - length p)%nat =
            (length p + length (rd_remaining (rd_set_piece r' None)) <=? room)%nat) as ->; [|done].
    apply eq_true_iff_eq. rewrite !Nat.leb_le. lia.
Qed.

Lemma rd_Read_spec n r :
  rd_ok r →
  ∃ r', rd_Read n r = Ok (take n (rd_remaining r), (length (rd_remaining r) <=? n)%nat, r') ∧
        rd_ok r' ∧ rd_remaining r' = drop n (rd_remaining r).
Proof.
  intros Hok. apply (rd_Read_loop_spec _ n [] r Hok). unfold rd_pieces.
  destruct (rd_buf r) as [w|]; [|lia]. rewrite length_drop. repeat case_match; lia.
Qed.

(** Reading with a sequence of buffer sizes: the concatenation of what is read. *)
Fixpoint rd_ReadAll (ns : list nat) (r : encReader) : R bytes :=
  match ns with
  | [] => Ok []
  | n :: ns => '(b, _, r) ← rd_Read n r; bs ← rd_ReadAll ns r; Ok (b ++ bs)
  end.

Lemma rd_ReadAll_spec ns r :
  rd_ok r → rd_ReadAll ns r = Ok (take (sum_list ns) (rd_remaining r)).
Proof.
  revert r. induction ns as [|n ns IH]; intros r Hok; [done|]. cbn [rd_ReadAll sum_list].
  destruct (rd_Read_spec n r Hok) as (r' & -> & Hok' & Hrem). cbn [mbind res_bind].
  rewrite IH, Hrem by done. cbn. f_equal. by rewrite take_take_drop.
Qed.

(** ** The encoders *)

(** The result of a reference encoding is of addressable size. *)
Definition ref_fits (v : gval) : Prop := ∀ b, enc_ref v = Ok b → is_u64 (len b).

Lemma write_reset_seg v b :
  gval_ok v → enc_ref v = Ok b → is_u64 (len b) →
  ∃ w, write v reset = Ok w ∧ lhsize w = heads_len (lheads w) ∧ seg 0 (str w) (lheads w) b.
Proof.
  intros Hok Hr Hu. pose proof (write_implements v Hok reset) as H. rewrite Hr in H.
  destruct H as (s & hs & -> & Hseg). exists (extend reset s hs). split_and!; [done..|].
  by apply Hseg.
Qed.

Lemma EncodeToBytes_enc_ref v : gval_ok v → ref_fits v → EncodeToBytes v = enc_ref v.
Proof.
  intros Hok Hfit. unfold EncodeToBytes.
  pose proof (write_implements v Hok reset) as H.
  destruct (enc_ref v) as [b| | |] eqn:Hr; [|by rewrite H..].
  destruct (write_reset_seg v b Hok Hr (Hfit b Hr)) as (w & -> & Hl & Hseg).
  by apply toBytes_seg.
Qed.

(** C29: encoding refines the reference: for every Go value that can be encoded,
    [EncodeToBytes], which collects list headers aside and patches them in at
    the end, returns exactly the bytes of the direct recursive RLP definition,
    and fails exactly when that definition does. *)
Theorem EncodeToBytes_ref v : gval_ok v → ref_fits v → EncodeToBytes v = enc_ref v.
Proof. apply EncodeToBytes_enc_ref. Qed.

Lemma EncodeToBytes_ref_witness :
  EncodeToBytes (VStruct [(false, false, VUint 1024); (false, false, VSlice false [VBool true; VBytes []]);
                          (true, true, VBigInt 0)]) =
  enc_ref (VStruct [(false, false, VUint 1024); (false, false, VSlice false [VBool true; VBytes []]);
                    (true, true, VBigInt 0)]).
Proof.
  apply EncodeToBytes_ref.
  - simpl. unfold string_ok, is_u64. repeat split; try done. constructor.
  - intros b [= <-]. done.
Defined.

(** The streaming outputs agree with [EncodeToBytes]: the chunks [Encode]
    passes to the writer concatenate to the same bytes, and a reader returned
    by [EncodeToReader] delivers them whatever the sizes of the buffers it is
    read with. *)
Theorem Encode_streams_agree v b :
  gval_ok v → is_u64 (len b) → enc_ref v = Ok b →
  EncodeToBytes v = Ok b ∧
  (∃ chunks, Encode v = Ok chunks ∧ concat chunks = b) ∧
  (∃ r, EncodeToReader v = Ok (len b, r) ∧
        ∀ ns, rd_ReadAll ns r = Ok (take (sum_list ns) b)).
Proof.
  intros Hok Hu Hr. destruct (write_reset_seg v b Hok Hr Hu) as (w & Hw & Hl & Hseg).
  pose proof Hseg as (Hren & Hh & Hlen). unfold EncodeToBytes, Encode, EncodeToReader. rewrite Hw.
  cbn [mbind res_bind]. split_and!.
  - by apply toBytes_seg.
  - destruct (toWriter_loop_render (lheads w) [] (str w) Hh) as (chunks & Hc & Hcc).
    exists chunks. split; [exact Hc|]. by rewrite Hcc.
  - exists (mk_encReader (Some w) 0 0 None). split.
    + unfold encbuf_size. by rewrite Hl, <-Hlen.
    + intros ns. rewrite rd_ReadAll_spec.
      * change (Ok (take (sum_list ns) (render 0 (str w) (lheads w))) = (Ok (take (sum_list ns) b) : R bytes)).
        by rewrite Hren.
      * split; [split; [done|apply len_nonneg]|]. split; [exact Hh|done].
Qed.

Lemma Encode_streams_agree_witness :
  EncodeToBytes (VSlice false [VUint 1; VString [97; 98]]) = Ok [0xC4; 1; 0x82; 97; 98] ∧
  (∃ chunks, Encode (VSlice false [VUint 1; VString [97; 98]]) = Ok chunks ∧
             concat chunks = [0xC4; 1; 0x82; 97; 98]) ∧
  (∃ r, EncodeToReader (VSlice false [VUint 1; VString [97; 98]]) = Ok (len [0xC4; 1; 0x82; 97; 98], r) ∧
        ∀ ns, rd_ReadAll ns r = Ok (take (sum_list ns) [0xC4; 1; 0x82; 97; 98])).
Proof.
  apply Encode_streams_agree; [|done|reflexivity].
  simpl. unfold string_ok, is_u64. repeat split; try done. repeat constructor; done.
Defined.
