(* ===== verification/RlpStream.v ===== *)
(** * The streaming RLP decoder (src/geth/rlp/decode.go)

    [Stream] reads values piecemeal from a byte reader while enforcing the sizes
    of the enclosing lists and an input limit.  The model keeps every field of
    the Go struct except the scratch buffer [uintbuf]; the reader is an in-memory
    one ([bytes.Reader]), a list of the bytes not yet read.  The decoders for
    integers, booleans, byte arrays, big integers, pointers, arrays and
    [interface{}] are modelled on top of it. *)
From S2P Require Import Prelude RlpBase RlpRaw.

(** [kind = None] is the value [-1] that makes [Kind] read a new header; the
    innermost list is the head of [stack]. *)
Record Stream := mk_Stream {
  rd : bytes;
  remaining : Z;
  size : Z;
  kinderr : option rlp_err;
  stack : list Z;
  kind : option Kind;
  byteval : Z;
  limited : bool;
}.

Abbreviation S_ := (st Stream rlp_err).

Definition set_kind (k : option Kind) : S_ unit := st_modify (λ s,
  mk_Stream (rd s) (remaining s) (size s) (kinderr s) (stack s) k (byteval s) (limited s)).
Definition set_byteval (b : Z) : S_ unit := st_modify (λ s,
  mk_Stream (rd s) (remaining s) (size s) (kinderr s) (stack s) (kind s) b (limited s)).
Definition set_stack (l : list Z) : S_ unit := st_modify (λ s,
  mk_Stream (rd s) (remaining s) (size s) (kinderr s) l (kind s) (byteval s) (limited s)).
Definition set_remaining (n : Z) : S_ unit := st_modify (λ s,
  mk_Stream (rd s) n (size s) (kinderr s) (stack s) (kind s) (byteval s) (limited s)).
Definition set_rd (l : bytes) : S_ unit := st_modify (λ s,
  mk_Stream l (remaining s) (size s) (kinderr s) (stack s) (kind s) (byteval s) (limited s)).
Definition set_size (n : Z) : S_ unit := st_modify (λ s,
  mk_Stream (rd s) (remaining s) n (kinderr s) (stack s) (kind s) (byteval s) (limited s)).

(** Run [m] and hand its error to the continuation, as [err] in Go code. *)
Definition st_try {A} (m : S_ A) : S_ (A + rlp_err) := λ s,
  match m s with
  | (s', Ok a) => (s', Ok (inl a))
  | (s', Err e) => (s', Ok (inr e))
  | (s', Panic why) => (s', Panic why)
  | (s', OutOfFuel) => (s', OutOfFuel)
  end.

Definition listLimit (s : Stream) : option Z := head (stack s).

Definition willRead (n : Z) : S_ unit :=
  set_kind None ≫= λ _,
  s ← st_get;
  (match stack s with
   | [] => mret tt
   | limit :: rest =>
       if n >? limit then st_err ErrElemTooLarge else set_stack (u64 (limit - n) :: rest)
   end) ≫= λ _,
  s ← st_get;
  if limited s then
    if n >? remaining s then st_err ErrValueTooLarge
    else set_remaining (u64 (remaining s - n))
  else mret tt.

Definition readByte : S_ Z :=
  willRead 1 ≫= λ _,
  s ← st_get;
  match rd s with
  | [] => st_err ErrUnexpectedEOF
  | b :: l => set_rd l ≫= λ _, mret b
  end.

(** [readFull] into a buffer of [n] bytes. *)
Definition readFull (n : Z) : S_ bytes :=
  willRead n ≫= λ _,
  s ← st_get;
  if n <=? len (rd s) then
    set_rd (drop (Z.to_nat n) (rd s)) ≫= λ _, mret (take (Z.to_nat n) (rd s))
  else set_rd [] ≫= λ _, st_err ErrUnexpectedEOF.

Definition readUint (size : Z) : S_ Z :=
  if size =? 0 then set_kind None ≫= λ _, mret 0
  else if size =? 1 then readByte
  else if size >? 8 then st_panic runtime_error
  else
    buffer ← readFull size;
    match buffer with
    | [] => st_panic runtime_error
    | b0 :: _ => if b0 =? 0 then st_err ErrCanonSize else mret (be_val buffer)
    end.

(** The two branches of [readKind] for a size of [n] bytes. *)
Definition read_long (k : Kind) (n : Z) : S_ (Kind * Z * option rlp_err) :=
  sz ← st_try (readUint n);
  mret (match sz with
        | inl size => (k, size, if size <? 56 then Some ErrCanonSize else None)
        | inr err => (k, 0, Some err)
        end).

(** [Stream.readKind] returns its three results together; errors are values. *)
Definition s_readKind : S_ (Kind * Z * option rlp_err) :=
  r ← st_try readByte;
  match r with
  | inr err =>
      s ← st_get;
      let err :=
        match stack s with
        | [] => match err with ErrUnexpectedEOF | ErrValueTooLarge => ErrEOF | _ => err end
        | _ => err
        end in
      mret (Byte, 0, Some err)
  | inl b =>
      set_byteval 0 ≫= λ _,
      if b <? 0x80 then set_byteval b ≫= λ _, mret (Byte, 0, None)
      else if b <? 0xB8 then mret (String, u8 (b - 0x80), None)
      else if b <? 0xC0 then
        read_long String (u8 (b - 0xB7))
      else if b <? 0xF8 then mret (List, u8 (b - 0xC0), None)
      else
        read_long List (u8 (b - 0xF7))
  end.

Definition set_ahead (k : Kind) (sz : Z) (err : option rlp_err) : S_ unit := st_modify (λ s,
  mk_Stream (rd s) (remaining s) sz err (stack s) (Some k) (byteval s) (limited s)).

(** The size ahead is compared with the list limit read before the header. *)
Definition s_Kind : S_ (Kind * Z) :=
  s ← st_get;
  match kind s with
  | Some k => match kinderr s with None => mret (k, size s) | Some e => st_err e end
  | None =>
      if bool_decide (listLimit s = Some 0) then st_err EOL else
      '(k, sz, err) ← s_readKind;
      s' ← st_get;
      let err :=
        match err with
        | Some e => Some e
        | None =>
            if match listLimit s with Some limit => sz >? limit | None => false end
            then Some ErrElemTooLarge
            else if limited s' && (sz >? remaining s') then Some ErrValueTooLarge
            else None
        end in
      set_ahead k sz err ≫= λ _,
      match err with None => mret (k, sz) | Some e => st_err e end
  end.

(** ** Stream operations *)

Definition s_Bytes : S_ bytes :=
  '(k, sz) ← s_Kind;
  match k with
  | Byte => set_kind None ≫= λ _, s ← st_get; mret [byteval s]
  | String =>
      b ← readFull sz;
      match b with
      | [x] => if x <? 128 then st_err ErrCanonSize else mret b
      | _ => mret b
      end
  | List => st_err ErrExpectedString
  end.

Definition s_Raw : S_ bytes :=
  '(k, sz) ← s_Kind;
  match k with
  | Byte => set_kind None ≫= λ _, s ← st_get; mret [byteval s]
  | String => buf ← readFull sz; mret (puthead 0x80 0xB7 sz ++ buf)
  | List => buf ← readFull sz; mret (puthead 0xC0 0xF7 sz ++ buf)
  end.

Definition s_uint (maxbits : Z) : S_ Z :=
  '(k, sz) ← s_Kind;
  match k with
  | Byte =>
      s ← st_get;
      if byteval s =? 0 then st_err ErrCanonInt
      else set_kind None ≫= λ _, mret (byteval s)
  | String =>
      if sz >? maxbits / 8 then st_err errUintOverflow else
      v ← st_try (readUint (u8 sz));
      match v with
      | inr ErrCanonSize => st_err ErrCanonInt
      | inr e => st_err e
      | inl v => if (sz >? 0) && (v <? 128) then st_err ErrCanonSize else mret v
      end
  | List => st_err ErrExpectedString
  end.

Definition s_Uint : S_ Z := s_uint 64.

Definition s_Bool : S_ bool :=
  num ← s_uint 8;
  if num =? 0 then mret false
  else if num =? 1 then mret true
  else st_err (ErrInvalidBool num).

Definition s_List : S_ Z :=
  '(k, sz) ← s_Kind;
  if bool_decide (k = List) then
    s ← st_get;
    set_stack (sz :: match stack s with
                     | [] => []
                     | limit :: rest => u64 (limit - sz) :: rest
                     end) ≫= λ _,
    set_kind None ≫= λ _,
    set_size 0 ≫= λ _,
    mret sz
  else st_err ErrExpectedList.

Definition s_ListEnd : S_ unit :=
  s ← st_get;
  match stack s with
  | [] => st_err errNotInList
  | limit :: rest =>
      if limit >? 0 then st_err errNotAtEOL
      else set_stack rest ≫= λ _, set_kind None ≫= λ _, set_size 0
  end.

(** [Reset] on a [bytes.Reader] holding [l]. *)
Definition s_Reset (l : bytes) (inputLimit : Z) : Stream :=
  mk_Stream l (if inputLimit >? 0 then inputLimit else len l) 0 None [] None 0 true.

Definition NewListStream (l : bytes) (n : Z) : Stream :=
  let s := s_Reset l n in
  mk_Stream (rd s) (remaining s) n (kinderr s) (stack s) (Some List) (byteval s) (limited s).

Definition wrapStreamError (err : rlp_err) : rlp_err :=
  match err with
  | ErrCanonInt => decodeError MsgCanonInt
  | ErrCanonSize => decodeError MsgCanonSize
  | ErrExpectedList => decodeError MsgExpectedList
  | ErrExpectedString => decodeError MsgExpectedString
  | errUintOverflow => decodeError MsgTooLong
  | errNotAtEOL => decodeError MsgTooManyElements
  | e => e
  end.
Definition wrapped {A} (m : S_ A) : S_ A :=
  r ← st_try m; match r with inl a => mret a | inr e => st_err (wrapStreamError e) end.

(** ** Decoders *)

Definition decodeUint (bits : Z) : S_ Z := wrapped (s_uint bits).
Definition decodeBool : S_ bool := wrapped s_Bool.
(** [decodeString] and [decodeByteSlice]. *)
Definition decodeBytes : S_ bytes := wrapped s_Bytes.
Definition decodeRawValue : S_ bytes := s_Raw.

(** The last step of [decodeBigInt]: reject leading zeros, set the integer. *)
Definition set_bytes (buffer : bytes) : S_ Z :=
  match buffer with
  | 0 :: _ => st_err (wrapStreamError ErrCanonInt)
  | _ => mret (be_val buffer)
  end.

(** [decodeBigInt]; integers of at most 32 bytes are read through [uintbuf]. *)
Definition decodeBigInt : S_ Z :=
  '(k, sz) ← wrapped s_Kind;
  match k with
  | List => st_err (wrapStreamError ErrExpectedString)
  | Byte => s ← st_get; set_kind None ≫= λ _, set_bytes [byteval s]
  | String =>
      if sz =? 0 then set_kind None ≫= λ _, set_bytes []
      else if sz <=? 32 then
        buffer ← wrapped (readFull sz);
        if (sz =? 1) && (nth 0 buffer 0 <? 128) then st_err (wrapStreamError ErrCanonSize)
        else set_bytes buffer
      else
        buffer ← wrapped (readFull sz);
        set_bytes buffer
  end.

(** [decodeByteArray] into an array of [n] bytes. *)
Definition decodeByteArray (n : Z) : S_ bytes :=
  '(k, sz) ← s_Kind;
  match k with
  | Byte =>
      if n =? 0 then st_err (decodeError MsgTooLong)
      else if n >? 1 then st_err (decodeError MsgTooShort)
      else s ← st_get; set_kind None ≫= λ _, mret [byteval s]
  | String =>
      if n <? sz then st_err (decodeError MsgTooLong)
      else if n >? sz then st_err (decodeError MsgTooShort)
      else
        slice ← readFull n;
        if (sz =? 1) && (nth 0 slice 0 <? 128) then st_err (wrapStreamError ErrCanonSize)
        else mret slice
  | List => st_err (wrapStreamError ErrExpectedString)
  end.

(** The element loop; the bookkeeping of the slice capacity is left out. *)
Fixpoint decodeSliceElems {A} (fuel : nat) (elemdec : S_ A) : S_ (list A) :=
  match fuel with
  | O => λ s, (s, OutOfFuel)
  | S fuel =>
      r ← st_try elemdec;
      match r with
      | inr EOL => mret []
      | inr e => st_err e
      | inl a => l ← decodeSliceElems fuel elemdec; mret (a :: l)
      end
  end.

Definition decodeListSlice {A} (fuel : nat) (elemdec : S_ A) : S_ (list A) :=
  sz ← wrapped s_List;
  if sz =? 0 then s_ListEnd ≫= λ _, mret []
  else
    l ← decodeSliceElems fuel elemdec;
    s_ListEnd ≫= λ _, mret l.

Fixpoint decodeArrayElems {A} (n : nat) (elemdec : S_ A) : S_ (list A) :=
  match n with
  | O => mret []
  | S n =>
      r ← st_try elemdec;
      match r with
      | inr EOL => st_err (decodeError MsgTooFewElements)
      | inr e => st_err e
      | inl a => l ← decodeArrayElems n elemdec; mret (a :: l)
      end
  end.
(** [decodeListArray] into an array of [n] elements. *)
Definition decodeListArray {A} (n : nat) (elemdec : S_ A) : S_ (list A) :=
  wrapped s_List ≫= λ _,
  l ← decodeArrayElems n elemdec;
  wrapped s_ListEnd ≫= λ _, mret l.

(** [makeNilPtrDecoder]. *)
Definition decodeNilPtr {A} (nilKind : Kind) (dec : S_ A) : S_ (option A) :=
  '(k, sz) ← wrapped s_Kind;
  if negb (bool_decide (k = Byte)) && (sz =? 0) then
    if bool_decide (k = nilKind) then set_kind None ≫= λ _, mret None
    else st_err (decodeError MsgWrongEmptyKind)
  else a ← dec; mret (Some a).

(** [decodeInterface]: lists become lists, everything else a byte string. *)
Fixpoint decodeInterface (fuel : nat) : S_ item :=
  match fuel with
  | O => λ s, (s, OutOfFuel)
  | S fuel =>
      '(k, _) ← s_Kind;
      match k with
      | List => l ← decodeListSlice fuel (decodeInterface fuel); mret (Lst l)
      | _ => b ← s_Bytes; mret (Str b)
      end
  end.

(** [DecodeBytes b val] with the decoder [dec] of the type of [val]. *)
Definition DecodeBytes_with {A} (dec : S_ A) (b : bytes) : R A :=
  match dec (s_Reset b (len b)) with
  | (s, Ok a) => match rd s with [] => Ok a | _ => Err ErrMoreThanOneValue end
  | (_, Err e) => Err e
  | (_, Panic p) => Panic p
  | (_, OutOfFuel) => OutOfFuel
  end.

(** [DecodeBytes b] into an [interface{}].  Every element takes a byte of
    input and every nesting level a header, so the length of the input bounds
    both the number of iterations and the depth. *)
Definition DecodeBytes (b : bytes) : R item := DecodeBytes_with (decodeInterface (length b + 2)) b.

Example DecodeBytes_cat :
  DecodeBytes [0xC9; 0x83; 99; 97; 116; 0xC4; 0x82; 4; 0; 1] =
  Ok (Lst [Str [99; 97; 116]; Lst [Str [4; 0]; Str [1]]]).
Proof. reflexivity. Qed.
Example DecodeBytes_trailing : DecodeBytes [0x01; 0x02] = Err ErrMoreThanOneValue.
Proof. reflexivity. Qed.
Example DecodeBytes_inner_too_large : DecodeBytes [0xC3; 0xC3; 1; 2; 3] = Err ErrValueTooLarge.
Proof. reflexivity. Qed.
Example decodeBigInt_ex : DecodeBytes_with decodeBigInt [0x82; 1; 0] = Ok 256.
Proof. reflexivity. Qed.

(** Symbolic execution of a stream computation. *)
Ltac run :=
  cbv [mbind mret st_bind st_ret st_get st_put st_modify st_err st_panic st_lift st_try
       set_kind set_byteval set_stack set_remaining set_rd set_size set_ahead];
  cbn [rd remaining size kinderr stack kind byteval limited fst snd].

(** ** Reading on a well-formed stream

    [sync s]: the limit is in force and equals what the reader holds, as
    [Reset] establishes for an in-memory reader. *)

Record sync (s : Stream) : Prop := {
  sync_limited : limited s = true;
  sync_remaining : remaining s = len (rd s);
  sync_u64 : is_u64 (len (rd s));
  sync_bytes : bytes_ok (rd s);
  sync_stack : Forall is_u64 (stack s);
}.

Definition fits (n : Z) (stk : list Z) : Prop :=
  match stk with [] => True | limit :: _ => n ≤ limit end.
Definition shrink (n : Z) (stk : list Z) : list Z :=
  match stk with [] => [] | limit :: rest => u64 (limit - n) :: rest end.

Definition advance (bv n : Z) (s : Stream) : Stream :=
  mk_Stream (drop (Z.to_nat n) (rd s)) (remaining s - n) (size s) (kinderr s)
    (shrink n (stack s)) None bv (limited s).

Lemma shrink_u64 n stk : Forall is_u64 stk → Forall is_u64 (shrink n stk).
Proof. destruct 1; constructor; [apply u64_range|done]. Qed.

Lemma shrink_shrink n m stk : shrink m (shrink n stk) = shrink (n + m) stk.
Proof.
  destruct stk as [|l stk]; [done|]. cbn. f_equal. unfold u64.
  rewrite Zminus_mod_idemp_l. f_equal. lia.
Qed.

Lemma fits_shrink n m stk :
  Forall is_u64 stk → 0 ≤ n → 0 ≤ m → fits n stk → fits m (shrink n stk) ↔ fits (n + m) stk.
Proof.
  destruct 1 as [|l stk Hl _]; [done|]. cbn. intros ???. unfold is_u64 in Hl.
  rewrite u64_small by (unfold is_u64; lia). lia.
Qed.

Lemma len_drop_Z {A} n (l : list A) : 0 ≤ n ≤ len l → len (drop (Z.to_nat n) l) = len l - n.
Proof. intros H. unfold len in *. rewrite length_drop. lia. Qed.

Lemma sync_advance bv n s : sync s → 0 ≤ n ≤ len (rd s) → sync (advance bv n s).
Proof.
  intros [H1 H2 H3 H4 H5] Hn. split; cbn; auto using bytes_ok_drop, shrink_u64.
  - rewrite len_drop_Z; lia.
  - rewrite len_drop_Z by done. unfold is_u64 in *. lia.
Qed.

Lemma advance_advance bv bv' n m s :
  0 ≤ n → 0 ≤ m → advance bv' m (advance bv n s) = advance bv' (n + m) s.
Proof.
  intros. unfold advance. cbn. rewrite shrink_shrink, drop_drop. f_equal; [|lia].
  f_equal. lia.
Qed.

Lemma willRead_ok n s :
  sync s → 0 ≤ n ≤ len (rd s) → fits n (stack s) →
  willRead n s = (mk_Stream (rd s) (remaining s - n) (size s) (kinderr s) (shrink n (stack s))
                    None (byteval s) (limited s), Ok tt).
Proof.
  intros [H1 H2 H3 _ H5] Hn Hf. unfold is_u64 in H3.
  assert (u64 (remaining s - n) = remaining s - n) as Hr by (apply u64_small; unfold is_u64; lia).
  unfold willRead. run. destruct (stack s) as [|l stk] eqn:Hs; run.
  - rewrite H1. rewrite Z.gtb_ltb, (proj2 (Z.ltb_ge _ _)) by lia. run. by rewrite Hr.
  - cbn in Hf. rewrite Z.gtb_ltb, (proj2 (Z.ltb_ge _ _)) by lia. run. rewrite H1.
    rewrite Z.gtb_ltb, (proj2 (Z.ltb_ge _ _)) by lia. run. by rewrite Hr.
Qed.

Lemma willRead_inv n s s' :
  sync s → willRead n s = (s', Ok tt) → n ≤ len (rd s) ∧ fits n (stack s).
Proof.
  intros [H1 H2 H3 _ H5]. unfold willRead. run.
  destruct (stack s) as [|l stk] eqn:Hs; run.
  - rewrite H1, Z.gtb_ltb. destruct (Z.ltb_spec (remaining s) n); [done|]. intros _. cbn; split; [lia|done || lia].
  - rewrite Z.gtb_ltb. destruct (Z.ltb_spec l n); [done|]. run.
    rewrite H1, Z.gtb_ltb. destruct (Z.ltb_spec (remaining s) n); [done|]. intros _. cbn; split; [lia|done || lia].
Qed.

Lemma willRead_outcome n s : (willRead n s).2 = Ok tt ∨ ∃ e, (willRead n s).2 = Err e ∧ e ≠ EOL.
Proof.
  unfold willRead. run. destruct (stack s) as [|l stk] eqn:Hs; run.
  - destruct (limited s); [|by left]. destruct (_ >? _); [right|left]; by eauto.
  - destruct (n >? l); [by eauto|]. run. destruct (limited s); [|by left].
    destruct (_ >? _); [right|left]; by eauto.
Qed.

Lemma readFull_ok n s :
  sync s → 0 ≤ n ≤ len (rd s) → fits n (stack s) →
  readFull n s = (advance (byteval s) n s, Ok (take (Z.to_nat n) (rd s))).
Proof.
  intros Hsy Hn Hf. unfold readFull. run. rewrite willRead_ok by done. run.
  by rewrite (proj2 (Z.leb_le _ _)) by lia.
Qed.

Lemma readByte_ok s b l :
  sync s → rd s = b :: l → fits 1 (stack s) → readByte s = (advance (byteval s) 1 s, Ok b).
Proof.
  intros Hsy Hr Hf. unfold readByte. run. rewrite willRead_ok; [|done| |done].
  - run. rewrite Hr. run. unfold advance. by rewrite Hr.
  - rewrite Hr, len_cons. pose proof (len_nonneg l). lia.
Qed.

Lemma readFull_inv n s s' b :
  sync s → 0 ≤ n → readFull n s = (s', Ok b) →
  n ≤ len (rd s) ∧ fits n (stack s) ∧ s' = advance (byteval s) n s ∧ b = take (Z.to_nat n) (rd s).
Proof.
  intros Hsy Hn H. assert (n ≤ len (rd s) ∧ fits n (stack s)) as [Hl Hf].
  { unfold readFull in H. revert H. run.
    destruct (willRead n s) as [s1 [[]| | |]] eqn:Hw; try done. intros _. by apply willRead_inv in Hw. }
  rewrite readFull_ok in H by done. by simplify_eq.
Qed.

Lemma readByte_inv s s' b :
  sync s → readByte s = (s', Ok b) →
  fits 1 (stack s) ∧ s' = advance (byteval s) 1 s ∧ ∃ l, rd s = b :: l.
Proof.
  intros Hsy H. assert (1 ≤ len (rd s) ∧ fits 1 (stack s)) as [Hl Hf].
  { unfold readByte in H. revert H. run.
    destruct (willRead 1 s) as [s1 [[]| | |]] eqn:Hw; try done. intros _. by apply willRead_inv in Hw. }
  destruct (rd s) as [|x l] eqn:Hr; [done|]. erewrite readByte_ok in H by done. simplify_eq. eauto.
Qed.

(** A computation that cannot panic or run out of fuel, and whose errors are
    not the end-of-list marker. *)
Definition plain {A} (o : res rlp_err A) : Prop :=
  match o with Ok _ => True | Err e => e ≠ EOL | _ => False end.

Lemma readFull_plain n s : plain (readFull n s).2.
Proof.
  unfold readFull. run. destruct (willRead_outcome n s) as [H|(e & H & He)];
    destruct (willRead n s) as [s1 o]; cbn in H; subst o; [|done].
  by destruct (_ <=? _).
Qed.

Lemma readByte_plain s : plain (readByte s).2.
Proof.
  unfold readByte. run. destruct (willRead_outcome 1 s) as [H|(e & H & He)];
    destruct (willRead 1 s) as [s1 o]; cbn in H; subst o; [|done].
  by destruct (rd s1).
Qed.

Lemma readUint_plain n s : sync s → 0 ≤ n ≤ 8 → plain (readUint n s).2.
Proof.
  intros Hsy Hn. unfold readUint. destruct (Z.eqb_spec n 0); [done|].
  destruct (Z.eqb_spec n 1); [apply readByte_plain|].
  rewrite Z.gtb_ltb, (proj2 (Z.ltb_ge 8 n)) by lia. run.
  pose proof (readFull_plain n s) as Hp. destruct (readFull n s) as [s' [b|e| |]] eqn:Hr; try done.
  apply readFull_inv in Hr as (Hl & _ & _ & ->); [|done|lia].
  destruct (take (Z.to_nat n) (rd s)) as [|b0 b] eqn:Ht; [|by case_match].
  apply (f_equal length) in Ht. rewrite length_take in Ht. unfold len in *. simpl in Ht. lia.
Qed.

Lemma readUint_ok sz s tl :
  sync s → is_u64 sz → 56 ≤ sz → rd s = be_bytes (nbytes sz) sz ++ tl →
  fits (Z.of_nat (nbytes sz)) (stack s) →
  readUint (Z.of_nat (nbytes sz)) s = (advance (byteval s) (Z.of_nat (nbytes sz)) s, Ok sz).
Proof.
  intros Hsy Hu H56 Hr Hf. pose proof (nbytes_u64 sz Hu). pose proof (nbytes_pos sz ltac:(lia)).
  destruct (be_bytes_lead sz ltac:(lia)) as (b0 & l & Heq & Hb0).
  pose proof (be_val_min sz ltac:(lia)) as Hv.
  unfold readUint. rewrite (proj2 (Z.eqb_neq _ 0)) by lia.
  destruct (Z.eqb_spec (Z.of_nat (nbytes sz)) 1) as [H1|H1].
  - rewrite H1 in *. pose proof (f_equal length Heq) as Hlen.
    rewrite length_be_bytes in Hlen. destruct l; [|simpl in Hlen; lia].
    rewrite Heq, be_val_single in Hv. subst b0. rewrite Heq in Hr. by apply (readByte_ok s sz tl).
  - rewrite Z.gtb_ltb, (proj2 (Z.ltb_ge 8 _)) by lia. run. rewrite readFull_ok; [|done| |done].
    2: { rewrite Hr, len_app, len_be_bytes. pose proof (len_nonneg tl). lia. }
    rewrite Hr, Nat2Z.id, take_app_length' by (by rewrite length_be_bytes).
    rewrite Heq in *. destruct (Z.eqb_spec b0 0); [lia|]. by rewrite Hv.
Qed.

Lemma readUint_inv n sz s s' :
  sync s → 1 ≤ n ≤ 8 → readUint n s = (s', Ok sz) → 56 ≤ sz →
  Z.of_nat (nbytes sz) = n ∧ fits n (stack s) ∧ s' = advance (byteval s) n s ∧ is_u64 sz ∧
  ∃ tl, rd s = be_bytes (nbytes sz) sz ++ tl.
Proof.
  intros Hsy Hn H H56. pose proof (sync_bytes _ Hsy) as Hok.
  unfold readUint in H. rewrite (proj2 (Z.eqb_neq _ 0)) in H by lia.
  destruct (Z.eqb_spec n 1) as [->|Hn1].
  - apply readByte_inv in H as (Hf & -> & l & Hr); [|done]. rewrite Hr in Hok.
    apply bytes_ok_cons in Hok as [Hb _]. unfold is_u8 in Hb.
    rewrite (nbytes_is sz 0) by (simpl Z.of_nat; lia). split_and!; try done; [unfold is_u64; lia..|].
    exists l. cbn. by rewrite Z.shiftr_0_r, u8_small.
  - rewrite Z.gtb_ltb, (proj2 (Z.ltb_ge 8 n)) in H by lia. revert H. run.
    destruct (readFull n s) as [s1 [b|e| |]] eqn:Hr; try done.
    apply readFull_inv in Hr as (Hl & Hf & -> & ->); [|done|lia].
    assert (bytes_ok (take (Z.to_nat n) (rd s))) as Htok by auto with go.
    assert (length (take (Z.to_nat n) (rd s)) = Z.to_nat n) as Htl
      by (rewrite length_take; unfold len in *; lia).
    destruct (take (Z.to_nat n) (rd s)) as [|b0 l] eqn:Ht; [done|].
    destruct (Z.eqb_spec b0 0) as [|Hb0]; [done|]. intros Hres.
    assert (sz = be_val (b0 :: l)) as -> by congruence.
    assert (s' = advance (byteval s) n s) as -> by congruence.
    destruct (be_min_val b0 l Htok Hb0) as (Hnb & Heq & Hpos). simpl in Htl.
    assert (Z.of_nat (nbytes (be_val (b0 :: l))) = n) as Hnn by lia.
    split_and!; try done.
    + split; [lia|]. eapply Z.lt_le_trans; [apply be_val_bound, Htok|].
      apply Z.pow_le_mono_r; [lia|]. rewrite len_cons. unfold len. lia.
    + exists (drop (Z.to_nat n) (rd s)). by rewrite Heq, <-Ht, take_drop.
Qed.

(** ** Headers *)

Definition is_head (k : Kind) (sz bv : Z) (hd : bytes) : Prop :=
  is_u64 sz ∧
  match k with
  | Byte => sz = 0 ∧ 0 ≤ bv < 128 ∧ hd = [bv]
  | String => bv = 0 ∧ hd = rlp_head 0x80 sz
  | List => bv = 0 ∧ hd = rlp_head 0xC0 sz
  end.

Lemma is_head_nonempty k sz bv hd : is_head k sz bv hd → 1 ≤ len hd.
Proof.
  intros [_ H]. destruct k; [destruct H as (_ & _ & ->); done|destruct H as [_ ->]..].
  - destruct (rlp_head_nonempty 0x80 sz) as (? & l & ->). rewrite len_cons.
    pose proof (len_nonneg l). lia.
  - destruct (rlp_head_nonempty 0xC0 sz) as (? & l & ->). rewrite len_cons.
    pose proof (len_nonneg l). lia.
Qed.

Lemma rlp_head_long tag sz : 56 ≤ sz →
  rlp_head tag sz = [tag + 55 + Z.of_nat (nbytes sz)] ++ be_bytes (nbytes sz) sz.
Proof. intros. unfold rlp_head. by rewrite (proj2 (Z.ltb_ge sz 56)) by lia. Qed.
Lemma rlp_head_short tag sz : sz < 56 → rlp_head tag sz = [tag + sz].
Proof. intros. unfold rlp_head. by rewrite (proj2 (Z.ltb_lt sz 56)). Qed.

(** The long form of a header, from the point where its first byte was read. *)
Lemma read_long_ok k tag sz s tl :
  sync s → is_u64 sz → 56 ≤ sz → rd s = rlp_head tag sz ++ tl → fits (len (rlp_head tag sz)) (stack s) →
  read_long k (Z.of_nat (nbytes sz)) (advance 0 1 s) =
  (advance 0 (len (rlp_head tag sz)) s, Ok (k, sz, None)).
Proof.
  intros Hsy Hu H56 Hr Hf. rewrite rlp_head_long in * by done. cbn [app] in *.
  rewrite len_cons, len_be_bytes in *. pose proof (sync_stack _ Hsy) as Hst.
  assert (fits 1 (stack s)) as Hf1 by (destruct (stack s); cbn in *; [done|lia]).
  assert (1 ≤ len (rd s)) by (rewrite Hr, len_cons; pose proof (len_nonneg (be_bytes (nbytes sz) sz ++ tl)); lia).
  unfold read_long. run. rewrite (readUint_ok sz (advance 0 1 s) tl); try done.
  - rewrite advance_advance by lia. by rewrite (proj2 (Z.ltb_ge sz 56)).
  - apply sync_advance; [done|lia].
  - cbn. by rewrite Hr.
  - cbn. apply fits_shrink; done || lia.
Qed.

Lemma read_long_inv k tag n k' sz s s' b l :
  sync s → rd s = b :: l → fits 1 (stack s) → b = tag + 55 + n → 1 ≤ n ≤ 8 →
  read_long k n (advance 0 1 s) = (s', Ok (k', sz, None)) →
  k' = k ∧ is_u64 sz ∧ fits (len (rlp_head tag sz)) (stack s) ∧
  s' = advance 0 (len (rlp_head tag sz)) s ∧ ∃ tl, rd s = rlp_head tag sz ++ tl.
Proof.
  intros Hsy Hr Hf -> Hn. unfold read_long. run.
  assert (1 ≤ len (rd s)) as H1 by (rewrite Hr, len_cons; pose proof (len_nonneg l); lia).
  destruct (readUint n (advance 0 1 s)) as [s2 [v|e| |]] eqn:H; try done.
  destruct (Z.ltb_spec v 56) as [|H56]; [done|]. intros [= <- <- <-].
  apply readUint_inv in H as (<- & Hf' & -> & Hu & tl & Htl); try done.
  2: apply sync_advance; [done|lia].
  rewrite rlp_head_long by done. cbn [app]. rewrite len_cons, len_be_bytes.
  split_and!; try done.
  - apply fits_shrink in Hf'; done || lia || apply (sync_stack _ Hsy).
  - by rewrite advance_advance by lia.
  - exists tl. change (drop 1 (rd s) = be_bytes (nbytes v) v ++ tl) in Htl.
    rewrite Hr in Htl |- *. change (l = be_bytes (nbytes v) v ++ tl) in Htl. by rewrite Htl.
Qed.

Lemma read_long_plain k n s :
  sync s → 0 ≤ n ≤ 8 → ∃ s' sz err, read_long k n s = (s', Ok (k, sz, err)) ∧ err ≠ Some EOL.
Proof.
  intros Hsy Hn. pose proof (readUint_plain n _ Hsy Hn) as Hpl. unfold read_long. run.
  destruct (readUint n s) as [s2 [v|e| |]]; cbn in Hpl; try done.
  - eexists _, _, _. split; [done|]. by case_ltb.
  - eexists _, _, _. split; [done|]. congruence.
Qed.

(** Name the state in which the size bytes of a long header are read. *)
Ltac fold_advance :=
  match goal with
  | |- context [read_long ?k ?n ?x] =>
      match x with context [advance _ 1 ?s] => change x with (advance 0 1 s) end
  end.

Lemma s_readKind_ok s k sz bv hd tl :
  sync s → is_head k sz bv hd → rd s = hd ++ tl → fits (len hd) (stack s) →
  s_readKind s = (advance bv (len hd) s, Ok (k, sz, None)).
Proof.
  intros Hsy Hhd Hr Hf. pose proof (is_head_nonempty _ _ _ _ Hhd) as Hne.
  assert (fits 1 (stack s)) as Hf1 by (destruct (stack s); cbn in *; [done|lia]).
  destruct Hhd as [Hu Hhd]. pose proof Hu as [Hsz0 _]. pose proof (nbytes_u64 _ Hu) as Hn8. destruct k.
  - destruct Hhd as (-> & Hbv & ->). unfold s_readKind. run.
    rewrite (readByte_ok s bv tl) by done. by rewrite (proj2 (Z.ltb_lt bv 128)) by lia.
  - destruct Hhd as [-> ->]. destruct (Z.lt_ge_cases sz 56).
    + rewrite rlp_head_short in * by done. unfold s_readKind. run.
      rewrite (readByte_ok s (0x80 + sz) tl) by done. do 1 ltb_false. ltb_true.
      replace (0x80 + sz - 0x80) with sz by lia. by rewrite u8_small by (unfold is_u8; lia).
    + pose proof (nbytes_pos sz ltac:(lia)). unfold s_readKind. run.
      rewrite (readByte_ok s (0x80 + 55 + Z.of_nat (nbytes sz)) (be_bytes (nbytes sz) sz ++ tl));
        [|done|by rewrite Hr, rlp_head_long by lia|done].
      do 2 ltb_false. ltb_true.
      replace (0x80 + 55 + Z.of_nat (nbytes sz) - 0xB7) with (Z.of_nat (nbytes sz)) by lia.
      rewrite u8_small by (unfold is_u8; lia).
      fold_advance. by apply (read_long_ok _ 0x80 sz s tl).
  - destruct Hhd as [-> ->]. destruct (Z.lt_ge_cases sz 56).
    + rewrite rlp_head_short in * by done. unfold s_readKind. run.
      rewrite (readByte_ok s (0xC0 + sz) tl) by done. do 3 ltb_false. ltb_true.
      replace (0xC0 + sz - 0xC0) with sz by lia. by rewrite u8_small by (unfold is_u8; lia).
    + pose proof (nbytes_pos sz ltac:(lia)). unfold s_readKind. run.
      rewrite (readByte_ok s (0xC0 + 55 + Z.of_nat (nbytes sz)) (be_bytes (nbytes sz) sz ++ tl));
        [|done|by rewrite Hr, rlp_head_long by lia|done].
      do 4 ltb_false.
      replace (0xC0 + 55 + Z.of_nat (nbytes sz) - 0xF7) with (Z.of_nat (nbytes sz)) by lia.
      rewrite u8_small by (unfold is_u8; lia).
      fold_advance. by apply (read_long_ok _ 0xC0 sz s tl).
Qed.

Lemma s_readKind_inv s s' k sz :
  sync s → s_readKind s = (s', Ok (k, sz, None)) →
  ∃ bv hd tl, is_head k sz bv hd ∧ rd s = hd ++ tl ∧ fits (len hd) (stack s) ∧
              s' = advance bv (len hd) s.
Proof.
  intros Hsy. pose proof (sync_bytes _ Hsy) as Hok. unfold s_readKind. run.
  destruct (readByte s) as [s1 [b|e| |]] eqn:Hrb; try (intros H; destruct (stack _); simplify_eq; done).
  apply readByte_inv in Hrb as (Hf & -> & l & Hr); [|done]. rewrite Hr in Hok.
  apply bytes_ok_cons in Hok as [Hb _]. unfold is_u8 in Hb.
  destruct (Z.ltb_spec b 0x80) as [H80|H80].
  { intros [= <- <- <-]. exists b, [b], l. unfold is_head, is_u64. split_and!; try done; lia. }
  destruct (Z.ltb_spec b 0xB8) as [HB8|HB8].
  { rewrite u8_small by (unfold is_u8; lia). intros [= <- <- <-].
    exists 0, [b], l. split; [|done]. split; [unfold is_u64; lia|]. split; [done|].
    rewrite rlp_head_short by lia. f_equal. lia. }
  destruct (Z.ltb_spec b 0xC0) as [HC0|HC0].
  { rewrite u8_small by (unfold is_u8; lia). fold_advance. intros H.
    apply (read_long_inv _ 0x80 _ _ _ _ _ b l) in H as (-> & Hu & Hf' & -> & tl & Htl);
      [|done || lia..].
    by exists 0, (rlp_head 0x80 sz), tl. }
  destruct (Z.ltb_spec b 0xF8) as [HF8|HF8].
  { rewrite u8_small by (unfold is_u8; lia). intros [= <- <- <-].
    exists 0, [b], l. split; [|done]. split; [unfold is_u64; lia|]. split; [done|].
    rewrite rlp_head_short by lia. f_equal. lia. }
  rewrite u8_small by (unfold is_u8; lia). fold_advance. intros H.
  apply (read_long_inv _ 0xC0 _ _ _ _ _ b l) in H as (-> & Hu & Hf' & -> & tl & Htl);
    [|done || lia..].
  by exists 0, (rlp_head 0xC0 sz), tl.
Qed.

(** [readKind] neither panics nor reports [EOL]; it only fails by value. *)
Lemma s_readKind_plain s :
  sync s → ∃ s' k sz err, s_readKind s = (s', Ok (k, sz, err)) ∧ err ≠ Some EOL.
Proof.
  intros Hsy. pose proof (sync_bytes _ Hsy) as Hok. unfold s_readKind. run.
  pose proof (readByte_plain s) as Hp.
  destruct (readByte s) as [s1 [b|e| |]] eqn:Hrb; try done.
  2: { cbn in Hp. eexists _, _, _, _. split; [done|]. destruct (stack _), e; congruence. }
  apply readByte_inv in Hrb as (Hf & -> & l & Hr); [|done]. rewrite Hr in Hok.
  apply bytes_ok_cons in Hok as [Hb _]. unfold is_u8 in Hb.
  assert (sync (advance 0 1 s)) as Hsy'.
  { apply sync_advance; [done|]. rewrite Hr, len_cons. pose proof (len_nonneg l). lia. }
  destruct (Z.ltb_spec b 0x80); [eexists _, _, _, _; by split|].
  destruct (Z.ltb_spec b 0xB8); [eexists _, _, _, _; by split|].
  destruct (Z.ltb_spec b 0xC0).
  { rewrite u8_small by (unfold is_u8; lia). fold_advance.
    destruct (read_long_plain String (b - 0xB7) _ Hsy' ltac:(lia)) as (? & ? & ? & ? & ?). eauto 6. }
  destruct (Z.ltb_spec b 0xF8); [eexists _, _, _, _; by split|].
  rewrite u8_small by (unfold is_u8; lia). fold_advance.
  destruct (read_long_plain List (b - 0xF7) _ Hsy' ltac:(lia)) as (? & ? & ? & ? & ?). eauto 6.
Qed.

(** The state after [Kind] succeeded on a header of [n] bytes. *)
Definition ahead (k : Kind) (sz bv n : Z) (s : Stream) : Stream :=
  mk_Stream (drop (Z.to_nat n) (rd s)) (remaining s - n) sz None
    (shrink n (stack s)) (Some k) bv (limited s).

Lemma s_Kind_ahead s k sz bv hd tl :
  sync s → kind s = None → is_head k sz bv hd → rd s = hd ++ tl → sz ≤ len tl →
  fits (len hd) (stack s) → fits sz (stack s) →
  s_Kind s = (ahead k sz bv (len hd) s, Ok (k, sz)).
Proof.
  intros Hsy Hk Hhd Hr Hsz Hf1 Hf. pose proof (is_head_nonempty _ _ _ _ Hhd) as Hne.
  pose proof Hhd as [[Hsz0 _] _]. pose proof (len_nonneg tl).
  unfold s_Kind. run. rewrite Hk. rewrite bool_decide_eq_false_2.
  2: { unfold listLimit. destruct (stack s); cbn in *; [done|]. intros [=]. lia. }
  rewrite (s_readKind_ok s k sz bv hd tl) by done. unfold listLimit.
  assert (match head (stack s) with Some limit => sz >? limit | None => false end = false) as ->.
  { destruct (stack s) as [|x stk]; cbn in *; [done|]. rewrite Z.gtb_ltb. apply Z.ltb_ge. lia. }
  cbn [advance limited remaining]. rewrite (sync_limited _ Hsy), (sync_remaining _ Hsy), Hr, len_app.
  rewrite Z.gtb_ltb, (proj2 (Z.ltb_ge _ sz)) by lia. cbn [andb]. unfold ahead.
  assert (remaining s = len hd + len tl) as -> by (by rewrite (sync_remaining _ Hsy), Hr, len_app).
  by rewrite (sync_limited _ Hsy).
Qed.

Lemma s_Kind_ok s k sz bv hd tl :
  sync s → kind s = None → is_head k sz bv hd → rd s = hd ++ tl → sz ≤ len tl →
  fits (len hd + sz) (stack s) →
  s_Kind s = (ahead k sz bv (len hd) s, Ok (k, sz)).
Proof.
  intros Hsy Hk Hhd Hr Hsz Hf. pose proof (is_head_nonempty _ _ _ _ Hhd).
  pose proof Hhd as [[Hsz0 _] _].
  apply (s_Kind_ahead s k sz bv hd tl); try done; destruct (stack s); cbn in *; done || lia.
Qed.

Lemma s_Kind_inv s s' k sz :
  sync s → kind s = None → s_Kind s = (s', Ok (k, sz)) →
  ∃ bv hd tl, is_head k sz bv hd ∧ rd s = hd ++ tl ∧ fits (len hd) (stack s) ∧ sz ≤ len tl ∧
              s' = ahead k sz bv (len hd) s.
Proof.
  intros Hsy Hk. unfold s_Kind. run. rewrite Hk.
  case_bool_decide; [done|].
  destruct (s_readKind_plain s Hsy) as (s1 & k1 & sz1 & err & Hrk & _). rewrite Hrk.
  destruct err as [e|]; [done|]. apply s_readKind_inv in Hrk as (bv & hd & tl & Hhd & Hr & Hf & ->); [|done].
  destruct (match listLimit s with Some limit => sz1 >? limit | None => false end); [done|].
  cbn [advance limited remaining]. rewrite (sync_limited _ Hsy), Z.gtb_ltb. cbn [andb].
  destruct (Z.ltb_spec (remaining s - len hd) sz1) as [|Hle]; [done|].
  intros [= <- <- <-]. exists bv, hd, tl.
  rewrite (sync_remaining _ Hsy), Hr, len_app in Hle. unfold ahead. rewrite (sync_limited _ Hsy).
  split_and!; try done. lia.
Qed.

Lemma s_Kind_EOL s : kind s = None → listLimit s = Some 0 → s_Kind s = (s, Err EOL).
Proof. intros Hk Hl. unfold s_Kind. run. rewrite Hk, Hl. done. Qed.

Lemma s_Kind_EOL_inv s s' :
  sync s → kind s = None → s_Kind s = (s', Err EOL) → listLimit s = Some 0 ∧ s' = s.
Proof.
  intros Hsy Hk. unfold s_Kind. run. rewrite Hk. case_bool_decide; [by intros [= <-]|].
  destruct (s_readKind_plain s Hsy) as (s1 & k1 & sz1 & err & Hrk & He). rewrite Hrk.
  destruct err as [e|]; [intros [= _ ->]; done|].
  destruct (match listLimit s with Some limit => sz1 >? limit | None => false end); [done|].
  by destruct (_ && _).
Qed.

(** [Kind] on a well-formed stream succeeds or returns an error. *)
Lemma s_Kind_total s : sync s → kind s = None → (∃ s' k sz, s_Kind s = (s', Ok (k, sz))) ∨ (∃ s' e, s_Kind s = (s', Err e)).
Proof.
  intros Hsy Hk. unfold s_Kind. run. rewrite Hk. case_bool_decide; [by eauto|].
  destruct (s_readKind_plain s Hsy) as (s1 & k1 & sz1 & err & Hrk & _). rewrite Hrk.
  destruct err as [e|]; [by eauto|].
  destruct (match listLimit s with Some limit => sz1 >? limit | None => false end); [by eauto|].
  destruct (_ && _); eauto.
Qed.

Lemma ahead_cached k sz bv n s : s_Kind (ahead k sz bv n s) = (ahead k sz bv n s, Ok (k, sz)).
Proof. done. Qed.

(** ** Decoding values

    [eats bs s s']: from [s] to [s'] the stream has moved over the bytes [bs],
    charged them to the enclosing list, and is ready for the next value. *)

Definition eats (bs : bytes) (s s' : Stream) : Prop :=
  rd s = bs ++ rd s' ∧ stack s' = shrink (len bs) (stack s) ∧ sync s' ∧ kind s' = None.

Lemma sync_ahead k sz bv n s : sync s → 0 ≤ n ≤ len (rd s) → sync (ahead k sz bv n s).
Proof. intros Hs Hn. destruct (sync_advance bv n s Hs Hn). by split. Qed.

Lemma drop_head {A} (hd tl : list A) : drop (Z.to_nat (len hd)) (hd ++ tl) = tl.
Proof. unfold len. by rewrite Nat2Z.id, drop_app_length. Qed.

Lemma is_head_string k sz bv hd b :
  k ≠ List → is_head k sz bv hd → len b = sz → (∀ x, b = [x] → 128 ≤ x) →
  rlp_string (match k with Byte => [bv] | _ => b end) = hd ++ match k with Byte => [] | _ => b end.
Proof.
  intros Hk [_ H] Hb Hx. destruct k; [| |done].
  - destruct H as (_ & Hbv & ->). cbn. by rewrite (proj2 (Z.ltb_lt bv 128)) by lia.
  - destruct H as [_ ->]. destruct (rlp_string_cases b) as [(x & -> & Hlt & _)|[_ ->]].
    + specialize (Hx x eq_refl). lia.
    + by rewrite Hb.
Qed.

(** [Bytes] on a string value. *)
Lemma s_Bytes_ahead_inv s s' k sz bv hd tl b :
  sync s → k ≠ List → is_head k sz bv hd → rd s = hd ++ tl → fits (len hd) (stack s) →
  s_Bytes (ahead k sz bv (len hd) s) = (s', Ok b) → eats (rlp_string b) s s' ∧ bytes_ok b.
Proof.
  intros Hsy Hk Hhd Hr Hf. pose proof (is_head_nonempty _ _ _ _ Hhd) as Hne.
  assert (0 ≤ len hd ≤ len (rd s)) as Hln by (rewrite Hr, len_app; pose proof (len_nonneg tl); lia).
  pose proof (sync_ahead k sz bv (len hd) s Hsy Hln) as Hsa.
  unfold s_Bytes. run. rewrite ahead_cached. destruct k; [| |done]; run.
  - intros [= <- <-]. destruct Hhd as (_ & _ & Hbv & ->). split.
    + assert (rlp_string [bv] = [bv]) as -> by (cbn; by rewrite (proj2 (Z.ltb_lt bv 128)) by lia).
      split_and!; [by rewrite Hr|done| |done]. by destruct Hsa.
    + apply bytes_ok_cons. split; [unfold is_u8; lia|constructor].
  - destruct (readFull sz (ahead String sz bv (len hd) s)) as [s1 [c|e| |]] eqn:Hrf; try done.
    pose proof Hhd as [[Hsz0 _] _].
    apply readFull_inv in Hrf as (Hl & Hf' & -> & ->); [|done..]. cbn [ahead rd stack] in *.
    rewrite Hr, drop_head in *. set (c := take (Z.to_nat sz) tl) in *.
    assert (len c = sz) as Hc by (unfold c, len in *; rewrite length_take; lia).
    assert (bytes_ok tl) as Htl by (pose proof (sync_bytes _ Hsy) as Hb; rewrite Hr in Hb;
      by apply bytes_ok_app in Hb as [_ ?]).
    intros H. assert ((∀ x, c = [x] → 128 ≤ x) ∧ s' = advance bv sz (ahead String sz bv (len hd) s) ∧ b = c)
      as (Hx & -> & ->).
    { destruct c as [|x [|y c']]; [| |].
      - injection H as <- <-. split_and!; [intros ? [=]|done..].
      - destruct (Z.ltb_spec x 128); [done|]. injection H as <- <-.
        split_and!; [intros ? [= ->]; done|done..].
      - injection H as <- <-. split_and!; [intros ? [=]|done..]. }
    split; [|unfold c; auto with go].
    pose proof (is_head_string String sz bv hd c ltac:(done) Hhd Hc Hx) as Hs. cbn in Hs. rewrite Hs.
    split_and!.
    + cbn. rewrite Hr, drop_head, <-app_assoc. f_equal. unfold c. by rewrite take_drop.
    + cbn. by rewrite shrink_shrink, len_app, Hc.
    + apply sync_advance; [done|]. cbn. rewrite Hr, drop_head. lia.
    + done.
Qed.

Lemma s_Bytes_ahead_ok s k sz bv hd c tl :
  sync s → k ≠ List → is_head k sz bv hd → rd s = hd ++ c ++ tl → len c = sz →
  fits (len hd + sz) (stack s) → (∀ x, c = [x] → 128 ≤ x) →
  ∃ s', s_Bytes (ahead k sz bv (len hd) s) = (s', Ok (match k with Byte => [bv] | _ => c end)).
Proof.
  intros Hsy Hk Hhd Hr Hc Hf Hx. pose proof (is_head_nonempty _ _ _ _ Hhd) as Hne.
  pose proof (len_nonneg c). pose proof (len_nonneg tl).
  unfold s_Bytes. run. rewrite ahead_cached. destruct k; [by eexists| |done]; run.
  rewrite readFull_ok.
  - cbn [ahead rd]. rewrite Hr, drop_head. subst sz. unfold len. rewrite Nat2Z.id, take_app_length.
    destruct c as [|x [|y c]]; [by eexists| |by eexists]. specialize (Hx x eq_refl).
    rewrite (proj2 (Z.ltb_ge x 128)) by done. by eexists.
  - apply sync_ahead; [done|]. rewrite Hr, !len_app. lia.
  - cbn. rewrite Hr, drop_head, len_app. lia.
  - cbn. apply fits_shrink; [apply Hsy|lia|lia| |done].
    destruct (stack s); cbn in *; [done|lia].
Qed.

(** The state inside a list of [sz] bytes whose header took [n] bytes. *)
Definition opened (sz bv n : Z) (s : Stream) : Stream :=
  mk_Stream (drop (Z.to_nat n) (rd s)) (remaining s - n) 0 None
    (sz :: shrink (n + sz) (stack s)) None bv (limited s).

Lemma s_List_ahead sz bv n s : s_List (ahead List sz bv n s) = (opened sz bv n s, Ok sz).
Proof.
  unfold s_List. run. rewrite ahead_cached. rewrite bool_decide_eq_true_2 by done.
  unfold opened, ahead. run. destruct (stack s) as [|x stk]; [done|]. cbn [shrink].
  pose proof (shrink_shrink n sz (x :: stk)) as H. cbn in H. by rewrite H.
Qed.

Lemma sync_opened sz bv n s :
  sync s → is_u64 sz → 0 ≤ n ≤ len (rd s) → sync (opened sz bv n s).
Proof.
  intros Hs Hsz Hn. destruct (sync_advance bv n s Hs Hn) as [H1 H2 H3 H4 H5].
  split; try done. constructor; [done|]. apply shrink_u64, Hs.
Qed.

Section elems.
Context {A : Type} (enc : A → bytes) (P : A → Prop).
Context (elemdec : S_ A).

(** The element decoder reads canonical encodings ... *)
Context (dec_sound : ∀ s s' a,
  sync s → kind s = None → elemdec s = (s', Ok a) → eats (enc a) s s' ∧ P a).
(** ... and reports [EOL] only at the end of the list. *)
Context (dec_EOL : ∀ s s',
  sync s → kind s = None → elemdec s = (s', Err EOL) → listLimit s = Some 0 ∧ s' = s).

Lemma decodeSliceElems_sound fuel s s' l limit rest :
  sync s → kind s = None → stack s = limit :: rest →
  decodeSliceElems fuel elemdec s = (s', Ok l) →
  rd s = concat (map enc l) ++ rd s' ∧ stack s' = 0 :: rest ∧ sync s' ∧ kind s' = None ∧
  limit = len (concat (map enc l)) ∧ Forall P l.
Proof.
  revert s s' l limit. induction fuel as [|fuel IH]; intros s s' l limit Hsy Hk Hst; [done|].
  cbn [decodeSliceElems]. run.
  destruct (elemdec s) as [s1 [a|e| |]] eqn:Hd; try done.
  - destruct (dec_sound _ _ _ Hsy Hk Hd) as [(Hr & Hst1 & Hsy1 & Hk1) Ha].
    destruct (decodeSliceElems fuel elemdec s1) as [s2 [l'|e| |]] eqn:Hl; try done.
    rewrite Hst in Hst1. cbn in Hst1.
    eapply IH in Hl as (Hr2 & Hst2 & Hsy2 & Hk2 & Hlim & Hal); [|done..].
    intros [= <- <-]. cbn [map concat]. rewrite Hr, Hr2, <-app_assoc, len_app.
    split_and!; try done; [|by constructor].
    pose proof (sync_stack _ Hsy) as Hus. rewrite Hst in Hus.
    apply Forall_cons_iff in Hus as [Hul _].
    pose proof (sync_u64 _ Hsy) as Hu. rewrite Hr, Hr2, !len_app in Hu.
    unfold is_u64, u64 in *. pose proof (len_nonneg (rd s2)). pose proof (len_nonneg (enc a)).
    pose proof (len_nonneg (concat (map enc l'))).
    pose proof (Z.div_mod (limit - len (enc a)) (2 ^ 64) ltac:(lia)) as Hdm. rewrite Hlim in Hdm. nia.
  - destruct e; try done. destruct (dec_EOL _ _ Hsy Hk Hd) as [Hlim ->].
    unfold listLimit in Hlim. rewrite Hst in Hlim. injection Hlim as ->.
    intros [= <- <-]. split_and!; done.
Qed.

(** Every successful element takes at least one byte, so the loop ends. *)
Context (enc_nonempty : ∀ a, 1 ≤ len (enc a)).

Lemma decodeSliceElems_outcome fuel s :
  sync s → kind s = None → (length (rd s) < fuel)%nat →
  (∀ s1, sync s1 → kind s1 = None → (length (rd s1) ≤ length (rd s))%nat →
     is_panic (elemdec s1).2 = false ∧ (elemdec s1).2 ≠ OutOfFuel) →
  is_panic (decodeSliceElems fuel elemdec s).2 = false ∧ (decodeSliceElems fuel elemdec s).2 ≠ OutOfFuel ∧
  (decodeSliceElems fuel elemdec s).2 ≠ Err EOL.
Proof.
  revert s. induction fuel as [|fuel IH]; intros s Hsy Hk Hf Hel; [lia|].
  cbn [decodeSliceElems]. run. pose proof (Hel s Hsy Hk ltac:(lia)) as [Hp Ho].
  destruct (elemdec s) as [s1 [a|e| |]] eqn:Hd; try done; [|by destruct e].
  destruct (dec_sound _ _ _ Hsy Hk Hd) as [(Hr & Hst1 & Hsy1 & Hk1) Ha].
  assert (length (rd s1) < length (rd s))%nat as Hlt.
  { pose proof (enc_nonempty a) as Hne. unfold len in Hne. rewrite Hr, length_app. lia. }
  destruct (IH s1 Hsy1 Hk1 ltac:(lia)) as (H1 & H2 & H3).
  { intros s2 Hs2 Hk2 Hle. apply Hel; [done..|lia]. }
  by destruct (decodeSliceElems fuel elemdec s1) as [s2 []].
Qed.

Lemma decodeSliceElems_complete fuel l s tl rest :
  sync s → kind s = None → rd s = concat (map enc l) ++ tl →
  stack s = len (concat (map enc l)) :: rest → (length (concat (map enc l)) < fuel)%nat →
  (∀ s, kind s = None → listLimit s = Some 0 → elemdec s = (s, Err EOL)) →
  (∀ a s tl, In a l → sync s → kind s = None → rd s = enc a ++ tl → fits (len (enc a)) (stack s) →
     ∃ s', elemdec s = (s', Ok a)) →
  ∃ s', decodeSliceElems fuel elemdec s = (s', Ok l).
Proof.
  intros Hsy Hk Hr Hst Hf Heol Hel. revert s Hsy Hk Hr Hst fuel Hf.
  induction l as [|a l IH]; intros s Hsy Hk Hr Hst fuel Hf;
    (destruct fuel as [|fuel]; [lia|]); cbn [decodeSliceElems]; run.
  - rewrite Heol; [by eexists|done|]. unfold listLimit. by rewrite Hst.
  - cbn [map concat] in *. rewrite <-app_assoc in Hr.
    destruct (Hel a s (concat (map enc l) ++ tl)) as [s1 Hd]; [by left|done..| |].
    { rewrite Hst. cbn. rewrite len_app. pose proof (len_nonneg (concat (map enc l))). lia. }
    rewrite Hd. destruct (dec_sound _ _ _ Hsy Hk Hd) as [(Hr1 & Hst1 & Hsy1 & Hk1) _].
    rewrite Hr in Hr1. apply app_inv_head in Hr1. pose proof (enc_nonempty a) as Hne.
    rewrite length_app in Hf. unfold len in Hne.
    destruct (IH ltac:(intros; eapply Hel; [right|..]; eauto) s1 Hsy1 Hk1 (eq_sym Hr1)) with (fuel := fuel)
      as [s2 ->]; [|lia|by eexists].
    rewrite Hst1, Hst. cbn. rewrite len_app, u64_small; [f_equal; lia|].
    pose proof (sync_u64 _ Hsy1) as Hu. rewrite <-Hr1, len_app in Hu. unfold is_u64 in *.
    pose proof (len_nonneg tl). pose proof (len_nonneg (concat (map enc l))). lia.
Qed.
End elems.

(** ** [interface{}] values *)

Lemma decodeInterface_EOL fuel s s' :
  sync s → kind s = None → decodeInterface fuel s = (s', Err EOL) → listLimit s = Some 0 ∧ s' = s.
Proof.
  intros Hsy Hk. destruct fuel as [|fuel]; [done|]. cbn [decodeInterface]. run.
  destruct (s_Kind s) as [s1 [[k sz]|e| |]] eqn:HK; try done.
  2: { intros [= -> ->]. by apply s_Kind_EOL_inv in HK. }
  apply s_Kind_inv in HK as (bv & hd & tl & Hhd & Hr & Hf & Hsz & ->); [|done..].
  assert (0 ≤ len hd ≤ len (rd s)) as Hln
    by (rewrite Hr, len_app; pose proof (len_nonneg tl); pose proof (len_nonneg hd); lia).
  assert (k ≠ List → s_Bytes (ahead k sz bv (len hd) s) ≠ (s', Err EOL)) as Hb.
  { intros Hkl. unfold s_Bytes. run. rewrite ahead_cached. destruct k; [done| |done].
    pose proof (readFull_plain sz (ahead String sz bv (len hd) s)) as Hp.
    destruct (readFull sz _) as [s2 [c|e| |]]; cbn in Hp; try done; [|congruence].
    destruct c as [|x [|y c]]; [done| |done]. by destruct (x <? 128). }
  destruct k; [| |].
  1-2: specialize (Hb ltac:(done)); destruct (s_Bytes _) as [s2 [c|e| |]]; congruence.
  unfold decodeListSlice, wrapped. run. rewrite s_List_ahead.
  destruct (Z.eqb_spec sz 0) as [->|Hz].
  { unfold s_ListEnd. run. done. }
  destruct (decodeSliceElems fuel _ _) as [s2 [l|e| |]] eqn:Hd; try done.
  - unfold s_ListEnd. run. destruct (stack s2); [done|]. by destruct (_ >? 0).
  - intros [= -> ->]. exfalso. revert Hd. generalize (opened sz bv (len hd) s). clear.
    generalize (decodeInterface fuel) as dec. intros dec. induction fuel as [|fuel IH]; [done|].
    intros s. cbn [decodeSliceElems]. run. destruct (dec s) as [s1 [a|e| |]]; try done.
    + specialize (IH s1). destruct (decodeSliceElems fuel dec s1) as [? [|e| |]]; done.
    + by destruct e.
Qed.

(** [ListEnd] at the end of a list that was opened inside [stk]. *)
Lemma s_ListEnd_ok s rest :
  sync s → stack s = 0 :: rest →
  ∃ s', s_ListEnd s = (s', Ok tt) ∧ rd s' = rd s ∧ stack s' = rest ∧ sync s' ∧ kind s' = None.
Proof.
  intros [H1 H2 H3 H4 H5] Hst. unfold s_ListEnd. run. rewrite Hst. run. eexists. split; [done|].
  split_and!; try done. rewrite Hst in H5. apply Forall_cons_iff in H5 as [_ H5]. by split.
Qed.

Lemma decodeInterface_sound fuel s s' t :
  sync s → kind s = None → decodeInterface fuel s = (s', Ok t) →
  eats (rlp_encode t) s s' ∧ item_ok t.
Proof.
  revert s s' t. induction fuel as [|fuel IH]; intros s s' t Hsy Hk; [done|].
  cbn [decodeInterface]. run.
  destruct (s_Kind s) as [s1 [[k sz]|e| |]] eqn:HK; try done.
  apply s_Kind_inv in HK as (bv & hd & tl & Hhd & Hr & Hf & Hsz & ->); [|done..].
  assert (k ≠ List → s_Bytes (ahead k sz bv (len hd) s) = (s', Ok (match t with Str b => b | _ => [] end)) →
          eats (rlp_string (match t with Str b => b | _ => [] end)) s s' ∧
          bytes_ok (match t with Str b => b | _ => [] end)) as Hb
    by (intros; by eapply s_Bytes_ahead_inv).
  destruct k; [| |].
  1-2: destruct (s_Bytes _) as [s2 [c|e| |]] eqn:Hsb; try done; intros [= -> <-]; by apply Hb.
  clear Hb. assert (0 ≤ len hd ≤ len (rd s)) as Hln
    by (rewrite Hr, len_app; pose proof (len_nonneg tl); pose proof (len_nonneg hd); lia).
  destruct Hhd as [Hu [_ ->]].
  pose proof (sync_opened sz bv _ s Hsy Hu Hln) as Hso.
  unfold decodeListSlice, wrapped. run. rewrite s_List_ahead.
  assert (∀ l s2, rd (opened sz bv (len (rlp_head 0xC0 sz)) s) = concat (map rlp_encode l) ++ rd s2 →
    stack s2 = 0 :: shrink (len (rlp_head 0xC0 sz) + sz) (stack s) → sync s2 →
    sz = len (concat (map rlp_encode l)) → Forall item_ok l →
    (s_ListEnd ≫= λ _, mret l) s2 = (s', Ok l) → eats (rlp_encode (Lst l)) s s' ∧ item_ok (Lst l)) as Hend.
  { intros l s2 Hr2 Hst2 Hsy2 Hlen Hl. run.
    destruct (s_ListEnd_ok s2 _ Hsy2 Hst2) as (s3 & -> & Hr3 & Hst3 & Hsy3 & Hk3). intros [= <-].
    split; [|by apply item_ok_Lst]. cbn [opened rd] in Hr2. rewrite Hr, drop_head in Hr2.
    cbn [rlp_encode]. unfold rlp_list. rewrite <-Hlen. split_and!; try done.
    - by rewrite Hr, Hr2, Hr3, <-app_assoc.
    - by rewrite Hst3, len_app, <-Hlen. }
  destruct (Z.eqb_spec sz 0) as [Hz|Hz].
  - intros H. assert (t = Lst []) as -> by (destruct (s_ListEnd _) as [? []]; congruence).
    apply (Hend [] (opened sz bv (len (rlp_head 0xC0 sz)) s)); try done; [by subst sz|].
    revert H. run. destruct (s_ListEnd _) as [? []]; congruence.
  - destruct (decodeSliceElems fuel _ _) as [s2 [l|e| |]] eqn:Hd; try done.
    eapply decodeSliceElems_sound in Hd as (Hr2 & Hst2 & Hsy2 & Hk2 & Hlim & Hl);
      [|exact IH|apply decodeInterface_EOL|done..].
    intros H. assert (t = Lst l) as -> by (destruct (s_ListEnd s2) as [? []]; congruence).
    apply (Hend l s2); try done.
    revert H. run. destruct (s_ListEnd s2) as [? []]; congruence.
Qed.

Lemma s_Bytes_ahead_outcome k sz bv n s :
  is_panic (s_Bytes (ahead k sz bv n s)).2 = false ∧ (s_Bytes (ahead k sz bv n s)).2 ≠ OutOfFuel.
Proof.
  unfold s_Bytes. run. rewrite ahead_cached. destruct k; [done| |done].
  pose proof (readFull_plain sz (ahead String sz bv n s)) as Hp.
  destruct (readFull sz _) as [s2 [c|e| |]]; cbn in Hp; try done.
  destruct c as [|x [|y c]]; [done| |done]. by destruct (x <? 128).
Qed.

Lemma decodeInterface_outcome fuel s :
  sync s → kind s = None → (length (rd s) + 2 ≤ fuel)%nat →
  is_panic (decodeInterface fuel s).2 = false ∧ (decodeInterface fuel s).2 ≠ OutOfFuel.
Proof.
  revert s. induction fuel as [|fuel IH]; intros s Hsy Hk Hf; [lia|].
  cbn [decodeInterface]. run.
  destruct (s_Kind_total s Hsy Hk) as [(s1 & k & sz & HK)|(s1 & e & ->)]; [|done].
  rewrite HK. apply s_Kind_inv in HK as (bv & hd & tl & Hhd & Hr & Hft & Hsz & ->); [|done..].
  pose proof (is_head_nonempty _ _ _ _ Hhd) as Hne.
  destruct (s_Bytes_ahead_outcome k sz bv (len hd) s) as [HB1 HB2].
  destruct k; [by destruct (s_Bytes _) as [? []]..|].
  assert (0 ≤ len hd ≤ len (rd s)) as Hln by (rewrite Hr, len_app; pose proof (len_nonneg tl); lia).
  pose proof (sync_opened sz bv _ s Hsy (proj1 Hhd) Hln) as Hso.
  assert (length (rd (opened sz bv (len hd) s)) < length (rd s))%nat as Hlt.
  { cbn [opened rd]. rewrite Hr, drop_head, length_app. unfold len in Hne. lia. }
  unfold decodeListSlice, wrapped. run. rewrite s_List_ahead.
  assert (∀ s, is_panic (s_ListEnd s).2 = false ∧ (s_ListEnd s).2 ≠ OutOfFuel) as Hle.
  { intros s0. unfold s_ListEnd. run. destruct (stack s0); [done|]. by destruct (_ >? 0). }
  destruct (Z.eqb_spec sz 0).
  { destruct (Hle (opened sz bv (len hd) s)). by destruct (s_ListEnd _) as [? []]. }
  destruct (decodeSliceElems_outcome rlp_encode item_ok (decodeInterface fuel)
              (decodeInterface_sound fuel) rlp_encode_nonempty fuel
              (opened sz bv (len hd) s)) as (H1 & H2 & H3); [done..|lia| |].
  { intros s1 Hs1 Hk1 Hl1. apply IH; [done..|lia]. }
  destruct (decodeSliceElems fuel _ _) as [s2 []]; try done.
  destruct (Hle s2). by destruct (s_ListEnd s2) as [? []].
Qed.

Lemma sync_Reset b : bytes_ok b → is_u64 (len b) → sync (s_Reset b (len b)).
Proof. intros. split; try done. cbn. by destruct (Z.gtb_spec (len b) 0). Qed.

(** Decoding an arbitrary byte string terminates (the fuel is enough for
    every input) and never panics: the sizes an input declares are checked
    before anything is read. *)
Theorem DecodeBytes_total b :
  bytes_ok b → is_u64 (len b) → (∃ t, DecodeBytes b = Ok t) ∨ (∃ e, DecodeBytes b = Err e).
Proof.
  intros Hok Hu. unfold DecodeBytes, DecodeBytes_with.
  pose proof (sync_Reset b Hok Hu) as Hsy.
  destruct (decodeInterface_outcome (length b + 2) _ Hsy eq_refl) as [Hp Ho]; [done|].
  destruct (decodeInterface _ _) as [s [t|e| |]]; try done; [|by eauto].
  destruct (rd s); eauto.
Qed.

Lemma DecodeBytes_total_witness :
  (∃ t, DecodeBytes [0xFB; 0xFF; 0xFF; 0xFF; 0xFF; 1] = Ok t) ∨
  (∃ e, DecodeBytes [0xFB; 0xFF; 0xFF; 0xFF; 0xFF; 1] = Err e).
Proof. apply DecodeBytes_total; [repeat constructor; done|done]. Defined.

Lemma decodeInterface_complete t :
  item_ok t → ∀ fuel s tl,
  sync s → kind s = None → rd s = rlp_encode t ++ tl → fits (len (rlp_encode t)) (stack s) →
  (length (rlp_encode t) + 2 ≤ fuel)%nat →
  ∃ s', decodeInterface fuel s = (s', Ok t).
Proof.
  induction t as [b|l IH] using item_ind'; intros Hok fuel s tl Hsy Hk Hr Hf Hfuel;
    (destruct fuel as [|fuel]; [lia|]); cbn [decodeInterface]; run.
  - cbn [rlp_encode] in *. pose proof (sync_u64 _ Hsy) as Hu. rewrite Hr in Hu.
    destruct (rlp_string_cases b) as [(x & -> & Hx & Heq)|[Hx Heq]]; rewrite Heq in *.
    + apply bytes_ok_cons in Hok as [[Hx0 _] _].
      assert (is_head Byte 0 x [x]) as Hhd by (unfold is_head, is_u64; split_and!; try done; lia).
      rewrite (s_Kind_ok s Byte 0 x [x] tl); try done; [|apply len_nonneg].
      destruct (s_Bytes_ahead_ok s Byte 0 x [x] [] tl) as [s' ->]; try done. by eexists.
    + rewrite <-app_assoc in *. pose proof (is_u64_app_l _ _ (is_u64_app_r _ _ Hu)) as Hub.
      assert (is_head String (len b) 0 (rlp_head 0x80 (len b))) as Hhd by done.
      rewrite len_app in Hf. rewrite (s_Kind_ok s String (len b) 0 (rlp_head 0x80 (len b)) (b ++ tl)); try done.
      2: { rewrite len_app. pose proof (len_nonneg tl). lia. }
      destruct (s_Bytes_ahead_ok s String (len b) 0 _ b tl Hsy ltac:(done) Hhd) as [s' ->];
        try done. by eexists.
  - apply item_ok_Lst in Hok. cbn [rlp_encode] in *. unfold rlp_list in *.
    set (p := concat (map rlp_encode l)) in *. rewrite <-app_assoc in Hr.
    pose proof (sync_u64 _ Hsy) as Hu. rewrite Hr in Hu.
    pose proof (is_u64_app_l _ _ (is_u64_app_r _ _ Hu)) as Hup.
    assert (is_head List (len p) 0 (rlp_head 0xC0 (len p))) as Hhd by done.
    pose proof (is_head_nonempty _ _ _ _ Hhd) as Hne.
    rewrite len_app in Hf. rewrite (s_Kind_ok s List (len p) 0 (rlp_head 0xC0 (len p)) (p ++ tl)); try done.
    2: { rewrite len_app. pose proof (len_nonneg tl). lia. }
    assert (0 ≤ len (rlp_head 0xC0 (len p)) ≤ len (rd s)) as Hln
      by (rewrite Hr, len_app; pose proof (len_nonneg (p ++ tl)); lia).
    pose proof (sync_opened (len p) 0 _ s Hsy Hup Hln) as Hso.
    unfold decodeListSlice, wrapped. run. rewrite s_List_ahead.
    destruct (Z.eqb_spec (len p) 0) as [Hz|Hz].
    { destruct l as [|t l]; [rewrite Hz; unfold s_ListEnd; run; by eexists|].
      exfalso. revert Hz. unfold p. cbn [map concat]. rewrite len_app.
      pose proof (rlp_encode_nonempty t). pose proof (len_nonneg (concat (map rlp_encode l))). lia. }
    rewrite length_app in Hfuel.
    change (1 ≤ Z.of_nat (length (rlp_head 0xC0 (len p)))) in Hne.
    destruct (decodeSliceElems_complete rlp_encode item_ok (decodeInterface fuel)
                (decodeInterface_sound fuel) rlp_encode_nonempty fuel l
                (opened (len p) 0 (len (rlp_head 0xC0 (len p))) s) tl
                (shrink (len (rlp_head 0xC0 (len p)) + len p) (stack s))) as [s2 Hd];
      [done|done| |done|fold p; lia|..].
    + cbn [opened rd]. by rewrite Hr, drop_head.
    + intros s1 Hk1 Hl1. destruct fuel as [|fuel]; [lia|]. cbn [decodeInterface]. run.
      by rewrite s_Kind_EOL.
    + intros a s1 tl1 Hin Hs1 Hk1 Hr1 Hf1. rewrite Forall_forall in IH, Hok.
      apply (IH a) with (tl := tl1); try done; [by apply Hok|].
      pose proof (len_concat_encode_In a l Hin) as Hle. fold p in Hle. unfold len in Hle. lia.
    + rewrite Hd. eapply decodeSliceElems_sound in Hd as (_ & Hst2 & Hsy2 & _ & _ & _);
        [|apply decodeInterface_sound|apply decodeInterface_EOL|done..].
      destruct (s_ListEnd_ok s2 _ Hsy2 Hst2) as (s3 & -> & _). by eexists.
Qed.

(** C21: decoding is the exact inverse of encoding: [DecodeBytes] returns the
    item [t] on an input if and only if that input is the canonical encoding of
    [t].  So every item round-trips, every accepted input is canonical, and two
    different inputs never decode to the same item. *)
Theorem DecodeBytes_encode b t :
  bytes_ok b → is_u64 (len b) → DecodeBytes b = Ok t ↔ b = rlp_encode t ∧ item_ok t.
Proof.
  intros Hok Hu.
  pose proof (sync_Reset b Hok Hu) as Hsy.
  unfold DecodeBytes, DecodeBytes_with. split.
  - destruct (decodeInterface _ _) as [s [t'|e| |]] eqn:Hd; try done.
    apply decodeInterface_sound in Hd as [(Hr & _) Ht]; [|done..].
    destruct (rd s); [|done]. intros [= ->]. cbn in Hr. by rewrite app_nil_r in Hr.
  - intros [Hb Ht].
    destruct (decodeInterface_complete t Ht (length b + 2) (s_Reset b (len b)) [] Hsy)
      as [s' Hd]; [done|by rewrite app_nil_r|done|by rewrite Hb|].
    rewrite Hd. apply decodeInterface_sound in Hd as [(Hr & _) _]; [|done..].
    cbn in Hr. rewrite Hb in Hr. rewrite <-(app_nil_r (rlp_encode t)) in Hr at 1.
    apply app_inv_head in Hr. by rewrite <-Hr.
Qed.

Lemma DecodeBytes_encode_witness :
  DecodeBytes [0xC4; 0x82; 1; 2; 7] = Ok (Lst [Str [1; 2]; Str [7]]) ↔
  [0xC4; 0x82; 1; 2; 7] = rlp_encode (Lst [Str [1; 2]; Str [7]]) ∧ item_ok (Lst [Str [1; 2]; Str [7]]).
Proof. apply DecodeBytes_encode; [repeat constructor; done|done]. Defined.

(** The size check of [Kind] uses the list limit as it was before the header
    was read, and [List] subtracts the inner size from the limit after it: when
    an inner list is larger than what is left of its enclosing list, but not
    larger than what was left before the inner header, [List] succeeds and the
    remaining size of the enclosing list wraps around. *)
Theorem s_List_limit_wraps s sz hd tl limit rest :
  sync s → kind s = None → is_head List sz 0 hd → rd s = hd ++ tl → sz ≤ len tl →
  stack s = limit :: rest → len hd ≤ limit → sz ≤ limit → limit < len hd + sz →
  ∃ s', s_List s = (s', Ok sz) ∧ stack s' = sz :: (limit - (len hd + sz) + 2 ^ 64) :: rest.
Proof.
  intros Hsy Hk Hhd Hr Hsz Hst H1 H2 H3. pose proof Hhd as [[Hsz0 Hsz1] _].
  unfold s_List. run. rewrite (s_Kind_ahead s List sz 0 hd tl) by (done || by rewrite Hst).
  pose proof (s_List_ahead sz 0 (len hd) s) as Hl. unfold s_List in Hl. revert Hl. run.
  rewrite ahead_cached. intros ->. eexists. split; [done|]. cbn [opened stack]. rewrite Hst. cbn [shrink].
  do 2 f_equal. unfold u64. symmetry. apply Z.mod_unique_pos with (-1); [|lia].
  pose proof (sync_stack _ Hsy) as Hus. rewrite Hst in Hus.
  apply Forall_cons_iff in Hus as [[? ?] _]. pose proof (sync_u64 _ Hsy) as Hu.
  rewrite Hr, len_app in Hu. unfold is_u64 in Hu. lia.
Qed.

(** ** Integers *)

Lemma DecodeBytes_with_sync {A} (dec : S_ A) b a :
  DecodeBytes_with dec b = Ok a ↔ ∃ s', dec (s_Reset b (len b)) = (s', Ok a) ∧ rd s' = [].
Proof.
  unfold DecodeBytes_with. destruct (dec _) as [s [a'|e| |]];
    [|split; [done|by intros (? & [=] & _)]..].
  split; [|by intros (s' & [= <- <-] & ->)]. destruct (rd s) eqn:E; [|done]. intros [= <-]. eauto.
Qed.


(** A byte string without leading zero, as an encoded scalar. *)
Lemma rlp_scalar_min c :
  bytes_ok c → nth 0 c 1 ≠ 0 → rlp_scalar (be_val c) = rlp_string c ∧ 0 ≤ be_val c.
Proof.
  intros Hok Hc. destruct c as [|b0 c]; [done|]. cbn [nth] in Hc.
  destruct (be_min_val b0 c Hok Hc) as (_ & Heq & Hpos). unfold rlp_scalar. rewrite Heq. split; [done|lia].
Qed.

Lemma set_bytes_ok c s s' i :
  set_bytes c s = (s', Ok i) ↔ nth 0 c 1 ≠ 0 ∧ s' = s ∧ i = be_val c.
Proof.
  destruct c as [|[|p|p] c]; cbn [nth]; unfold set_bytes; run; (split; [|intros (? & -> & ->)]); try done.
  all: intros H; injection H as <- <-; done.
Qed.

Lemma decodeBigInt_sound s s' i :
  sync s → kind s = None → decodeBigInt s = (s', Ok i) → 0 ≤ i ∧ rd s = rlp_scalar i ++ rd s'.
Proof.
  intros Hsy Hk. unfold decodeBigInt, wrapped. run.
  destruct (s_Kind s) as [s1 [[k sz]|e| |]] eqn:HK; try done.
  apply s_Kind_inv in HK as (bv & hd & tl & Hhd & Hr & Hf & Hsz & ->); [|done..].
  pose proof (sync_bytes _ Hsy) as Hok. rewrite Hr in Hok. apply bytes_ok_app in Hok as [Hoh Hot].
  assert (0 ≤ len hd ≤ len (rd s)) as Hln
    by (rewrite Hr, len_app; pose proof (len_nonneg tl); pose proof (len_nonneg hd); lia).
  pose proof Hhd as [[Hsz0 _] _]. destruct k; [| |done].
  - destruct Hhd as (_ & _ & Hbv & ->). intros H.
    apply set_bytes_ok in H. destruct H as (Hc & -> & ->).
    change (byteval (ahead Byte sz bv (len [bv]) s)) with bv in *.
    destruct (rlp_scalar_min [bv] Hoh Hc) as [-> Hp]. split; [done|].
    cbn [rd ahead]. rewrite Hr. change (drop _ _) with tl. cbn. by rewrite (proj2 (Z.ltb_lt bv 128)) by lia.
  - destruct Hhd as [_ [-> Hhd]]. destruct (Z.eqb_spec sz 0) as [->|Hz].
    { intros (_ & -> & ->)%set_bytes_ok. subst hd. cbn [rd ahead]. rewrite Hr. by rewrite drop_head. }
    assert (∀ c s2, readFull sz (ahead String sz 0 (len hd) s) = (s2, Ok c) →
              (sz = 1 → 128 ≤ nth 0 c 0) → nth 0 c 1 ≠ 0 →
              0 ≤ be_val c ∧ rd s = rlp_scalar (be_val c) ++ rd s2) as Hfin.
    { intros c s2 Hrf H1 Hc. apply readFull_inv in Hrf as (Hl & Hf' & -> & ->); [|by apply sync_ahead|done].
      cbn [rd ahead advance] in *. rewrite Hr, drop_head in *. set (c := take (Z.to_nat sz) tl) in *.
      assert (len c = sz) as Hlc by (unfold c, len in *; rewrite length_take; lia).
      destruct (rlp_scalar_min c) as [-> Hp]; [unfold c; auto with go|done|]. split; [done|].
      destruct (rlp_string_cases c) as [(x & Hx & Hlt & _)|[_ ->]].
      - exfalso. rewrite Hx in Hlc, H1. cbn in H1. rewrite len_cons, len_nil in Hlc. lia.
      - rewrite Hlc, <-Hhd, <-app_assoc. f_equal. unfold c. by rewrite take_drop. }
    destruct (Z.leb_spec sz 32); destruct (readFull sz _) as [s2 [c|e| |]] eqn:Hrf; try done.
    + destruct ((sz =? 1) && (nth 0 c 0 <? 128)) eqn:Hcan; [done|]. intros H'.
      apply set_bytes_ok in H'. destruct H' as (Hc & -> & ->). apply (Hfin c); [done| |done].
      intros ->. cbn in Hcan. apply Z.ltb_ge in Hcan. lia.
    + intros H'. apply set_bytes_ok in H'. destruct H' as (Hc & -> & ->).
      apply (Hfin c); [done| |done]. lia.
Qed.

Lemma be_bytes_nth0 i : 0 ≤ i → nth 0 (be_bytes (nbytes i) i) 1 ≠ 0.
Proof.
  intros Hi. destruct (Z.eq_dec i 0) as [->|]; [done|].
  destruct (be_bytes_lead i ltac:(lia)) as (b & l & -> & Hb). cbn. lia.
Qed.

Lemma decodeBigInt_complete s i tl :
  sync s → kind s = None → 0 ≤ i → rd s = rlp_scalar i ++ tl → fits (len (rlp_scalar i)) (stack s) →
  ∃ s', decodeBigInt s = (s', Ok i).
Proof.
  intros Hsy Hk Hi Hr Hf. unfold rlp_scalar in *. pose proof (be_val_min i Hi) as Hv.
  pose proof (be_bytes_nth0 i Hi) as Hlead.
  set (c := be_bytes (nbytes i) i) in *. unfold decodeBigInt, wrapped. run.
  pose proof (sync_u64 _ Hsy) as Hu. rewrite Hr in Hu. pose proof (len_nonneg tl).
  destruct (rlp_string_cases c) as [(x & Hx & Hlt & Heq)|[Hx Heq]]; rewrite Heq in *.
  - rewrite Hx, be_val_single in *. cbn [nth] in Hlead. subst x.
    rewrite (s_Kind_ok s Byte 0 i [i] tl); try done.
    run. eexists. apply set_bytes_ok. by rewrite be_val_single.
  - rewrite <-app_assoc in *. pose proof (is_u64_app_l _ _ (is_u64_app_r _ _ Hu)) as Huc.
    pose proof (len_nonneg c). rewrite len_app in Hf.
    rewrite (s_Kind_ok s String (len c) 0 (rlp_head 0x80 (len c)) (c ++ tl)); try done;
      [|rewrite len_app; lia]. run.
    destruct (Z.eqb_spec (len c) 0) as [Hz|Hz].
    { assert (c = []) as Hc by (destruct c; [done|rewrite len_cons in Hz; pose proof (len_nonneg c); lia]).
      rewrite Hc in Hv. eexists. apply set_bytes_ok. by rewrite Hv. }
    assert (0 ≤ len (rlp_head 0x80 (len c)) ≤ len (rd s)) as Hln
      by (rewrite Hr, !len_app; pose proof (len_nonneg (rlp_head 0x80 (len c))); lia).
    pose proof (readFull_ok (len c) (ahead String (len c) 0 (len (rlp_head 0x80 (len c))) s)) as Hrf.
    cbn [rd ahead] in Hrf. rewrite Hr, drop_head, len_app in Hrf.
    assert (take (Z.to_nat (len c)) (c ++ tl) = c) as Htk by (unfold len; by rewrite Nat2Z.id, take_app_length).
    rewrite Htk in Hrf. specialize (Hrf (sync_ahead _ _ _ _ _ Hsy Hln)).
    specialize (Hrf ltac:(lia)).
    assert (fits (len c) (stack (ahead String (len c) 0 (len (rlp_head 128 (len c))) s))) as Hfc.
    { apply fits_shrink; [apply Hsy|lia|lia| |done]. destruct (stack s); cbn in *; [done|lia]. }
    specialize (Hrf Hfc).
    assert ((len c =? 1) && (nth 0 c 0 <? 128) = false) as Hcan.
    { destruct (Z.eqb_spec (len c) 1) as [H1|]; [|done]. destruct c as [|x [|y c']]; [done| |].
      - specialize (Hx x eq_refl). by apply Z.ltb_ge.
      - rewrite !len_cons in H1. pose proof (len_nonneg c'). lia. }
    destruct (_ <=? 32); rewrite Hrf; [rewrite Hcan|]; eexists; apply set_bytes_ok; by rewrite Hv.
Qed.

(** Big integers round-trip and only canonical integers are accepted: the
    decoder for [*big.Int] returns [i] exactly on the encoding [writeBigInt]
    produces for [i], for non-negative integers of any size. *)
Theorem decodeBigInt_scalar b i :
  bytes_ok b → is_u64 (len b) →
  DecodeBytes_with decodeBigInt b = Ok i ↔ 0 ≤ i ∧ b = rlp_scalar i.
Proof.
  intros Hok Hu. pose proof (sync_Reset b Hok Hu) as Hsy. rewrite DecodeBytes_with_sync. split.
  - intros (s' & Hd & Hr). apply decodeBigInt_sound in Hd as [Hi Hb]; [|done..].
    rewrite Hr, app_nil_r in Hb. by split.
  - intros [Hi Hb]. destruct (decodeBigInt_complete (s_Reset b (len b)) i [] Hsy) as [s' Hd]; try done.
    { by rewrite app_nil_r. }
    exists s'. split; [done|]. apply decodeBigInt_sound in Hd as [_ Hr]; [|done..].
    cbn in Hr. rewrite Hb, <-(app_nil_r (rlp_scalar i)) in Hr at 1. by apply app_inv_head in Hr.
Qed.

Lemma decodeBigInt_scalar_witness :
  DecodeBytes_with decodeBigInt [0x89; 1; 0; 0; 0; 0; 0; 0; 0; 0] = Ok (2 ^ 64) ↔
  0 ≤ 2 ^ 64 ∧ [0x89; 1; 0; 0; 0; 0; 0; 0; 0; 0] = rlp_scalar (2 ^ 64).
Proof. apply decodeBigInt_scalar; [repeat constructor; done|done]. Defined.
