(* ===== verification/RlpStruct.v ===== *)
(** * Decoding structs (makeStructDecoder of src/geth/rlp/decode.go)

    [decodes dec bs a]: wherever the stream stands before the bytes [bs], inside
    any list with room for them, the decoder [dec] returns [a] and the stream
    stands behind them.  The relation is closed under the way structs are
    decoded: open the list, decode the fields in order, close the list. *)
From S2P Require Import Prelude RlpBase RlpRaw RlpEncode RlpStream.

(** One round of the loop over the fields; the fields here are not optional. *)
Definition decodeField {A} (dec : S_ A) : S_ A :=
  r ← st_try dec;
  match r with
  | inr EOL => st_err (decodeError MsgTooFewFields)
  | inr e => st_err e
  | inl a => mret a
  end.
Definition decodeStruct {A} (fields : S_ A) : S_ A :=
  wrapped s_List ≫= λ _,
  a ← fields;
  wrapped s_ListEnd ≫= λ _, mret a.

Definition decodes {A} (dec : S_ A) (bs : bytes) (a : A) : Prop :=
  ∀ s tl, sync s → kind s = None → rd s = bs ++ tl → fits (len bs) (stack s) →
  ∃ s', dec s = (s', Ok a) ∧ eats bs s s'.

Lemma eats_nil s : sync s → kind s = None → eats [] s s.
Proof.
  intros Hs Hk. split_and!; try done. pose proof (sync_stack _ Hs) as Hst.
  destruct Hst as [|l rest Hl]; [done|]. cbn. by rewrite Z.sub_0_r, u64_small.
Qed.
Lemma eats_app a b s1 s2 s3 : eats a s1 s2 → eats b s2 s3 → eats (a ++ b) s1 s3.
Proof.
  intros (Hr1 & Hs1 & _ & _) (Hr2 & Hs2 & Hy & Hk). split_and!; try done.
  - by rewrite Hr1, Hr2, app_assoc.
  - by rewrite Hs2, Hs1, shrink_shrink, len_app.
Qed.

Lemma decodes_wrapped {A} (dec : S_ A) bs a : decodes dec bs a → decodes (wrapped dec) bs a.
Proof. intros Hd s tl Hs Hk Hr Hf. destruct (Hd s tl) as (s' & He & Hx); try done. exists s'. unfold wrapped. run. by rewrite He. Qed.
Lemma decodes_field {A} (dec : S_ A) bs a : decodes dec bs a → decodes (decodeField dec) bs a.
Proof. intros Hd s tl Hs Hk Hr Hf. destruct (Hd s tl) as (s' & He & Hx); try done. exists s'. unfold decodeField. run. by rewrite He. Qed.
Lemma decodes_ret {A} (a : A) : decodes (mret a) [] a.
Proof. intros s tl Hs Hk Hr Hf. exists s. split; [done|]. by apply eats_nil. Qed.
Lemma decodes_bind {A B} (m : S_ A) (f : A → S_ B) bs cs a b :
  decodes m bs a → decodes (f a) cs b → decodes (m ≫= f) (bs ++ cs) b.
Proof.
  intros Hm Hf s tl Hs Hk Hr Hfit. rewrite <-app_assoc in Hr. rewrite len_app in Hfit.
  pose proof (len_nonneg bs). pose proof (len_nonneg cs).
  destruct (Hm s (cs ++ tl)) as (s1 & He & Hx); try done.
  { destruct (stack s); cbn in *; [done|lia]. }
  pose proof Hx as (Hr1 & Hst & Hs1 & Hk1).
  assert (rd s1 = cs ++ tl) as Hr1' by (rewrite Hr1 in Hr; by apply app_inv_head in Hr).
  destruct (Hf s1 tl) as (s2 & He2 & Hx2); try done.
  { rewrite Hst. apply fits_shrink; try done; [apply Hs|]. destruct (stack s); cbn in *; [done|lia]. }
  exists s2. split; [|by apply eats_app with s1]. unfold mbind, st_bind. by rewrite He.
Qed.
Lemma decodes_map {A B} (m : S_ A) (f : A → B) bs a : decodes m bs a → decodes (x ← m; mret (f x)) bs (f a).
Proof. intros Hm. rewrite <-(app_nil_r bs). eapply decodes_bind; [done|]. apply decodes_ret. Qed.

(** The header of a list, and its end. *)
Lemma list_opened s bs tl : sync s → kind s = None → rd s = rlp_list bs ++ tl → fits (len (rlp_list bs)) (stack s) →
  ∃ s0, s_List s = (s0, Ok (len bs)) ∧ sync s0 ∧ kind s0 = None ∧ rd s0 = bs ++ tl ∧ stack s0 = len bs :: shrink (len (rlp_list bs)) (stack s).
Proof.
  intros Hs Hk Hr Hf. unfold rlp_list in *. rewrite <-app_assoc in Hr. rewrite len_app in Hf.
  pose proof (sync_u64 _ Hs) as Hu. rewrite Hr in Hu. pose proof (is_u64_app_l _ _ (is_u64_app_r _ _ Hu)) as Hub.
  assert (is_head List (len bs) 0 (rlp_head 0xC0 (len bs))) as Hhd by done.
  pose proof (is_head_nonempty _ _ _ _ Hhd). pose proof (len_nonneg bs). pose proof (len_nonneg tl).
  set (hd := rlp_head 0xC0 (len bs)) in *.
  assert (0 ≤ len hd ≤ len (rd s)) as Hln by (rewrite Hr, !len_app; lia).
  exists (opened (len bs) 0 (len hd) s). split.
  { rewrite <-s_List_ahead. unfold s_List. run. rewrite ahead_cached.
    rewrite (s_Kind_ok s List (len bs) 0 hd (bs ++ tl)); [done..|rewrite len_app; lia|done]. }
  split; [by apply sync_opened|]. split; [done|]. split; [by cbn; rewrite Hr, drop_head|]. by rewrite len_app.
Qed.
Lemma list_closed s s0 s1 bs tl : rd s = rlp_list bs ++ tl → rd s0 = bs ++ tl → stack s0 = len bs :: shrink (len (rlp_list bs)) (stack s) →
  eats bs s0 s1 → ∃ s2, s_ListEnd s1 = (s2, Ok tt) ∧ eats (rlp_list bs) s s2.
Proof.
  intros Hr Hr0 Hst0 (Hr1 & Hst & Hs1 & Hk1). rewrite Hst0 in Hst. cbn [shrink] in Hst. rewrite Z.sub_diag in Hst. change (u64 0) with 0 in Hst.
  destruct (s_ListEnd_ok s1 _ Hs1 Hst) as (s2 & Hend & Hr2 & Hst2 & Hs2 & Hk2). exists s2. split; [done|].
  rewrite Hr0 in Hr1. apply app_inv_head in Hr1. split_and!; try done. by rewrite Hr, Hr2, Hr1.
Qed.

(** A struct: the fields between the header and the end of the list. *)
Lemma decodes_struct {A} (fields : S_ A) bs a : decodes fields bs a → decodes (decodeStruct fields) (rlp_list bs) a.
Proof.
  intros Hd s tl Hs Hk Hr Hf. destruct (list_opened s bs tl Hs Hk Hr Hf) as (s0 & Hopen & Hs0 & Hk0 & Hr0 & Hst0).
  destruct (Hd s0 tl) as (s1 & He & Hx); [done..|rewrite Hst0; cbn; lia|].
  destruct (list_closed s s0 s1 bs tl Hr Hr0 Hst0 Hx) as (s2 & Hend & Hx2). exists s2. split; [|done].
  unfold decodeStruct, wrapped. run. by rewrite Hopen, He, Hend.
Qed.

(** ** Strings *)

Definition quiet (s : Stream) : Stream :=
  mk_Stream (rd s) (remaining s) (size s) (kinderr s) (stack s) None (byteval s) (limited s).
Lemma eats_ahead k sz bv hd tl s : sync s → rd s = hd ++ tl → eats hd s (quiet (ahead k sz bv (len hd) s)).
Proof.
  intros Hs Hr. pose proof (len_nonneg tl). pose proof (len_nonneg hd).
  destruct (sync_ahead k sz bv (len hd) s Hs) as [? ? ? ? ?]; [rewrite Hr, len_app; lia|].
  split_and!; [|done|by split|done]. cbn. by rewrite Hr, drop_head.
Qed.

(** The two ways in which [Kind] finds a string. *)
Lemma string_ahead s c tl :
  sync s → kind s = None → bytes_ok c → rd s = rlp_string c ++ tl → fits (len (rlp_string c)) (stack s) →
  (∃ x s1, c = [x] ∧ 0 ≤ x < 128 ∧ s1 = ahead Byte 0 x 1 s ∧ s_Kind s = (s1, Ok (Byte, 0)) ∧
           eats (rlp_string c) s (quiet s1)) ∨
  (∃ s1 s2, (∀ x, c = [x] → 128 ≤ x) ∧ byteval s1 = 0 ∧ s_Kind s = (s1, Ok (String, len c)) ∧ sync s1 ∧
            readFull (len c) s1 = (s2, Ok c) ∧ eats (rlp_string c) s s2 ∧ rd s1 = c ++ tl ∧ fits (len c) (stack s1) ∧
            (c = [] → eats (rlp_string c) s (quiet s1))).
Proof.
  intros Hs Hk Hok Hr Hf. pose proof (sync_u64 _ Hs) as Hu. rewrite Hr in Hu. pose proof (len_nonneg tl).
  destruct (rlp_string_cases c) as [(x & -> & Hx & Heq)|[Hx Heq]]; rewrite Heq in *.
  - left. apply bytes_ok_cons in Hok as [[Hx0 _] _]. exists x, (ahead Byte 0 x 1 s).
    do 3 (split; [done|]). split; [|by apply (eats_ahead Byte 0 x [x] tl)].
    apply (s_Kind_ok s Byte 0 x [x] tl); try done.
  - right. rewrite <-app_assoc in Hr. rewrite <-app_assoc in Hu.
    pose proof (is_u64_app_l _ _ (is_u64_app_r _ _ Hu)) as Huc. pose proof (len_nonneg c).
    rewrite len_app in Hf. set (hd := rlp_head 0x80 (len c)) in *.
    assert (is_head String (len c) 0 hd) as Hhd by done. pose proof (is_head_nonempty _ _ _ _ Hhd).
    assert (sync (ahead String (len c) 0 (len hd) s)) as Hsa by (apply sync_ahead; [done|]; rewrite Hr, !len_app; lia).
    assert (fits (len c) (stack (ahead String (len c) 0 (len hd) s))) as Hfc.
    { apply fits_shrink; [apply Hs|lia|lia| |done]. destruct (stack s); cbn in *; [done|lia]. }
    assert (rd (ahead String (len c) 0 (len hd) s) = c ++ tl) as Hra by (cbn; by rewrite Hr, drop_head).
    exists (ahead String (len c) 0 (len hd) s), (advance 0 (len c) (ahead String (len c) 0 (len hd) s)).
    pose proof (eats_ahead String (len c) 0 hd (c ++ tl) s Hs Hr) as He.
    do 2 (split; [done|]). split; [|split; [done|split; [|split; [|split; [done|split; [done|]]]]]].
    + apply (s_Kind_ok s String (len c) 0 hd (c ++ tl)); try done. rewrite len_app. lia.
    + rewrite readFull_ok; [|done|rewrite Hra, len_app; lia|done]. rewrite Hra. unfold len. by rewrite Nat2Z.id, take_app_length.
    + split_and!; cbn; [|by rewrite shrink_shrink, len_app|apply sync_advance; [done|rewrite Hra, len_app; lia]|done].
      by rewrite Hr, !drop_head, app_assoc.
    + intros ->. by rewrite app_nil_r.
Qed.

Lemma decodes_bytes c : bytes_ok c → decodes decodeBytes (rlp_string c) c.
Proof.
  intros Hok. apply decodes_wrapped. intros s tl Hs Hk Hr Hf. unfold s_Bytes. run.
  destruct (string_ahead s c tl) as [(x & s1 & -> & Hx & -> & -> & He)|(s1 & s2 & Hx & _ & -> & _ & Hrf & He & _)]; try done.
  - by exists (quiet (ahead Byte 0 x 1 s)).
  - exists s2. rewrite Hrf. destruct c as [|x [|y c]]; try done. specialize (Hx x eq_refl).
    by rewrite (proj2 (Z.ltb_ge x 128)).
Qed.

Lemma decodes_byteArray c n : bytes_ok c → len c = n → 1 < n → decodes (decodeByteArray n) (rlp_string c) c.
Proof.
  intros Hok Hl Hn s tl Hs Hk Hr Hf. unfold decodeByteArray. run.
  destruct (string_ahead s c tl) as [(x & s1 & -> & Hx & -> & -> & He)|(s1 & s2 & Hx & _ & -> & _ & Hrf & He & _)]; try done.
  - rewrite len_cons, len_nil in Hl. lia.
  - exists s2. rewrite Hl in *. rewrite Z.ltb_irrefl, Z.gtb_ltb, Z.ltb_irrefl, Hrf.
    by rewrite (proj2 (Z.eqb_neq n 1)) by lia.
Qed.

Lemma decodes_bigInt i : 0 ≤ i → decodes decodeBigInt (rlp_scalar i) i.
Proof.
  intros Hi s tl Hs Hk Hr Hf. unfold rlp_scalar in *. pose proof (be_val_min i Hi) as Hv.
  pose proof (be_bytes_nth0 i Hi) as Hlead. assert (bytes_ok (be_bytes (nbytes i) i)) as Hok by apply be_bytes_ok.
  set (c := be_bytes (nbytes i) i) in *. unfold decodeBigInt, wrapped. run.
  destruct (string_ahead s c tl) as [(x & s1 & Hc & Hx & -> & -> & He)|(s1 & s2 & Hx & _ & -> & _ & Hrf & He & _ & _ & Hz)]; try done.
  - exists (quiet (ahead Byte 0 x 1 s)). split; [|by rewrite Hc in *]. apply set_bytes_ok.
    change (byteval _) with x. rewrite Hc in *. by rewrite Hv.
  - destruct (Z.eqb_spec (len c) 0) as [H0|H0].
    { assert (c = []) as Hc by (destruct c; [done|rewrite len_cons in H0; pose proof (len_nonneg c); lia]).
      exists (quiet s1). split; [|by apply Hz]. apply set_bytes_ok. rewrite Hc in *. by rewrite Hv. }
    assert ((len c =? 1) && (nth 0 c 0 <? 128) = false) as Hcan.
    { destruct (Z.eqb_spec (len c) 1) as [H1|]; [|done]. destruct c as [|x [|y c']]; [done| |].
      - specialize (Hx x eq_refl). by apply Z.ltb_ge.
      - rewrite !len_cons in H1. pose proof (len_nonneg c'). lia. }
    exists s2. split; [|done]. destruct (_ <=? 32); rewrite Hrf; [rewrite Hcan|]; apply set_bytes_ok; by rewrite Hv.
Qed.

Lemma decodes_uint i : is_u64 i → decodes (decodeUint 64) (rlp_scalar i) i.
Proof.
  intros Hi. pose proof Hi as [Hi0 _]. apply decodes_wrapped. intros s tl Hs Hk Hr Hf. unfold rlp_scalar in *. pose proof (be_val_min i Hi0) as Hv.
  pose proof (be_bytes_nth0 i Hi0) as Hlead. assert (bytes_ok (be_bytes (nbytes i) i)) as Hok by apply be_bytes_ok.
  pose proof (nbytes_u64 i Hi) as Hn. assert (len (be_bytes (nbytes i) i) ≤ 8) as Hc8 by (rewrite len_be_bytes; lia).
  set (c := be_bytes (nbytes i) i) in *. unfold s_uint. run. pose proof (len_nonneg c). pose proof (len_nonneg tl).
  destruct (string_ahead s c tl) as [(x & s1 & Hc & Hx & -> & -> & He)|(s1 & s2 & Hx & Hb & -> & Hs1 & Hrf & He & Hr1 & Hf1 & Hz)]; try done.
  - cbn [byteval ahead]. rewrite Hc, be_val_single in *. cbn [nth] in Hlead. subst x.
    rewrite (proj2 (Z.eqb_neq i 0)) by done. by exists (quiet (ahead Byte 0 i 1 s)).
  - change (64 / 8) with 8. rewrite Z.gtb_ltb, (proj2 (Z.ltb_ge 8 (len c))) by lia.
    rewrite u8_small by (unfold is_u8; lia). unfold readUint.
    destruct (Z.eqb_spec (len c) 0) as [E0|E0].
    { assert (c = []) as Hc by (destruct c; [done|rewrite len_cons in E0; pose proof (len_nonneg c); lia]).
      exists (quiet s1). split; [|by apply Hz]. run. rewrite Hc in *. change (be_val []) with 0 in Hv. by subst i. }
    assert (readFull (len c) s1 = (s2, Ok c)) as Hrf' by done. rewrite readFull_ok in Hrf';
      [|done|rewrite Hr1, len_app; lia|done]. injection Hrf' as Hs2 _.
    destruct (Z.eqb_spec (len c) 1) as [E1|E1].
    + destruct c as [|x [|y c']] eqn:Hc; [done| |rewrite !len_cons in E1; pose proof (len_nonneg c'); lia].
      rewrite be_val_single in Hv. specialize (Hx x eq_refl). subst x.
      rewrite (readByte_ok s1 i tl); [|done..]. rewrite E1 in *. rewrite Hs2.
      exists s2. by rewrite Z.gtb_ltb, (proj2 (Z.ltb_ge i 128)) by lia.
    + rewrite Z.gtb_ltb, (proj2 (Z.ltb_ge 8 (len c))) by lia. run. rewrite Hrf.
      assert (len c = Z.of_nat (nbytes i)) as Hlc by apply len_be_bytes.
      assert (i ≠ 0) by (intros ->; cbn in *; lia). assert (2 ^ 8 ≤ i) by (apply nbytes_ge_2; lia).
      exists s2. split; [|done]. destruct c as [|x c'] eqn:Hc; [done|]. cbn [nth] in Hlead.
      rewrite (proj2 (Z.eqb_neq x 0)) by done. rewrite Hv.
      by rewrite (proj2 (Z.ltb_ge i 128)), andb_false_r by lia.
Qed.

(** A whole byte string is one struct. *)
Lemma DecodeBytes_decodes {A} (dec : S_ A) bs a :
  bytes_ok bs → is_u64 (len bs) → decodes dec bs a → DecodeBytes_with dec bs = Ok a.
Proof.
  intros Hok Hu Hd. destruct (Hd (s_Reset bs (len bs)) []) as (s' & He & Hr & _).
  - by apply sync_Reset.
  - done.
  - by rewrite app_nil_r.
  - done.
  - apply DecodeBytes_with_sync. exists s'. split; [done|]. cbn in Hr. rewrite <-(app_nil_r bs) in Hr at 1. by apply app_inv_head in Hr.
Qed.

(** ** What a decoder returns comes from its input

    Every operation of the stream, failing ones included, leaves a suffix of the
    reader and does not panic, so a decoder returns a value or an error, and a
    decoded string consists of bytes and is no longer than the input. *)

Definition good (n : Z) (s : Stream) : Prop := bytes_ok (rd s) ∧ len (rd s) ≤ n ∧ is_u8 (byteval s) ∧ 0 ≤ size s.
Definition keeps {A} (n : Z) (m : S_ A) (P : A → Prop) : Prop :=
  ∀ s, good n s → good n (fst (m s)) ∧ match snd (m s) with Ok a => P a | Err _ => True | _ => False end.

Section keeps.
Context (n : Z).
Abbreviation keeps := (keeps n).

Lemma keeps_seq {A B} (m : S_ A) (f : A → S_ B) P Q : keeps m P → (∀ a, P a → keeps (f a) Q) → keeps (m ≫= f) Q.
Proof.
  intros Hm Hf s Hs. unfold mbind, st_bind. destruct (Hm s Hs) as [Hg Ha]. destruct (m s) as [s1 [a|e| |]]; try done.
  by apply Hf.
Qed.
Lemma keeps_ret {A} (a : A) (P : A → Prop) : P a → keeps (mret a) P.
Proof. by intros Ha s Hs. Qed.
Lemma keeps_err {A} e (P : A → Prop) : keeps (st_err e) P.
Proof. by intros s Hs. Qed.
Lemma keeps_ask : keeps st_get (good n).
Proof. by intros s Hs. Qed.
Lemma keeps_modify f : (∀ s, good n s → good n (f s)) → keeps (st_modify f) (λ _, True).
Proof. intros Hf s Hs. split; [by apply Hf|done]. Qed.
Lemma keeps_try {A} (m : S_ A) P : keeps m P → keeps (st_try m) (λ r, match r with inl a => P a | inr _ => True end).
Proof. intros Hm s Hs. destruct (Hm s Hs) as [Hg Ha]. unfold st_try. by destruct (m s) as [s1 [a|e| |]]. Qed.
Lemma keeps_weaken {A} (m : S_ A) (P Q : A → Prop) : keeps m P → (∀ a, P a → Q a) → keeps m Q.
Proof. intros Hm Hpq s Hs. destruct (Hm s Hs) as [Hg Ha]. split; [done|]. destruct (snd (m s)); auto. Qed.
Lemma keeps_wrapped {A} (m : S_ A) P : keeps m P → keeps (wrapped m) P.
Proof. intros Hm. eapply keeps_seq; [by apply keeps_try|]. intros [a|e]; [apply keeps_ret|intros _; apply keeps_err]. Qed.
Lemma keeps_field {A} (m : S_ A) P : keeps m P → keeps (decodeField m) P.
Proof. intros Hm. eapply keeps_seq; [by apply keeps_try|]. intros [a|e]; [apply keeps_ret|intros _; destruct e; apply keeps_err]. Qed.

Lemma keeps_willRead x : keeps (willRead x) (λ _, True).
Proof.
  unfold willRead. eapply keeps_seq; [by apply keeps_modify|]. intros _ _. eapply keeps_seq; [apply keeps_ask|]. intros s _.
  eapply keeps_seq with (P := λ _, True).
  { destruct (stack s); [by apply keeps_ret|]. destruct (_ >? _); [apply keeps_err|by apply keeps_modify]. }
  intros _ _. eapply keeps_seq; [apply keeps_ask|]. intros s1 _. destruct (limited s1); [|by apply keeps_ret].
  destruct (_ >? _); [apply keeps_err|by apply keeps_modify].
Qed.
Lemma keeps_readByte : keeps readByte is_u8.
Proof.
  unfold readByte. eapply keeps_seq; [apply keeps_willRead|]. intros _ _ s Hs. unfold mbind, st_bind, st_get.
  destruct (rd s) as [|b l] eqn:Hr; [done|]. destruct Hs as (Hb & Hl & Hv & Hz). rewrite Hr in Hb, Hl.
  apply bytes_ok_cons in Hb as [Hb Hb']. rewrite len_cons in Hl. split; [|done]. split_and!; [done| |done|done]. cbn. lia.
Qed.
Lemma keeps_readFull x : keeps (readFull x) (λ b, bytes_ok b ∧ len b ≤ n ∧ length b = Z.to_nat x).
Proof.
  unfold readFull. eapply keeps_seq; [apply keeps_willRead|]. intros _ _ s (Hb & Hl & Hv & Hz). unfold mbind, st_bind, st_get.
  assert (∀ k : nat, len (drop k (rd s)) ≤ n ∧ len (take k (rd s)) ≤ n) as Hk
    by (intros k; unfold len in *; rewrite length_drop, length_take; lia).
  pose proof (len_nonneg (rd s)).
  destruct (Z.leb_spec x (len (rd s))) as [Hx|Hx]; (split; [split_and!; cbn; try done|]); try done.
  - by apply bytes_ok_drop.
  - apply Hk.
  - split_and!; [by apply bytes_ok_take|apply Hk|]. rewrite length_take. unfold len in Hx. lia.
  - constructor.
  - rewrite len_nil. lia.
Qed.
Lemma keeps_readUint x : 0 ≤ x ≤ 8 → keeps (readUint x) (λ v, 0 ≤ v).
Proof.
  intros Hx. unfold readUint. destruct (Z.eqb_spec x 0); [eapply keeps_seq; [by apply keeps_modify|]; intros _ _; by apply keeps_ret|].
  destruct (Z.eqb_spec x 1); [eapply keeps_weaken; [apply keeps_readByte|by intros a [? ?]]|].
  rewrite Z.gtb_ltb, (proj2 (Z.ltb_ge 8 x)) by lia.
  eapply keeps_seq; [apply keeps_readFull|]. intros [|b0 b] (Hb & _ & Hl); [cbn in Hl; lia|].
  destruct (b0 =? 0); [apply keeps_err|]. apply keeps_ret. by apply be_val_bound.
Qed.
Lemma keeps_read_long k x : 0 ≤ x ≤ 8 → keeps (read_long k x) (λ r, 0 ≤ snd (fst r)).
Proof.
  intros Hx. eapply keeps_seq; [by apply keeps_try, keeps_readUint|]. intros [v|e] Hv; by apply keeps_ret.
Qed.
Lemma keeps_readKind : keeps s_readKind (λ r, 0 ≤ snd (fst r)).
Proof.
  assert (∀ x, 0 ≤ u8 x) as Hu by (intros x; apply u8_range).
  unfold s_readKind. eapply keeps_seq; [apply keeps_try, keeps_readByte|]. intros [b|e] Hb.
  - eapply keeps_seq; [apply keeps_modify; intros s (?&?&?&?); by split_and!|]. intros _ _. unfold is_u8 in Hb.
    destruct (Z.ltb_spec b 0x80); [eapply keeps_seq; [apply keeps_modify; intros s (?&?&?&?); by split_and!|]; intros _ _; by apply keeps_ret|].
    destruct (Z.ltb_spec b 0xB8); [apply keeps_ret, Hu|].
    destruct (Z.ltb_spec b 0xC0); [rewrite u8_small by (unfold is_u8; lia); apply keeps_read_long; lia|].
    destruct (Z.ltb_spec b 0xF8); [apply keeps_ret, Hu|]. rewrite u8_small by (unfold is_u8; lia). apply keeps_read_long. lia.
  - eapply keeps_seq; [apply keeps_ask|]. intros s _. by apply keeps_ret.
Qed.
Lemma keeps_Kind : keeps s_Kind (λ r, 0 ≤ snd r).
Proof.
  unfold s_Kind. eapply keeps_seq; [apply keeps_ask|]. intros s (_ & _ & _ & Hz). destruct (kind s) as [k|].
  - destruct (kinderr s); [apply keeps_err|by apply keeps_ret].
  - case_bool_decide; [apply keeps_err|]. eapply keeps_seq; [apply keeps_readKind|]. intros [[k sz] err] Hsz.
    eapply keeps_seq; [apply keeps_ask|]. intros s1 _.
    eapply keeps_seq; [apply keeps_modify; intros s2 (?&?&?&?); by split_and!|]. intros _ _.
    set (err' := match err with Some e => _ | None => _ end). destruct err'; [apply keeps_err|by apply keeps_ret].
Qed.
Lemma keeps_Bytes : 1 ≤ n → keeps s_Bytes (λ b, bytes_ok b ∧ len b ≤ n).
Proof.
  intros Hn. unfold s_Bytes. eapply keeps_seq; [apply keeps_Kind|]. intros [[] sz] _; [| |apply keeps_err].
  - eapply keeps_seq; [by apply keeps_modify|]. intros _ _. eapply keeps_seq; [apply keeps_ask|]. intros s (_ & _ & Hv & _).
    apply keeps_ret. split; [apply bytes_ok_cons; split; [done|constructor]|done].
  - eapply keeps_seq; [apply keeps_readFull|]. intros b (Hb & Hl & _). destruct b as [|x [|]]; [by apply keeps_ret| |by apply keeps_ret].
    destruct (x <? 128); [apply keeps_err|by apply keeps_ret].
Qed.
Lemma keeps_uint : keeps (s_uint 64) (λ _, True).
Proof.
  unfold s_uint. eapply keeps_seq; [apply keeps_Kind|]. intros [[] sz] Hsz; [| |apply keeps_err].
  - eapply keeps_seq; [apply keeps_ask|]. intros s _. destruct (_ =? 0); [apply keeps_err|].
    eapply keeps_seq; [by apply keeps_modify|]. intros _ _. by apply keeps_ret.
  - change (64 / 8) with 8. rewrite Z.gtb_ltb. destruct (Z.ltb_spec 8 sz); [apply keeps_err|]. cbn [snd] in Hsz.
    rewrite u8_small by (unfold is_u8; lia). eapply keeps_seq; [apply keeps_try, keeps_readUint; lia|].
    intros [v|e] _; [destruct (_ && _); [apply keeps_err|by apply keeps_ret]|destruct e; apply keeps_err].
Qed.
Lemma keeps_bigInt : keeps decodeBigInt (λ _, True).
Proof.
  assert (∀ b, keeps (set_bytes b) (λ _, True)) as Hset by (intros [|[] ?]; try apply keeps_err; by apply keeps_ret).
  unfold decodeBigInt. eapply keeps_seq; [apply keeps_wrapped, keeps_Kind|]. intros [[] sz] _; [| |apply keeps_err].
  - eapply keeps_seq; [apply keeps_ask|]. intros s _. eapply keeps_seq; [by apply keeps_modify|]. intros _ _. apply Hset.
  - destruct (sz =? 0); [eapply keeps_seq; [by apply keeps_modify|]; intros _ _; apply Hset|].
    destruct (sz <=? 32); (eapply keeps_seq; [apply keeps_wrapped, keeps_readFull|]); intros b _; [|apply Hset].
    destruct (_ && _); [apply keeps_err|apply Hset].
Qed.
Lemma keeps_struct {A} (m : S_ A) P : keeps m P → keeps (decodeStruct m) P.
Proof.
  intros Hm. unfold decodeStruct. eapply keeps_seq with (P := λ _, True).
  { apply keeps_wrapped. unfold s_List. eapply keeps_seq; [apply keeps_Kind|]. intros [k sz] _. case_bool_decide; [|apply keeps_err].
    eapply keeps_seq; [apply keeps_ask|]. intros s _. do 3 (eapply keeps_seq; [apply keeps_modify; intros s0 (?&?&?&?); by split_and!|]; intros _ _). by apply keeps_ret. }
  intros _ _. eapply keeps_seq; [done|]. intros a Ha. eapply keeps_seq with (P := λ _, True); [|intros _ _; by apply keeps_ret].
  apply keeps_wrapped. unfold s_ListEnd. eapply keeps_seq; [apply keeps_ask|]. intros s _. destruct (stack s); [apply keeps_err|].
  destruct (_ >? 0); [apply keeps_err|]. do 2 (eapply keeps_seq; [by apply keeps_modify|]; intros _ _).
  apply keeps_modify. intros s0 (?&?&?&?). by split_and!.
Qed.
End keeps.

Lemma DecodeBytes_keeps {A} (dec : S_ A) b (P : A → Prop) :
  bytes_ok b → keeps (len b) dec P → match DecodeBytes_with dec b with Ok a => P a | Err _ => True | _ => False end.
Proof.
  intros Hb Hk. unfold DecodeBytes_with. destruct (Hk (s_Reset b (len b))) as [_ Ha]; [by split_and!|].
  destruct (dec _) as [s [x|e| |]]; try done. by destruct (rd s).
Qed.
