(* ===== verification/RlpCodes.v ===== *)
(** * Round trips of structs, type by type (src/geth/rlp)

    [codes v dec a]: the encoder writes the value [v] as a non-empty string of bytes from
    which the decoder [dec] reads [a].  It holds for the basic types and is closed under
    pointers, slices and structs, so that the round trip of a Go type follows its
    declaration. *)
From S2P Require Import Prelude RlpBase RlpRaw RlpEncode RlpStream RlpStruct.

Create HintDb codes.

(** ** Slices *)

(** At the end of a list the decoder says so. *)
Definition at_end {A} (dec : S_ A) : Prop := ∀ s, kind s = None → listLimit s = Some 0 → dec s = (s, Err EOL).
Lemma at_end_wrapped {A} (m : S_ A) : at_end m → at_end (wrapped m).
Proof. intros Hm s Hk Hl. unfold wrapped. run. by rewrite Hm. Qed.
Lemma at_end_bind {A B} (m : S_ A) (f : A → S_ B) : at_end m → at_end (m ≫= f).
Proof. intros Hm s Hk Hl. unfold mbind, st_bind. by rewrite Hm. Qed.
Lemma at_end_struct {A} (m : S_ A) : at_end (decodeStruct m).
Proof. apply at_end_bind, at_end_wrapped, at_end_bind. intros s Hk Hl. by apply s_Kind_EOL. Qed.
Lemma at_end_byteArray n : at_end (decodeByteArray n).
Proof. apply at_end_bind. intros s Hk Hl. by apply s_Kind_EOL. Qed.

Lemma decodes_elems {A} (dec : S_ A) bss l : at_end dec → Forall2 (decodes dec) bss l →
  ∀ fuel s tl rest, (length l < fuel)%nat → sync s → kind s = None → rd s = concat bss ++ tl → stack s = len (concat bss) :: rest →
  ∃ s', decodeSliceElems fuel dec s = (s', Ok l) ∧ eats (concat bss) s s'.
Proof.
  intros He. induction 1 as [|bs a bss l Hd _ IH]; intros fuel s tl rest Hf Hs Hk Hr Hst; (destruct fuel as [|fuel]; [cbn in Hf; lia|]); cbn [decodeSliceElems]; run.
  - rewrite He; [|done|unfold listLimit; by rewrite Hst]. exists s. split; [done|by apply eats_nil].
  - cbn [concat] in *. rewrite <-app_assoc in Hr. pose proof (len_nonneg bs). pose proof (len_nonneg (concat bss)). pose proof (len_nonneg tl).
    pose proof (sync_u64 _ Hs) as Hu. rewrite Hr, !len_app in Hu. rewrite len_app in Hst.
    destruct (Hd s (concat bss ++ tl)) as (s1 & Hd1 & Hx); try done; [rewrite Hst; cbn; lia|]. rewrite Hd1.
    pose proof Hx as (Hr1 & Hst1 & Hs1 & Hk1). rewrite Hr in Hr1. apply app_inv_head in Hr1.
    destruct (IH fuel s1 tl rest) as (s2 & -> & Hx2); [cbn in Hf; lia|done..| |exists s2; split; [done|by apply eats_app with s1]].
    rewrite Hst1, Hst. cbn. rewrite u64_small; [f_equal; lia|unfold is_u64 in *; lia].
Qed.
Lemma decodes_slice {A} (dec : S_ A) bss l fuel : at_end dec → Forall2 (decodes dec) bss l → Forall (λ bs, bs ≠ []) bss → (length l < fuel)%nat →
  decodes (decodeListSlice fuel dec) (rlp_list (concat bss)) l.
Proof.
  intros He Hd Hne Hfuel s tl Hs Hk Hr Hf. set (bs := concat bss) in *. destruct (list_opened s bs tl Hs Hk Hr Hf) as (s0 & Hopen & Hs0 & Hk0 & Hr0 & Hst0).
  destruct (decodes_elems dec bss l He Hd fuel s0 tl (shrink (len (rlp_list bs)) (stack s))) as (s1 & Hel & Hx); try done.
  assert (bs = [] → l = [] ∧ s1 = s0) as Hnil.
  { intros Hb. destruct Hd as [|b a bss l Hd _]; [|apply Forall_cons_1 in Hne as [Hn _]; unfold bs in Hb; cbn in Hb; by apply app_nil in Hb as [-> _]].
    split; [done|]. destruct fuel as [|fuel]; [cbn in Hfuel; lia|]. cbn [decodeSliceElems] in Hel. revert Hel. run.
    rewrite He; [by intros [= <-]|done|unfold listLimit; by rewrite Hst0]. }
  destruct (list_closed s s0 s1 bs tl Hr Hr0 Hst0 Hx) as (s2 & Hend & Hx2). exists s2. split; [|done].
  unfold decodeListSlice, wrapped. run. rewrite Hopen. destruct (Z.eqb_spec (len bs) 0) as [Hz|Hz].
  - assert (bs = []) as Hb by (destruct bs as [|x bs']; [done|rewrite len_cons in Hz; pose proof (len_nonneg bs'); lia]). destruct (Hnil Hb) as [-> <-]. by rewrite Hend.
  - by rewrite Hel, Hend.
Qed.

(** ** Values and their decoders *)

Definition codes {A} (v : gval) (dec : S_ A) (a : A) : Prop :=
  gval_ok v ∧ ∃ bs, enc_ref v = Ok bs ∧ bs ≠ [] ∧ (is_u64 (len bs) → bytes_ok bs) ∧ decodes dec bs a.

Lemma rlp_string_nonempty b : rlp_string b ≠ [].
Proof. intros He. pose proof (rlp_encode_nonempty (Str b)) as Hn. cbn in Hn. rewrite He in Hn. unfold len in Hn. cbn in Hn. lia. Qed.
Lemma rlp_list_nonempty b : rlp_list b ≠ [].
Proof. unfold rlp_list. destruct (rlp_head_nonempty 0xC0 (len b)) as (x & l & ->). done. Qed.
Lemma rlp_string_len b : len b ≤ len (rlp_string b).
Proof. destruct (rlp_string_cases b) as [(x & -> & _ & ->)|[_ ->]]; [done|]. rewrite len_app. pose proof (len_nonneg (rlp_head 0x80 (len b))). lia. Qed.
Lemma codes_string {A} v c (dec : S_ A) a : gval_ok v → enc_ref v = Ok (rlp_string c) → bytes_ok c → decodes dec (rlp_string c) a → codes v dec a.
Proof.
  intros Hv He Hc Hd. split; [done|]. exists (rlp_string c). split_and!; [done|apply rlp_string_nonempty| |done]. intros Hu. apply rlp_string_ok; [done|].
  pose proof (rlp_string_len c). pose proof (len_nonneg c). unfold is_u64 in *. lia.
Qed.
Lemma codes_uint i : is_u64 i → codes (VUint i) (decodeUint 64) i.
Proof. intros Hi. apply (codes_string _ (be_bytes (nbytes i) i)); [done..|apply be_bytes_ok|by apply decodes_uint]. Qed.
Lemma codes_big i : 0 ≤ i → is_u64 (big_BitLen i) → codes (VBigIntPtr (Some i)) decodeBigInt i.
Proof.
  intros Hi Hb. apply (codes_string _ (be_bytes (nbytes i) i)); [done| |apply be_bytes_ok|by apply decodes_bigInt].
  cbn. unfold big_ref. by rewrite (proj2 (Z.ltb_ge i 0)).
Qed.
Lemma codes_bytes b : string_ok b → codes (VBytes b) decodeBytes b.
Proof. intros [Hb Hl]. apply (codes_string _ b); [done..|by apply decodes_bytes]. Qed.
Lemma codes_array {A} b n (f : bytes → A) : string_ok b → len b = n → 1 < n → codes (VByteArray b) (c ← decodeByteArray n; mret (f c)) (f b).
Proof. intros [Hb Hl] Hn H1n. apply (codes_string _ b); [done..|]. by apply decodes_map, decodes_byteArray. Qed.

(** A pointer that may be nil. *)
Lemma s_Kind_cached s s1 k sz : sync s → kind s = None → s_Kind s = (s1, Ok (k, sz)) → s_Kind s1 = (s1, Ok (k, sz)).
Proof. intros Hs Hk HK. apply s_Kind_inv in HK as (bv & hd & tl & _ & _ & _ & _ & ->); [|done..]. apply ahead_cached. Qed.
Lemma codes_nil {A} (dec : S_ A) : codes (VPtr String None) (decodeNilPtr String dec) None.
Proof.
  apply (codes_string _ []); [done..|constructor|]. intros s tl Hs Hk Hr Hf. unfold decodeNilPtr, wrapped. run.
  destruct (string_ahead s [] tl) as [(x & _ & Hx & _)|(s1 & s2 & _ & _ & HK & _ & _ & _ & _ & _ & Hz)]; try done; [constructor|].
  exists (quiet s1). split; [|by apply Hz]. by rewrite HK.
Qed.
Lemma codes_some {A} b n (f : bytes → A) : string_ok b → len b = n → 1 < n →
  codes (VPtr String (Some (VByteArray b))) (decodeNilPtr String (c ← decodeByteArray n; mret (f c))) (Some (f b)).
Proof.
  intros [Hb Hl] Hn H1n. apply (codes_string _ b); [done..|]. intros s tl Hs Hk Hr Hf.
  destruct (decodes_map (decodeByteArray n) f (rlp_string b) b (decodes_byteArray b n Hb Hn H1n) s tl Hs Hk Hr Hf) as (s' & Hd & Hx).
  exists s'. split; [|done]. destruct (string_ahead s b tl) as [(x & s1 & -> & _)|(s1 & s2 & _ & _ & HK & _)]; try done; [unfold len in Hn; cbn in Hn; lia|].
  pose proof (s_Kind_cached _ _ _ _ Hs Hk HK) as HK1. unfold decodeNilPtr, wrapped. run. rewrite HK.
  rewrite (proj2 (Z.eqb_neq (len b) 0)) by lia. rewrite andb_false_r.
  assert (decodeByteArray n s1 = decodeByteArray n s) as Heq by (unfold decodeByteArray; run; by rewrite HK, HK1).
  unfold mbind, st_bind in Hd. rewrite Heq. destruct (decodeByteArray n s) as [s3 [c|e| |]]; try done. by injection Hd as <- <-.
Qed.

(** A slice. *)
Lemma codes_slice {A} (dec : S_ A) vs l fuel : at_end dec → Forall2 (λ v a, codes v dec a) vs l → (length l < fuel)%nat →
  codes (VSlice false vs) (decodeListSlice fuel dec) l.
Proof.
  intros He Hl Hfuel.
  assert (∃ bss, concat_res (map enc_ref vs) = Ok (concat bss) ∧ Forall2 (decodes dec) bss l ∧ Forall (λ bs, bs ≠ []) bss ∧
    Forall gval_ok vs ∧ (is_u64 (len (concat bss)) → bytes_ok (concat bss))) as (bss & Hc & Hd & Hne & Hv & Hok).
  { clear Hfuel. induction Hl as [|v a vs l (Hv & bs & Hr & Hn & Hb & Hd) _ (bss & Hc & Hds & Hne & Hvs & Hok)].
    { exists []. split_and!; try constructor. }
    exists (bs :: bss). split_and!; [|by constructor..|].
    - cbn. rewrite Hr. cbn. unfold concat_res in Hc. by rewrite Hc.
    - cbn. rewrite len_app. pose proof (len_nonneg bs). pose proof (len_nonneg (concat bss)). intros [? ?].
      apply bytes_ok_app. split; [apply Hb|apply Hok]; unfold is_u64; lia. }
  split; [by apply gval_ok_VSlice|]. exists (rlp_list (concat bss)). split_and!; [cbn; by rewrite Hc|apply rlp_list_nonempty| |by apply decodes_slice].
  unfold rlp_list. rewrite len_app. pose proof (len_nonneg (rlp_head 0xC0 (len (concat bss)))). pose proof (len_nonneg (concat bss)). intros [? ?].
  apply bytes_ok_app. split; [apply rlp_head_ok; [by right|unfold is_u64; lia]|apply Hok; unfold is_u64; lia].
Qed.

(** The fields of a struct in order, none of them optional. *)
Definition codes_fields {A} (vs : list gval) (dec : S_ A) (a : A) : Prop :=
  Forall gval_ok vs ∧ ∃ bs, concat_res (map enc_ref vs) = Ok bs ∧ (is_u64 (len bs) → bytes_ok bs) ∧ decodes dec bs a.
Lemma codes_fields_nil {A} (a : A) : codes_fields [] (mret a) a.
Proof. split; [constructor|]. exists []. split_and!; [done|constructor|apply decodes_ret]. Qed.
Lemma codes_fields_cons {A B} v vs (dec : S_ A) (k : A → S_ B) a b :
  codes v dec a → codes_fields vs (k a) b → codes_fields (v :: vs) (x ← decodeField dec; k x) b.
Proof.
  intros (Hv & bs & Hr & _ & Hb & Hd) (Hvs & cs & Hc & Hok & Hds). split; [by constructor|]. exists (bs ++ cs). split_and!.
  - cbn. rewrite Hr. cbn. unfold concat_res in Hc. by rewrite Hc.
  - rewrite len_app. pose proof (len_nonneg bs). pose proof (len_nonneg cs). intros [? ?]. apply bytes_ok_app. split; [apply Hb|apply Hok]; unfold is_u64; lia.
  - eapply decodes_bind; [by apply decodes_field|done].
Qed.
Lemma struct_fields_all (vs : list gval) : struct_fields (map (λ v, (false, false, v)) vs) = length vs.
Proof.
  unfold struct_fields. rewrite length_map.
  assert (firstOptionalField (map (λ v, (false, false, v)) vs) = length vs) as -> by (induction vs; cbn; congruence). by rewrite Nat.eqb_refl.
Qed.
Lemma codes_struct {A} vs (dec : S_ A) a : codes_fields vs dec a → codes (VStruct (map (λ v, (false, false, v)) vs)) (decodeStruct dec) a.
Proof.
  intros (Hvs & bs & Hc & Hok & Hd). split; [apply gval_ok_VStruct; rewrite map_map; cbn; by rewrite map_id|].
  exists (rlp_list bs). split_and!; [|apply rlp_list_nonempty| |by apply decodes_struct].
  - cbn [enc_ref]. rewrite struct_fields_all, map_map.
    replace (take (length vs) _) with (map enc_ref vs) by (symmetry; apply firstn_all2; by rewrite length_map). by rewrite Hc.
  - unfold rlp_list. rewrite len_app. pose proof (len_nonneg (rlp_head 0xC0 (len bs))). pose proof (len_nonneg bs). intros [? ?].
    apply bytes_ok_app. split; [apply rlp_head_ok; [by right|unfold is_u64; lia]|apply Hok; unfold is_u64; lia].
Qed.
