(* ===== verification/TrieEncoding.v ===== *)
(** * Key encodings of the Merkle Patricia trie (src/geth/trie/encoding.go)

    The conversions between KEYBYTES, HEX and COMPACT keys.  The theorems show
    that the conversions are inverse to each other, that the in-place compaction
    agrees with the allocating one, and that both produce the hex-prefix
    encoding of the protocol. *)
From S2P Require Import Prelude.

(** ** Operations *)

(** [hasTerm s]: the key ends in the terminator 16. *)
Definition hasTerm (s : bytes) : bool :=
  (0 <? len s) && (nth (length s - 1) s 0 =? 16).

(** [nibbles[ni]<<4 | nibbles[ni+1]] on bytes. *)
Definition pack (a b : Z) : Z := Z.lor (u8 (Z.shiftl a 4)) b.

(** [decodeNibbles nibbles bytes] fills [bytes] from its start; the result is
    the buffer afterwards. *)
Fixpoint decodeNibbles {E} (nibbles buf : bytes) : res E bytes :=
  match nibbles with
  | [] => Ok buf
  | [_] => Panic runtime_error
  | a :: b :: nibbles =>
      match buf with
      | [] => Panic runtime_error
      | _ :: buf => r ← decodeNibbles nibbles buf; Ok (pack a b :: r)
      end
  end.

Definition hexToCompact {E} (hex : bytes) : res E bytes :=
  let terminator := if hasTerm hex then 1 else 0 in
  let hex := if hasTerm hex then take (length hex - 1) hex else hex in
  let tail := replicate (Nat.div2 (length hex)) 0 in
  let first := u8 (Z.shiftl terminator 5) in
  if Z.land (len hex) 1 =? 1 then
    let first := Z.lor first 16 in
    h0 ← go_index hex 0;
    let first := Z.lor first h0 in
    r ← decodeNibbles (drop 1 hex) tail;
    Ok (first :: r)
  else
    r ← decodeNibbles hex tail;
    Ok (first :: r).

(** The loop of [hexToCompactInPlace]; it stops after [hexLen / 2] rounds. *)
Fixpoint compact_loop {E} (fuel : nat) (hexLen bi ni : Z) (hex : bytes) : res E bytes :=
  if ni <? hexLen then
    match fuel with
    | O => OutOfFuel
    | S fuel =>
        a ← go_index hex ni;
        b ← go_index hex (ni + 1);
        hex ← go_set hex bi (pack a b);
        compact_loop fuel hexLen (bi + 1) (ni + 2) hex
    end
  else Ok hex.

(** The result is the length of the compact key and the overwritten buffer. *)
Definition hexToCompactInPlace {E} (hex : bytes) : res E (Z * bytes) :=
  let term := (0 <? len hex) && (nth (length hex - 1) hex 0 =? 16) in
  let hexLen := if term then len hex - 1 else len hex in
  let firstByte := if term then 32 else 0 in
  let binLen := hexLen / 2 + 1 in
  '(firstByte, ni) ←
    (if Z.land hexLen 1 =? 1 then
       h0 ← go_index hex 0;
       Ok (Z.lor (Z.lor firstByte 16) h0, 1)
     else Ok (firstByte, 0));
  hex ← compact_loop (length hex) hexLen 1 ni hex;
  hex ← go_set hex 0 firstByte;
  Ok (binLen, hex).

Fixpoint nibbles_of (str : bytes) : bytes :=
  match str with
  | [] => []
  | b :: str => b / 16 :: b mod 16 :: nibbles_of str
  end.

Definition keybytesToHex (str : bytes) : bytes := nibbles_of str ++ [16].

Definition compactToHex {E} (compact : bytes) : res E bytes :=
  match compact with
  | [] => Ok []
  | _ =>
      let base := keybytesToHex compact in
      b0 ← go_index base 0;
      let base := if b0 <? 2 then take (length base - 1) base else base in
      let chop := 2 - Z.land b0 1 in
      go_slice base chop (len base)
  end.

Definition hexToKeybytes {E} (hex : bytes) : res E bytes :=
  let hex := if hasTerm hex then take (length hex - 1) hex else hex in
  if negb (Z.land (len hex) 1 =? 0) then Panic (raised "can't convert hex key of odd length")
  else decodeNibbles hex (replicate (Nat.div2 (length hex)) 0).

(** [prefixLen a b]: the loop over the shorter length. *)
Fixpoint prefixLen (a b : bytes) : nat :=
  match a, b with
  | x :: a, y :: b => if x =? y then S (prefixLen a b) else O
  | _, _ => O
  end.

(** ** Well-formed keys *)

Definition nibble (x : Z) : Prop := 0 ≤ x < 16.

(** A HEX key: nibbles and an optional terminator. *)
Definition hex_key (ns : bytes) (t : bool) : bytes := ns ++ (if t then [16] else []).

(** Two nibbles per byte. *)
Fixpoint pack_nibbles (ns : bytes) : bytes :=
  match ns with
  | a :: b :: ns => (16 * a + b) :: pack_nibbles ns
  | _ => []
  end.

(** The hex-prefix encoding of the protocol: a flag nibble (2 for a
    terminated key, plus 1 for an odd number of nibbles), the first nibble of an
    odd key or zero, and the remaining nibbles two by two. *)
Definition hex_prefix (ns : bytes) (t : bool) : bytes :=
  let flag := if t then 2 else 0 in
  if Nat.odd (length ns)
  then match ns with
       | n0 :: ns => (16 * (flag + 1) + n0) :: pack_nibbles ns
       | [] => []
       end
  else (16 * flag) :: pack_nibbles ns.

Example compact_odd : hexToCompact (E:=unit) [1; 2; 3; 4; 5] = Ok [0x11; 0x23; 0x45].
Proof. reflexivity. Qed.
Example compact_term : hexToCompact (E:=unit) [15; 1; 12; 11; 8; 16] = Ok [0x3f; 0x1c; 0xb8].
Proof. reflexivity. Qed.
Example compact_in_place :
  hexToCompactInPlace (E:=unit) [15; 1; 12; 11; 8; 16] = Ok (3, [0x3f; 0x1c; 0xb8; 11; 8; 16]).
Proof. reflexivity. Qed.
Example compact_empty_panics : hexToCompactInPlace (E:=unit) [] = Panic runtime_error ∧ hexToCompact (E:=unit) [] = Ok [0].
Proof. done. Qed.

(** ** Lemmas *)

Lemma length_hex_key ns t : length (hex_key ns t) = (length ns + if t then 1 else 0)%nat.
Proof. unfold hex_key. rewrite length_app. by destruct t. Qed.

Lemma hasTerm_hex_key ns t : Forall nibble ns → hasTerm (hex_key ns t) = t.
Proof.
  intros Hn. unfold hasTerm. rewrite length_hex_key. unfold hex_key. destruct t.
  - rewrite app_nth2 by lia. replace (_ - _ - _)%nat with 0%nat by lia. cbn.
    rewrite len_app. pose proof (len_nonneg ns). change (len [16]) with 1. by rewrite (proj2 (Z.ltb_lt _ _)) by lia.
  - rewrite app_nil_r, Nat.add_0_r. destruct ns as [|n ns] using rev_ind; [done|].
    apply Forall_app in Hn as [_ [Hn _]%Forall_cons_iff]. rewrite length_app, app_nth2 by (cbn; lia).
    replace (_ - _ - _)%nat with 0%nat by (cbn; lia). cbn. unfold nibble in Hn.
    rewrite (proj2 (Z.eqb_neq n 16)) by lia. apply andb_false_r.
Qed.

(** Cutting off the terminator. *)
Lemma cut_hex_key ns t :
  Forall nibble ns →
  (if hasTerm (hex_key ns t) then take (length (hex_key ns t) - 1) (hex_key ns t) else hex_key ns t) = ns.
Proof.
  intros Hn. rewrite hasTerm_hex_key by done. rewrite length_hex_key. destruct t; unfold hex_key.
  - rewrite Nat.add_sub. apply take_app_length.
  - apply app_nil_r.
Qed.

Lemma Zodd_of_nat n : Z.odd (Z.of_nat n) = Nat.odd n.
Proof.
  induction n as [|n IH]; [done|].
  by rewrite Nat2Z.inj_succ, Z.odd_succ, <-Z.negb_odd, IH, Nat.odd_succ, <-Nat.negb_odd.
Qed.
Lemma land_len_odd {A} (l : list A) : Z.land (len l) 1 = if Nat.odd (length l) then 1 else 0.
Proof.
  change 1 with (Z.ones 1) at 1. rewrite Z.land_ones, Z.pow_1_r, Zmod_odd by lia. unfold len.
  by rewrite Zodd_of_nat.
Qed.

Lemma pack_ok a b : nibble a → nibble b → pack a b = 16 * a + b.
Proof.
  unfold nibble, pack. intros Ha Hb. rewrite u8_small.
  - rewrite lor_shiftl_add by lia. lia.
  - unfold is_u8. rewrite Z.shiftl_mul_pow2 by lia. lia.
Qed.

(** Induction on a list two elements at a time. *)
Lemma list_pair_ind {A} (P : list A → Prop) :
  P [] → (∀ x, P [x]) → (∀ x y l, P l → P (x :: y :: l)) → ∀ l, P l.
Proof.
  intros H0 H1 H2 l. enough (P l ∧ ∀ x, P (x :: l)) as [? _] by done.
  induction l as [|y l [IH1 IH2]]; [by split|]. split; [apply IH2|]. intros x. by apply H2.
Qed.

Lemma length_pack_nibbles ns : length (pack_nibbles ns) = Nat.div2 (length ns).
Proof. induction ns as [| |a b ns IH] using list_pair_ind; cbn; [done..|]. by rewrite IH. Qed.

Lemma decodeNibbles_ok {E} ns buf :
  Forall nibble ns → Nat.odd (length ns) = false → length buf = Nat.div2 (length ns) →
  decodeNibbles (E:=E) ns buf = Ok (pack_nibbles ns).
Proof.
  revert buf. induction ns as [| |a b ns IH] using list_pair_ind; intros buf Hn Hodd Hlen.
  - by destruct buf.
  - done.
  - apply Forall_cons_iff in Hn as [Ha Hn]. apply Forall_cons_iff in Hn as [Hb Hn].
    destruct buf as [|x buf]; [done|]. cbn in Hlen. cbn [decodeNibbles pack_nibbles].
    rewrite IH by (done || lia). cbn. by rewrite pack_ok.
Qed.

Lemma pack_nibbles_of str : bytes_ok str → pack_nibbles (nibbles_of str) = str.
Proof.
  induction 1 as [|b str Hb _ IH]; [done|]. cbn. rewrite IH. f_equal. symmetry. apply Z.div_mod. lia.
Qed.
Lemma nibbles_of_pack ns :
  Forall nibble ns → Nat.odd (length ns) = false → nibbles_of (pack_nibbles ns) = ns.
Proof.
  induction ns as [| |a b ns IH] using list_pair_ind; intros Hn Hodd; [done..|].
  apply Forall_cons_iff in Hn as [Ha Hn]. apply Forall_cons_iff in Hn as [Hb Hn].
  cbn. rewrite IH by done. unfold nibble in *. f_equal; [|f_equal].
  - rewrite (Z.mul_comm 16), Z.div_add_l, Z.div_small by lia. lia.
  - rewrite Z.add_comm, (Z.mul_comm 16), Z.mod_add, Z.mod_small by lia. done.
Qed.
Lemma nibbles_of_nibble str : bytes_ok str → Forall nibble (nibbles_of str).
Proof.
  induction 1 as [|b str Hb _ IH]; [constructor|]. cbn. unfold is_u8 in Hb. unfold nibble.
  repeat constructor; try done.
  - apply Z.div_pos; lia.
  - apply Z.div_lt_upper_bound; lia.
  - apply Z.mod_pos_bound. lia.
  - apply Z.mod_pos_bound. lia.
Qed.
Lemma length_nibbles_of str : length (nibbles_of str) = (2 * length str)%nat.
Proof. induction str; cbn; [done|]. lia. Qed.
Lemma length_nibbles_of_even str : Nat.odd (length (nibbles_of str)) = false.
Proof. by induction str. Qed.

Lemma keybytesToHex_key str : keybytesToHex str = hex_key (nibbles_of str) true.
Proof. done. Qed.

(** ** Theorems *)

(** The key bytes come back from the HEX form that every trie operation
    uses. *)
Theorem hexToKeybytes_keybytesToHex {E} str :
  bytes_ok str → hexToKeybytes (E:=E) (keybytesToHex str) = Ok str.
Proof.
  intros Hok. unfold hexToKeybytes. rewrite keybytesToHex_key, cut_hex_key by (by apply nibbles_of_nibble).
  rewrite land_len_odd, length_nibbles_of_even.
  cbn. rewrite decodeNibbles_ok; [by rewrite pack_nibbles_of|by apply nibbles_of_nibble|
    apply length_nibbles_of_even|apply length_replicate].
Qed.

Lemma hexToKeybytes_keybytesToHex_witness :
  hexToKeybytes (E:=unit) (keybytesToHex [0xab; 0x0c]) = Ok [0xab; 0x0c].
Proof. apply hexToKeybytes_keybytesToHex. repeat constructor; done. Defined.

Lemma even_div2_S n : Nat.odd n = false → Nat.div2 (S n) = Nat.div2 n.
Proof.
  intros H. symmetry. apply Nat.Even_div2. apply Nat.even_spec. by rewrite <-Nat.negb_odd, H.
Qed.
Lemma odd_S_false n : Nat.odd (S n) = true → Nat.odd n = false.
Proof. rewrite Nat.odd_succ, <-Nat.negb_odd. by destruct (Nat.odd n). Qed.

Lemma flag_byte (t : bool) n0 :
  nibble n0 → Z.lor (Z.lor (if t then 32 else 0) 16) n0 = 16 * ((if t then 2 else 0) + 1) + n0.
Proof.
  intros Hn. replace (Z.lor (if t then 32 else 0) 16) with (Z.shiftl ((if t then 2 else 0) + 1) 4) by (by destruct t).
  rewrite lor_shiftl_add by (unfold nibble in Hn; lia). lia.
Qed.

Lemma hexToCompact_hex_prefix {E} ns t :
  Forall nibble ns → hexToCompact (E:=E) (hex_key ns t) = Ok (hex_prefix ns t).
Proof.
  intros Hn. unfold hexToCompact, hex_prefix. rewrite cut_hex_key, hasTerm_hex_key, land_len_odd by done.
  replace (u8 (Z.shiftl (if t then 1 else 0) 5)) with (if t then 32 else 0) by (by destruct t).
  destruct (Nat.odd (length ns)) eqn:Hodd; cbn [Z.eqb Pos.eqb].
  - destruct ns as [|n0 ns]; [done|]. apply Forall_cons_iff in Hn as [H0 Hn].
    rewrite (go_index_ok (n0 :: ns) 0 n0) by done. cbn [mbind res_bind drop].
    apply odd_S_false in Hodd.
    rewrite decodeNibbles_ok; [|done..|rewrite length_replicate; by apply even_div2_S].
    cbn. by rewrite flag_byte.
  - rewrite decodeNibbles_ok by (done || apply length_replicate). cbn. by destruct t.
Qed.

Lemma go_index_drop {E} (l : bytes) i x r :
  drop i l = x :: r → go_index (E:=E) l (Z.of_nat i) = Ok x.
Proof.
  intros H. apply go_index_ok; [lia|]. rewrite Nat2Z.id, <-(Nat.add_0_r i), <-lookup_drop. by rewrite H.
Qed.

(** The loop of the in-place compaction never overwrites a nibble before it is
    read: position [bi] is at most one past [ni]. *)
Lemma compact_loop_ok {E} ns : ∀ fuel bi ni buf tl,
  Forall nibble ns → Nat.odd (length ns) = false →
  drop ni buf = ns ++ tl → (bi ≤ ni + 1)%nat → (Nat.div2 (length ns) ≤ fuel)%nat →
  ∃ buf', compact_loop (E:=E) fuel (Z.of_nat (ni + length ns)) (Z.of_nat bi) (Z.of_nat ni) buf = Ok buf' ∧
    length buf' = length buf ∧
    take (bi + Nat.div2 (length ns)) buf' = take bi buf ++ pack_nibbles ns.
Proof.
  induction ns as [| |a b ns IH] using list_pair_ind; intros fuel bi ni buf tl Hn Hodd Hd Hbi Hf; [|done|].
  - exists buf. cbn [length Nat.div2 pack_nibbles]. rewrite !Nat.add_0_r, app_nil_r.
    split; [|done]. destruct fuel; cbn; by rewrite Z.ltb_irrefl.
  - apply Forall_cons_iff in Hn as [Ha Hn]. apply Forall_cons_iff in Hn as [Hb Hn].
    cbn [length] in *. change (Nat.div2 (S (S (length ns)))) with (S (Nat.div2 (length ns))) in *.
    destruct fuel as [|fuel]; [by apply Nat.nle_succ_0 in Hf|]. cbn [compact_loop].
    rewrite (proj2 (Z.ltb_lt _ _)) by lia.
    rewrite (go_index_drop buf ni a (b :: ns ++ tl)) by done. cbn [mbind res_bind].
    assert (drop (S ni) buf = b :: ns ++ tl) as Hd1
      by (by rewrite <-Nat.add_1_r, <-drop_drop, Hd).
    replace (Z.of_nat ni + 1) with (Z.of_nat (S ni)) by lia.
    rewrite (go_index_drop buf (S ni) b (ns ++ tl)) by done. cbn [mbind res_bind].
    assert (S ni < length buf)%nat as Hlb.
    { apply (f_equal length) in Hd1. rewrite length_drop in Hd1. cbn in Hd1. lia. }
    unfold go_set. rewrite decide_True by (unfold len; lia). cbn [mbind res_bind]. rewrite Nat2Z.id, pack_ok by done.
    set (buf1 := <[bi:=16 * a + b]> buf).
    destruct (IH fuel (S bi) (S (S ni)) buf1 tl) as (buf' & Heq & Hlen & Htk); try done || lia.
    { unfold buf1. rewrite drop_insert_lt by lia. by rewrite <-Nat.add_1_r, <-drop_drop, Hd1. }
    exists buf'. replace (Z.of_nat bi + 1) with (Z.of_nat (S bi)) by lia.
    replace (Z.of_nat ni + 2) with (Z.of_nat (S (S ni))) by lia.
    replace (ni + S (S (length ns)))%nat with (S (S ni) + length ns)%nat by lia. split; [done|].
    unfold buf1 in Hlen. rewrite length_insert in Hlen. split; [done|].
    rewrite <-Nat.add_succ_comm, Htk. cbn [pack_nibbles]. unfold buf1.
    rewrite (take_S_r _ _ (16 * a + b)) by (apply list_lookup_insert_eq; lia).
    by rewrite take_insert_ge, <-app_assoc by lia.
Qed.

Lemma div2_le n : (Nat.div2 n ≤ n)%nat.
Proof. rewrite Nat.div2_div. apply Nat.Div0.div_le_upper_bound. lia. Qed.

Lemma hexToCompactInPlace_hex_prefix {E} ns t :
  Forall nibble ns → hex_key ns t ≠ [] →
  ∃ n buf, hexToCompactInPlace (E:=E) (hex_key ns t) = Ok (n, buf) ∧
    take (Z.to_nat n) buf = hex_prefix ns t ∧ length buf = length (hex_key ns t).
Proof.
  intros Hn Hne. unfold hexToCompactInPlace. fold (hasTerm (hex_key ns t)).
  rewrite hasTerm_hex_key by done. set (hex := hex_key ns t) in *.
  assert ((if t then len hex - 1 else len hex) = len ns) as ->.
  { unfold len, hex. rewrite length_hex_key. destruct t; lia. }
  rewrite land_len_odd. set (tl := if t then [16] else []).
  assert (1 ≤ length hex)%nat as Hl1 by (destruct hex; cbn; [done|lia]).
  assert (∀ (buf : bytes) f, length buf = length hex → go_set (E:=E) buf 0 f = Ok (f :: drop 1 buf)) as Hset.
  { intros buf f Hb. unfold go_set. rewrite decide_True by (unfold len; lia). by destruct buf; [cbn in *; lia|]. }
  assert (Z.to_nat (len ns / 2 + 1) = S (Nat.div2 (length ns))) as Hbl.
  { rewrite Nat.div2_div. unfold len. change 2 with (Z.of_nat 2). rewrite <-Nat2Z.inj_div. lia. }
  unfold hex_prefix. destruct (Nat.odd (length ns)) eqn:Hodd; cbn [Z.eqb Pos.eqb].
  - destruct ns as [|n0 ns]; [done|]. apply Forall_cons_iff in Hn as [H0 Hn].
    apply odd_S_false in Hodd.
    rewrite (go_index_ok hex 0 n0) by done. cbn [mbind res_bind].
    destruct (compact_loop_ok (E:=E) ns (length hex) 1 1 hex tl) as (buf & Hc & Hlen & Htk); try done || lia.
    { unfold hex. rewrite length_hex_key. cbn [length].
      pose proof (div2_le (length ns)). lia. }
    replace (Z.of_nat (1 + length ns)) with (len (n0 :: ns)) in Hc by done. change (Z.of_nat 1) with 1 in Hc.
    rewrite Hc. cbn [mbind res_bind]. rewrite Hset by done. cbn [mbind res_bind].
    do 2 eexists. split; [done|]. rewrite Hbl, flag_byte by done. split.
    + cbn [take]. f_equal. cbn [length]. rewrite even_div2_S by done.
      destruct buf; [cbn in Hlen; lia|]. cbn in Htk. destruct hex; [done|]. by injection Htk.
    + destruct buf; [cbn in Hlen; lia|]. done.
  - destruct (compact_loop_ok (E:=E) ns (length hex) 1 0 hex tl) as (buf & Hc & Hlen & Htk); try done || lia.
    { unfold hex. rewrite length_hex_key. pose proof (div2_le (length ns)). lia. }
    replace (Z.of_nat (0 + length ns)) with (len ns) in Hc by done. change (Z.of_nat 1) with 1 in Hc. change (Z.of_nat 0) with 0 in Hc. cbn [mbind res_bind].
    rewrite Hc. cbn [mbind res_bind]. rewrite Hset by done. cbn [mbind res_bind].
    do 2 eexists. split; [done|]. rewrite Hbl. split.
    + cbn [take]. f_equal; [by destruct t|].
      destruct buf; [cbn in Hlen; lia|]. cbn in Htk. destruct hex; [done|]. by injection Htk.
    + destruct buf; [cbn in Hlen; lia|]. done.
Qed.

Lemma hexToCompactInPlace_size {E} ns t n buf :
  Forall nibble ns → hexToCompactInPlace (E:=E) (hex_key ns t) = Ok (n, buf) → n = len ns / 2 + 1.
Proof.
  intros Hn. unfold hexToCompactInPlace. fold (hasTerm (hex_key ns t)). rewrite hasTerm_hex_key by done.
  assert ((if t then len (hex_key ns t) - 1 else len (hex_key ns t)) = len ns) as -> by (unfold len; rewrite length_hex_key; destruct t; lia).
  destruct (Z.land (len ns) 1 =? 1); [destruct (go_index _ _); try done|]; cbn [mbind res_bind];
    destruct (compact_loop _ _ _ _ _); try done; cbn [mbind res_bind]; destruct (go_set _ _ _); try done; by intros [= <- _].
Qed.

(** The allocating and the in-place compaction of a HEX key produce the
    same bytes, the hex-prefix encoding of the protocol, and the in-place one
    needs no more room than the key. *)
Theorem hexToCompact_agree {E} ns t :
  Forall nibble ns → hex_key ns t ≠ [] →
  hexToCompact (E:=E) (hex_key ns t) = Ok (hex_prefix ns t) ∧
  ∃ n buf, hexToCompactInPlace (E:=E) (hex_key ns t) = Ok (n, buf) ∧
    take (Z.to_nat n) buf = hex_prefix ns t ∧ length buf = length (hex_key ns t).
Proof.
  intros Hn Hne. split; [by apply hexToCompact_hex_prefix|by apply hexToCompactInPlace_hex_prefix].
Qed.

Lemma hexToCompact_agree_witness :
  hexToCompact (E:=unit) (hex_key [1; 2; 3] true) = Ok (hex_prefix [1; 2; 3] true) ∧
  ∃ n buf, hexToCompactInPlace (E:=unit) (hex_key [1; 2; 3] true) = Ok (n, buf) ∧
    take (Z.to_nat n) buf = hex_prefix [1; 2; 3] true ∧ length buf = length (hex_key [1; 2; 3] true).
Proof. apply hexToCompact_agree; [repeat constructor; done|done]. Defined.

Lemma compactToHex_hex_prefix {E} ns t :
  Forall nibble ns → compactToHex (E:=E) (hex_prefix ns t) = Ok (hex_key ns t).
Proof.
  intros Hn. unfold hex_prefix.
  assert (∀ f k r, f / 16 = (if t then 2 else 0) + k → 0 ≤ k ≤ 1 →
            compactToHex (E:=E) (f :: r) = 
            Ok (drop (Z.to_nat (2 - k)) (f / 16 :: f mod 16 :: hex_key (nibbles_of r) t))) as Hc.
  { intros f k r Hf Hk. unfold compactToHex, keybytesToHex. cbn [nibbles_of app].
    rewrite (go_index_ok _ 0 (f / 16)) by done. cbn [mbind res_bind].
    set (base := f / 16 :: f mod 16 :: nibbles_of r ++ [16]).
    assert ((if f / 16 <? 2 then take (length base - 1) base else base) =
            f / 16 :: f mod 16 :: hex_key (nibbles_of r) t) as ->.
    { assert ((f / 16 <? 2) = negb t) as ->
        by (rewrite Hf; destruct t; [apply Z.ltb_ge|apply Z.ltb_lt]; lia).
      unfold base, hex_key. destruct t; [done|]. cbn [length negb]. rewrite length_app, app_nil_r. cbn [length].
      replace (S (S (length (nibbles_of r) + 1)) - 1)%nat with (S (S (length (nibbles_of r)))) by lia.
      cbn [take]. by rewrite take_app_length. }
    assert (Z.land (f / 16) 1 = k) as ->.
    { rewrite Hf. assert (k = 0 ∨ k = 1) as [->| ->] by lia; by destruct t. }
    set (l := _ :: _ :: _). assert (2 ≤ len l) as Hl
      by (unfold l; rewrite !len_cons; pose proof (len_nonneg (hex_key (nibbles_of r) t)); lia).
    rewrite go_slice_ok by lia. f_equal. apply take_ge. rewrite length_drop. unfold len. lia. }
  destruct (Nat.odd (length ns)) eqn:Hodd.
  - destruct ns as [|n0 ns]; [done|]. apply Forall_cons_iff in Hn as [H0 Hn]. apply odd_S_false in Hodd.
    unfold nibble in H0. assert ((16 * ((if t then 2 else 0) + 1) + n0) / 16 = (if t then 2 else 0) + 1) as Hd.
    { rewrite (Z.mul_comm 16), Z.div_add_l, Z.div_small by lia. lia. }
    rewrite (Hc _ 1) by (done || lia). cbn [Z.to_nat Z.sub Z.opp Z.add Z.pos_sub Pos.pred_double Pos.to_nat drop].
    rewrite nibbles_of_pack by done. change (Z.to_nat (2 - 1)) with 1%nat. cbn [drop].
    rewrite Z.add_comm, (Z.mul_comm 16), Z.mod_add, Z.mod_small by lia. done.
  - assert (16 * (if t then 2 else 0) / 16 = (if t then 2 else 0) + 0) as Hd by (by destruct t).
    rewrite (Hc _ 0) by (done || lia). by rewrite nibbles_of_pack.
Qed.

(** A HEX key, terminated or not, comes back from its COMPACT form, which
    is the form stored on disk. *)
Theorem compactToHex_hexToCompact {E} ns t :
  Forall nibble ns → (hexToCompact (hex_key ns t) ≫= compactToHex (E:=E)) = Ok (hex_key ns t).
Proof. intros Hn. rewrite hexToCompact_hex_prefix by done. by apply compactToHex_hex_prefix. Qed.

Lemma compactToHex_hexToCompact_witness :
  (hexToCompact (hex_key [7; 0; 15] false) ≫= compactToHex (E:=unit)) = Ok (hex_key [7; 0; 15] false).
Proof. apply compactToHex_hexToCompact. repeat constructor; done. Defined.

(** [prefixLen] is the length of the longest common prefix. *)
Lemma prefixLen_spec a b :
  ∃ p a' b', a = p ++ a' ∧ b = p ++ b' ∧ length p = prefixLen a b ∧
    (∀ x y ra rb, a' = x :: ra → b' = y :: rb → x ≠ y).
Proof.
  revert b. induction a as [|x a IH]; intros [|y b]; cbn.
  1-3: by eexists [], _, _.
  destruct (Z.eqb_spec x y) as [->|Hne].
  - destruct (IH b) as (p & a' & b' & -> & -> & Hl & Hd). exists (y :: p), a', b'. cbn. by rewrite Hl.
  - exists [], (x :: a), (y :: b). split_and!; try done. by intros ???? [= -> ->] [= -> ->].
Qed.
