(* ===== verification/Trie.v ===== *)
(** * The Merkle Patricia trie (src/geth/trie/trie.go, src/geth/trie/node.go)

    Nodes, lookup, insertion and deletion, with nodes loaded on demand from the
    node database [db_node] ([Database.node], a parameter).  The trie is shown
    to implement a finite map from byte strings to non-empty byte strings: every
    operation refines the operation of the map, no operation panics on a
    well-formed trie, and the loaded shape of a trie depends on its contents
    only. *)
From stdpp Require Import gmap.
From S2P Require Import Prelude TrieEncoding.

#[local] Set Warnings "-register-all,-clear-no-such-hyp".

(** ** Nodes *)

Record nodeFlag := mk_nodeFlag { flag_hash : option bytes; flag_dirty : bool }.

Inductive node :=
| Nil
| valueNode (v : bytes)
| shortNode (Key : bytes) (Val : node) (flags : nodeFlag)
| fullNode (Children : list node) (flags : nodeFlag)
| hashNode (h : bytes).

Inductive trie_err := MissingNodeError (NodeHash Path : bytes).
Abbreviation T := (res trie_err).

Definition newFlag : nodeFlag := mk_nodeFlag None true.

Definition is_nil (n : node) : bool := match n with Nil => true | _ => false end.

(** [common.BytesToHash]: the last 32 bytes, padded on the left. *)
Definition BytesToHash (b : bytes) : bytes :=
  let b := drop (length b - 32) b in replicate (32 - length b) 0 ++ b.

(** [n.Children[i]] and its assignment, for a byte [i]. *)
Definition child (cs : list node) (i : Z) : T node := go_index cs i.
Definition set_child (cs : list node) (i : Z) (c : node) : T (list node) := go_set cs i c.

(** The loop of [delete] that looks for the single child left: its index, [-1]
    when there is none, [-2] when there are several. *)
Fixpoint single_pos (i pos : Z) (cs : list node) : Z :=
  match cs with
  | [] => pos
  | c :: cs =>
      if is_nil c then single_pos (i + 1) pos cs
      else if pos =? -1 then single_pos (i + 1) i cs
      else -2
  end.

Section ops.
Context (db_node : bytes → option node).

Definition resolveHash (n prefix : bytes) : T node :=
  match db_node (BytesToHash n) with
  | Some n => Ok n
  | None => Err (MissingNodeError (BytesToHash n) prefix)
  end.

Definition resolve (n : node) (prefix : bytes) : T node :=
  match n with hashNode h => resolveHash h prefix | _ => Ok n end.

(** [tryGet]: the value ([None] for nil), the node to keep, and whether
    something was loaded. *)
Fixpoint tryGet (fuel : nat) (origNode : node) (key : bytes) (pos : nat)
  : T (option bytes * node * bool) :=
  match fuel with
  | O => OutOfFuel
  | S fuel =>
      match origNode with
      | Nil => Ok (None, Nil, false)
      | valueNode v => Ok (Some v, origNode, false)
      | shortNode k c f =>
          if (len key - Z.of_nat pos <? len k) || negb (bool_decide (k = take (length k) (drop pos key)))
          then Ok (None, origNode, false)
          else
            '(value, newnode, didResolve) ← tryGet fuel c key (pos + length k);
            if didResolve : bool then Ok (value, shortNode k newnode f, true)
            else Ok (value, origNode, false)
      | fullNode cs f =>
          i ← go_index key (Z.of_nat pos);
          c ← child cs i;
          '(value, newnode, didResolve) ← tryGet fuel c key (pos + 1);
          if didResolve : bool then
            cs ← set_child cs i newnode;
            Ok (value, fullNode cs f, true)
          else Ok (value, origNode, false)
      | hashNode h =>
          c ← resolveHash h (take pos key);
          '(value, newnode, _) ← tryGet fuel c key pos;
          Ok (value, newnode, true)
      end
  end.

(** [insert]: whether the trie changed, and the new node. *)
Fixpoint insert (fuel : nat) (n : node) (prefix key : bytes) (value : node) : T (bool * node) :=
  match fuel with
  | O => OutOfFuel
  | S fuel =>
      match key with
      | [] =>
          match n with
          | valueNode v =>
              match value with
              | valueNode v' => Ok (negb (bool_decide (v = v')), value)
              | _ => Panic runtime_error
              end
          | _ => Ok (true, value)
          end
      | key0 :: keyrest =>
          match n with
          | shortNode k c f =>
              let matchlen := prefixLen key k in
              if (matchlen =? length k)%nat then
                '(dirty, nn) ← insert fuel c (prefix ++ take matchlen key) (drop matchlen key) value;
                if dirty : bool then Ok (true, shortNode k nn newFlag) else Ok (false, n)
              else
                let branch := replicate 17 Nil in
                ki ← go_index k (Z.of_nat matchlen);
                '(_, c1) ← insert fuel Nil (prefix ++ take (matchlen + 1) k) (drop (matchlen + 1) k) c;
                branch ← set_child branch ki c1;
                kj ← go_index key (Z.of_nat matchlen);
                '(_, c2) ← insert fuel Nil (prefix ++ take (matchlen + 1) key) (drop (matchlen + 1) key) value;
                branch ← set_child branch kj c2;
                if (matchlen =? 0)%nat then Ok (true, fullNode branch newFlag)
                else Ok (true, shortNode (take matchlen key) (fullNode branch newFlag) newFlag)
          | fullNode cs f =>
              c ← child cs key0;
              '(dirty, nn) ← insert fuel c (prefix ++ [key0]) keyrest value;
              if dirty : bool then
                cs ← set_child cs key0 nn;
                Ok (true, fullNode cs newFlag)
              else Ok (false, n)
          | Nil => Ok (true, shortNode key value newFlag)
          | hashNode h =>
              rn ← resolveHash h prefix;
              '(dirty, nn) ← insert fuel rn prefix key value;
              if dirty : bool then Ok (true, nn) else Ok (false, rn)
          | valueNode _ => Panic (raised "invalid node")
          end
      end
  end.

(** The last part of [delete] on a full node whose child became nil. *)
Definition reduce (cs : list node) (prefix : bytes) : T node :=
  let pos := single_pos 0 (-1) cs in
  if 0 <=? pos then
    c ← child cs pos;
    if pos =? 16 then Ok (shortNode [pos] c newFlag)
    else
      cnode ← resolve c prefix;
      match cnode with
      | shortNode k v _ => Ok (shortNode (pos :: k) v newFlag)
      | _ => Ok (shortNode [pos] c newFlag)
      end
  else Ok (fullNode cs newFlag).

Fixpoint delete (fuel : nat) (n : node) (prefix key : bytes) : T (bool * node) :=
  match fuel with
  | O => OutOfFuel
  | S fuel =>
      match n with
      | shortNode k c f =>
          let matchlen := prefixLen key k in
          if (matchlen <? length k)%nat then Ok (false, n)
          else if (matchlen =? length key)%nat then Ok (true, Nil)
          else
            '(dirty, nn) ← delete fuel c (prefix ++ take (length k) key) (drop (length k) key);
            if dirty : bool then
              match nn with
              | shortNode k' c' _ => Ok (true, shortNode (k ++ k') c' newFlag)
              | _ => Ok (true, shortNode k nn newFlag)
              end
            else Ok (false, n)
      | fullNode cs f =>
          key0 ← go_index key 0;
          c ← child cs key0;
          '(dirty, nn) ← delete fuel c (prefix ++ [key0]) (drop 1 key);
          if dirty : bool then
            cs ← set_child cs key0 nn;
            if negb (is_nil nn) then Ok (true, fullNode cs newFlag)
            else n' ← reduce cs prefix; Ok (true, n')
          else Ok (false, n)
      | valueNode _ => Ok (true, Nil)
      | Nil => Ok (false, Nil)
      | hashNode h =>
          rn ← resolveHash h prefix;
          '(dirty, nn) ← delete fuel rn prefix key;
          if dirty : bool then Ok (true, nn) else Ok (false, rn)
      end
  end.

(** ** The trie object *)

Record Trie := mk_Trie { root : node; unhashed : Z }.
Abbreviation M := (st Trie trie_err).

(** Fuel for a walk along [key]: every nibble is consumed by at most one node,
    which may have to be loaded first. *)
Definition walk_fuel (key : bytes) : nat := 2 * length key + 2.

Definition TryGet (key : bytes) : M (option bytes) := λ t,
  let k := keybytesToHex key in
  match tryGet (walk_fuel k) (root t) k 0 with
  | Ok (value, newroot, didResolve) =>
      (if didResolve : bool then mk_Trie newroot (unhashed t) else t, Ok value)
  | Err e => (t, Err e)
  | Panic p => (t, Panic p)
  | OutOfFuel => (t, OutOfFuel)
  end.

Definition TryDelete (key : bytes) : M unit := λ t,
  let t := mk_Trie (root t) (unhashed t + 1) in
  let k := keybytesToHex key in
  match delete (walk_fuel k) (root t) [] k with
  | Ok (_, n) => (mk_Trie n (unhashed t), Ok tt)
  | Err e => (t, Err e)
  | Panic p => (t, Panic p)
  | OutOfFuel => (t, OutOfFuel)
  end.

Definition TryUpdate (key value : bytes) : M unit := λ t,
  if bool_decide (value ≠ []) then
    let t := mk_Trie (root t) (unhashed t + 1) in
    let k := keybytesToHex key in
    match insert (walk_fuel k) (root t) [] k (valueNode value) with
    | Ok (_, n) => (mk_Trie n (unhashed t), Ok tt)
    | Err e => (t, Err e)
    | Panic p => (t, Panic p)
    | OutOfFuel => (t, OutOfFuel)
    end
  else TryDelete key t.

End ops.

Definition no_db : bytes → option node := λ _, None.
Definition run_ops (ops : list (bytes * bytes)) (t : Trie) : Trie :=
  foldl (λ t '(k, v), fst (TryUpdate no_db k v t)) t ops.
Example trie_ex :
  snd (TryGet no_db [0x12; 0x35] (run_ops [([0x12; 0x34], [1]); ([0x12; 0x35], [2]); ([0x12], [3]);
    ([0x12; 0x34], [])] (mk_Trie Nil 0))) = Ok (Some [2]).
Proof. reflexivity. Qed.

(** ** Keys *)

(** The HEX keys of values: nibbles and the terminator. *)
Definition hexk (k : bytes) : Prop := ∃ ns, Forall nibble ns ∧ k = ns ++ [16].

Lemma hexk_cons x k : hexk (x :: k) ↔ (x = 16 ∧ k = []) ∨ (nibble x ∧ hexk k).
Proof.
  split.
  - intros ([|y ns] & Hn & Heq); cbn in Heq; [left; by simplify_eq|].
    injection Heq as -> ->. apply Forall_cons_iff in Hn as [? ?]. right. split; [done|by exists ns].
  - intros [[-> ->]|[Hx (ns & Hn & ->)]]; [by exists []|]. exists (x :: ns). by split; [constructor|].
Qed.
Lemma hexk_nil : ¬ hexk [].
Proof. by intros ([|] & _ & ?). Qed.
Lemma hexk_app p k : Forall nibble p → hexk (p ++ k) ↔ hexk k.
Proof.
  induction 1 as [|x p Hx _ IH]; [done|]. cbn. rewrite hexk_cons, IH. split; [|by right].
  intros [[-> _]|[_ ?]]; [unfold nibble in Hx; lia|done].
Qed.
Lemma hexk_prefix p x k : hexk (p ++ x :: k) → Forall nibble p ∧ hexk (x :: k).
Proof.
  induction p as [|y p IH]; cbn; [done|]. rewrite hexk_cons.
  intros [[_ H]|[Hy [Hp H]%IH]]; [by destruct p|]. split; [by constructor|done].
Qed.
Lemma hexk_prefix_free k r : hexk k → hexk (k ++ r) → r = [].
Proof.
  induction k as [|x k IH]; [by intros ?%hexk_nil|]. cbn. rewrite !hexk_cons.
  intros [[-> ->]|[Hx Hk]] [[Hx' Hr]|[Hx' Hr]]; cbn in *; [done|unfold nibble in *; lia..|by apply IH].
Qed.
Lemma hexk_not_nibbles k r : hexk k → ¬ Forall nibble (k ++ r).
Proof.
  intros (ns & _ & ->) H. rewrite <-app_assoc in H.
  apply Forall_app in H as [_ [H _]%Forall_cons_iff]. unfold nibble in H. lia.
Qed.
Lemma hexk_ne k : hexk k → k ≠ [].
Proof. intros H ->. by apply hexk_nil in H. Qed.
Lemma hexk_range x k : hexk (x :: k) → 0 ≤ x < 17.
Proof. rewrite hexk_cons. unfold nibble. intros [[-> _]|[? _]]; lia. Qed.
Lemma hexk_keybytes key : bytes_ok key → hexk (keybytesToHex key).
Proof. intros H. exists (nibbles_of key). split; [by apply nibbles_of_nibble|done]. Qed.

(** ** Contents and well-formedness *)

Section spec.
Context (db : bytes → option node).

(** [has n k v]: below [n], the path [k] leads to the value [v]. *)
Inductive has : node → bytes → bytes → Prop :=
| has_value v : has (valueNode v) [] v
| has_short k c f k' v : has c k' v → has (shortNode k c f) (k ++ k') v
| has_full cs f i c k' v :
    0 ≤ i → cs !! Z.to_nat i = Some c → has c k' v → has (fullNode cs f) (i :: k') v
| has_hash h n k v : db (BytesToHash h) = Some n → has n k v → has (hashNode h) k v.

Definition loaded (n : node) : Prop := match n with hashNode _ => False | _ => True end.

(** A full node, possibly behind a hash. *)
Definition branch (n : node) : Prop :=
  match n with
  | fullNode _ _ => True
  | hashNode h => match db (BytesToHash h) with Some (fullNode _ _) => True | _ => False end
  | _ => False
  end.

Definition two_children (cs : list node) : Prop :=
  ∃ i j ci cj, i ≠ j ∧ cs !! i = Some ci ∧ cs !! j = Some cj ∧ ci ≠ Nil ∧ cj ≠ Nil.

(** The shape of a non-empty trie: short nodes lead to a value exactly when
    their key is terminated and otherwise to a full node; full nodes have at
    least two children, the seventeenth being a value; values are not empty; and
    every hash is in the database. *)
Inductive wf : node → Prop :=
| wf_leaf k v f : hexk k → v ≠ [] → wf (shortNode k (valueNode v) f)
| wf_ext k c f : k ≠ [] → Forall nibble k → wf c → branch c → wf (shortNode k c f)
| wf_full cs f :
    length cs = 17%nat →
    (∀ i c, (i < 16)%nat → cs !! i = Some c → c ≠ Nil → wf c) →
    (∀ c, cs !! 16%nat = Some c → c ≠ Nil → ∃ v, v ≠ [] ∧ c = valueNode v) →
    two_children cs → wf (fullNode cs f)
| wf_hash h n : db (BytesToHash h) = Some n → loaded n → wf n → wf (hashNode h).

(** What may stand at index [x] of a full node, other than nil. *)
Definition slot (x : Z) (c : node) : Prop :=
  (nibble x ∧ wf c) ∨ (x = 16 ∧ ∃ v, v ≠ [] ∧ c = valueNode v).

Lemma has_Nil k v : ¬ has Nil k v.
Proof. by inversion 1. Qed.
Lemma has_value_iff v0 k v : has (valueNode v0) k v ↔ k = [] ∧ v = v0.
Proof. split; [by inversion 1|]. intros [-> ->]. constructor. Qed.
Lemma has_short_iff k c f key v :
  has (shortNode k c f) key v ↔ ∃ k', key = k ++ k' ∧ has c k' v.
Proof. split; [inversion 1; eauto|]. intros (k' & -> & H). by constructor. Qed.
Lemma has_full_iff cs f key v :
  has (fullNode cs f) key v ↔
  ∃ i k' c, key = i :: k' ∧ 0 ≤ i ∧ cs !! Z.to_nat i = Some c ∧ has c k' v.
Proof.
  split; [inversion 1; subst; naive_solver|]. intros (i & k' & c & -> & Hi & Hc & H). by econstructor.
Qed.
Lemma has_hash_iff h n k v : db (BytesToHash h) = Some n → has (hashNode h) k v ↔ has n k v.
Proof. intros Hh. split; [inversion 1; by simplify_eq|]. by econstructor. Qed.

Lemma wf_not_Nil n : wf n → n ≠ Nil.
Proof. by inversion 1. Qed.
Lemma slot_not_Nil x c : slot x c → c ≠ Nil.
Proof. intros [[_ H]|[_ (v & _ & ->)]]; [by apply wf_not_Nil|done]. Qed.

Lemma wf_full_slot cs f x c :
  wf (fullNode cs f) → 0 ≤ x → cs !! Z.to_nat x = Some c → c ≠ Nil → slot x c.
Proof.
  inversion_clear 1 as [| |? ? Hl Hc H16 _|]. intros Hx Hcs Hne.
  pose proof (lookup_lt_Some _ _ _ Hcs) as Hlt. rewrite Hl in Hlt.
  destruct (Z.eq_dec x 16) as [->|]; [right; split; [done|by apply H16]|].
  left. split; [unfold nibble; lia|]. apply (Hc (Z.to_nat x)); [lia|done..].
Qed.

Lemma wf_full_intro cs f :
  length cs = 17%nat → two_children cs →
  (∀ x c, 0 ≤ x → cs !! Z.to_nat x = Some c → c ≠ Nil → slot x c) → wf (fullNode cs f).
Proof.
  intros Hl H2 Hs. constructor; [done| | |done].
  - intros i c Hi Hc Hne. destruct (Hs (Z.of_nat i) c) as [[_ ?]|[? _]]; [lia|by rewrite Nat2Z.id|done..|lia].
  - intros c Hc Hne. destruct (Hs 16 c) as [[? _]|[_ ?]]; [lia|done..|unfold nibble in *; lia|done].
Qed.

(** Values are reached by terminated keys and are not empty. *)
Lemma has_hexk n : wf n → ∀ k v, has n k v → hexk k ∧ v ≠ [].
Proof.
  induction 1 as [k v f Hk Hv|k c f Hk Hn _ IH _|cs f Hl Hc IH H16 _|h n Hh _ _ IH]; intros key w.
  - rewrite has_short_iff. intros (k' & -> & [-> ->]%has_value_iff). by rewrite app_nil_r.
  - rewrite has_short_iff. intros (k' & -> & [? ?]%IH). by rewrite hexk_app.
  - rewrite has_full_iff. intros (i & k' & c & -> & Hi & Hci & H).
    assert (c ≠ Nil) as Hne by (by intros ->; apply has_Nil in H).
    pose proof (lookup_lt_Some _ _ _ Hci) as Hlt. rewrite Hl in Hlt. rewrite hexk_cons.
    destruct (Z.eq_dec i 16) as [->|].
    + destruct (H16 c Hci Hne) as (v & Hv & ->). apply has_value_iff in H as [-> ->]. eauto.
    + apply (IH (Z.to_nat i)) in H as [? ?]; [|lia|done..]. split; [|done].
      right. split; [unfold nibble; lia|done].
  - rewrite (has_hash_iff h n) by done. apply IH.
Qed.

Lemma has_fun n : wf n → ∀ k v w, has n k v → has n k w → v = w.
Proof.
  induction 1 as [k v0 f Hk Hv|k c f Hk Hn _ IH _|cs f Hl Hc IH H16 _|h n Hh _ _ IH]; intros key v w.
  - rewrite !has_short_iff. intros (? & _ & [_ ->]%has_value_iff) (? & _ & [_ ->]%has_value_iff). done.
  - rewrite !has_short_iff. intros (k1 & -> & H1) (k2 & ->%app_inv_head & H2). eauto.
  - rewrite !has_full_iff. intros (i & k' & c & -> & Hi & Hci & H1) (? & ? & ? & [= <- <-] & _ & Hci' & H2).
    assert (c ≠ Nil) as Hne by (by intros ->; apply has_Nil in H1). simplify_eq.
    pose proof (lookup_lt_Some _ _ _ Hci) as Hlt. rewrite Hl in Hlt.
    destruct (Z.eq_dec i 16) as [->|].
    + destruct (H16 _ Hci Hne) as (v0 & _ & ->). apply has_value_iff in H1 as [_ ->], H2 as [_ ->]. done.
    + apply (IH (Z.to_nat i) _ ltac:(lia) Hci Hne k'); done.
  - rewrite !(has_hash_iff h n) by done. apply IH.
Qed.

Lemma slot_fun x c k v w : slot x c → has c k v → has c k w → v = w.
Proof.
  intros [[_ H]|[_ (? & _ & ->)]]; [by apply has_fun|]. by intros [_ ->]%has_value_iff [_ ->]%has_value_iff.
Qed.
Lemma slot_hexk x c k v : slot x c → has c k v → hexk (x :: k) ∧ v ≠ [].
Proof.
  intros [[Hx H]|[-> (? & ? & ->)]] Hh.
  - destruct (has_hexk c H k v Hh). split; [|done]. apply hexk_cons. by right.
  - apply has_value_iff in Hh as [-> ->]. split; [|done]. apply hexk_cons. by left.
Qed.

(** A well-formed trie is not empty, and below a branch paths diverge at once. *)
Lemma wf_inhabited n : wf n → ∃ k v, has n k v.
Proof.
  induction 1 as [k v f Hk Hv|k c f Hk Hn _ (k' & v & H) _|cs f Hl Hc IH H16 (i & _ & c & _ & _ & Hi & _ & Hne & _)|h n Hh _ _ (k & v & H)].
  - exists (k ++ []), v. by repeat constructor.
  - exists (k ++ k'), v. by constructor.
  - pose proof (lookup_lt_Some _ _ _ Hi) as Hlt. rewrite Hl in Hlt.
    destruct (decide (i = 16%nat)) as [->|].
    + destruct (H16 c Hi Hne) as (v & _ & ->). exists [16], v. by eapply (has_full _ _ 16); [| |constructor].
    + destruct (IH i c) as (k & v & H); [lia|done..|]. exists (Z.of_nat i :: k), v.
      eapply has_full; [lia|by rewrite Nat2Z.id|done].
  - exists k, v. by econstructor.
Qed.
Lemma slot_inhabited x c : slot x c → ∃ k v, has c k v.
Proof.
  intros [[_ H]|[_ (v & _ & ->)]]; [by apply wf_inhabited|]. exists [], v. constructor.
Qed.

Lemma branch_two n : wf n → branch n →
  ∃ x y k1 k2 v1 v2, x ≠ y ∧ has n (x :: k1) v1 ∧ has n (y :: k2) v2.
Proof.
  assert (∀ cs f, wf (fullNode cs f) → ∃ x y k1 k2 v1 v2,
    x ≠ y ∧ has (fullNode cs f) (x :: k1) v1 ∧ has (fullNode cs f) (y :: k2) v2) as Hfull.
  { intros cs f Hwf. inversion Hwf as [| |? ? Hl _ _ (i & j & ci & cj & Hij & Hi & Hj & Hni & Hnj)|]; subst.
    destruct (slot_inhabited (Z.of_nat i) ci) as (k1 & v1 & H1).
    { apply (wf_full_slot cs f); [done|lia|by rewrite Nat2Z.id|done]. }
    destruct (slot_inhabited (Z.of_nat j) cj) as (k2 & v2 & H2).
    { apply (wf_full_slot cs f); [done|lia|by rewrite Nat2Z.id|done]. }
    exists (Z.of_nat i), (Z.of_nat j), k1, k2, v1, v2.
    split; [lia|]. split; (eapply has_full; [lia|by rewrite Nat2Z.id|done]). }
  intros Hwf. destruct n as [| | |cs f|h]; try done; [by intros _; apply Hfull|].
  inversion Hwf as [| | |? n Hh _ Hwn]; subst. cbn. rewrite Hh. destruct n as [| | |cs f|]; try done. intros _.
  destruct (Hfull cs f Hwn) as (x & y & k1 & k2 & v1 & v2 & ? & ? & ?).
  exists x, y, k1, k2, v1, v2. split_and!; [done|by econstructor..].
Qed.

(** ** Lookup *)

Definition need (n : node) (k : bytes) : nat :=
  (2 * length k + match n with hashNode _ => 2 | _ => 1 end)%nat.

Lemma need_short n k : (need n k ≤ 2 * length k + 2)%nat.
Proof. unfold need. destruct n; lia. Qed.

(** Replacing a child of a full node by another one keeps it well-formed. *)
Lemma wf_set_child cs f f' x c c' :
  wf (fullNode cs f) → 0 ≤ x → cs !! Z.to_nat x = Some c → slot x c' →
  wf (fullNode (<[Z.to_nat x := c']> cs) f').
Proof.
  intros Hwf Hx Hc Hs. inversion Hwf as [| |? ? Hl _ _ H2|]; subst.
  pose proof (lookup_lt_Some _ _ _ Hc) as Hlt. pose proof (slot_not_Nil _ _ Hs) as Hne.
  apply wf_full_intro; [by rewrite length_insert| |].
  - destruct H2 as (i & j & ci & cj & Hij & Hi & Hj & Hni & Hnj).
    destruct (decide (i = Z.to_nat x)) as [->|Hix]; [|destruct (decide (j = Z.to_nat x)) as [->|Hjx]].
    + exists (Z.to_nat x), j, c', cj. rewrite list_lookup_insert_eq, list_lookup_insert_ne by done. done.
    + exists i, (Z.to_nat x), ci, c'. rewrite list_lookup_insert_eq, list_lookup_insert_ne by done. done.
    + exists i, j, ci, cj. rewrite !list_lookup_insert_ne by done. done.
  - intros y d Hy Hd Hdn. apply list_lookup_insert_Some in Hd as [(Heq & <- & _)|(Hne' & Hd)].
    + by assert (y = x) as -> by lia.
    + by apply (wf_full_slot cs f).
Qed.

Lemma has_set_child cs f x c' k v :
  0 ≤ x → (Z.to_nat x < length cs)%nat →
  has (fullNode (<[Z.to_nat x := c']> cs) f) k v ↔
  (∃ k', k = x :: k' ∧ has c' k' v) ∨ ((∀ k', k ≠ x :: k') ∧ has (fullNode cs f) k v).
Proof.
  intros Hx Hlt. rewrite !has_full_iff. split.
  - intros (i & k' & c & -> & Hi & Hc & H). apply list_lookup_insert_Some in Hc as [(Heq & <- & _)|(Hne & Hc)].
    + left. exists k'. by assert (i = x) as -> by lia.
    + right. split; [|eauto 10]. intros k'' [= -> _]. done.
  - intros [(k' & -> & H)|(Hne & i & k' & c & -> & Hi & Hc & H)].
    + exists x, k', c'. by rewrite list_lookup_insert_eq by done.
    + exists i, k', c. split_and!; try done. rewrite list_lookup_insert_ne; [done|].
      intros Heq. by apply (Hne k'); f_equal; lia.
Qed.

Lemma child_ok cs x c : 0 ≤ x → cs !! Z.to_nat x = Some c → child cs x = Ok c.
Proof. apply go_index_ok. Qed.
Lemma set_child_ok cs x c c' :
  0 ≤ x → cs !! Z.to_nat x = Some c → set_child cs x c' = Ok (<[Z.to_nat x := c']> cs).
Proof.
  intros Hx Hc. apply lookup_lt_Some in Hc. unfold set_child, go_set, len. by rewrite decide_True by lia.
Qed.
Lemma full_child cs f x k :
  wf (fullNode cs f) → hexk (x :: k) → ∃ c, 0 ≤ x ∧ cs !! Z.to_nat x = Some c ∧
    (c = Nil ∨ slot x c) ∧ child cs x = Ok c.
Proof.
  intros Hwf Hk. inversion Hwf as [| |? ? Hl _ _ H2|]; subst. apply hexk_range in Hk.
  destruct (lookup_lt_is_Some_2 cs (Z.to_nat x)) as [c Hc]; [lia|].
  exists c. split_and!; [lia|done| |apply child_ok; [lia|done]]. destruct (decide (is_nil c = true)) as [Hn|Hn].
  - left. by destruct c.
  - right. eapply wf_full_slot; [done|lia|done|]. by intros ->.
Qed.

(** One step of [tryGet] at a short node: the key either continues below it or
    does not match. *)
Lemma tryGet_short fuel k0 c f pre k :
  (∃ k1, k = k0 ++ k1 ∧
    tryGet db (S fuel) (shortNode k0 c f) (pre ++ k) (length pre) =
    '(value, newnode, d) ← tryGet db fuel c ((pre ++ k0) ++ k1) (length (pre ++ k0));
    if d : bool then Ok (value, shortNode k0 newnode f, true) else Ok (value, shortNode k0 c f, false)) ∨
  ((∀ k1, k ≠ k0 ++ k1) ∧
    tryGet db (S fuel) (shortNode k0 c f) (pre ++ k) (length pre) = Ok (None, shortNode k0 c f, false)).
Proof.
  cbn [tryGet]. rewrite drop_app_length, len_app. fold (len pre).
  replace (len pre + len k - len pre) with (len k) by lia.
  destruct (Z.ltb_spec (len k) (len k0)) as [Hlen|Hlen]; cbn [orb negb].
  { right. split; [|done]. intros k1 ->. rewrite len_app in Hlen. pose proof (len_nonneg k1). lia. }
  destruct (bool_decide_reflect (k0 = take (length k0) k)) as [Hpre|Hpre]; cbn [negb].
  - left. exists (drop (length k0) k).
    assert (k = k0 ++ drop (length k0) k) as Hk by (rewrite Hpre at 1; by rewrite take_drop).
    split; [done|]. by rewrite <-app_assoc, <-Hk, length_app.
  - right. split; [|done]. intros k1 ->. by rewrite take_app_length in Hpre.
Qed.

(** [n'] holds what [n] holds, and is a branch when [n] is. *)
Definition same_contents (n n' : node) : Prop :=
  wf n' ∧ (∀ k v, has n' k v ↔ has n k v) ∧ (branch n → branch n').

Lemma same_contents_refl n : wf n → same_contents n n.
Proof. by split. Qed.

Lemma has_full_child cs f x c k v :
  0 ≤ x → cs !! Z.to_nat x = Some c → has (fullNode cs f) (x :: k) v ↔ has c k v.
Proof.
  intros Hx Hc. rewrite has_full_iff. split; [|eauto 10].
  intros (? & ? & ? & [= <- <-] & _ & ? & ?). by simplify_eq.
Qed.

Lemma same_contents_full cs f x c c' :
  wf (fullNode cs f) → 0 ≤ x → cs !! Z.to_nat x = Some c → slot x c' → (∀ k v, has c' k v ↔ has c k v) →
  same_contents (fullNode cs f) (fullNode (<[Z.to_nat x := c']> cs) f).
Proof.
  intros Hwf Hx Hc Hs Hhas. split; [by eapply wf_set_child|]. split; [|done].
  intros k v. rewrite has_set_child by (done || by eapply lookup_lt_Some). split.
  - intros [(k' & -> & H%Hhas)|[_ H]]; [by apply (has_full_child _ _ _ c)|done].
  - intros H'. assert ((∃ k', k = x :: k') ∨ (∀ k', k ≠ x :: k')) as [(k' & ->)|Hno].
    { destruct k as [|y k]; [by right|]. destruct (Z.eq_dec y x) as [->|]; [left; by eexists|right; congruence]. }
    + left. exists k'. rewrite has_full_child in H' by done. split; [done|by apply Hhas].
    + by right.
Qed.

Lemma tryGet_ok n : wf n → ∀ fuel pre k, hexk k → (need n k ≤ fuel)%nat →
  ∃ value n' d, tryGet db fuel n (pre ++ k) (length pre) = Ok (value, n', d) ∧
    (∀ v, value = Some v ↔ has n k v) ∧ same_contents n n' ∧ (d = false → n' = n).
Proof.
  induction 1 as [k0 v0 f Hk0 Hv|k0 c f Hk0 Hn Hc IH Hbr|cs f Hl Hc IH H16 H2|h n Hh Hld Hwn IH];
    intros fuel pre k Hk Hf; unfold need in Hf; (destruct fuel as [|fuel]; [lia|]).
  - assert (wf (shortNode k0 (valueNode v0) f)) as Hwf by (by constructor).
    destruct (tryGet_short fuel k0 (valueNode v0) f pre k) as [(k1 & -> & ->)|[Hno ->]].
    + apply hexk_prefix_free in Hk as ->; [|done].
      destruct fuel as [|fuel]; [destruct k0; [by apply hexk_nil in Hk0|cbn in Hf; lia]|].
      cbn [tryGet mbind res_bind]. eexists _, _, _. split_and!; [done| |by apply same_contents_refl|done].
      intros v. rewrite has_short_iff. setoid_rewrite has_value_iff. naive_solver.
    + eexists _, _, _. split_and!; [done| |by apply same_contents_refl|done].
      intros v. rewrite has_short_iff. naive_solver.
  - assert (wf (shortNode k0 c f)) as Hwf by (by constructor).
    destruct (tryGet_short fuel k0 c f pre k) as [(k1 & -> & ->)|[Hno ->]].
    + rewrite hexk_app in Hk by done.
      destruct (IH fuel (pre ++ k0) k1) as (value & n' & d & -> & Hval & (Hwf' & Hhas & Hb) & Hd); [done|..].
      { pose proof (need_short c k1). rewrite length_app in Hf. destruct k0; [done|]. cbn in Hf. lia. }
      cbn [mbind res_bind]. eexists value, (shortNode k0 n' f), d. split; [|split_and!].
      * destruct d; [done|]. by rewrite Hd.
      * intros v. rewrite Hval, has_short_iff. split; [eauto|]. by intros (? & ->%app_inv_head & ?).
      * split_and!; [constructor; auto| |done]. intros k v. rewrite !has_short_iff. by setoid_rewrite Hhas.
      * intros ->. by rewrite Hd.
    + eexists _, _, _. split_and!; [done| |by apply same_contents_refl|done].
      intros v. rewrite has_short_iff. naive_solver.
  - assert (wf (fullNode cs f)) as Hwf by (by constructor). cbn [tryGet].
    destruct k as [|x k]; [by apply hexk_nil in Hk|].
    rewrite (go_index_drop (pre ++ x :: k) (length pre) x k) by apply drop_app_length. cbn [mbind res_bind].
    destruct (full_child cs f x k Hwf Hk) as (c & Hx & Hcs & Hslot & ->). cbn [mbind res_bind].
    assert (∃ value n' d, tryGet db fuel c ((pre ++ [x]) ++ k) (length (pre ++ [x])) = Ok (value, n', d) ∧
      (∀ v, value = Some v ↔ has c k v) ∧
      (d = true → slot x n' ∧ (∀ k v, has n' k v ↔ has c k v))) as (value & n' & d & Heq & Hval & Hd).
    { cbn [length] in Hf. destruct Hslot as [->|[[Hnx Hwc]|[Hx16 (v & _ & ->)]]].
      - destruct fuel; [lia|]. eexists _, _, _. split_and!; [done| |done].
        intros v. split; [done|by intros ?%has_Nil].
      - destruct (IH (Z.to_nat x) c) with (fuel := fuel) (pre := pre ++ [x]) (k := k)
          as (value & n' & d & -> & Hval & (Hwf' & Hhas & _) & _); [| |by apply wf_not_Nil|..].
        + unfold nibble in Hnx. lia.
        + done.
        + apply hexk_cons in Hk as [[-> _]|[_ ?]]; [unfold nibble in Hnx; lia|done].
        + pose proof (need_short c k). lia.
        + eexists _, _, _. split_and!; try done. intros _. split; [|done]. by left.
      - destruct fuel; [lia|]. eexists _, _, _. split_and!; [done| |done].
        apply hexk_cons in Hk as [[_ ->]|[Hk _]]; [|unfold nibble in *; lia].
        intros w. rewrite has_value_iff. naive_solver. }
    rewrite length_app, <-app_assoc in Heq. cbn [app length] in Heq. rewrite Heq. cbn [mbind res_bind]. destruct d.
    + rewrite (set_child_ok cs x c) by done. cbn [mbind res_bind]. destruct Hd as [Hs Hhas]; [done|].
      eexists _, _, _. split_and!; [done| |by eapply same_contents_full|done].
      intros v. by rewrite Hval, has_full_child.
    + eexists _, _, _. split_and!; [done| |by apply same_contents_refl|done].
      intros v. by rewrite Hval, has_full_child.
  - cbn [tryGet]. unfold resolveHash. rewrite Hh. cbn [mbind res_bind].
    destruct (IH fuel pre k Hk) as (value & n' & d & -> & Hval & (Hwf' & Hhas & Hb) & Hd).
    { unfold need. destruct n; cbn in *; try done; lia. }
    cbn [mbind res_bind]. eexists _, _, _. split_and!; [done|..|done].
    + intros v. by rewrite Hval, (has_hash_iff h n).
    + split_and!; [done| |].
      * intros k' v. by rewrite Hhas, (has_hash_iff h n).
      * cbn. rewrite Hh. by destruct n; auto.
Qed.

(** ** Insertion *)

(** [n'] holds what [n] holds, except that [key] leads to [v0]. *)
Definition inserted (n n' : node) (key v0 : bytes) : Prop :=
  ∀ k v, has n' k v ↔ (k = key ∧ v = v0) ∨ (k ≠ key ∧ has n k v).

Lemma inserted_noop n key v0 :
  (∀ v, has n key v → v = v0) → has n key v0 → inserted n n key v0.
Proof.
  intros Hfun Hh k v. destruct (decide (k = key)) as [->|]; [|naive_solver].
  split; [intros ->%Hfun; by left|]. by intros [[_ ->]|[? _]].
Qed.

(** The node that [insert] builds on nil: [c] below the path [b]. *)
Definition mk_short (b : bytes) (c : node) : node :=
  match b with [] => c | _ => shortNode b c newFlag end.

Lemma insert_Nil fuel prefix b c :
  (1 ≤ fuel)%nat → insert db fuel Nil prefix b c = Ok (true, mk_short b c).
Proof. intros Hf. destruct fuel; [lia|]. by destruct b. Qed.
Lemma has_mk_short b c k v : has (mk_short b c) k v ↔ ∃ k', k = b ++ k' ∧ has c k' v.
Proof. destruct b; [cbn; naive_solver|]. apply has_short_iff. Qed.

(** [below b c]: [c] may stand below the path [b] of a short node. *)
Definition below (b : bytes) (c : node) : Prop :=
  (hexk b ∧ ∃ v, v ≠ [] ∧ c = valueNode v) ∨ (Forall nibble b ∧ wf c ∧ branch c).

Lemma below_short k c f : wf (shortNode k c f) ↔ k ≠ [] ∧ below k c.
Proof.
  split.
  - inversion 1; subst; (split; [by eauto using hexk_ne|]); [left; eauto|by right].
  - intros [Hk [[? (v & ? & ->)]|(? & ? & ?)]]; by constructor.
Qed.
Lemma below_slot y b c : below (y :: b) c → slot y (mk_short b c).
Proof.
  intros [[[[-> ->]|[Hy Hb]]%hexk_cons (v & Hv & ->)]|([Hy Hb]%Forall_cons_iff & Hc & Hbr)].
  - right. eauto.
  - left. split; [done|]. destruct b; [by apply hexk_nil in Hb|]. by constructor.
  - left. split; [done|]. destruct b; [done|]. by constructor.
Qed.
Lemma below_app p b c : below (p ++ b) c → b ≠ [] → Forall nibble p ∧ below b c.
Proof.
  intros [[Hp (v & Hv & ->)]|(Hp & Hc & Hbr)] Hb.
  - destruct b as [|y b]; [done|]. apply hexk_prefix in Hp as [? ?]. split; [done|]. left. eauto.
  - apply Forall_app in Hp as [? ?]. split; [done|]. by right.
Qed.

(** A full node with two children is well-formed. *)
Lemma wf_two x y cx cy f :
  x ≠ y → slot x cx → slot y cy →
  wf (fullNode (<[Z.to_nat x := cx]> (<[Z.to_nat y := cy]> (replicate 17 Nil))) f) ∧
  ∀ k v, has (fullNode (<[Z.to_nat x := cx]> (<[Z.to_nat y := cy]> (replicate 17 Nil))) f) k v ↔
    (∃ k', k = x :: k' ∧ has cx k' v) ∨ (∃ k', k = y :: k' ∧ has cy k' v).
Proof.
  intros Hxy Hx Hy. assert (∀ z c, slot z c → 0 ≤ z < 17) as Hr.
  { intros z c [[H _]|[-> _]]; unfold nibble in *; lia. }
  pose proof (Hr _ _ Hx). pose proof (Hr _ _ Hy).
  pose proof (slot_not_Nil _ _ Hx). pose proof (slot_not_Nil _ _ Hy). split.
  - apply wf_full_intro.
    + by rewrite !length_insert, length_replicate.
    + exists (Z.to_nat x), (Z.to_nat y), cx, cy. split; [lia|].
      rewrite list_lookup_insert_eq by (rewrite length_insert, length_replicate; lia).
      rewrite list_lookup_insert_ne by lia.
      rewrite list_lookup_insert_eq by (rewrite length_replicate; lia). done.
    + intros z c Hz Hc Hne. apply list_lookup_insert_Some in Hc as [(? & <- & _)|(? & Hc)].
      { by assert (z = x) as -> by lia. }
      apply list_lookup_insert_Some in Hc as [(? & <- & _)|(? & Hc)].
      { by assert (z = y) as -> by lia. }
      apply lookup_replicate in Hc as [-> _]. done.
  - intros k v. rewrite has_set_child by (rewrite ?length_insert, ?length_replicate; lia).
    rewrite has_set_child by (rewrite ?length_replicate; lia). split.
    + intros [?|[_ [?|[_ H']]]]; [by left|by right|]. apply has_full_iff in H' as (? & ? & ? & _ & _ & Hl & Hh).
      apply lookup_replicate in Hl as [-> _]. by apply has_Nil in Hh.
    + intros [?|(k' & -> & Hk)]; [by left|]. right. split; [congruence|]. left. eauto.
Qed.

(** A path [p] to a branch with [v0] below [x :: a] and [c] below [y :: b]. *)
Definition split_node (p : bytes) (x : Z) (a : bytes) (y : Z) (b : bytes) (c : node) (v0 : bytes) : node :=
  mk_short p (fullNode (<[Z.to_nat x := mk_short a (valueNode v0)]> (<[Z.to_nat y := mk_short b c]> (replicate 17 Nil))) newFlag).

Lemma split_node_ok p x a y b c f v0 :
  x ≠ y → hexk (p ++ x :: a) → below (p ++ y :: b) c → v0 ≠ [] →
  wf (split_node p x a y b c v0) ∧ inserted (shortNode (p ++ y :: b) c f) (split_node p x a y b c v0) (p ++ x :: a) v0.
Proof.
  intros Hxy Hkey Hbel Hv. pose proof (hexk_prefix _ _ _ Hkey) as [Hp Hxa].
  apply below_app in Hbel as [_ Hbel]; [|done].
  assert (slot y (mk_short b c)) as Hsy by (by apply below_slot).
  assert (slot x (mk_short a (valueNode v0))) as Hsx by (apply below_slot; left; eauto).
  destruct (wf_two x y _ _ newFlag Hxy Hsx Hsy) as [Hwf Hhas]. unfold split_node. set (br := fullNode _ _) in *. split.
  - destruct p; [done|]. cbn. constructor; done.
  - intros k v. rewrite has_mk_short, has_short_iff. setoid_rewrite Hhas. setoid_rewrite has_mk_short. setoid_rewrite has_value_iff.
    split.
    + intros (k' & -> & [(? & -> & ? & -> & -> & ->)|(? & -> & ? & -> & H)]); [left; by rewrite app_nil_r|].
      right. split; [intros ?%app_inv_head; congruence|]. eexists. split; [|done]. by rewrite <-app_assoc.
    + intros [[-> ->]|[_ (k' & -> & H)]].
      * eexists. split; [done|]. left. exists a. split; [done|]. exists []. by rewrite app_nil_r.
      * exists (y :: b ++ k'). split; [by rewrite <-app_assoc|]. right. eauto 10.
Qed.

(** Insertion into a short node whose key diverges from the inserted key. *)
Lemma insert_split fuel prefix p x a y b c f v0 :
  x ≠ y → hexk (p ++ x :: a) → below (p ++ y :: b) c → v0 ≠ [] →
  prefixLen (p ++ x :: a) (p ++ y :: b) = length p → (1 ≤ fuel)%nat →
  ∃ n', insert db (S fuel) (shortNode (p ++ y :: b) c f) prefix (p ++ x :: a) (valueNode v0) = Ok (true, n') ∧
    wf n' ∧ inserted (shortNode (p ++ y :: b) c f) n' (p ++ x :: a) v0.
Proof.
  intros Hxy Hkey Hbel Hv Hpl Hf. exists (split_node p x a y b c v0). split; [|by apply split_node_ok].
  pose proof (hexk_prefix _ _ _ Hkey) as [Hp Hxa]. apply below_app in Hbel as [_ Hbel]; [|done].
  assert (slot y (mk_short b c)) as Hsy by (by apply below_slot).
  assert (slot x (mk_short a (valueNode v0))) as Hsx by (apply below_slot; left; eauto).
  remember (p ++ x :: a) as key eqn:Hk. remember (p ++ y :: b) as ks eqn:Hks.
  cbn [insert]. destruct key as [|key0 krest]; [by destruct p|]. rewrite Hpl.
  rewrite (proj2 (Nat.eqb_neq (length p) (length ks))) by (subst ks; rewrite length_app; cbn; lia).
  rewrite (go_index_drop ks _ y b) by (subst ks; apply drop_app_length). cbn [mbind res_bind].
  assert (drop (length p + 1) ks = b) as -> by (rewrite <-drop_drop, Hks, drop_app_length; done).
  rewrite (go_index_drop (key0 :: krest) _ x a) by (rewrite Hk; apply drop_app_length).
  assert (drop (length p + 1) (key0 :: krest) = a) as -> by (rewrite <-drop_drop, Hk, drop_app_length; done).
  assert (∀ z c, slot z c → 0 ≤ z < 17) as Hr.
  { intros z c' [[H _]|[-> _]]; unfold nibble in *; lia. }
  pose proof (Hr _ _ Hsx). pose proof (Hr _ _ Hsy).
  rewrite !insert_Nil by done. cbn [mbind res_bind].
  rewrite (set_child_ok _ y Nil) by (lia || by apply lookup_replicate_2; lia). cbn [mbind res_bind].
  destruct (lookup_lt_is_Some_2 (<[Z.to_nat y:=mk_short b c]> (replicate 17 Nil)) (Z.to_nat x)) as [c' Hc'].
  { rewrite length_insert, length_replicate. lia. }
  rewrite (set_child_ok _ x c') by (lia || done). cbn [mbind res_bind].
  assert (take (length p) (key0 :: krest) = p) as -> by (rewrite Hk; apply take_app_length).
  by destruct p.
Qed.

(** [insert] at a slot of a full node: nil, a value, or a subtrie. *)
Definition insert_spec (n : node) : Prop := ∀ fuel prefix key v0,
  hexk key → v0 ≠ [] → (need n key ≤ fuel)%nat →
  ∃ d n', insert db fuel n prefix key (valueNode v0) = Ok (d, n') ∧
    wf n' ∧ inserted n n' key v0 ∧ (branch n → branch n') ∧ (d = false → has n key v0).

Lemma insert_slot x c fuel prefix key v0 :
  c = Nil ∨ slot x c → (wf c → insert_spec c) → hexk (x :: key) → v0 ≠ [] →
  (2 * length key + 2 ≤ fuel)%nat →
  ∃ d c', insert db fuel c prefix key (valueNode v0) = Ok (d, c') ∧
    slot x c' ∧ inserted c c' key v0 ∧ (d = false → has c key v0).
Proof.
  intros Hc IH Hk Hv Hf. assert (slot x (mk_short key (valueNode v0))) as Hs
    by (apply below_slot; left; eauto).
  destruct Hc as [->|[[Hx Hwc]|[-> (v & Hne & ->)]]].
  - rewrite insert_Nil by lia. eexists _, _. split_and!; [done|done| |done].
    intros k w. rewrite has_mk_short. setoid_rewrite has_value_iff. split.
    + intros (k' & -> & -> & ->). left. by rewrite app_nil_r.
    + intros [[-> ->]|[_ ?%has_Nil]]; [|done]. exists []. by rewrite app_nil_r.
  - apply hexk_cons in Hk as [[-> _]|[_ Hk]]; [unfold nibble in Hx; lia|].
    destruct (IH Hwc fuel prefix key v0) as (d & n' & Heq & Hwf & Hins & _ & Hd); [done..| |].
    { pose proof (need_short c key). lia. }
    exists d, n'. split_and!; try done. by left.
  - apply hexk_cons in Hk as [[_ ->]|[Hk _]]; [|unfold nibble in Hk; lia].
    destruct fuel; [lia|]. cbn [insert]. eexists _, _. split_and!; [done|right; eauto| |].
    + intros k w. rewrite !has_value_iff. destruct (decide (k = [])); naive_solver.
    + intros Hd. destruct (bool_decide_reflect (v = v0)) as [->|]; [constructor|done].
Qed.

(** One step of [insert] at a short node whose key is a prefix of the key. *)
Lemma insert_short_match fuel k c f prefix r value :
  k ++ r ≠ [] →
  insert db (S fuel) (shortNode k c f) prefix (k ++ r) value =
  '(dirty, nn) ← insert db fuel c (prefix ++ k) r value;
  if dirty : bool then Ok (true, shortNode k nn newFlag) else Ok (false, shortNode k c f).
Proof.
  intros Hne. assert (prefixLen (k ++ r) k = length k) as Hpl.
  { clear Hne. induction k as [|x k IH]; [by destruct r|]. cbn. by rewrite Z.eqb_refl, IH. }
  remember (k ++ r) as key eqn:Hk. cbn [insert]. destruct key; [done|].
  by rewrite Hpl, Nat.eqb_refl, Hk, take_app_length, drop_app_length.
Qed.

Lemma inserted_short k c f n' f' r v0 :
  inserted c n' r v0 → inserted (shortNode k c f) (shortNode k n' f') (k ++ r) v0.
Proof.
  unfold inserted. intros Hins key v. rewrite !has_short_iff. setoid_rewrite Hins. split.
  - intros (k' & -> & [[-> ->]|[Hne H]]); [by left|]. right. split; [by intros ?%app_inv_head|eauto].
  - intros [[-> ->]|[Hne (k' & -> & H)]]; [eauto|]. exists k'. split; [done|]. right. split; [congruence|done].
Qed.

Lemma inserted_full cs f f' x c c' key v0 :
  0 ≤ x → cs !! Z.to_nat x = Some c → inserted c c' key v0 →
  inserted (fullNode cs f) (fullNode (<[Z.to_nat x := c']> cs) f') (x :: key) v0.
Proof.
  unfold inserted. intros Hx Hc Hins k v. rewrite has_set_child by (done || by eapply lookup_lt_Some).
  setoid_rewrite Hins. split.
  - intros [(k' & -> & [[-> ->]|[Hne H]])|[Hne H]]; [by left| |].
    + right. split; [congruence|]. by apply (has_full_child _ _ _ c).
    + right. split; [by apply Hne|]. apply has_full_iff in H. by apply has_full_iff.
  - intros [[-> ->]|[Hne H]]; [left; eauto|]. destruct k as [|y k].
    { right. split; [done|]. apply has_full_iff in H. by apply has_full_iff. }
    destruct (Z.eq_dec y x) as [->|Hyx].
    + left. exists k. split; [done|]. right. rewrite has_full_child in H by done. split; [congruence|done].
    + right. split; [congruence|]. apply has_full_iff in H. by apply has_full_iff.
Qed.

Lemma inserted_fun n k v0 : wf n → has n k v0 → inserted n n k v0.
Proof. intros Hwf Hh. apply inserted_noop; [|done]. intros v Hv. by eapply has_fun. Qed.

Lemma insert_short_ok k c f : below k c → k ≠ [] → (wf c → insert_spec c) → insert_spec (shortNode k c f).
Proof.
  intros Hbel Hkne IH fuel prefix key v0 Hk Hv Hf. unfold need in Hf.
  assert (wf (shortNode k c f)) as Hwf by (by apply below_short).
  destruct fuel as [|fuel]; [lia|].
  destruct (prefixLen_spec key k) as (p & a & b & -> & -> & Hpl & Hd).
  assert (1 ≤ length (p ++ a))%nat by (destruct (p ++ a); [by apply hexk_nil in Hk|cbn; lia]).
  destruct b as [|y b].
  - rewrite app_nil_r in *. rewrite insert_short_match by (by apply hexk_ne).
    assert (∃ d n', insert db fuel c (prefix ++ p) a (valueNode v0) = Ok (d, n') ∧ below p n' ∧
              inserted c n' a v0 ∧ (d = false → has c a v0)) as (d & n' & -> & Hb' & Hins & Hdf).
    { destruct Hbel as [[Hp (v & Hne & ->)]|(Hp & Hc & Hbr)].
      - apply hexk_prefix_free in Hk as ->; [|done]. destruct (insert_slot 16 (valueNode v) fuel (prefix ++ p) [] v0)
          as (d & c' & Heq & Hs & ? & ?); try done.
        { right. right. eauto. } { by exists []. } { cbn. lia. }
        exists d, c'. split_and!; try done. left. split; [done|].
        destruct Hs as [[Hs _]|[_ Hs]]; [unfold nibble in Hs; lia|done].
      - rewrite hexk_app in Hk by done. destruct (IH Hc fuel (prefix ++ p) a v0) as (d & n' & -> & ? & ? & ? & ?); try done.
        { pose proof (need_short c a). rewrite length_app in Hf. destruct p; [done|]. cbn in Hf. lia. }
        exists d, n'. split_and!; try done. right. auto. }
    cbn [mbind res_bind]. destruct d.
    + eexists _, _. split_and!; [done|by apply below_short|by apply inserted_short|done..].
    + eexists _, _. assert (has (shortNode p c f) (p ++ a) v0) by (constructor; auto).
      split_and!; [done|done|by apply inserted_fun|done..].
  - destruct a as [|x a].
    { rewrite app_nil_r in *. exfalso. destruct Hbel as [[Hp _]|[Hp _]].
      - by apply hexk_prefix_free in Hp.
      - by apply hexk_not_nibbles in Hp. }
    destruct (insert_split fuel prefix p x a y b c f v0) as (n' & -> & ? & ?); try done.
    { by eapply Hd. } { lia. }
    eexists _, _. by split_and!.
Qed.

Lemma insert_ok n : wf n → insert_spec n.
Proof.
  induction 1 as [k v f Hk Hv|k c f Hk Hn Hc IH Hbr|cs f Hl Hc IH H16 H2|h n Hh Hld Hwn IH].
  - apply insert_short_ok; [left; eauto|by apply hexk_ne|by inversion 1].
  - apply insert_short_ok; [by right|done..].
  - intros fuel prefix key v0 Hk Hv Hf. unfold need in Hf. destruct fuel as [|fuel]; [lia|].
    assert (wf (fullNode cs f)) as Hwf by (by constructor).
    destruct key as [|x key]; [by apply hexk_nil in Hk|]. cbn [length] in Hf.
    destruct (full_child cs f x key Hwf Hk) as (c & Hx & Hcs & Hslot & Hch). cbn [insert]. rewrite Hch.
    cbn [mbind res_bind].
    destruct (insert_slot x c fuel (prefix ++ [x]) key v0) as (d & c' & -> & Hs & Hins & Hd); try done; [|lia|].
    { intros Hwc. apply (IH (Z.to_nat x)); [|done|by apply wf_not_Nil].
      apply hexk_cons in Hk as [[-> ->]|[Hk _]]; [|unfold nibble in Hk; lia].
      destruct (H16 c Hcs) as (v & _ & ->); [by apply wf_not_Nil|by inversion Hwc]. }
    cbn [mbind res_bind]. destruct d.
    + rewrite (set_child_ok cs x c) by done. cbn [mbind res_bind]. eexists _, _.
      split_and!; [done|by eapply wf_set_child|by eapply inserted_full|done..].
    + eexists _, _. assert (has (fullNode cs f) (x :: key) v0) by (apply (has_full_child _ _ _ c); auto).
      split_and!; [done|done|by apply inserted_fun|done..].
  - intros fuel prefix key v0 Hk Hv Hf. destruct fuel as [|fuel]; [unfold need in Hf; lia|].
    destruct (IH fuel prefix key v0 Hk Hv) as (d & n' & Heq & Hwf' & Hins & Hb & Hd).
    { unfold need in *. destruct n; cbn in *; try done; lia. }
    assert (insert db (S fuel) (hashNode h) prefix key (valueNode v0) =
              if d then Ok (true, n') else Ok (false, n)) as ->.
    { cbn [insert]. destruct key; [by apply hexk_nil in Hk|]. unfold resolveHash. rewrite Hh. cbn [mbind res_bind].
      rewrite Heq. done. }
    assert (∀ k v, has (hashNode h) k v ↔ has n k v) as Hhas by (intros; by apply has_hash_iff).
    exists d, (if d then n' else n). split_and!.
    + by destruct d.
    + by destruct d.
    + intros k v. rewrite Hhas. destruct d; [apply Hins|]. apply inserted_fun; auto.
    + cbn. rewrite Hh. by destruct d, n; auto.
    + intros ->. apply Hhas. auto.
Qed.

(** ** Deletion *)

(** [n'] holds what [n] holds, except for [key]. *)
Definition deleted (n n' : node) (key : bytes) : Prop :=
  ∀ k v, has n' k v ↔ k ≠ key ∧ has n k v.

Definition all_nil (cs : list node) : Prop := ∀ i c, cs !! i = Some c → c = Nil.

Lemma single_pos_some i pos cs :
  0 ≤ pos → (single_pos i pos cs = pos ∧ all_nil cs) ∨
    (single_pos i pos cs = -2 ∧ ∃ j c, cs !! j = Some c ∧ c ≠ Nil).
Proof.
  intros Hp. revert i. induction cs as [|c cs IH]; intros i; cbn.
  - left. split; [done|]. by intros j c ?%lookup_nil_Some || by intros [|j] c.
  - destruct (is_nil c) eqn:Hc.
    + destruct c; try done. destruct (IH (i + 1)) as [[-> Hn]|[-> (j & c & Hj & Hne)]].
      * left. split; [done|]. intros [|j] c; cbn; [congruence|apply Hn].
      * right. split; [done|]. by exists (S j), c.
    + rewrite (proj2 (Z.eqb_neq pos (-1))) by lia. right. split; [done|].
      exists 0%nat, c. split; [done|by intros ->].
Qed.

(** The three outcomes of the search for a single child. *)
Lemma single_pos_none i cs :
  0 ≤ i →
  (single_pos i (-1) cs = -1 ∧ all_nil cs) ∨
  (∃ j c, single_pos i (-1) cs = i + Z.of_nat j ∧ cs !! j = Some c ∧ c ≠ Nil ∧
     ∀ j' c', cs !! j' = Some c' → j' ≠ j → c' = Nil) ∨
  (single_pos i (-1) cs = -2 ∧ two_children cs).
Proof.
  revert i. induction cs as [|c cs IH]; intros i Hi.
  - left. split; [done|]. by intros j c ?.
  - destruct (is_nil c) eqn:Hc; cbn [single_pos]; rewrite Hc.
    + destruct c; try done. destruct (IH (i + 1)) as [[-> Hn]|[(j & c & -> & Hj & Hne & Hu)|[-> (j & j' & c & c' & ? & ? & ? & ? & ?)]]]; [lia| | |].
      * left. split; [done|]. intros [|j] c; cbn; [congruence|apply Hn].
      * right; left. exists (S j), c. split_and!; [lia|done..|].
        intros [|j'] c'; cbn; [congruence|]. intros ? ?. eapply Hu; [done|lia].
      * right; right. split; [done|]. exists (S j), (S j'), c, c'. split_and!; [lia|done..].
    + assert (c ≠ Nil) as Hne by (by intros ->). change (-1 =? -1) with true.
      destruct (single_pos_some (i + 1) i cs Hi) as [[-> Hn]|[-> (j & d & Hj & Hd)]].
      * right; left. exists 0%nat, c. split_and!; [lia|done..|]. intros [|j] d; cbn; [done|]. intros ? _. by eapply Hn.
      * right; right. split; [done|]. by exists 0%nat, (S j), c, d.
Qed.

(** [reduce] keeps the contents of the full node and restores its shape. *)
Lemma reduce_ok cs prefix f :
  length cs = 17%nat →
  (∀ x c, 0 ≤ x → cs !! Z.to_nat x = Some c → c ≠ Nil → slot x c) →
  ¬ all_nil cs →
  ∃ n', reduce db cs prefix = Ok n' ∧ wf n' ∧ loaded n' ∧
    ∀ k v, has n' k v ↔ has (fullNode cs f) k v.
Proof.
  intros Hl Hs Hnn. unfold reduce.
  destruct (single_pos_none 0 cs) as [[_ ?]|[(j & c & -> & Hj & Hne & Hu)|[-> H2]]]; [done|done| |].
  2: { cbn. eexists. split_and!; [done|by apply wf_full_intro|done|]. intros. by rewrite !has_full_iff. }
  rewrite Z.add_0_l, (proj2 (Z.leb_le _ _)) by lia.
  assert (slot (Z.of_nat j) c) as Hsl by (apply Hs; [lia|by rewrite Nat2Z.id|done]).
  assert (∀ k v, has (fullNode cs f) k v ↔ ∃ k', k = Z.of_nat j :: k' ∧ has c k' v) as Hfull.
  { intros k v. rewrite has_full_iff. split.
    - intros (i & k' & c' & -> & Hi & Hc' & H). destruct (decide (Z.to_nat i = j)) as [<-|Hij].
      + exists k'. rewrite Z2Nat.id by done. by simplify_eq.
      + apply Hu in Hc' as ->; [|done]. by apply has_Nil in H.
    - intros (k' & -> & H). exists (Z.of_nat j), k', c. rewrite Nat2Z.id. split_and!; [done|lia|done..]. }
  setoid_rewrite Hfull. rewrite (child_ok cs _ c) by (lia || by rewrite Nat2Z.id). cbn [mbind res_bind].
  destruct Hsl as [[Hn Hwc]|[Hj16 (v & Hv & ->)]].
  - rewrite (proj2 (Z.eqb_neq _ 16)) by (unfold nibble in Hn; lia).
    assert (∃ c1, resolve db c prefix = Ok c1 ∧ wf c1 ∧ loaded c1 ∧ (∀ k v, has c1 k v ↔ has c k v) ∧
      ((∃ cs f, c1 = fullNode cs f) → branch c)) as (c1 & -> & Hw1 & Hld & Hh1 & Hb1).
    { destruct c as [| |k1 d1 f1|cs1 f1|h].
      1-4: eexists; split_and!; try done; by intros (? & ? & [=]).
      inversion Hwc as [| | |? n Hh ? ?]; subst. exists n. unfold resolve, resolveHash. rewrite Hh.
      split_and!; [done..|intros; by rewrite (has_hash_iff h n)|].
      intros (? & ? & ->). cbn. by rewrite Hh. }
    cbn [mbind res_bind]. destruct c1 as [| |k1 d1 f1|cs1 f1|]; [by inversion Hw1|by inversion Hw1| | |done].
    + eexists. split_and!; [done| |done|].
      * apply below_short in Hw1 as [_ Hb]. apply below_short. split; [done|].
        destruct Hb as [[? ?]|(? & ? & ?)]; [left; split; [apply hexk_cons; by right|done]|right; split; [by constructor|done]].
      * intros k v. rewrite has_short_iff. setoid_rewrite <-Hh1. setoid_rewrite has_short_iff. naive_solver.
    + eexists. split_and!; [done| |done|].
      * constructor; [done|by constructor|done|]. apply Hb1. eauto.
      * intros k v. rewrite has_short_iff. naive_solver.
  - rewrite Hj16. cbn. eexists. split_and!; [done| |done|].
    + constructor; [by exists []|done].
    + intros k w. rewrite has_short_iff. naive_solver.
Qed.

Definition delete_spec (n : node) : Prop := ∀ fuel prefix key,
  hexk key → (need n key ≤ fuel)%nat →
  ∃ d n', delete db fuel n prefix key = Ok (d, n') ∧
    (n' = Nil ∨ wf n') ∧ deleted n n' key ∧
    (d = true → loaded n') ∧ (d = false → ∀ v, ¬ has n key v).

Lemma deleted_noop n key : (∀ v, ¬ has n key v) → deleted n n key.
Proof. intros Hno k v. split; [|by intros [_ ?]]. intros H. split; [|done]. intros ->. by apply Hno in H. Qed.

(** [delete] at a slot of a full node. *)
Lemma delete_slot x c fuel prefix key :
  c = Nil ∨ slot x c → (wf c → delete_spec c) → hexk (x :: key) → (2 * length key + 2 ≤ fuel)%nat →
  ∃ d c', delete db fuel c prefix key = Ok (d, c') ∧
    (c' = Nil ∨ slot x c') ∧ deleted c c' key ∧ (d = false → ∀ v, ¬ has c key v).
Proof.
  intros Hc IH Hk Hf. destruct fuel as [|fuel]; [lia|].
  destruct Hc as [->|[[Hx Hwc]|[-> (v & Hne & ->)]]].
  - eexists _, _. split_and!; [done|by left| |].
    + intros k v. split; [|intros [_ H]]; [|done]. by intros ?%has_Nil.
    + by intros _ v ?%has_Nil.
  - apply hexk_cons in Hk as [[-> _]|[_ Hk]]; [unfold nibble in Hx; lia|].
    destruct (IH Hwc (S fuel) prefix key Hk) as (d & n' & Heq & Hwf & Hdel & _ & Hd).
    { pose proof (need_short c key). lia. }
    exists d, n'. split_and!; try done. destruct Hwf as [->|]; [by left|]. right. by left.
  - apply hexk_cons in Hk as [[_ ->]|[Hk _]]; [|unfold nibble in Hk; lia].
    eexists _, _. split_and!; [done|by left| |done].
    intros k w. rewrite has_value_iff. split; [by intros ?%has_Nil|]. by intros [? [-> _]].
Qed.

Lemma prefixLen_app p r : prefixLen (p ++ r) p = length p.
Proof. induction p as [|x p IH]; [by destruct r|]. cbn. by rewrite Z.eqb_refl, IH. Qed.

(** A branch still holds something after a deletion. *)
Lemma deleted_branch c n' a : wf c → branch c → deleted c n' a → n' ≠ Nil.
Proof.
  intros Hc Hbr Hdel. destruct (branch_two c Hc Hbr) as (x & y & k1 & k2 & v1 & v2 & Hxy & H1 & H2). intros ->.
  destruct (decide (a = x :: k1)) as [->|Ha].
  - apply (has_Nil (y :: k2) v2), Hdel. split; [congruence|done].
  - apply (has_Nil (x :: k1) v1), Hdel. by split.
Qed.

Lemma delete_short_ok k c f : below k c → k ≠ [] → (wf c → delete_spec c) → delete_spec (shortNode k c f).
Proof.
  intros Hbel Hkne IH fuel prefix key Hk Hf. unfold need in Hf.
  assert (wf (shortNode k c f)) as Hwf by (by apply below_short).
  destruct fuel as [|fuel]; [lia|]. cbn [delete].
  destruct (prefixLen_spec key k) as (p & a & b & Hkey & Hks & Hpl & Hd).
  destruct (Nat.ltb_spec (prefixLen key k) (length k)) as [Hlt|Hge].
  { eexists _, _. assert (∀ v, ¬ has (shortNode k c f) key v) as Hno.
    { intros v (k' & Hkk & _)%has_short_iff. rewrite Hkk, prefixLen_app in Hlt. lia. }
    split_and!; [done|by right|by apply deleted_noop|done..]. }
  assert (b = []) as -> by (destruct b; [done|]; rewrite <-Hpl in Hge; subst k; rewrite length_app in Hge; cbn in Hge; lia).
  rewrite app_nil_r in Hks. subst k. subst key. rewrite <-Hpl, length_app in *.
  destruct Hbel as [[Hp (v & Hne & ->)]|(Hp & Hc & Hbr)].
  - apply hexk_prefix_free in Hk as ->; [|done]. cbn [length]. rewrite Nat.add_0_r, Nat.eqb_refl, app_nil_r in *.
    eexists _, _. split_and!; [done|by left| |done..]. intros k w. rewrite has_short_iff.
    split; [by intros ?%has_Nil|]. intros [Hk' (k' & -> & [-> _]%has_value_iff)]. by rewrite app_nil_r in Hk'.
  - rewrite hexk_app in Hk by done. assert (1 ≤ length a)%nat by (destruct a; [by apply hexk_nil in Hk|cbn; lia]).
    rewrite (proj2 (Nat.eqb_neq _ _)) by lia. rewrite take_app_length, drop_app_length.
    destruct (IH Hc fuel (prefix ++ p) a Hk) as (d & n' & -> & Hwf' & Hdel & Hld & Hno).
    { pose proof (need_short c a). destruct p; [done|]. cbn in Hf. lia. }
    cbn [mbind res_bind]. destruct d.
    + assert (n' ≠ Nil) as Hnn by (by apply (deleted_branch c n' a)).
      destruct Hwf' as [|Hwf']; [done|]. specialize (Hld eq_refl).
      assert (∀ n'' k v, (∀ k v, has n'' k v ↔ ∃ k', k = p ++ k' ∧ has n' k' v) →
        has n'' k v ↔ k ≠ p ++ a ∧ has (shortNode p c f) k v) as Hdel'.
      { intros n'' k v ->. rewrite has_short_iff. unfold deleted in Hdel. setoid_rewrite Hdel. split.
        - intros (k' & -> & Hne & H'). split; [by intros ?%app_inv_head|eauto].
        - intros [Hne (k' & -> & H')]. exists k'. split_and!; [done|congruence|done]. }
      destruct n' as [| |k1 d1 f1|cs1 f1|]; try done; [by inversion Hwf'|..].
      * eexists _, _. split_and!; [done| | |done..].
        -- right. apply below_short in Hwf' as [Hk1 Hb]. apply below_short. split; [by destruct p|].
           destruct Hb as [[? ?]|(? & ? & ?)]; [left; by rewrite hexk_app|right; split; [by apply Forall_app|done]].
        -- intros k v. apply Hdel'. intros ? ?. rewrite has_short_iff. setoid_rewrite has_short_iff.
           split; [intros (? & -> & ?); eexists; rewrite <-app_assoc; eauto|].
           intros (? & -> & ? & -> & ?). eexists. by rewrite <-app_assoc.
      * eexists _, _. split_and!; [done| | |done..].
        -- right. by constructor.
        -- intros k v. apply Hdel'. intros ? ?. by rewrite has_short_iff.
    + assert (∀ v, ¬ has (shortNode p c f) (p ++ a) v) as Hno'.
      { intros v (k' & ->%app_inv_head & H')%has_short_iff. by apply (Hno eq_refl v). }
      eexists _, _. split_and!; [done|by right|by apply deleted_noop|done..].
Qed.

Lemma deleted_full cs f f' x c c' key :
  0 ≤ x → cs !! Z.to_nat x = Some c → deleted c c' key →
  deleted (fullNode cs f) (fullNode (<[Z.to_nat x := c']> cs) f') (x :: key).
Proof.
  unfold deleted. intros Hx Hc Hdel k v. rewrite has_set_child by (done || by eapply lookup_lt_Some).
  setoid_rewrite Hdel. split.
  - intros [(k' & -> & Hne & H')|[Hne H']].
    + split; [congruence|]. by apply (has_full_child _ _ _ c).
    + split; [apply Hne|]. apply has_full_iff in H'. by apply has_full_iff.
  - intros [Hne H']. destruct k as [|y k].
    { right. split; [done|]. apply has_full_iff in H'. by apply has_full_iff. }
    destruct (Z.eq_dec y x) as [->|Hyx].
    + left. exists k. rewrite has_full_child in H' by done. split_and!; [done|congruence|done].
    + right. split; [congruence|]. apply has_full_iff in H'. by apply has_full_iff.
Qed.

Lemma delete_ok n : wf n → delete_spec n.
Proof.
  induction 1 as [k v f Hk Hv|k c f Hk Hn Hc IH Hbr|cs f Hl Hc IH H16 H2|h n Hh Hld Hwn IH].
  - apply delete_short_ok; [left; eauto|by apply hexk_ne|by inversion 1].
  - apply delete_short_ok; [by right|done..].
  - intros fuel prefix key Hk Hf. unfold need in Hf. destruct fuel as [|fuel]; [lia|].
    assert (wf (fullNode cs f)) as Hwf by (by constructor).
    destruct key as [|x key]; [by apply hexk_nil in Hk|]. cbn [length] in Hf.
    destruct (full_child cs f x key Hwf Hk) as (c & Hx & Hcs & Hslot & Hch). cbn [delete].
    rewrite (go_index_ok (x :: key) 0 x) by done. cbn [mbind res_bind drop]. rewrite Hch, drop_0. cbn [mbind res_bind].
    destruct (delete_slot x c fuel (prefix ++ [x]) key) as (d & c' & -> & Hs & Hdel & Hd); try done; [|lia|].
    { intros Hwc. apply (IH (Z.to_nat x)); [|done|by apply wf_not_Nil].
      apply hexk_cons in Hk as [[-> ->]|[Hk _]]; [|unfold nibble in Hk; lia].
      destruct (H16 c Hcs) as (v & _ & ->); [by apply wf_not_Nil|by inversion Hwc]. }
    cbn [mbind res_bind]. destruct d.
    + rewrite (set_child_ok cs x c) by done. cbn [mbind res_bind].
      pose proof (lookup_lt_Some _ _ _ Hcs) as Hlt.
      assert (∀ f', deleted (fullNode cs f) (fullNode (<[Z.to_nat x := c']> cs) f') (x :: key)) as Hdel'
        by (intros; by eapply deleted_full).
      destruct Hs as [->|Hs].
      * destruct (reduce_ok (<[Z.to_nat x:=Nil]> cs) prefix f) as (n' & Hred & Hwf' & Hld & Hhas).
        { by rewrite length_insert. }
        { intros z d Hz Hd' Hdn. apply list_lookup_insert_Some in Hd' as [(_ & <- & _)|(_ & Hd')]; [done|].
          by apply (wf_full_slot cs f). }
        { intros Hall. destruct H2 as (i & j & ci & cj & Hij & Hi & Hj & Hni & Hnj).
          destruct (decide (i = Z.to_nat x)) as [->|Hix].
          - apply Hnj, (Hall j). by rewrite list_lookup_insert_ne.
          - apply Hni, (Hall i). by rewrite list_lookup_insert_ne. }
        cbn [is_nil negb]. rewrite Hred. cbn [mbind res_bind]. eexists _, _. split_and!; [done|by right| |done..].
        intros k v. rewrite Hhas. apply Hdel'.
      * pose proof (slot_not_Nil _ _ Hs) as Hnn. assert (is_nil c' = false) as -> by (by destruct c').
        eexists _, _. split_and!; [done|right; by eapply wf_set_child|apply Hdel'|done..].
    + assert (∀ v, ¬ has (fullNode cs f) (x :: key) v) as Hno.
      { intros v H'. rewrite has_full_child in H' by done. by apply (Hd eq_refl v). }
      eexists _, _. split_and!; [done|by right|by apply deleted_noop|done..].
  - intros fuel prefix key Hk Hf. destruct fuel as [|fuel]; [unfold need in Hf; lia|].
    destruct (IH fuel prefix key Hk) as (d & n' & Heq & Hwf' & Hdel & Hld' & Hd).
    { unfold need in *. destruct n; cbn in *; try done; lia. }
    cbn [delete]. unfold resolveHash. rewrite Hh. cbn [mbind res_bind]. rewrite Heq. cbn [mbind res_bind].
    assert (∀ k v, has (hashNode h) k v ↔ has n k v) as Hhas by (intros; by apply has_hash_iff).
    destruct d; (eexists _, _; split_and!; [done|..]); try done.
    + intros k v. rewrite Hhas. apply Hdel.
    + by right.
    + intros k v. rewrite Hhas. apply deleted_noop. auto.
    + intros _ v. rewrite Hhas. auto.
Qed.

(** ** Canonical shape *)

(** Equal after loading every hash, up to the cached flags. *)
Inductive same : node → node → Prop :=
| same_nil : same Nil Nil
| same_value v : same (valueNode v) (valueNode v)
| same_short k c c' f f' : same c c' → same (shortNode k c f) (shortNode k c' f')
| same_full cs cs' f f' :
    length cs = length cs' →
    (∀ i c c', cs !! i = Some c → cs' !! i = Some c' → same c c') →
    same (fullNode cs f) (fullNode cs' f')
| same_hash_l h n n' : db (BytesToHash h) = Some n → same n n' → same (hashNode h) n'
| same_hash_r h n n' : db (BytesToHash h) = Some n' → same n n' → same n (hashNode h).

Definition same_has (n n' : node) : Prop := ∀ k v, has n k v ↔ has n' k v.

(** The key of a short node is the longest common prefix of the keys below it. *)
Lemma ext_prefix k c k' n :
  wf c → branch c → (∀ r v, has c r v → ∃ r', k ++ r = k' ++ r' ∧ has n r' v) → ∃ q, k = k' ++ q.
Proof.
  intros Hc Hbr Hsub. destruct (branch_two c Hc Hbr) as (x & y & k1 & k2 & v1 & v2 & Hxy & H1 & H2).
  apply Hsub in H1 as (r1 & E1 & _), H2 as (r2 & E2 & _).
  clear Hsub. revert k' E1 E2. induction k as [|z k IH]; intros [|z' k'] E1 E2; cbn in *.
  - by exists [].
  - congruence.
  - by eexists.
  - injection E1 as -> E1. injection E2 as E2. destruct (IH k' E1 E2) as [q ->]. by exists q.
Qed.

Lemma wf_two_not_leaf n k : wf n → branch n → ¬ ∃ p v0, ∀ k' v, has n k' v → p ++ k' = k ∧ v = v0.
Proof.
  intros Hwf Hbr (p & v0 & H). destruct (branch_two n Hwf Hbr) as (x & y & k1 & k2 & v1 & v2 & Hxy & H1 & H2).
  apply H in H1 as [E1 _], H2 as [E2 _]. rewrite <-E2 in E1. apply app_inv_head in E1. congruence.
Qed.

(** A loaded node that is not a branch has one first element in all its keys. *)
Lemma short_not_branch k c f n : k ≠ [] → wf n → branch n → ¬ same_has (shortNode k c f) n.
Proof.
  intros Hk Hwf Hbr H. destruct (branch_two n Hwf Hbr) as (x & y & k1 & k2 & v1 & v2 & Hxy & H1 & H2).
  apply H, has_short_iff in H1 as (r1 & E1 & _). apply H, has_short_iff in H2 as (r2 & E2 & _).
  destruct k as [|z k]; [done|]. cbn in *. congruence.
Qed.

(** The cases of a loaded right-hand side. *)
Lemma same_loaded n : wf n →
  (∀ n', wf n' → loaded n' → same_has n n' → same n n') → ∀ n', wf n' → same_has n n' → same n n'.
Proof.
  intros _ H n' Hwf Hs. destruct n' as [| | | |h]; try by apply H.
  inversion Hwf as [| | |? m Hh Hld Hm]; subst. eapply same_hash_r; [done|]. apply H; [done..|].
  intros k v. by rewrite (Hs k v), (has_hash_iff h m).
Qed.

Lemma wf_same n : wf n → ∀ n', wf n' → same_has n n' → same n n'.
Proof.
  induction 1 as [k v f Hk Hv|k c f Hk Hn Hc IH Hbr|cs f Hl Hc IH H16 H2|h n Hh Hld Hwn IH].
  - apply same_loaded; [by constructor|]. intros n' Hwf Hld Hs.
    assert (∀ k' w, has n' k' w → k' = k ∧ w = v) as Honly.
    { intros k' w H%Hs. apply has_short_iff in H as (? & -> & [-> ->]%has_value_iff). by rewrite app_nil_r. }
    inversion Hwf as [k' w f' Hk' Hw|k' c f' Hk' Hn' Hc Hbr|cs f' ? ? ? ?|]; subst; [| | |done].
    + destruct (Honly (k' ++ []) w) as [E ->]; [by repeat constructor|]. rewrite app_nil_r in E. subst.
      do 2 constructor.
    + destruct (wf_two_not_leaf c k Hc Hbr). exists k', v. intros r w H. apply Honly. by constructor.
    + destruct (wf_two_not_leaf _ k Hwf I). by exists [], v.
  - apply same_loaded; [by constructor|]. intros n' Hwf Hld Hs.
    inversion Hwf as [k' w f' Hk' Hw|k' c' f' Hk' Hn' Hc' Hbr'|cs f' ? ? ? ?|]; subst; [| | |done].
    + destruct (wf_two_not_leaf c k' Hc Hbr). exists k, w. intros r u H.
      assert (has (shortNode k c f) (k ++ r) u) as H'%Hs by (by constructor).
      apply has_short_iff in H' as (? & -> & [-> ->]%has_value_iff). by rewrite app_nil_r.
    + destruct (ext_prefix k c k' c' Hc Hbr) as [q Hq].
      { intros r u H. assert (has (shortNode k c f) (k ++ r) u) as H'%Hs by (by constructor).
        by apply has_short_iff in H'. }
      destruct (ext_prefix k' c' k c Hc' Hbr') as [q' Hq'].
      { intros r u H. assert (has (shortNode k' c' f') (k' ++ r) u) as H'%Hs by (by constructor).
        by apply has_short_iff in H'. }
      assert (q = []) as ->.
      { rewrite Hq' in Hq. apply (f_equal length) in Hq. rewrite !length_app in Hq. destruct q; [done|cbn in Hq; lia]. }
      rewrite app_nil_r in Hq. subst k'. constructor. apply IH; [done|]. intros r u.
      pose proof (Hs (k ++ r) u) as H. rewrite !has_short_iff in H.
      split; intros H'; [destruct (proj1 H) as (? & ->%app_inv_head & ?)|destruct (proj2 H) as (? & ->%app_inv_head & ?)]; eauto.
    + by destruct (short_not_branch k c f (fullNode cs f') Hk Hwf I).
  - assert (wf (fullNode cs f)) as Hwfn by (by constructor).
    apply same_loaded; [done|]. intros n' Hwf Hld Hs.
    assert (same_has n' (fullNode cs f)) as Hs' by (intros ? ?; by rewrite (Hs _ _)).
    inversion Hwf as [k' w f' Hk' Hw|k' c' f' Hk' Hn' Hc' Hbr'|cs' f' Hl' Hc' H16' H2'|]; subst; [| | |done].
    + apply hexk_ne in Hk'. by destruct (short_not_branch k' (valueNode w) f' (fullNode cs f)).
    + by destruct (short_not_branch k' c' f' (fullNode cs f)).
    + constructor; [congruence|]. intros i c c' Hi Hi'.
      assert (same_has c c') as Hcc.
      { intros k v. rewrite <-(has_full_child cs f (Z.of_nat i) c), <-(has_full_child cs' f' (Z.of_nat i) c');
          [apply Hs|lia|by rewrite Nat2Z.id|lia|by rewrite Nat2Z.id]. }
      assert (∀ d ds f, wf (fullNode ds f) → ds !! i = Some d → d ≠ Nil → slot (Z.of_nat i) d) as Hslot.
      { intros d ds f0 Hd Hdi Hdn. apply (wf_full_slot ds f0); [done|lia|by rewrite Nat2Z.id|done]. }
      destruct (decide (is_nil c = true)) as [Hcn|Hcn]; destruct (decide (is_nil c' = true)) as [Hcn'|Hcn'].
      * destruct c, c'; try done. constructor.
      * destruct c; try done. destruct (slot_inhabited (Z.of_nat i) c') as (k & v & H%Hcc); [|by apply has_Nil in H].
        apply (Hslot c' cs' f'); [done..|]. by intros ->.
      * destruct c'; try done. destruct (slot_inhabited (Z.of_nat i) c) as (k & v & H%Hcc); [|by apply has_Nil in H].
        apply (Hslot c cs f); [done..|]. by intros ->.
      * destruct (Hslot c cs f) as [[Hn Hwc]|[Hi16 (v & _ & ->)]]; [done..|by intros ->| |].
        -- destruct (Hslot c' cs' f') as [[_ Hwc']|[Hi16 _]]; [done..|by intros ->| |unfold nibble in Hn; lia].
           apply (IH i); [unfold nibble in Hn; lia|done|by apply wf_not_Nil|done..].
        -- destruct (Hslot c' cs' f') as [[Hn' _]|[_ (v' & _ & ->)]]; [done..|by intros ->|unfold nibble in Hn'; lia|].
           assert (has (valueNode v') [] v) as [_ ->]%has_value_iff by (apply Hcc; constructor). constructor.
  - intros n' Hwf Hs. eapply same_hash_l; [done|]. apply IH; [done|]. intros k v.
    by rewrite <-(Hs k v), (has_hash_iff h n).
Qed.
End spec.

(** ** The trie as a finite map *)

(** [denotes db n m]: the trie with root node [n] holds the map [m]. *)
Definition denotes (db : bytes → option node) (n : node) (m : gmap bytes bytes) : Prop :=
  (n = Nil ∨ wf db n) ∧
  ∀ k v, has db n k v ↔ ∃ key, k = keybytesToHex key ∧ bytes_ok key ∧ m !! key = Some v.

Lemma keybytesToHex_inj a b : bytes_ok a → bytes_ok b → keybytesToHex a = keybytesToHex b → a = b.
Proof.
  intros Ha Hb H. apply app_inv_tail in H. rewrite <-(pack_nibbles_of a), <-(pack_nibbles_of b) by done. congruence.
Qed.

Lemma denotes_lookup db n m key v :
  denotes db n m → bytes_ok key → has db n (keybytesToHex key) v ↔ m !! key = Some v.
Proof.
  intros [_ Hd] Hk. rewrite Hd. split; [|eauto]. intros (key' & Heq & Hk' & Hm).
  by apply keybytesToHex_inj in Heq as ->.
Qed.

Lemma denotes_insert db n n' m key value :
  denotes db n m → bytes_ok key → wf db n' → inserted db n n' (keybytesToHex key) value →
  denotes db n' (<[key := value]> m).
Proof.
  intros [_ Hd] Hk Hwf Hins. split; [by right|]. intros k v. rewrite (Hins k v), Hd. split.
  - intros [[-> ->]|[Hne (key' & -> & Hk' & Hm)]].
    + exists key. by rewrite lookup_insert_eq.
    + exists key'. rewrite lookup_insert_ne; [done|]. congruence.
  - intros (key' & -> & Hk' & Hm). destruct (decide (key' = key)) as [->|Hne].
    + left. rewrite lookup_insert_eq in Hm. by injection Hm as ->.
    + right. rewrite lookup_insert_ne in Hm by done. split; [|eauto]. by intros ?%keybytesToHex_inj.
Qed.

Lemma denotes_delete db n n' m key :
  denotes db n m → bytes_ok key → n' = Nil ∨ wf db n' → deleted db n n' (keybytesToHex key) →
  denotes db n' (base.delete key m).
Proof.
  intros [_ Hd] Hk Hwf Hdel. split; [done|]. intros k v. rewrite (Hdel k v), Hd. split.
  - intros [Hne (key' & -> & Hk' & Hm)]. exists key'. rewrite lookup_delete_ne; [done|]. congruence.
  - intros (key' & -> & Hk' & [Hne Hm]%lookup_delete_Some). split; [|eauto].
    intros ?%keybytesToHex_inj; [|done..]. congruence.
Qed.

Lemma walk_fuel_need n k : (need n k ≤ walk_fuel k)%nat.
Proof. apply need_short. Qed.

(** The empty trie. *)
Lemma denotes_empty db : denotes db Nil ∅.
Proof.
  split; [by left|]. intros k v. split; [by intros ?%has_Nil|].
  intros (? & _ & _ & Hm). by rewrite lookup_empty in Hm.
Qed.

Lemma TryGet_ok db t m key :
  denotes db (root t) m → bytes_ok key →
  ∃ t', TryGet db key t = (t', Ok (m !! key)) ∧ denotes db (root t') m ∧ unhashed t' = unhashed t.
Proof.
  intros Hd Hk. pose proof (λ v, denotes_lookup db _ m key v Hd Hk) as Hl. unfold TryGet.
  destruct Hd as [[Hn|Hwf] Hd].
  - assert (m !! key = None) as ->.
    { apply eq_None_not_Some. intros [v Hv%Hl]. rewrite Hn in Hv. by apply has_Nil in Hv. }
    assert (walk_fuel (keybytesToHex key) = S (2 * length (keybytesToHex key) + 1)) as -> by (unfold walk_fuel; lia).
    rewrite Hn. cbn [tryGet]. exists t. split_and!; [done| |done]. split; [by left|done].
  - destruct (tryGet_ok db (root t) Hwf (walk_fuel (keybytesToHex key)) [] (keybytesToHex key))
      as (value & n' & d & Heq & Hval & (Hwf' & Hhas & _) & Hdn); [by apply hexk_keybytes|apply walk_fuel_need|].
    cbn [app length] in Heq. rewrite Heq.
    assert (value = m !! key) as ->.
    { destruct (m !! key) as [v|] eqn:Hm; [by apply Hval, Hl|].
      destruct value as [v|]; [|done]. assert (Some v = Some v) as Hv%Hval%Hl by done. congruence. }
    exists (if d then mk_Trie n' (unhashed t) else t). split_and!; [done| |by destruct d].
    destruct d; (split; [by right|]); [|done]. intros k v. cbn [root]. by rewrite Hhas, Hd.
Qed.

(** [TryGet] returns what the map holds, without error or panic, and the
    trie it leaves behind, with the nodes it loaded, holds the same map. *)
Theorem TryGet_denotes db t m key :
  denotes db (root t) m → bytes_ok key →
  ∃ t', TryGet db key t = (t', Ok (m !! key)) ∧ denotes db (root t') m ∧ unhashed t' = unhashed t.
Proof. apply TryGet_ok. Qed.

Lemma TryDelete_ok db t m key :
  denotes db (root t) m → bytes_ok key →
  ∃ t', TryDelete db key t = (t', Ok tt) ∧ denotes db (root t') (base.delete key m) ∧
    unhashed t' = unhashed t + 1.
Proof.
  intros Hd Hk. unfold TryDelete. cbn [root unhashed]. pose proof Hd as [[Hn|Hwf] _].
  - assert (walk_fuel (keybytesToHex key) = S (2 * length (keybytesToHex key) + 1)) as -> by (unfold walk_fuel; lia).
    rewrite Hn in *. cbn [delete]. eexists. split_and!; [done| |done].
    apply (denotes_delete db Nil); [done..|by left|]. apply deleted_noop. by intros v ?%has_Nil.
  - destruct (delete_ok db _ Hwf (walk_fuel (keybytesToHex key)) [] (keybytesToHex key))
      as (d & n' & -> & Hwf' & Hdel & _); [by apply hexk_keybytes|apply walk_fuel_need|].
    eexists. split_and!; [done| |done]. by eapply denotes_delete.
Qed.

Lemma insert_denotes db n m key value :
  denotes db n m → bytes_ok key → value ≠ [] →
  ∃ d n', insert db (walk_fuel (keybytesToHex key)) n [] (keybytesToHex key) (valueNode value) = Ok (d, n') ∧
    denotes db n' (<[key := value]> m).
Proof.
  intros Hd Hk Hv. assert (hexk (keybytesToHex key)) as Hhex by (by apply hexk_keybytes).
  pose proof Hd as [[->|Hwf] _].
  - rewrite insert_Nil by (unfold walk_fuel; lia). eexists _, _. split; [done|].
    assert (mk_short (keybytesToHex key) (valueNode value) = shortNode (keybytesToHex key) (valueNode value) newFlag) as ->.
    { apply hexk_ne in Hhex. by destruct (keybytesToHex key). }
    eapply denotes_insert; [done|done|by constructor|]. intros k v. rewrite has_short_iff. split.
    + intros (k' & -> & [-> ->]%has_value_iff). left. by rewrite app_nil_r.
    + intros [[-> ->]|[_ ?%has_Nil]]; [|done]. exists []. rewrite app_nil_r. by split; [|constructor].
  - destruct (insert_ok db n Hwf (walk_fuel (keybytesToHex key)) [] (keybytesToHex key) value)
      as (d & n' & -> & Hwf' & Hins & _); [done..|apply walk_fuel_need|].
    eexists _, _. split; [done|]. by eapply denotes_insert.
Qed.

Lemma TryUpdate_ok db t m key value :
  denotes db (root t) m → bytes_ok key →
  ∃ t', TryUpdate db key value t = (t', Ok tt) ∧
    denotes db (root t') (if bool_decide (value ≠ []) then <[key := value]> m else base.delete key m) ∧
    unhashed t' = unhashed t + 1.
Proof.
  intros Hd Hk. unfold TryUpdate. case_bool_decide as Hv; [|by apply TryDelete_ok].
  cbn [root unhashed]. destruct (insert_denotes db (root t) m key value Hd Hk Hv) as (d & n' & -> & Hd').
  by eexists.
Qed.

(** [TryUpdate] refines the update of the map: a non-empty value is stored
    under the key, an empty one removes the key, no other key changes, and the
    call neither fails nor panics on a trie whose nodes are in the database. *)
Theorem TryUpdate_denotes db t m key value :
  denotes db (root t) m → bytes_ok key →
  ∃ t', TryUpdate db key value t = (t', Ok tt) ∧
    denotes db (root t') (if bool_decide (value ≠ []) then <[key := value]> m else base.delete key m) ∧
    unhashed t' = unhashed t + 1.
Proof. apply TryUpdate_ok. Qed.

(** [TryDelete] removes the key from the map and nothing else; it neither
    fails nor panics on a trie whose nodes are in the database. *)
Theorem TryDelete_denotes db t m key :
  denotes db (root t) m → bytes_ok key →
  ∃ t', TryDelete db key t = (t', Ok tt) ∧ denotes db (root t') (base.delete key m) ∧
    unhashed t' = unhashed t + 1.
Proof. apply TryDelete_ok. Qed.

Lemma denotes_same db n n' m : denotes db n m → denotes db n' m → same db n n'.
Proof.
  intros [Hn Hd] [Hn' Hd']. assert (∀ k v, has db n k v ↔ has db n' k v) as Hs by (intros; by rewrite Hd, Hd').
  destruct Hn as [->|Hwf], Hn' as [->|Hwf'].
  - constructor.
  - apply wf_inhabited in Hwf' as (k & v & H%Hs). by apply has_Nil in H.
  - apply wf_inhabited in Hwf as (k & v & H%Hs). by apply has_Nil in H.
  - by apply wf_same.
Qed.

(** The map after a sequence of updates. *)
Definition map_update (m : gmap bytes bytes) (kv : bytes * bytes) : gmap bytes bytes :=
  if bool_decide (kv.2 ≠ []) then <[kv.1 := kv.2]> m else base.delete kv.1 m.

(** A sequence of [TryUpdate] calls. *)
Fixpoint updates (db : bytes → option node) (ops : list (bytes * bytes)) : st Trie trie_err unit :=
  match ops with
  | [] => mret tt
  | (key, value) :: ops => TryUpdate db key value ≫= λ _, updates db ops
  end.

Lemma updates_ok db ops : ∀ t m,
  denotes db (root t) m → Forall (λ kv, bytes_ok kv.1) ops →
  ∃ t', updates db ops t = (t', Ok tt) ∧ denotes db (root t') (foldl map_update m ops).
Proof.
  induction ops as [|[key value] ops IH]; intros t m Hd Hok; [by eexists|].
  apply Forall_cons_iff in Hok as [Hk Hok]. cbn [fst] in Hk.
  destruct (TryUpdate_ok db t m key value Hd Hk) as (t1 & Heq & Hd1 & _).
  destruct (IH t1 _ Hd1 Hok) as (t2 & Heq2 & Hd2). exists t2. split; [|done].
  cbn [updates mbind]. unfold mbind, st_bind. by rewrite Heq.
Qed.

(** History independence: two sequences of updates that lead to the same
    map, from tries that may be partly loaded, lead to tries of the same shape
    and keys once loaded, so that the root hash is a function of the contents. *)
Theorem updates_canonical db ops ops' t t' m m' t1 t1' :
  denotes db (root t) m → denotes db (root t') m' →
  Forall (λ kv, bytes_ok kv.1) ops → Forall (λ kv, bytes_ok kv.1) ops' →
  foldl map_update m ops = foldl map_update m' ops' →
  updates db ops t = (t1, Ok tt) → updates db ops' t' = (t1', Ok tt) →
  same db (root t1) (root t1').
Proof.
  intros Hd Hd' Hok Hok' Heq H1 H1'.
  destruct (updates_ok db ops t m Hd Hok) as (? & Hu & Hm), (updates_ok db ops' t' m' Hd' Hok') as (? & Hu' & Hm').
  rewrite H1 in Hu. rewrite H1' in Hu'. injection Hu as <-. injection Hu' as <-. rewrite Heq in Hm.
  by eapply denotes_same.
Qed.

(** ** Errors *)

(** The only error is a missing node, and it names a hash the database lacks. *)
Definition missing (db : bytes → option node) (e : trie_err) : Prop :=
  match e with MissingNodeError h _ => db h = None end.

Lemma resolveHash_missing db h p e : resolveHash db h p = Err e → missing db e.
Proof. unfold resolveHash. destruct (db _) eqn:H; [done|]. by intros [= <-]. Qed.

Lemma resolve_missing db n p e : resolve db n p = Err e → missing db e.
Proof. destruct n; try done. apply resolveHash_missing. Qed.

Lemma go_index_no_err {E A} (l : list A) i (e : E) : go_index l i ≠ Err e.
Proof. unfold go_index. destruct (decide _); [by destruct (l !! _)|done]. Qed.
Lemma go_set_no_err {E A} (l : list A) i x (e : E) : go_set l i x ≠ Err e.
Proof. unfold go_set. by destruct (decide _). Qed.

(** Split the outcome of the first computation of a bind. *)
Ltac split_bind H :=
  let E := fresh "E" in
  match type of H with
  | mbind _ ?m = _ => destruct m as [?|?| |] eqn:E; cbn [mbind res_bind] in H; try discriminate H
  end.

Lemma insert_missing db fuel : ∀ n prefix key value e, insert db fuel n prefix key value = Err e → missing db e.
Proof.
  induction fuel as [|fuel IH]; intros n prefix key value e H; [done|]. cbn [insert] in H.
  destruct key as [|x key]; [by destruct n, value|]. destruct n as [| |k c f|cs f|h]; try done.
  - destruct (_ =? _)%nat.
    + split_bind H; [|by injection H as <-; eauto]. by destruct a as [[] ?].
    + split_bind H; [|by apply go_index_no_err in E]. split_bind H; [|by injection H as <-; eauto].
      destruct a0 as [? c1]. split_bind H; [|by apply go_set_no_err in E1].
      split_bind H; [|by apply go_index_no_err in E2]. split_bind H; [|by injection H as <-; eauto].
      destruct a2 as [? c2]. split_bind H; [|by apply go_set_no_err in E4]. by destruct (_ =? _)%nat.
  - split_bind H; [|by apply go_index_no_err in E]. split_bind H; [|by injection H as <-; eauto].
    destruct a0 as [[] nn]; [|done]. split_bind H. by apply go_set_no_err in E1.
  - split_bind H; [|injection H as <-; by eapply resolveHash_missing].
    split_bind H; [|by injection H as <-; eauto]. by destruct a0 as [[] ?].
Qed.

Lemma delete_missing db fuel : ∀ n prefix key e, delete db fuel n prefix key = Err e → missing db e.
Proof.
  induction fuel as [|fuel IH]; intros n prefix key e H; [done|]. cbn [delete] in H.
  destruct n as [| |k c f|cs f|h]; try done.
  - destruct (_ <? _)%nat; [done|]. destruct (_ =? _)%nat; [done|].
    split_bind H; [|by injection H as <-; eauto]. by destruct a as [[] []].
  - split_bind H; [|by apply go_index_no_err in E]. split_bind H; [|by apply go_index_no_err in E0].
    split_bind H; [|by injection H as <-; eauto]. destruct a1 as [[] nn]; [|done].
    split_bind H; [|by apply go_set_no_err in E2]. destruct (negb _); [done|]. split_bind H.
    injection H as <-. clear -E3. unfold reduce in E3. destruct (0 <=? _); [|done].
    split_bind E3; [|by apply go_index_no_err in E]. destruct (_ =? 16); [done|].
    split_bind E3; [by destruct a0|]. injection E3 as <-. by eapply resolve_missing.
  - split_bind H; [|injection H as <-; by eapply resolveHash_missing].
    split_bind H; [|by injection H as <-; eauto]. by destruct a0 as [[] ?].
Qed.

Lemma tryGet_missing db fuel : ∀ n key pos e, tryGet db fuel n key pos = Err e → missing db e.
Proof.
  induction fuel as [|fuel IH]; intros n key pos e H; [done|]. cbn [tryGet] in H.
  destruct n as [| |k c f|cs f|h]; try done.
  - destruct (_ || _); [done|]. split_bind H; [|by injection H as <-; eauto]. by destruct a as [[? ?] []].
  - split_bind H; [|by apply go_index_no_err in E]. split_bind H; [|by apply go_index_no_err in E0].
    split_bind H; [|by injection H as <-; eauto]. destruct a1 as [[? ?] []]; [|done].
    split_bind H. by apply go_set_no_err in E2.
  - split_bind H; [|injection H as <-; by eapply resolveHash_missing].
    split_bind H; [|by injection H as <-; eauto]. by destruct a0 as [[? ?] ?].
Qed.

(** An operation fails only because a node is missing: the error names a
    hash that is not in the database, and the root of the trie is unchanged, so
    the operation can be repeated once the node is there.  This holds for every
    trie, also one that is not well-formed. *)
Theorem missing_node_error db t t' e key value :
  TryUpdate db key value t = (t', Err e) ∨ TryDelete db key t = (t', Err e) ∨
    TryGet db key t = (t', Err e) →
  missing db e ∧ root t' = root t.
Proof.
  assert (TryDelete db key t = (t', Err e) → missing db e ∧ root t' = root t) as Hdel.
  { unfold TryDelete. destruct (delete _ _ _ _ _) as [[? ?]|e'| |] eqn:E; try done.
    intros [= <- <-]. split; [by eapply delete_missing|done]. }
  intros [H|[H|H]]; [|by apply Hdel|].
  - unfold TryUpdate in H. case_bool_decide; [|by apply Hdel].
    destruct (insert _ _ _ _ _ _) as [[? ?]|e'| |] eqn:E; try done.
    injection H as <- <-. split; [by eapply insert_missing|done].
  - unfold TryGet in H. destruct (tryGet _ _ _ _ _) as [[[? ?] ?]|e'| |] eqn:E; try done.
    injection H as <- <-. split; [by eapply tryGet_missing|done].
Qed.

(** ** Witnesses

    A trie whose root is still a hash, and the database that holds the node. *)
Definition ex_hash : bytes := replicate 32 7.
Definition ex_leaf : node := shortNode (keybytesToHex [0x12; 0x34]) (valueNode [1]) (mk_nodeFlag (Some ex_hash) false).
Definition ex_db : bytes → option node := λ h, if bool_decide (h = ex_hash) then Some ex_leaf else None.
Definition ex_trie : Trie := mk_Trie (hashNode ex_hash) 0.

Definition ex_map : gmap bytes bytes := {[ [0x12; 0x34] := [1] ]}.

Lemma ex_denotes : denotes ex_db (root ex_trie) ex_map.
Proof.
  assert (bytes_ok [0x12; 0x34]) as Hok by (repeat constructor; done).
  assert (wf ex_db ex_leaf) as Hwf by (constructor; [by apply hexk_keybytes|done]).
  change (root ex_trie) with (hashNode ex_hash). split; [right; by apply (wf_hash _ _ ex_leaf)|]. intros k v. rewrite (has_hash_iff _ _ ex_leaf) by done.
  unfold ex_leaf, ex_map. rewrite has_short_iff. split.
  - intros (k' & -> & [-> ->]%has_value_iff). exists [0x12; 0x34]. by rewrite app_nil_r, lookup_singleton_eq.
  - intros (key & -> & _ & [<- <-]%lookup_singleton_Some). exists []. rewrite app_nil_r. by split; [|constructor].
Qed.

Lemma TryGet_denotes_witness :
  ∃ t', TryGet ex_db [0x12; 0x34] ex_trie = (t', Ok (ex_map !! [0x12; 0x34])) ∧
    denotes ex_db (root t') ex_map ∧ unhashed t' = 0.
Proof. apply (TryGet_denotes ex_db ex_trie); [apply ex_denotes|repeat constructor; done]. Defined.

Lemma TryUpdate_denotes_witness :
  ∃ t', TryUpdate ex_db [0x12; 0x35] [2] ex_trie = (t', Ok tt) ∧
    denotes ex_db (root t') (if bool_decide ([2] ≠ []) then <[ [0x12; 0x35] := [2] ]> ex_map
      else base.delete [0x12; 0x35] ex_map) ∧ unhashed t' = 1.
Proof. apply (TryUpdate_denotes ex_db ex_trie); [apply ex_denotes|repeat constructor; done]. Defined.

Lemma TryDelete_denotes_witness :
  ∃ t', TryDelete ex_db [0x12; 0x34] ex_trie = (t', Ok tt) ∧
    denotes ex_db (root t') (base.delete [0x12; 0x34] ex_map) ∧ unhashed t' = 1.
Proof. apply (TryDelete_denotes ex_db ex_trie); [apply ex_denotes|repeat constructor; done]. Defined.

Lemma missing_node_error_witness :
  missing no_db (MissingNodeError ex_hash []) ∧ root (mk_Trie (hashNode ex_hash) 1) = hashNode ex_hash.
Proof.
  apply (missing_node_error no_db ex_trie (mk_Trie (hashNode ex_hash) 1) (MissingNodeError ex_hash []) [0x12] [1]).
  left. vm_compute. reflexivity.
Defined.

(** Two orders of the same updates, one with a detour. *)
Definition ex_ops : list (bytes * bytes) := [([0x12; 0x35], [2]); ([0x12], [3]); ([0xff], [4])].
Definition ex_ops' : list (bytes * bytes) :=
  [([0xff], [4]); ([0x77; 0x01], [9]); ([0x12], [3]); ([0x77; 0x01], []); ([0x12; 0x35], [2])].

Lemma updates_canonical_witness :
  same ex_db (root (fst (updates ex_db ex_ops ex_trie))) (root (fst (updates ex_db ex_ops' ex_trie))).
Proof.
  apply (updates_canonical ex_db ex_ops ex_ops' ex_trie ex_trie ex_map ex_map).
  - apply ex_denotes.
  - apply ex_denotes.
  - repeat constructor; done.
  - repeat constructor; done.
  - vm_compute. reflexivity.
  - vm_compute. reflexivity.
  - vm_compute. reflexivity.
Defined.
