(* ===== verification/TrieHash.v ===== *)
(** * Hashing a trie (src/geth/trie/hasher.go, Hash of trie.go, HashCache of database.go)

    The hasher replaces nodes by the hash of their RLP encoding, caches hashes in the
    nodes and, when the trie has a database, the nodes in its cache of dirty hashes.
    Keccak is the parameter [keccak256].  The sixteen goroutines that hash the children
    of a large trie write to disjoint slots and are modelled by their sequential
    counterpart.  The theorems relate hashing to the encoding [blob] of the protocol,
    which knows neither caches nor the database. *)
From stdpp Require Import gmap.
From S2P Require Import Prelude TrieEncoding RlpBase RlpEncode Trie.

(** ** The hasher *)

Abbreviation HashCache := (gmap bytes node).
(** [h.dirties], which may be nil. *)
Abbreviation H := (st (option HashCache) trie_err).

Definition cache_Put (key : bytes) (value : node) : H unit := st_modify (fmap <[BytesToHash key := value]>).
Definition cache_Contains (key : bytes) (c : HashCache) : bool := bool_decide (is_Some (c !! BytesToHash key)).

(** [n.cache()]. *)
Definition node_flags (n : node) : nodeFlag :=
  match n with shortNode _ _ f | fullNode _ f => f | _ => mk_nodeFlag None true end.
Definition set_hash (h : option bytes) (n : node) : node :=
  match n with
  | shortNode k v f => shortNode k v (mk_nodeFlag h (flag_dirty f))
  | fullNode cs f => fullNode cs (mk_nodeFlag h (flag_dirty f))
  | _ => n
  end.

(** A node as the value that rlp encodes; [EncodeRLP] of a full node writes an array
    in which nil children are empty strings. *)
Fixpoint node_gval (n : node) : gval :=
  match n with
  | Nil => VInterface None
  | valueNode v => VBytes v
  | hashNode h => VBytes h
  | shortNode k v _ => VStruct [(false, false, VBytes k); (false, false, node_gval v)]
  | fullNode cs _ => VSlice false (map (λ c, match c with Nil => VBytes [] | _ => node_gval c end) cs)
  end.
(** Writing to the buffer of the hasher; an error is a panic. *)
Definition encode_node {E} (n : node) : res E bytes :=
  match EncodeToBytes (node_gval n) with Ok b => Ok b | OutOfFuel => OutOfFuel | _ => Panic (raised "encode error") end.

Section hasher.
Context (keccak256 : bytes → bytes).

Definition hashData (data : bytes) : bytes := keccak256 data.

(** [shortnodeToHash] and [fullnodeToHash]. *)
Definition nodeToHash (n : node) (force : bool) : H node :=
  b ← st_lift (encode_node n);
  if (len b <? 32) && negb force then mret n else mret (hashNode (hashData b)).

(** The end of both cases of [hash]. *)
Definition hash_finish (collapsed cached : node) (force : bool) : H (node * node) :=
  hashed ← nodeToHash collapsed force;
  match hashed with
  | hashNode hn =>
      let cached := set_hash (Some hn) cached in
      dirties ← st_get;
      _ ← (if flag_dirty (node_flags cached) && bool_decide (is_Some dirties) then cache_Put hn cached else mret tt);
      mret (hashed, cached)
  | _ => mret (hashed, set_hash None cached)
  end.

(** The loop over the first [n] children. *)
Definition hash_children (rec : node → H (node * node)) : nat → list node → H (list node * list node) :=
  fix go (n : nat) (cs : list node) : H (list node * list node) :=
    match n, cs with
    | S n, c :: cs =>
        '(hc, cc) ← (if is_nil c then mret (valueNode [], Nil) else rec c);
        '(hs, ccs) ← go n cs;
        mret (hc :: hs, cc :: ccs)
    | _, _ => mret (cs, cs)
    end.
Definition hashShortNodeChildren (rec : node → H (node * node)) (k : bytes) (v : node) (f : nodeFlag) : H (node * node) :=
  key ← st_lift (hexToCompact k);
  '(hv, cv) ← match v with shortNode _ _ _ | fullNode _ _ => rec v | _ => mret (v, v) end;
  mret (shortNode key hv f, shortNode k cv f).
Definition hashFullNodeChildren (rec : node → H (node * node)) (cs : list node) (f : nodeFlag) : H (node * node) :=
  '(hs, ccs) ← hash_children rec 16 cs;
  mret (fullNode hs f, fullNode ccs f).

Fixpoint hash (n : node) (force : bool) : H (node * node) :=
  match flag_hash (node_flags n) with
  | Some h =>
      dirties ← st_get;
      _ ← match dirties with
          | Some c => if negb (cache_Contains h c) then cache_Put h n else mret tt
          | None => mret tt
          end;
      mret (hashNode h, n)
  | None =>
      match n with
      | shortNode k v f => '(collapsed, cached) ← hashShortNodeChildren (λ c, hash c false) k v f; hash_finish collapsed cached force
      | fullNode cs f => '(collapsed, cached) ← hashFullNodeChildren (λ c, hash c false) cs f; hash_finish collapsed cached force
      | _ => mret (n, n)
      end
  end.

(** [proofHash]: the collapsed node and its hash. *)
Definition proofHash (n : node) : H (node * node) :=
  match n with
  | shortNode k v f => '(sn, _) ← hashShortNodeChildren (λ c, hash c false) k v f; h ← nodeToHash sn false; mret (sn, h)
  | fullNode cs f => '(fn, _) ← hashFullNodeChildren (λ c, hash c false) cs f; h ← nodeToHash fn false; mret (fn, h)
  | _ => mret (n, n)
  end.

Definition emptyRoot : bytes := be_bytes 32 0x56e81f171bcc55a6ff8345e692c0f86e5b48e01b996cadc001622fb5e363b421.

(** [hashRoot] also returns the trie with its counter reset. *)
Definition hashRoot (t : Trie) : H (node * node * Trie) :=
  if is_nil (root t) then mret (hashNode emptyRoot, Nil, t)
  else '(hashed, cached) ← hash (root t) true; mret (hashed, cached, mk_Trie (root t) 0).
Definition Hash (t : Trie) : H (bytes * Trie) :=
  '(h, cached, t) ← hashRoot t;
  match h with
  | hashNode h => mret (BytesToHash h, mk_Trie cached (unhashed t))
  | _ => st_panic runtime_error
  end.

(** [New] with a database. *)
Definition trie_New (db_node : bytes → option node) (r : bytes) : res trie_err Trie :=
  if bool_decide (r = replicate 32 0) || bool_decide (r = emptyRoot) then Ok (mk_Trie Nil 0)
  else n ← resolveHash db_node r []; Ok (mk_Trie n 0).

(** ** The encoding of the protocol *)

(** The hex-prefix encoding of a HEX key. *)
Definition compact (k : bytes) : bytes := hex_prefix (if hasTerm k then take (length k - 1) k else k) (hasTerm k).

(** What stands for a child with encoding [b] in its parent. *)
Definition link_of (c : node) (b : bytes) : bytes :=
  match c with
  | shortNode _ _ _ | fullNode _ _ => if len b <? 32 then b else rlp_string (keccak256 b)
  | _ => b
  end.
Fixpoint blob (n : node) : bytes :=
  match n with
  | Nil => rlp_string []
  | valueNode v => rlp_string v
  | hashNode h => rlp_string h
  | shortNode k c _ => rlp_list (rlp_string (compact k) ++ link_of c (blob c))
  | fullNode cs _ => rlp_list (concat (map (λ c, link_of c (blob c)) cs))
  end.
Definition link (n : node) : bytes := link_of n (blob n).
(** The root hash of a trie. *)
Definition root_hash (n : node) : bytes :=
  match n with Nil => emptyRoot | hashNode h => h | _ => keccak256 (blob n) end.
End hasher.
