(* ===== verification/TrieHashOk.v ===== *)
(** * Hashing is correct

    The hasher computes the protocol's encoding of every node, whatever hashes are
    already cached, and leaves a trie with the same contents whose cached hashes are
    right. *)
From stdpp Require Import gmap.
From S2P Require Import Prelude TrieEncoding RlpBase RlpEncode Trie TrieHash.

(** ** Sizes *)

Lemma len_rlp_head tag size : is_u64 size → 1 ≤ len (rlp_head tag size) ≤ 9.
Proof.
  intros Hs. unfold rlp_head. pose proof (nbytes_u64 _ Hs). case_ltb; [done|]. rewrite len_cons, len_be_bytes. lia.
Qed.
Lemma len_rlp_string_le b : is_u64 (len b) → len (rlp_string b) ≤ len b + 9.
Proof.
  intros Hb. destruct (rlp_string_cases b) as [(x & -> & _ & ->)|[_ ->]]; [unfold len; cbn; lia|].
  rewrite len_app. pose proof (len_rlp_head 0x80 _ Hb). lia.
Qed.
Lemma len_rlp_list_le p : is_u64 (len p) → len (rlp_list p) ≤ len p + 9.
Proof. intros Hp. unfold rlp_list. rewrite len_app. pose proof (len_rlp_head 0xC0 _ Hp). lia. Qed.

Lemma hex_prefix_ok ns t : Forall nibble ns → bytes_ok (hex_prefix ns t) ∧ len (hex_prefix ns t) ≤ len ns + 1.
Proof.
  intros Hn. assert (∀ l, Forall nibble l → bytes_ok (pack_nibbles l)) as Hp.
  { intros l. induction l as [| |a b l IH] using list_pair_ind; intros Hl; [constructor..|].
    apply Forall_cons_iff in Hl as [Ha [Hb Hl]%Forall_cons_iff]. cbn [pack_nibbles].
    apply bytes_ok_cons. split; [unfold nibble, is_u8 in *; lia|auto]. }
  assert (∀ l, len (pack_nibbles l) ≤ len l) as Hl by (intros l; unfold len; rewrite length_pack_nibbles; pose proof (div2_le (length l)); lia).
  unfold hex_prefix. destruct (Nat.odd _).
  - destruct ns as [|n0 ns]; [split; [constructor|unfold len; cbn; lia]|]. apply Forall_cons_iff in Hn as [H0 Hn]. rewrite !len_cons.
    split; [|specialize (Hl ns); lia]. apply bytes_ok_cons. split; [unfold nibble, is_u8 in *; destruct t; lia|auto].
  - rewrite len_cons. split; [|specialize (Hl ns); lia]. apply bytes_ok_cons. split; [unfold is_u8; destruct t; lia|auto].
Qed.

(** Keys of short nodes, terminated or not. *)
Definition short_key (k : bytes) : Prop := ∃ ns t, Forall nibble ns ∧ k = hex_key ns t.
Lemma short_key_hexk k : hexk k → short_key k.
Proof. intros (ns & Hn & ->). by exists ns, true. Qed.
Lemma short_key_nibbles k : Forall nibble k → short_key k.
Proof. intros Hn. exists k, false. split; [done|]. unfold hex_key. by rewrite app_nil_r. Qed.
Lemma compact_ok {E} k : short_key k →
  hexToCompact (E:=E) k = Ok (compact k) ∧ bytes_ok (compact k) ∧ len (compact k) ≤ len k + 1.
Proof.
  intros (ns & t & Hn & ->). rewrite hexToCompact_hex_prefix by done. unfold compact. rewrite cut_hex_key, hasTerm_hex_key by done.
  destruct (hex_prefix_ok ns t Hn) as [Hb Hl]. split_and!; [done..|]. unfold hex_key. rewrite len_app. pose proof (len_nonneg (if t then [16] else [])). lia.
Qed.

(** Running a bind whose first part succeeds. *)
Lemma bind_ok_run {S E A B} (m : st S E A) (f : A → st S E B) s s' a : m s = (s', Ok a) → (m ≫= f) s = f a s'.
Proof. intros Hm. unfold mbind, st_bind. by rewrite Hm. Qed.

(** ** Encodings *)

Definition encodes (g : gval) (b : bytes) : Prop := gval_ok g ∧ enc_ref g = Ok b.

Lemma encodes_nil : encodes (VSlice true []) [].
Proof. done. Qed.
Lemma encodes_cons g gs b bs : encodes g b → encodes (VSlice true gs) bs → encodes (VSlice true (g :: gs)) (b ++ bs).
Proof.
  intros [Hok He] [Hok' He']. split; [apply gval_ok_VSlice; apply gval_ok_VSlice in Hok'; by constructor|].
  change (enc_ref (VSlice true (g :: gs))) with (x ← (b ← enc_ref g; bs ← concat_res (map enc_ref gs); Ok (b ++ bs)); Ok x : res rlp_err bytes).
  change (enc_ref (VSlice true gs)) with (x ← concat_res (map enc_ref gs); Ok x : res rlp_err bytes) in He'.
  rewrite He. cbn [mbind res_bind]. destruct (concat_res _); cbn [mbind res_bind] in He' |- *; [|done..]. by injection He' as ->.
Qed.
Lemma encodes_list gs b : encodes (VSlice true gs) b → encodes (VSlice false gs) (rlp_list b).
Proof.
  intros [Hok He]. split; [apply gval_ok_VSlice; by apply gval_ok_VSlice in Hok|].
  change (enc_ref (VSlice true gs)) with (x ← concat_res (map enc_ref gs); Ok x : res rlp_err bytes) in He.
  change (enc_ref (VSlice false gs)) with (x ← concat_res (map enc_ref gs); Ok (rlp_list x) : res rlp_err bytes).
  destruct (concat_res _); cbn [mbind res_bind] in He |- *; [|done..]. by injection He as ->.
Qed.
Lemma encodes_pair k g b : string_ok k → encodes g b →
  encodes (VStruct [(false, false, VBytes k); (false, false, g)]) (rlp_list (rlp_string k ++ b)).
Proof.
  intros Hk [Hok He]. split; [by cbn; split_and!|]. cbn [enc_ref map snd take]. change (struct_fields _) with 2%nat.
  cbn [take concat_res foldr]. rewrite He. cbn [mbind res_bind]. by rewrite app_nil_r.
Qed.
Lemma EncodeToBytes_encodes g b : encodes g b → len b < 2 ^ 60 → EncodeToBytes g = Ok b.
Proof.
  intros [Hok He] Hl. rewrite EncodeToBytes_enc_ref; [done..|]. intros b' Hb'. rewrite He in Hb'. injection Hb' as <-.
  pose proof (len_nonneg b). unfold is_u64. lia.
Qed.

Section hashing.
Context (keccak256 : bytes → bytes) (db : bytes → option node).
(** A digest has thirty-two bytes. *)
Definition digest : Prop := ∀ b, length (keccak256 b) = 32%nat ∧ bytes_ok (keccak256 b).
Context (Hdigest : digest).
Abbreviation blob := (blob keccak256).
Abbreviation link := (link keccak256).
Abbreviation link_of := (link_of keccak256).
Abbreviation hash := (hash keccak256).

Lemma BytesToHash_id b : length b = 32%nat → BytesToHash b = b.
Proof. intros Hb. unfold BytesToHash. rewrite Hb, Nat.sub_diag, drop_0, Hb. done. Qed.

(** ** Trees up to their cached flags *)

Fixpoint erase (n : node) : node :=
  match n with
  | shortNode k c _ => shortNode k (erase c) newFlag
  | fullNode cs _ => fullNode (map erase cs) newFlag
  | _ => n
  end.

Lemma node_ind' (P : node → Prop) :
  P Nil → (∀ v, P (valueNode v)) → (∀ k c f, P c → P (shortNode k c f)) →
  (∀ cs f, Forall P cs → P (fullNode cs f)) → (∀ h, P (hashNode h)) → ∀ n, P n.
Proof.
  intros HN HV HS HF HH. fix IH 1. intros [|v|k c f|cs f|h]; [done|apply HV|apply HS, IH| |apply HH].
  apply HF. induction cs as [|c cs IHcs]; constructor; [apply IH|apply IHcs].
Qed.
Lemma blob_erase n : blob (erase n) = blob n ∧ ∀ b, link_of (erase n) b = link_of n b.
Proof.
  induction n as [|v|k c f [IH IHl]|cs f IH|h] using node_ind'; [done..| | |done].
  - split; [|done]. cbn [erase TrieHash.blob]. by rewrite IH, IHl.
  - split; [|done]. cbn [erase TrieHash.blob]. do 2 f_equal. rewrite map_map. induction IH as [|c cs [Hc Hl] _ IH]; [done|].
    cbn [map]. by rewrite Hc, Hl, IH.
Qed.
Lemma blob_reflag n n' : erase n = erase n' → blob n = blob n' ∧ link n = link n'.
Proof.
  intros He. destruct (blob_erase n) as [Hb Hl], (blob_erase n') as [Hb' Hl']. rewrite He in Hb, Hl.
  unfold TrieHash.link. rewrite <-Hb, <-Hl, <-Hb', <-Hl'. done.
Qed.
Lemma has_erase n k v : has db (erase n) k v ↔ has db n k v.
Proof.
  revert k v. induction n as [|v0|k0 c f IH|cs f IH|h] using node_ind'; intros k v; [done..| | |done].
  - cbn [erase]. rewrite !has_short_iff. by setoid_rewrite IH.
  - cbn [erase]. rewrite Forall_lookup in IH. split.
    + inversion 1 as [| |? ? i c k' ? Hi Hc Hh|]; subst. change (map erase cs) with (erase <$> cs) in Hc. rewrite list_lookup_fmap in Hc.
      destruct (cs !! Z.to_nat i) as [c0|] eqn:Hc0; [|done]. injection Hc as <-. eapply has_full; [done..|]. by apply (IH _ _ Hc0).
    + inversion 1 as [| |? ? i c k' ? Hi Hc Hh|]; subst. eapply has_full; [done| |by apply (IH _ _ Hc)].
      change (map erase cs) with (erase <$> cs). by rewrite list_lookup_fmap, Hc.
Qed.
Lemma branch_erase n : branch db (erase n) ↔ branch db n.
Proof. by destruct n. Qed.
Lemma erase_Nil n : erase n = Nil ↔ n = Nil.
Proof. by destruct n. Qed.
Lemma erase_value n v : erase n = valueNode v ↔ n = valueNode v.
Proof. by destruct n. Qed.
Lemma lookup_erase cs i : (map erase cs : list node) !! i = erase <$> cs !! i.
Proof. apply list_lookup_fmap. Qed.
Lemma wf_erase n : wf db (erase n) ↔ wf db n.
Proof.
  induction n as [|v|k c f IH|cs f IH|h] using node_ind'; [done..| | |done].
  - cbn [erase]. split.
    + inversion 1 as [k0 v f0 Hk Hv [Ek Ec Ef]|k0 c0 f0 Hk Hn Hc Hb| |]; subst; [|by apply wf_ext; [..|apply IH|apply branch_erase]].
      symmetry in Ec. apply erase_value in Ec as ->. by constructor.
    + inversion 1 as [k0 v f0 Hk Hv E|k0 c0 f0 Hk Hn Hc Hb E| |]; subst; [by constructor|].
      apply wf_ext; [done..|by apply IH|by apply branch_erase].
  - cbn [erase]. rewrite Forall_lookup in IH. split.
    + inversion 1 as [| |cs0 f0 Hl Hc H16 (i & j & ci & cj & Hij & Hi & Hj & Hni & Hnj)|]; subst. rewrite length_map in Hl.
      constructor; [done|..].
      * intros i' c Hi' Hci' Hnc. apply (IH _ _ Hci'). apply (Hc i'); [done|by rewrite lookup_erase, Hci'|by rewrite erase_Nil].
      * intros c Hci' Hnc. destruct (H16 (erase c)) as (v & Hv & Hcv); [by rewrite lookup_erase, Hci'|by rewrite erase_Nil|].
        exists v. split; [done|]. by apply erase_value.
      * rewrite lookup_erase in Hi, Hj. destruct (cs !! i) as [ci'|] eqn:Ei; [|done]. destruct (cs !! j) as [cj'|] eqn:Ej; [|done].
        injection Hi as <-. injection Hj as <-. exists i, j, ci', cj'. rewrite erase_Nil in Hni, Hnj. done.
    + inversion 1 as [| |cs0 f0 Hl Hc H16 (i & j & ci & cj & Hij & Hi & Hj & Hni & Hnj)|]; subst.
      constructor; [by rewrite length_map|..].
      * intros i' c Hi' Hci' Hnc. rewrite lookup_erase in Hci'. destruct (cs !! i') as [c'|] eqn:Ei; [|done]. injection Hci' as <-.
        apply (IH _ _ Ei). apply (Hc i'); [done..|]. by rewrite erase_Nil in Hnc.
      * intros c Hci' Hnc. rewrite lookup_erase in Hci'. destruct (cs !! 16%nat) as [c'|] eqn:Ei; [|done]. injection Hci' as <-.
        destruct (H16 c' eq_refl) as (v & Hv & ->); [by rewrite erase_Nil in Hnc|]. by exists v.
      * exists i, j, (erase ci), (erase cj). rewrite !lookup_erase, Hi, Hj, !erase_Nil. done.
Qed.
Lemma wf_reflag n n' : erase n = erase n' → wf db n → wf db n'.
Proof. intros He. rewrite <-(wf_erase n), He, wf_erase. done. Qed.
Lemma has_reflag n n' k v : erase n = erase n' → has db n k v ↔ has db n' k v.
Proof. intros He. rewrite <-(has_erase n), He, has_erase. done. Qed.

(** ** Consistent caches *)

(** A cached hash is the hash of the node, which is long enough to have one. *)
Definition flag_ok (f : nodeFlag) (b : bytes) : Prop := ∀ h, flag_hash f = Some h → h = keccak256 b ∧ 32 ≤ len b.
Definition inner (n : node) : Prop := match n with shortNode _ _ _ | fullNode _ _ => True | _ => False end.
(** All cached hashes and all hash nodes below [n] are right. *)
Inductive linked : node → Prop :=
| linked_Nil : linked Nil
| linked_value v : linked (valueNode v)
| linked_short k c f : linked c → flag_ok f (blob (shortNode k c f)) → linked (shortNode k c f)
| linked_full cs f : (∀ i c, cs !! i = Some c → linked c) → flag_ok f (blob (fullNode cs f)) → linked (fullNode cs f)
| linked_hash h m :
    db (BytesToHash h) = Some m → inner m → linked m → h = keccak256 (blob m) → 32 ≤ len (blob m) → linked (hashNode h).
(** The root is hashed even when it is short. *)
Definition linked_root (n : node) : Prop :=
  linked (set_hash None n) ∧ ∀ h, flag_hash (node_flags n) = Some h → h = keccak256 (blob n).

Lemma erase_set_hash h n : erase (set_hash h n) = erase n.
Proof. by destruct n. Qed.
Lemma linked_set_hash n h : linked (set_hash None n) → (∀ x, h = Some x → x = keccak256 (blob n) ∧ 32 ≤ len (blob n)) → linked (set_hash h n).
Proof.
  intros Hl Hh. destruct n as [|v|k c f|cs f|h0]; try done; inversion Hl; subst; constructor; try done.
Qed.
Lemma linked_unset n : linked n → linked (set_hash None n).
Proof. intros Hl. destruct n; try done; inversion Hl; subst; constructor; try done. Qed.
Lemma linked_linked_root n : linked n → linked_root n.
Proof.
  intros Hl. split; [by apply linked_unset|]. intros h Hh. destruct n; try done; inversion Hl as [| |? ? ? ? Hf|? ? ? Hf|]; subst; by apply Hf.
Qed.

(** ** What hashing returns *)

(** The entry of a child in the array that a full node encodes. *)
Definition slot_gval (n : node) : gval := match n with Nil => VBytes [] | _ => node_gval n end.

(** The hashed and the cached node for [n]. *)
Definition outcome (n : node) (force : bool) (hd cd : node) : Prop :=
  erase cd = erase n ∧ linked (set_hash None cd) ∧
  match n with
  | hashNode h => hd = n ∧ cd = n
  | _ =>
      if force || (32 <=? len (blob n)) then hd = hashNode (keccak256 (blob n)) ∧ flag_hash (node_flags cd) = Some (keccak256 (blob n))
      else inner hd ∧ encodes (node_gval hd) (blob n) ∧ flag_hash (node_flags cd) = None
  end.

Lemma encode_node_ok {E} c b : encodes (node_gval c) b → len b < 2 ^ 60 → encode_node (E:=E) c = Ok b.
Proof.
  intros He Hl. unfold encode_node. by rewrite (EncodeToBytes_encodes _ _ He Hl).
Qed.
Lemma nodeToHash_ok c b force d :
  encodes (node_gval c) b → len b < 2 ^ 60 →
  nodeToHash keccak256 c force d = (d, Ok (if (len b <? 32) && negb force then c else hashNode (keccak256 b))).
Proof.
  intros He Hl. unfold nodeToHash, mbind, st_bind, st_lift. rewrite (encode_node_ok _ _ He Hl). by destruct (_ && _).
Qed.
Lemma hash_finish_ok n collapsed cached force d :
  inner n → inner collapsed → encodes (node_gval collapsed) (blob n) → len (blob n) < 2 ^ 60 →
  erase cached = erase n → linked (set_hash None cached) →
  ∃ d' hd cd, hash_finish keccak256 collapsed cached force d = (d', Ok (hd, cd)) ∧ outcome n force hd cd.
Proof.
  intros Hin Hic Henc Hlen Her Hlk. unfold hash_finish. rewrite (bind_ok_run _ _ _ _ _ (nodeToHash_ok _ _ force d Henc Hlen)). unfold outcome.
  assert (∀ h, set_hash None (set_hash h cached) = set_hash None cached) as Hset by (intros h; by destruct cached).
  assert (∀ h, flag_hash (node_flags (set_hash h cached)) = h) as Hfl by (intros h; by destruct n, cached).
  rewrite (Z.leb_antisym (len (blob n)) 32). destruct (_ <? 32) eqn:Hlt; destruct force; cbn [andb negb orb].
  2: { exists d, collapsed, (set_hash None cached). split; [by destruct collapsed|]. rewrite erase_set_hash, Hset, Hfl. by destruct n. }
  all: unfold mbind, st_bind, st_get; destruct (flag_dirty _ && _); eexists _, _, _; (split; [done|]); rewrite erase_set_hash, Hset, Hfl; by destruct n.
Qed.
(** ** Bounded contents *)

Definition small_kv (k v : bytes) : Prop := len k < 2 ^ 32 ∧ bytes_ok v ∧ len v < 2 ^ 32.
Definition small (n : node) : Prop := ∀ k v, has db n k v → small_kv k v.

Lemma small_short k c f : small (shortNode k c f) → small c ∧ ((∃ k' v, has db c k' v) → len k < 2 ^ 32).
Proof.
  intros Hs. split.
  - intros k' v Hc. destruct (Hs (k ++ k') v) as (Hl & Hv); [by constructor|]. rewrite len_app in Hl. pose proof (len_nonneg k). split; [lia|done].
  - intros (k' & v & Hc). destruct (Hs (k ++ k') v) as (Hl & _); [by constructor|]. rewrite len_app in Hl. pose proof (len_nonneg k'). lia.
Qed.
Lemma small_full cs f i c : small (fullNode cs f) → cs !! i = Some c → small c.
Proof.
  intros Hs Hc k v Hk. destruct (Hs (Z.of_nat i :: k) v) as (Hl & Hv); [eapply has_full; [lia|by rewrite Nat2Z.id|done]|].
  rewrite len_cons in Hl. split; [lia|done].
Qed.

Lemma len_digest b : len (keccak256 b) = 32.
Proof. unfold len. by rewrite (proj1 (Hdigest b)). Qed.
Lemma string_ok_digest b : string_ok (keccak256 b).
Proof. split; [apply Hdigest|]. rewrite len_digest. done. Qed.
Lemma len_link n : inner n ∨ (∃ h, n = hashNode h ∧ linked n) → len (link n) ≤ 41.
Proof.
  assert (∀ b, len (rlp_string (keccak256 b)) ≤ 41) as Hd.
  { intros b. pose proof (len_rlp_string_le (keccak256 b)) as Hl. rewrite len_digest in Hl. specialize (Hl ltac:(done)). lia. }
  intros [Hi|(h & -> & Hl)].
  - assert (link n = if len (blob n) <? 32 then blob n else rlp_string (keccak256 (blob n))) as -> by (by destruct n). case_ltb; [lia|apply Hd].
  - inversion Hl; subst. apply Hd.
Qed.

(** A child as its parent encodes it. *)
Definition slot_ok (c hd cd : node) : Prop :=
  encodes (slot_gval hd) (link c) ∧ len (link c) < 2 ^ 33 ∧ erase cd = erase c ∧ linked cd ∧ (hd = Nil → c = Nil).

Lemma slot_ok_value v : string_ok v → len v < 2 ^ 32 → slot_ok (valueNode v) (valueNode v) (valueNode v).
Proof.
  intros Hs Hv. split_and!; [done| |done|constructor|done]. change (len (rlp_string v) < 2 ^ 33). pose proof (len_rlp_string_le v (proj2 Hs)). lia.
Qed.
Lemma slot_ok_Nil : slot_ok Nil (valueNode []) Nil ∧ slot_ok Nil Nil Nil.
Proof. split; (split_and!; [split; [by split; [constructor|]|done]|done|done|constructor|done]). Qed.
Lemma outcome_slot n hd cd : inner n ∨ (∃ h, n = hashNode h) → linked n → outcome n false hd cd → slot_ok n hd cd.
Proof.
  intros Hn Hlk (Her & Hlk' & Ho). assert (len (link n) < 2 ^ 33) as Hl.
  { pose proof (len_link n ltac:(destruct Hn as [?|[h ->]]; eauto)). lia. }
  destruct Hn as [Hn|[h ->]].
  - assert (link n = if len (blob n) <? 32 then blob n else rlp_string (keccak256 (blob n))) as E by (by destruct n).
    assert (if false || (32 <=? len (blob n)) then hd = hashNode (keccak256 (blob n)) ∧ flag_hash (node_flags cd) = Some (keccak256 (blob n))
      else inner hd ∧ encodes (node_gval hd) (blob n) ∧ flag_hash (node_flags cd) = None) as Ho' by (by destruct n). clear Ho.
    assert (blob cd = blob n) as Hb by (by apply blob_reflag). assert (∀ x, flag_hash (node_flags cd) = x → set_hash x cd = cd) as Hcd.
    { intros x <-. by destruct cd as [| |? ? []|? []|]. }
    split_and!; [|done|done|..]; revert E Ho'; rewrite (Z.leb_antisym (len (blob n)) 32); destruct (Z.ltb_spec (len (blob n)) 32); cbn [orb negb]; intros E Ho'.
    + rewrite E. destruct Ho' as (Hi & He & _). by destruct hd.
    + rewrite E. destruct Ho' as [-> _]. split; [apply string_ok_digest|done].
    + destruct Ho' as (_ & _ & Hf). rewrite <-(Hcd _ Hf). done.
    + destruct Ho' as (_ & Hf). rewrite <-(Hcd _ Hf). apply linked_set_hash; [done|]. intros x [= <-]. by rewrite Hb.
    + intros ->. by destruct Ho' as (? & _).
    + by destruct Ho' as [-> _].
  - destruct Ho as [-> ->]. split_and!; [|done..]. inversion Hlk; subst. split; [apply string_ok_digest|done].
Qed.
Lemma hash_children_ok (rec : node → H (node * node)) m cs d :
  (∀ i c, (i < m)%nat → cs !! i = Some c → c ≠ Nil → ∀ d, ∃ d' hd cd, rec c d = (d', Ok (hd, cd)) ∧ slot_ok c hd cd) →
  (∀ i c, (m ≤ i)%nat → cs !! i = Some c → slot_ok c c c) →
  ∃ d' hs ccs, hash_children rec m cs d = (d', Ok (hs, ccs)) ∧ Forall3 slot_ok cs hs ccs.
Proof.
  revert m d. induction cs as [|c cs IH]; intros m d Hrec Hrest; [exists d, [], []; split; [by destruct m|constructor]|].
  destruct m as [|m].
  - exists d, (c :: cs), (c :: cs). split; [done|]. assert (∀ l, (∀ c, c ∈ l → slot_ok c c c) → Forall3 slot_ok l l l) as Hall.
    { clear. induction l as [|x l IH]; intros Hl; constructor; [apply Hl; by left|]. apply IH. intros y Hy. apply Hl. by right. }
    apply Hall. intros y (i & Hi)%list_elem_of_lookup. apply (Hrest i); [lia|done].
  - assert (∃ d1 hd cd, (if is_nil c then mret (valueNode [], Nil) else rec c : H (node * node)) d = (d1, Ok (hd, cd)) ∧ slot_ok c hd cd) as (d1 & hd & cd & H1 & Hs1).
    { destruct (is_nil c) eqn:Hn; [destruct c; try done; eexists d, _, _; split; [done|apply slot_ok_Nil]|].
      apply (Hrec 0%nat); [lia|done|by intros ->]. }
    destruct (IH m d1) as (d2 & hs & ccs & H2 & Hs2).
    { intros i x Hi. apply (Hrec (S i)). lia. }
    { intros i x Hi. apply (Hrest (S i)). lia. }
    exists d2, (hd :: hs), (cd :: ccs). split; [|by constructor]. cbn [hash_children]. rewrite (bind_ok_run _ _ _ _ _ H1). by rewrite (bind_ok_run _ _ _ _ _ H2).
Qed.
Lemma Forall3_slots cs hs ccs :
  Forall3 slot_ok cs hs ccs →
  encodes (VSlice true (map slot_gval hs)) (concat (map link cs)) ∧ len (concat (map link cs)) ≤ len cs * 2 ^ 33 ∧
  map erase ccs = map erase cs ∧ ∀ i c, ccs !! i = Some c → linked c.
Proof.
  induction 1 as [|c hd cd cs hs ccs (He & Hl & Her & Hlk & _) _ (He' & Hl' & Her' & Hlk')]; [done|]. cbn [map concat].
  rewrite len_app, len_cons. split_and!; [by apply encodes_cons|lia|by rewrite Her, Her'|].
  - intros [|i] x; [by intros [= <-]|apply Hlk'].
Qed.

Lemma hash_cached n h force d : inner n → flag_hash (node_flags n) = Some h → ∃ d', hash n force d = (d', Ok (hashNode h, n)).
Proof.
  intros Hn Hh. assert (hash n force = (dirties ← st_get;
      _ ← match dirties with Some c => if negb (cache_Contains h c) then cache_Put h n else mret tt | None => mret tt end;
      mret (hashNode h, n))) as -> by (destruct n; try done; cbn in Hh |- *; by rewrite Hh).
  unfold mbind, st_bind, st_get. destruct d as [c|]; [destruct (cache_Contains h c)|]; by eexists.
Qed.
Lemma outcome_cached n h force : inner n → linked n → flag_hash (node_flags n) = Some h → outcome n force (hashNode h) n.
Proof.
  intros Hn Hlk Hh. assert (h = keccak256 (blob n) ∧ 32 ≤ len (blob n)) as [-> Hl].
  { destruct n; try done; inversion Hlk as [| |? ? ? ? Hf|? ? ? Hf|]; subst; by apply Hf. }
  split_and!; [done|by apply linked_unset|]. destruct n; try done; (rewrite (proj2 (Z.leb_le 32 _)) by done; by rewrite orb_true_r).
Qed.

Lemma short_ok k c hc cc f :
  short_key k → len k < 2 ^ 32 → slot_ok c hc cc → c ≠ Nil →
  encodes (node_gval (shortNode (compact k) hc f)) (blob (shortNode k c f)) ∧ len (blob (shortNode k c f)) < 2 ^ 60.
Proof.
  intros Hk Hlen (He & Hl & _ & _ & Hnil) Hc. destruct (compact_ok (E:=unit) k Hk) as (_ & Hb & Hlk).
  assert (is_u64 (len (compact k))) as Hu by (pose proof (len_nonneg (compact k)); unfold is_u64; lia).
  assert (slot_gval hc = node_gval hc) as Hg by (destruct hc; try done; by destruct Hc; apply Hnil). rewrite Hg in He. split.
  - by apply encodes_pair.
  - cbn [TrieHash.blob]. pose proof (len_rlp_string_le _ Hu) as Hs. fold (link c).
    pose proof (len_nonneg (rlp_string (compact k))). pose proof (len_nonneg (link c)).
    pose proof (len_rlp_list_le (rlp_string (compact k) ++ link c)) as Hr. rewrite len_app in Hr. unfold is_u64 in Hr. specialize (Hr ltac:(lia)). lia.
Qed.
Lemma full_ok cs hs ccs f :
  length cs = 17%nat → Forall3 slot_ok cs hs ccs →
  encodes (node_gval (fullNode hs f)) (blob (fullNode cs f)) ∧ len (blob (fullNode cs f)) < 2 ^ 60.
Proof.
  intros Hlen Hs. destruct (Forall3_slots cs hs ccs Hs) as (He & Hl & _). unfold len at 2 in Hl. rewrite Hlen in Hl. split.
  - change (encodes (VSlice false (map slot_gval hs)) (rlp_list (concat (map link cs)))). by apply encodes_list.
  - change (len (rlp_list (concat (map link cs))) < 2 ^ 60). pose proof (len_nonneg (concat (map link cs))).
    pose proof (len_rlp_list_le (concat (map link cs)) ltac:(unfold is_u64; lia)). lia.
Qed.
(** The first half of [hash] and [proofHash]: the node with its children hashed. *)
Definition collapse (n : node) : H (node * node) :=
  match n with
  | shortNode k c f => hashShortNodeChildren (λ c, hash c false) k c f
  | fullNode cs f => hashFullNodeChildren (λ c, hash c false) cs f
  | _ => mret (n, n)
  end.
Definition collapses (n : node) : Prop := ∀ d, ∃ d' collapsed cached,
  collapse n d = (d', Ok (collapsed, cached)) ∧ inner collapsed ∧ encodes (node_gval collapsed) (blob n) ∧ len (blob n) < 2 ^ 60 ∧
  erase cached = erase n ∧ linked (set_hash None cached) ∧ node_flags cached = node_flags n.

Lemma collapse_short k c f :
  short_key k → len k < 2 ^ 32 → c ≠ Nil →
  (∀ d, ∃ d' hc cc, (match c with shortNode _ _ _ | fullNode _ _ => hash c false | _ => mret (c, c) end : H (node * node)) d = (d', Ok (hc, cc)) ∧ slot_ok c hc cc) →
  collapses (shortNode k c f).
Proof.
  intros Hk Hlen Hc Hchild d. destruct (Hchild d) as (d1 & hc & cc & H1 & Hs).
  destruct (short_ok k c hc cc f Hk Hlen Hs Hc) as [Henc Hb]. destruct Hs as (_ & _ & Her & Hlc & _).
  exists d1, (shortNode (compact k) hc f), (shortNode k cc f). split_and!; [|done..|by cbn [erase]; rewrite Her|by constructor|done].
  cbn [collapse]. unfold hashShortNodeChildren.
  rewrite (bind_ok_run _ _ d d (compact k)) by (unfold st_lift; f_equal; by apply compact_ok).
  by rewrite (bind_ok_run _ _ _ _ _ H1).
Qed.
Lemma collapse_full cs f :
  length cs = 17%nat →
  (∀ i c, (i < 16)%nat → cs !! i = Some c → c ≠ Nil → ∀ d, ∃ d' hd cd, hash c false d = (d', Ok (hd, cd)) ∧ slot_ok c hd cd) →
  (∀ c, cs !! 16%nat = Some c → slot_ok c c c) →
  collapses (fullNode cs f).
Proof.
  intros Hlen Hrec H16 d. destruct (hash_children_ok (λ c, hash c false) 16 cs d Hrec) as (d1 & hs & ccs & H1 & Hs).
  { intros i c Hi Hc. apply H16. replace 16%nat with i; [done|]. apply lookup_lt_Some in Hc. lia. }
  destruct (full_ok cs hs ccs f Hlen Hs) as [Henc Hb]. destruct (Forall3_slots cs hs ccs Hs) as (_ & _ & Her & Hlk).
  exists d1, (fullNode hs f), (fullNode ccs f). split_and!; [|done..|by cbn [erase]; rewrite Her|by constructor|done].
  cbn [collapse]. unfold hashFullNodeChildren. by rewrite (bind_ok_run _ _ _ _ _ H1).
Qed.

Lemma branch_cases n : branch db n → inner n ∨ ∃ h, n = hashNode h.
Proof. destruct n; try done; [by left|]. intros _. right. by eexists. Qed.
Lemma wf_cases n : wf db n → inner n ∨ ∃ h, n = hashNode h.
Proof. destruct 1; [by left..|]. right. by eexists. Qed.
Lemma slot_ok_small v : small_kv [] v → slot_ok (valueNode v) (valueNode v) (valueNode v).
Proof. intros (_ & Hv & Hl). apply slot_ok_value; [|done]. split; [done|]. pose proof (len_nonneg v). unfold is_u64. lia. Qed.

Definition hashes (n : node) : Prop := ∀ force d, ∃ d' hd cd, hash n force d = (d', Ok (hd, cd)) ∧ outcome n force hd cd.
Lemma collapse_ok n : wf db n → small n → linked (set_hash None n) → inner n →
  (∀ c, (∃ k f, n = shortNode k c f) ∨ (∃ cs f i, n = fullNode cs f ∧ (i < 16)%nat ∧ cs !! i = Some c) → wf db c → small c → linked c → hashes c) → collapses n.
Proof.
  intros Hwf Hsm Hlk Hi Hch. destruct Hwf as [k v f Hk Hv|k c f Hk Hn Hc Hbr|cs f Hl Hc H16 H2|h n Hh Hld Hwn]; [| | |done].
  - destruct (Hsm k v) as (Hlen & Hvb & Hvl); [rewrite <-(app_nil_r k) at 2; by repeat constructor|].
    apply collapse_short; [by apply short_key_hexk|done..|]. intros d1. exists d1, (valueNode v), (valueNode v). split; [done|by apply slot_ok_small].
  - apply small_short in Hsm as [Hsc Hlen]. specialize (Hlen (wf_inhabited db c Hc)). inversion Hlk; subst.
    apply collapse_short; [by apply short_key_nibbles|done|by apply (wf_not_Nil db)|]. intros d1.
    destruct (Hch c ltac:(eauto) Hc Hsc ltac:(done) false d1) as (d2 & hc & cc & Hr1 & Ho). exists d2, hc, cc. split; [|apply outcome_slot; [by apply branch_cases|done..]].
    destruct (branch_cases c Hbr) as [Hci|[h ->]]; [by destruct c|done].
  - inversion Hlk as [| | |? ? Hlc|]; subst. apply collapse_full; [done..| |].
    + intros i c Hi' Hci Hn d1. assert (wf db c) as Hwc by (by apply (Hc i)).
      destruct (Hch c ltac:(right; eauto 6) Hwc (small_full _ _ _ _ Hsm Hci) (Hlc _ _ Hci) false d1) as (d2 & hc & cc & H1 & Ho).
      exists d2, hc, cc. split; [done|]. apply outcome_slot; [by apply wf_cases|by eapply Hlc|done].
    + intros c Hci. destruct (decide (is_nil c = true)) as [Hn|Hn]; [destruct c; try done; apply slot_ok_Nil|].
      destruct (H16 c Hci) as (v & _ & ->); [by intros ->|]. apply slot_ok_small. by apply (small_full _ _ _ _ Hsm Hci [] v), has_value.
Qed.
Lemma hash_collapses n : inner n → collapses n → flag_hash (node_flags n) = None → hashes n.
Proof.
  intros Hi Hc Hf force d. destruct (Hc d) as (d1 & cl & ca & H1 & Hic & Henc & Hl & Her & Hlk & _).
  destruct (hash_finish_ok n cl ca force d1) as (d2 & hd & cd & H2 & Ho); [done..|].
  exists d2, hd, cd. split; [|done]. rewrite <-H2.
  assert (hash n force = '(collapsed, cached) ← collapse n; hash_finish keccak256 collapsed cached force) as ->.
  { destruct n as [| |k c f|cs f|]; try done; cbn [TrieHash.hash node_flags] in Hf |- *; by rewrite Hf. }
  by rewrite (bind_ok_run _ _ _ _ _ H1).
Qed.
Lemma hash_ok n : wf db n → small n → linked n → hashes n.
Proof.
  induction 1 as [k v f Hk Hv|k c f Hk Hn Hc IH Hbr|cs f Hl Hc IH H16 H2|h n Hh Hld Hwn IH]; intros Hsm Hlk.
  4: { intros force d. exists d, (hashNode h), (hashNode h). done. }
  all: match goal with |- hashes ?n => destruct (flag_hash (node_flags n)) as [x|] eqn:Hx end;
    [intros force d; edestruct hash_cached as [d' ->]; [done..|]; eexists _, _, _; split; [done|by apply outcome_cached]|].
  all: apply hash_collapses; [done| |done]; apply collapse_ok; [by constructor|done|by apply linked_unset|done|].
  - intros c [(? & ? & [= _ <- _])|(? & ? & ? & ? & _)] Hwc; [by inversion Hwc|done].
  - intros c' [(? & ? & [= _ <- _])|(? & ? & ? & ? & _)] _; [done|done].
  - intros c' [(? & ? & ?)|(? & ? & i & [= <- _] & Hi & Hci)] Hwc; [done|]. apply (IH i); [done..|by apply wf_not_Nil in Hwc].
Qed.
Lemma linked_root_hash h : linked_root (hashNode h) → length h = 32%nat.
Proof. intros [Hl _]. inversion Hl; subst. apply Hdigest. Qed.
Lemma unset_id n : flag_hash (node_flags n) = None → set_hash None n = n.
Proof. destruct n as [| |? ? []|? []|]; cbn; congruence. Qed.
(** The root hash is that of the protocol, whatever is cached. *)
Lemma Hash_ok t d :
  root t = Nil ∨ wf db (root t) → small (root t) → linked_root (root t) →
  ∃ d' t', Hash keccak256 t d = (d', Ok (root_hash keccak256 (root t), t')) ∧ erase (root t') = erase (root t) ∧ linked_root (root t').
Proof.
  intros Hwf Hsm Hlk. unfold Hash, hashRoot. destruct (is_nil (root t)) eqn:Hnil.
  { destruct (root t) eqn:Hr; try done. eexists d, _. split; [done|]. cbn [root erase]. split; [done|]. split; [constructor|done]. }
  destruct Hwf as [Hr|Hwf]; [by rewrite Hr in Hnil|].
  assert (∃ d' hd cd, hash (root t) true d = (d', Ok (hd, cd)) ∧ hd = hashNode (root_hash keccak256 (root t)) ∧
    erase cd = erase (root t) ∧ linked_root cd ∧ length (root_hash keccak256 (root t)) = 32%nat) as (d' & hd & cd & H1 & -> & He & Hl & H32).
  { destruct (wf_cases _ Hwf) as [Hin|[h Hr]]; [|rewrite Hr in *; exists d, (hashNode h), (hashNode h); split_and!; [done..|by apply linked_root_hash]].
    assert (root_hash keccak256 (root t) = keccak256 (blob (root t))) as -> by (by destruct (root t)).
    destruct (flag_hash (node_flags (root t))) as [x|] eqn:Hx.
    - destruct (hash_cached _ _ true d Hin Hx) as [d' H1]. pose proof Hlk as [_ Hf]. apply Hf in Hx as ->.
      exists d'. do 2 eexists. split_and!; [exact H1|done..|apply Hdigest].
    - destruct (hash_ok (root t) Hwf Hsm) with (force := true) (d := d) as (d' & hd & cd & H1 & He & Hl & Ho).
      { destruct Hlk as [Hlk _]. by rewrite unset_id in Hlk. }
      assert (hd = hashNode (keccak256 (blob (root t))) ∧ flag_hash (node_flags cd) = Some (keccak256 (blob (root t)))) as [-> Hf] by (by destruct (root t)).
      exists d'. do 2 eexists. split_and!; [exact H1|done..| |apply Hdigest]. split; [done|]. rewrite Hf. intros y [= <-]. f_equal. symmetry. by apply blob_reflag. }
  exists d', (mk_Trie cd 0). split; [|done]. rewrite (bind_ok_run _ _ d d' (hashNode (root_hash keccak256 (root t)), cd, mk_Trie (root t) 0)).
  - cbn [root unhashed]. by rewrite BytesToHash_id.
  - by rewrite (bind_ok_run _ _ _ _ _ H1).
Qed.
End hashing.
