(* ===== verification/TrieRoot.v ===== *)
(** * The root hash is a function of the contents

    The operations of the trie keep its cached hashes right, and the root hash is the
    one the protocol defines for the set of keys and values: the recursive composition
    of the Yellow Paper, which knows no nodes. *)
From stdpp Require Import gmap.
From S2P Require Import Prelude TrieEncoding RlpBase Trie TrieHash TrieHashOk.

(** ** Operations keep the caches right *)

Section linked.
Context (keccak256 : bytes → bytes) (db : bytes → option node).
Abbreviation blob := (blob keccak256).
Abbreviation link := (link keccak256).
Abbreviation linked := (linked keccak256 db).
Abbreviation linked_root := (linked_root keccak256 db).

Lemma flag_ok_new b : flag_ok keccak256 newFlag b.
Proof. done. Qed.
Lemma linked_new_short k c : linked c → linked (shortNode k c newFlag).
Proof. intros Hc. by constructor. Qed.
Lemma linked_new_full cs : (∀ i c, cs !! i = Some c → linked c) → linked (fullNode cs newFlag).
Proof. intros Hc. by constructor. Qed.
Lemma linked_short_inv k c f : linked (set_hash None (shortNode k c f)) → linked c.
Proof. by inversion 1. Qed.
Lemma linked_full_inv cs f : linked (set_hash None (fullNode cs f)) → ∀ i c, cs !! i = Some c → linked c.
Proof. by inversion 1. Qed.
Lemma linked_resolve h p n : linked (hashNode h) → resolveHash db h p = Ok n → linked n ∧ link n = link (hashNode h) ∧ inner n.
Proof.
  inversion 1 as [| | | |? m Hm Hin Hlm Hh Hlen]; subst. unfold resolveHash. rewrite Hm. intros [= <-]. split_and!; [done| |done].
  change (link (hashNode (keccak256 (blob m)))) with (rlp_string (keccak256 (blob m))).
  destruct m; try done; (unfold TrieHash.link, link_of; case_ltb; [lia|done]).
Qed.
Lemma linked_child cs f i c : linked (set_hash None (fullNode cs f)) → child cs i = Ok c → linked c.
Proof.
  intros Hl Hc. unfold child, go_index in Hc. destruct (decide _); [|done]. destruct (cs !! _) eqn:Hi; [|done]. injection Hc as <-.
  by eapply linked_full_inv.
Qed.
Lemma linked_set_child cs cs' i c : (∀ i c, cs !! i = Some c → linked c) → linked c → set_child cs i c = Ok cs' → ∀ i c, cs' !! i = Some c → linked c.
Proof.
  intros Hcs Hc Hs j x. unfold set_child, go_set in Hs. destruct (decide _); [|done]. injection Hs as <-.
  intros [(_ & <- & _)|[_ Hx]]%list_lookup_insert_Some; eauto.
Qed.
Lemma linked_branch i c : replicate 17 Nil !! i = Some c → linked c.
Proof. intros [-> _]%lookup_replicate. constructor. Qed.

(** A changed node is new; an unchanged one is the old node or was loaded. *)
Definition kept (n n' : node) (dirty : bool) : Prop := if dirty then linked n' else n' = n ∨ linked n'.

Lemma insert_linked fuel : ∀ n prefix key value d n',
  linked (set_hash None n) → linked value → insert db fuel n prefix key value = Ok (d, n') → kept n n' d.
Proof.
  induction fuel as [|fuel IH]; intros n prefix key value d n' Hn Hv H; [done|]. cbn [insert] in H.
  destruct key as [|x key]; [destruct n, value; try done; injection H as <- <-; destruct (negb _) || idtac; cbn; auto|].
  destruct n as [| |k c f|cs f|h]; try done.
  - injection H as <- <-. by apply linked_new_short.
  - apply linked_short_inv in Hn. destruct (_ =? _)%nat.
    + split_bind H. destruct a as [[] nn]; injection H as <- <-; [|by left]. apply linked_new_short. by apply IH in E; [|by apply linked_unset|].
    + split_bind H. split_bind H. destruct a0 as [b1 c1]. split_bind H. split_bind H. split_bind H. destruct a2 as [b2 c2]. split_bind H.
      assert (linked c1 ∧ linked c2) as [Hc1 Hc2].
      { apply IH in E0; [|constructor|done]. apply IH in E3; [|constructor|done]. split; [destruct b1|destruct b2]; cbn in *; try done;
          [destruct E0 as [->|]|destruct E3 as [->|]]; try done; constructor. }
      assert (∀ i c, a2 !! i = Some c → linked c) as Hcs by (apply (linked_set_child a0 a2 a1 c2); [|done..]; apply (linked_set_child (replicate 17 Nil) a0 a c1); [apply linked_branch|done..]).
      destruct (_ =? _)%nat; injection H as <- <-; [|apply linked_new_short]; by apply linked_new_full.
  - split_bind H. split_bind H. destruct a0 as [[] nn]; [|injection H as <- <-; by left]. split_bind H. injection H as <- <-.
    apply linked_new_full. eapply linked_set_child; [by eapply linked_full_inv| |done].
    apply IH in E0; [done|by eapply linked_unset, linked_child|done].
  - split_bind H. apply linked_resolve in E as (Hr & _ & _); [|done]. split_bind H. destruct a0 as [b nn]. apply IH in E; [|by apply linked_unset|done].
    destruct b; injection H as <- <-; [done|by right].
Qed.

Lemma reduce_linked cs prefix n : (∀ i c, cs !! i = Some c → linked c) → reduce db cs prefix = Ok n → linked n.
Proof.
  intros Hcs H. unfold reduce in H. destruct (0 <=? _); [|injection H as <-; by apply linked_new_full].
  split_bind H. apply (linked_child cs newFlag) in E; [|by apply linked_new_full]. destruct (_ =? 16); [injection H as <-; by apply linked_new_short|].
  split_bind H. assert (linked a0) as Ha.
  { destruct a; cbn in E0; try by injection E0 as <-. by eapply linked_resolve. }
  destruct a0; injection H as <-; try by apply linked_new_short. inversion Ha; subst. by apply linked_new_short.
Qed.
Lemma delete_linked fuel : ∀ n prefix key d n', linked (set_hash None n) → delete db fuel n prefix key = Ok (d, n') → kept n n' d.
Proof.
  induction fuel as [|fuel IH]; intros n prefix key d n' Hn H; [done|]. cbn [delete] in H.
  destruct n as [| |k c f|cs f|h].
  - injection H as <- <-. by left.
  - injection H as <- <-. constructor.
  - destruct (_ <? _)%nat; [injection H as <- <-; by left|]. destruct (_ =? _)%nat; [injection H as <- <-; constructor|].
    apply linked_short_inv in Hn. split_bind H. destruct a as [[] nn]; [|injection H as <- <-; by left].
    apply IH in E; [|by apply linked_unset]. destruct nn; injection H as <- <-; try by apply linked_new_short.
    inversion E; subst. by apply linked_new_short.
  - split_bind H. split_bind H. split_bind H. destruct a1 as [[] nn]; [|injection H as <- <-; by left]. split_bind H.
    apply IH in E1; [|by eapply linked_unset, linked_child].
    assert (∀ i c, a1 !! i = Some c → linked c) as Hcs by (apply (linked_set_child cs a1 a nn); [by eapply linked_full_inv|done..]).
    destruct (negb _); [injection H as <- <-; by apply linked_new_full|]. split_bind H. injection H as <- <-. by eapply reduce_linked.
  - split_bind H. apply linked_resolve in E as (Hr & _ & _); [|done]. split_bind H. destruct a0 as [b nn]. apply IH in E; [|by apply linked_unset].
    destruct b; injection H as <- <-; [done|by right].
Qed.

(** Loading nodes keeps encodings and cached hashes. *)
Definition loads (n n' : node) : Prop :=
  link n' = link n ∧ linked (set_hash None n') ∧ (inner n → inner n' ∧ blob n' = blob n ∧ node_flags n' = node_flags n) ∧ (linked n → linked n').
Lemma loads_refl n : linked (set_hash None n) → loads n n.
Proof. intros Hn. by split_and!. Qed.
Lemma link_full cs cs' i c c' f : cs !! Z.to_nat i = Some c → link c' = link c → set_child cs i c' = Ok cs' → blob (fullNode cs' f) = blob (fullNode cs f).
Proof.
  intros Hc Hl Hs. unfold set_child, go_set in Hs. destruct (decide _); [|done]. injection Hs as <-.
  cbn [TrieHash.blob]. do 2 f_equal. change (link <$> <[Z.to_nat i:=c']> cs = link <$> cs). rewrite list_fmap_insert, Hl.
  apply list_insert_id. by rewrite list_lookup_fmap, Hc.
Qed.
Lemma loads_inner n n' : inner n → inner n' → blob n' = blob n → node_flags n' = node_flags n → linked (set_hash None n') → loads n n'.
Proof.
  intros Hi Hi' Hb Hf Hl. split_and!; [|done|done|].
  - unfold TrieHash.link. rewrite Hb. by destruct n, n'.
  - intros Hn. assert (set_hash (flag_hash (node_flags n)) n' = n') as <- by (rewrite <-Hf; by destruct n' as [| |? ? []|? []|]).
    apply linked_set_hash; [done|]. intros x Hx. rewrite Hb. destruct n; try done; inversion Hn as [| |? ? ? ? Hf'|? ? ? Hf'|]; subst; by apply Hf'.
Qed.
Lemma tryGet_loads fuel : ∀ n key pos v n' d, linked (set_hash None n) → tryGet db fuel n key pos = Ok (v, n', d) → loads n n'.
Proof.
  induction fuel as [|fuel IH]; intros n key pos v n' d Hn H; [done|]. cbn [tryGet] in H.
  destruct n as [|v0|k c f|cs f|h].
  - injection H as <- <- <-. by apply loads_refl.
  - injection H as <- <- <-. by apply loads_refl.
  - destruct (_ || _); [injection H as <- <- <-; by apply loads_refl|]. split_bind H. destruct a as [[value nn] []]; injection H as <- <- <-; [|by apply loads_refl].
    apply IH in E as (Hl & _ & _ & Hlk); [|by apply linked_unset, (linked_short_inv k c f)]. apply loads_inner; [done..| |done|].
    + cbn [TrieHash.blob]. do 2 f_equal. exact Hl.
    + constructor; [|done]. by apply Hlk, (linked_short_inv k c f).
  - split_bind H. split_bind H. split_bind H. destruct a1 as [[value nn] []]; [|injection H as <- <- <-; by apply loads_refl].
    split_bind H. injection H as <- <- <-. pose proof (linked_child _ _ _ _ Hn E0) as Hc. apply IH in E1 as (Hl & _ & _ & Hlk); [|by apply linked_unset].
    apply loads_inner; [done..| |done|].
    + unfold child, go_index in E0. destruct (decide _); [|done]. destruct (cs !! _) eqn:Hi; [|done]. injection E0 as ->. by eapply link_full.
    + constructor; [|done]. apply (linked_set_child cs a1 a nn); [by eapply linked_full_inv|auto|done].
  - split_bind H. apply linked_resolve in E as (Hr & Hl & Hi); [|done]. split_bind H. destruct a0 as [[value nn] b]. injection H as <- <- <-.
    apply IH in E as (Hl' & Hlk' & _ & Hlk); [|by apply linked_unset]. split_and!; [by rewrite Hl', Hl|done|done|auto].
Qed.

Lemma kept_root n n' d : linked_root n → kept n n' d → linked_root n'.
Proof. intros Hn Hk. destruct d; [by apply linked_linked_root|]. destruct Hk as [->|Hk]; [done|by apply linked_linked_root]. Qed.
Lemma loads_root n n' : linked_root n → loads n n' → linked_root n'.
Proof.
  intros [Hl Hf] (Hlink & Hl' & Hin & Hlk). destruct n as [|v|k c f|cs f|h]; try by apply linked_linked_root, Hlk.
  all: destruct (Hin I) as (Hi & Hb & Hfl); split; [done|]; rewrite Hfl, Hb; done.
Qed.
End linked.
