(* ===== verification/TrieMerkle.v ===== *)
(** * The Merkle root of the protocol

    The definition of the Yellow Paper (appendix D): the root of a set of keys and
    values is the hash of a structural composition that looks at the keys only.  The
    hashes the trie returns, over any sequence of operations and with any nodes loaded
    or cached, are these roots. *)
From stdpp Require Import gmap.
From S2P Require Import Prelude TrieEncoding RlpBase Trie TrieHash TrieHashOk TrieRoot.

(** ** The structural composition *)

Abbreviation pairs := (list (bytes * bytes)).

(** The longest common prefix of some keys. *)
Fixpoint common (k : bytes) (ks : list bytes) : bytes :=
  match ks with [] => k | k' :: ks => common (take (prefixLen k k') k) ks end.
(** The pairs below a common prefix, and those below one nibble. *)
Definition below_prefix (p : bytes) (J : pairs) : pairs := (λ kv, (drop (length p) kv.1, kv.2)) <$> J.
Fixpoint below_nibble (x : Z) (J : pairs) : pairs :=
  match J with
  | [] => []
  | (y :: k, v) :: J => if y =? x then (k, v) :: below_nibble x J else below_nibble x J
  | _ :: J => below_nibble x J
  end.
(** The value at this place, empty if there is none. *)
Fixpoint value_here (J : pairs) : bytes :=
  match J with [] => [] | ([], v) :: _ => v | _ :: J => value_here J end.

Section merkle.
Context (keccak256 : bytes → bytes).

(** The node cap function: the empty string, a short composition or its hash. *)
Definition node_cap (c : pairs → bytes) (J : pairs) : bytes :=
  match J with
  | [] => rlp_string []
  | _ => if len (c J) <? 32 then c J else rlp_string (keccak256 (c J))
  end.
(** The structural composition: a leaf, an extension or a branch. *)
Fixpoint composition (fuel : nat) (J : pairs) : bytes :=
  match fuel with
  | O => []
  | S fuel =>
      match J with
      | [] => []
      | [(k, v)] => rlp_list (rlp_string (hex_prefix k true) ++ rlp_string v)
      | (k, _) :: rest =>
          match common k (fst <$> rest) with
          | [] => rlp_list (concat (map (λ x, node_cap (composition fuel) (below_nibble x J)) (seqZ 0 16)) ++ rlp_string (value_here J))
          | p => rlp_list (rlp_string (hex_prefix p false) ++ node_cap (composition fuel) (below_prefix p J))
          end
      end
  end.

(** The keys of a map as nibbles, and depth enough for them. *)
Definition pairs_of (m : gmap bytes bytes) : pairs := (λ kv, (nibbles_of kv.1, kv.2)) <$> map_to_list m.
Definition depth (J : pairs) : nat := S (foldr (λ kv n, length kv.1 `max` n)%nat O J).
Definition merkle_root (m : gmap bytes bytes) : bytes :=
  if bool_decide (m = ∅) then emptyRoot else keccak256 (composition (depth (pairs_of m)) (pairs_of m)).
End merkle.

(** ** Prefixes *)

Lemma common_prefix k ks : common k ks `prefix_of` k ∧ ∀ k', k' ∈ ks → common k ks `prefix_of` k'.
Proof.
  revert k. induction ks as [|k1 ks IH]; intros k; [split; [done|by intros ? ?%elem_of_nil]|]. cbn [common].
  destruct (prefixLen_spec k k1) as (p & a & b & -> & -> & Hl & _). rewrite <-Hl, take_app_length.
  destruct (IH p) as [Hp Hks]. split; [by apply prefix_app_r|].
  intros k' [->|Hk']%elem_of_cons; [by apply prefix_app_r|auto].
Qed.
Lemma prefix_common q k ks : q `prefix_of` k → (∀ k', k' ∈ ks → q `prefix_of` k') → q `prefix_of` common k ks.
Proof.
  revert k. induction ks as [|k1 ks IH]; intros k Hk Hks; [done|]. cbn [common]. apply IH; [|intros k' Hk'; apply Hks; by right].
  destruct (prefixLen_spec k k1) as (p & a & b & -> & -> & Hl & Hd). rewrite <-Hl, take_app_length.
  assert (q `prefix_of` p ++ b) as Hb by (apply Hks; by left). clear -Hk Hb Hd.
  revert q Hk Hb. induction p as [|x p IH]; intros [|y q] Hk Hb; [apply prefix_nil| |apply prefix_nil|].
  - destruct Hk as [? Hk], Hb as [? Hb]. cbn in Hk, Hb. by destruct (Hd _ _ _ _ Hk Hb).
  - cbn in Hk, Hb. pose proof (prefix_cons_inv_1 _ _ _ _ Hk) as ->. apply prefix_cons_inv_2 in Hk, Hb. by apply prefix_cons, IH.
Qed.
Lemma elem_below_nibble x J k v : (k, v) ∈ below_nibble x J ↔ (x :: k, v) ∈ J.
Proof.
  induction J as [|[[|y k1] v1] J IH]; cbn [below_nibble]; [by rewrite !elem_of_nil|rewrite IH, elem_of_cons; naive_solver|].
  destruct (Z.eqb_spec y x) as [->|Hne]; rewrite !elem_of_cons, ?IH; naive_solver.
Qed.
Lemma NoDup_below_nibble x J : NoDup J → NoDup (below_nibble x J).
Proof.
  induction 1 as [|[[|y k1] v1] J Hn _ IH]; cbn [below_nibble]; [constructor|done|].
  destruct (Z.eqb_spec y x) as [->|Hne]; [|done]. constructor; [|done]. by rewrite elem_below_nibble.
Qed.
Lemma value_here_some J v : ([], v) ∈ J → (∀ w, ([], w) ∈ J → w = v) → value_here J = v.
Proof.
  induction J as [|[[|y k1] v1] J IH]; cbn [value_here]; [by intros ?%elem_of_nil|intros _ Hu; apply Hu; by left|].
  intros [Heq|Hin]%elem_of_cons Hu; [done|]. apply IH; [done|]. intros w Hw. apply Hu. by right.
Qed.
Lemma value_here_none J : (∀ w, ([], w) ∉ J) → value_here J = [].
Proof.
  induction J as [|[[|y k1] v1] J IH]; cbn [value_here]; intros Hn; [done|by destruct (Hn v1); left|]. apply IH. intros w Hw. apply (Hn w). by right.
Qed.
Lemma elem_below_prefix p J k v : (∀ k v, (k, v) ∈ J → p `prefix_of` k) → (k, v) ∈ below_prefix p J ↔ (p ++ k, v) ∈ J.
Proof.
  intros Hp. unfold below_prefix. rewrite list_elem_of_fmap. split.
  - intros ([k' v'] & [= -> ->] & Hin). cbn [fst snd]. destruct (Hp _ _ Hin) as [r ->]. by rewrite drop_app_length.
  - intros Hin. exists (p ++ k, v). cbn [fst snd]. by rewrite drop_app_length.
Qed.
Lemma NoDup_below_prefix p J : (∀ k v, (k, v) ∈ J → p `prefix_of` k) → NoDup J → NoDup (below_prefix p J).
Proof.
  intros Hp. apply NoDup_fmap_2_strong. intros [k1 v1] [k2 v2] H1 H2 [= Hk ->].
  destruct (Hp _ _ H1) as [r1 ->], (Hp _ _ H2) as [r2 ->]. rewrite !drop_app_length in Hk. congruence.
Qed.
Lemma length_depth J k v : (k, v) ∈ J → (length k < depth J)%nat.
Proof.
  unfold depth. induction J as [|[k1 v1] J IH]; [by intros ?%elem_of_nil|]. intros [[= -> ->]|Hin]%elem_of_cons; cbn [foldr fst]; [lia|]. specialize (IH Hin). lia.
Qed.

(** ** The trie encodes the composition *)

Section encodes.
Context (keccak256 : bytes → bytes) (db : bytes → option node).
Abbreviation blob := (blob keccak256).
Abbreviation link := (link keccak256).
Abbreviation linked := (linked keccak256 db).
Abbreviation node_cap := (node_cap keccak256).
Abbreviation composition := (composition keccak256).

(** The pairs below a node. *)
Definition holds (n : node) (J : pairs) : Prop := NoDup J ∧ ∀ k v, has db n (k ++ [16]) v ↔ (k, v) ∈ J.

Lemma has_key n k v : wf db n → has db n k v → ∃ ns, k = ns ++ [16].
Proof. intros Hwf Hh. destruct (has_hexk db n Hwf k v Hh) as [(ns & _ & ->) _]. by exists ns. Qed.
Lemma holds_nonempty n J : wf db n → holds n J → J ≠ [].
Proof.
  intros Hwf [_ HJ] ->. destruct (wf_inhabited db n Hwf) as (k & v & Hh). destruct (has_key n k v Hwf Hh) as [ns ->].
  apply HJ in Hh. by apply elem_of_nil in Hh.
Qed.
Lemma cap_nonempty c J b : J ≠ [] → c J = b → node_cap c J = if len b <? 32 then b else rlp_string (keccak256 b).
Proof. intros HJ <-. by destruct J. Qed.

Lemma holds_leaf ns v f J : holds (shortNode (ns ++ [16]) (valueNode v) f) J → J = [(ns, v)].
Proof.
  intros [Hnd HJ]. assert (∀ k w, (k, w) ∈ J ↔ k = ns ∧ w = v) as Hall.
  { intros k w. rewrite <-HJ, has_short_iff. split.
    - intros (r & Hk & [-> ->]%has_value_iff). rewrite app_nil_r in Hk. by apply app_inv_tail in Hk.
    - intros [-> ->]. exists []. rewrite app_nil_r. by rewrite has_value_iff. }
  destruct J as [|[k1 v1] [|[k2 v2] J]].
  - specialize (Hall ns v) as [_ Hin]. by specialize (Hin (conj eq_refl eq_refl)) as ?%elem_of_nil.
  - destruct (proj1 (Hall k1 v1)) as [-> ->]; [by left|done].
  - destruct (proj1 (Hall k1 v1)) as [-> ->]; [by left|]. destruct (proj1 (Hall k2 v2)) as [-> ->]; [right; by left|].
    apply list.NoDup_cons in Hnd as [Hn _]. destruct Hn. by left.
Qed.

(** Keys that part at the first nibble, below the prefix [p]. *)
Lemma common_parts J k1 v1 rest p n :
  wf db n → branch db n → J = (k1, v1) :: rest → (∀ k v, (p ++ k, v) ∈ J ↔ has db n (k ++ [16]) v) →
  (∀ k v, (k, v) ∈ J → p `prefix_of` k) → rest ≠ [] ∧ common k1 (fst <$> rest) = p.
Proof.
  intros Hwf Hbr HJ Hin Hp. destruct (branch_two db n Hwf Hbr) as (x & y & r1 & r2 & w1 & w2 & Hxy & H1 & H2).
  assert (∀ k, k ∈ fst <$> rest ∨ k = k1 → ∃ v, (k, v) ∈ J) as Hkeys.
  { intros k [([k' v'] & -> & Hk)%list_elem_of_fmap| ->]; rewrite HJ; [exists v'; by right|exists v1; by left]. }
  destruct (has_key n _ _ Hwf H1) as [a Ha], (has_key n _ _ Hwf H2) as [b Hb]. rewrite Ha in H1. rewrite Hb in H2. apply Hin in H1, H2.
  assert (∀ k v, (k, v) ∈ J → common k1 (fst <$> rest) `prefix_of` k) as Hc.
  { intros k v. rewrite HJ. destruct (common_prefix k1 (fst <$> rest)) as [Hc1 Hc2].
    intros [[= -> ->]|Hk]%elem_of_cons; [done|]. apply Hc2, list_elem_of_fmap. by exists (k, v). }
  split.
  - intros ->. rewrite HJ in H1, H2. apply list_elem_of_singleton in H1, H2. rewrite <-H2 in H1. injection H1 as Hab _. apply app_inv_head in Hab. congruence.
  - destruct (prefix_common p k1 (fst <$> rest)) as [q Hq]; [destruct (Hkeys k1) as [v Hv]; eauto|intros k' Hk'; destruct (Hkeys k') as [v Hv]; eauto|].
    rewrite Hq. destruct q as [|z q]; [by rewrite app_nil_r|]. rewrite Hq in Hc.
    apply Hc in H1 as [s1 H1], H2 as [s2 H2]. rewrite <-app_assoc in H1, H2. apply app_inv_head in H1, H2. cbn in H1, H2.
    rewrite H1 in Ha. rewrite H2 in Hb. cbn in Ha, Hb. congruence.
Qed.

Lemma composition_multi fuel k1 v1 rest p :
  rest ≠ [] → common k1 (fst <$> rest) = p →
  composition (S fuel) ((k1, v1) :: rest) =
    match p with
    | [] => rlp_list (concat (map (λ x, node_cap (composition fuel) (below_nibble x ((k1, v1) :: rest))) (seqZ 0 16)) ++ rlp_string (value_here ((k1, v1) :: rest)))
    | _ => rlp_list (rlp_string (hex_prefix p false) ++ node_cap (composition fuel) (below_prefix p ((k1, v1) :: rest)))
    end.
Proof. intros Hr <-. cbn [TrieMerkle.composition]. destruct rest as [|kv rest]; [done|]. by destruct (common _ _). Qed.

(** What is to be shown of a node, for every set of pairs it holds. *)
Definition composed (n : node) : Prop := ∀ fuel J,
  holds n J → (∀ k v, (k, v) ∈ J → (length k < fuel)%nat) →
  node_cap (composition fuel) J = link n ∧ (inner n → composition fuel J = blob n).

Lemma composed_inner n : wf db n → inner n →
  (∀ fuel J, holds n J → (∀ k v, (k, v) ∈ J → (length k < fuel)%nat) → composition fuel J = blob n) → composed n.
Proof.
  intros Hwf Hi Hc fuel J HJ Hf. specialize (Hc fuel J HJ Hf). split; [|done].
  rewrite (cap_nonempty _ _ _ (holds_nonempty n J Hwf HJ) Hc). by destruct n.
Qed.
Lemma compact_leaf ns : Forall nibble ns → compact (ns ++ [16]) = hex_prefix ns true.
Proof. intros Hn. unfold compact. change (ns ++ [16]) with (hex_key ns true). by rewrite cut_hex_key, hasTerm_hex_key. Qed.
Lemma compact_ext k : Forall nibble k → compact k = hex_prefix k false.
Proof. intros Hn. unfold compact. pose proof (cut_hex_key k false) as Hc. pose proof (hasTerm_hex_key k false Hn) as Ht. unfold hex_key in Hc, Ht. rewrite app_nil_r in Hc, Ht. by rewrite Hc, Ht. Qed.

Lemma composed_leaf k v f : hexk k → v ≠ [] → composed (shortNode k (valueNode v) f).
Proof.
  intros Hk Hv. apply composed_inner; [by constructor|done|]. intros fuel J HJ Hf. destruct Hk as (ns & Hn & ->).
  apply holds_leaf in HJ as ->. destruct fuel as [|fuel]; [specialize (Hf ns v ltac:(by left)); lia|].
  cbn [TrieMerkle.composition TrieHash.blob link_of]. by rewrite compact_leaf.
Qed.
Lemma composed_ext k c f : k ≠ [] → Forall nibble k → wf db c → branch db c → composed c → composed (shortNode k c f).
Proof.
  intros Hk Hn Hc Hbr IH. assert (wf db (shortNode k c f)) as Hwf by (by constructor). apply composed_inner; [done..|].
  intros fuel J HJ Hf. pose proof (holds_nonempty _ _ Hwf HJ) as Hne. destruct HJ as [Hnd HJ].
  assert (∀ r v, (k ++ r, v) ∈ J ↔ has db c (r ++ [16]) v) as Hin.
  { intros r v. rewrite <-HJ, has_short_iff. rewrite <-app_assoc. split; [by intros (r' & ->%app_inv_head & ?)|eauto]. }
  assert (∀ a v, (a, v) ∈ J → k `prefix_of` a) as Hp.
  { intros a v Ha. apply HJ, has_short_iff in Ha as (r & Ha & Hr). destruct (has_key c r v Hc Hr) as [ns ->].
    rewrite app_assoc in Ha. apply app_inv_tail in Ha as ->. by exists ns. }
  destruct J as [|[k1 v1] rest]; [done|]. destruct (common_parts _ k1 v1 rest k c Hc Hbr eq_refl Hin Hp) as [Hr Hcom].
  destruct fuel as [|fuel]; [specialize (Hf k1 v1 ltac:(by left)); lia|].
  rewrite (composition_multi fuel k1 v1 rest k Hr Hcom). cbn [TrieHash.blob]. rewrite compact_ext by done.
  destruct (IH fuel (below_prefix k ((k1, v1) :: rest))) as [Hcap _].
  - split; [by apply NoDup_below_prefix|]. intros r v. by rewrite elem_below_prefix, <-Hin.
  - intros r v Hrv. apply elem_below_prefix in Hrv; [|done]. apply Hf in Hrv. rewrite length_app in Hrv. destruct k; [done|cbn in Hrv; lia].
  - destruct k; [done|]. by rewrite Hcap.
Qed.

Lemma composed_full cs f : wf db (fullNode cs f) → (∀ i c, (i < 16)%nat → cs !! i = Some c → c ≠ Nil → composed c) → composed (fullNode cs f).
Proof.
  intros Hwf IH. apply composed_inner; [done..|]. intros fuel J HJ Hf. pose proof (holds_nonempty _ _ Hwf HJ) as Hne. destruct HJ as [Hnd HJ].
  destruct J as [|[k1 v1] rest] eqn:EJ; [done|]. rewrite <-EJ in *.
  destruct (common_parts J k1 v1 rest [] (fullNode cs f) Hwf I EJ ltac:(intros; by rewrite HJ) ltac:(intros; apply prefix_nil)) as [Hr Hcom].
  destruct fuel as [|fuel]; [specialize (Hf k1 v1 ltac:(rewrite EJ; by left)); lia|].
  rewrite EJ, (composition_multi fuel k1 v1 rest [] Hr Hcom), <-EJ. inversion Hwf as [| |? ? Hl Hc H16 _|]; subst cs0 f0.
  cbn [TrieHash.blob]. f_equal. change (map _ cs) with (link <$> cs).
  assert (∀ i c, cs !! i = Some c → ∀ k v, has db c k v ↔ has db (fullNode cs f) (Z.of_nat i :: k) v) as Hchild.
  { intros i c Hi k v. symmetry. apply has_full_child; [lia|by rewrite Nat2Z.id]. }
  assert (map (λ x, node_cap (composition fuel) (below_nibble x J)) (seqZ 0 16) = link <$> take 16 cs) as ->.
  { apply list_eq. intros i. change (map ?g ?l) with (g <$> l). rewrite !list_lookup_fmap.
    destruct (decide (i < 16)%nat) as [Hi|Hi]; [|rewrite lookup_seqZ_ge, lookup_take_ge by lia; done].
    rewrite lookup_seqZ_lt, lookup_take_lt by lia. destruct (lookup_lt_is_Some_2 cs i ltac:(lia)) as [c Hci]. rewrite Hci. cbn [fmap option_fmap option_map].
    f_equal. rewrite Z.add_0_l. destruct (decide (is_nil c = true)) as [Hcn|Hcn].
    - destruct c; try done. destruct (below_nibble (Z.of_nat i) J) as [|[k v] Jx] eqn:EB; [done|].
      assert ((k, v) ∈ below_nibble (Z.of_nat i) J) as Hkv%elem_below_nibble%HJ by (rewrite EB; by left). by apply (Hchild i Nil Hci), has_Nil in Hkv.
    - apply (IH i c Hi Hci ltac:(by intros ->)).
      + split; [by apply NoDup_below_nibble|]. intros k v. rewrite elem_below_nibble, <-HJ. by apply Hchild.
      + intros k v Hkv%elem_below_nibble%Hf. cbn in Hkv. lia. }
  destruct (lookup_lt_is_Some_2 cs 16 ltac:(lia)) as [c Hci].
  rewrite <-(take_drop 16 cs) at 2. rewrite fmap_app, concat_app. f_equal.
  rewrite (drop_S cs c 16 Hci), drop_ge by lia. cbn [fmap list_fmap concat]. rewrite app_nil_r.
  destruct (decide (is_nil c = true)) as [Hcn|Hcn].
  - destruct c; try done. rewrite value_here_none; [done|]. intros w Hw%HJ. by apply (Hchild 16%nat Nil Hci), has_Nil in Hw.
  - destruct (H16 c Hci) as (v & Hv & ->); [by intros ->|].
    rewrite (value_here_some J v); [done| |].
    + apply HJ, (Hchild 16%nat _ Hci). constructor.
    + intros w Hw%HJ. apply (Hchild 16%nat _ Hci), has_value_iff in Hw. apply Hw.
Qed.

Lemma wf_composed n : wf db n → linked n → composed n.
Proof.
  induction 1 as [k v f Hk Hv|k c f Hk Hn Hc IH Hbr|cs f Hl Hc IH H16 H2|h n Hh Hld Hwn IH]; intros Hlk.
  - by apply composed_leaf.
  - inversion Hlk; subst. by apply composed_ext; [..|apply IH].
  - inversion Hlk as [| | |? ? Hlc|]; subst. apply composed_full; [by constructor|]. intros i c Hi Hci Hn. apply (IH i); eauto.
  - inversion Hlk as [| | | |? m Hm Hin Hlm Heq Hlen]; subst. rewrite Hm in Hh. injection Hh as ->. intros fuel J HJ Hf. split; [|done].
    assert (holds n J) as HJ' by (split; [apply HJ|]; intros k v; rewrite <-(has_hash_iff db (keccak256 (blob n)) n) by done; apply HJ).
    destruct (IH Hlm fuel J HJ' Hf) as [_ Hc]. rewrite (cap_nonempty _ _ _ (holds_nonempty n J Hwn HJ') (Hc Hin)).
    case_ltb; [lia|done].
Qed.
End encodes.

(** ** Tries over sequences of operations *)

Inductive trie_op := OpUpdate (key value : bytes) | OpDelete (key : bytes) | OpGet (key : bytes) | OpHash.
Inductive op_result := RDone | RValue (v : option bytes) | RHash (h : bytes).

Section run.
Context (keccak256 : bytes → bytes) (db : bytes → option node).

Definition run_op (op : trie_op) : st (Trie * option HashCache) trie_err op_result := λ '(t, d),
  match op with
  | OpUpdate key value => let '(t, r) := TryUpdate db key value t in ((t, d), r ≫= λ _, Ok RDone)
  | OpDelete key => let '(t, r) := TryDelete db key t in ((t, d), r ≫= λ _, Ok RDone)
  | OpGet key => let '(t, r) := TryGet db key t in ((t, d), r ≫= λ v, Ok (RValue v))
  | OpHash =>
      match Hash keccak256 t d with
      | (d, Ok (h, t)) => ((t, d), Ok (RHash h))
      | (d, Err e) => ((t, d), Err e)
      | (d, Panic why) => ((t, d), Panic why)
      | (d, OutOfFuel) => ((t, d), OutOfFuel)
      end
  end.
Fixpoint trie_run (ops : list trie_op) : st (Trie * option HashCache) trie_err (list op_result) :=
  match ops with
  | [] => mret []
  | op :: ops => r ← run_op op; rs ← trie_run ops; mret (r :: rs)
  end.

(** The same operations on a map. *)
Definition spec_op (op : trie_op) (m : gmap bytes bytes) : gmap bytes bytes * op_result :=
  match op with
  | OpUpdate key value => (map_update m (key, value), RDone)
  | OpDelete key => (base.delete key m, RDone)
  | OpGet key => (m, RValue (m !! key))
  | OpHash => (m, RHash (merkle_root keccak256 m))
  end.
Fixpoint spec_run (ops : list trie_op) (m : gmap bytes bytes) : gmap bytes bytes * list op_result :=
  match ops with
  | [] => (m, [])
  | op :: ops => let '(m, r) := spec_op op m in let '(m, rs) := spec_run ops m in (m, r :: rs)
  end.

(** Keys and values that are byte strings of a size that machines can hold. *)
Definition fits (key value : bytes) : Prop := bytes_ok key ∧ len key < 2 ^ 30 ∧ bytes_ok value ∧ len value < 2 ^ 32.
Definition op_ok (op : trie_op) : Prop :=
  match op with OpUpdate key value => fits key value | OpDelete key | OpGet key => bytes_ok key | OpHash => True end.

(** A trie that holds [m] and whose cached hashes are right. *)
Record trie_ok (t : Trie) (m : gmap bytes bytes) : Prop := {
  ok_denotes : denotes db (root t) m;
  ok_linked : linked_root keccak256 db (root t);
  ok_fits : ∀ key value, m !! key = Some value → fits key value }.

Lemma trie_ok_empty : trie_ok (mk_Trie Nil 0) ∅.
Proof. split; [apply denotes_empty|split; [constructor|done]|]. intros k v Hkv. by rewrite lookup_empty in Hkv. Qed.

Lemma nibbles_of_inj a b : bytes_ok a → bytes_ok b → nibbles_of a = nibbles_of b → a = b.
Proof. intros Ha Hb Heq. apply keybytesToHex_inj; [done..|]. unfold keybytesToHex. by rewrite Heq. Qed.
Lemma holds_pairs t m : trie_ok t m → holds db (root t) (pairs_of m).
Proof.
  intros [[_ Hd] _ Hf]. split.
  - apply NoDup_fmap_2_strong; [|apply NoDup_map_to_list]. intros [k1 v1] [k2 v2] H1%elem_of_map_to_list H2%elem_of_map_to_list [= Hk ->].
    f_equal. apply nibbles_of_inj; [exact (proj1 (Hf _ _ H1))|exact (proj1 (Hf _ _ H2))|done].
  - intros k v. rewrite Hd. unfold pairs_of. rewrite list_elem_of_fmap. split.
    + intros (key & Hk & _ & Hm). apply app_inv_tail in Hk as ->. exists (key, v). by rewrite elem_of_map_to_list.
    + intros ([key w] & [= -> ->] & Hm%elem_of_map_to_list). exists key. split_and!; [done|by apply Hf in Hm as [? _]|done].
Qed.
Lemma trie_ok_small t m : trie_ok t m → small db (root t).
Proof.
  intros [[_ Hd] _ Hf] k v (key & -> & _ & (Hk & Hl & Hv & Hlv)%Hf)%Hd. split_and!; [|done..].
  unfold keybytesToHex. rewrite len_app. unfold len in Hl |- *. rewrite length_nibbles_of. cbn [length]. lia.
Qed.
Lemma root_hash_composition n J fuel :
  wf db n → linked keccak256 db n → holds db n J → (∀ k v, (k, v) ∈ J → (length k < fuel)%nat) →
  keccak256 (composition keccak256 fuel J) = root_hash keccak256 n.
Proof.
  intros Hwf Hlk HJ Hf. destruct (wf_cases db n Hwf) as [Hi|[h ->]].
  - rewrite (proj2 (wf_composed keccak256 db n Hwf Hlk fuel J HJ Hf) Hi). by destruct n.
  - inversion Hlk as [| | | |? m Hm Hin Hlm Heq Hlen]; subst. inversion Hwf as [| | |? n Hn _ Hwn]; subst. rewrite Hm in Hn. injection Hn as <-.
    cbn [root_hash]. f_equal. apply (wf_composed keccak256 db m Hwn Hlm fuel J); [|done..]. split; [apply HJ|].
    intros k v. rewrite <-(has_hash_iff db (keccak256 (blob keccak256 m)) m) by done. apply HJ.
Qed.
Lemma root_hash_merkle t m : trie_ok t m → root_hash keccak256 (root t) = merkle_root keccak256 m.
Proof.
  intros Ht. pose proof (holds_pairs t m Ht) as HJ. destruct Ht as [[Hwf Hd] [Hlk _] Hf]. unfold merkle_root.
  destruct Hwf as [Hn|Hwf].
  - rewrite bool_decide_eq_true_2; [by rewrite Hn|]. apply map_empty. intros key. apply eq_None_not_Some. intros [v Hv].
    assert (has db (root t) (keybytesToHex key) v) as Hh by (apply Hd; exists key; split_and!; [done|by apply Hf in Hv as [? _]|done]).
    rewrite Hn in Hh. by apply has_Nil in Hh.
  - rewrite bool_decide_eq_false_2.
    + symmetry.
      assert (root_hash keccak256 (root t) = root_hash keccak256 (set_hash None (root t))) as -> by (by destruct (root t)).
      apply root_hash_composition; [|done| |by intros; eapply length_depth].
      * eapply wf_reflag; [|done]. by destruct (root t).
      * split; [apply HJ|]. intros k v. rewrite <-(proj2 HJ). apply has_reflag. by destruct (root t).
    + intros ->. destruct (wf_inhabited db _ Hwf) as (k & v & (? & _ & _ & Hm)%Hd). by rewrite lookup_empty in Hm.
Qed.

Lemma TryDelete_linked t t' key : linked_root keccak256 db (root t) → TryDelete db key t = (t', Ok tt) → linked_root keccak256 db (root t').
Proof.
  intros Hl. unfold TryDelete. cbn [root]. destruct (delete _ _ _ _ _) as [[d n]| | |] eqn:E; intros [= <-].
  cbn [root]. eapply kept_root; [done|]. eapply delete_linked; [by apply Hl|done].
Qed.
Lemma TryUpdate_linked t t' key value : linked_root keccak256 db (root t) → TryUpdate db key value t = (t', Ok tt) → linked_root keccak256 db (root t').
Proof.
  intros Hl. unfold TryUpdate. destruct (bool_decide _); [|by apply TryDelete_linked]. cbn [root].
  destruct (insert _ _ _ _ _ _) as [[d n]| | |] eqn:E; intros [= <-].
  cbn [root]. eapply kept_root; [done|]. eapply insert_linked; [by apply Hl|constructor|done].
Qed.
Lemma TryGet_linked t t' key v : linked_root keccak256 db (root t) → TryGet db key t = (t', Ok v) → linked_root keccak256 db (root t').
Proof.
  intros Hl. unfold TryGet. destruct (tryGet _ _ _ _ _) as [[[value n] d]| | |] eqn:E; intros [= <- <-].
  destruct d; [|done]. cbn [root]. eapply loads_root; [done|]. eapply tryGet_loads; [by apply Hl|done].
Qed.

Lemma run_op_ok op t d m :
  digest keccak256 → trie_ok t m → op_ok op →
  ∃ t' d', run_op op (t, d) = ((t', d'), Ok (spec_op op m).2) ∧ trie_ok t' (spec_op op m).1.
Proof.
  intros Hk Ht Hop. pose proof Ht as [Hd Hl Hf]. destruct op as [key value|key|key|]; cbn [run_op spec_op op_ok fst snd] in Hop |- *.
  - destruct (TryUpdate_ok db t m key value Hd (proj1 Hop)) as (t' & Heq & Hd' & _). rewrite Heq. exists t', d. split; [done|].
    split; [done|by eapply TryUpdate_linked|]. intros k v. unfold map_update. cbn [fst snd]. case_bool_decide.
    + intros [[<- <-]|[_ Hm]]%lookup_insert_Some; [done|by apply Hf].
    + intros [_ Hm]%lookup_delete_Some. by apply Hf.
  - destruct (TryDelete_ok db t m key Hd Hop) as (t' & Heq & Hd' & _). rewrite Heq. exists t', d. split; [done|].
    split; [done|by eapply TryDelete_linked|]. intros k v [_ Hm]%lookup_delete_Some. by apply Hf.
  - destruct (TryGet_ok db t m key Hd Hop) as (t' & Heq & Hd' & _). rewrite Heq. exists t', d. split; [done|]. split; [done|by eapply TryGet_linked|done].
  - destruct (Hash_ok keccak256 db Hk t d) as (d' & t' & Heq & Her & Hl'); [apply Hd|by eapply trie_ok_small|done|].
    rewrite Heq, (root_hash_merkle t m Ht). exists t', d'. split; [done|]. split; [|done|done].
    destruct Hd as [Hwf Hd]. split.
    + destruct Hwf as [Hn|Hwf]; [left; rewrite Hn in Her; by apply erase_Nil|right; by eapply wf_reflag].
    + intros k v. rewrite <-Hd. by apply has_reflag.
Qed.
Lemma trie_run_ok ops t d m :
  digest keccak256 → trie_ok t m → Forall op_ok ops →
  ∃ t' d', trie_run ops (t, d) = ((t', d'), Ok (spec_run ops m).2) ∧ trie_ok t' (spec_run ops m).1.
Proof.
  intros Hk Ht Hops. revert t d m Ht. induction Hops as [|op ops Hop _ IH]; intros t d m Ht; [by exists t, d|].
  destruct (run_op_ok op t d m Hk Ht Hop) as (t1 & d1 & H1 & Ht1). cbn [spec_run]. destruct (spec_op op m) as [m1 r].
  destruct (IH t1 d1 m1 Ht1) as (t2 & d2 & H2 & Ht2). destruct (spec_run ops m1) as [m2 rs].
  exists t2, d2. split; [|done]. cbn [trie_run]. rewrite (bind_ok_run _ _ _ _ _ H1). by rewrite (bind_ok_run _ _ _ _ _ H2).
Qed.
End run.

(** C9: A trie is a map with a Merkle root.  Over any sequence of updates, deletions,
    lookups and hash computations, starting from a trie that holds a map with right
    cached hashes and may be only partly loaded, no operation fails or panics, every
    lookup returns what the map holds, and every hash that is returned is the root the
    Yellow Paper defines for the contents at that moment, whatever hashes are cached;
    the caches stay right. *)
Theorem trie_refines_map (keccak256 : bytes → bytes) (db : bytes → option node) (ops : list trie_op) (t : Trie)
    (d : option HashCache) (m : gmap bytes bytes) :
  digest keccak256 → trie_ok keccak256 db t m → Forall op_ok ops →
  ∃ t' d', trie_run keccak256 db ops (t, d) = ((t', d'), Ok (spec_run keccak256 ops m).2) ∧
    trie_ok keccak256 db t' (spec_run keccak256 ops m).1.
Proof. apply trie_run_ok. Qed.

(** A stand-in digest: the length and a sum of the input. *)
Definition toy_digest (b : bytes) : bytes := replicate 30 0 ++ [u8 (len b); u8 (foldr Z.add 0 b)].
Lemma toy_digest_ok : digest toy_digest.
Proof.
  intros b. split; [done|]. apply bytes_ok_app. split; [|repeat constructor; apply u8_range].
  apply Forall_replicate. done.
Qed.
Definition toy_ops : list trie_op :=
  [OpHash; OpUpdate [0x12; 0x34] (replicate 40 1); OpUpdate [0x12; 0x35] [2]; OpHash; OpGet [0x12; 0x35]; OpUpdate [0xff] [3]; OpDelete [0x12; 0x34]; OpHash].
Lemma trie_refines_map_witness :
  ∃ t' d', trie_run toy_digest no_db toy_ops (mk_Trie Nil 0, Some ∅) = ((t', d'), Ok (spec_run toy_digest toy_ops ∅).2) ∧
    trie_ok toy_digest no_db t' (spec_run toy_digest toy_ops ∅).1.
Proof.
  apply trie_refines_map; [exact toy_digest_ok|apply trie_ok_empty|].
  repeat constructor; cbn; repeat constructor; done.
Defined.
