(* ===== verification/StackTrie.v ===== *)
(** * The stack trie (src/geth/trie/stacktrie.go) and DeriveSha (src/geth/core/types/hashing.go)

    A trie for keys that arrive in increasing order: a subtrie that can no longer change
    is replaced by its hash and, if there is a database, written to it.  The writes are
    the state of the monad.  Every node owns its key and its children, so that the
    pointers of the code are values here; the pool only recycles nodes.  The binary
    marshalling, which is gob, is not modelled. *)
From stdpp Require Import gmap.
From S2P Require Import Prelude TrieEncoding RlpBase RlpRaw RlpEncode Trie TrieHash.

(** ** Nodes *)

Inductive st_type := emptyNode | branchNode | extNode | leafNode | hashedNode.
Inductive StackTrie := mk_st (nodeType : st_type) (val key : bytes) (keyOffset : Z) (children : list (option StackTrie)).
Definition nodeType (s : StackTrie) : st_type := let 'mk_st t _ _ _ _ := s in t.
Definition st_val (s : StackTrie) : bytes := let 'mk_st _ v _ _ _ := s in v.
Definition st_key (s : StackTrie) : bytes := let 'mk_st _ _ k _ _ := s in k.
Definition keyOffset (s : StackTrie) : Z := let 'mk_st _ _ _ o _ := s in o.
Definition children (s : StackTrie) : list (option StackTrie) := let 'mk_st _ _ _ _ c := s in c.
#[export] Instance st_type_eq : EqDecision st_type.
Proof. solve_decision. Defined.

(** The keys and values written to the database. *)
Abbreviation W := (st (list (bytes * bytes)) trie_err).

Definition no_children : list (option StackTrie) := replicate 16 None.
Definition NewStackTrie : StackTrie := mk_st emptyNode [] [] 0 no_children.
(** [stackTrieFromPool], with the offset that is set next. *)
Definition fresh_at (ko : Z) : StackTrie := mk_st emptyNode [] [] ko no_children.
Definition newLeaf (ko : Z) (key val : bytes) : W StackTrie :=
  k ← st_lift (go_slice key ko (len key)); mret (mk_st leafNode val k ko no_children).
Definition newExt (ko : Z) (key : bytes) (child : StackTrie) : W StackTrie :=
  k ← st_lift (go_slice key ko (len key)); mret (mk_st extNode [] k ko (<[0%nat := Some child]> no_children)).
Definition branch_at (ko : Z) (cs : list (option StackTrie)) : StackTrie := mk_st branchNode [] [] ko cs.

Section stacktrie.
Context (keccak256 : bytes → bytes) (db : bool).

(** ** Hashing *)

(** What a hashed child contributes: [rawNode] or [hashNode]. *)
Definition child_gval (val : bytes) : gval := if len val <? 32 then VRaw val else VBytes val.
Definition rlp_tmp (g : gval) : W bytes :=
  st_lift (match EncodeToBytes g with Ok b => Ok b | OutOfFuel => OutOfFuel | _ => Panic (raised "rlp: encode error") end).
(** The end of [hash]. *)
Definition hash_end (tmp : bytes) (ko : Z) (cs : list (option StackTrie)) : W StackTrie :=
  if len tmp <? 32 then mret (mk_st hashedNode tmp [] ko cs)
  else
    _ ← (if db then st_modify (λ log, log ++ [(keccak256 tmp, tmp)]) else mret tt);
    mret (mk_st hashedNode (keccak256 tmp) [] ko cs).
(** The loop over the children of a branch. *)
Definition hash_kids (rec : StackTrie → W StackTrie) : list (option StackTrie) → W (list gval) :=
  fix go (cs : list (option StackTrie)) : W (list gval) :=
    match cs with
    | [] => mret []
    | None :: cs => gs ← go cs; mret (VBytes [] :: gs)
    | Some c :: cs => c ← rec c; gs ← go cs; mret (child_gval (st_val c) :: gs)
    end.
Fixpoint st_hash (s : StackTrie) : W StackTrie :=
  let 'mk_st t val key ko cs := s in
  match t with
  | hashedNode => mret s
  | branchNode =>
      nodes ← hash_kids st_hash cs;
      tmp ← rlp_tmp (VSlice false (nodes ++ [VBytes []]));
      hash_end tmp ko no_children
  | extNode =>
      match cs with
      | Some c :: rest =>
          c ← st_hash c;
          k ← st_lift (hexToCompact key);
          tmp ← rlp_tmp (VStruct [(false, false, VBytes k); (false, false, child_gval (st_val c))]);
          hash_end tmp ko (None :: rest)
      | _ => st_panic runtime_error
      end
  | leafNode =>
      '(sz, buf) ← st_lift (hexToCompactInPlace (key ++ [16]));
      k ← st_lift (go_slice buf 0 sz);
      tmp ← rlp_tmp (VSlice false [VBytes k; VBytes val]);
      hash_end tmp ko cs
  | emptyNode => mret (mk_st hashedNode emptyRoot [] ko cs)
  end.

(** ** Insertion *)

(** [getDiffIndex]: where the key chunk departs from the key. *)
Fixpoint diff_loop (chunk key : bytes) (pos : Z) : res trie_err Z :=
  match chunk with
  | [] => Ok 0
  | y :: chunk =>
      x ← go_index key pos;
      if y =? x then d ← diff_loop chunk key (pos + 1); Ok (d + 1) else Ok 0
  end.
Definition getDiffIndex (s : StackTrie) (key : bytes) : res trie_err Z := diff_loop (st_key s) key (keyOffset s).

(** Hashing the elder sibling: the last child before position [n]. *)
Fixpoint hash_elder (n : nat) (cs : list (option StackTrie)) : W (list (option StackTrie)) :=
  match n with
  | O => mret cs
  | S i =>
      match cs !! i with
      | Some (Some c) =>
          if decide (nodeType c = hashedNode) then mret cs
          else c ← st_hash c; mret (<[i := Some c]> cs)
      | _ => hash_elder i cs
      end
  end.

Fixpoint st_insert (fuel : nat) (s : StackTrie) (key value : bytes) : W StackTrie :=
  match fuel with
  | O => st_lift OutOfFuel
  | S fuel =>
      let 'mk_st t val skey ko cs := s in
      match t with
      | branchNode =>
          idx ← st_lift (go_index key ko);
          cs ← hash_elder (Z.to_nat idx) cs;
          c ← st_lift (go_index cs idx);
          c ← st_insert fuel (match c with Some c => c | None => fresh_at (ko + 1) end) key value;
          cs ← st_lift (go_set cs idx (Some c));
          mret (mk_st branchNode val skey ko cs)
      | extNode =>
          diffidx ← st_lift (getDiffIndex s key);
          match cs with
          | Some c :: rest =>
              if diffidx =? len skey then
                c ← st_insert fuel c key value;
                mret (mk_st extNode val skey ko (Some c :: rest))
              else
                n ← (if diffidx <? len skey - 1 then newExt (diffidx + 1) skey c else mret c);
                n ← st_hash n;
                o ← newLeaf (ko + diffidx + 1) key value;
                origIdx ← st_lift (go_index skey diffidx);
                newIdx ← st_lift (go_index key (diffidx + ko));
                let pcs := if diffidx =? 0 then None :: rest else no_children in
                pcs ← st_lift (go_set pcs origIdx (Some n));
                pcs ← st_lift (go_set pcs newIdx (Some o));
                if diffidx =? 0 then mret (mk_st branchNode val [] ko pcs)
                else mret (mk_st extNode val (take (Z.to_nat diffidx) skey) ko (Some (branch_at (ko + diffidx) pcs) :: rest))
          | _ => st_panic runtime_error
          end
      | leafNode =>
          diffidx ← st_lift (getDiffIndex s key);
          if len skey <=? diffidx then st_panic (raised "Trying to insert into existing key")
          else
            let pcs := if diffidx =? 0 then <[0%nat := None]> cs else no_children in
            let pko := if diffidx =? 0 then ko else ko + diffidx in
            origIdx ← st_lift (go_index skey diffidx);
            l ← newLeaf (diffidx + 1) skey val;
            l ← st_hash l;
            pcs ← st_lift (go_set pcs origIdx (Some l));
            newIdx ← st_lift (go_index key (diffidx + ko));
            o ← newLeaf (pko + 1) key value;
            pcs ← st_lift (go_set pcs newIdx (Some o));
            if diffidx =? 0 then mret (mk_st branchNode [] [] ko pcs)
            else mret (mk_st extNode [] (take (Z.to_nat diffidx) skey) ko (<[0%nat := Some (branch_at pko pcs)]> cs))
      | emptyNode =>
          k ← st_lift (go_slice key ko (len key));
          mret (mk_st leafNode value k ko cs)
      | hashedNode => st_panic (raised "trying to insert into hash")
      end
  end.

Definition st_TryUpdate (key value : bytes) (s : StackTrie) : W StackTrie :=
  if len value =? 0 then st_panic (raised "deletion not supported")
  else let k := keybytesToHex key in st_insert (length k) s (take (length k - 1) k) value.

(** [Hash] and [Commit] also return the hashed trie. *)
Definition st_Hash (s : StackTrie) : W (bytes * StackTrie) :=
  s ← st_hash s;
  if negb (len (st_val s) =? 32) then mret (BytesToHash (keccak256 (st_val s)), s) else mret (BytesToHash (st_val s), s).
Inductive commit_result := ErrCommitDisabled | Committed (h : bytes).
Definition st_Commit (s : StackTrie) : W (commit_result * StackTrie) :=
  if db then
    s ← st_hash s;
    if negb (len (st_val s) =? 32) then
      let ret := keccak256 (st_val s) in
      _ ← st_modify (λ log, log ++ [(ret, st_val s)]);
      mret (Committed (BytesToHash ret), s)
    else mret (Committed (BytesToHash (st_val s)), s)
  else mret (ErrCommitDisabled, s).
End stacktrie.
