(* ===== verification/StackTrieOk.v ===== *)
(** * The stack trie computes the root of its contents

    A stack trie stands for a trie in which some subtries are known by their hash only.
    The keys that arrive in order never reach such a subtrie, so that insertion simulates
    insertion into the whole trie, and the hash is the Merkle root. *)
From stdpp Require Import gmap.
From S2P Require Import Prelude TrieEncoding RlpBase RlpRaw RlpEncode Trie TrieHash TrieHashOk TrieRoot TrieMerkle StackTrie.

(** ** Nodes that are written *)

Inductive subnode : node → node → Prop :=
| sub_refl n : subnode n n
| sub_short s k c f : subnode s c → subnode s (shortNode k c f)
| sub_full s cs f i c : cs !! i = Some c → subnode s c → subnode s (fullNode cs f).

(** Running two binds whose composition succeeds. *)
Lemma bind_pair {S E A B C} (m : st S E A) (f : A → st S E B) (g : B → st S E C) s s' b :
  (x ← m; f x) s = (s', Ok b) → (x ← m; y ← f x; g y) s = g b s'.
Proof. unfold mbind, st_bind. destruct (m s) as [s1 [x| | |]]; try done. intros Hf. by rewrite Hf. Qed.

Section stack.
Context (keccak256 : bytes → bytes) (db : bool).
Context (Hdigest : digest keccak256).
Abbreviation blob := (blob keccak256).
Abbreviation link := (link keccak256).
Abbreviation has := (has no_db).
Abbreviation wf := (wf no_db).
Abbreviation small := (small no_db).
Abbreviation st_hash := (st_hash keccak256 db).

(** Every node of the trie that has a hash is in the database. *)
Definition written (log : list (bytes * bytes)) (n : node) : Prop :=
  ∀ s, subnode s n → inner s → 32 ≤ len (blob s) → (keccak256 (blob s), blob s) ∈ log.
(** What a hashed stack trie keeps of a node. *)
Definition ref (n : node) : bytes := if len (blob n) <? 32 then blob n else keccak256 (blob n).

Lemma written_mono log log' n : log ⊆ log' → written log n → written log' n.
Proof. intros Hl Hw s Hs Hi Hb. by apply Hl, Hw. Qed.
Lemma written_value log v : written log (valueNode v).
Proof. intros s Hs Hi. by inversion Hs; subst. Qed.
Lemma written_Nil log : written log Nil.
Proof. intros s Hs Hi. by inversion Hs; subst. Qed.
Lemma written_short log k c f :
  written log c → (32 ≤ len (blob (shortNode k c f)) → (keccak256 (blob (shortNode k c f)), blob (shortNode k c f)) ∈ log) →
  written log (shortNode k c f).
Proof. intros Hc Hs s Hsub Hi Hb. inversion Hsub; subst; [auto|by apply Hc]. Qed.
Lemma written_full log cs f :
  (∀ i c, cs !! i = Some c → written log c) →
  (32 ≤ len (blob (fullNode cs f)) → (keccak256 (blob (fullNode cs f)), blob (fullNode cs f)) ∈ log) → written log (fullNode cs f).
Proof. intros Hc Hs s Hsub Hi Hb. inversion Hsub; subst; [auto|by eapply Hc]. Qed.

(** ** What a stack trie stands for *)

Inductive reps (log : list (bytes * bytes)) : StackTrie → node → Prop :=
| reps_leaf val key ko : reps log (mk_st leafNode val key ko no_children) (shortNode (key ++ [16]) (valueNode val) newFlag)
| reps_ext key ko c n : reps log c n → reps log (mk_st extNode [] key ko (<[0%nat := Some c]> no_children)) (shortNode key n newFlag)
| reps_branch ko cs ns :
    length cs = 16%nat → length ns = 16%nat →
    (∀ i c n, cs !! i = Some (Some c) → ns !! i = Some n → reps log c n) →
    (∀ i, cs !! i = Some None → ns !! i = Some Nil) →
    reps log (branch_at ko cs) (fullNode (ns ++ [Nil]) newFlag)
| reps_hashed ko cs n : inner n → (db = true → written log n) → reps log (mk_st hashedNode (ref n) [] ko cs) n.

Lemma reps_mono log log' s n : log ⊆ log' → reps log s n → reps log' s n.
Proof.
  intros Hl. induction 1 as [| |ko cs ns H1 H2 _ IH H4|]; constructor; try done. intros Hd. eapply written_mono; [done|auto].
Qed.
Lemma reps_inner log s n : reps log s n → inner n.
Proof. by destruct 1. Qed.

(** The path to the last key: the nodes that insertion may change, at depth [off]. *)
Inductive live : Z → StackTrie → Prop :=
| live_leaf val key ko cs : live ko (mk_st leafNode val key ko cs)
| live_ext val key ko c cs : live (ko + len key) c → live ko (mk_st extNode val key ko (Some c :: cs))
| live_branch ko cs i c :
    cs !! i = Some (Some c) → (∀ j, (i < j)%nat → cs !! j = Some None ∨ cs !! j = None) → live (ko + 1) c → live ko (branch_at ko cs).

(** ** Sizes *)

Lemma wf_inner n : wf n → inner n.
Proof. by destruct 1. Qed.
Lemma link_inner n : inner n → link n = if len (blob n) <? 32 then blob n else rlp_string (keccak256 (blob n)).
Proof. by destruct n. Qed.
Lemma encodes_ref n : inner n → encodes (child_gval (ref n)) (link n).
Proof.
  intros Hi. rewrite (link_inner n Hi). unfold child_gval, ref. destruct (Z.ltb_spec (len (blob n)) 32) as [Hlt|Hge].
  - by rewrite (proj2 (Z.ltb_lt _ _) Hlt).
  - rewrite (len_digest _ Hdigest). split; [by apply string_ok_digest|done].
Qed.
Lemma len_link_inner n : inner n → len (link n) ≤ 41.
Proof. intros Hi. apply (len_link keccak256 no_db Hdigest). by left. Qed.
Lemma len_concat_le {A} (l : list A) (f : A → bytes) B : (∀ x, x ∈ l → len (f x) ≤ B) → len (concat (map f l)) ≤ len l * B.
Proof.
  induction l as [|x l IH]; intros Hl; [done|]. cbn [map concat]. rewrite len_app, len_cons.
  specialize (IH ltac:(intros y Hy; apply Hl; by right)). specialize (Hl x ltac:(by left)). lia.
Qed.
Lemma len_short_blob k c : short_key k → len k < 2 ^ 33 → len (link c) < 2 ^ 34 → len (rlp_list (rlp_string (compact k) ++ link c)) < 2 ^ 60.
Proof.
  intros Hk Hl Hc. destruct (compact_ok (E:=unit) k Hk) as (_ & _ & Hlk). pose proof (len_nonneg (compact k)). pose proof (len_nonneg (link c)).
  pose proof (len_rlp_string_le (compact k) ltac:(unfold is_u64; lia)). pose proof (len_nonneg (rlp_string (compact k))).
  pose proof (len_rlp_list_le (rlp_string (compact k) ++ link c)) as Hr. rewrite len_app in Hr. unfold is_u64 in Hr. specialize (Hr ltac:(lia)). lia.
Qed.

(** ** Hashing *)

Lemma rlp_tmp_ok g b log : encodes g b → len b < 2 ^ 60 → rlp_tmp g log = (log, Ok b).
Proof. intros He Hl. unfold rlp_tmp, st_lift. by rewrite (EncodeToBytes_encodes _ _ He Hl). Qed.
(** A hashed node and the writes of its parts. *)
Definition hashes (log : list (bytes * bytes)) (s : StackTrie) (n : node) : Prop :=
  ∀ log0, log ⊆ log0 → ∃ log1 cs, st_hash s log0 = (log1, Ok (mk_st hashedNode (ref n) [] (keyOffset s) cs)) ∧ log0 ⊆ log1 ∧ (db = true → written log1 n).
Lemma hash_end_ok n ko cs log : ∃ log1,
  hash_end keccak256 db (blob n) ko cs log = (log1, Ok (mk_st hashedNode (ref n) [] ko cs)) ∧ log ⊆ log1 ∧
  (db = true → 32 ≤ len (blob n) → (keccak256 (blob n), blob n) ∈ log1).
Proof.
  unfold hash_end, ref. case_ltb; [exists log; split_and!; [done..|lia]|]. destruct db.
  - eexists. split; [done|]. split; [set_solver|]. intros _ _. apply elem_of_app. right. by left.
  - exists log. by split_and!.
Qed.
Lemma string_ok_len b : bytes_ok b → len b < 2 ^ 34 → string_ok b.
Proof. intros Hb Hl. split; [done|]. pose proof (len_nonneg b). unfold is_u64. lia. Qed.

Lemma compact_leaf_in_place key : Forall nibble key → ∃ sz buf,
  hexToCompactInPlace (E:=trie_err) (key ++ [16]) = Ok (sz, buf) ∧ go_slice (E:=trie_err) buf 0 sz = Ok (compact (key ++ [16])).
Proof.
  intros Hn. destruct (hexToCompactInPlace_hex_prefix (E:=trie_err) key true Hn) as (sz & buf & Hb & Htake & Hlen); [by destruct key|].
  pose proof (hexToCompactInPlace_size key true sz buf Hn Hb) as Hsz. exists sz, buf. split; [exact Hb|]. rewrite compact_leaf, <-Htake by done.
  unfold go_slice. rewrite length_hex_key in Hlen. assert (0 ≤ len key / 2 ≤ len key).
  { pose proof (len_nonneg key). pose proof (Z.div_pos (len key) 2). pose proof (Z.div_le_upper_bound (len key) 2 (len key)). lia. }
  rewrite decide_True by (unfold len in *; lia). by rewrite Z.sub_0_r, drop_0.
Qed.
Lemma hash_leaf_ok log val key ko cs :
  Forall nibble key → small_kv (key ++ [16]) val →
  hashes log (mk_st leafNode val key ko cs) (shortNode (key ++ [16]) (valueNode val) newFlag).
Proof.
  intros Hn (Hk & Hv & Hlv) log0 Hlog. destruct (compact_leaf_in_place key Hn) as (sz & buf & Hbuf & Hsl).
  assert (short_key (key ++ [16])) as Hsk by (by apply short_key_hexk; exists key).
  destruct (compact_ok (E:=unit) (key ++ [16]) Hsk) as (_ & Hcb & Hcl).
  assert (encodes (VSlice false [VBytes (compact (key ++ [16])); VBytes val]) (blob (shortNode (key ++ [16]) (valueNode val) newFlag))) as Henc.
  { cbn [TrieHash.blob link_of]. apply encodes_list. apply encodes_cons; [split; [apply string_ok_len; [done|lia]|done]|].
    rewrite <-(app_nil_r (rlp_string val)). apply encodes_cons; [split; [apply string_ok_len; [done|lia]|done]|apply encodes_nil]. }
  assert (len (link (valueNode val)) < 2 ^ 34) as Hlink.
  { pose proof (len_rlp_string_le val (proj2 (string_ok_len val Hv ltac:(lia)))). change (len (rlp_string val) < 2 ^ 34). lia. }
  pose proof (len_short_blob (key ++ [16]) (valueNode val) Hsk ltac:(lia) Hlink) as Hlen.
  destruct (hash_end_ok (shortNode (key ++ [16]) (valueNode val) newFlag) ko cs log0) as (log1 & He & Hsub & Hin).
  exists log1, cs. split_and!; [|done|intros Hd; apply written_short; [apply written_value|auto]].
  cbn [StackTrie.st_hash keyOffset]. rewrite (bind_ok_run _ _ log0 log0 (sz, buf)) by (unfold st_lift; by rewrite Hbuf).
  rewrite (bind_ok_run _ _ log0 log0 (compact (key ++ [16]))) by (unfold st_lift; by rewrite Hsl).
  by rewrite (bind_ok_run _ _ _ _ _ (rlp_tmp_ok _ _ log0 Henc Hlen)).
Qed.
Lemma hash_ext_ok log key ko c n rest :
  Forall nibble key → len key < 2 ^ 33 → inner n → hashes log c n →
  hashes log (mk_st extNode [] key ko (Some c :: rest)) (shortNode key n newFlag).
Proof.
  intros Hn Hk Hi Hc log0 Hlog. destruct (Hc log0 Hlog) as (log1 & cs1 & H1 & Hsub1 & Hw).
  pose proof (short_key_nibbles key Hn) as Hsk. destruct (compact_ok (E:=trie_err) key Hsk) as (Hcomp & Hcb & Hcl).
  assert (encodes (VStruct [(false, false, VBytes (compact key)); (false, false, child_gval (ref n))]) (blob (shortNode key n newFlag))) as Henc.
  { cbn [TrieHash.blob]. apply encodes_pair; [apply string_ok_len; [done|lia]|by apply encodes_ref]. }
  pose proof (len_short_blob key n Hsk Hk ltac:(pose proof (len_link_inner n Hi); lia)) as Hlen.
  destruct (hash_end_ok (shortNode key n newFlag) ko (None :: rest) log1) as (log2 & He & Hsub & Hin).
  exists log2, (None :: rest). split_and!; [|set_solver|intros Hd; apply written_short; [eapply written_mono; [done|auto]|auto]].
  cbn [StackTrie.st_hash keyOffset]. rewrite (bind_ok_run _ _ _ _ _ H1). cbn [st_val].
  rewrite (bind_ok_run _ _ log1 log1 (compact key)) by (unfold st_lift; by rewrite Hcomp).
  by rewrite (bind_ok_run _ _ _ _ _ (rlp_tmp_ok _ _ log1 Henc Hlen)).
Qed.
Lemma hash_kids_ok log cs ns log0 :
  length cs = length ns → (∀ i c n, cs !! i = Some (Some c) → ns !! i = Some n → inner n ∧ hashes log c n) →
  (∀ i, cs !! i = Some None → ns !! i = Some Nil) → log ⊆ log0 →
  ∃ log1 gs, hash_kids st_hash cs log0 = (log1, Ok gs) ∧ log0 ⊆ log1 ∧
    (∀ gs' b, encodes (VSlice true gs') b → encodes (VSlice true (gs ++ gs')) (concat (map link ns) ++ b)) ∧
    len (concat (map link ns)) ≤ len ns * 41 ∧ (db = true → ∀ i n, ns !! i = Some n → written log1 n).
Proof.
  revert ns log0. induction cs as [|oc cs IH]; intros [|n ns] log0 Hlen Hc Hnil Hlog; try done; [by exists log0, []|].
  assert (∀ log1, log ⊆ log1 → ∃ log2 gs, hash_kids st_hash cs log1 = (log2, Ok gs) ∧ log1 ⊆ log2 ∧
    (∀ gs' b, encodes (VSlice true gs') b → encodes (VSlice true (gs ++ gs')) (concat (map link ns) ++ b)) ∧
    len (concat (map link ns)) ≤ len ns * 41 ∧ (db = true → ∀ i n, ns !! i = Some n → written log2 n)) as IH'.
  { intros log1 Hl1. apply IH; [by injection Hlen|intros i; apply (Hc (S i))|intros i; apply (Hnil (S i))|done]. }
  clear IH. cbn [map concat]. rewrite len_app, len_cons. destruct oc as [c|].
  - destruct (Hc 0%nat c n eq_refl eq_refl) as [Hi Hh]. destruct (Hh log0 Hlog) as (log1 & cs1 & H1 & Hs1 & Hw1).
    destruct (IH' log1 ltac:(set_solver)) as (log2 & gs & H2 & Hs2 & Henc & Hl & Hw2). exists log2, (child_gval (ref n) :: gs). split_and!.
    + cbn [hash_kids]. rewrite (bind_ok_run _ _ _ _ _ H1). by rewrite (bind_ok_run _ _ _ _ _ H2).
    + set_solver.
    + intros gs' b Hb. rewrite <-app_assoc. apply encodes_cons; [by apply encodes_ref|by apply Henc].
    + pose proof (len_link_inner n Hi). lia.
    + intros Hd [|i] m Hm; [injection Hm as <-; eapply written_mono; [done|auto]|by eapply Hw2].
  - pose proof (Hnil 0%nat eq_refl) as [= ->]. destruct (IH' log0 Hlog) as (log2 & gs & H2 & Hs2 & Henc & Hl & Hw2). exists log2, (VBytes [] :: gs). split_and!.
    + cbn [hash_kids]. by rewrite (bind_ok_run _ _ _ _ _ H2).
    + done.
    + intros gs' b Hb. rewrite <-app_assoc. apply encodes_cons; [split; [by split; [constructor|]|done]|by apply Henc].
    + change (len (link Nil)) with 1. lia.
    + intros Hd [|i] m Hm; [injection Hm as <-; apply written_Nil|by eapply Hw2].
Qed.
Lemma hash_branch_ok log ko cs ns :
  length cs = 16%nat → length ns = 16%nat → (∀ i c n, cs !! i = Some (Some c) → ns !! i = Some n → inner n ∧ hashes log c n) →
  (∀ i, cs !! i = Some None → ns !! i = Some Nil) → hashes log (branch_at ko cs) (fullNode (ns ++ [Nil]) newFlag).
Proof.
  intros Hl Hl' Hc Hnil log0 Hlog. destruct (hash_kids_ok log cs ns log0 ltac:(lia) Hc Hnil Hlog) as (log1 & gs & H1 & Hs1 & Henc & Hlen & Hw).
  assert (blob (fullNode (ns ++ [Nil]) newFlag) = rlp_list (concat (map link ns) ++ rlp_string [])) as Hb.
  { cbn [TrieHash.blob]. by rewrite map_app, concat_app. }
  assert (encodes (VSlice false (gs ++ [VBytes []])) (blob (fullNode (ns ++ [Nil]) newFlag))) as He.
  { rewrite Hb. apply encodes_list, Henc. rewrite <-(app_nil_r (rlp_string [])). apply encodes_cons; [split; [by split; [constructor|]|done]|apply encodes_nil]. }
  assert (len (blob (fullNode (ns ++ [Nil]) newFlag)) < 2 ^ 60) as Hlb.
  { rewrite Hb. pose proof (len_nonneg (concat (map link ns))). unfold len at 2 in Hlen. rewrite Hl' in Hlen.
    pose proof (len_rlp_list_le (concat (map link ns) ++ rlp_string [])) as Hr. rewrite len_app in Hr. change (len (rlp_string [])) with 1 in Hr.
    unfold is_u64 in Hr. specialize (Hr ltac:(lia)). lia. }
  destruct (hash_end_ok (fullNode (ns ++ [Nil]) newFlag) ko no_children log1) as (log2 & H2 & Hs2 & Hin).
  exists log2, no_children. split_and!; [|set_solver|].
  - cbn [StackTrie.st_hash branch_at keyOffset]. rewrite (bind_ok_run _ _ _ _ _ H1). by rewrite (bind_ok_run _ _ _ _ _ (rlp_tmp_ok _ _ log1 He Hlb)).
  - intros Hd. apply written_full; [|auto]. intros i c Hi. apply lookup_app_Some in Hi as [Hi|[_ Hi]].
    + eapply written_mono; [done|by eapply Hw].
    + apply list_lookup_singleton_Some in Hi as [_ <-]. apply written_Nil.
Qed.

Lemma wf_leaf_key key v f : wf (shortNode (key ++ [16]) (valueNode v) f) → Forall nibble key.
Proof.
  inversion 1 as [? ? ? (ns & Hn & Hk) Hv|? ? ? _ Hn Hc| |]; subst; [by apply app_inv_tail in Hk as ->|by inversion Hc].
Qed.
Lemma wf_ext_inv k n f : wf (shortNode k n f) → inner n → k ≠ [] ∧ Forall nibble k ∧ wf n ∧ branch no_db n.
Proof. inversion 1; subst; intros Hi; [by destruct Hi|by split_and!]. Qed.
Lemma wf_full_child ns f i n : wf (fullNode (ns ++ [Nil]) f) → length ns = 16%nat → ns !! i = Some n → n ≠ Nil → wf n.
Proof.
  intros Hwf Hl Hi Hn. inversion Hwf as [| |? ? _ Hc _ _|]; subst. pose proof (lookup_lt_Some _ _ _ Hi). apply (Hc i); [lia| |done].
  by apply lookup_app_l_Some.
Qed.

Lemma reps_hashes log s n : reps log s n → wf n → small n → hashes log s n.
Proof.
  induction 1 as [val key ko|key ko c n Hr IH|ko cs ns Hl Hl' Hr IH Hnil|ko cs n Hi Hw]; intros Hwf Hsm.
  - apply hash_leaf_ok; [by eapply wf_leaf_key|]. apply Hsm, has_short_iff. exists []. rewrite app_nil_r. by rewrite has_value_iff.
  - destruct (wf_ext_inv _ _ _ Hwf (reps_inner _ _ _ Hr)) as (_ & Hn & Hwn & _). apply small_short in Hsm as [Hs Hlen].
    apply hash_ext_ok; [done|specialize (Hlen (wf_inhabited _ n Hwn)); lia|by eapply reps_inner|auto].
  - apply hash_branch_ok; [done..| |done]. intros i c n Hc Hn. pose proof (reps_inner _ _ _ (Hr i c n Hc Hn)) as Hin. split; [done|].
    apply (IH i); [done..|eapply wf_full_child; [done..|by intros ->]|]. eapply (small_full no_db _ _ i); [done|by apply lookup_app_l_Some].
  - intros log0 Hlog. exists log0, cs. split_and!; [done..|]. intros Hd. eapply written_mono; [done|auto].
Qed.
(** A hashed node takes the place of the node. *)
Lemma hashes_reps log s n log0 : inner n → hashes log s n → log ⊆ log0 →
  ∃ log1 s', st_hash s log0 = (log1, Ok s') ∧ log0 ⊆ log1 ∧ reps log1 s' n.
Proof.
  intros Hi Hh Hl. destruct (Hh log0 Hl) as (log1 & cs & H1 & Hs & Hw). exists log1, (mk_st hashedNode (ref n) [] (keyOffset s) cs). split_and!; [done..|].
  by constructor.
Qed.

(** ** Keys in order *)

(** [k1] comes before [k2], and neither is a prefix of the other. *)
Definition before (k1 k2 : bytes) : Prop := ∃ p y x b a, k1 = p ++ y :: b ∧ k2 = p ++ x :: a ∧ y < x < 16.
Definition above (n : node) (key : bytes) : Prop := ∀ k v, has n k v → before k key.

Lemma before_cons z k1 k2 : before (z :: k1) (z :: k2) ↔ before k1 k2.
Proof.
  split.
  - intros ([|w p] & y & x & b & a & H1 & H2 & Hyx); cbn in *; injection H1 as ? ?; injection H2 as ? ?; [lia|]. by exists p, y, x, b, a.
  - intros (p & y & x & b & a & -> & -> & Hyx). by exists (z :: p), y, x, b, a.
Qed.
Lemma before_app s k1 k2 : before (s ++ k1) (s ++ k2) ↔ before k1 k2.
Proof. induction s as [|z s IH]; [done|]. cbn. by rewrite before_cons. Qed.
Lemma app_16 l k z r : l ++ [16] = k ++ z :: r → z < 16 → ∃ r', r = r' ++ [16] ∧ l = k ++ z :: r'.
Proof.
  intros Heq Hz. destruct r as [|w r _] using rev_ind; [apply app_inj_2 in Heq as [_ [= <-]]; [lia|done]|].
  assert (l ++ [16] = (k ++ z :: r) ++ [w]) as E by (by rewrite <-app_assoc). apply app_inj_tail in E as [-> ->]. by exists r.
Qed.
Lemma before_16 k1 k2 : before k1 (k2 ++ [16]) → ∃ p y x b a, k1 = p ++ y :: b ∧ k2 = p ++ x :: a ∧ y < x < 16.
Proof. intros (p & y & x & b & a & -> & H2 & Hyx). apply app_16 in H2 as (a' & -> & ->); [|lia]. by exists p, y, x, b, a'. Qed.
Lemma above_irrefl n key v : above n key → ¬ has n key v.
Proof.
  intros Ha Hh. destruct (Ha _ _ Hh) as (p & y & x & b & a & -> & H2 & Hyx). apply app_inv_head in H2. injection H2 as ? ?. lia.
Qed.

(** The departure of a key chunk from the key. *)
Lemma diff_loop_split p y b x a key pos : 0 ≤ pos → drop (Z.to_nat pos) key = p ++ x :: a → y ≠ x → diff_loop (p ++ y :: b) key pos = Ok (len p).
Proof.
  revert pos. induction p as [|z p IH]; intros pos Hpos Hd Hne; cbn [app diff_loop].
  - rewrite <-(Z2Nat.id pos) at 1 by done. rewrite (go_index_drop key _ x a) by done. cbn [mbind res_bind]. by rewrite (proj2 (Z.eqb_neq y x)).
  - rewrite <-(Z2Nat.id pos) at 1 by done. rewrite (go_index_drop key _ z (p ++ x :: a)) by done. cbn [mbind res_bind]. rewrite Z.eqb_refl.
    rewrite IH; [cbn [mbind res_bind]; rewrite len_cons; f_equal; lia|lia| |done].
    replace (Z.to_nat (pos + 1)) with (Z.to_nat pos + 1)%nat by lia. by rewrite <-drop_drop, Hd.
Qed.
Lemma diff_loop_prefix k r key pos : 0 ≤ pos → drop (Z.to_nat pos) key = k ++ r → diff_loop k key pos = Ok (len k).
Proof.
  revert pos. induction k as [|z k IH]; intros pos Hpos Hd; cbn [diff_loop]; [done|].
  rewrite <-(Z2Nat.id pos) at 1 by done. rewrite (go_index_drop key _ z (k ++ r)) by done. cbn [mbind res_bind]. rewrite Z.eqb_refl.
  rewrite IH; [cbn [mbind res_bind]; rewrite len_cons; f_equal; lia|lia|].
  replace (Z.to_nat (pos + 1)) with (Z.to_nat pos + 1)%nat by lia. by rewrite <-drop_drop, Hd.
Qed.
Lemma newLeaf_ok ko key val log : 0 ≤ ko ≤ len key → newLeaf ko key val log = (log, Ok (mk_st leafNode val (drop (Z.to_nat ko) key) ko no_children)).
Proof.
  intros Hko. unfold newLeaf, mbind, st_bind, st_lift, go_slice. rewrite decide_True by lia. rewrite take_ge; [done|]. rewrite length_drop. unfold len. lia.
Qed.
Lemma newExt_ok ko key c log : 0 ≤ ko ≤ len key → newExt ko key c log = (log, Ok (mk_st extNode [] (drop (Z.to_nat ko) key) ko (<[0%nat := Some c]> no_children))).
Proof.
  intros Hko. unfold newExt, mbind, st_bind, st_lift, go_slice. rewrite decide_True by lia. rewrite take_ge; [done|]. rewrite length_drop. unfold len. lia.
Qed.

(** ** Splitting a node *)

Lemma lookup_no_children i c : no_children !! i = Some c → c = None.
Proof. by intros [-> _]%lookup_replicate. Qed.
Lemma length_no_children : length no_children = 16%nat.
Proof. done. Qed.
Lemma reps_two log ko x y cx cy nx ny :
  nibble x → nibble y → x ≠ y → reps log cx nx → reps log cy ny →
  reps log (branch_at ko (<[Z.to_nat x := Some cx]> (<[Z.to_nat y := Some cy]> no_children)))
    (fullNode (<[Z.to_nat x := nx]> (<[Z.to_nat y := ny]> (replicate 17 Nil))) newFlag).
Proof.
  unfold nibble. intros Hx Hy Hxy Hcx Hcy. change (replicate 17 Nil) with (replicate 16 Nil ++ [Nil]).
  rewrite !insert_app_l by (rewrite ?length_insert, length_replicate; lia).
  apply reps_branch; [by rewrite !length_insert..| |].
  - intros i c n Hc Hn. apply list_lookup_insert_Some in Hc as [(<- & [= <-] & _)|[Hne Hc]].
    { rewrite list_lookup_insert_eq in Hn by (rewrite length_insert, length_replicate; lia). by injection Hn as <-. }
    rewrite list_lookup_insert_ne in Hn by done. apply list_lookup_insert_Some in Hc as [(<- & [= <-] & _)|[Hne' Hc]].
    { rewrite list_lookup_insert_eq in Hn by (rewrite length_replicate; lia). by injection Hn as <-. }
    by apply lookup_no_children in Hc.
  - intros i Hc. apply list_lookup_insert_Some in Hc as [(_ & ? & _)|[Hne Hc]]; [done|].
    apply list_lookup_insert_Some in Hc as [(_ & ? & _)|[Hne' Hc]]; [done|]. rewrite !list_lookup_insert_ne by done.
    apply lookup_lt_Some in Hc. apply lookup_replicate_2. by rewrite length_no_children in Hc.
Qed.
Lemma live_two ko x y cx cy :
  nibble x → nibble y → y < x → live (ko + 1) cx → live ko (branch_at ko (<[Z.to_nat x := Some cx]> (<[Z.to_nat y := Some cy]> no_children))).
Proof.
  unfold nibble. intros Hx Hy Hyx Hl. apply (live_branch _ _ (Z.to_nat x) cx); [|intros j Hj|done].
  - apply list_lookup_insert_eq. rewrite length_insert, length_no_children. lia.
  - rewrite !list_lookup_insert_ne by lia. destruct (no_children !! j) eqn:Hn; [left; f_equal; by eapply lookup_no_children|by right].
Qed.

(** The stack trie after a split below the path [p]. *)
Definition split_st (p : bytes) (ko : Z) (pcs : list (option StackTrie)) : StackTrie :=
  if len p =? 0 then branch_at ko pcs else mk_st extNode [] p ko (<[0%nat := Some (branch_at (ko + len p) pcs)]> no_children).
Definition split_cs (x : Z) (o : StackTrie) (y : Z) (l : StackTrie) : list (option StackTrie) :=
  <[Z.to_nat x := Some o]> (<[Z.to_nat y := Some l]> no_children).
Lemma split_st_ok log ko p x a y b c v0 sy lo :
  nibble x → nibble y → y < x → lo = ko + len p + 1 → reps log sy (mk_short b c) →
  reps log (split_st p ko (split_cs x (mk_st leafNode v0 a lo no_children) y sy)) (split_node p x (a ++ [16]) y b c v0) ∧
  live ko (split_st p ko (split_cs x (mk_st leafNode v0 a lo no_children) y sy)).
Proof.
  intros Hx Hy Hyx -> Hsy. assert (∀ ko', ko' = ko + len p → reps log (branch_at ko' (split_cs x (mk_st leafNode v0 a (ko + len p + 1) no_children) y sy))
    (fullNode (<[Z.to_nat x := mk_short (a ++ [16]) (valueNode v0)]> (<[Z.to_nat y := mk_short b c]> (replicate 17 Nil))) newFlag) ∧
    live ko' (branch_at ko' (split_cs x (mk_st leafNode v0 a (ko + len p + 1) no_children) y sy))) as Hbr.
  { intros ko' ->. split; [apply reps_two; [done..|lia| |done]|apply live_two; [done..|constructor]].
    assert (mk_short (a ++ [16]) (valueNode v0) = shortNode (a ++ [16]) (valueNode v0) newFlag) as -> by (by destruct a). constructor. }
  unfold split_st, split_node. destruct p as [|z p].
  - change (len [] =? 0) with true. cbn [mk_short]. apply Hbr. change (len []) with 0. lia.
  - rewrite (proj2 (Z.eqb_neq (len (z :: p)) 0)) by (rewrite len_cons; pose proof (len_nonneg p); lia). cbn [mk_short].
    destruct (Hbr (ko + len (z :: p)) eq_refl) as [Hr Hl]. split; [by constructor|]. by constructor.
Qed.

(** ** Insertion *)

Abbreviation st_insert := (st_insert keccak256 db).
(** Insertion into [s], which stands for [n], at depth [off]. *)
Definition inserts (fuel : nat) (log : list (bytes * bytes)) (s : StackTrie) (n : node) (off : Z) (key value : bytes) : Prop :=
  ∃ log' s' n', st_insert fuel s key value log = (log', Ok s') ∧ log ⊆ log' ∧ reps log' s' n' ∧ live off s' ∧
    wf n' ∧ inserted no_db n n' (drop (Z.to_nat off) key ++ [16]) value ∧ (branch no_db n → branch no_db n').

Lemma go_set_no_children {E} x c : nibble x → go_set (E:=E) no_children x c = Ok (<[Z.to_nat x := c]> no_children).
Proof. unfold nibble. intros Hx. unfold go_set. by rewrite decide_True by (change (len no_children) with 16; lia). Qed.
Lemma go_set_two {E} x c y d : nibble x → go_set (E:=E) (<[Z.to_nat y := d]> no_children) x c = Ok (<[Z.to_nat x := c]> (<[Z.to_nat y := d]> no_children)).
Proof.
  unfold nibble. intros Hx. unfold go_set. rewrite decide_True; [done|]. unfold len. rewrite length_insert, length_no_children. lia.
Qed.
Lemma go_index_mid {E} (p : bytes) x a : go_index (E:=E) (p ++ x :: a) (len p) = Ok x.
Proof. apply (go_index_drop _ _ _ a). apply drop_app_length. Qed.
(** Positions of the key below depth [ko]. *)
Lemma key_at {E} (key : bytes) ko (p : bytes) x a : 0 ≤ ko → drop (Z.to_nat ko) key = p ++ x :: a →
  go_index (E:=E) key (len p + ko) = Ok x ∧ drop (Z.to_nat (ko + len p + 1)) key = a ∧ ko + len p + 1 ≤ len key.
Proof.
  intros Hko Hd. assert (drop (Z.to_nat (ko + len p)) key = x :: a) as Hx.
  { replace (Z.to_nat (ko + len p)) with (Z.to_nat ko + length p)%nat by (unfold len; lia). by rewrite <-drop_drop, Hd, drop_app_length. }
  split_and!.
  - replace (len p + ko) with (Z.of_nat (Z.to_nat (ko + len p))) by (pose proof (len_nonneg p); lia). by apply (go_index_drop _ _ _ a).
  - replace (Z.to_nat (ko + len p + 1)) with (Z.to_nat (ko + len p) + 1)%nat by (pose proof (len_nonneg p); lia). by rewrite <-drop_drop, Hx.
  - apply (f_equal length) in Hx. rewrite length_drop in Hx. cbn in Hx. unfold len in *. lia.
Qed.
Lemma drop_mid (p : bytes) y b : drop (Z.to_nat (len p + 1)) (p ++ y :: b) = b.
Proof. replace (Z.to_nat (len p + 1)) with (length p + 1)%nat by (unfold len; lia). by rewrite <-drop_drop, drop_app_length. Qed.
Lemma take_mid (p r : bytes) : take (Z.to_nat (len p)) (p ++ r) = p.
Proof. unfold len. rewrite Nat2Z.id. apply take_app_length. Qed.

Lemma insert_leaf_ok fuel log val skey ko key value :
  wf (shortNode (skey ++ [16]) (valueNode val) newFlag) → small (shortNode (skey ++ [16]) (valueNode val) newFlag) →
  Forall nibble key → 0 ≤ ko → value ≠ [] → above (shortNode (skey ++ [16]) (valueNode val) newFlag) (drop (Z.to_nat ko) key ++ [16]) →
  inserts (S fuel) log (mk_st leafNode val skey ko no_children) (shortNode (skey ++ [16]) (valueNode val) newFlag) ko key value.
Proof.
  intros Hwf Hsm Hn Hko Hv Ha. pose proof (wf_leaf_key _ _ _ Hwf) as Hs.
  assert (has (shortNode (skey ++ [16]) (valueNode val) newFlag) (skey ++ [16]) val) as Hh.
  { apply has_short_iff. exists []. rewrite app_nil_r. by rewrite has_value_iff. }
  destruct (before_16 _ _ (Ha _ _ Hh)) as (p & y & x & b0 & a & H1 & Hd & Hyx). apply app_16 in H1 as (b & -> & ->); [|lia].
  pose proof Hs as [Hp [Hy Hb]%Forall_cons_iff]%Forall_app.
  assert (Forall nibble (p ++ x :: a)) as [_ [Hx Hna]%Forall_cons_iff]%Forall_app by (rewrite <-Hd; by apply Forall_drop).
  destruct (key_at (E:=trie_err) key ko p x a Hko Hd) as (Hix & Hda & Hle). pose proof (len_nonneg p) as Hlp.
  destruct (hashes_reps log (mk_st leafNode val b (len p + 1) no_children) (shortNode (b ++ [16]) (valueNode val) newFlag) log) as (log1 & sy & Hhash & Hsub & Hsy); [done| |done|].
  { apply hash_leaf_ok; [done|]. destruct (Hsm _ _ Hh) as (Hl & Hvs). rewrite <-app_assoc, len_app in Hl. cbn [app] in Hl. rewrite len_cons in Hl. split; [lia|done]. }
  destruct (split_st_ok log1 ko p x a y (b ++ [16]) (valueNode val) value sy (ko + len p + 1)) as [Hr Hl]; [done..|lia|done| |].
  { by destruct b. }
  destruct (split_node_ok no_db p x (a ++ [16]) y (b ++ [16]) (valueNode val) newFlag value) as [Hwf' Hins]; [lia| | |done|].
  { apply hexk_app; [done|]. apply hexk_cons. right. split; [done|by exists a]. }
  { left. split; [|inversion Hwf as [? ? ? ? Hval| ? ? ? ? ? Hc| |]; subst; [by exists val|by inversion Hc]].
    apply hexk_app; [done|]. apply hexk_cons. right. split; [done|by exists b]. }
  exists log1. do 2 eexists. split_and!; [|done|exact Hr|exact Hl|exact Hwf'| |done].
  2: { rewrite Hd, <-!app_assoc. exact Hins. }
  cbn [StackTrie.st_insert]. unfold getDiffIndex. cbn [st_key keyOffset].
  rewrite (bind_ok_run _ _ log log (len p)) by (unfold st_lift; by rewrite (diff_loop_split p y b x a key ko) by (done || lia)).
  rewrite (proj2 (Z.leb_gt (len (p ++ y :: b)) (len p))) by (rewrite len_app, len_cons; pose proof (len_nonneg b); lia).
  rewrite (bind_ok_run _ _ log log y) by (unfold st_lift; by rewrite go_index_mid).
  rewrite (bind_ok_run _ _ _ _ _ (newLeaf_ok (len p + 1) (p ++ y :: b) val log ltac:(rewrite len_app, len_cons; pose proof (len_nonneg b); lia))), drop_mid.
  rewrite (bind_ok_run _ _ _ _ _ Hhash).
  assert ((if len p =? 0 then <[0%nat := None]> no_children else no_children) = no_children) as -> by (by destruct (len p =? 0)).
  rewrite (bind_ok_run _ _ log1 log1 _) by (unfold st_lift; by rewrite go_set_no_children).
  rewrite (bind_ok_run _ _ log1 log1 x) by (unfold st_lift; by rewrite Hix).
  assert ((if len p =? 0 then ko else ko + len p) = ko + len p) as -> by (destruct (Z.eqb_spec (len p) 0); lia).
  rewrite (bind_ok_run _ _ _ _ _ (newLeaf_ok (ko + len p + 1) key value log1 ltac:(lia))), Hda.
  rewrite (bind_ok_run _ _ log1 log1 _) by (unfold st_lift; by rewrite go_set_two).
  rewrite take_mid. unfold split_st, split_cs. by destruct (len p =? 0).
Qed.

(** The part of an extension below the split, hashed. *)
Lemma ext_rest_ok log p y b c n :
  reps log c n → wf (shortNode (p ++ y :: b) n newFlag) → small (shortNode (p ++ y :: b) n newFlag) →
  ∃ log1 sy, (m ← (if len p <? len (p ++ y :: b) - 1 then newExt (len p + 1) (p ++ y :: b) c else mret c); st_hash m) log = (log1, Ok sy) ∧
    log ⊆ log1 ∧ reps log1 sy (mk_short b n).
Proof.
  intros Hr Hwf Hsm. pose proof (reps_inner _ _ _ Hr) as Hi. destruct (wf_ext_inv _ _ _ Hwf Hi) as (_ & Hn & Hwn & Hbr).
  apply small_short in Hsm as [Hsn Hl]. specialize (Hl (wf_inhabited _ n Hwn)). rewrite len_app, len_cons in *. pose proof (len_nonneg b). pose proof (len_nonneg p).
  apply Forall_app in Hn as [_ [_ Hb]%Forall_cons_iff]. destruct b as [|z b].
  - change (len []) with 0. destruct (Z.ltb_spec (len p) (len p + (1 + 0) - 1)); [lia|].
    destruct (hashes_reps log c n log Hi (reps_hashes log c n Hr Hwn Hsn) ltac:(done)) as (log1 & sy & Hh & Hs & Hry). by exists log1, sy.
  - rewrite len_cons in *. pose proof (len_nonneg b). destruct (Z.ltb_spec (len p) (len p + (1 + (1 + len b)) - 1)); [|lia].
    destruct (hashes_reps log (mk_st extNode [] (z :: b) (len p + 1) (<[0%nat := Some c]> no_children)) (shortNode (z :: b) n newFlag) log) as (log1 & sy & Hh & Hs & Hry); [done| |done|].
    { apply (hash_ext_ok log (z :: b) (len p + 1) c n (replicate 15 None)); [done|rewrite len_cons; lia|done|by apply reps_hashes]. }
    exists log1, sy. split; [|done]. rewrite (bind_ok_run _ _ _ _ _ (newExt_ok (len p + 1) (p ++ y :: z :: b) c log ltac:(rewrite len_app, !len_cons; lia))), drop_mid. done.
Qed.

(** A chunk that is not a prefix of the key departs from it before its end. *)
Lemma chunk_diverges (skey k0 p : bytes) y b0 x a :
  skey ++ k0 = p ++ y :: b0 → ¬ skey `prefix_of` p ++ x :: a → ∃ b, skey = p ++ y :: b.
Proof.
  intros H1 Hnp. destruct (decide (length skey ≤ length p)%nat) as [Hle|Hgt].
  - destruct Hnp. apply prefix_app_r. apply app_eq_inv in H1 as [(r & -> & _)|(r & -> & _)]; [|by apply prefix_app_r].
    rewrite length_app in Hle. destruct r; [by rewrite app_nil_r|cbn in Hle; lia].
  - apply app_eq_inv in H1 as [(r & -> & E)|(r & -> & _)]; [|rewrite length_app in Hgt; lia].
    rewrite length_app in Hgt. destruct r as [|w r]; [cbn in Hgt; lia|]. cbn in E. injection E as <- _. by exists r.
Qed.
Lemma insert_ext_ok fuel log skey ko c n key value :
  reps log c n → live (ko + len skey) c → wf (shortNode skey n newFlag) → small (shortNode skey n newFlag) →
  Forall nibble key → 0 ≤ ko → value ≠ [] → above (shortNode skey n newFlag) (drop (Z.to_nat ko) key ++ [16]) →
  (∀ r, drop (Z.to_nat ko) key = skey ++ r → above n (drop (Z.to_nat (ko + len skey)) key ++ [16]) → inserts fuel log c n (ko + len skey) key value) →
  inserts (S fuel) log (mk_st extNode [] skey ko (<[0%nat := Some c]> no_children)) (shortNode skey n newFlag) ko key value.
Proof.
  intros Hr Hl Hwf Hsm Hn Hko Hv Ha IH. pose proof (reps_inner _ _ _ Hr) as Hi. destruct (wf_ext_inv _ _ _ Hwf Hi) as (Hne & Hs & Hwn & Hbr).
  change (<[0%nat := Some c]> no_children) with (Some c :: replicate 15 None).
  destruct (wf_inhabited _ n Hwn) as (k0 & v0 & Hk0). pose proof (len_nonneg skey) as Hls.
  destruct (decide (skey `prefix_of` drop (Z.to_nat ko) key)) as [[r Hd]|Hnp].
  - assert (drop (Z.to_nat (ko + len skey)) key = r) as Hd'.
    { replace (Z.to_nat (ko + len skey)) with (Z.to_nat ko + length skey)%nat by (unfold len; lia). by rewrite <-drop_drop, Hd, drop_app_length. }
    destruct (IH r Hd) as (log1 & s' & n' & H1 & Hsub & Hr' & Hl' & Hwn' & Hins & Hbr').
    { rewrite Hd'. intros k v Hk. specialize (Ha (skey ++ k) v ltac:(by constructor)). rewrite Hd, <-app_assoc in Ha. by apply before_app in Ha. }
    exists log1, (mk_st extNode [] skey ko (Some s' :: replicate 15 None)), (shortNode skey n' newFlag). split_and!; [|done| |by constructor|by constructor; auto| |done].
    + cbn [StackTrie.st_insert]. unfold getDiffIndex. cbn [st_key keyOffset].
      rewrite (bind_ok_run _ _ log log (len skey)) by (unfold st_lift; by rewrite (diff_loop_prefix skey r key ko)).
      rewrite Z.eqb_refl. by rewrite (bind_ok_run _ _ _ _ _ H1).
    + by apply (reps_ext log1 skey ko s' n').
    + rewrite Hd, <-app_assoc. apply inserted_short. by rewrite Hd' in Hins.
  - destruct (before_16 _ _ (Ha (skey ++ k0) v0 ltac:(by constructor))) as (p & y & x & b0 & a & H1 & Hd & Hyx).
    destruct (chunk_diverges skey k0 p y b0 x a H1) as [b ->]; [by rewrite <-Hd|].
    pose proof Hs as [Hp [Hy Hb]%Forall_cons_iff]%Forall_app.
    assert (Forall nibble (p ++ x :: a)) as [_ [Hx Hna]%Forall_cons_iff]%Forall_app by (rewrite <-Hd; by apply Forall_drop).
    destruct (key_at (E:=trie_err) key ko p x a Hko Hd) as (Hix & Hda & Hle). pose proof (len_nonneg p) as Hlp. pose proof (len_nonneg b) as Hlb.
    destruct (ext_rest_ok log p y b c n Hr Hwf Hsm) as (log1 & sy & Hhash & Hsub & Hsy).
    destruct (split_st_ok log1 ko p x a y b n value sy (ko + len p + 1)) as [Hr' Hl']; [done..|lia|done|done|].
    destruct (split_node_ok no_db p x (a ++ [16]) y b n newFlag value) as [Hwf' Hins]; [lia| |by right|done|].
    { apply hexk_app; [done|]. apply hexk_cons. right. split; [done|by exists a]. }
    exists log1. do 2 eexists. split_and!; [|done|exact Hr'|exact Hl'|exact Hwf'| |done].
    2: { rewrite Hd, <-app_assoc. exact Hins. }
    cbn [StackTrie.st_insert]. unfold getDiffIndex. cbn [st_key keyOffset].
    rewrite (bind_ok_run _ _ log log (len p)) by (unfold st_lift; by rewrite (diff_loop_split p y b x a key ko) by (done || lia)).
    rewrite (proj2 (Z.eqb_neq (len p) (len (p ++ y :: b)))) by (rewrite len_app, len_cons; lia).
    rewrite (bind_pair _ _ _ _ _ _ Hhash).
    rewrite (bind_ok_run _ _ _ _ _ (newLeaf_ok (ko + len p + 1) key value log1 ltac:(lia))), Hda.
    rewrite (bind_ok_run _ _ log1 log1 y) by (unfold st_lift; by rewrite go_index_mid).
    rewrite (bind_ok_run _ _ log1 log1 x) by (unfold st_lift; by rewrite Hix).
    assert ((if len p =? 0 then None :: replicate 15 None else no_children) = no_children) as -> by (by destruct (len p =? 0)).
    rewrite (bind_ok_run _ _ log1 log1 _) by (unfold st_lift; by rewrite go_set_no_children).
    rewrite (bind_ok_run _ _ log1 log1 _) by (unfold st_lift; by rewrite go_set_two).
    rewrite take_mid. unfold split_st, split_cs. by destruct (len p =? 0).
Qed.

(** The children of a branch and the tries they stand for. *)
Definition kids (log : list (bytes * bytes)) (cs : list (option StackTrie)) (ns : list node) : Prop :=
  length cs = 16%nat ∧ length ns = 16%nat ∧ (∀ i c n, cs !! i = Some (Some c) → ns !! i = Some n → reps log c n) ∧
  (∀ i, cs !! i = Some None → ns !! i = Some Nil).
Lemma kids_mono log log' cs ns : log ⊆ log' → kids log cs ns → kids log' cs ns.
Proof. intros Hl (H1 & H2 & H3 & H4). split_and!; [done..| |done]. intros i c n Hc Hn. eapply reps_mono; eauto. Qed.
Lemma kids_set log cs ns i c n : kids log cs ns → (i < 16)%nat → reps log c n → kids log (<[i := Some c]> cs) (<[i := n]> ns).
Proof.
  intros (H1 & H2 & H3 & H4) Hi Hr. split_and!; [by rewrite length_insert..| |].
  - intros j c' n' Hc Hn. apply list_lookup_insert_Some in Hc as [(<- & [= <-] & _)|[Hne Hc]].
    + rewrite list_lookup_insert_eq in Hn by lia. by injection Hn as <-.
    + rewrite list_lookup_insert_ne in Hn by done. eauto.
  - intros j Hc. apply list_lookup_insert_Some in Hc as [(_ & ? & _)|[Hne Hc]]; [done|]. rewrite list_lookup_insert_ne by done. auto.
Qed.
Lemma kids_node log cs ns i : kids log cs ns → (i < 16)%nat → ∃ oc n, cs !! i = Some oc ∧ ns !! i = Some n.
Proof.
  intros (H1 & H2 & _) Hi. destruct (lookup_lt_is_Some_2 cs i ltac:(lia)) as [oc Hc], (lookup_lt_is_Some_2 ns i ltac:(lia)) as [n Hn]. by exists oc, n.
Qed.

Lemma hash_elder_ok log cs ns m :
  kids log cs ns → (∀ i n, ns !! i = Some n → n ≠ Nil → wf n ∧ small n) → (m ≤ 16)%nat →
  ∃ log1 cs1, hash_elder keccak256 db m cs log = (log1, Ok cs1) ∧ log ⊆ log1 ∧ kids log1 cs1 ns ∧ (∀ i, (m ≤ i)%nat → cs1 !! i = cs !! i).
Proof.
  intros Hk Hwf. induction m as [|m IH]; intros Hm; [by exists log, cs|]. destruct (kids_node log cs ns m Hk ltac:(lia)) as (oc & n & Hc & Hn).
  cbn [hash_elder]. rewrite Hc. destruct oc as [c|].
  - pose proof Hk as (_ & _ & Hr & _). specialize (Hr m c n Hc Hn). pose proof (reps_inner _ _ _ Hr) as Hi.
    destruct (decide (nodeType c = hashedNode)); [by exists log, cs|].
    destruct (Hwf m n Hn ltac:(by intros ->)) as [Hwn Hsn].
    destruct (hashes_reps log c n log Hi (reps_hashes _ _ _ Hr Hwn Hsn) ltac:(done)) as (log1 & c' & H1 & Hs & Hr').
    exists log1, (<[m := Some c']> cs). rewrite (bind_ok_run _ _ _ _ _ H1). split_and!; [done..| |].
    + rewrite <-(list_insert_id ns m n) by done. apply kids_set; [by eapply kids_mono|lia|done].
    + intros i Hi'. apply list_lookup_insert_ne. lia.
  - destruct (IH ltac:(lia)) as (log1 & cs1 & H1 & Hs & Hk1 & Heq). exists log1, cs1. split_and!; [done..|]. intros i Hi. apply Heq. lia.
Qed.

Lemma insert_fresh fuel ko key value log : 0 ≤ ko ≤ len key →
  st_insert (S fuel) (fresh_at ko) key value log = (log, Ok (mk_st leafNode value (drop (Z.to_nat ko) key) ko no_children)).
Proof.
  intros Hko. cbn [StackTrie.st_insert fresh_at]. unfold mbind, st_bind, st_lift, go_slice. rewrite decide_True by lia.
  rewrite take_ge; [done|]. rewrite length_drop. unfold len. lia.
Qed.
Lemma inserted_Nil k v f : inserted no_db Nil (shortNode k (valueNode v) f) k v.
Proof.
  intros k' v'. rewrite has_short_iff. split.
  - intros (r & -> & [-> ->]%has_value_iff). left. by rewrite app_nil_r.
  - intros [[-> ->]|[_ ?%has_Nil]]; [|done]. exists []. rewrite app_nil_r. by rewrite has_value_iff.
Qed.

(** Insertion at any node, with [fuel] for the nibbles that are left. *)
Definition insert_works (fuel : nat) : Prop := ∀ log s n off key value,
  reps log s n → live off s → wf n → small n → Forall nibble key → 0 ≤ off → len key < Z.of_nat fuel + off → value ≠ [] →
  above n (drop (Z.to_nat off) key ++ [16]) → inserts fuel log s n off key value.

(** The first nibble of a larger key is that of the last child, or one behind it. *)
Lemma above_first ns i n key : ns !! i = Some n → (i < 16)%nat → wf n → above (fullNode (ns ++ [Nil]) newFlag) (key ++ [16]) →
  ∃ idx rest, key = idx :: rest ∧ Z.of_nat i ≤ idx.
Proof.
  intros Hn Hi Hwn Ha. destruct (wf_inhabited _ n Hwn) as (k & v & Hk).
  destruct (before_16 (Z.of_nat i :: k) key) as (p & y & x & b & a & H1 & -> & Hyx).
  { apply (Ha _ v). eapply has_full; [lia| |done]. rewrite Nat2Z.id. by apply lookup_app_l_Some. }
  destruct p as [|z p]; cbn in H1; injection H1 as -> ->; [exists x, a|exists z, (p ++ x :: a)]; (split; [done|lia]).
Qed.

(** The child that insertion descends to, or a new leaf. *)
Lemma insert_child_ok fuel log ko key value idx rest oc n :
  insert_works fuel → (1 ≤ fuel)%nat → Forall nibble key → 0 ≤ ko → len key < Z.of_nat fuel + (ko + 1) → value ≠ [] →
  drop (Z.to_nat ko) key = idx :: rest →
  match oc with Some c => reps log c n ∧ live (ko + 1) c ∧ wf n ∧ small n ∧ above n (rest ++ [16]) | None => n = Nil end →
  ∃ log' c' n', st_insert fuel (match oc with Some c => c | None => fresh_at (ko + 1) end) key value log = (log', Ok c') ∧ log ⊆ log' ∧
    reps log' c' n' ∧ live (ko + 1) c' ∧ wf n' ∧ inserted no_db n n' (rest ++ [16]) value.
Proof.
  intros IH Hf Hn Hko Hlen Hv Hd Hoc.
  destruct (key_at (E:=trie_err) key ko [] idx rest Hko Hd) as (_ & Hdr & Hle). change (len []) with 0 in Hdr, Hle. rewrite Z.add_0_r in Hdr, Hle.
  destruct oc as [c|].
  - destruct Hoc as (Hr & Hl & Hwn & Hsn & Ha).
    destruct (IH log c n (ko + 1) key value) as (log' & c' & n' & H1 & Hs & Hr' & Hl' & Hwn' & Hins & _); [done..|lia|lia|done|by rewrite Hdr|].
    rewrite Hdr in Hins. by exists log', c', n'.
  - subst n. destruct fuel as [|fuel]; [lia|].
    assert (Forall nibble (idx :: rest)) as [Hx Hrest]%Forall_cons_iff by (rewrite <-Hd; by apply Forall_drop).
    exists log. do 2 eexists. split_and!; [apply insert_fresh; lia|done| |constructor|..]; rewrite ?Hdr; [constructor| |apply inserted_Nil].
    constructor; [by exists rest|done].
Qed.

Lemma insert_branch_ok fuel log ko cs ns i c key value :
  insert_works fuel → kids log cs ns → wf (fullNode (ns ++ [Nil]) newFlag) → small (fullNode (ns ++ [Nil]) newFlag) →
  cs !! i = Some (Some c) → (∀ j, (i < j)%nat → cs !! j = Some None ∨ cs !! j = None) → live (ko + 1) c →
  Forall nibble key → 0 ≤ ko → len key < Z.of_nat (S fuel) + ko → value ≠ [] → above (fullNode (ns ++ [Nil]) newFlag) (drop (Z.to_nat ko) key ++ [16]) →
  inserts (S fuel) log (branch_at ko cs) (fullNode (ns ++ [Nil]) newFlag) ko key value.
Proof.
  intros IH Hk Hwf Hsm Hc Hlast Hlc Hn Hko Hlen Hv Ha. pose proof Hk as (Hl & Hl' & Hr & _).
  assert (∀ i n, ns !! i = Some n → n ≠ Nil → wf n ∧ small n) as Hkid.
  { intros j m Hj Hm. split; [by eapply wf_full_child|]. eapply (small_full no_db _ _ j); [done|by apply lookup_app_l_Some]. }
  pose proof (lookup_lt_Some _ _ _ Hc) as Hi. rewrite Hl in Hi. destruct (kids_node _ _ _ i Hk Hi) as (_ & nc & _ & Hnc).
  pose proof (reps_inner _ _ _ (Hr i c nc Hc Hnc)) as Hin. destruct (Hkid i nc Hnc) as [Hwnc _]; [by intros ->|].
  destruct (above_first ns i nc _ Hnc Hi Hwnc Ha) as (idx & rest & Hd & Hidx). rewrite Hd in Ha.
  assert (Forall nibble (idx :: rest)) as [Hx Hrest]%Forall_cons_iff by (rewrite <-Hd; by apply Forall_drop). pose proof Hx as Hx'. unfold nibble in Hx'.
  destruct (key_at (E:=trie_err) key ko [] idx rest Hko Hd) as (Hix & _ & Hle). change (len []) with 0 in Hix, Hle. rewrite Z.add_0_l in Hix.
  destruct (hash_elder_ok log cs ns (Z.to_nat idx) Hk Hkid ltac:(lia)) as (log1 & cs1 & H1 & Hs1 & Hk1 & Heq).
  destruct (kids_node _ _ _ (Z.to_nat idx) Hk ltac:(lia)) as (oc & n & Hoc & Hnn).
  assert (cs1 !! Z.to_nat idx = Some oc) as Hoc1 by (by rewrite Heq).
  destruct (insert_child_ok fuel log1 ko key value idx rest oc n) as (log2 & c' & n' & H2 & Hs2 & Hr' & Hl2 & Hwn' & Hins); [done|lia|done|done|lia|done|done| |].
  { pose proof Hk1 as (_ & _ & Hr1 & Hnil1). destruct oc as [c0|]; [|apply Hnil1 in Hoc1; congruence].
    assert (Z.to_nat idx = i) as Hii by (destruct (decide (Z.to_nat idx = i)); [done|]; destruct (Hlast (Z.to_nat idx) ltac:(lia)); congruence).
    assert (c0 = c) as -> by congruence. assert (n = nc) as -> by congruence. destruct (Hkid i nc Hnc) as [_ Hsnc]; [by intros ->|].
    split_and!; [by eapply Hr1|done..|]. intros k v Hkv. apply (before_cons idx), (Ha (idx :: k) v).
    eapply has_full; [lia| |done]. by apply lookup_app_l_Some. }
  pose proof (kids_set _ _ _ (Z.to_nat idx) c' n' (kids_mono _ _ _ _ Hs2 Hk1) ltac:(lia) Hr') as (Hl3 & Hl3' & Hr3 & Hnil3).
  exists log2, (branch_at ko (<[Z.to_nat idx := Some c']> cs1)), (fullNode (<[Z.to_nat idx := n']> (ns ++ [Nil])) newFlag). split_and!.
  - cbn [StackTrie.st_insert branch_at]. rewrite (bind_ok_run _ _ log log idx) by (unfold st_lift; by rewrite Hix).
    rewrite (bind_ok_run _ _ _ _ _ H1). rewrite (bind_ok_run _ _ log1 log1 oc) by (unfold st_lift; by rewrite (go_index_ok cs1 idx oc) by (done || lia)).
    rewrite (bind_ok_run _ _ _ _ _ H2). erewrite (bind_ok_run _ _ log2 log2); [done|]. unfold st_lift, go_set.
    rewrite decide_True; [done|]. unfold len. destruct Hk1 as [-> _]. lia.
  - set_solver.
  - rewrite insert_app_l by lia. by apply reps_branch.
  - apply (live_branch _ _ (Z.to_nat idx) c'); [apply list_lookup_insert_eq; destruct Hk1 as [-> _]; lia| |done].
    intros j Hj. rewrite list_lookup_insert_ne, Heq by lia. apply Hlast. lia.
  - eapply (wf_set_child no_db); [done|lia|by apply lookup_app_l_Some|]. left. by split.
  - rewrite Hd. apply (inserted_full no_db _ _ _ idx n); [lia|by apply lookup_app_l_Some|done].
  - done.
Qed.

Lemma insert_all fuel : insert_works fuel.
Proof.
  induction fuel as [|fuel IH]; intros log s n off key value Hr Hl Hwf Hsm Hn Hoff Hlen Hv Ha.
  - (* no nibbles are left: the key would not be above anything *)
    assert (drop (Z.to_nat off) key = []) as Hd by (apply drop_ge; unfold len in Hlen; lia). rewrite Hd in Ha.
    destruct (wf_inhabited _ n Hwf) as (k & v & Hk). apply Ha, before_16 in Hk as (p & y & x & b & a & _ & Hp & _). by destruct p.
  - destruct Hr as [val skey ko|skey ko c n Hr|ko cs ns Hl1 Hl2 Hr Hnil|ko cs n Hi Hw].
    + inversion Hl; subst. by apply insert_leaf_ok.
    + inversion Hl as [|? ? ? ? ? Hlc|]; subst. apply insert_ext_ok; [done..|]. intros r Hd Ha'.
      destruct (wf_ext_inv _ _ _ Hwf (reps_inner _ _ _ Hr)) as (Hne & _ & Hwn & _). apply small_short in Hsm as [Hsn _].
      assert (1 ≤ len skey) by (destruct skey; [done|rewrite len_cons; pose proof (len_nonneg skey); lia]).
      apply IH; try done; lia.
    + inversion Hl; subst. by eapply insert_branch_ok.
    + by inversion Hl.
Qed.
End stack.
