(* ===== verification/StackTrieRoot.v ===== *)
(** * Roots from the stack trie, and DeriveSha

    Updates with increasing keys, hashing and committing of a stack trie; the hash of a
    list of transactions or receipts, which is computed with any hasher that keeps the
    promises of the interface [TrieHasher]. *)
From stdpp Require Import gmap sorting.
From S2P Require Import Prelude TrieEncoding RlpBase RlpRaw RlpEncode Trie TrieHash TrieHashOk TrieRoot TrieMerkle StackTrie StackTrieOk.

(** ** Keys in order *)

(** The order of byte strings, neither being a prefix of the other. *)
Definition key_before (k1 k2 : bytes) : Prop := ∃ p y x b a, k1 = p ++ y :: b ∧ k2 = p ++ x :: a ∧ y < x.

Lemma nibbles_of_app a b : nibbles_of (a ++ b) = nibbles_of a ++ nibbles_of b.
Proof. induction a as [|x a IH]; [done|]. cbn. by rewrite IH. Qed.
Lemma before_hex k1 k2 : bytes_ok k1 → bytes_ok k2 → key_before k1 k2 → before (keybytesToHex k1) (keybytesToHex k2).
Proof.
  intros H1 H2 (p & y & x & b & a & -> & -> & Hyx). apply bytes_ok_app in H1 as [_ [Hy _]%bytes_ok_cons]. apply bytes_ok_app in H2 as [_ [Hx _]%bytes_ok_cons].
  unfold keybytesToHex. rewrite !nibbles_of_app, <-!app_assoc. apply before_app. cbn [nibbles_of app]. unfold is_u8 in *.
  pose proof (Z.div_mod x 16 ltac:(lia)). pose proof (Z.div_mod y 16 ltac:(lia)). pose proof (Z.mod_pos_bound x 16 ltac:(lia)). pose proof (Z.mod_pos_bound y 16 ltac:(lia)).
  pose proof (Z.div_lt_upper_bound x 16 16 ltac:(lia) ltac:(lia)).
  destruct (Z.eq_dec (y / 16) (x / 16)) as [E|E].
  - rewrite E. apply before_cons. eexists [], (y mod 16), (x mod 16), _, _. split_and!; [done..|lia|lia].
  - eexists [], (y / 16), (x / 16), _, _. split_and!; [done..| |lia]. pose proof (Z.div_le_mono y x 16). lia.
Qed.

Section root.
Context (keccak256 : bytes → bytes) (db : bool).
Context (Hdigest : digest keccak256).
Abbreviation reps := (reps keccak256 db).
Abbreviation wf := (wf no_db).
Abbreviation blob := (blob keccak256).

(** ** A stack trie that holds a map *)

Definition holds_map (log : list (bytes * bytes)) (s : StackTrie) (m : gmap bytes bytes) : Prop :=
  (∀ key value, m !! key = Some value → fits key value) ∧
  ((s = NewStackTrie ∧ m = ∅) ∨ ∃ n, reps log s n ∧ live 0 s ∧ wf n ∧ denotes no_db n m).

Lemma linked_erase n : wf n → linked keccak256 no_db (erase n).
Proof.
  induction 1 as [k v f Hk Hv|k c f Hk Hn Hc IH Hbr|cs f Hl Hc IH H16 H2|h n Hh Hld Hwn IH]; [by repeat constructor|by constructor| |done].
  constructor; [|done]. intros i c. rewrite lookup_erase. destruct (cs !! i) as [c0|] eqn:Hi; [|done]. intros [= <-].
  destruct (decide (is_nil c0 = true)) as [Hnil|Hnil]; [destruct c0; try done; constructor|].
  pose proof (lookup_lt_Some _ _ _ Hi). destruct (decide (i < 16)%nat); [apply (IH i); [done..|by intros ->]|].
  replace i with 16%nat in Hi by lia. destruct (H16 c0 Hi) as (v & _ & ->); [by intros ->|constructor].
Qed.
Lemma erased_ok n m : wf n → denotes no_db n m → (∀ key value, m !! key = Some value → fits key value) →
  trie_ok keccak256 no_db (mk_Trie (erase n) 0) m.
Proof.
  intros Hwf [_ Hd] Hf. split; [|by apply linked_linked_root, linked_erase|done]. split; [right; by apply wf_erase|]. intros k v. cbn [root]. by rewrite has_erase.
Qed.
Lemma denotes_small n m : denotes no_db n m → (∀ key value, m !! key = Some value → fits key value) → small no_db n.
Proof.
  intros [_ Hd] Hf k v (key & -> & _ & (Hk & Hl & Hv & Hlv)%Hf)%Hd. split_and!; [|done..].
  unfold keybytesToHex. rewrite len_app. unfold len in Hl |- *. rewrite length_nibbles_of. cbn [length]. lia.
Qed.
Lemma root_of n m : wf n → denotes no_db n m → (∀ key value, m !! key = Some value → fits key value) →
  keccak256 (blob n) = merkle_root keccak256 m.
Proof.
  intros Hwf Hd Hf. rewrite <-(root_hash_merkle keccak256 no_db _ _ (erased_ok n m Hwf Hd Hf)). cbn [root].
  pose proof (wf_inner n Hwf) as Hi. rewrite <-(proj1 (blob_erase keccak256 n)). by destruct n.
Qed.

(** ** Updates *)

Lemma st_TryUpdate_ok log s m key value :
  holds_map log s m → fits key value → value ≠ [] → (∀ k, is_Some (m !! k) → key_before k key) →
  ∃ log' s', st_TryUpdate keccak256 db key value s log = (log', Ok s') ∧ log ⊆ log' ∧ holds_map log' s' (<[key := value]> m).
Proof.
  intros [Hf Hs] Hfit Hv Hord. pose proof Hfit as (Hk & Hlk & Hvb & Hlv). unfold st_TryUpdate.
  assert ((len value =? 0) = false) as -> by (apply Z.eqb_neq; destruct value; [done|rewrite len_cons; pose proof (len_nonneg value); lia]).
  assert (take (length (keybytesToHex key) - 1) (keybytesToHex key) = nibbles_of key) as ->.
  { unfold keybytesToHex. rewrite length_app, Nat.add_sub. apply take_app_length. }
  assert (length (keybytesToHex key) = S (length (nibbles_of key))) as -> by (unfold keybytesToHex; rewrite length_app; cbn; lia).
  assert (∀ k v, <[key := value]> m !! k = Some v → fits k v) as Hf'.
  { intros k v [[<- <-]|[_ Hm]]%lookup_insert_Some; [done|by apply Hf]. }
  destruct Hs as [[-> ->]|(n & Hr & Hl & Hwf & Hd)].
  - exists log, (mk_st leafNode value (nibbles_of key) 0 no_children). split_and!; [|done|].
    + change NewStackTrie with (fresh_at 0). rewrite (insert_fresh keccak256 db) by (pose proof (len_nonneg (nibbles_of key)); lia). by rewrite drop_0.
    + split; [done|]. right. exists (shortNode (nibbles_of key ++ [16]) (valueNode value) newFlag). split_and!; [constructor|constructor|..].
      * constructor; [by apply (hexk_keybytes key)|done].
      * apply (denotes_insert no_db Nil); [apply denotes_empty|done|constructor; [by apply (hexk_keybytes key)|done]|apply inserted_Nil].
  - destruct (insert_all keccak256 db Hdigest (S (length (nibbles_of key))) log s n 0 (nibbles_of key) value) as (log' & s' & n' & H1 & Hsub & Hr' & Hl' & Hwf' & Hins & _).
    all: try done.
    { by eapply denotes_small. } { by apply nibbles_of_nibble. } { unfold len. lia. }
    { intros k v (key' & -> & Hk' & Hm)%Hd. apply before_hex; [done..|]. apply Hord. by exists v. }
    exists log', s'. split_and!; [done..|]. split; [done|]. right. exists n'. split_and!; [done..|]. by eapply denotes_insert.
Qed.

(** ** Hash and Commit *)

Lemma st_Hash_ok log s m : holds_map log s m → ∃ log' s', st_Hash keccak256 db s log = (log', Ok (merkle_root keccak256 m, s')).
Proof.
  intros [Hf [[-> ->]|(n & Hr & Hl & Hwf & Hd)]]; [by exists log; eexists|].
  pose proof (wf_inner n Hwf) as Hi. destruct (reps_hashes _ _ Hdigest log s n Hr Hwf (denotes_small n m Hd Hf) log ltac:(done)) as (log1 & cs & H1 & _ & _).
  exists log1, (mk_st hashedNode (ref keccak256 n) [] (keyOffset s) cs). unfold st_Hash. rewrite (bind_ok_run _ _ _ _ _ H1). cbn [st_val]. rewrite <-(root_of n m Hwf Hd Hf). unfold ref.
  destruct (Z.ltb_spec (len (blob n)) 32) as [Hlt|Hge].
  - rewrite (proj2 (Z.eqb_neq _ _)) by lia. cbn [negb]. by rewrite BytesToHash_id by apply Hdigest.
  - rewrite len_digest by done. cbn [Z.eqb Pos.eqb negb]. by rewrite BytesToHash_id by apply Hdigest.
Qed.
Lemma st_Commit_ok log s m :
  db = true → holds_map log s m →
  ∃ log' s', st_Commit keccak256 db s log = (log', Ok (Committed (merkle_root keccak256 m), s')) ∧ log ⊆ log' ∧
    (m ≠ ∅ → ∃ n, wf n ∧ denotes no_db n m ∧ (keccak256 (blob n), blob n) ∈ log' ∧ written keccak256 log' n).
Proof.
  intros Hdb [Hf [[-> ->]|(n & Hr & Hl & Hwf & Hd)]]; [exists log; eexists; unfold st_Commit; rewrite Hdb; by split_and!|].
  pose proof (wf_inner n Hwf) as Hi. destruct (reps_hashes _ _ Hdigest log s n Hr Hwf (denotes_small n m Hd Hf) log ltac:(done)) as (log1 & cs & H1 & Hsub & Hw).
  specialize (Hw Hdb). unfold st_Commit. rewrite Hdb in *. rewrite (bind_ok_run _ _ _ _ _ H1). cbn [st_val]. rewrite <-(root_of n m Hwf Hd Hf). unfold ref.
  destruct (Z.ltb_spec (len (blob n)) 32) as [Hlt|Hge].
  - rewrite (proj2 (Z.eqb_neq _ _)) by lia. cbn [negb]. rewrite (BytesToHash_id (keccak256 (blob n))) by apply Hdigest.
    do 2 eexists. split; [done|]. split; [set_solver|]. intros _. exists n. split_and!; [done..|apply elem_of_app; right; by left|].
    eapply written_mono; [|done]. set_solver.
  - rewrite len_digest by done. cbn [Z.eqb Pos.eqb negb]. rewrite BytesToHash_id by apply Hdigest.
    do 2 eexists. split; [done|]. split; [done|]. intros _. exists n. split_and!; [done..| |done]. apply Hw; [constructor|done..].
Qed.

(** ** Sequences of updates *)

Fixpoint stack_updates (kvs : list (bytes * bytes)) (s : StackTrie) : W StackTrie :=
  match kvs with
  | [] => mret s
  | (key, value) :: kvs => s ← st_TryUpdate keccak256 db key value s; stack_updates kvs s
  end.
Definition pair_ok (kv : bytes * bytes) : Prop := fits kv.1 kv.2 ∧ kv.2 ≠ [].
Definition set_pair (m : gmap bytes bytes) (kv : bytes * bytes) : gmap bytes bytes := <[kv.1 := kv.2]> m.

Lemma stack_updates_ok kvs log s m :
  holds_map log s m → Forall pair_ok kvs → StronglySorted key_before kvs.*1 → (∀ k kv, is_Some (m !! k) → kv ∈ kvs → key_before k kv.1) →
  ∃ log' s', stack_updates kvs s log = (log', Ok s') ∧ log ⊆ log' ∧ holds_map log' s' (foldl set_pair m kvs).
Proof.
  intros Hs Hok. revert log s m Hs. induction Hok as [|[key value] kvs [Hfit Hv] _ IH]; intros log s m Hs Hsort Hord; [by exists log, s|].
  cbn [fmap list_fmap fst] in Hsort. apply StronglySorted_inv in Hsort as [Hsort Hall]. rewrite list.Forall_forall in Hall.
  destruct (st_TryUpdate_ok log s m key value Hs Hfit Hv) as (log1 & s1 & H1 & Hs1 & Hm1).
  { intros k Hk. apply (Hord k (key, value) Hk). by left. }
  destruct (IH log1 s1 _ Hm1 Hsort) as (log2 & s2 & H2 & Hs2 & Hm2).
  { intros k kv [v Hkv] Hin. apply lookup_insert_Some in Hkv as [[<- _]|[_ Hkv]].
    - apply Hall, list_elem_of_fmap. by exists kv.
    - apply Hord; [by exists v|by right]. }
  exists log2, s2. split_and!; [|set_solver|done]. cbn [stack_updates]. by rewrite (bind_ok_run _ _ _ _ _ H1).
Qed.
Lemma holds_map_empty log : holds_map log NewStackTrie ∅.
Proof. split; [|by left]. intros k v Hkv. by rewrite lookup_empty in Hkv. Qed.
End root.

(** C10: The stack trie computes Merkle roots.  Non-empty values under strictly increasing
    keys, none a prefix of another, can always be inserted, although the trie forgets
    every subtrie that is complete; [Hash] then returns the root the Yellow Paper
    defines for the pairs; and [Commit] returns the same root and leaves in the database
    every node of the trie that has a hash, the root included. *)
Theorem stack_trie_root (keccak256 : bytes → bytes) (kvs : list (bytes * bytes)) :
  digest keccak256 → Forall pair_ok kvs → StronglySorted key_before kvs.*1 →
  (∃ log s log' s', stack_updates keccak256 false kvs NewStackTrie [] = (log, Ok s) ∧
     st_Hash keccak256 false s log = (log', Ok (merkle_root keccak256 (foldl set_pair ∅ kvs), s'))) ∧
  (∃ log s log' s', stack_updates keccak256 true kvs NewStackTrie [] = (log, Ok s) ∧
     st_Commit keccak256 true s log = (log', Ok (Committed (merkle_root keccak256 (foldl set_pair ∅ kvs)), s')) ∧
     (kvs ≠ [] → ∃ n, wf no_db n ∧ denotes no_db n (foldl set_pair ∅ kvs) ∧ (keccak256 (blob keccak256 n), blob keccak256 n) ∈ log' ∧
        written keccak256 log' n)).
Proof.
  intros Hd Hok Hsort. assert (∀ db, ∃ log s, stack_updates keccak256 db kvs NewStackTrie [] = (log, Ok s) ∧
    holds_map keccak256 db log s (foldl set_pair ∅ kvs)) as Hu.
  { intros db. destruct (stack_updates_ok keccak256 db Hd kvs [] NewStackTrie ∅ (holds_map_empty _ _ _) Hok Hsort) as (log & s & H1 & _ & Hm); [|eauto].
    intros k kv [v Hk]. by rewrite lookup_empty in Hk. }
  split.
  - destruct (Hu false) as (log & s & H1 & Hm). destruct (st_Hash_ok _ _ Hd log s _ Hm) as (log' & s' & H2). by exists log, s, log', s'.
  - destruct (Hu true) as (log & s & H1 & Hm). destruct (st_Commit_ok _ _ Hd log s _ eq_refl Hm) as (log' & s' & H2 & _ & Hn).
    exists log, s, log', s'. split_and!; [done..|]. intros Hne. apply Hn. destruct kvs as [|kv kvs] using rev_ind; [done|].
    rewrite foldl_app. cbn [foldl]. apply insert_non_empty.
Qed.
