(* ===== verification/DeriveSha.v ===== *)
(** * DeriveSha (src/geth/core/types/hashing.go)

    The root hash of a list of transactions or receipts, computed with a [TrieHasher].
    The interface says what DeriveSha needs of a hasher; it is proved for the stack trie,
    which the node uses, and for the trie.  [EncodeIndex] of the list is a parameter. *)
From stdpp Require Import gmap sorting.
From S2P Require Import Prelude TrieEncoding RlpBase RlpRaw Trie TrieHash TrieHashOk TrieMerkle StackTrie StackTrieRoot.

(** ** The interfaces *)

Class TrieHasher (S : Type) := {
  th_Reset : st S trie_err unit;
  th_Update : bytes → bytes → st S trie_err unit;
  th_Hash : st S trie_err bytes }.

Record DerivableList := mk_list { Len : Z; EncodeIndex : Z → bytes }.

(** ** The computation *)

Section derive.
Context {S : Type} `{!TrieHasher S} (l : DerivableList).

Definition derive_update (i : Z) : st S trie_err unit := th_Update (AppendUint64 [] (u64 i)) (EncodeIndex l i).
(** [n] rounds of a loop from [i]. *)
Fixpoint derive_loop (n : nat) (i : Z) : st S trie_err unit :=
  match n with
  | O => mret tt
  | Datatypes.S n => _ ← derive_update i; derive_loop n (i + 1)
  end.
Definition DeriveSha : st S trie_err bytes :=
  _ ← th_Reset;
  _ ← derive_loop (Z.to_nat (Z.min (Len l) 0x80 - 1)) 1;
  _ ← (if 0 <? Len l then derive_update 0 else mret tt);
  _ ← derive_loop (Z.to_nat (Len l - 0x80)) 0x80;
  th_Hash.
End derive.

(** ** The hashers *)

(** A stack trie without a database. *)
#[export] Instance stack_hasher (keccak256 : bytes → bytes) : TrieHasher (StackTrie * list (bytes * bytes)) := {
  th_Reset := λ '(_, log), ((NewStackTrie, log), Ok tt);
  th_Update key value := λ '(s, log),
    match st_TryUpdate keccak256 false key value s log with
    | (log, Ok s) => ((s, log), Ok tt)
    | (log, Err e) => ((s, log), Err e)
    | (log, Panic why) => ((s, log), Panic why)
    | (log, OutOfFuel) => ((s, log), OutOfFuel)
    end;
  th_Hash := λ '(s, log),
    match st_Hash keccak256 false s log with
    | (log, Ok (h, s)) => ((s, log), Ok h)
    | (log, Err e) => ((s, log), Err e)
    | (log, Panic why) => ((s, log), Panic why)
    | (log, OutOfFuel) => ((s, log), OutOfFuel)
    end }.
(** A trie without a database. *)
#[export] Instance trie_hasher (keccak256 : bytes → bytes) : TrieHasher (Trie * option HashCache) := {
  th_Reset := λ '(_, d), ((mk_Trie Nil 0, d), Ok tt);
  th_Update key value := λ '(t, d), let '(t, r) := TryUpdate no_db key value t in ((t, d), r);
  th_Hash := λ '(t, d),
    match Hash keccak256 t d with
    | (d, Ok (h, t)) => ((t, d), Ok h)
    | (d, Err e) => ((t, d), Err e)
    | (d, Panic why) => ((t, d), Panic why)
    | (d, OutOfFuel) => ((t, d), OutOfFuel)
    end }.

(** What DeriveSha relies on: keys in order can be inserted, and the hash is the root. *)
Class TrieHasherOk (keccak256 : bytes → bytes) (S : Type) `{!TrieHasher S} := {
  th_rep : S → gmap bytes bytes → Prop;
  reset_ok s : ∃ s', th_Reset s = (s', Ok tt) ∧ th_rep s' ∅;
  update_ok s m key value :
    th_rep s m → fits key value → value ≠ [] → (∀ k, is_Some (m !! k) → key_before k key) →
    ∃ s', th_Update key value s = (s', Ok tt) ∧ th_rep s' (<[key := value]> m);
  hash_is_root s m : th_rep s m → ∃ s', th_Hash s = (s', Ok (merkle_root keccak256 m)) }.

Lemma stack_hasher_ok keccak256 : digest keccak256 → TrieHasherOk keccak256 (StackTrie * list (bytes * bytes)) (TrieHasher0 := stack_hasher keccak256).
Proof.
  intros Hd. refine {| th_rep := λ s m, holds_map keccak256 false s.2 s.1 m |}.
  - intros [s log]. eexists. split; [done|apply holds_map_empty].
  - intros [s log] m key value Hm Hf Hv Hord. destruct (st_TryUpdate_ok keccak256 false Hd log s m key value Hm Hf Hv Hord) as (log' & s' & H1 & _ & Hm').
    exists (s', log'). split; [|done]. cbn. by rewrite H1.
  - intros [s log] m Hm. destruct (st_Hash_ok keccak256 false Hd log s m Hm) as (log' & s' & H1). exists (s', log'). cbn. by rewrite H1.
Defined.
Lemma trie_hasher_ok keccak256 : digest keccak256 → TrieHasherOk keccak256 (Trie * option HashCache) (TrieHasher0 := trie_hasher keccak256).
Proof.
  intros Hd. refine {| th_rep := λ s m, trie_ok keccak256 no_db s.1 m |}.
  - intros [t d]. eexists. split; [done|apply trie_ok_empty].
  - intros [t d] m key value Hm Hf Hv _. destruct (run_op_ok keccak256 no_db (OpUpdate key value) t d m Hd Hm Hf) as (t' & d' & H1 & Hm').
    cbn in H1, Hm'. cbn. destruct (TryUpdate no_db key value t) as [t1 [[]| | |]]; try done. injection H1 as -> <-. exists (t', d). split; [done|].
    unfold map_update in Hm'. by rewrite bool_decide_eq_true_2 in Hm'.
  - intros [t d] m Hm. destruct (run_op_ok keccak256 no_db OpHash t d m Hd Hm I) as (t' & d' & H1 & _). cbn in H1. cbn.
    destruct (Hash keccak256 t d) as [d1 [[h t1]| | |]]; try done. injection H1 as -> -> ->. by exists (t', d').
Defined.

(** ** Indices in the order of their keys *)

Lemma key_before_app a b r s : key_before a b → key_before (a ++ r) (b ++ s).
Proof. intros (p & y & x & c & d & -> & -> & Hyx). exists p, y, x, (c ++ r), (d ++ s). by rewrite <-!app_assoc. Qed.
Lemma key_before_irrefl a : ¬ key_before a a.
Proof. intros (p & y & x & c & d & -> & E & Hyx). apply app_inv_head in E. injection E as ? ?. lia. Qed.
Lemma be_bytes_order n i j : 0 ≤ i → i < j → j < 2 ^ (8 * Z.of_nat n) → key_before (be_bytes n i) (be_bytes n j).
Proof.
  revert i j. induction n as [|n IH]; intros i j Hi Hij Hj; [cbn in Hj; lia|]. rewrite !be_bytes_snoc, !Z.shiftr_div_pow2 by lia.
  change (2 ^ 8) with 256. rewrite pow2_8_succ in Hj.
  pose proof (Z.div_mod i 256 ltac:(lia)). pose proof (Z.div_mod j 256 ltac:(lia)). pose proof (Z.mod_pos_bound i 256 ltac:(lia)). pose proof (Z.mod_pos_bound j 256 ltac:(lia)).
  pose proof (Z.div_le_mono i j 256 ltac:(lia) ltac:(lia)). pose proof (Z.div_pos i 256 ltac:(lia) ltac:(lia)).
  destruct (Z.eq_dec (i / 256) (j / 256)) as [E|E].
  - rewrite E. eexists _, (u8 i), (u8 j), [], []. split_and!; [done..|]. unfold u8. change (2 ^ 8) with 256. lia.
  - apply key_before_app, IH; [lia..|]. lia.
Qed.
Lemma scalar_long x : 0x80 ≤ x < 2 ^ 64 → rlp_scalar x = (0x80 + Z.of_nat (nbytes x)) :: be_bytes (nbytes x) x.
Proof.
  intros Hx. unfold rlp_scalar. pose proof (nbytes_u64 x ltac:(unfold is_u64; lia)) as Hn. pose proof (nbytes_pos x ltac:(lia)) as Hp.
  destruct (nbytes_spec x ltac:(lia)) as [_ Hhi].
  destruct (rlp_string_cases (be_bytes (nbytes x) x)) as [(y & Hy & Hlt & _)|[_ ->]].
  - pose proof (be_val_be_bytes (nbytes x) x) as Hv. rewrite Hy, be_val_single, Z.mod_small in Hv by lia. lia.
  - unfold rlp_head. rewrite len_be_bytes. rewrite (proj2 (Z.ltb_lt _ _)) by lia. done.
Qed.
Lemma scalar_short x : 0 < x < 0x80 → rlp_scalar x = [x].
Proof.
  intros Hx. unfold rlp_scalar. rewrite (nbytes_is x 0) by (simpl Z.of_nat; lia). cbn [be_bytes]. rewrite Z.shiftr_0_r, u8_small by (unfold is_u8; lia).
  cbn. by rewrite (proj2 (Z.ltb_lt x 128)) by lia.
Qed.

(** The place of an index in the order of insertion. *)
Definition rank (i : Z) : Z := if i =? 0 then 0x80 else if i <? 0x80 then i else i + 1.
Lemma rank_before i j : 0 ≤ i < 2 ^ 64 → 0 ≤ j < 2 ^ 64 → rank i < rank j → key_before (rlp_scalar i) (rlp_scalar j).
Proof.
  unfold rank. intros Hi Hj. destruct (Z.eqb_spec i 0) as [->|Hi0], (Z.eqb_spec j 0) as [->|Hj0]; [lia|..].
  - destruct (Z.ltb_spec j 0x80); [lia|]. intros _. rewrite (scalar_long j) by lia. pose proof (nbytes_pos j ltac:(lia)).
    eexists [], 0x80, _, [], _. split_and!; [done..|lia].
  - destruct (Z.ltb_spec i 0x80); [|lia]. intros _. rewrite scalar_short by lia. by exists [], i, 0x80, [], [].
  - destruct (Z.ltb_spec i 0x80), (Z.ltb_spec j 0x80); intros Hr.
    + rewrite !scalar_short by lia. by exists [], i, j, [], [].
    + rewrite scalar_short, scalar_long by lia. eexists [], i, _, [], _. split_and!; [done..|lia].
    + lia.
    + rewrite !scalar_long by lia. pose proof (nbytes_spec i ltac:(lia)) as [Hil Hih]. pose proof (nbytes_spec j ltac:(lia)) as [Hjl Hjh].
      destruct (Z.lt_trichotomy (Z.of_nat (nbytes i)) (Z.of_nat (nbytes j))) as [Hlt|[Heq|Hgt]].
      * eexists [], _, _, _, _. split_and!; [done..|lia].
      * apply Nat2Z.inj in Heq. rewrite Heq. destruct (be_bytes_order (nbytes j) i j) as (p & y & x & b & a & E1 & E2 & Hyx); [lia..|].
        exists (0x80 + Z.of_nat (nbytes j) :: p), y, x, b, a. by rewrite E1, E2.
      * assert (2 ^ (8 * Z.of_nat (nbytes j)) ≤ 2 ^ (8 * (Z.of_nat (nbytes i) - 1))) by (apply Z.pow_le_mono_r; lia). lia.
Qed.
Lemma scalar_inj i j : 0 ≤ i < 2 ^ 64 → 0 ≤ j < 2 ^ 64 → rlp_scalar i = rlp_scalar j → i = j.
Proof.
  intros Hi Hj E. destruct (Z.lt_trichotomy (rank i) (rank j)) as [H|[H|H]].
  - apply rank_before in H; [|done..]. rewrite E in H. by apply key_before_irrefl in H.
  - unfold rank in H. repeat match goal with H : context [if ?b then _ else _] |- _ => destruct b eqn:? end; lia.
  - apply rank_before in H; [|done..]. rewrite E in H. by apply key_before_irrefl in H.
Qed.

(** The order in which DeriveSha inserts. *)
Definition derive_order (n : Z) : list Z := seqZ 1 (Z.min n 0x80 - 1) ++ (if 0 <? n then [0] else []) ++ seqZ 0x80 (n - 0x80).
Lemma sorted_seqZ (R : Z → Z → Prop) a n : (∀ i j, a ≤ i → i < j → j < a + n → R i j) → StronglySorted R (seqZ a n).
Proof.
  destruct (Z.le_gt_cases n 0); [rewrite seqZ_nil by lia; constructor|]. rewrite <-(Z2Nat.id n) by lia. clear H. revert a.
  induction (Z.to_nat n) as [|k IH]; intros a HR; [constructor|]. rewrite seqZ_cons by lia. constructor.
  - replace (Z.pred (Z.of_nat (S k))) with (Z.of_nat k) by lia. apply IH. intros i j Hi Hij Hj. apply HR; lia.
  - apply list.Forall_forall. intros j Hj%elem_of_seqZ. apply HR; lia.
Qed.
Lemma elem_derive_order n i : i ∈ derive_order n ↔ 0 ≤ i < n.
Proof.
  unfold derive_order. rewrite !elem_of_app, !elem_of_seqZ. destruct (Z.ltb_spec 0 n) as [Hn|Hn].
  - rewrite list_elem_of_singleton. lia.
  - rewrite elem_of_nil. lia.
Qed.
Lemma derive_order_sorted n : StronglySorted (λ i j, rank i < rank j) (derive_order n).
Proof.
  assert (∀ i j, 0 < i → i < j → rank i < rank j) as Hr.
  { intros i j Hi Hij. unfold rank. rewrite (proj2 (Z.eqb_neq i 0)), (proj2 (Z.eqb_neq j 0)) by lia. destruct (Z.ltb_spec i 0x80), (Z.ltb_spec j 0x80); lia. }
  unfold derive_order. apply StronglySorted_app_2; [|apply sorted_seqZ; intros; apply Hr; lia|apply StronglySorted_app_2].
  - intros i j Hi%elem_of_seqZ Hj. apply elem_of_app in Hj as [Hj|Hj%elem_of_seqZ]; [|apply Hr; lia].
    destruct (0 <? n); [|by apply elem_of_nil in Hj]. apply list_elem_of_singleton in Hj as ->. unfold rank. rewrite (proj2 (Z.eqb_neq i 0)), (proj2 (Z.ltb_lt i 0x80)) by lia. cbn. lia.
  - intros i j Hi Hj%elem_of_seqZ. destruct (0 <? n); [|by apply elem_of_nil in Hi]. apply list_elem_of_singleton in Hi as ->.
    unfold rank. rewrite (proj2 (Z.eqb_neq j 0)), (proj2 (Z.ltb_ge j 0x80)) by lia. cbn. lia.
  - destruct (0 <? n); repeat constructor.
  - apply sorted_seqZ. intros; apply Hr; lia.
Qed.

(** ** The root of a list *)

(** The pairs of a list: the RLP encoding of an index and the item. *)
Definition index_pair (l : DerivableList) (i : Z) : bytes * bytes := (rlp_scalar i, EncodeIndex l i).
Definition index_map (l : DerivableList) : gmap bytes bytes := list_to_map (index_pair l <$> seqZ 0 (Len l)).
Definition list_ok (l : DerivableList) : Prop :=
  Len l < 2 ^ 63 ∧ ∀ i, 0 ≤ i < Len l → EncodeIndex l i ≠ [] ∧ bytes_ok (EncodeIndex l i) ∧ len (EncodeIndex l i) < 2 ^ 32.

Lemma set_pair_rev kvs : foldl set_pair ∅ kvs = list_to_map (rev kvs).
Proof.
  induction kvs as [|[k v] kvs IH] using rev_ind; [done|]. rewrite foldl_app, rev_app_distr. cbn. by rewrite IH.
Qed.
Lemma NoDup_derive_order n : NoDup (derive_order n).
Proof.
  induction (derive_order_sorted n) as [|i l Hs IH Hall]; [constructor|]. constructor; [|done]. intros Hi.
  rewrite list.Forall_forall in Hall. specialize (Hall i Hi). cbn in Hall. lia.
Qed.
Lemma derive_map l : list_ok l → foldl set_pair ∅ (index_pair l <$> derive_order (Len l)) = index_map l.
Proof.
  intros [Hlen _]. rewrite set_pair_rev. assert (derive_order (Len l) ≡ₚ seqZ 0 (Len l)) as Hperm.
  { apply NoDup_Permutation; [apply NoDup_derive_order|apply NoDup_seqZ|]. intros i. rewrite elem_derive_order, elem_of_seqZ. lia. }
  symmetry. apply list_to_map_proper.
  - rewrite <-list_fmap_compose. apply NoDup_fmap_2_strong; [|apply NoDup_seqZ]. intros i j Hi%elem_of_seqZ Hj%elem_of_seqZ. apply scalar_inj; lia.
  - rewrite <-Permutation_rev, Hperm. done.
Qed.

Section root.
Context (keccak256 : bytes → bytes) {S : Type} `{!TrieHasher S} `{Hth : !TrieHasherOk keccak256 S} (l : DerivableList).
Context (Hlist : list_ok l).

(** The insertions as one sequence. *)
Fixpoint derive_all (js : list Z) : st S trie_err unit :=
  match js with [] => mret tt | j :: js => _ ← derive_update l j; derive_all js end.
Lemma derive_all_app js1 js2 s : derive_all (js1 ++ js2) s = (_ ← derive_all js1; derive_all js2) s.
Proof.
  revert s. induction js1 as [|j js1 IH]; intros s; [done|]. cbn [app derive_all]. unfold mbind, st_bind.
  destruct (derive_update l j s) as [s' [[]| | |]]; [apply IH|done..].
Qed.
Lemma derive_loop_all n i s : derive_loop l n i s = derive_all (seqZ i (Z.of_nat n)) s.
Proof.
  revert i s. induction n as [|n IH]; intros i s; [done|]. rewrite seqZ_cons by lia. cbn [derive_loop derive_all]. unfold mbind, st_bind.
  destruct (derive_update l i s) as [s' [[]| | |]]; [|done..].
  replace (Z.pred (Z.of_nat (Datatypes.S n))) with (Z.of_nat n) by lia. apply IH.
Qed.
Lemma DeriveSha_order s : DeriveSha l s = (_ ← th_Reset; _ ← derive_all (derive_order (Len l)); th_Hash) s.
Proof.
  unfold DeriveSha, derive_order, mbind, st_bind. destruct (th_Reset s) as [s0 [[]| | |]]; try done.
  rewrite !derive_all_app. unfold mbind, st_bind. rewrite derive_loop_all.
  assert (∀ x, seqZ 1 (Z.of_nat (Z.to_nat x)) = seqZ 1 x ∧ seqZ 0x80 (Z.of_nat (Z.to_nat x)) = seqZ 0x80 x) as Hseq.
  { intros x. destruct (Z.le_gt_cases x 0); [rewrite (seqZ_nil _ x), (seqZ_nil _ x) by lia; by rewrite !seqZ_nil by lia|by rewrite Z2Nat.id by lia]. }
  rewrite (proj1 (Hseq _)). destruct (derive_all (seqZ 1 _) s0) as [s1 [[]| | |]]; try done. rewrite derive_all_app. unfold mbind, st_bind.
  assert (∀ s, derive_all (if 0 <? Len l then [0] else []) s = (if 0 <? Len l then derive_update l 0 else mret tt) s) as ->.
  { intros s2. destruct (0 <? Len l); [|done]. cbn [derive_all]. unfold mbind, st_bind. by destruct (derive_update l 0 s2) as [s3 [[]| | |]]. }
  destruct ((if 0 <? Len l then derive_update l 0 else mret tt) s1) as [s2 [[]| | |]]; try done.
  by rewrite derive_loop_all, (proj2 (Hseq _)).
Qed.
Lemma derive_all_ok js s m :
  th_rep s m → StronglySorted (λ i j, rank i < rank j) js → (∀ j, j ∈ js → 0 ≤ j < Len l) →
  (∀ k j, is_Some (m !! k) → j ∈ js → key_before k (rlp_scalar j)) →
  ∃ s', derive_all js s = (s', Ok tt) ∧ th_rep s' (foldl set_pair m (index_pair l <$> js)).
Proof.
  revert s m. induction js as [|j js IH]; intros s m Hm Hs Hin Hord; [by exists s|]. apply StronglySorted_inv in Hs as [Hs Hall].
  rewrite list.Forall_forall in Hall. destruct Hlist as [Hlen Hitems]. pose proof (Hin j ltac:(by left)) as Hj. destruct (Hitems j Hj) as (Hne & Hb & Hl).
  assert (is_u64 j) as Hu by (unfold is_u64; lia).
  assert (bytes_ok (rlp_scalar j) ∧ len (rlp_scalar j) < 2 ^ 30) as [Hkb Hkl].
  { unfold rlp_scalar. pose proof (nbytes_u64 j Hu). assert (is_u64 (len (be_bytes (nbytes j) j))) by (rewrite len_be_bytes; unfold is_u64; lia).
    split; [apply rlp_string_ok; [apply be_bytes_ok|done]|]. pose proof (len_rlp_string_le (be_bytes (nbytes j) j) ltac:(done)). rewrite len_be_bytes in *. lia. }
  destruct (update_ok s m (rlp_scalar j) (EncodeIndex l j) Hm) as (s1 & H1 & Hm1); [by split_and!|done|intros k Hk; apply Hord; [done|by left]|].
  destruct (IH s1 _ Hm1 Hs) as (s2 & H2 & Hm2).
  { intros i Hi. apply Hin. by right. }
  { intros k i [v Hk] Hi. apply lookup_insert_Some in Hk as [[<- _]|[_ Hk]].
    - apply rank_before; [lia|pose proof (Hin i ltac:(by right)); lia|by apply Hall].
    - apply Hord; [by exists v|by right]. }
  exists s2. split; [|done]. cbn [derive_all]. unfold derive_update. rewrite u64_small, AppendUint64_spec by done. cbn [app].
  by rewrite (bind_ok_run _ _ _ _ _ H1).
Qed.
Lemma DeriveSha_ok s : ∃ s', DeriveSha l s = (s', Ok (merkle_root keccak256 (index_map l))).
Proof.
  destruct (reset_ok s) as (s0 & H0 & Hm0).
  destruct (derive_all_ok (derive_order (Len l)) s0 ∅ Hm0 (derive_order_sorted _)) as (s1 & H1 & Hm1).
  { intros j Hj. by apply elem_derive_order. } { intros k j [v Hk]. by rewrite lookup_empty in Hk. }
  rewrite (derive_map l Hlist) in Hm1. destruct (hash_is_root s1 _ Hm1) as (s2 & H2). exists s2.
  rewrite DeriveSha_order, (bind_ok_run _ _ _ _ _ H0). by rewrite (bind_ok_run _ _ _ _ _ H1).
Qed.
End root.

(** C13: DeriveSha is the root of the list.  For a list of non-empty items, DeriveSha
    with a stack trie, whatever it was used for before, returns without a panic the
    Merkle root that the Yellow Paper defines for the map from the RLP encoding of each
    index to its item: the unusual order of its insertions is the order of these keys.
    With a trie in place of the stack trie it returns the same. *)
Theorem DeriveSha_root (keccak256 : bytes → bytes) (l : DerivableList) :
  digest keccak256 → list_ok l →
  (∀ s, ∃ s', DeriveSha l (TrieHasher0 := stack_hasher keccak256) s = (s', Ok (merkle_root keccak256 (index_map l)))) ∧
  (∀ t, ∃ t', DeriveSha l (TrieHasher0 := trie_hasher keccak256) t = (t', Ok (merkle_root keccak256 (index_map l)))).
Proof.
  intros Hd Hl. split; intros s.
  - by apply (DeriveSha_ok keccak256 (Hth := stack_hasher_ok keccak256 Hd)).
  - by apply (DeriveSha_ok keccak256 (Hth := trie_hasher_ok keccak256 Hd)).
Qed.

(** A block of two hundred transactions. *)
Definition toy_list : DerivableList := mk_list 200 (λ i, [1; u8 i]).
Lemma DeriveSha_root_witness :
  ∃ s', DeriveSha toy_list (TrieHasher0 := stack_hasher toy_digest) (NewStackTrie, []) = (s', Ok (merkle_root toy_digest (index_map toy_list))).
Proof.
  apply DeriveSha_root; [exact toy_digest_ok|]. split; [done|]. intros i _. split_and!; [done| |done].
  repeat constructor; try done; apply u8_range.
Defined.

Definition toy_kvs : list (bytes * bytes) := [([0x12; 0x34], replicate 40 1); ([0x12; 0x35], [2]); ([0xff; 0x00], [3])].
Lemma stack_trie_root_witness : ∃ log s log' s',
  stack_updates toy_digest false toy_kvs NewStackTrie [] = (log, Ok s) ∧
  st_Hash toy_digest false s log = (log', Ok (merkle_root toy_digest (foldl set_pair ∅ toy_kvs), s')).
Proof.
  assert (StronglySorted key_before toy_kvs.*1) as Hs.
  { repeat first [apply SSorted_nil|apply SSorted_cons|apply list.Forall_nil_2|apply list.Forall_cons_2];
      first [by exists [0x12], 0x34, 0x35, [], []|by exists [], 0x12, 0xff, [0x34], [0x00]|by exists [], 0x12, 0xff, [0x35], [0x00]]. }
  assert (Forall pair_ok toy_kvs) as Hok by (repeat constructor; done).
  exact (proj1 (stack_trie_root toy_digest toy_kvs toy_digest_ok Hok Hs)).
Defined.
