(* ===== verification/TrieProof.v ===== *)
(** * Decoding nodes and Merkle proofs (src/geth/trie/node.go, src/geth/trie/proof.go)

    Nodes are decoded from their RLP encoding; [Prove] collects the encodings of the
    nodes on the path of a key and [VerifyProof] follows that path from a root hash.  The
    proof database is a map.  Range proofs are not modelled. *)
From stdpp Require Import gmap.
From S2P Require Import Prelude TrieEncoding RlpBase RlpRaw RlpEncode Trie TrieHash.

(** ** Decoding *)

Inductive node_ctx := CtxShort | CtxFull | CtxVal | CtxIndex (i : Z).
Inductive node_err :=
| NodeUnexpectedEOF
| NodeRlp (e : rlp_err)
| NodeListError (e : rlp_err)
| NodeValueError (e : rlp_err)
| NodeCount (c : Z)
| NodeOversized (size : Z)
| NodeStringSize (n : Z)
| NodeDecodeError (what : node_err) (stack : list node_ctx).

Definition wrapError {A} (ctx : node_ctx) (m : res node_err A) : res node_err A :=
  match m with
  | Err (NodeDecodeError what stack) => Err (NodeDecodeError what (stack ++ [ctx]))
  | Err e => Err (NodeDecodeError e [ctx])
  | _ => m
  end.
(** An error of rlp, as the caller reports it. *)
Definition rlp_res {A} (f : rlp_err → node_err) (m : res rlp_err A) : res node_err A :=
  match m with Ok a => Ok a | Err e => Err (f e) | Panic p => Panic p | OutOfFuel => OutOfFuel end.

Definition hashLen : Z := 32.

Section decode.
(** [decodeNode] of an embedded node. *)
Context (decodeNode : option bytes → bytes → res node_err node).

Definition decodeRef (buf : bytes) : res node_err (node * bytes) :=
  '(kind, val, rest) ← rlp_res NodeRlp (Split buf);
  match kind with
  | List =>
      let size := len buf - len rest in
      if size >? hashLen then Err (NodeOversized size)
      else n ← decodeNode None buf; Ok (n, rest)
  | String =>
      if len val =? 0 then Ok (Nil, rest)
      else if len val =? 32 then Ok (hashNode val, rest)
      else Err (NodeStringSize (len val))
  | Byte => Err (NodeStringSize (len val))
  end.

Definition decodeShort (hash : option bytes) (elems : bytes) : res node_err node :=
  '(kbuf, rest) ← rlp_res NodeRlp (SplitString elems);
  let flag := mk_nodeFlag hash false in
  key ← compactToHex kbuf;
  if hasTerm key then
    '(val, _) ← rlp_res NodeValueError (SplitString rest);
    Ok (shortNode key (valueNode val) flag)
  else
    '(r, _) ← wrapError CtxVal (decodeRef rest);
    Ok (shortNode key r flag).

(** [n] rounds of the loop over the children, from round [i]. *)
Fixpoint decode_children (n : nat) (i : Z) (elems : bytes) : res node_err (list node * bytes) :=
  match n with
  | O => Ok ([], elems)
  | S n =>
      '(cld, rest) ← wrapError (CtxIndex i) (decodeRef elems);
      '(cs, rest) ← decode_children n (i + 1) rest;
      Ok (cld :: cs, rest)
  end.
Definition decodeFull (hash : option bytes) (elems : bytes) : res node_err node :=
  '(cs, elems) ← decode_children 16 0 elems;
  '(val, _) ← rlp_res NodeRlp (SplitString elems);
  Ok (fullNode (cs ++ [if len val >? 0 then valueNode val else Nil]) (mk_nodeFlag hash false)).
End decode.

(** An embedded node is a proper part of its parent, so that the length of the buffer is
    enough fuel. *)
Fixpoint decode_fuel (fuel : nat) (hash : option bytes) (buf : bytes) : res node_err node :=
  match fuel with
  | O => OutOfFuel
  | S fuel =>
      if len buf =? 0 then Err NodeUnexpectedEOF
      else
        '(elems, _) ← rlp_res NodeListError (SplitList buf);
        c ← match CountValues elems with Ok c => Ok c | Err _ => Ok 0 | Panic p => Panic p | OutOfFuel => OutOfFuel end;
        if c =? 2 then wrapError CtxShort (decodeShort (decode_fuel fuel) hash elems)
        else if c =? 17 then wrapError CtxFull (decodeFull (decode_fuel fuel) hash elems)
        else Err (NodeCount c)
  end.
Definition decodeNode (hash : option bytes) (buf : bytes) : res node_err node := decode_fuel (S (length buf)) hash buf.

(** ** Following a path *)

(** [get] with [skipResolved] true: the rest of the key, and the hash node, value or nil
    that is reached. *)
Fixpoint get_resolved (tn : node) (key : bytes) {struct tn} : res node_err (bytes * node) :=
  match tn with
  | shortNode k v _ =>
      if (len key <? len k) || negb (bool_decide (k = take (length k) key)) then Ok ([], Nil)
      else get_resolved v (drop (length k) key)
  | fullNode cs _ =>
      key0 ← go_index key 0;
      (fix find (cs : list node) (i : nat) {struct cs} : res node_err (bytes * node) :=
         match cs, i with
         | c :: _, O => get_resolved c (drop 1 key)
         | _ :: cs, S i => find cs i
         | [], _ => Panic runtime_error
         end) cs (Z.to_nat key0)
  | hashNode h => Ok (key, tn)
  | Nil => Ok (key, Nil)
  | valueNode v => Ok ([], tn)
  end.

Inductive proof_err := ProofMissing (i : Z) (hash : bytes) | ProofBadNode (i : Z) (e : node_err).

(** [copy(wantHash[:], cld)]. *)
Definition copy_hash (wantHash cld : bytes) : bytes := take (length wantHash) (cld ++ drop (length cld) wantHash).

Section verify.
Context (proofDb : bytes → option bytes).

Fixpoint verify_loop (fuel : nat) (i : Z) (wantHash key : bytes) : res proof_err (option bytes) :=
  match fuel with
  | O => OutOfFuel
  | S fuel =>
      match proofDb wantHash with
      | None => Err (ProofMissing i wantHash)
      | Some buf =>
          match decodeNode (Some wantHash) buf with
          | Ok n =>
              match get_resolved n key with
              | Ok (keyrest, Nil) => Ok None
              | Ok (keyrest, hashNode cld) => verify_loop fuel (i + 1) (copy_hash wantHash cld) keyrest
              | Ok (keyrest, valueNode v) => Ok (Some v)
              | Ok (keyrest, _) => verify_loop fuel (i + 1) wantHash key
              | Err e => Err (ProofBadNode i e)
              | Panic p => Panic p
              | OutOfFuel => OutOfFuel
              end
          | Err e => Err (ProofBadNode i e)
          | Panic p => Panic p
          | OutOfFuel => OutOfFuel
          end
      end
  end.
Definition VerifyProof (fuel : nat) (rootHash key : bytes) : res proof_err (option bytes) :=
  verify_loop fuel 0 rootHash (keybytesToHex key).
End verify.

(** ** Proving *)

Section prove.
Context (keccak256 : bytes → bytes) (db : bytes → option node).

(** The nodes on the path of the key. *)
Fixpoint prove_path (fuel : nat) (tn : node) (key : bytes) : res trie_err (list node) :=
  match key, tn with
  | [], _ | _, Nil => Ok []
  | _ :: _, _ =>
      match fuel with
      | O => OutOfFuel
      | S fuel =>
          match tn with
          | shortNode k v _ =>
              if (len key <? len k) || negb (bool_decide (k = take (length k) key)) then Ok [tn]
              else ns ← prove_path fuel v (drop (length k) key); Ok (tn :: ns)
          | fullNode cs _ =>
              key0 ← go_index key 0;
              c ← child cs key0;
              ns ← prove_path fuel c (drop 1 key); Ok (tn :: ns)
          | hashNode h => c ← resolveHash db h []; prove_path fuel c key
          | _ => Panic (raised "invalid node")
          end
      end
  end.

(** The elements that are put into the proof database, node [i] being the root. *)
Fixpoint prove_nodes (i : nat) (fromLevel : Z) (nodes : list node) : H (list (bytes * bytes)) :=
  match nodes with
  | [] => mret []
  | n :: nodes =>
      if fromLevel >? 0 then prove_nodes (S i) (fromLevel - 1) nodes
      else
        '(n, hn) ← proofHash keccak256 n;
        put ← match hn with
              | hashNode h => enc ← st_lift (encode_node n); mret [(h, enc)]
              | _ => if (i =? 0)%nat then enc ← st_lift (encode_node n); mret [(hashData keccak256 enc, enc)] else mret []
              end;
        rest ← prove_nodes (S i) fromLevel nodes;
        mret (put ++ rest)
  end.
Definition Prove (t : Trie) (key : bytes) (fromLevel : Z) : H (list (bytes * bytes)) :=
  let k := keybytesToHex key in
  nodes ← st_lift (prove_path (walk_fuel k) (root t) k);
  prove_nodes 0 fromLevel nodes.
End prove.
