(* ===== verification/TrieProofOk.v ===== *)
(** * Nodes and Merkle proofs are decoded correctly

    Decoding the encoding of a node gives the node back, with its larger children
    replaced by their hashes; so that a proof that is followed from the root hash of a
    trie leads to what the trie holds. *)
From stdpp Require Import gmap.
From S2P Require Import Prelude TrieEncoding RlpBase RlpRaw RlpEncode Trie TrieHash TrieHashOk TrieRoot TrieMerkle TrieProof.

Section decode.
Context (keccak256 : bytes → bytes) (db : bytes → option node).
Context (Hdigest : digest keccak256).
Abbreviation blob := (blob keccak256).
Abbreviation link := (link keccak256).
Abbreviation linked := (linked keccak256 db).
Abbreviation wf := (wf db).
Abbreviation small := (small db).

(** ** What decoding returns *)

Fixpoint view (h : option bytes) (n : node) : node :=
  let child c :=
    match c with
    | shortNode _ _ _ | fullNode _ _ => if len (blob c) <? 32 then view None c else hashNode (keccak256 (blob c))
    | _ => c
    end in
  match n with
  | shortNode k c _ => shortNode k (child c) (mk_nodeFlag h false)
  | fullNode cs _ => fullNode (map child cs) (mk_nodeFlag h false)
  | _ => n
  end.
Definition view_child (c : node) : node :=
  match c with
  | shortNode _ _ _ | fullNode _ _ => if len (blob c) <? 32 then view None c else hashNode (keccak256 (blob c))
  | _ => c
  end.
Lemma view_short h k c f : view h (shortNode k c f) = shortNode k (view_child c) (mk_nodeFlag h false).
Proof. done. Qed.
Lemma view_full h cs f : view h (fullNode cs f) = fullNode (map view_child cs) (mk_nodeFlag h false).
Proof. done. Qed.

(** ** Decoding *)

Definition decodes (n : node) : Prop := ∀ fuel h r,
  (length (blob n) ≤ fuel)%nat → bytes_ok r → len r < 2 ^ 60 → decode_fuel fuel h (blob n ++ r) = Ok (view h n).
(** A child as an element of its parent's list. *)
Definition child_ok (c : node) : Prop :=
  bytes_ok (link c) ∧ len (link c) ≤ 41 ∧ (∃ k x, link c = rlp_value k x ∧ kind_ok k x) ∧
  ∀ fuel r, (length (link c) ≤ fuel)%nat → bytes_ok r → len r < 2 ^ 60 → decodeRef (decode_fuel fuel) (link c ++ r) = Ok (view_child c, r).

Lemma bytes_ok_value k x r : bytes_ok (rlp_value k x) → bytes_ok r → bytes_ok (x ++ r).
Proof. intros Hv Hr. apply bytes_ok_app. split; [|done]. destruct k; [done|by apply bytes_ok_app in Hv as [_ ?]..]. Qed.
Lemma Split_ok k x r : kind_ok k x → bytes_ok (rlp_value k x) → len (rlp_value k x) < 2 ^ 61 → bytes_ok r → len r < 2 ^ 60 → Split (rlp_value k x ++ r) = Ok (k, x, r).
Proof.
  intros Hk Hv Hl Hr Hlr. apply Split_value; [done|by eapply bytes_ok_value|]. rewrite len_app. pose proof (len_nonneg (rlp_value k x)). pose proof (len_nonneg r). unfold is_u64. lia.
Qed.
Lemma rlp_list_ok p : bytes_ok p → len p < 2 ^ 50 → bytes_ok (rlp_list p) ∧ len (rlp_list p) < 2 ^ 51.
Proof.
  intros Hp Hl. pose proof (len_nonneg p). pose proof (len_rlp_list_le p ltac:(unfold is_u64; lia)). split; [|lia].
  apply bytes_ok_app. split; [apply rlp_head_ok; [by right|unfold is_u64; lia]|done].
Qed.
Lemma SplitString_ok x r : bytes_ok x → len x < 2 ^ 50 → bytes_ok r → len r < 2 ^ 60 → SplitString (rlp_string x ++ r) = Ok (x, r).
Proof.
  intros Hx Hl Hr Hlr. pose proof (len_nonneg x). pose proof (len_nonneg r). pose proof (len_rlp_string_le x ltac:(unfold is_u64; lia)).
  apply SplitString_string; [by apply bytes_ok_app|]. rewrite len_app. pose proof (len_nonneg (rlp_string x)). unfold is_u64. lia.
Qed.

Lemma child_ok_Nil : child_ok Nil.
Proof.
  split_and!; [repeat constructor; done|done|by exists String, []|]. intros fuel r _ Hr Hlr. change (link Nil ++ r) with (rlp_value String [] ++ r).
  unfold decodeRef. rewrite Split_ok; [done|done|repeat constructor; done|done..].
Qed.
Lemma digest_value b : rlp_string (keccak256 b) = rlp_value String (keccak256 b) ∧ kind_ok String (keccak256 b).
Proof.
  pose proof (proj1 (Hdigest b)) as Hl. destruct (rlp_string_cases (keccak256 b)) as [(x & Hx & _)|[Hk ->]]; [rewrite Hx in Hl; done|done].
Qed.
Lemma digest_string_ok b : bytes_ok (rlp_string (keccak256 b)) ∧ len (rlp_string (keccak256 b)) ≤ 41.
Proof.
  destruct (string_ok_digest keccak256 Hdigest b) as [Hb Hl]. split; [by apply rlp_string_ok|]. pose proof (len_rlp_string_le _ Hl). pose proof (len_digest keccak256 Hdigest b). lia.
Qed.
Lemma decodeRef_digest fuel b r : bytes_ok r → len r < 2 ^ 60 → decodeRef (decode_fuel fuel) (rlp_string (keccak256 b) ++ r) = Ok (hashNode (keccak256 b), r).
Proof.
  intros Hr Hlr. destruct (digest_string_ok b) as [Hb Hl]. destruct (digest_value b) as [E Hk]. rewrite E in *.
  unfold decodeRef. rewrite Split_ok by (done || lia). cbn [mbind res_bind rlp_res]. by rewrite len_digest by done.
Qed.
Lemma child_ok_hash h : linked (hashNode h) → child_ok (hashNode h).
Proof.
  intros Hl0. inversion Hl0 as [| | | |? m Hm Hin Hlm Heq Hlen]; subst. change (link (hashNode (keccak256 (blob m)))) with (rlp_string (keccak256 (blob m))).
  destruct (digest_string_ok (blob m)) as [Hb Hl]. split_and!; [done..|exists String, (keccak256 (blob m)); apply digest_value|]. intros fuel r _ Hr Hlr. by apply decodeRef_digest.
Qed.
Lemma child_ok_inner c p : inner c → blob c = rlp_list p → bytes_ok p → len p < 2 ^ 50 → decodes c → child_ok c.
Proof.
  intros Hi Hb Hp Hlp Hd. assert (link c = if len (blob c) <? 32 then blob c else rlp_string (keccak256 (blob c))) as E by (by destruct c).
  assert (view_child c = if len (blob c) <? 32 then view None c else hashNode (keccak256 (blob c))) as Ev by (by destruct c).
  unfold child_ok. rewrite E, Ev. destruct (rlp_list_ok p Hp Hlp) as [Hbl Hll]. destruct (Z.ltb_spec (len (blob c)) 32) as [Hlt|Hge].
  - split_and!; [by rewrite Hb|lia|by exists List, p|]. intros fuel r Hf Hr Hlr. unfold decodeRef. rewrite Hb at 1. change (rlp_list p) with (rlp_value List p).
    rewrite Split_ok by (done || (change (rlp_value List p) with (rlp_list p); done || lia)). cbn [mbind res_bind rlp_res].
    rewrite len_app. destruct (Z.gtb_spec (len (blob c) + len r - len r) hashLen) as [Hgt|_]; [unfold hashLen in Hgt; lia|].
    by rewrite Hd.
  - destruct (digest_string_ok (blob c)) as [Hdb Hdl]. split_and!; [done..|exists String, (keccak256 (blob c)); apply digest_value|].
    intros fuel r _ Hr Hlr. by apply decodeRef_digest.
Qed.

Lemma CountValues_values vs : Forall (λ v, kind_ok v.1 v.2) vs → bytes_ok (rlp_values vs) → len (rlp_values vs) < 2 ^ 60 → CountValues (rlp_values vs) = Ok (len vs).
Proof.
  intros Hk Hb Hl. unfold CountValues. rewrite CountValues_loop_values; [f_equal; lia|done..| |done]. pose proof (len_nonneg (rlp_values vs)). unfold is_u64. lia.
Qed.
(** A list of the given number of values. *)
Lemma decode_list fuel h p r c :
  bytes_ok p → len p < 2 ^ 50 → bytes_ok r → len r < 2 ^ 60 → CountValues p = Ok c →
  decode_fuel (S fuel) h (rlp_list p ++ r) =
    if c =? 2 then wrapError CtxShort (decodeShort (decode_fuel fuel) h p)
    else if c =? 17 then wrapError CtxFull (decodeFull (decode_fuel fuel) h p) else Err (NodeCount c).
Proof.
  intros Hp Hl Hr Hlr Hc. destruct (rlp_list_ok p Hp Hl) as [_ Hll]. cbn [decode_fuel]. pose proof (len_nonneg r). pose proof (len_nonneg (rlp_list p)).
  assert (1 ≤ len (rlp_list p)). { unfold rlp_list. rewrite len_app. pose proof (len_rlp_head 0xC0 (len p)) as Hh. pose proof (len_nonneg p). unfold is_u64 in Hh. lia. }
  rewrite len_app, (proj2 (Z.eqb_neq _ _)) by lia. rewrite SplitList_list; [|by apply bytes_ok_app|rewrite len_app; unfold is_u64; lia].
  cbn [mbind res_bind rlp_res]. by rewrite Hc.
Qed.
Lemma length_rlp_list p : (length p < length (rlp_list p))%nat.
Proof. unfold rlp_list. destruct (rlp_head_nonempty 0xC0 (len p)) as (x & l & ->). cbn. rewrite length_app. lia. Qed.
Lemma compactToHex_leaf {E} k : hexk k → compactToHex (E:=E) (compact k) = Ok k ∧ hasTerm k = true.
Proof.
  intros (ns & Hn & ->). change (ns ++ [16]) with (hex_key ns true). unfold compact. by rewrite cut_hex_key, hasTerm_hex_key, compactToHex_hex_prefix by done.
Qed.
Lemma compactToHex_ext {E} k : Forall nibble k → compactToHex (E:=E) (compact k) = Ok k ∧ hasTerm k = false.
Proof.
  intros Hn. assert (hex_key k false = k) as Hk by (unfold hex_key; by rewrite app_nil_r). rewrite <-Hk.
  unfold compact. by rewrite cut_hex_key, hasTerm_hex_key, compactToHex_hex_prefix by done.
Qed.

(** What is shown of a node. *)
Definition node_decodes (n : node) : Prop := ∃ p, blob n = rlp_list p ∧ bytes_ok p ∧ len p < 2 ^ 50 ∧ decodes n.
Lemma compact_string k : short_key k → len k < 2 ^ 32 → bytes_ok (compact k) ∧ bytes_ok (rlp_string (compact k)) ∧ len (compact k) < 2 ^ 33 ∧ len (rlp_string (compact k)) < 2 ^ 34.
Proof.
  intros Hk Hl. destruct (compact_ok (E:=unit) k Hk) as (_ & Hb & Hlk). pose proof (len_nonneg (compact k)). assert (is_u64 (len (compact k))) as Hu by (unfold is_u64; lia).
  pose proof (len_rlp_string_le _ Hu). split_and!; [done|by apply rlp_string_ok|lia..].
Qed.
Lemma count_two x k y : bytes_ok x → kind_ok k y → bytes_ok (rlp_string x ++ rlp_value k y) → len (rlp_string x ++ rlp_value k y) < 2 ^ 60 →
  CountValues (rlp_string x ++ rlp_value k y) = Ok 2.
Proof.
  intros Hx Hk Hb Hl. destruct (rlp_string_value x Hx) as (kx & _ & Ex & Hkx). rewrite Ex in *.
  assert (rlp_value kx x ++ rlp_value k y = rlp_values [(kx, x); (k, y)]) as E by (unfold rlp_values; cbn [map concat fst snd]; by rewrite app_nil_r).
  rewrite E in *. rewrite CountValues_values; [done|repeat constructor; done|done..].
Qed.
Lemma decode_leaf k v f : hexk k → small_kv k v → node_decodes (shortNode k (valueNode v) f).
Proof.
  intros Hk (Hlk & Hv & Hlv). destruct (compact_string k (short_key_hexk k Hk) Hlk) as (Hcb & Hcs & Hcl & Hcsl).
  assert (is_u64 (len v)) as Hu by (pose proof (len_nonneg v); unfold is_u64; lia). pose proof (rlp_string_ok v Hv Hu) as Hvs. pose proof (len_rlp_string_le v Hu) as Hvl.
  exists (rlp_string (compact k) ++ rlp_string v). assert (bytes_ok (rlp_string (compact k) ++ rlp_string v)) as Hp by (by apply bytes_ok_app).
  assert (len (rlp_string (compact k) ++ rlp_string v) < 2 ^ 50) as Hlp by (rewrite len_app; lia). split_and!; [done..|].
  intros fuel h r Hf Hr Hlr. change (blob (shortNode k (valueNode v) f)) with (rlp_list (rlp_string (compact k) ++ rlp_string v)) in Hf |- *.
  destruct fuel as [|fuel]; [pose proof (length_rlp_list (rlp_string (compact k) ++ rlp_string v)); lia|].
  destruct (rlp_string_value v Hv) as (kv & _ & Ev & Hkv).
  rewrite (decode_list _ _ _ _ 2); [|done..|rewrite Ev; apply count_two; rewrite <-?Ev; [done..|lia]]. cbn [Z.eqb Pos.eqb].
  unfold decodeShort. rewrite SplitString_ok by (done || lia). cbn [mbind res_bind rlp_res]. destruct (compactToHex_leaf (E:=node_err) k Hk) as [E1 E2]. rewrite E1. cbn [mbind res_bind]. rewrite E2.
  rewrite <-(app_nil_r (rlp_string v)), SplitString_ok; [done|done|lia|constructor|done].
Qed.
Lemma decode_ext k c f : Forall nibble k → len k < 2 ^ 32 → c ≠ Nil → child_ok c → node_decodes (shortNode k c f).
Proof.
  intros Hk Hlk Hnil (Hb & Hl & (kc & x & Ec & Hkc) & Hd). destruct (compact_string k (short_key_nibbles k Hk) Hlk) as (Hcb & Hcs & Hcl & Hcsl).
  exists (rlp_string (compact k) ++ link c). assert (bytes_ok (rlp_string (compact k) ++ link c)) as Hp by (by apply bytes_ok_app).
  assert (len (rlp_string (compact k) ++ link c) < 2 ^ 50) as Hlp by (rewrite len_app; lia). split_and!; [done..|].
  intros fuel h r Hf Hr Hlr. change (blob (shortNode k c f)) with (rlp_list (rlp_string (compact k) ++ link c)) in Hf |- *.
  destruct fuel as [|fuel]; [pose proof (length_rlp_list (rlp_string (compact k) ++ link c)); lia|].
  rewrite (decode_list _ _ _ _ 2); [|done..|rewrite Ec; apply count_two; rewrite <-?Ec; [done..|lia]]. cbn [Z.eqb Pos.eqb].
  unfold decodeShort. rewrite SplitString_ok by (done || lia). cbn [mbind res_bind rlp_res]. destruct (compactToHex_ext (E:=node_err) k Hk) as [E1 E2]. rewrite E1. cbn [mbind res_bind]. rewrite E2.
  rewrite <-(app_nil_r (link c)), Hd; [done| |constructor|done].
  pose proof (length_rlp_list (rlp_string (compact k) ++ link c)) as Hlt. rewrite length_app in Hlt. lia.
Qed.

(** *** Full nodes *)

Lemma links_values cs : Forall child_ok cs →
  bytes_ok (concat (map link cs)) ∧ len (concat (map link cs)) ≤ 41 * len cs ∧
  ∃ vs, length vs = length cs ∧ concat (map link cs) = rlp_values vs ∧ Forall (λ v, kind_ok v.1 v.2) vs.
Proof.
  induction 1 as [|c cs (Hb & Hl & (k & x & E & Hk) & _) _ (IHb & IHl & vs & Hlv & Ev & Hkv)]; [split_and!; [constructor|done|by exists []]|].
  cbn [map concat]. split_and!; [by apply bytes_ok_app|rewrite len_app, len_cons; lia|]. exists ((k, x) :: vs). split_and!; [cbn; lia| |by constructor].
  rewrite E, Ev. done.
Qed.
Lemma decode_children_ok fuel cs : Forall child_ok cs → ∀ i r,
  (length (concat (map link cs)) ≤ fuel)%nat → bytes_ok r → len (concat (map link cs)) + len r < 2 ^ 60 →
  decode_children (decode_fuel fuel) (length cs) i (concat (map link cs) ++ r) = Ok (map view_child cs, r).
Proof.
  induction 1 as [|c cs (Hb & Hl & _ & Hd) Hcs IH]; intros i r Hf Hr Hlr; [done|]. cbn [map concat length decode_children] in *.
  rewrite length_app in Hf. rewrite len_app in Hlr. pose proof (len_nonneg (link c)). pose proof (len_nonneg r).
  rewrite <-app_assoc, Hd; [|lia|apply bytes_ok_app; split; [by apply links_values|done]|rewrite len_app; lia].
  cbn [wrapError mbind res_bind]. by rewrite IH by (done || lia).
Qed.
Lemma rlp_values_snoc vs k x : rlp_values (vs ++ [(k, x)]) = rlp_values vs ++ rlp_value k x.
Proof. unfold rlp_values. rewrite map_app, concat_app. cbn [map concat fst snd]. by rewrite app_nil_r. Qed.
(** The last child: a value, or nil for the empty string. *)
Definition value_slot (v : bytes) : node := if len v >? 0 then valueNode v else Nil.
Lemma value_slot_link v : link (value_slot v) = rlp_string v ∧ view_child (value_slot v) = value_slot v.
Proof. unfold value_slot. destruct v; done. Qed.
Lemma decode_full cs v f : length cs = 16%nat → Forall child_ok cs → bytes_ok v → len v < 2 ^ 32 → node_decodes (fullNode (cs ++ [value_slot v]) f).
Proof.
  intros Hcs Hok Hv Hlv. destruct (links_values cs Hok) as (Hb & Hl & vs & Hlvs & Ev & Hkv). destruct (value_slot_link v) as [El Evw].
  assert (is_u64 (len v)) as Hu by (pose proof (len_nonneg v); unfold is_u64; lia). pose proof (rlp_string_ok v Hv Hu) as Hvs. pose proof (len_rlp_string_le v Hu) as Hvl.
  assert (len cs = 16) as Hlc by (unfold len; lia). set (p := concat (map link cs) ++ rlp_string v).
  assert (blob (fullNode (cs ++ [value_slot v]) f) = rlp_list p) as Eb.
  { cbn [TrieHash.blob]. change (map _ (cs ++ [value_slot v])) with (map link (cs ++ [value_slot v])). rewrite map_app, concat_app. cbn [map concat]. by rewrite El, app_nil_r. }
  assert (bytes_ok p) as Hp by (by apply bytes_ok_app). assert (len p < 2 ^ 50) as Hlp by (unfold p; rewrite len_app; lia).
  exists p. split_and!; [done..|]. intros fuel h r Hf Hr Hlr. rewrite Eb in Hf |- *.
  destruct fuel as [|fuel]; [pose proof (length_rlp_list p); lia|]. destruct (rlp_string_value v Hv) as (kv & _ & Evv & Hkv').
  assert (p = rlp_values (vs ++ [(kv, v)])) as Ep by (unfold p; by rewrite rlp_values_snoc, Ev, Evv).
  rewrite (decode_list _ _ _ _ 17); [|done..|]; cycle 1.
  { rewrite Ep in *. rewrite CountValues_values; [|apply Forall_app; split; [done|by repeat constructor]|done|lia]. unfold len. rewrite length_app. cbn. do 2 f_equal. lia. }
  cbn [Z.eqb Pos.eqb]. unfold decodeFull. rewrite <-Hcs. unfold p. pose proof (length_rlp_list p) as Hlt. unfold p in Hlt, Hf, Hlp. rewrite len_app in Hlp. rewrite length_app in Hlt.
  rewrite decode_children_ok by (done || (pose proof (len_nonneg (rlp_string v)); lia)). cbn [mbind res_bind].
  rewrite <-(app_nil_r (rlp_string v)), SplitString_ok; [|done|lia|constructor|done]. cbn [mbind res_bind rlp_res wrapError].
  rewrite view_full, map_app. cbn [map]. by rewrite Evw.
Qed.

Lemma child_ok_wf c : wf c → linked c → (inner c → node_decodes c) → child_ok c.
Proof.
  intros Hwf Hl Hd. destruct (wf_cases db c Hwf) as [Hi|[h ->]]; [|by apply child_ok_hash].
  destruct (Hd Hi) as (p & Hb & Hp & Hlp & Hdc). by eapply child_ok_inner.
Qed.
Lemma last_child cs : length cs = 17%nat → (∀ c, cs !! 16%nat = Some c → c ≠ Nil → ∃ v, v ≠ [] ∧ c = valueNode v) → ∃ v, cs = take 16 cs ++ [value_slot v] ∧ (v ≠ [] → cs !! 16%nat = Some (valueNode v)).
Proof.
  intros Hl H16. destruct (lookup_lt_is_Some_2 cs 16 ltac:(lia)) as [c Hc]. pose proof (take_drop 16 cs) as E. rewrite (drop_S cs c 16 Hc), drop_ge in E by lia.
  destruct (decide (is_nil c = true)) as [Hn|Hn]; [destruct c; try done; by exists []|].
  destruct (H16 c Hc) as (v & Hv & ->); [by intros ->|]. exists v. split; [|done]. rewrite <-E at 1. f_equal. destruct v; done.
Qed.
(** The encoding of a node of a trie decodes to the node. *)
Lemma wf_decodes n : wf n → small n → linked n → inner n → node_decodes n.
Proof.
  induction 1 as [k v f Hk Hv|k c f Hk Hn Hc IH Hbr|cs f Hl Hc IH H16 H2|h n Hh Hld Hwn IH]; intros Hsm Hlk Hi; [| | |done].
  - apply decode_leaf; [done|]. rewrite <-(app_nil_r k). apply Hsm. constructor. constructor.
  - inversion Hlk; subst. destruct (small_short db k c f Hsm) as [Hsc Hkl]. apply decode_ext; [done|by apply Hkl, wf_inhabited|by apply wf_not_Nil in Hc|].
    apply child_ok_wf; [done..|]. by apply IH.
  - inversion Hlk as [| | |? ? Hlc|]; subst. destruct (last_child cs Hl H16) as (v & E & Hv16). assert (small_kv [] v) as (_ & Hvb & Hvl).
    { destruct (decide (v = [])) as [->|Hv]; [by split_and!; [|constructor|]|]. apply (small_full db cs f 16 (valueNode v) Hsm); [by apply Hv16|constructor]. }
    rewrite E. apply decode_full; [rewrite length_take; lia| |done..]. apply Forall_lookup. intros i c [Hi' Hci]%lookup_take_Some.
    destruct (decide (is_nil c = true)) as [Hn|Hn]; [destruct c; try done; apply child_ok_Nil|]. assert (c ≠ Nil) as Hnil by (by intros ->).
    apply child_ok_wf; [by eapply Hc|by eapply Hlc|]. apply (IH i); [done..|by eapply small_full|by eapply Hlc].
Qed.

(** ** Following a path *)

(** Below [n], the path [key] leads to the node [s] with [rest] left. *)
Inductive leads : node → bytes → node → bytes → Prop :=
| leads_here s key : leads s key s key
| leads_short k c f key s rest : leads c key s rest → leads (shortNode k c f) (k ++ key) s rest
| leads_full cs f x c key s rest : 0 ≤ x → cs !! Z.to_nat x = Some c → leads c key s rest → leads (fullNode cs f) (x :: key) s rest
| leads_hash h n key s rest : db (BytesToHash h) = Some n → leads n key s rest → leads (hashNode h) key s rest.

Lemma leads_has n key s rest v : leads n key s rest → has db n key v ↔ has db s rest v.
Proof.
  induction 1 as [|k c f key s rest _ IH|cs f x c key s rest Hx Hc _ IH|h n key s rest Hh _ IH]; [done|..]; rewrite <-IH.
  - rewrite has_short_iff. split; [by intros (? & ->%app_inv_head & ?)|eauto].
  - by apply has_full_child.
  - by apply has_hash_iff.
Qed.
Lemma leads_trans n key s rest s' rest' : leads n key s rest → leads s rest s' rest' → leads n key s' rest'.
Proof. induction 1; intros Hs; [done|econstructor; by auto..]. Qed.

(** What [get] may return, with at most [b] nibbles left. *)
Inductive got (n : node) (key : bytes) (b : nat) : res node_err (bytes * node) → Prop :=
| got_none r : (∀ v, ¬ has db n key v) → got n key b (Ok (r, Nil))
| got_value v r : has db n key v → got n key b (Ok (r, valueNode v))
| got_hash s rest :
    leads n key s rest → inner s → wf s → linked s → hexk rest → (length rest ≤ b)%nat → 32 ≤ len (blob s) →
    got n key b (Ok (rest, hashNode (keccak256 (blob s)))).
Lemma got_step n key c key' b b' r : (b ≤ b')%nat → leads n key c key' → got c key' b r → got n key b' r.
Proof.
  intros Hb Hl [r' Hn|v r' Hv|s rest Hs Hi Hwf Hlk Hx Hlen H32].
  - apply got_none. intros v. by rewrite (leads_has _ _ _ _ v Hl).
  - apply got_value. by rewrite (leads_has _ _ _ _ v Hl).
  - apply got_hash; try done; [by eapply leads_trans|lia].
Qed.

(** A child that is not a value. *)
Lemma got_child c key : wf c → linked c → hexk key →
  (inner c → got c key (length key) (get_resolved (view None c) key)) → got c key (length key) (get_resolved (view_child c) key).
Proof.
  intros Hwf Hl Hk Hin. destruct (wf_cases db c Hwf) as [Hi|[h ->]].
  - assert (view_child c = if len (blob c) <? 32 then view None c else hashNode (keccak256 (blob c))) as -> by (by destruct c).
    destruct (Z.ltb_spec (len (blob c)) 32); [by apply Hin|]. apply got_hash; [constructor|done..].
  - inversion Hl as [| | | |? m Hm Him Hlm Heq Hlen]; subst. inversion Hwf as [| | |? n Hn _ Hwn]; subst. rewrite Hm in Hn. injection Hn as <-.
    apply got_hash; [|done..]. by eapply leads_hash; [|constructor].
Qed.
Lemma prefix_test (k key : bytes) : (len key <? len k) || negb (bool_decide (k = take (length k) key)) = negb (bool_decide (k `prefix_of` key)).
Proof.
  case_bool_decide as E; case_bool_decide as Hp; destruct (Z.ltb_spec (len key) (len k)) as [Hl|Hl]; unfold len in Hl; try done; exfalso.
  - destruct Hp as [r ->]. rewrite length_app in Hl. lia.
  - apply Hp. exists (drop (length k) key). by rewrite E, take_drop at 1.
  - destruct Hp as [r ->]. rewrite length_app in Hl. lia.
  - destruct Hp as [r ->]. by rewrite take_app_length in E.
Qed.
Lemma get_short k c vc f f' key : k ≠ [] →
  (∀ key', key = k ++ key' → got c key' (length key') (get_resolved vc key')) →
  got (shortNode k c f) key (length key - 1) (get_resolved (shortNode k vc f') key).
Proof.
  intros Hk Hc. cbn [get_resolved]. rewrite prefix_test. case_bool_decide as Hp; cbn [negb].
  - destruct Hp as [key' ->]. rewrite drop_app_length. eapply got_step; [|by apply leads_short, leads_here|by apply Hc].
    rewrite length_app. destruct k; [done|cbn; lia].
  - apply got_none. intros v (key' & -> & _)%has_short_iff. apply Hp. by exists key'.
Qed.
Lemma get_resolved_full cs f x key c : 0 ≤ x → cs !! Z.to_nat x = Some c → get_resolved (fullNode cs f) (x :: key) = get_resolved c key.
Proof.
  intros Hx Hc. cbn [get_resolved]. rewrite (go_index_ok (x :: key) 0 x) by done. cbn [mbind res_bind drop]. rewrite drop_0. clear f.
  revert Hc. generalize (Z.to_nat x) as i. induction cs as [|c0 cs IH]; intros [|i] Hi; [done..|by injection Hi as ->|by apply IH].
Qed.
(** Following a decoded node: absence, the value, or the hash of a node of the trie. *)
Lemma get_view n : wf n → ∀ h key, linked (set_hash None n) → inner n → hexk key → got n key (length key - 1) (get_resolved (view h n) key).
Proof.
  induction 1 as [k v f Hk Hv|k c f Hk Hn Hc IH Hbr|cs f Hl Hc IH H16 H2|h n Hh Hld Hwn IH]; intros h0 key Hlk Hi Hkey; [| | |done].
  - rewrite view_short. apply get_short; [by apply hexk_ne|]. intros key' ->. apply hexk_prefix_free in Hkey as ->; [|done]. apply got_value. constructor.
  - rewrite view_short. apply get_short; [done|]. intros key' ->. rewrite hexk_app in Hkey by done. pose proof (linked_short_inv _ _ k c f Hlk) as Hlc.
    apply got_child; [done..|]. intros Hic. eapply got_step; [|apply leads_here|by apply IH; [apply linked_unset|..]]. lia.
  - rewrite view_full. destruct key as [|x key]; [by apply hexk_nil in Hkey|].
    destruct (full_child db cs f x key ltac:(by constructor) Hkey) as (c & Hx & Hcs & Hslot & _).
    rewrite (get_resolved_full _ _ _ _ (view_child c)); [|done|change (map view_child cs) with (view_child <$> cs); by rewrite list_lookup_fmap, Hcs].
    eapply (got_step _ _ c key (length key)); [cbn; lia|by eapply leads_full; [..|apply leads_here]|]. pose proof (linked_full_inv _ _ cs f Hlk _ _ Hcs) as Hlc.
    destruct Hslot as [->|[[Hnx Hwc]|[-> (v & _ & ->)]]].
    + apply got_none. by intros v ?%has_Nil.
    + apply hexk_cons in Hkey as [[-> _]|[_ Hkey]]; [unfold nibble in Hnx; lia|]. apply got_child; [done..|]. intros Hic.
      eapply got_step; [|apply leads_here|apply (IH (Z.to_nat x)); [unfold nibble in Hnx; lia|done|by apply (wf_not_Nil db)|by apply linked_unset|done..]]. lia.
    + apply hexk_cons in Hkey as [[_ ->]|[Hnx _]]; [|unfold nibble in Hnx; lia]. apply got_value. constructor.
Qed.

(** ** Verifying *)

Lemma leads_small n key s rest : leads n key s rest → small n → small s.
Proof.
  induction 1 as [|k c f key s rest _ IH|cs f x c key s rest Hx Hc _ IH|h n key s rest Hh _ IH]; intros Hsm; [done|apply IH..].
  - by apply small_short in Hsm as [? _].
  - by eapply small_full.
  - intros k v Hk. apply Hsm. by eapply has_hash.
Qed.
Lemma decodeNode_ok n h : wf n → small n → linked (set_hash None n) → inner n → decodeNode h (blob n) = Ok (view h n).
Proof.
  intros Hwf Hsm Hlk Hi.
  assert (wf (set_hash None n)) as Hwf' by (eapply wf_reflag; [|done]; by destruct n).
  assert (small (set_hash None n)) as Hsm' by (intros k v Hk; apply Hsm; eapply has_reflag; [|done]; by destruct n).
  destruct (wf_decodes _ Hwf' Hsm' Hlk) as (p & _ & _ & _ & Hd); [by destruct n|].
  assert (blob (set_hash None n) = blob n) as Eb by (by destruct n). assert (view h (set_hash None n) = view h n) as Ev by (by destruct n).
  specialize (Hd (S (length (blob n))) h [] ltac:(rewrite Eb; lia) ltac:(constructor) ltac:(done)). rewrite app_nil_r, Eb, Ev in Hd. done.
Qed.
Lemma copy_digest a b : copy_hash (keccak256 a) (keccak256 b) = keccak256 b.
Proof.
  unfold copy_hash. rewrite drop_ge, app_nil_r by (by rewrite !(proj1 (Hdigest _))). rewrite take_ge; [done|]. by rewrite !(proj1 (Hdigest _)).
Qed.

Section verify.
Context (proofDb : bytes → option bytes).

Lemma verify_ok fuel : ∀ s key i,
  wf s → small s → linked (set_hash None s) → inner s → hexk key → (length key ≤ fuel)%nat →
  (∀ s' rest buf, leads s key s' rest → inner s' → proofDb (keccak256 (blob s')) = Some buf → buf = blob s') →
  (∃ r, verify_loop proofDb fuel i (keccak256 (blob s)) key = Ok r ∧ ∀ v, r = Some v ↔ has db s key v) ∨
  ∃ j s' rest, verify_loop proofDb fuel i (keccak256 (blob s)) key = Err (ProofMissing j (keccak256 (blob s'))) ∧
    leads s key s' rest ∧ inner s' ∧ hexk rest ∧ (s' = s ∨ 32 ≤ len (blob s')) ∧ proofDb (keccak256 (blob s')) = None.
Proof.
  induction fuel as [|fuel IH]; intros s key i Hwf Hsm Hlk Hi Hk Hf Hdb; [destruct key; [by apply hexk_nil in Hk|cbn in Hf; lia]|].
  cbn [verify_loop]. destruct (proofDb (keccak256 (blob s))) as [buf|] eqn:E.
  2: { right. exists i, s, key. split_and!; [done|constructor|done..|by left|done]. }
  apply (Hdb s key) in E as ->; [|constructor|done]. rewrite decodeNode_ok by done.
  destruct (get_view s Hwf (Some (keccak256 (blob s))) key Hlk Hi Hk) as [r Hn|v r Hv|s' rest Hl Hi' Hwf' Hlk' Hk' Hlen H32].
  - left. eexists. split; [done|]. intros v. split; [done|by intros ?%Hn].
  - left. eexists. split; [done|]. intros w. split; [by intros [= ->]|]. intros Hw. f_equal. by eapply has_fun.
  - rewrite copy_digest. destruct (IH s' rest (i + 1)) as [(r & Hr & Hv)|(j & s2 & rest2 & Hr & Hl2 & Hi2 & Hk2 & H2 & Hnone)];
      [done|by eapply leads_small|by apply linked_unset|done|done|lia|intros; eapply Hdb; [by eapply leads_trans|done..]|..].
    + left. exists r. split; [done|]. intros v. by rewrite Hv, (leads_has _ _ _ _ v Hl).
    + right. exists j, s2, rest2. split_and!; [done|by eapply leads_trans|done..| |done]. right. destruct H2 as [->|]; done.
Qed.
End verify.

(** The root node of a trie that is not empty. *)
Lemma root_node t m key : trie_ok keccak256 db t m → m ≠ ∅ → ∃ s, wf s ∧ small s ∧ linked (set_hash None s) ∧ inner s ∧
  merkle_root keccak256 m = keccak256 (blob s) ∧ leads (root t) key s key ∧ (s = root t ∨ 32 ≤ len (blob s)).
Proof.
  intros Ht Hm. pose proof (trie_ok_small _ _ _ _ Ht) as Hsm. rewrite <-(root_hash_merkle _ _ _ _ Ht). destruct Ht as [[[Hn|Hwf] Hd] [Hlk _] Hf].
  { apply map_choose in Hm as (k & v & Hkv). destruct (has_Nil db (keybytesToHex k) v). rewrite <-Hn. apply Hd. exists k. split_and!; [done|by apply Hf in Hkv as [? _]|done]. }
  destruct (wf_cases db _ Hwf) as [Hi|[h Hr]]; [exists (root t); split_and!; [done..|by destruct (root t)|constructor|by left]|].
  rewrite Hr in *. inversion Hlk as [| | | |? s Hs Hin Hls Heq Hlen]; subst. inversion Hwf as [| | |? n Hn _ Hwn]; subst. rewrite Hs in Hn. injection Hn as <-.
  exists s. split_and!; [done| |by apply linked_unset|done..| |by right].
  - intros k v Hk. apply Hsm. by eapply has_hash.
  - by eapply leads_hash; [|constructor].
Qed.
End decode.
