(* ===== verification/TrieProve.v ===== *)
(** * Merkle proofs are sound and complete

    A proof followed from the root of a trie leads to what the trie holds or to a missing
    node, and the proof that [Prove] writes is complete. *)
From stdpp Require Import gmap.
From S2P Require Import Prelude TrieEncoding RlpBase RlpRaw RlpEncode Trie TrieHash TrieHashOk TrieRoot TrieMerkle TrieProof TrieProofOk.

(** The proof database after some writes. *)
Definition put_all (puts : list (bytes * bytes)) : gmap bytes bytes := foldl (λ m kv, <[kv.1 := kv.2]> m) ∅ puts.
Lemma put_all_snoc puts k v : put_all (puts ++ [(k, v)]) = <[k := v]> (put_all puts).
Proof. unfold put_all. by rewrite foldl_app. Qed.
Lemma put_all_Some puts k v : put_all puts !! k = Some v → (k, v) ∈ puts.
Proof.
  induction puts as [|[k' v'] puts IH] using rev_ind; [unfold put_all; cbn [foldl]; by intros ?%lookup_empty_Some|]. rewrite put_all_snoc, elem_of_app.
  intros [[-> ->]|[_ H]]%lookup_insert_Some; [right; by left|left; by apply IH].
Qed.
Lemma put_all_elem puts k v : (k, v) ∈ puts → is_Some (put_all puts !! k).
Proof.
  induction puts as [|[k' v'] puts IH] using rev_ind; [by intros ?%elem_of_nil|]. rewrite put_all_snoc, elem_of_app.
  destruct (decide (k = k')) as [->|Hne]; [rewrite lookup_insert_eq; intros _; by eexists|]. rewrite lookup_insert_ne by done.
  intros [H|[= -> ->]%list_elem_of_singleton]; [by apply IH|by destruct Hne].
Qed.

Section prove.
Context (keccak256 : bytes → bytes) (db : bytes → option node).
Context (Hdigest : digest keccak256).
Abbreviation blob := (blob keccak256).
Abbreviation linked := (linked keccak256 db).
Abbreviation wf := (wf db).
Abbreviation small := (small db).
Abbreviation leads := (leads db).

Definition provable (n : node) : Prop := wf n ∧ small n ∧ linked (set_hash None n) ∧ inner n.

(** ** The path *)

(** The nodes [ns] are those on the path of [key] below [n]. *)
Definition on_path (n : node) (key : bytes) (ns : list node) : Prop :=
  (∀ s, s ∈ ns → provable s ∧ ∃ rest, leads n key s rest) ∧
  (∀ s rest, leads n key s rest → inner s → hexk rest → s ∈ ns).

Lemma on_path_end c key : match c with Nil | valueNode _ => True | _ => False end → on_path c key [].
Proof.
  intros Hc. split; [by intros s ?%elem_of_nil|]. intros s rest Hl Hi. by destruct c; try done; inversion Hl; subst.
Qed.
Lemma on_path_stop n key : provable n → (∀ s rest, leads n key s rest → s = n) → on_path n key [n].
Proof.
  intros Hn Hs. split; [|intros s rest ->%Hs _ _; by left]. intros s ->%list_elem_of_singleton. split; [done|]. exists key. constructor.
Qed.
Lemma on_path_cons n key c key' ns :
  provable n → leads n key c key' → (∀ s rest, leads n key s rest → s = n ∨ leads c key' s rest) → on_path c key' ns → on_path n key (n :: ns).
Proof.
  intros Hn Hl Hs [H1 H2]. split.
  - intros s [->|Hin]%elem_of_cons; [split; [done|]; exists key; constructor|]. apply H1 in Hin as [Hp [rest Hr]]. split; [done|].
    exists rest. by eapply leads_trans.
  - intros s rest [->|Hc]%Hs Hi Hk; [by left|right; by eapply H2].
Qed.
Lemma leads_short_inv k c f key s rest : leads (shortNode k c f) key s rest → s = shortNode k c f ∨ ∃ key', key = k ++ key' ∧ leads c key' s rest.
Proof. inversion 1; subst; [by left|right; eauto]. Qed.
Lemma leads_full_inv cs f x c key s rest : cs !! Z.to_nat x = Some c → leads (fullNode cs f) (x :: key) s rest → s = fullNode cs f ∨ leads c key s rest.
Proof. intros Hc. inversion 1; simplify_eq; eauto. Qed.

Lemma prove_path_short fuel k c f key : key ≠ [] →
  prove_path db (S fuel) (shortNode k c f) key =
    if bool_decide (k `prefix_of` key) then ns ← prove_path db fuel c (drop (length k) key); Ok (shortNode k c f :: ns) else Ok [shortNode k c f].
Proof. intros Hk. destruct key as [|x key]; [done|]. cbn [prove_path]. rewrite prefix_test. by case_bool_decide. Qed.
Lemma prove_path_end fuel c key : c = Nil ∨ key = [] → prove_path db fuel c key = Ok [].
Proof. intros [->| ->]; [by destruct fuel, key|by destruct fuel]. Qed.
Lemma path_short fuel k c f key : provable (shortNode k c f) → k ≠ [] → hexk key →
  (∀ key', key = k ++ key' → ∃ ns, prove_path db fuel c key' = Ok ns ∧ on_path c key' ns) →
  ∃ ns, prove_path db (S fuel) (shortNode k c f) key = Ok ns ∧ on_path (shortNode k c f) key ns ∧ (inner (shortNode k c f) → ∃ ns', ns = shortNode k c f :: ns').
Proof.
  intros Hp Hk Hkey Hc. rewrite prove_path_short by (by apply hexk_ne). case_bool_decide as Hpre.
  - destruct Hpre as [key' ->]. destruct (Hc key' eq_refl) as (ns & Hns & Hon). rewrite drop_app_length, Hns. exists (shortNode k c f :: ns).
    split_and!; [done| |eauto]. eapply on_path_cons; [done|by apply leads_short, leads_here| |done].
    intros s rest [->|(? & ->%app_inv_head & ?)]%leads_short_inv; auto.
  - exists [shortNode k c f]. split_and!; [done| |eauto]. apply on_path_stop; [done|].
    intros s rest [->|(key' & -> & _)]%leads_short_inv; [done|]. destruct Hpre. by exists key'.
Qed.
Lemma prove_path_ok n : wf n → ∀ fuel key, small n → linked (set_hash None n) → hexk key → (need n key ≤ fuel)%nat →
  ∃ ns, prove_path db fuel n key = Ok ns ∧ on_path n key ns ∧ (inner n → ∃ ns', ns = n :: ns').
Proof.
  induction 1 as [k v f Hk Hv|k c f Hk Hn Hc IH Hbr|cs f Hl Hc IH H16 H2|h n Hh Hld Hwn IH];
    intros fuel key Hsm Hlk Hkey Hf; unfold need in Hf; (destruct fuel as [|fuel]; [lia|]).
  - apply path_short; [split_and!; [by constructor|done..]|by apply hexk_ne|done|]. intros key' ->. apply hexk_prefix_free in Hkey as ->; [|done].
    exists []. split; [by apply prove_path_end; right|by apply on_path_end].
  - apply path_short; [split_and!; [by constructor|done..]|done..|]. intros key' ->. rewrite hexk_app in Hkey by done.
    destruct (IH fuel key') as (ns & Hns & Hon & _); [by apply small_short in Hsm as [? _]|apply (linked_unset keccak256 db); by eapply linked_short_inv|done| |eauto].
    pose proof (need_short c key'). rewrite length_app in Hf. destruct k; [done|]. cbn in Hf. lia.
  - assert (wf (fullNode cs f)) as Hwf by (by constructor). destruct key as [|x key]; [by apply hexk_nil in Hkey|].
    destruct (full_child db cs f x key Hwf Hkey) as (c & Hx & Hcs & Hslot & Hch).
    assert (∃ ns, prove_path db fuel c key = Ok ns ∧ on_path c key ns) as (ns & Hns & Hon).
    { destruct Hslot as [->|[[Hnx Hwc]|[-> (v & _ & ->)]]].
      - exists []. split; [by apply prove_path_end; left|by apply on_path_end].
      - apply hexk_cons in Hkey as [[-> _]|[_ Hkey]]; [unfold nibble in Hnx; lia|].
        destruct (IH (Z.to_nat x) c) with (fuel := fuel) (key := key) as (ns & Hns & Hon & _);
          [unfold nibble in Hnx; lia|done|by apply (wf_not_Nil db)|by eapply small_full|apply (linked_unset keccak256 db); by eapply linked_full_inv|done| |eauto].
        pose proof (need_short c key). cbn in Hf. lia.
      - apply hexk_cons in Hkey as [[_ ->]|[Hnx _]]; [|unfold nibble in Hnx; lia]. exists []. split; [by apply prove_path_end; right|by apply on_path_end]. }
    exists (fullNode cs f :: ns). split_and!; [|eapply on_path_cons; [by split_and!|by eapply leads_full, leads_here| |done]|eauto].
    + cbn [prove_path]. rewrite (go_index_ok (x :: key) 0 x) by done. cbn [mbind res_bind drop]. rewrite Hch, drop_0. cbn [mbind res_bind]. by rewrite Hns.
    + intros s rest. by apply leads_full_inv.
  - inversion Hlk as [| | | |? m Hm Hin Hlm Heq Hlen]; subst. rewrite Hm in Hh. injection Hh as ->.
    destruct (IH fuel key) as (ns & Hns & [Ho1 Ho2] & _); [|by apply linked_unset|done|unfold need; destruct n; try done; cbn in *; lia|].
    { intros k v Hk. apply Hsm. by eapply has_hash. }
    exists ns. split_and!; [|split|done].
    + destruct key as [|x key]; [by apply hexk_nil in Hkey|]. cbn [prove_path]. unfold resolveHash. rewrite Hm. done.
    + intros s [Hp [rest Hr]]%Ho1. split; [done|]. exists rest. by eapply leads_hash.
    + intros s rest Hl Hi Hr. inversion Hl; simplify_eq; [done|by eapply Ho2].
Qed.

(** ** The elements of a proof *)

Lemma proofHash_ok n d : provable n → ∃ d' cl,
  proofHash keccak256 n d = (d', Ok (cl, if len (blob n) <? 32 then cl else hashNode (keccak256 (blob n)))) ∧
  inner cl ∧ ∀ E, encode_node (E:=E) cl = Ok (blob n).
Proof.
  intros (Hwf & Hsm & Hlk & Hi). destruct (collapse_ok keccak256 db Hdigest n Hwf Hsm Hlk Hi) with (d := d) as (d1 & cl & ca & H1 & Hic & Henc & Hl & _).
  { intros c _. by apply hash_ok. }
  exists d1, cl. split_and!; [|done|intros E; by apply encode_node_ok].
  assert (proofHash keccak256 n = '(c, _) ← collapse keccak256 n; h ← nodeToHash keccak256 c false; mret (c, h)) as -> by (by destruct n).
  rewrite (bind_ok_run _ _ _ _ _ H1). rewrite (bind_ok_run _ _ _ _ _ (nodeToHash_ok keccak256 cl (blob n) false d1 Henc Hl)).
  by rewrite andb_true_r.
Qed.
(** What is written for node [i]. *)
Definition proof_put (i : nat) (n : node) : list (bytes * bytes) :=
  if (len (blob n) <? 32) && negb (i =? 0)%nat then [] else [(keccak256 (blob n), blob n)].
Lemma prove_nodes_ok ns : Forall provable ns → ∀ i d, ∃ d' puts, prove_nodes keccak256 i 0 ns d = (d', Ok puts) ∧
  puts = concat (imap (λ j n, proof_put (i + j) n) ns).
Proof.
  induction 1 as [|n ns Hn _ IH]; intros i d; [by exists d, []|]. destruct (proofHash_ok n d Hn) as (d1 & cl & H1 & Hic & Henc).
  destruct (IH (S i) d1) as (d2 & puts & H2 & Hp). exists d2, (proof_put i n ++ puts). split.
  - cbn [prove_nodes]. change (0 >? 0) with false. cbn iota. rewrite (bind_ok_run _ _ _ _ _ H1).
    rewrite (bind_ok_run _ _ d1 d1 (proof_put i n)); [by rewrite (bind_ok_run _ _ _ _ _ H2)|]. unfold proof_put.
    destruct (len (blob n) <? 32); cbn [andb].
    + destruct cl; try done; (destruct (i =? 0)%nat; [|done]); unfold st_lift, mbind, st_bind; rewrite Henc; done.
    + unfold st_lift, mbind, st_bind. rewrite Henc. done.
  - rewrite imap_cons. cbn [concat]. rewrite Nat.add_0_r. f_equal. rewrite Hp. f_equal. apply imap_ext. intros j x _. unfold compose. f_equal. lia.
Qed.

(** ** Verifying against a trie *)

Section trie.
Context (t : Trie) (m : gmap bytes bytes) (key : bytes).
Context (Ht : trie_ok keccak256 db t m) (Hm : m ≠ ∅) (Hkey : bytes_ok key).
Abbreviation hex := (keybytesToHex key).

(** The nodes of the trie on the path of the key. *)
Definition path_node (s : node) : Prop := ∃ rest, leads (root t) hex s rest ∧ inner s.

Lemma VerifyProof_cases (proofDb : bytes → option bytes) fuel :
  (length hex ≤ fuel)%nat → (∀ s buf, path_node s → proofDb (keccak256 (blob s)) = Some buf → buf = blob s) →
  VerifyProof proofDb fuel (merkle_root keccak256 m) key = Ok (m !! key) ∨
  ∃ i s rest, VerifyProof proofDb fuel (merkle_root keccak256 m) key = Err (ProofMissing i (keccak256 (blob s))) ∧
    leads (root t) hex s rest ∧ inner s ∧ hexk rest ∧ (s = root t ∨ 32 ≤ len (blob s)) ∧ proofDb (keccak256 (blob s)) = None.
Proof.
  intros Hf Hdb. destruct (root_node keccak256 db t m hex Ht Hm) as (s & Hwf & Hsm & Hlk & Hi & -> & Hl & Hs).
  destruct (verify_ok keccak256 db Hdigest proofDb fuel s hex 0) as [(r & Hr & Hv)|(j & s' & rest & Hr & Hl' & Hi' & Hk & Hs' & Hn)]; [done|done|done|done|by apply hexk_keybytes|done| |..].
  - intros s' rest buf Hl' Hi' Hb. apply (Hdb s'); [|done]. exists rest. split; [by eapply leads_trans|done].
  - left. unfold VerifyProof. rewrite Hr. f_equal. apply option_eq. intros v.
    by rewrite Hv, <-(leads_has db _ _ _ _ v Hl), (denotes_lookup db (root t) m key v (ok_denotes _ _ _ _ Ht) Hkey).
  - right. exists j, s', rest. split_and!; [done|by eapply leads_trans|done..| |done]. destruct Hs' as [->|?]; auto.
Qed.

Lemma Prove_ok d : ∃ d' puts, Prove keccak256 db t key 0 d = (d', Ok puts) ∧
  (∀ s rest, leads (root t) hex s rest → inner s → hexk rest → s = root t ∨ 32 ≤ len (blob s) → (keccak256 (blob s), blob s) ∈ puts) ∧
  (∀ h b, (h, b) ∈ puts → ∃ s, path_node s ∧ h = keccak256 (blob s) ∧ b = blob s).
Proof.
  pose proof (trie_ok_small _ _ _ _ Ht) as Hsm. assert (wf (root t)) as Hwf.
  { destruct (root_node keccak256 db t m hex Ht Hm) as (s & _ & _ & _ & Hi & _ & Hl & _). destruct Ht as [[[Hn|Hwf] _] _ _]; [|done].
    rewrite Hn in Hl. by inversion Hl; subst. }
  destruct (prove_path_ok (root t) Hwf (walk_fuel hex) hex Hsm (proj1 (ok_linked _ _ _ _ Ht))) as (ns & Hns & [Ho1 Ho2] & Hh); [by apply hexk_keybytes|apply walk_fuel_need|].
  destruct (prove_nodes_ok ns) with (i := 0%nat) (d := d) as (d' & puts & Hp & ->); [apply list.Forall_forall; by intros s [Hs _]%Ho1|].
  exists d', (concat (imap (λ j n, proof_put (0 + j) n) ns)). split_and!.
  - unfold Prove. rewrite (bind_ok_run _ _ d d ns) by (unfold st_lift; by rewrite Hns). done.
  - intros s rest Hl Hi Hk Hs. apply list_elem_of_In, in_concat. destruct Hs as [->|H32].
    + destruct (Hh Hi) as [ns' ->]. rewrite imap_cons. eexists. split; [by left|]. unfold proof_put. cbn [Nat.eqb Nat.add negb]. rewrite andb_false_r. by left.
    + destruct (list_elem_of_lookup_1 ns s) as [j Hj]; [by eapply Ho2|]. exists (proof_put (0 + j) s). split.
      * apply list_elem_of_In, (list_elem_of_lookup_2 _ j). by rewrite list_lookup_imap, Hj.
      * unfold proof_put. rewrite (proj2 (Z.ltb_ge _ _)) by done. by left.
  - intros h b Hin%list_elem_of_In. apply in_concat in Hin as (l & Hl%list_elem_of_In & Hin%list_elem_of_In).
    apply list_elem_of_lookup_1 in Hl as [j Hj]. rewrite list_lookup_imap in Hj. destruct (ns !! j) as [s|] eqn:Hs; [|done]. injection Hj as <-.
    apply list_elem_of_lookup_2, Ho1 in Hs as [(_ & _ & _ & Hi) [rest Hl]]. exists s. split; [by exists rest|].
    unfold proof_put in Hin. destruct (_ && _); [by apply elem_of_nil in Hin|]. by apply list_elem_of_singleton in Hin as [= -> ->].
Qed.
End trie.
End prove.

(** C11: A Merkle proof cannot lie.  Take any database whose entries are stored under
    their hashes, however it was made, in which no entry collides with a node of the trie
    on the path of the key.  Verifying a key against the root that the Yellow Paper defines
    for the contents returns what the contents hold for the key, its value or its absence,
    or reports a node that the database lacks: never another value, an undecodable node, a
    panic or a loop without end. *)
Theorem VerifyProof_sound (keccak256 : bytes → bytes) (db : bytes → option node) (t : Trie) (m : gmap bytes bytes)
    (proofDb : bytes → option bytes) (key : bytes) (fuel : nat) :
  digest keccak256 → trie_ok keccak256 db t m → m ≠ ∅ → bytes_ok key → (length (keybytesToHex key) ≤ fuel)%nat →
  (∀ h buf, proofDb h = Some buf → keccak256 buf = h) →
  (∀ h buf s, proofDb h = Some buf → path_node db t key s → keccak256 buf = keccak256 (blob keccak256 s) → buf = blob keccak256 s) →
  VerifyProof proofDb fuel (merkle_root keccak256 m) key = Ok (m !! key) ∨
  ∃ i h, VerifyProof proofDb fuel (merkle_root keccak256 m) key = Err (ProofMissing i h) ∧ proofDb h = None.
Proof.
  intros Hd Ht Hm Hk Hf Hc Hn. destruct (VerifyProof_cases keccak256 db Hd t m key Ht Hm Hk proofDb fuel Hf) as [H|(i & s & _ & H & _ & _ & _ & _ & Hs)]; eauto.
Qed.

(** C12: Proving and verifying.  For every key, present or absent, [Prove] succeeds on a
    non-empty trie, whichever of its nodes are loaded or have cached hashes; and
    verifying the key against the root of the contents with just the written entries
    returns what the contents hold for it, provided no two nodes on the path of the key
    have the same hash. *)
Theorem Prove_VerifyProof (keccak256 : bytes → bytes) (db : bytes → option node) (t : Trie) (m : gmap bytes bytes)
    (d : option HashCache) (key : bytes) :
  digest keccak256 → trie_ok keccak256 db t m → m ≠ ∅ → bytes_ok key →
  (∀ s s', path_node db t key s → path_node db t key s' → keccak256 (blob keccak256 s) = keccak256 (blob keccak256 s') → blob keccak256 s = blob keccak256 s') →
  ∃ d' puts, Prove keccak256 db t key 0 d = (d', Ok puts) ∧
    VerifyProof (λ h, put_all puts !! h) (length (keybytesToHex key)) (merkle_root keccak256 m) key = Ok (m !! key).
Proof.
  intros Hd Ht Hm Hk Hc. destruct (Prove_ok keccak256 db Hd t m key Ht Hm Hk d) as (d' & puts & Hp & Hput & Hin). exists d', puts. split; [done|].
  destruct (VerifyProof_cases keccak256 db Hd t m key Ht Hm Hk (λ h, put_all puts !! h) (length (keybytesToHex key))) as [H|(i & s & rest & _ & Hl & Hi & Hr & Hs & Hnone)]; [done| |done|].
  - intros s buf Hs (s' & Hs' & Heq & ->)%put_all_Some%Hin. symmetry. by apply Hc.
  - destruct (put_all_elem puts _ _ (Hput s rest Hl Hi Hr Hs)) as [b Hb]. by rewrite Hb in Hnone.
Qed.

(** ** A trie of two keys *)

Definition toy_proof_ops : list trie_op := [OpUpdate [0x12; 0x34] (replicate 40 1); OpUpdate [0xff] [3]].
Definition toy_proof_trie : Trie := (trie_run toy_digest no_db toy_proof_ops (mk_Trie Nil 0, None)).1.1.
Definition toy_proof_map : gmap bytes bytes := (spec_run toy_digest toy_proof_ops ∅).1.
Lemma toy_proof_ok : trie_ok toy_digest no_db toy_proof_trie toy_proof_map.
Proof.
  destruct (trie_run_ok toy_digest no_db toy_proof_ops (mk_Trie Nil 0) None ∅) as (t & d & Hr & Ht); [exact toy_digest_ok|apply trie_ok_empty|repeat constructor; done|].
  unfold toy_proof_trie. rewrite Hr. done.
Qed.
(** The root and a leaf are on the path of the first key. *)
Lemma toy_path s : path_node no_db toy_proof_trie [0x12; 0x34] s →
  s = root toy_proof_trie ∨ s = shortNode [2; 3; 4; 16] (valueNode (replicate 40 1)) newFlag.
Proof.
  intros (rest & Hl & Hi). assert (∃ cs f, root toy_proof_trie = fullNode cs f ∧ cs !! 1%nat = Some (shortNode [2; 3; 4; 16] (valueNode (replicate 40 1)) newFlag)) as (cs & f & E & Hc).
  { vm_compute. eauto. }
  rewrite E in *. change (keybytesToHex [0x12; 0x34]) with [1; 2; 3; 4; 16] in Hl.
  apply (leads_full_inv _ _ _ 1 _ _ _ _ Hc) in Hl as [->|Hl]; [by left|]. apply leads_short_inv in Hl as [->|(key & _ & Hl)]; [by right|]. by inversion Hl; subst.
Qed.

Lemma VerifyProof_sound_witness :
  let proofDb h := if bool_decide (h = root_hash toy_digest (root toy_proof_trie)) then Some (blob toy_digest (root toy_proof_trie)) else None in
  VerifyProof proofDb 5 (merkle_root toy_digest toy_proof_map) [0x12; 0x34] = Ok (toy_proof_map !! [0x12; 0x34]) ∨
  ∃ i h, VerifyProof proofDb 5 (merkle_root toy_digest toy_proof_map) [0x12; 0x34] = Err (ProofMissing i h) ∧ proofDb h = None.
Proof.
  intros proofDb. apply (VerifyProof_sound toy_digest no_db toy_proof_trie); [exact toy_digest_ok|exact toy_proof_ok|done|repeat constructor; done|done|..].
  - intros h buf. unfold proofDb. case_bool_decide as Hh; [|done]. intros [= <-]. by rewrite Hh.
  - intros h buf s Hb [->| ->]%toy_path Heq; unfold proofDb in Hb; case_bool_decide as Hh; try done; injection Hb as <-; [done|].
    vm_compute in Heq. discriminate.
Defined.
Lemma Prove_VerifyProof_witness : ∃ d' puts, Prove toy_digest no_db toy_proof_trie [0x12; 0x34] 0 None = (d', Ok puts) ∧
  VerifyProof (λ h, put_all puts !! h) (length (keybytesToHex [0x12; 0x34])) (merkle_root toy_digest toy_proof_map) [0x12; 0x34] = Ok (toy_proof_map !! [0x12; 0x34]).
Proof.
  apply Prove_VerifyProof; [exact toy_digest_ok|exact toy_proof_ok|done|repeat constructor; done|].
  intros s s' [->| ->]%toy_path [->| ->]%toy_path Heq; [done| | |done]; vm_compute in Heq; discriminate.
Defined.
(** Both outcomes of verifying occur. *)
Example verify_outcomes :
  let key := [0x12; 0x34] in
  let puts := match Prove toy_digest no_db toy_proof_trie key 0 None with (_, Ok puts) => puts | _ => [] end in
  let verify puts := VerifyProof (λ h, put_all puts !! h) 5 (merkle_root toy_digest toy_proof_map) in
  length puts = 2%nat ∧ verify puts key = Ok (Some (replicate 40 1)) ∧ verify puts [0x12; 0x35] = Ok None ∧
  ∃ h, verify (take 1 puts) key = Err (ProofMissing 1 h).
Proof. vm_compute. eauto. Qed.
