(* ===== verification/EvmAnalysis.v ===== *)
(** * Jump destination analysis (src/geth/core/vm/analysis.go)

    The bit vector that marks the immediate data of PUSH instructions, built
    sixteen, eight or fewer bits at a time.  It is shown to agree with a scan of
    the code one byte at a time, and never to write outside its buffer. *)
From S2P Require Import Prelude.

(** ** The opcodes the analysis knows *)

Definition PUSH1 : Z := 0x60.
Definition PUSH32 : Z := 0x7f.
Definition JUMPDEST : Z := 0x5b.

(** ** Bit vectors *)

Abbreviation bitvec := (list Z).
Abbreviation A := (res unit).

Definition set2BitsMask : Z := 0xC000.
Definition set3BitsMask : Z := 0xE000.
Definition set4BitsMask : Z := 0xF000.
Definition set5BitsMask : Z := 0xF800.
Definition set6BitsMask : Z := 0xFC00.
Definition set7BitsMask : Z := 0xFE00.

Definition lookup_bit : list Z := [0x80; 0x40; 0x20; 0x10; 0x8; 0x4; 0x2; 0x1].

(** [bits[i] |= b]. *)
Definition or_byte (bits : bitvec) (i b : Z) : A bitvec :=
  x ← go_index bits i; go_set bits i (Z.lor x b).

Definition set1 (bits : bitvec) (pos : Z) : A bitvec :=
  b ← go_index lookup_bit (pos mod 8); or_byte bits (pos / 8) b.

Definition setN (flag : Z) (bits : bitvec) (pos : Z) : A bitvec :=
  let a := Z.shiftr flag (pos mod 8) in
  bits ← or_byte bits (pos / 8) (u8 (Z.shiftr a 8));
  let b := u8 a in
  if negb (b =? 0) then go_set bits (pos / 8 + 1) b else Ok bits.

(** [^a] on a byte is [lxor] with 255. *)
Definition set8 (bits : bitvec) (pos : Z) : A bitvec :=
  let a := u8 (Z.shiftr 0xFF (pos mod 8)) in
  bits ← or_byte bits (pos / 8) a;
  go_set bits (pos / 8 + 1) (Z.lxor a 0xFF).

Definition set16 (bits : bitvec) (pos : Z) : A bitvec :=
  let a := u8 (Z.shiftr 0xFF (pos mod 8)) in
  bits ← or_byte bits (pos / 8) a;
  bits ← go_set bits (pos / 8 + 1) 0xFF;
  go_set bits (pos / 8 + 2) (Z.lxor a 0xFF).

Definition codeSegment (bits : bitvec) (pos : Z) : A bool :=
  x ← match go_index bits (pos / 8) with Panic _ => Panic (index_of "bitvec") | r => r end;
  Ok (Z.land x (Z.shiftr 0x80 (pos mod 8)) =? 0).

(** ** The analysis *)

(** [for ; numbits >= w; numbits -= w { set(pc); pc += w }]. *)
Fixpoint mark_loop (fuel : nat) (w : Z) (set : bitvec → Z → A bitvec) (numbits pc : Z) (bits : bitvec)
  : A (Z * Z * bitvec) :=
  if w <=? numbits then
    match fuel with
    | O => OutOfFuel
    | S fuel =>
        bits ← set bits pc;
        mark_loop fuel w set (u8 (numbits - w)) (pc + w) bits
    end
  else Ok (numbits, pc, bits).

(** The switch for the last, at most seven, positions. *)
Definition mark_small (numbits pc : Z) (bits : bitvec) : A (Z * bitvec) :=
  if numbits =? 1 then bits ← set1 bits pc; Ok (pc + 1, bits)
  else if numbits =? 2 then bits ← setN set2BitsMask bits pc; Ok (pc + 2, bits)
  else if numbits =? 3 then bits ← setN set3BitsMask bits pc; Ok (pc + 3, bits)
  else if numbits =? 4 then bits ← setN set4BitsMask bits pc; Ok (pc + 4, bits)
  else if numbits =? 5 then bits ← setN set5BitsMask bits pc; Ok (pc + 5, bits)
  else if numbits =? 6 then bits ← setN set6BitsMask bits pc; Ok (pc + 6, bits)
  else if numbits =? 7 then bits ← setN set7BitsMask bits pc; Ok (pc + 7, bits)
  else Ok (pc, bits).

(** Marks [numbits] positions from [pc]; the result is the position after them. *)
Definition mark_push (numbits pc : Z) (bits : bitvec) : A (Z * bitvec) :=
  '(numbits, pc, bits) ←
    (if 8 <=? numbits then
       '(numbits, pc, bits) ← mark_loop 2 16 set16 numbits pc bits;
       mark_loop 1 8 set8 numbits pc bits
     else Ok (numbits, pc, bits));
  mark_small numbits pc bits.

Fixpoint codeBitmapInternal (fuel : nat) (code : bytes) (pc : Z) (bits : bitvec) : A bitvec :=
  if pc <? len code then
    match fuel with
    | O => OutOfFuel
    | S fuel =>
        op ← go_index code pc;
        let pc := pc + 1 in
        if (op <? PUSH1) || (PUSH32 <? op) then codeBitmapInternal fuel code pc bits
        else
          '(pc, bits) ← mark_push (u8 (op - PUSH1 + 1)) pc bits;
          codeBitmapInternal fuel code pc bits
    end
  else Ok bits.

Definition codeBitmap (code : bytes) : A bitvec :=
  codeBitmapInternal (length code) code 0 (replicate (Nat.div (length code) 8 + 1 + 4) 0).

Example bitmap_push32 : codeBitmap [0x7f; 1; 0x5b] = Ok [0x7f; 0xff; 0xff; 0xff; 0x80].
Proof. reflexivity. Qed.
Example bitmap_push3 : codeBitmap [0x5b; 0x62; 0x5b; 0x5b; 0x5b; 0x5b; 0x60] = Ok [0x39; 0; 0; 0; 0].
Proof. reflexivity. Qed.

(** ** Reference: a scan of the code *)

(** The number of immediate bytes of an opcode. *)
Definition push_size (op : Z) : nat :=
  if (op <? PUSH1) || (PUSH32 <? op) then 0 else Z.to_nat (op - PUSH1 + 1).

(** Whether position [j] of [code] is immediate data, when the first [skip]
    bytes of [code] are. *)
Fixpoint push_data (skip : nat) (code : bytes) (j : nat) : bool :=
  match code with
  | [] => false
  | b :: code =>
      match j with
      | O => (0 <? skip)%nat
      | S j => push_data (match skip with O => push_size b | S skip => skip end) code j
      end
  end.

(** ** Bits *)

Definition bit (bits : bitvec) (i : Z) : bool :=
  Z.testbit (nth (Z.to_nat (i / 8)) bits 0) (7 - i mod 8).

Lemma mod8 i : i mod 8 = 0 ∨ i mod 8 = 1 ∨ i mod 8 = 2 ∨ i mod 8 = 3 ∨
  i mod 8 = 4 ∨ i mod 8 = 5 ∨ i mod 8 = 6 ∨ i mod 8 = 7.
Proof. pose proof (Z.mod_pos_bound i 8). lia. Qed.

(** Case analysis on [i mod 8]. *)
Ltac mod8_cases i :=
  let H := fresh "Hm" in destruct (mod8 i) as [H|[H|[H|[H|[H|[H|[H|H]]]]]]]; rewrite ?H in *.

(** [set bits pos] marks [n] positions from [pos]. *)
Definition marks (n pos : Z) (bits bits' : bitvec) : Prop :=
  length bits' = length bits ∧
  ∀ i, 0 ≤ i → bit bits' i = bit bits i || ((pos <=? i) && (i <? pos + n)).

Definition clean (pos : Z) (bits : bitvec) : Prop := ∀ i, pos ≤ i → bit bits i = false.

Lemma marks_0 pos bits : marks 0 pos bits bits.
Proof.
  split; [done|]. intros i Hi. rewrite Z.add_0_r.
  destruct (Z.leb_spec pos i), (Z.ltb_spec i pos); try lia; by rewrite orb_false_r.
Qed.

Lemma marks_clean n pos bits bits' :
  0 ≤ pos → 0 ≤ n → clean pos bits → marks n pos bits bits' → clean (pos + n) bits'.
Proof.
  intros Hp Hn Hc [_ Hm] i Hi. rewrite Hm by lia. rewrite Hc by lia.
  rewrite (proj2 (Z.ltb_ge i (pos + n))) by lia. by rewrite andb_false_r.
Qed.

Lemma marks_trans n m pos bits bits' bits'' :
  0 ≤ n → 0 ≤ m → marks n pos bits bits' → marks m (pos + n) bits' bits'' → marks (n + m) pos bits bits''.
Proof.
  intros Hn Hm [Hl H] [Hl' H']. split; [congruence|]. intros i Hi. rewrite H', H by done.
  rewrite <-orb_assoc. f_equal.
  destruct (Z.leb_spec pos i), (Z.leb_spec (pos + n) i), (Z.ltb_spec i (pos + n)),
    (Z.ltb_spec i (pos + n + m)), (Z.ltb_spec i (pos + (n + m))); try done; lia.
Qed.

(** The bytes of a bit vector after a write. *)
Lemma go_set_nth (bits : bitvec) q x :
  0 ≤ q < len bits →
  ∃ bits', go_set (E:=unit) bits q x = Ok bits' ∧ length bits' = length bits ∧
    ∀ k, 0 ≤ k → nth (Z.to_nat k) bits' 0 = if k =? q then x else nth (Z.to_nat k) bits 0.
Proof.
  intros Hq. unfold go_set. rewrite decide_True by done. eexists. split; [done|].
  split; [apply length_insert|]. intros k Hk. rewrite !nth_lookup. unfold len in Hq.
  destruct (Z.eqb_spec k q) as [->|].
  - by rewrite list_lookup_insert_eq by lia.
  - by rewrite list_lookup_insert_ne by lia.
Qed.

Lemma or_byte_nth (bits : bitvec) q b :
  0 ≤ q < len bits →
  ∃ bits', or_byte bits q b = Ok bits' ∧ length bits' = length bits ∧
    ∀ k, 0 ≤ k → nth (Z.to_nat k) bits' 0 =
      if k =? q then Z.lor (nth (Z.to_nat q) bits 0) b else nth (Z.to_nat k) bits 0.
Proof.
  intros Hq. unfold or_byte. destruct (lookup_lt_is_Some_2 bits (Z.to_nat q)) as [x Hx]; [unfold len in Hq; lia|].
  rewrite (go_index_ok bits q x) by (lia || done). cbn [mbind res_bind].
  rewrite (nth_lookup_Some bits _ 0 x) by done. by apply go_set_nth.
Qed.

Lemma bit_split i : 0 ≤ i → ∃ q r, i = 8 * q + r ∧ 0 ≤ r < 8 ∧ 0 ≤ q ∧ i / 8 = q ∧ i mod 8 = r.
Proof.
  intros Hi. exists (i / 8), (i mod 8). pose proof (Z.mod_pos_bound i 8). pose proof (Z.div_mod i 8).
  pose proof (Z.div_pos i 8). split_and!; lia.
Qed.

(** The two bytes that [n <= 8] marks starting at offset [r] of a byte touch. *)
Definition mark_bytes (n r hi lo : Z) : Prop :=
  ∀ j, 0 ≤ j < 8 →
    Z.testbit hi (7 - j) = (r <=? j) && (j <? r + n) ∧ Z.testbit lo (7 - j) = (j + 8 <? r + n).

Lemma marks_two n pos bits hi lo bits1 bits' :
  0 ≤ pos → 0 ≤ n ≤ 8 → clean pos bits → mark_bytes n (pos mod 8) hi lo →
  (∀ k, 0 ≤ k → nth (Z.to_nat k) bits1 0 =
     if k =? pos / 8 then Z.lor (nth (Z.to_nat (pos / 8)) bits 0) hi else nth (Z.to_nat k) bits 0) →
  (∀ k, 0 ≤ k → nth (Z.to_nat k) bits' 0 = if k =? pos / 8 + 1 then lo else nth (Z.to_nat k) bits1 0) →
  length bits' = length bits → marks n pos bits bits'.
Proof.
  intros Hp Hn Hc Hb H1 H2 Hl. split; [done|]. intros i Hi. unfold bit.
  destruct (bit_split pos Hp) as (q & r & -> & Hr & Hq & Hdq & Hmr). rewrite Hdq, Hmr in *.
  destruct (bit_split i Hi) as (q' & r' & -> & Hr' & Hq' & -> & Hmr'). rewrite Hmr'.
  destruct (Hb r' Hr') as [Hhi Hlo]. rewrite H2, H1 by done.
  destruct (Z.eqb_spec q' (q + 1)) as [->|Hne1].
  - rewrite Hlo. specialize (Hc (8 * (q + 1) + r') ltac:(lia)). unfold bit in Hc.
    destruct (bit_split (8 * (q + 1) + r') ltac:(lia)) as (q2 & r2 & Heq & ? & ? & Hd2 & Hm2).
    rewrite Hd2, Hm2 in Hc. assert (q2 = q + 1 ∧ r2 = r') as [-> ->] by lia. rewrite Hc.
    destruct (Z.leb_spec (8 * q + r) (8 * (q + 1) + r')), (Z.ltb_spec (r' + 8) (r + n)),
      (Z.ltb_spec (8 * (q + 1) + r') (8 * q + r + n)); try done; lia.
  - destruct (Z.eqb_spec q' q) as [->|Hne].
    + rewrite Z.lor_spec, Hhi. f_equal.
      destruct (Z.leb_spec r r'), (Z.ltb_spec r' (r + n)), (Z.leb_spec (8 * q + r) (8 * q + r')),
        (Z.ltb_spec (8 * q + r') (8 * q + r + n)); try done; lia.
    + symmetry. rewrite (proj2 (andb_false_iff _ _)); [apply orb_false_r|].
      destruct (Z.leb_spec (8 * q + r) (8 * q' + r')); [|by left]. right. apply Z.ltb_ge. lia.
Qed.

Lemma below8 j : 0 ≤ j < 8 → j = 0 ∨ j = 1 ∨ j = 2 ∨ j = 3 ∨ j = 4 ∨ j = 5 ∨ j = 6 ∨ j = 7.
Proof. lia. Qed.

(** Close a claim about two offsets below eight by evaluation. *)
Ltac eval_offsets r Hr :=
  let j := fresh "j" in let Hj := fresh "Hj" in
  intros j Hj; apply below8 in Hr; apply below8 in Hj;
  destruct Hr as [->|[->|[->|[->|[->|[->|[->| ->]]]]]]];
  destruct Hj as [->|[->|[->|[->|[->|[->|[->| ->]]]]]]]; split; reflexivity.

Lemma mark_bytes_set1 r :
  0 ≤ r < 8 → mark_bytes 1 r (nth (Z.to_nat r) lookup_bit 0) 0.
Proof. intros Hr. eval_offsets r Hr. Qed.
Lemma mark_bytes_set8 r :
  0 ≤ r < 8 → mark_bytes 8 r (u8 (Z.shiftr 0xFF r)) (Z.lxor (u8 (Z.shiftr 0xFF r)) 0xFF).
Proof. intros Hr. eval_offsets r Hr. Qed.

(** A mask for [n] bits. *)
Definition mask_ok (n flag : Z) : Prop :=
  ∀ r, 0 ≤ r < 8 → mark_bytes n r (u8 (Z.shiftr (Z.shiftr flag r) 8)) (u8 (Z.shiftr flag r)).

Lemma masks_ok :
  mask_ok 2 set2BitsMask ∧ mask_ok 3 set3BitsMask ∧ mask_ok 4 set4BitsMask ∧
  mask_ok 5 set5BitsMask ∧ mask_ok 6 set6BitsMask ∧ mask_ok 7 set7BitsMask.
Proof. split_and!; intros r Hr; eval_offsets r Hr. Qed.

(** A byte that [setN] and [set1] leave alone is already zero. *)
Lemma clean_byte pos bits :
  0 ≤ pos → clean pos bits → bytes_ok bits → nth (Z.to_nat (pos / 8 + 1)) bits 0 = 0.
Proof.
  intros Hp Hc Hok. set (x := nth _ bits 0).
  assert (0 ≤ x < 2 ^ 8) as Hx.
  { unfold x. rewrite nth_lookup. destruct (bits !! _) as [y|] eqn:E; cbn; [|lia]. by eapply bytes_ok_lookup in E. }
  apply Z.bits_inj_0. intros k. destruct (Z.ltb_spec k 0); [by apply Z.testbit_neg_r|].
  destruct (Z.ltb_spec k 8).
  - pose proof (Z.div_mod pos 8). pose proof (Z.mod_pos_bound pos 8).
    specialize (Hc (8 * (pos / 8 + 1) + (7 - k)) ltac:(lia)). unfold bit in Hc.
    destruct (bit_split (8 * (pos / 8 + 1) + (7 - k)) ltac:(lia)) as (q & r & Heq & ? & ? & Hd & Hm).
    rewrite Hd, Hm in Hc. assert (q = pos / 8 + 1 ∧ r = 7 - k) as [-> ->] by lia.
    by replace (7 - (7 - k)) with k in Hc by lia.
  - destruct (Z.eq_dec x 0) as [->|]; [by rewrite Z.bits_0|]. apply Z.bits_above_log2; [lia|].
    apply Z.log2_lt_pow2; [lia|]. apply Z.lt_le_trans with (2 ^ 8); [lia|]. apply Z.pow_le_mono_r; lia.
Qed.

Definition marker (n : Z) (set : bitvec → Z → A bitvec) : Prop := ∀ pos bits,
  0 ≤ pos → 8 * (pos / 8) + n + 8 ≤ 8 * len bits → clean pos bits → bytes_ok bits →
  ∃ bits', set bits pos = Ok bits' ∧ marks n pos bits bits' ∧ bytes_ok bits'.

Lemma bytes_ok_nth bits : bytes_ok bits ↔ ∀ k, 0 ≤ k → is_u8 (nth (Z.to_nat k) bits 0).
Proof.
  split.
  - intros H k _. rewrite nth_lookup. destruct (bits !! _) eqn:E; cbn; [by eapply bytes_ok_lookup in E|done].
  - intros H. apply Forall_lookup. intros i x Hx. specialize (H (Z.of_nat i)).
    rewrite Nat2Z.id, (nth_lookup_Some bits i 0 x) in H by done. apply H. lia.
Qed.

Lemma lor_u8 a b : is_u8 a → is_u8 b → is_u8 (Z.lor a b).
Proof.
  unfold is_u8. intros Ha Hb. split; [apply Z.lor_nonneg; lia|].
  destruct (Z.eq_dec a 0) as [->|]; [rewrite Z.lor_0_l; lia|]. destruct (Z.eq_dec b 0) as [->|]; [rewrite Z.lor_0_r; lia|].
  assert (Z.lor a b ≠ 0) by (rewrite Z.lor_eq_0_iff; lia).
  assert (0 ≤ Z.lor a b) by (apply Z.lor_nonneg; lia).
  apply Z.log2_lt_pow2; [lia|]. rewrite Z.log2_lor by lia.
  apply Z.max_lub_lt; apply Z.log2_lt_pow2; lia.
Qed.

(** Two writes, the second unconditional, are a marker. *)
Lemma marker_two n pos bits hi lo :
  1 ≤ n ≤ 8 → 0 ≤ pos → 8 * (pos / 8) + n + 8 ≤ 8 * len bits → clean pos bits → bytes_ok bits →
  is_u8 hi → is_u8 lo → mark_bytes n (pos mod 8) hi lo →
  ∃ bits1, or_byte bits (pos / 8) hi = Ok bits1 ∧
    (lo = 0 → marks n pos bits bits1 ∧ bytes_ok bits1) ∧
    ∃ bits', go_set (E:=unit) bits1 (pos / 8 + 1) lo = Ok bits' ∧ marks n pos bits bits' ∧ bytes_ok bits'.
Proof.
  intros Hn Hp Hl Hc Hok Hhi Hlo Hmb. pose proof (Z.div_mod pos 8). pose proof (Z.mod_pos_bound pos 8).
  destruct (or_byte_nth bits (pos / 8) hi) as (bits1 & Hor & Hl1 & H1); [split; [apply Z.div_pos; lia|lia]|].
  assert (bytes_ok bits1) as Hok1.
  { rewrite bytes_ok_nth in *. intros k Hk. rewrite H1 by done. destruct (k =? pos / 8); [|by apply Hok].
    apply lor_u8; [apply Hok; apply Z.div_pos; lia|done]. }
  exists bits1. split; [done|]. split.
  - intros ->. split; [|done]. eapply marks_two; try done || lia. intros k Hk.
    destruct (Z.eqb_spec k (pos / 8 + 1)) as [->|]; [|done]. rewrite H1 by done.
    rewrite (proj2 (Z.eqb_neq _ _)) by lia. by apply clean_byte.
  - destruct (go_set_nth bits1 (pos / 8 + 1) lo) as (bits' & Hs & Hl' & H2).
    { unfold len in *. rewrite Hl1. pose proof (Z.div_pos pos 8). lia. }
    exists bits'. split; [done|]. split; [eapply marks_two; try done || lia; congruence|].
    rewrite bytes_ok_nth in *. intros k Hk. rewrite H2 by done. by destruct (k =? _); [|apply Hok1].
Qed.

Lemma mod8_bound pos : 0 ≤ pos mod 8 < 8.
Proof. apply Z.mod_pos_bound. lia. Qed.

Lemma marker_set1 : marker 1 set1.
Proof.
  intros pos bits Hp Hl Hc Hok. pose proof (mod8_bound pos) as Hm. pose proof (mark_bytes_set1 _ Hm) as Hmb.
  unfold set1. destruct (lookup_lt_is_Some_2 lookup_bit (Z.to_nat (pos mod 8))) as [b Hb]; [cbn; lia|].
  rewrite (go_index_ok _ _ b) by (done || lia). cbn [mbind res_bind].
  rewrite (nth_lookup_Some _ _ 0 b) in Hmb by done.
  assert (is_u8 b) as Hb8 by (eapply (bytes_ok_lookup lookup_bit); [repeat constructor; done|done]).
  destruct (marker_two 1 pos bits b 0) as (bits1 & -> & H1 & _); try done.
  exists bits1. split; [done|auto].
Qed.

Lemma marker_set8 : marker 8 set8.
Proof.
  intros pos bits Hp Hl Hc Hok. pose proof (mod8_bound pos) as Hm. pose proof (mark_bytes_set8 _ Hm) as Hmb.
  unfold set8.
  assert (is_u8 (Z.lxor (u8 (Z.shiftr 255 (pos mod 8))) 255)).
  { clear -Hm. apply below8 in Hm. destruct Hm as [->|[->|[->|[->|[->|[->|[->| ->]]]]]]]; done. }
  destruct (marker_two 8 pos bits (u8 (Z.shiftr 0xFF (pos mod 8))) (Z.lxor (u8 (Z.shiftr 0xFF (pos mod 8))) 0xFF))
    as (bits1 & -> & _ & H2); try done || lia || apply u8_range.
Qed.

Lemma marker_setN n flag : 2 ≤ n ≤ 7 → mask_ok n flag → marker n (setN flag).
Proof.
  intros Hn Hmask pos bits Hp Hl Hc Hok. pose proof (mod8_bound pos) as Hm. pose proof (Hmask _ Hm) as Hmb.
  unfold setN. destruct (marker_two n pos bits (u8 (Z.shiftr (Z.shiftr flag (pos mod 8)) 8)) (u8 (Z.shiftr flag (pos mod 8))))
    as (bits1 & -> & H1 & H2); try done || lia || apply u8_range.
  cbn [mbind res_bind]. destruct (Z.eqb_spec (u8 (Z.shiftr flag (pos mod 8))) 0) as [H0|H0]; cbn [negb].
  - exists bits1. split; [done|auto].
  - destruct H2 as (bits' & -> & ?). eauto.
Qed.

Lemma div8_add pos : (pos + 8) / 8 = pos / 8 + 1.
Proof. rewrite <-Z.div_add by lia. f_equal. Qed.

(** Sixteen marks are twice eight marks. *)
Lemma set16_set8 bits pos :
  0 ≤ pos → 8 * (pos / 8) + 24 ≤ 8 * len bits → set16 bits pos = (set8 bits pos ≫= λ bits, set8 bits (pos + 8)).
Proof.
  intros Hp Hl. pose proof (Z.div_mod pos 8). pose proof (mod8_bound pos) as Hm. pose proof (Z.div_pos pos 8).
  unfold set16, set8. pose proof (div8_add pos) as Hd8.
  assert ((pos + 8) mod 8 = pos mod 8) as Hm8 by (rewrite <-(Z.mod_add pos 1 8) by lia; f_equal; lia).
  set (a := u8 _). set (q := pos / 8) in *.
  assert (0 ≤ q ∧ q + 2 < len bits) as [Hq Hq2] by lia.
  unfold or_byte. destruct (lookup_lt_is_Some_2 bits (Z.to_nat q)) as [x Hx]; [unfold len in Hq2; lia|].
  rewrite (go_index_ok bits q x) by (lia || done). cbn [mbind res_bind].
  rewrite (go_set_ok bits) by lia. cbn [mbind res_bind].
  rewrite !(go_set_ok _ (q + 1)) by (rewrite !len_insert; lia). cbn [mbind res_bind].
  rewrite Hd8, Hm8. fold a.
  erewrite (go_index_ok _ (q + 1)); [|lia|apply list_lookup_insert_eq; rewrite length_insert; unfold len in Hq2; lia].
  cbn [mbind res_bind]. rewrite (go_set_ok _ (q + 1)) by (rewrite !len_insert; lia). cbn [mbind res_bind].
  replace (q + 1 + 1) with (q + 2) by lia.
  rewrite !(go_set_ok _ (q + 2)) by (rewrite !len_insert; lia).
  do 2 f_equal. rewrite list_insert_insert_eq. f_equal.
  unfold a. clear -Hm. apply below8 in Hm. destruct Hm as [->|[->|[->|[->|[->|[->|[->| ->]]]]]]]; done.
Qed.

Lemma marker_set16 : marker 16 set16.
Proof.
  intros pos bits Hp Hl Hc Hok. rewrite set16_set8 by lia.
  destruct (marker_set8 pos bits) as (bits1 & -> & H1 & Hok1); try done; [lia|]. cbn [mbind res_bind].
  pose proof H1 as [Hlen _].
  destruct (marker_set8 (pos + 8) bits1) as (bits2 & -> & H2 & Hok2); try done; [lia|..].
  { rewrite div8_add. unfold len in *. lia. } { by eapply marks_clean. }
  exists bits2. split; [done|]. split; [|done]. by apply (marks_trans 8 8 pos bits bits1).
Qed.

Lemma div16_add pos : (pos + 16) / 8 = pos / 8 + 2.
Proof. rewrite <-Z.div_add by lia. f_equal. Qed.

(** [n] marks where [n < 8]. *)
Lemma mark_small_ok n : 0 ≤ n < 8 → ∀ pos bits,
  0 ≤ pos → 8 * (pos / 8) + n + 8 ≤ 8 * len bits → clean pos bits → bytes_ok bits →
  ∃ bits', mark_small n pos bits = Ok (pos + n, bits') ∧ marks n pos bits bits' ∧ bytes_ok bits'.
Proof.
  intros Hn pos bits Hp Hl Hc Hok. unfold mark_small.
  destruct masks_ok as (M2 & M3 & M4 & M5 & M6 & M7).
  pose proof Hn as Hn'. apply below8 in Hn'. destruct Hn' as [->|Hn'].
  { exists bits. cbn. rewrite Z.add_0_r. split; [done|]. split; [apply marks_0|done]. }
  destruct Hn' as [->|[->|[->|[->|[->|[->| ->]]]]]]; cbn [Z.eqb Pos.eqb].
  1: destruct (marker_set1 pos bits) as (bits' & -> & ? & ?); try done.
  2: destruct (marker_setN 2 _ ltac:(lia) M2 pos bits) as (bits' & -> & ? & ?); try done.
  3: destruct (marker_setN 3 _ ltac:(lia) M3 pos bits) as (bits' & -> & ? & ?); try done.
  4: destruct (marker_setN 4 _ ltac:(lia) M4 pos bits) as (bits' & -> & ? & ?); try done.
  5: destruct (marker_setN 5 _ ltac:(lia) M5 pos bits) as (bits' & -> & ? & ?); try done.
  6: destruct (marker_setN 6 _ ltac:(lia) M6 pos bits) as (bits' & -> & ? & ?); try done.
  7: destruct (marker_setN 7 _ ltac:(lia) M7 pos bits) as (bits' & -> & ? & ?); try done.
  all: by exists bits'.
Qed.

Lemma mark_loop_0 fuel w set n pos bits : n < w → mark_loop fuel w set n pos bits = Ok (n, pos, bits).
Proof. intros H. destruct fuel; cbn [mark_loop]; by rewrite (proj2 (Z.leb_gt w n)) by lia. Qed.

(** One round of a marking loop. *)
Lemma mark_loop_S fuel w set n pos bits :
  0 < w ≤ n → n < 256 → marker w set →
  0 ≤ pos → 8 * (pos / 8) + w + 8 ≤ 8 * len bits → clean pos bits → bytes_ok bits →
  ∃ bits', mark_loop (S fuel) w set n pos bits = mark_loop fuel w set (n - w) (pos + w) bits' ∧
    marks w pos bits bits' ∧ bytes_ok bits'.
Proof.
  intros Hw Hn Hmk Hp Hl Hc Hok. cbn [mark_loop]. rewrite (proj2 (Z.leb_le w n)) by lia.
  destruct (Hmk pos bits) as (bits' & -> & ? & ?); try done. cbn [mbind res_bind].
  exists bits'. by rewrite u8_small by (unfold is_u8; lia).
Qed.

Lemma mark_push_ok n pos bits :
  1 ≤ n ≤ 32 → 0 ≤ pos → pos / 8 + 5 ≤ len bits → clean pos bits → bytes_ok bits →
  ∃ bits', mark_push n pos bits = Ok (pos + n, bits') ∧ marks n pos bits bits' ∧ bytes_ok bits'.
Proof.
  intros Hn Hp Hl Hc Hok. unfold mark_push. destruct (Z.leb_spec 8 n) as [H8|H8].
  2: { cbn [mbind res_bind]. apply mark_small_ok; try done; lia. }
  assert (∃ a bits1, (a = 0 ∨ a = 16 ∨ a = 32) ∧ a ≤ n < a + 16 ∧
    mark_loop 2 16 set16 n pos bits = Ok (n - a, pos + a, bits1) ∧ marks a pos bits bits1 ∧ bytes_ok bits1)
    as (a & bits1 & Ha & Hna & -> & H1 & Hok1).
  { destruct (Z.ltb_spec n 16).
    { exists 0, bits. rewrite mark_loop_0, Z.sub_0_r, Z.add_0_r by lia. split; [lia|]. split_and!; try done || lia.
      apply marks_0. }
    destruct (mark_loop_S 1 16 set16 n pos bits) as (b1 & -> & Hm1 & Ho1); try done || lia; [apply marker_set16|].
    pose proof Hm1 as [Hlen1 _].
    destruct (Z.ltb_spec n 32).
    { exists 16, b1. rewrite mark_loop_0 by lia. split; [lia|]. by split_and!; try lia. }
    destruct (mark_loop_S 0 16 set16 (n - 16) (pos + 16) b1) as (b2 & -> & Hm2 & Ho2); try done || lia; [apply marker_set16|..].
    { rewrite div16_add. unfold len in *. lia. } { by eapply marks_clean. }
    exists 32, b2. rewrite mark_loop_0 by lia. split; [lia|]. split_and!; try done || lia.
    - f_equal; f_equal; f_equal; lia.
    - by apply (marks_trans 16 16 pos bits b1). }
  cbn [mbind res_bind]. pose proof H1 as [Hlen1 _].
  assert (clean (pos + a) bits1) as Hc1 by (eapply marks_clean; try done; lia).
  assert ((pos + a) / 8 = pos / 8 + a / 8 ∧ 8 * (a / 8) = a) as [Hd1 Hd2].
  { destruct Ha as [->|[->| ->]]; [by rewrite !Z.add_0_r|by rewrite div16_add|].
    rewrite <-(Z.div_add _ 4) by lia. by split; [f_equal; lia|]. }
  destruct (Z.ltb_spec (n - a) 8).
  - rewrite mark_loop_0 by lia. cbn [mbind res_bind].
    destruct (mark_small_ok (n - a)) with (pos := pos + a) (bits := bits1) as (b & -> & Hm & Ho); try done || lia.
    { unfold len in *. lia. }
    exists b. split; [do 2 f_equal; lia|]. split; [|done].
    replace n with (a + (n - a)) by lia. eapply marks_trans; try done; lia.
  - destruct (mark_loop_S 0 8 set8 (n - a) (pos + a) bits1) as (b1 & -> & Hm1 & Ho1); try done || lia; [apply marker_set8|..].
    { unfold len in *. lia. }
    rewrite mark_loop_0 by lia. cbn [mbind res_bind]. pose proof Hm1 as [Hlen2 _].
    destruct (mark_small_ok (n - a - 8)) with (pos := pos + a + 8) (bits := b1) as (b & -> & Hm & Ho); try done || lia.
    { rewrite div8_add. unfold len in *. lia. } { by eapply marks_clean; try done; lia. }
    exists b. split; [do 2 f_equal; lia|]. split; [|done].
    replace n with (a + 8 + (n - a - 8)) by lia. eapply (marks_trans (a + 8)); [lia|lia| |].
    + eapply marks_trans; try done; lia.
    + by rewrite Z.add_assoc.
Qed.

(** ** The analysis agrees with the scan *)

Lemma push_data_skip code : ∀ n j, (j < length code)%nat →
  push_data n code j = if (j <? n)%nat then true else push_data 0 (drop n code) (j - n).
Proof.
  induction code as [|b code IH]; intros n j Hj; cbn [length] in Hj; [lia|]. destruct n as [|n].
  - by rewrite drop_0, Nat.sub_0_r.
  - destruct j as [|j]; [done|]. cbn [push_data drop]. rewrite IH by lia. done.
Qed.

Lemma codeBitmapInternal_ok fuel : ∀ code pc bits,
  (length code - pc ≤ fuel)%nat → len code / 8 + 5 ≤ len bits → clean (Z.of_nat pc) bits → bytes_ok bits →
  ∃ bits', codeBitmapInternal fuel code (Z.of_nat pc) bits = Ok bits' ∧ length bits' = length bits ∧
    (∀ i, 0 ≤ i < Z.of_nat pc → bit bits' i = bit bits i) ∧
    (∀ j, (j < length code - pc)%nat → bit bits' (Z.of_nat (pc + j)) = push_data 0 (drop pc code) j).
Proof.
  induction fuel as [|fuel IH]; intros code pc bits Hf Hl Hc Hok; cbn [codeBitmapInternal];
    (destruct (Z.ltb_spec (Z.of_nat pc) (len code)) as [Hlt|Hge];
     [|exists bits; split_and!; try done; intros j Hj; unfold len in Hge; lia]).
  { unfold len in Hlt. lia. }
  unfold len in Hlt. destruct (lookup_lt_is_Some_2 code pc) as [op Hop]; [lia|].
  rewrite (go_index_ok code _ op) by (lia || by rewrite Nat2Z.id). cbn [mbind res_bind].
  assert (drop pc code = op :: drop (S pc) code) as Hd by (by apply drop_S).
  replace (Z.of_nat pc + 1) with (Z.of_nat (S pc)) by lia.
  destruct ((op <? PUSH1) || (PUSH32 <? op)) eqn:Hpush.
  - assert (clean (Z.of_nat (S pc)) bits) as Hc' by (intros i Hi; apply Hc; lia).
    destruct (IH code (S pc) bits) as (bits' & -> & Hlen & Hlow & Hhigh); try done; [lia|].
    exists bits'. split_and!; [done|done|intros i Hi; apply Hlow; lia|].
    intros [|j] Hj; rewrite Hd; cbn [push_data].
    + rewrite Nat.add_0_r, Hlow by lia. apply Hc. lia.
    + unfold push_size. rewrite Hpush. rewrite <-Nat.add_succ_comm. apply Hhigh. lia.
  - set (n := u8 (op - PUSH1 + 1)).
    assert (n = op - PUSH1 + 1 ∧ 1 ≤ n ≤ 32) as [Hn1 Hn].
    { apply orb_false_iff in Hpush as [H1%Z.ltb_ge H2%Z.ltb_ge]. unfold PUSH1, PUSH32 in *.
      unfold n. rewrite u8_small by (unfold is_u8, PUSH1; lia). unfold PUSH1. lia. }
    assert (push_size op = Z.to_nat n) as Hps by (unfold push_size; rewrite Hpush, Hn1; done).
    assert (Z.of_nat (S pc) / 8 ≤ len code / 8) as Hdiv by (apply Z.div_le_mono; unfold len; lia).
    destruct (mark_push_ok n (Z.of_nat (S pc)) bits) as (bits1 & -> & [Hlen1 Hm1] & Hok1); try done || lia.
    { intros i Hi. apply Hc. lia. }
    cbn [mbind res_bind]. replace (Z.of_nat (S pc) + n) with (Z.of_nat (S pc + Z.to_nat n)) by lia.
    destruct (IH code (S pc + Z.to_nat n)%nat bits1) as (bits' & -> & Hlen & Hlow & Hhigh); [lia| | |done|].
    { unfold len in *. lia. }
    { intros i Hi. rewrite Hm1, Hc by lia. rewrite (proj2 (Z.ltb_ge i _)) by lia. by rewrite andb_false_r. }
    exists bits'. split_and!; [done|congruence| |].
    + intros i Hi. rewrite Hlow, Hm1 by lia. rewrite (proj2 (Z.leb_gt _ i)) by lia. apply orb_false_r.
    + intros [|j] Hj; rewrite Hd; cbn [push_data].
      * rewrite Nat.add_0_r, Hlow, Hm1 by lia. rewrite (proj2 (Z.leb_gt _ (Z.of_nat pc))) by lia.
        rewrite orb_false_r. apply Hc. lia.
      * rewrite Hps, push_data_skip by (rewrite length_drop; lia).
        destruct (Nat.ltb_spec j (Z.to_nat n)) as [Hjn|Hjn].
        -- rewrite Hlow, Hm1 by lia. rewrite (proj2 (Z.leb_le _ _)), (proj2 (Z.ltb_lt _ _)) by lia. apply orb_true_r.
        -- rewrite drop_drop. rewrite <-(Hhigh (j - Z.to_nat n)%nat) by lia. f_equal. lia.
Qed.

(** What [codeSegment] reads. *)
Lemma codeSegment_bit bits pos :
  0 ≤ pos → pos / 8 < len bits → codeSegment bits pos = Ok (negb (bit bits pos)).
Proof.
  intros Hp Hl. unfold codeSegment. pose proof (Z.div_pos pos 8 Hp ltac:(lia)).
  destruct (lookup_lt_is_Some_2 bits (Z.to_nat (pos / 8))) as [x Hx]; [unfold len in Hl; lia|].
  rewrite (go_index_ok bits _ x) by (lia || done). cbn [mbind res_bind]. f_equal.
  unfold bit. rewrite (nth_lookup_Some bits _ 0 x) by done. pose proof (mod8_bound pos) as Hm.
  assert (Z.shiftr 0x80 (pos mod 8) = 2 ^ (7 - pos mod 8)) as ->.
  { apply below8 in Hm. destruct Hm as [->|[->|[->|[->|[->|[->|[->| ->]]]]]]]; done. }
  destruct (Z.testbit x (7 - pos mod 8)) eqn:E; cbn [negb].
  - apply Z.eqb_neq. intros H0. apply (f_equal (λ z, Z.testbit z (7 - pos mod 8))) in H0.
    rewrite Z.land_spec, E, Z.pow2_bits_true, Z.bits_0 in H0 by lia. done.
  - apply Z.eqb_eq. apply Z.bits_inj_0. intros k. rewrite Z.land_spec.
    destruct (Z.eq_dec k (7 - pos mod 8)) as [->|]; [by rewrite E|].
    by rewrite Z.pow2_bits_false, andb_false_r.
Qed.

Lemma codeBitmap_ok code :
  ∃ bits, codeBitmap code = Ok bits ∧ length bits = (length code `div` 8 + 5)%nat ∧
    ∀ pos, 0 ≤ pos < len code → codeSegment bits pos = Ok (negb (push_data 0 code (Z.to_nat pos))).
Proof.
  unfold codeBitmap. set (b0 := replicate _ 0).
  assert (length b0 = (length code `div` 8 + 5)%nat) as Hl0 by (unfold b0; rewrite length_replicate; lia).
  assert (∀ i, bit b0 i = false) as Hb0.
  { intros i. unfold bit, b0. rewrite nth_lookup. destruct (_ !! _) eqn:E; [|apply Z.bits_0].
    apply lookup_replicate in E as [-> _]. apply Z.bits_0. }
  assert (len code / 8 + 5 ≤ len b0) as Hlb.
  { unfold len. rewrite Hl0. change 8 with (Z.of_nat 8). rewrite <-Nat2Z.inj_div. lia. }
  change 0 with (Z.of_nat 0) at 1.
  destruct (codeBitmapInternal_ok (length code) code 0 b0) as (bits & -> & Hlen & _ & Hbits); [lia|done|by intros i _|..].
  { unfold b0. apply Forall_replicate. done. }
  exists bits. split; [done|]. split; [congruence|]. intros pos Hpos. rewrite codeSegment_bit.
  - specialize (Hbits (Z.to_nat pos)). rewrite drop_0, Nat.add_0_l, Z2Nat.id in Hbits by lia.
    rewrite Hbits; [done|unfold len in Hpos; lia].
  - lia.
  - assert (pos / 8 ≤ len code / 8) by (apply Z.div_le_mono; lia). unfold len in *. lia.
Qed.

(** The analysis never writes outside its buffer, always ends, and answers
    [true] for a position of the code exactly when a scan from the start of the
    code finds an instruction there and not the data of a PUSH. *)
Theorem codeBitmap_scan code :
  ∃ bits, codeBitmap code = Ok bits ∧
    ∀ pos, 0 ≤ pos < len code → codeSegment bits pos = Ok (negb (push_data 0 code (Z.to_nat pos))).
Proof. destruct (codeBitmap_ok code) as (bits & Hb & _ & H). eauto. Qed.
