(* ===== verification/EvmBase.v ===== *)
(** * Foundations of the EVM (src/geth/core/vm: stack.go, memory.go, common.go,
    gas.go, errors.go, interface.go, contract.go, params/protocol_params.go)

    The word-level operations of the uint256 library and the state database are
    interfaces: the classes [Uint256] and [StateDB].  Stack, memory, memory
    sizes, gas arithmetic and contracts are modelled in full.  The theorems show
    that the memory size and gas computations never wrap around unnoticed and
    that a jump target is accepted exactly when the scan of the code allows it. *)
From stdpp Require Import gmap.
From S2P Require Import Prelude EvmAnalysis.

(** ** Errors *)

Inductive evm_err :=
| ErrOutOfGas | ErrCodeStoreOutOfGas | ErrDepth | ErrInsufficientBalance
| ErrContractAddressCollision | ErrExecutionReverted | ErrMaxCodeSizeExceeded
| ErrInvalidJump | ErrWriteProtection | ErrReturnDataOutOfBounds | ErrGasUintOverflow
| ErrInvalidCode | ErrUnauthorizedDeveloper | ErrNonceUintOverflow
| ErrStackUnderflow (stackLen required : Z)
| ErrStackOverflow (stackLen limit : Z)
| ErrInvalidOpCode (opcode : Z)
| ErrSentryGas          (* "not enough gas for reentrancy sentry" *)
| ErrAddressDenied      (* types.ErrAddressDenied *)
| ErrPrecompile.        (* an error of a precompiled contract *)

#[export] Instance evm_err_eq_dec : EqDecision evm_err.
Proof. solve_decision. Defined.

(** ** Interfaces *)

(** The arithmetic of [uint256.Int] (github.com/holiman/uint256); a 256-bit
    word is its value in [Z]. *)
Class Uint256 := {
  u_Add : Z → Z → Z; u_Sub : Z → Z → Z; u_Mul : Z → Z → Z; u_Div : Z → Z → Z;
  u_SDiv : Z → Z → Z; u_Mod : Z → Z → Z; u_SMod : Z → Z → Z; u_Exp : Z → Z → Z;
  u_ExtendSign : Z → Z → Z; u_Not : Z → Z; u_Slt : Z → Z → bool; u_Sgt : Z → Z → bool;
  u_Byte : Z → Z → Z; u_AddMod : Z → Z → Z → Z; u_MulMod : Z → Z → Z → Z;
  u_Lsh : Z → Z → Z; u_Rsh : Z → Z → Z; u_SRsh : Z → Z → Z
}.

(** The value of a word read as a two's complement integer. *)
Definition signed (x : Z) : Z := if x <? 2 ^ 255 then x else x - 2 ^ 256.

(** What the library documents of these operations, on words. *)
Class Uint256Laws `{Uint256} := {
  u_Add_spec x y : is_u256 x → is_u256 y → u_Add x y = u256 (x + y);
  u_Sub_spec x y : is_u256 x → is_u256 y → u_Sub x y = u256 (x - y);
  u_Mul_spec x y : is_u256 x → is_u256 y → u_Mul x y = u256 (x * y);
  u_Div_spec x y : is_u256 x → is_u256 y → u_Div x y = if y =? 0 then 0 else x / y;
  u_SDiv_spec x y : is_u256 x → is_u256 y →
    u_SDiv x y = if y =? 0 then 0 else u256 (Z.quot (signed x) (signed y));
  u_Mod_spec x y : is_u256 x → is_u256 y → u_Mod x y = if y =? 0 then 0 else x mod y;
  u_SMod_spec x y : is_u256 x → is_u256 y →
    u_SMod x y = if y =? 0 then 0 else u256 (Z.rem (signed x) (signed y));
  u_Exp_spec x y : is_u256 x → is_u256 y → u_Exp x y = u256 (x ^ y);
  u_ExtendSign_spec x y : is_u256 x → is_u256 y →
    u_ExtendSign x y =
    if y <? 31 then
      let b := 8 * (y + 1) in
      if Z.testbit x (b - 1) then u256 (x mod 2 ^ b - 2 ^ b) else x mod 2 ^ b
    else x;
  u_Not_spec x : is_u256 x → u_Not x = 2 ^ 256 - 1 - x;
  u_Slt_spec x y : is_u256 x → is_u256 y → u_Slt x y = (signed x <? signed y);
  u_Sgt_spec x y : is_u256 x → is_u256 y → u_Sgt x y = (signed y <? signed x);
  u_Byte_spec x n : is_u256 x → is_u256 n →
    u_Byte x n = if n <? 32 then Z.shiftr x (8 * (31 - n)) mod 256 else 0;
  u_AddMod_spec x y m : is_u256 x → is_u256 y → is_u256 m →
    u_AddMod x y m = if m =? 0 then 0 else (x + y) mod m;
  u_MulMod_spec x y m : is_u256 x → is_u256 y → is_u256 m →
    u_MulMod x y m = if m =? 0 then 0 else (x * y) mod m;
  u_Lsh_spec x n : is_u256 x → is_u256 n → u_Lsh x n = u256 (x * 2 ^ n);
  u_Rsh_spec x n : is_u256 x → is_u256 n → u_Rsh x n = Z.shiftr x n;
  u_SRsh_spec x n : is_u256 x → is_u256 n → u_SRsh x n = u256 (Z.shiftr (signed x) n)
}.

(** The message of [SubRefund]'s panic. *)
Definition refund_below_zero : panic := raised "Refund counter below zero".

(** [vm.StateDB]: addresses and hashes are their big-endian values.  [Snapshot]
    and [Suicide] change the database and return a value; [SubRefund] panics
    when the counter would become negative. *)
Class StateDB (W : Type) := {
  CreateAccount : Z → W → W;
  SubBalance : Z → Z → W → W;
  AddBalance : Z → Z → W → W;
  GetBalance : W → Z → Z;
  GetNonce : W → Z → Z;
  SetNonce : Z → Z → W → W;
  GetCodeHash : W → Z → Z;
  GetCode : W → Z → bytes;
  SetCode : Z → bytes → W → W;
  GetCodeSize : W → Z → Z;
  AddRefund : Z → W → W;
  SubRefund : Z → W → res evm_err W;
  GetRefund : W → Z;
  GetCommittedState : W → Z → Z → Z;
  GetState : W → Z → Z → Z;
  SetState : Z → Z → Z → W → W;
  Suicide : Z → W → W;
  HasSuicided : W → Z → bool;
  Exist : W → Z → bool;
  Empty : W → Z → bool;
  AddressInAccessList : W → Z → bool;
  SlotInAccessList : W → Z → Z → bool * bool;
  AddAddressToAccessList : Z → W → W;
  AddSlotToAccessList : Z → Z → W → W;
  RevertToSnapshot : Z → W → W;
  Snapshot : W → Z * W;
  AddLog : Z → list Z → bytes → W → W;
  AddPreimage : Z → bytes → W → W
}.

(** ** Gas and size arithmetic on 64 bits *)

Definition MaxUint64 : Z := 2 ^ 64 - 1.

(** [math.SafeAdd], [math.SafeMul]: the low word and whether it overflowed. *)
Definition SafeAdd (x y : Z) : Z * bool := (u64 (x + y), negb ((x + y) / 2 ^ 64 =? 0)).
Definition SafeMul (x y : Z) : Z * bool := (u64 (x * y), negb ((x * y) / 2 ^ 64 =? 0)).

(** [Uint64], [IsUint64], [Uint64WithOverflow] of a word. *)
Definition Uint64 (x : Z) : Z := u64 x.
Definition IsUint64 (x : Z) : bool := x <? 2 ^ 64.
Definition Uint64WithOverflow (x : Z) : Z * bool := (u64 x, negb (IsUint64 x)).

(** [int64(x)] of a 64-bit word. *)
Definition int64 (x : Z) : Z := if x <? 2 ^ 63 then x else x - 2 ^ 64.

Definition calcMemSize64WithUint (off length64 : Z) : Z * bool :=
  if length64 =? 0 then (0, false) else
  let '(offset64, overflow) := Uint64WithOverflow off in
  if overflow then (0, true) else
  let val := u64 (offset64 + length64) in
  (val, val <? offset64).

Definition calcMemSize64 (off l : Z) : Z * bool :=
  if negb (IsUint64 l) then (0, true) else calcMemSize64WithUint off (Uint64 l).

Definition toWordSize (size : Z) : Z :=
  if MaxUint64 - 31 <? size then MaxUint64 / 32 + 1 else (size + 31) / 32.

(** [common.RightPadBytes]: copies when shorter, otherwise the slice itself. *)
Definition RightPadBytes (b : bytes) (l : Z) : bytes :=
  if l <=? len b then b else b ++ replicate (Z.to_nat (l - len b)) 0.

Definition getData {E} (data : bytes) (start size : Z) : res E bytes :=
  let length := len data in
  let start := if length <? start then length else start in
  let end_ := u64 (start + size) in
  let end_ := if length <? end_ then length else end_ in
  d ← go_slice data start end_; Ok (RightPadBytes d (int64 size)).

Definition callGas (isEip150 : bool) (availableGas base callCost : Z) : res evm_err Z :=
  let rest := if negb (IsUint64 callCost) then Err ErrGasUintOverflow else Ok (Uint64 callCost) in
  if isEip150 then
    let availableGas := u64 (availableGas - base) in
    let gas := u64 (availableGas - availableGas / 64) in
    if negb (IsUint64 callCost) || (gas <? Uint64 callCost) then Ok gas else rest
  else rest.

(** ** Memory *)

Record Memory := mk_Memory { store : bytes; lastGasCost : Z }.
Definition NewMemory : Memory := mk_Memory [] 0.

Definition mem_Len (m : Memory) : Z := len (store m).

(** [copy(store[offset:offset+size], value)]. *)
Definition mem_copy (m : bytes) (offset size : Z) (value : bytes) : bytes :=
  let n := Nat.min (Z.to_nat size) (length value) in
  take (Z.to_nat offset) m ++ take n value ++ drop (Z.to_nat offset + n) m.

Definition mem_Set {E} (m : Memory) (offset size : Z) (value : bytes) : res E Memory :=
  if 0 <? size then
    if len (store m) <? u64 (offset + size) then Panic (raised "invalid memory: store empty")
    else
      _ ← go_slice (store m) offset (u64 (offset + size));
      Ok (mk_Memory (mem_copy (store m) offset size value) (lastGasCost m))
  else Ok m.

(** [Set32] writes the 32 big-endian bytes of the word. *)
Definition mem_Set32 {E} (m : Memory) (offset val : Z) : res E Memory :=
  if len (store m) <? u64 (offset + 32) then Panic (raised "invalid memory: store empty")
  else
    _ ← go_slice (store m) offset (len (store m));
    Ok (mk_Memory (mem_copy (store m) offset 32 (be_bytes 32 val)) (lastGasCost m)).

Definition mem_Resize (m : Memory) (size : Z) : Memory :=
  if mem_Len m <? size
  then mk_Memory (store m ++ replicate (Z.to_nat (size - mem_Len m)) 0) (lastGasCost m)
  else m.

(** [GetPtr], [GetCopy]: the bytes; a slice out of range panics. *)
Definition mem_GetPtr {E} (m : Memory) (offset size : Z) : res E bytes :=
  if size =? 0 then Ok []
  else if offset <? len (store m) then go_slice (store m) offset (offset + size)
  else Ok [].

Definition mem_GetCopy {E} (m : Memory) (offset size : Z) : res E bytes :=
  if size =? 0 then Ok []
  else if offset <? len (store m) then
    if size <? 0 then Panic runtime_error
    else go_slice (store m) offset (offset + size)
  else Ok [].

Example getData_pad : getData (E:=unit) [1; 2; 3] 2 4 = Ok [3; 0; 0; 0].
Proof. reflexivity. Qed.
Example mem_set_get :
  (m ← mem_Set (E:=unit) (mem_Resize NewMemory 32) 30 2 [7; 8]; mem_GetPtr m 29 3) = Ok [0; 7; 8].
Proof. reflexivity. Qed.

(** ** Gas of memory expansion (gas_table.go) *)

Definition MemoryGas : Z := 3.
Definition QuadCoeffDiv : Z := 512.

Definition memoryGasCost (newMemSize : Z) : st Memory evm_err Z := λ mem,
  if newMemSize =? 0 then (mem, Ok 0) else
  if 0x1FFFFFFFE0 <? newMemSize then (mem, Err ErrGasUintOverflow) else
  let newMemSizeWords := toWordSize newMemSize in
  let newMemSize := u64 (newMemSizeWords * 32) in
  if mem_Len mem <? newMemSize then
    let square := u64 (newMemSizeWords * newMemSizeWords) in
    let linCoef := u64 (newMemSizeWords * MemoryGas) in
    let quadCoef := square / QuadCoeffDiv in
    let newTotalFee := u64 (linCoef + quadCoef) in
    let fee := u64 (newTotalFee - lastGasCost mem) in
    (mk_Memory (store mem) newTotalFee, Ok fee)
  else (mem, Ok 0).

(** ** Contracts (contract.go) *)

Record Contract := mk_Contract {
  CallerAddress : Z; self : Z; Code : bytes; CodeHash : Z; Input : bytes;
  Gas : Z; value : Z; analysis : option bitvec
}.

Definition set_Gas (g : Z) (c : Contract) : Contract :=
  mk_Contract (CallerAddress c) (self c) (Code c) (CodeHash c) (Input c) g (value c) (analysis c).
Definition set_Input (i : bytes) (c : Contract) : Contract :=
  mk_Contract (CallerAddress c) (self c) (Code c) (CodeHash c) i (Gas c) (value c) (analysis c).
Definition set_analysis (a : option bitvec) (c : Contract) : Contract :=
  mk_Contract (CallerAddress c) (self c) (Code c) (CodeHash c) (Input c) (Gas c) (value c) a.

Definition UseGas (gas : Z) (c : Contract) : bool * Contract :=
  if Gas c <? gas then (false, c) else (true, set_Gas (Gas c - gas) c).

Definition GetByte (c : Contract) (n : Z) : Z := if n <? len (Code c) then nth (Z.to_nat n) (Code c) 0 else 0.
Definition GetOp (c : Contract) (n : Z) : Z := GetByte c n.

(** The map of analyses shared by the contracts of one call tree. *)
Abbreviation jumpmap := (gmap Z bitvec).

Section jumpdest.
(** The hash of the empty code and the process-wide cache of analyses
    ([codeBitmapCache], an ARC cache of github.com/hashicorp/golang-lru): what
    [Get] returns for a code hash.  Everything below holds for every content of
    the cache that consists of analyses, so the [Add] after a miss, which can
    only change later answers of [Get] in that way, has no counterpart. *)
Context (emptyCodeHash : Z) (cache_Get : Z → option bitvec).

Definition codeBitmapWithCache (code : bytes) (codeHash : Z) : A bitvec :=
  if (codeHash =? emptyCodeHash) || (codeHash =? 0) then Ok []
  else match cache_Get codeHash with
       | Some val => Ok val
       | None => codeBitmap code
       end.

(** [isCode]: the answer, the contract and the shared map afterwards. *)
Definition isCode (c : Contract) (jumpdests : jumpmap) (udest : Z) : A (bool * Contract * jumpmap) :=
  match analysis c with
  | Some a => b ← codeSegment a udest; Ok (b, c, jumpdests)
  | None =>
      if negb (CodeHash c =? 0) && negb (CodeHash c =? emptyCodeHash) then
        '(a, jumpdests) ←
          match jumpdests !! CodeHash c with
          | Some a => Ok (a, jumpdests)
          | None => a ← codeBitmapWithCache (Code c) (CodeHash c); Ok (a, <[CodeHash c := a]> jumpdests)
          end;
        b ← codeSegment a udest;
        Ok (b, set_analysis (Some a) c, jumpdests)
      else
        a ← codeBitmap (Code c);
        b ← codeSegment a udest;
        Ok (b, set_analysis (Some a) c, jumpdests)
  end.

Definition validJumpdest (c : Contract) (jumpdests : jumpmap) (dest : Z) : A (bool * Contract * jumpmap) :=
  let '(udest, overflow) := Uint64WithOverflow dest in
  if overflow || (len (Code c) <=? udest) then Ok (false, c, jumpdests)
  else
    op ← go_index (Code c) udest;
    if negb (op =? JUMPDEST) then Ok (false, c, jumpdests)
    else isCode c jumpdests udest.

(** ** Correctness of the jump destination check *)

(** [bits] answers for every position of [code] as the scan does. *)
Definition analysis_of (code : bytes) (bits : bitvec) : Prop :=
  ∀ pos, 0 ≤ pos < len code → codeSegment bits pos = Ok (negb (push_data 0 code (Z.to_nat pos))).

(** The cached analyses a contract may read are analyses of its code. *)
Record jump_inv (c : Contract) (jumpdests : jumpmap) : Prop := {
  inv_local : ∀ a, analysis c = Some a → analysis_of (Code c) a;
  inv_map : CodeHash c ≠ 0 → CodeHash c ≠ emptyCodeHash →
    ∀ a, jumpdests !! CodeHash c = Some a → analysis_of (Code c) a;
  inv_cache : CodeHash c ≠ 0 → CodeHash c ≠ emptyCodeHash →
    ∀ a, cache_Get (CodeHash c) = Some a → analysis_of (Code c) a
}.

(** A valid jump target: a JUMPDEST byte that is not the data of a PUSH. *)
Definition jump_target (code : bytes) (dest : Z) : bool :=
  (dest <? len code) && (nth (Z.to_nat dest) code 0 =? JUMPDEST) && negb (push_data 0 code (Z.to_nat dest)).

Lemma isCode_ok c jd udest :
  jump_inv c jd → 0 ≤ udest < len (Code c) →
  ∃ c' jd', isCode c jd udest = Ok (negb (push_data 0 (Code c) (Z.to_nat udest)), c', jd') ∧
    jump_inv c' jd' ∧ set_analysis None c' = set_analysis None c ∧
    (∀ h, h ≠ CodeHash c ∨ h = 0 ∨ h = emptyCodeHash → jd' !! h = jd !! h).
Proof.
  intros Hinv Hu. unfold isCode. destruct (codeBitmap_ok (Code c)) as (bm & Hbm & _ & Hbmok).
  destruct (analysis c) as [a|] eqn:Ha.
  { rewrite (inv_local _ _ Hinv a Ha udest Hu). cbn. exists c, jd. done. }
  assert (∀ a jd', analysis_of (Code c) a → jd' !! CodeHash c = None ∨ jd' !! CodeHash c = Some a ∨ jd' = jd →
    jump_inv (set_analysis (Some a) c) jd') as Hset.
  { intros a jd' Hof Hjd. split; cbn; [by intros ? [= <-]| |by apply Hinv].
    intros Hn1 Hn2 b Hb. destruct Hjd as [H|[H| ->]]; [congruence|by simplify_eq|by apply (inv_map _ _ Hinv)]. }
  destruct (Z.eqb_spec (CodeHash c) 0) as [H0|H0];
    [|destruct (Z.eqb_spec (CodeHash c) emptyCodeHash) as [He|He]]; cbn [negb andb].
  1-2: rewrite Hbm; cbn [mbind res_bind]; rewrite (Hbmok udest Hu); cbn [mbind res_bind];
    eexists _, _; split_and!; [done|apply Hset; [done|by right; right]|done..].
  destruct (jd !! CodeHash c) as [a|] eqn:Hm; cbn [mbind res_bind].
  { rewrite (inv_map _ _ Hinv H0 He a Hm udest Hu). cbn [mbind res_bind].
    eexists _, _; split_and!; [done|apply Hset; [by apply (inv_map _ _ Hinv)|by right; right]|done..]. }
  assert (∃ a, codeBitmapWithCache (Code c) (CodeHash c) = Ok a ∧ analysis_of (Code c) a) as (a & -> & Hof).
  { unfold codeBitmapWithCache. rewrite (proj2 (Z.eqb_neq _ _) He), (proj2 (Z.eqb_neq _ _) H0). cbn [orb]. destruct (cache_Get _) as [a|] eqn:Hca; [|by exists bm].
    exists a. split; [done|]. by apply (inv_cache _ _ Hinv). }
  cbn [mbind res_bind]. rewrite (Hof udest Hu). cbn [mbind res_bind].
  eexists _, _; split_and!; [done|apply Hset; [done|right; left; apply lookup_insert_eq]|done|].
  intros h Hh. rewrite lookup_insert_ne; [done|]. destruct Hh as [?|[->| ->]]; congruence.
Qed.

Lemma validJumpdest_ok c jd dest :
  jump_inv c jd → is_u256 dest → len (Code c) ≤ 2 ^ 64 →
  ∃ c' jd', validJumpdest c jd dest = Ok (jump_target (Code c) dest, c', jd') ∧
    jump_inv c' jd' ∧ set_analysis None c' = set_analysis None c ∧
    (∀ h, h ≠ CodeHash c ∨ h = 0 ∨ h = emptyCodeHash → jd' !! h = jd !! h).
Proof.
  intros Hinv Hd Hlen. unfold validJumpdest, Uint64WithOverflow, IsUint64, jump_target, is_u256 in *.
  destruct (Z.ltb_spec dest (2 ^ 64)) as [Hlt|Hge]; cbn [negb orb].
  - rewrite u64_small by (unfold is_u64; lia). destruct (Z.leb_spec (len (Code c)) dest) as [Hle|Hgt].
    { exists c, jd. by rewrite (proj2 (Z.ltb_ge _ _)) by lia. }
    rewrite (proj2 (Z.ltb_lt dest _)) by lia. cbn [andb].
    destruct (lookup_lt_is_Some_2 (Code c) (Z.to_nat dest)) as [op Hop]; [unfold len in Hgt; lia|].
    rewrite (go_index_ok _ _ op) by (lia || done). cbn [mbind res_bind].
    rewrite (nth_lookup_Some _ _ 0 op) by done. destruct (op =? JUMPDEST); cbn [negb andb]; [|by exists c, jd].
    apply isCode_ok; [done|lia].
  - exists c, jd. by rewrite (proj2 (Z.ltb_ge dest (len (Code c)))) by lia.
Qed.
(** Whatever the caches hold: an accepted target lies in the code, and the only panic
    is that of an analysis that is too short for the code. *)
Lemma codeSegment_safe bits pos : match codeSegment bits pos with Ok _ => True | Panic p => p = index_of "bitvec" | _ => False end.
Proof. unfold codeSegment, go_index. destruct (decide _); [|done]. by destruct (bits !! _). Qed.
Lemma isCode_safe c jd udest :
  match isCode c jd udest with
  | Ok (_, c', _) => set_analysis None c' = set_analysis None c
  | Panic p => p = index_of "bitvec"
  | _ => False
  end.
Proof.
  assert (∀ a c' jd', set_analysis None c' = set_analysis None c →
    match b ← codeSegment a udest; Ok (b, c', jd' : jumpmap) with
    | Ok (_, c', _) => set_analysis None c' = set_analysis None c | Panic p => p = index_of "bitvec" | _ => False end) as Hseg.
  { intros a c' jd' Hc. pose proof (codeSegment_safe a udest). by destruct (codeSegment a udest). }
  destruct (codeBitmap_ok (Code c)) as (bm & Hbm & _). unfold isCode, codeBitmapWithCache. rewrite Hbm.
  destruct (analysis c); [by apply Hseg|]. destruct (negb _ && negb _); [|by apply Hseg].
  destruct (jd !! CodeHash c); [by apply Hseg|]. destruct (_ || _); [by apply Hseg|]. by destruct (cache_Get _); apply Hseg.
Qed.
Lemma validJumpdest_safe c jd dest : is_u256 dest → len (Code c) ≤ 2 ^ 64 →
  match validJumpdest c jd dest with
  | Ok (b, c', _) => set_analysis None c' = set_analysis None c ∧ (b = true → dest < len (Code c))
  | Panic p => p = index_of "bitvec"
  | _ => False
  end.
Proof.
  intros Hd Hlen. unfold validJumpdest, Uint64WithOverflow, IsUint64, is_u256 in *.
  destruct (Z.ltb_spec dest (2 ^ 64)) as [Hlt|Hge]; cbn [negb orb]; [|done].
  rewrite u64_small by (unfold is_u64; lia). destruct (Z.leb_spec (len (Code c)) dest) as [Hle|Hgt]; [done|].
  destruct (lookup_lt_is_Some_2 (Code c) (Z.to_nat dest)) as [op Hop]; [unfold len in Hgt; lia|].
  rewrite (go_index_ok _ _ op) by (lia || done). cbn [mbind res_bind]. destruct (negb _); [done|].
  pose proof (isCode_safe c jd dest). by destruct (isCode c jd dest) as [[[b c'] jd']| | |].
Qed.
End jumpdest.

(** A jump is allowed exactly to a JUMPDEST byte that the scan of the code
    does not take for PUSH data; the check never panics, and the caches it
    fills keep holding analyses of the code they are read for. *)
Theorem validJumpdest_target emptyCodeHash cache_Get c jd dest :
  jump_inv emptyCodeHash cache_Get c jd → is_u256 dest → len (Code c) ≤ 2 ^ 64 →
  ∃ c' jd', validJumpdest emptyCodeHash cache_Get c jd dest = Ok (jump_target (Code c) dest, c', jd') ∧
    jump_inv emptyCodeHash cache_Get c' jd' ∧ set_analysis None c' = set_analysis None c ∧
    (∀ h, h ≠ CodeHash c ∨ h = 0 ∨ h = emptyCodeHash → jd' !! h = jd !! h).
Proof. apply validJumpdest_ok. Qed.

Definition ex_contract : Contract := mk_Contract 1 2 [0x60; 0x5b; 0x5b] 77 [] 100 0 None.
Lemma validJumpdest_target_witness :
  ∃ c' jd', validJumpdest 5 (λ _, None) ex_contract ∅ 1 = Ok (jump_target [0x60; 0x5b; 0x5b] 1, c', jd') ∧
    jump_inv 5 (λ _, None) c' jd' ∧ set_analysis None c' = set_analysis None ex_contract ∧
    (∀ h, h ≠ 77 ∨ h = 0 ∨ h = 5 → jd' !! h = (∅ : jumpmap) !! h).
Proof. apply (validJumpdest_target 5 (λ _, None) ex_contract ∅ 1); [by split|done|done]. Defined.

(** ** Memory sizes *)

Lemma calcMemSize64_ok off l :
  is_u256 off → is_u256 l →
  (l = 0 → calcMemSize64 off l = (0, false)) ∧
  (l ≠ 0 → off + l < 2 ^ 64 → calcMemSize64 off l = (off + l, false)) ∧
  (l ≠ 0 → 2 ^ 64 ≤ off + l → snd (calcMemSize64 off l) = true).
Proof.
  unfold is_u256. intros Ho Hl. unfold calcMemSize64, calcMemSize64WithUint, Uint64WithOverflow, IsUint64, Uint64.
  split; [by intros ->|]. destruct (Z.ltb_spec l (2 ^ 64)); cbn [negb]; [|split; [lia|done]].
  rewrite (u64_small l) by (unfold is_u64; lia).
  destruct (Z.ltb_spec off (2 ^ 64)); cbn [negb].
  2: { split; intros Hl0 ?; [lia|]. by rewrite (proj2 (Z.eqb_neq l 0)) by lia. }
  rewrite (u64_small off) by (unfold is_u64; lia). split; intros Hl0 Hsum; rewrite (proj2 (Z.eqb_neq l 0)) by lia.
  - rewrite u64_small by (unfold is_u64; lia). f_equal. apply Z.ltb_ge. lia.
  - cbn [snd]. apply Z.ltb_lt. unfold u64.
    replace (off + l) with (off + l - 2 ^ 64 + 1 * 2 ^ 64) by lia. rewrite Z.mod_add, Z.mod_small by lia. lia.
Qed.

(** The size an operation needs is the end of the accessed range, or zero
    for an empty range wherever it lies, and a range that ends beyond 64 bits is
    reported as an overflow, never as a small size. *)
Theorem calcMemSize64_exact off l :
  is_u256 off → is_u256 l →
  (l = 0 → calcMemSize64 off l = (0, false)) ∧
  (l ≠ 0 → off + l < 2 ^ 64 → calcMemSize64 off l = (off + l, false)) ∧
  (l ≠ 0 → 2 ^ 64 ≤ off + l → snd (calcMemSize64 off l) = true).
Proof. apply calcMemSize64_ok. Qed.

Lemma calcMemSize64_exact_witness :
  (2 = 0 → calcMemSize64 (2 ^ 64 - 1) 2 = (0, false)) ∧
  (2 ≠ 0 → 2 ^ 64 - 1 + 2 < 2 ^ 64 → calcMemSize64 (2 ^ 64 - 1) 2 = (2 ^ 64 - 1 + 2, false)) ∧
  (2 ≠ 0 → 2 ^ 64 ≤ 2 ^ 64 - 1 + 2 → snd (calcMemSize64 (2 ^ 64 - 1) 2) = true).
Proof. apply (calcMemSize64_exact (2 ^ 64 - 1) 2); done. Defined.

(** The total fee for [w] words of memory. *)
Definition memory_fee (w : Z) : Z := MemoryGas * w + w * w / QuadCoeffDiv.

(** Memory grows in whole words and remembers what was paid for it. *)
Definition mem_ok (m : Memory) : Prop :=
  ∃ w, 0 ≤ w ≤ 0xFFFFFFFF ∧ mem_Len m = 32 * w ∧ lastGasCost m = memory_fee w.

Lemma toWordSize_ceil s : 0 ≤ s ≤ 0x1FFFFFFFE0 → toWordSize s = (s + 31) / 32 ∧ 0 ≤ (s + 31) / 32 ≤ 0xFFFFFFFF.
Proof.
  intros Hs. unfold toWordSize, MaxUint64. rewrite (proj2 (Z.ltb_ge _ _)) by lia. split; [done|].
  split; [apply Z.div_pos; lia|]. apply Z.lt_succ_r, Z.div_lt_upper_bound; lia.
Qed.

Lemma memory_fee_mono w w' : 0 ≤ w ≤ w' → 0 ≤ memory_fee w ≤ memory_fee w'.
Proof.
  intros Hw. unfold memory_fee, MemoryGas, QuadCoeffDiv. pose proof (Z.div_pos (w * w) 512).
  pose proof (Z.div_le_mono (w * w) (w' * w') 512). nia.
Qed.

Lemma memory_fee_bound w : 0 ≤ w ≤ 0xFFFFFFFF → memory_fee w < 2 ^ 56.
Proof.
  intros Hw. unfold memory_fee, MemoryGas, QuadCoeffDiv.
  assert (w * w / 512 ≤ 0xFFFFFFFF * 0xFFFFFFFF / 512) by (apply Z.div_le_mono; nia).
  assert (0xFFFFFFFF * 0xFFFFFFFF / 512 = 36028797002186752) as E by reflexivity. lia.
Qed.

Lemma memoryGasCost_ok m s :
  mem_ok m → 0 ≤ s ≤ 0x1FFFFFFFE0 →
  ∃ m' fee, memoryGasCost s m = (m', Ok fee) ∧ store m' = store m ∧
    (∀ w, mem_Len m = 32 * w →
       fee = memory_fee (Z.max w ((s + 31) / 32)) - memory_fee w ∧ 0 ≤ fee ∧
       lastGasCost m' = memory_fee (Z.max w ((s + 31) / 32))) ∧
    mem_ok (mem_Resize m' (32 * ((s + 31) / 32))).
Proof.
  intros (w & Hw & Hlen & Hfee) Hs. destruct (toWordSize_ceil s Hs) as [Hts Hn]. set (n := (s + 31) / 32) in *.
  assert (0 < s → 0 < n) as Hpos by (intros; unfold n; apply Z.div_str_pos; lia).
  assert (s = 0 → n = 0) as Hz by (intros ->; done).
  assert (∀ w', mem_Len m = 32 * w' → w' = w) as Hu by (intros; lia).
  unfold memoryGasCost, mem_Resize. destruct (Z.eqb_spec s 0) as [->|Hs0].
  { exists m, 0. split_and!; try done.
    - intros w' Hw'%Hu. subst w'. rewrite Hz, Z.max_l by lia. split_and!; [lia|lia|done].
    - rewrite Hz, (proj2 (Z.ltb_ge _ _)) by lia. by exists w. }
  rewrite (proj2 (Z.ltb_ge _ _)) by lia. rewrite Hts. rewrite u64_small by (unfold is_u64; lia).
  destruct (Z.ltb_spec (mem_Len m) (n * 32)) as [Hgrow|Hfit].
  - assert (w < n) as Hwn by lia. pose proof (memory_fee_mono w n ltac:(lia)) as [Hf0 Hf1].
    pose proof (memory_fee_bound n Hn) as Hfb.
    assert (u64 (u64 (n * MemoryGas) + u64 (n * n) / QuadCoeffDiv) = memory_fee n) as ->.
    { unfold memory_fee, MemoryGas in *. rewrite (u64_small (n * 3)), (u64_small (n * n)) by (unfold is_u64; nia).
      rewrite u64_small; [lia|]. unfold is_u64. lia. }
    rewrite Hfee. eexists _, _. split; [done|]. split; [done|]. split.
    + intros w' Hw'%Hu. subst w'. cbn [lastGasCost]. rewrite Z.max_r by lia.
      rewrite u64_small by (unfold is_u64; lia). lia.
    + exists n. unfold mem_Len. cbn [store lastGasCost].
      change (len (store m)) with (mem_Len m). rewrite (proj2 (Z.ltb_lt _ _)) by lia. cbn [store lastGasCost].
      split_and!; [lia|lia| |done]. rewrite len_app. unfold len at 2. rewrite length_replicate.
      unfold mem_Len in *. lia.
  - eexists _, _. split; [done|]. split; [done|]. split.
    + intros w' Hw'%Hu. subst w'. rewrite Z.max_l by lia. split_and!; [lia|lia|done].
    + rewrite (proj2 (Z.ltb_ge _ _)) by lia. by exists w.
Qed.

(** The gas charged for memory is the growth of the quadratic fee: no
    intermediate product wraps around, sizes beyond the limit are refused, and
    memory that is charged and resized step by step has cost the fee of its
    final size in total. *)
Theorem memoryGasCost_quadratic m s w :
  mem_ok m → mem_Len m = 32 * w → 0 ≤ s < 2 ^ 64 →
  if s <=? 0x1FFFFFFFE0 then
    ∃ m', memoryGasCost s m = (m', Ok (memory_fee (Z.max w ((s + 31) / 32)) - memory_fee w)) ∧
      mem_ok (mem_Resize m' (32 * ((s + 31) / 32))) ∧ store m' = store m
  else memoryGasCost s m = (m, Err ErrGasUintOverflow).
Proof.
  intros Hm Hw Hs. destruct (Z.leb_spec s 0x1FFFFFFFE0).
  - destruct (memoryGasCost_ok m s Hm) as (m' & fee & Heq & Hst & Hfee & Hok); [lia|].
    destruct (Hfee w Hw) as (-> & _). by exists m'.
  - unfold memoryGasCost. rewrite (proj2 (Z.eqb_neq s 0)), (proj2 (Z.ltb_lt _ s)) by lia. done.
Qed.

Lemma memoryGasCost_quadratic_witness :
  if 100 <=? 0x1FFFFFFFE0 then
    ∃ m', memoryGasCost 100 NewMemory = (m', Ok (memory_fee (Z.max 0 ((100 + 31) / 32)) - memory_fee 0)) ∧
      mem_ok (mem_Resize m' (32 * ((100 + 31) / 32))) ∧ store m' = store NewMemory
  else memoryGasCost 100 NewMemory = (NewMemory, Err ErrGasUintOverflow).
Proof. apply (memoryGasCost_quadratic NewMemory 100 0); [by exists 0|done|done]. Defined.
