(* ===== verification/EvmMachine.v ===== *)
(** * EVM instructions (src/geth/core/vm/instructions.go, eips.go, stack.go)

    The state of one call frame and every instruction function, over the
    interfaces [Uint256] and [StateDB].  The stack is kept with its top first;
    the calls that run another frame are a parameter, the record [Calls], which
    the interpreter ties to itself. *)
From stdpp Require Import gmap.
From S2P Require Import Prelude EvmAnalysis EvmBase.

(** ** Environment *)

(** [params.Rules] *)
Record Rules := mk_Rules {
  IsHomestead : bool; IsEIP150 : bool; IsEIP155 : bool; IsEIP158 : bool; IsByzantium : bool;
  IsConstantinople : bool; IsPetersburg : bool; IsIstanbul : bool; IsBerlin : bool; IsLondon : bool
}.

(** [types.EvmExtraValidator]; the check type is true for CheckFrom. *)
Record Validator := mk_Validator {
  IsAddressDenied : Z → bool → bool;
  IsLogDenied : Z → list Z → bytes → bool
}.

(** [PrecompiledContract] *)
Record Precompiled := mk_Precompiled { RequiredGas : bytes → Z; RunPre : bytes → res evm_err bytes }.

(** [BlockContext], [TxContext] and the parts of [EVM] that do not change while
    it runs.  [keccak256] is the hash function as a number, which [SetBytes] takes
    modulo 2^256; [cache_Get] is the
    process-wide cache of code analyses. *)
Record Env (W : Type) := mk_Env {
  chainRules : Rules; ChainID : Z;
  CanTransfer : W → Z → Z → bool; Transfer : Z → Z → Z → W → W;
  GetHash : Z → Z; CanCreate : option (W → Z → Z → bool);
  ExtraValidator : option Validator;
  Coinbase : Z; GasLimit : Z; BlockNumber : Z; Time : Z; Difficulty : Z; BaseFee : option Z;
  Origin : Z; GasPrice : Z;
  NoRecursion : bool; EnablePreimageRecording : bool;
  precompile : Z → option Precompiled;
  keccak256 : bytes → Z;
  cache_Get : Z → option bitvec
}.
Arguments chainRules {W} _.
Arguments ChainID {W} _.
Arguments CanTransfer {W} _ _ _ _.
Arguments Transfer {W} _ _ _ _ _.
Arguments GetHash {W} _ _.
Arguments CanCreate {W} _.
Arguments ExtraValidator {W} _.
Arguments Coinbase {W} _.
Arguments GasLimit {W} _.
Arguments BlockNumber {W} _.
Arguments Time {W} _.
Arguments Difficulty {W} _.
Arguments BaseFee {W} _.
Arguments Origin {W} _.
Arguments GasPrice {W} _.
Arguments NoRecursion {W} _.
Arguments EnablePreimageRecording {W} _.
Arguments precompile {W} _ _.
Arguments keccak256 {W} _ _.
Arguments cache_Get {W} _ _.

(** ** State *)

(** The parts of [EVM] and [EVMInterpreter] that change, and the analyses
    shared by the contracts of one call tree. *)
Record EVM (W : Type) := mk_EVM {
  db : W; depth : Z; callGasTemp : Z; readOnly : bool; returnData : bytes; jumpdests : jumpmap
}.
Arguments mk_EVM {W} _ _ _ _ _ _.
Arguments db {W} _.
Arguments depth {W} _.
Arguments callGasTemp {W} _.
Arguments readOnly {W} _.
Arguments returnData {W} _.
Arguments jumpdests {W} _.

(** [ScopeContext] with the program counter and the machine. *)
Record frame (W : Type) := mk_frame {
  pc : Z; evm : EVM W; mem : Memory; stack : list Z; contract : Contract
}.
Arguments mk_frame {W} _ _ _ _ _.
Arguments pc {W} _.
Arguments evm {W} _.
Arguments mem {W} _.
Arguments stack {W} _.
Arguments contract {W} _.

(** The result of running another frame: returned data, gas left, error. *)
Definition callres : Type := bytes * Z * option evm_err.

(** [evm.Call] and the like, called from a contract. *)
Record Calls (W : Type) := mk_Calls {
  Call : Contract → Z → bytes → Z → Z → st (EVM W) Empty_set callres;
  CallCode : Contract → Z → bytes → Z → Z → st (EVM W) Empty_set callres;
  DelegateCall : Contract → Z → bytes → Z → st (EVM W) Empty_set callres;
  StaticCall : Contract → Z → bytes → Z → st (EVM W) Empty_set callres;
  Create : Contract → bytes → Z → Z → st (EVM W) Empty_set (callres * Z);
  Create2 : Contract → bytes → Z → Z → Z → st (EVM W) Empty_set (callres * Z)
}.
Arguments Call {W} _ _ _ _ _ _.
Arguments CallCode {W} _ _ _ _ _ _.
Arguments DelegateCall {W} _ _ _ _ _.
Arguments StaticCall {W} _ _ _ _ _.
Arguments Create {W} _ _ _ _ _.
Arguments Create2 {W} _ _ _ _ _ _.

Section machine.
Context {W : Type} `{Uint256, StateDB W} (env : Env W).
Abbreviation F := (st (frame W) evm_err).

Definition emptyCodeHash : Z := keccak256 env [].

Definition set_pc (x : Z) : F unit := st_modify (λ f, mk_frame x (evm f) (mem f) (stack f) (contract f)).
Definition set_evm (x : EVM W) : F unit := st_modify (λ f, mk_frame (pc f) x (mem f) (stack f) (contract f)).
Definition set_mem (x : Memory) : F unit := st_modify (λ f, mk_frame (pc f) (evm f) x (stack f) (contract f)).
Definition set_stack (x : list Z) : F unit := st_modify (λ f, mk_frame (pc f) (evm f) (mem f) x (contract f)).
Definition set_contract (x : Contract) : F unit := st_modify (λ f, mk_frame (pc f) (evm f) (mem f) (stack f) x).

Definition set_db (w : W) : F unit := st_modify (λ f,
  mk_frame (pc f) (mk_EVM w (depth (evm f)) (callGasTemp (evm f)) (readOnly (evm f)) (returnData (evm f))
    (jumpdests (evm f))) (mem f) (stack f) (contract f)).
Definition set_callGasTemp (g : Z) : F unit := st_modify (λ f,
  mk_frame (pc f) (mk_EVM (db (evm f)) (depth (evm f)) g (readOnly (evm f)) (returnData (evm f))
    (jumpdests (evm f))) (mem f) (stack f) (contract f)).
Definition set_returnData (r : bytes) : F unit := st_modify (λ f,
  mk_frame (pc f) (mk_EVM (db (evm f)) (depth (evm f)) (callGasTemp (evm f)) (readOnly (evm f)) r
    (jumpdests (evm f))) (mem f) (stack f) (contract f)).
Definition set_jumpdests (j : jumpmap) : F unit := st_modify (λ f,
  mk_frame (pc f) (mk_EVM (db (evm f)) (depth (evm f)) (callGasTemp (evm f)) (readOnly (evm f)) (returnData (evm f))
    j) (mem f) (stack f) (contract f)).

Definition get_db : F W := f ← st_get; mret (db (evm f)).
Definition get_pc : F Z := f ← st_get; mret (pc f).
Definition get_contract : F Contract := f ← st_get; mret (contract f).
Definition get_mem : F Memory := f ← st_get; mret (mem f).
Definition get_evm : F (EVM W) := f ← st_get; mret (evm f).

(** A computation on the memory, the database, or another machine. *)
Definition lift_mem {A} (m : st Memory evm_err A) : F A := λ f,
  let '(m', r) := m (mem f) in (mk_frame (pc f) (evm f) m' (stack f) (contract f), r).
Definition lift_call {A} (m : st (EVM W) Empty_set A) : F A := λ f,
  let '(e', r) := m (evm f) in
  (mk_frame (pc f) e' (mem f) (stack f) (contract f),
   match r with
   | Ok a => Ok a
   | Err e => match e with end
   | Panic p => Panic p
   | OutOfFuel => OutOfFuel
   end).

(** ** The stack *)

Definition push (d : Z) : F unit := f ← st_get; set_stack (d :: stack f).
Definition pop : F Z :=
  f ← st_get;
  match stack f with
  | [] => st_panic runtime_error
  | x :: s => set_stack s ≫= λ _, mret x
  end.
(** [*st.peek() = v]; reading through [peek] is [Back 0]. *)
Definition set_top (v : Z) : F unit :=
  f ← st_get;
  match stack f with
  | [] => st_panic runtime_error
  | _ :: s => set_stack (v :: s)
  end.
Definition Back (n : nat) : F Z :=
  f ← st_get;
  match stack f !! n with Some x => mret x | None => st_panic runtime_error end.
Definition peek : F Z := Back 0.
Definition dup (n : nat) : F unit :=
  f ← st_get;
  match stack f !! (n - 1)%nat with Some x => push x | None => st_panic runtime_error end.
Definition swap (n : nat) : F unit :=
  f ← st_get;
  match stack f !! (n - 1)%nat, stack f !! 0%nat with
  | Some y, Some x => set_stack (<[0%nat := y]> (<[(n - 1)%nat := x]> (stack f)))
  | _, _ => st_panic runtime_error
  end.

(** ** Arithmetic, comparison and bit operations *)

Definition set_bool (b : bool) : F bytes := set_top (if b then 1 else 0) ≫= λ _, mret [].
Definition binop (g : Z → Z → Z) : F bytes := x ← pop; y ← peek; set_top (g x y) ≫= λ _, mret [].

Definition opAdd : F bytes := binop u_Add.
Definition opSub : F bytes := binop u_Sub.
Definition opMul : F bytes := binop u_Mul.
Definition opDiv : F bytes := binop u_Div.
Definition opSdiv : F bytes := binop u_SDiv.
Definition opMod : F bytes := binop u_Mod.
Definition opSmod : F bytes := binop u_SMod.
Definition opExp : F bytes := binop u_Exp.
Definition opSignExtend : F bytes := back ← pop; num ← peek; set_top (u_ExtendSign num back) ≫= λ _, mret [].
Definition opNot : F bytes := x ← peek; set_top (u_Not x) ≫= λ _, mret [].
Definition opLt : F bytes := x ← pop; y ← peek; set_bool (x <? y).
Definition opGt : F bytes := x ← pop; y ← peek; set_bool (y <? x).
Definition opSlt : F bytes := x ← pop; y ← peek; set_bool (u_Slt x y).
Definition opSgt : F bytes := x ← pop; y ← peek; set_bool (u_Sgt x y).
Definition opEq : F bytes := x ← pop; y ← peek; set_bool (x =? y).
Definition opIszero : F bytes := x ← peek; set_bool (x =? 0).
Definition opAnd : F bytes := binop Z.land.
Definition opOr : F bytes := binop Z.lor.
Definition opXor : F bytes := binop Z.lxor.
Definition opByte : F bytes := th ← pop; val ← peek; set_top (u_Byte val th) ≫= λ _, mret [].
Definition opAddmod : F bytes :=
  x ← pop; y ← pop; z ← peek;
  set_top (if z =? 0 then 0 else u_AddMod x y z) ≫= λ _, mret [].
Definition opMulmod : F bytes :=
  x ← pop; y ← pop; z ← peek; set_top (u_MulMod x y z) ≫= λ _, mret [].
Definition opSHL : F bytes :=
  shift ← pop; value ← peek;
  set_top (if shift <? 256 then u_Lsh value (Uint64 shift) else 0) ≫= λ _, mret [].
Definition opSHR : F bytes :=
  shift ← pop; value ← peek;
  set_top (if shift <? 256 then u_Rsh value (Uint64 shift) else 0) ≫= λ _, mret [].
Definition opSAR : F bytes :=
  shift ← pop; value ← peek;
  set_top (if 256 <? shift then (if value <? 2 ^ 255 then 0 else 2 ^ 256 - 1)
           else u_SRsh value (Uint64 shift)) ≫= λ _, mret [].

(** ** Hashing and environment *)

(** [common.Address(x.Bytes20())] *)
Definition Bytes20 (x : Z) : Z := x mod 2 ^ 160.
(** [uint256.Int.ToBig]: the word as a non-negative [big.Int]. *)
Definition ToBig (x : Z) : Z := u256 x.

Definition opSha3 : F bytes :=
  offset ← pop; size ← peek;
  m ← get_mem;
  data ← st_lift (mem_GetPtr m (int64 (Uint64 offset)) (int64 (Uint64 size)));
  let h := keccak256 env data in
  w ← get_db;
  (if EnablePreimageRecording env then set_db (AddPreimage h data w) else mret tt) ≫= λ _,
  set_top (u256 h) ≫= λ _, mret [].
Definition opAddress : F bytes := c ← get_contract; push (self c) ≫= λ _, mret [].
Definition opBalance : F bytes :=
  slot ← peek; w ← get_db; set_top (u256 (GetBalance w (Bytes20 slot))) ≫= λ _, mret [].
Definition opOrigin : F bytes := push (Origin env) ≫= λ _, mret [].
Definition opCaller : F bytes := c ← get_contract; push (CallerAddress c) ≫= λ _, mret [].
Definition opCallValue : F bytes := c ← get_contract; push (u256 (value c)) ≫= λ _, mret [].
Definition opCallDataLoad : F bytes :=
  x ← peek; c ← get_contract;
  let '(offset, overflow) := Uint64WithOverflow x in
  if negb overflow then
    data ← st_lift (getData (Input c) offset 32);
    set_top (be_val data) ≫= λ _, mret []
  else set_top 0 ≫= λ _, mret [].
Definition opCallDataSize : F bytes := c ← get_contract; push (len (Input c)) ≫= λ _, mret [].

(** [scope.Memory.Set]. *)
Definition memory_Set (offset size : Z) (v : bytes) : F unit :=
  m ← get_mem; m' ← st_lift (mem_Set m offset size v); set_mem m'.

(** The offset into the source of a copy: everything above 64 bits is the end. *)
Definition copy_offset (x : Z) : Z :=
  let '(o, overflow) := Uint64WithOverflow x in if overflow then MaxUint64 else o.

Definition opCallDataCopy : F bytes :=
  memOffset ← pop; dataOffset ← pop; length ← pop; c ← get_contract;
  data ← st_lift (getData (Input c) (copy_offset dataOffset) (Uint64 length));
  memory_Set (Uint64 memOffset) (Uint64 length) data ≫= λ _, mret [].
Definition opReturnDataSize : F bytes := e ← get_evm; push (len (returnData e)) ≫= λ _, mret [].
Definition opReturnDataCopy : F bytes :=
  memOffset ← pop; dataOffset ← pop; length ← pop; e ← get_evm;
  let '(offset64, overflow) := Uint64WithOverflow dataOffset in
  if overflow then st_err ErrReturnDataOutOfBounds else
  let '(end64, overflow) := Uint64WithOverflow (u_Add dataOffset length) in
  if overflow || (len (returnData e) <? end64) then st_err ErrReturnDataOutOfBounds else
  data ← st_lift (go_slice (returnData e) offset64 end64);
  memory_Set (Uint64 memOffset) (Uint64 length) data ≫= λ _, mret [].
Definition opExtCodeSize : F bytes :=
  slot ← peek; w ← get_db; set_top (u64 (GetCodeSize w (Bytes20 slot))) ≫= λ _, mret [].
Definition opCodeSize : F bytes := c ← get_contract; push (len (Code c)) ≫= λ _, mret [].
Definition opCodeCopy : F bytes :=
  memOffset ← pop; codeOffset ← pop; length ← pop; c ← get_contract;
  data ← st_lift (getData (Code c) (copy_offset codeOffset) (Uint64 length));
  memory_Set (Uint64 memOffset) (Uint64 length) data ≫= λ _, mret [].
Definition opExtCodeCopy : F bytes :=
  a ← pop; memOffset ← pop; codeOffset ← pop; length ← pop; w ← get_db;
  data ← st_lift (getData (GetCode w (Bytes20 a)) (copy_offset codeOffset) (Uint64 length));
  memory_Set (Uint64 memOffset) (Uint64 length) data ≫= λ _, mret [].
Definition opExtCodeHash : F bytes :=
  slot ← peek; w ← get_db;
  set_top (if Empty w (Bytes20 slot) then 0 else u256 (GetCodeHash w (Bytes20 slot))) ≫= λ _, mret [].
Definition opGasprice : F bytes := push (u256 (GasPrice env)) ≫= λ _, mret [].
Definition opBlockhash : F bytes :=
  num ← peek;
  let '(num64, overflow) := Uint64WithOverflow num in
  if overflow then set_top 0 ≫= λ _, mret [] else
  let upper := u64 (BlockNumber env) in
  let lower := if upper <? 257 then 0 else upper - 256 in
  set_top (if (lower <=? num64) && (num64 <? upper) then u256 (GetHash env num64) else 0) ≫= λ _, mret [].
Definition opCoinbase : F bytes := push (Coinbase env) ≫= λ _, mret [].
Definition opTimestamp : F bytes := push (u256 (Time env)) ≫= λ _, mret [].
Definition opNumber : F bytes := push (u256 (BlockNumber env)) ≫= λ _, mret [].
Definition opDifficulty : F bytes := push (u256 (Difficulty env)) ≫= λ _, mret [].
Definition opGasLimit : F bytes := push (GasLimit env) ≫= λ _, mret [].
Definition opChainID : F bytes := push (u256 (ChainID env)) ≫= λ _, mret [].
Definition opSelfBalance : F bytes :=
  c ← get_contract; w ← get_db; push (u256 (GetBalance w (self c))) ≫= λ _, mret [].
(** [uint256.FromBig] of a nil base fee dereferences it. *)
Definition opBaseFee : F bytes :=
  match BaseFee env with
  | Some baseFee => push (u256 baseFee) ≫= λ _, mret []
  | None => st_panic runtime_error
  end.

(** ** Stack, memory, storage and flow *)

Definition opPop : F bytes := _ ← pop; mret [].
Definition opMload : F bytes :=
  v ← peek; m ← get_mem;
  data ← st_lift (mem_GetPtr m (int64 (Uint64 v)) 32);
  set_top (be_val data) ≫= λ _, mret [].
Definition opMstore : F bytes :=
  mStart ← pop; val ← pop; m ← get_mem;
  m' ← st_lift (mem_Set32 m (Uint64 mStart) val);
  set_mem m' ≫= λ _, mret [].
Definition opMstore8 : F bytes :=
  off ← pop; val ← pop; m ← get_mem;
  s ← st_lift (go_set (store m) (Uint64 off) (u8 (Uint64 val)));
  set_mem (mk_Memory s (lastGasCost m)) ≫= λ _, mret [].
Definition opSload : F bytes :=
  loc ← peek; c ← get_contract; w ← get_db; set_top (u256 (GetState w (self c) loc)) ≫= λ _, mret [].
Definition opSstore : F bytes :=
  loc ← pop; val ← pop; c ← get_contract; w ← get_db;
  set_db (SetState (self c) loc val w) ≫= λ _, mret [].

(** [scope.Contract.validJumpdest]. *)
Definition check_jump (pos : Z) : F bool := λ f,
  match validJumpdest emptyCodeHash (cache_Get env) (contract f) (jumpdests (evm f)) pos with
  | Ok (b, c, j) => (set_contract c ≫= λ _, set_jumpdests j ≫= λ _, mret b) f
  | Err _ => (f, Panic runtime_error)
  | Panic p => (f, Panic p)
  | OutOfFuel => (f, OutOfFuel)
  end.

Definition opJump : F bytes :=
  pos ← pop;
  ok ← check_jump pos;
  if negb ok then st_err ErrInvalidJump else set_pc (Uint64 pos) ≫= λ _, mret [].
Definition opJumpi : F bytes :=
  pos ← pop; cond ← pop;
  if negb (cond =? 0) then
    ok ← check_jump pos;
    if negb ok then st_err ErrInvalidJump else set_pc (Uint64 pos) ≫= λ _, mret []
  else p ← get_pc; set_pc (u64 (p + 1)) ≫= λ _, mret [].
Definition opJumpdest : F bytes := mret [].
Definition opPc : F bytes := p ← get_pc; push p ≫= λ _, mret [].
Definition opMsize : F bytes := m ← get_mem; push (mem_Len m) ≫= λ _, mret [].
Definition opGas : F bytes := c ← get_contract; push (Gas c) ≫= λ _, mret [].

Definition opPush1 : F bytes :=
  p ← get_pc; c ← get_contract;
  let p := u64 (p + 1) in
  set_pc p ≫= λ _,
  push (if p <? len (Code c) then nth (Z.to_nat p) (Code c) 0 else 0) ≫= λ _, mret [].

(** [makePush(size, pushByteSize)]; [pc+1] is converted to a signed integer. *)
Definition makePush (size pushByteSize : Z) : F bytes :=
  p ← get_pc; c ← get_contract;
  let codeLen := len (Code c) in
  let p1 := int64 (u64 (p + 1)) in
  let startMin := if p1 <? codeLen then p1 else codeLen in
  let endMin := if startMin + pushByteSize <? codeLen then startMin + pushByteSize else codeLen in
  d ← st_lift (go_slice (Code c) startMin endMin);
  push (be_val (RightPadBytes d pushByteSize)) ≫= λ _,
  set_pc (u64 (p + size)) ≫= λ _, mret [].
Definition makeDup (size : nat) : F bytes := dup size ≫= λ _, mret [].
Definition makeSwap (size : nat) : F bytes := swap (size + 1) ≫= λ _, mret [].

Definition opReturn : F bytes :=
  offset ← pop; size ← pop; m ← get_mem;
  st_lift (mem_GetPtr m (int64 (Uint64 offset)) (int64 (Uint64 size))).
Definition opRevert : F bytes := opReturn.
Definition opStop : F bytes := mret [].
Definition opSuicide : F bytes :=
  beneficiary ← pop; c ← get_contract; w ← get_db;
  let balance := GetBalance w (self c) in
  let w := AddBalance (Bytes20 beneficiary) balance w in
  set_db (Suicide (self c) w) ≫= λ _, mret [].

Fixpoint pop_topics (n : nat) : F (list Z) :=
  match n with
  | O => mret []
  | S n => t ← pop; ts ← pop_topics n; mret (t :: ts)
  end.
Definition makeLog (size : nat) : F bytes :=
  mStart ← pop; mSize ← pop; topics ← pop_topics size; m ← get_mem; c ← get_contract;
  d ← st_lift (mem_GetCopy m (int64 (Uint64 mStart)) (int64 (Uint64 mSize)));
  match ExtraValidator env with
  | Some v => if IsLogDenied v (self c) topics d then st_err ErrAddressDenied
              else w ← get_db; set_db (AddLog (self c) topics d w) ≫= λ _, mret []
  | None => w ← get_db; set_db (AddLog (self c) topics d w) ≫= λ _, mret []
  end.

(** ** Calls and creation *)

Definition CallStipend : Z := 2300.

(** [scope.Contract.Gas += returnGas]. *)
Definition add_gas (g : Z) : F unit := c ← get_contract; set_contract (set_Gas (u64 (Gas c + g)) c).

Definition is_err (err : option evm_err) : bool := match err with Some _ => true | None => false end.
Definition is_reverted (err : option evm_err) : bool := bool_decide (err = Some ErrExecutionReverted).

(** What every call instruction does with the result. *)
Definition finish_call (retOffset retSize : Z) (r : callres) : F bytes :=
  let '(ret, returnGas, err) := r in
  push (if is_err err then 0 else 1) ≫= λ _,
  (if negb (is_err err) || is_reverted err
   then memory_Set (Uint64 retOffset) (Uint64 retSize) ret else mret tt) ≫= λ _,
  add_gas returnGas ≫= λ _, mret ret.

Definition call_args (inOffset inSize : Z) : F bytes :=
  m ← get_mem; st_lift (mem_GetPtr m (int64 (Uint64 inOffset)) (int64 (Uint64 inSize))).

(** The gas of a call with a value: [gas += params.CallStipend]. *)
(** The amount of a call or a creation: [big0] or the word. *)
Definition bigVal (value : Z) : Z := if negb (value =? 0) then ToBig value else 0.
Definition stipend (gas value : Z) : Z := if negb (value =? 0) then u64 (gas + CallStipend) else gas.

Definition opCall (calls : Calls W) : F bytes :=
  _ ← pop; e ← get_evm; let gas := callGasTemp e in
  addr ← pop; value ← pop; inOffset ← pop; inSize ← pop; retOffset ← pop; retSize ← pop;
  args ← call_args inOffset inSize;
  c ← get_contract;
  r ← lift_call (Call calls c (Bytes20 addr) args (stipend gas value) (bigVal value));
  finish_call retOffset retSize r.
Definition opCallCode (calls : Calls W) : F bytes :=
  _ ← pop; e ← get_evm; let gas := callGasTemp e in
  addr ← pop; value ← pop; inOffset ← pop; inSize ← pop; retOffset ← pop; retSize ← pop;
  args ← call_args inOffset inSize;
  c ← get_contract;
  r ← lift_call (CallCode calls c (Bytes20 addr) args (stipend gas value) (bigVal value));
  finish_call retOffset retSize r.
Definition opDelegateCall (calls : Calls W) : F bytes :=
  _ ← pop; e ← get_evm; let gas := callGasTemp e in
  addr ← pop; inOffset ← pop; inSize ← pop; retOffset ← pop; retSize ← pop;
  args ← call_args inOffset inSize;
  c ← get_contract;
  r ← lift_call (DelegateCall calls c (Bytes20 addr) args gas);
  finish_call retOffset retSize r.
Definition opStaticCall (calls : Calls W) : F bytes :=
  _ ← pop; e ← get_evm; let gas := callGasTemp e in
  addr ← pop; inOffset ← pop; inSize ← pop; retOffset ← pop; retSize ← pop;
  args ← call_args inOffset inSize;
  c ← get_contract;
  r ← lift_call (StaticCall calls c (Bytes20 addr) args gas);
  finish_call retOffset retSize r.

(** [scope.Contract.UseGas(gas)], its result ignored. *)
Definition use_gas (gas : Z) : F bool :=
  c ← get_contract; let '(ok, c) := UseGas gas c in set_contract c ≫= λ _, mret ok.

Definition create_args (offset size : Z) : F bytes :=
  m ← get_mem; st_lift (mem_GetCopy m (int64 (Uint64 offset)) (int64 (Uint64 size))).

Definition opCreate (calls : Calls W) : F bytes :=
  value ← pop; offset ← pop; size ← pop;
  input ← create_args offset size;
  c ← get_contract;
  let gas := if IsEIP150 (chainRules env) then u64 (Gas c - Gas c / 64) else Gas c in
  _ ← use_gas gas;
  c ← get_contract;
  '(res, returnGas, suberr, addr) ← lift_call (Create calls c input gas (bigVal value));
  push (if IsHomestead (chainRules env) && bool_decide (suberr = Some ErrCodeStoreOutOfGas) then 0
        else if is_err suberr && negb (bool_decide (suberr = Some ErrCodeStoreOutOfGas)) then 0
        else addr) ≫= λ _,
  add_gas returnGas ≫= λ _,
  mret (if is_reverted suberr then res else []).
Definition opCreate2 (calls : Calls W) : F bytes :=
  endowment ← pop; offset ← pop; size ← pop; salt ← pop;
  input ← create_args offset size;
  c ← get_contract;
  let gas := u64 (Gas c - Gas c / 64) in
  _ ← use_gas gas;
  c ← get_contract;
  '(res, returnGas, suberr, addr) ← lift_call (Create2 calls c input gas (bigVal endowment) salt);
  push (if is_err suberr then 0 else addr) ≫= λ _,
  add_gas returnGas ≫= λ _,
  mret (if is_reverted suberr then res else []).

End machine.
