(* ===== verification/EvmGas.v ===== *)
(** * Memory sizes and gas of instructions (src/geth/core/vm/memory_table.go,
    gas_table.go, operations_acl.go; constants of src/geth/params/protocol_params.go)

    A gas function may change the frame: it remembers the memory fee, adds
    refunds, fills the access list and reserves the gas of a call.  Every error
    of a gas function ends the frame, as the interpreter turns it into
    [ErrOutOfGas]. *)
From stdpp Require Import gmap.
From S2P Require Import Prelude EvmAnalysis EvmBase EvmMachine.

(** ** Constants *)

Definition CallValueTransferGas : Z := 9000.
Definition CallNewAccountGas : Z := 25000.
Definition LogDataGas : Z := 8.
Definition LogGas : Z := 375.
Definition LogTopicGas : Z := 375.
Definition CopyGas : Z := 3.
Definition Sha3WordGas : Z := 6.
Definition SstoreSetGas : Z := 20000.
Definition SstoreResetGas : Z := 5000.
Definition SstoreClearGas : Z := 5000.
Definition SstoreRefundGas : Z := 15000.
Definition NetSstoreNoopGas : Z := 200.
Definition NetSstoreInitGas : Z := 20000.
Definition NetSstoreCleanGas : Z := 5000.
Definition NetSstoreDirtyGas : Z := 200.
Definition NetSstoreClearRefund : Z := 15000.
Definition NetSstoreResetRefund : Z := 4800.
Definition NetSstoreResetClearRefund : Z := 19800.
Definition SstoreSentryGasEIP2200 : Z := 2300.
Definition SstoreSetGasEIP2200 : Z := 20000.
Definition SstoreResetGasEIP2200 : Z := 5000.
Definition SstoreClearsScheduleRefundEIP2200 : Z := 15000.
Definition ColdAccountAccessCostEIP2929 : Z := 2600.
Definition ColdSloadCostEIP2929 : Z := 2100.
Definition WarmStorageReadCostEIP2929 : Z := 100.
Definition TxAccessListStorageKeyGas : Z := 1900.
Definition SstoreClearsScheduleRefundEIP3529 : Z :=
  SstoreResetGasEIP2200 - ColdSloadCostEIP2929 + TxAccessListStorageKeyGas.
Definition SloadGasEIP2200 : Z := 800.
Definition ExpGas : Z := 10.
Definition ExpByteFrontier : Z := 10.
Definition ExpByteEIP158 : Z := 50.
Definition SelfdestructGasEIP150 : Z := 5000.
Definition SelfdestructRefundGas : Z := 24000.
Definition CreateBySelfdestructGas : Z := 25000.

Section gas.
Context {W : Type} `{Uint256, StateDB W} (env : Env W).
Abbreviation F := (st (frame W) evm_err).

(** ** memory_table.go: the memory an instruction needs *)

Definition range (off l : nat) : F (Z * bool) := o ← Back off; n ← Back l; mret (calcMemSize64 o n).
Definition fixed (off : nat) (n : Z) : F (Z * bool) := o ← Back off; mret (calcMemSize64WithUint o n).
Definition larger (a b : F (Z * bool)) : F (Z * bool) :=
  '(x, overflow) ← a;
  if overflow : bool then mret (0, true) else
  '(y, overflow) ← b;
  if overflow : bool then mret (0, true) else
  mret (if y <? x then x else y, false).

Definition memorySha3 : F (Z * bool) := range 0 1.
Definition memoryCallDataCopy : F (Z * bool) := range 0 2.
Definition memoryReturnDataCopy : F (Z * bool) := range 0 2.
Definition memoryCodeCopy : F (Z * bool) := range 0 2.
Definition memoryExtCodeCopy : F (Z * bool) := range 1 3.
Definition memoryMLoad : F (Z * bool) := fixed 0 32.
Definition memoryMStore8 : F (Z * bool) := fixed 0 1.
Definition memoryMStore : F (Z * bool) := fixed 0 32.
Definition memoryCreate : F (Z * bool) := range 1 2.
Definition memoryCreate2 : F (Z * bool) := range 1 2.
Definition memoryCall : F (Z * bool) := larger (range 5 6) (range 3 4).
Definition memoryDelegateCall : F (Z * bool) := larger (range 4 5) (range 2 3).
Definition memoryStaticCall : F (Z * bool) := larger (range 4 5) (range 2 3).
Definition memoryReturn : F (Z * bool) := range 0 1.
Definition memoryRevert : F (Z * bool) := range 0 1.
Definition memoryLog : F (Z * bool) := range 0 1.

(** ** gas_table.go *)

Definition gasFunc : Type := Z → F Z.

(** [if v, overflow = f; overflow { return 0, ErrGasUintOverflow }]. *)
Definition checked (r : Z * bool) : F Z :=
  if snd r then st_err ErrGasUintOverflow else mret (fst r).

Definition memory_gas (memorySize : Z) : F Z := lift_mem (memoryGasCost memorySize).

Definition pureMemoryGascost : gasFunc := λ memorySize, memory_gas memorySize.
Definition gasReturn : gasFunc := pureMemoryGascost.
Definition gasRevert : gasFunc := pureMemoryGascost.
Definition gasMLoad : gasFunc := pureMemoryGascost.
Definition gasMStore8 : gasFunc := pureMemoryGascost.
Definition gasMStore : gasFunc := pureMemoryGascost.
Definition gasCreate : gasFunc := pureMemoryGascost.

Definition memoryCopierGas (stackpos : nat) : gasFunc := λ memorySize,
  gas ← memory_gas memorySize;
  l ← Back stackpos;
  words ← checked (Uint64WithOverflow l);
  words ← checked (SafeMul (toWordSize words) CopyGas);
  checked (SafeAdd gas words).
Definition gasCallDataCopy : gasFunc := memoryCopierGas 2.
Definition gasCodeCopy : gasFunc := memoryCopierGas 2.
Definition gasExtCodeCopy : gasFunc := memoryCopierGas 3.
Definition gasReturnDataCopy : gasFunc := memoryCopierGas 2.

Definition add_refund (g : Z) : F unit := w ← get_db; set_db (AddRefund g w).
Definition sub_refund (g : Z) : F unit := w ← get_db; w' ← st_lift (SubRefund g w); set_db w'.

Definition gasSStore : gasFunc := λ _,
  y ← Back 1; x ← Back 0; c ← get_contract; w ← get_db;
  let current := GetState w (self c) x in
  if IsPetersburg (chainRules env) || negb (IsConstantinople (chainRules env)) then
    if (current =? 0) && negb (y =? 0) then mret SstoreSetGas
    else if negb (current =? 0) && (y =? 0) then add_refund SstoreRefundGas ≫= λ _, mret SstoreClearGas
    else mret SstoreResetGas
  else
    if current =? y then mret NetSstoreNoopGas else
    let original := GetCommittedState w (self c) x in
    if original =? current then
      if original =? 0 then mret NetSstoreInitGas else
      (if y =? 0 then add_refund NetSstoreClearRefund else mret tt) ≫= λ _,
      mret NetSstoreCleanGas
    else
      (if negb (original =? 0) then
         if current =? 0 then sub_refund NetSstoreClearRefund
         else if y =? 0 then add_refund NetSstoreClearRefund else mret tt
       else mret tt) ≫= λ _,
      (if original =? y then
         if original =? 0 then add_refund NetSstoreResetClearRefund
         else add_refund NetSstoreResetRefund
       else mret tt) ≫= λ _,
      mret NetSstoreDirtyGas.

Definition gasSStoreEIP2200 : gasFunc := λ _,
  c ← get_contract;
  if Gas c <=? SstoreSentryGasEIP2200 then st_err ErrSentryGas else
  y ← Back 1; x ← Back 0; w ← get_db;
  let current := GetState w (self c) x in
  if current =? y then mret SloadGasEIP2200 else
  let original := GetCommittedState w (self c) x in
  if original =? current then
    if original =? 0 then mret SstoreSetGasEIP2200 else
    (if y =? 0 then add_refund SstoreClearsScheduleRefundEIP2200 else mret tt) ≫= λ _,
    mret SstoreResetGasEIP2200
  else
    (if negb (original =? 0) then
       if current =? 0 then sub_refund SstoreClearsScheduleRefundEIP2200
       else if y =? 0 then add_refund SstoreClearsScheduleRefundEIP2200 else mret tt
     else mret tt) ≫= λ _,
    (if original =? y then
       if original =? 0 then add_refund (SstoreSetGasEIP2200 - SloadGasEIP2200)
       else add_refund (SstoreResetGasEIP2200 - SloadGasEIP2200)
     else mret tt) ≫= λ _,
    mret SloadGasEIP2200.

Definition makeGasLog (n : Z) : gasFunc := λ memorySize,
  l ← Back 1;
  requestedSize ← checked (Uint64WithOverflow l);
  gas ← memory_gas memorySize;
  gas ← checked (SafeAdd gas LogGas);
  gas ← checked (SafeAdd gas (u64 (n * LogTopicGas)));
  memorySizeGas ← checked (SafeMul requestedSize LogDataGas);
  checked (SafeAdd gas memorySizeGas).

(** The gas of hashing, with the length at [stackpos]. *)
Definition hashGas (stackpos : nat) : gasFunc := λ memorySize,
  gas ← memory_gas memorySize;
  l ← Back stackpos;
  wordGas ← checked (Uint64WithOverflow l);
  wordGas ← checked (SafeMul (toWordSize wordGas) Sha3WordGas);
  checked (SafeAdd gas wordGas).
Definition gasSha3 : gasFunc := hashGas 1.
Definition gasCreate2 : gasFunc := hashGas 2.

Definition BitLen (x : Z) : Z := if x =? 0 then 0 else Z.log2 x + 1.
Definition gasExp (byteGas : Z) : gasFunc := λ _,
  e ← Back 1;
  let expByteLen := u64 ((BitLen e + 7) / 8) in
  checked (SafeAdd (u64 (expByteLen * byteGas)) ExpGas).
Definition gasExpFrontier : gasFunc := gasExp ExpByteFrontier.
Definition gasExpEIP158 : gasFunc := gasExp ExpByteEIP158.

(** The end of the four call gas functions: reserve the gas of the call. *)
Definition reserve_call (gas : Z) : F Z :=
  c ← get_contract;
  callCost ← Back 0;
  match callGas (IsEIP150 (chainRules env)) (Gas c) gas callCost with
  | Ok g => set_callGasTemp g ≫= λ _, checked (SafeAdd gas g)
  | Err e => set_callGasTemp 0 ≫= λ _, st_err e
  | Panic p => st_panic p
  | OutOfFuel => st_lift OutOfFuel
  end.

Definition gasCall : gasFunc := λ memorySize,
  v ← Back 2; a ← Back 1; w ← get_db;
  let transfersValue := negb (v =? 0) in
  let gas := if IsEIP158 (chainRules env)
             then (if transfersValue && Empty w (Bytes20 a) then CallNewAccountGas else 0)
             else (if negb (Exist w (Bytes20 a)) then CallNewAccountGas else 0) in
  let gas := if transfersValue then u64 (gas + CallValueTransferGas) else gas in
  memoryGas ← memory_gas memorySize;
  gas ← checked (SafeAdd gas memoryGas);
  reserve_call gas.
Definition gasCallCode : gasFunc := λ memorySize,
  memoryGas ← memory_gas memorySize;
  v ← Back 2;
  gas ← checked (SafeAdd (if negb (v =? 0) then CallValueTransferGas else 0) memoryGas);
  reserve_call gas.
Definition gasDelegateCall : gasFunc := λ memorySize, gas ← memory_gas memorySize; reserve_call gas.
Definition gasStaticCall : gasFunc := λ memorySize, gas ← memory_gas memorySize; reserve_call gas.

Definition gasSelfdestruct : gasFunc := λ _,
  a ← Back 0; c ← get_contract; w ← get_db;
  let gas :=
    if IsEIP150 (chainRules env) then
      if IsEIP158 (chainRules env) then
        if Empty w (Bytes20 a) && negb (GetBalance w (self c) =? 0)
        then SelfdestructGasEIP150 + CreateBySelfdestructGas else SelfdestructGasEIP150
      else if negb (Exist w (Bytes20 a))
           then SelfdestructGasEIP150 + CreateBySelfdestructGas else SelfdestructGasEIP150
    else 0 in
  (if negb (HasSuicided w (self c)) then add_refund SelfdestructRefundGas else mret tt) ≫= λ _,
  mret gas.

(** ** operations_acl.go *)

Definition add_address (a : Z) : F unit := w ← get_db; set_db (AddAddressToAccessList a w).
Definition add_slot (a s : Z) : F unit := w ← get_db; set_db (AddSlotToAccessList a s w).

(** The message of the panic in [makeGasSStoreFunc]. *)
Definition address_not_present : panic :=
  raised "impossible case: address was not present in access list during sstore op".
(** The cold surcharge of SSTORE; the panic is the source's. *)
Definition sstore_cold (slot : Z) : F Z :=
  c ← get_contract; w ← get_db;
  let '(addrPresent, slotPresent) := SlotInAccessList w (self c) slot in
  if negb slotPresent then
    add_slot (self c) slot ≫= λ _,
    if negb addrPresent then st_panic address_not_present else mret ColdSloadCostEIP2929
  else mret 0.

Definition makeGasSStoreFunc (clearingRefund : Z) : gasFunc := λ _,
  c ← get_contract;
  if Gas c <=? SstoreSentryGasEIP2200 then st_err ErrSentryGas else
  y ← Back 1; x ← peek; w ← get_db;
  let current := GetState w (self c) x in
  cost ← sstore_cold x;
  if current =? y then mret (cost + WarmStorageReadCostEIP2929) else
  w ← get_db;
  let original := GetCommittedState w (self c) x in
  if original =? current then
    if original =? 0 then mret (cost + SstoreSetGasEIP2200) else
    (if y =? 0 then add_refund clearingRefund else mret tt) ≫= λ _,
    mret (cost + (SstoreResetGasEIP2200 - ColdSloadCostEIP2929))
  else
    (if negb (original =? 0) then
       if current =? 0 then sub_refund clearingRefund
       else if y =? 0 then add_refund clearingRefund else mret tt
     else mret tt) ≫= λ _,
    (if original =? y then
       if original =? 0 then add_refund (SstoreSetGasEIP2200 - WarmStorageReadCostEIP2929)
       else add_refund ((SstoreResetGasEIP2200 - ColdSloadCostEIP2929) - WarmStorageReadCostEIP2929)
     else mret tt) ≫= λ _,
    mret (cost + WarmStorageReadCostEIP2929).
Definition gasSStoreEIP2929 : gasFunc := makeGasSStoreFunc SstoreClearsScheduleRefundEIP2200.
Definition gasSStoreEIP3529 : gasFunc := makeGasSStoreFunc SstoreClearsScheduleRefundEIP3529.

Definition gasSLoadEIP2929 : gasFunc := λ _,
  loc ← peek; c ← get_contract; w ← get_db;
  if negb (snd (SlotInAccessList w (self c) loc)) then
    add_slot (self c) loc ≫= λ _, mret ColdSloadCostEIP2929
  else mret WarmStorageReadCostEIP2929.

Definition gasExtCodeCopyEIP2929 : gasFunc := λ memorySize,
  gas ← gasExtCodeCopy memorySize;
  a ← peek; w ← get_db;
  if negb (AddressInAccessList w (Bytes20 a)) then
    add_address (Bytes20 a) ≫= λ _,
    checked (SafeAdd gas (ColdAccountAccessCostEIP2929 - WarmStorageReadCostEIP2929))
  else mret gas.

Definition gasEip2929AccountCheck : gasFunc := λ _,
  a ← peek; w ← get_db;
  if negb (AddressInAccessList w (Bytes20 a)) then
    add_address (Bytes20 a) ≫= λ _, mret (ColdAccountAccessCostEIP2929 - WarmStorageReadCostEIP2929)
  else mret 0.

Definition makeCallVariantGasCallEIP2929 (oldCalculator : gasFunc) : gasFunc := λ memorySize,
  a ← Back 1; w ← get_db;
  let warmAccess := AddressInAccessList w (Bytes20 a) in
  let coldCost := ColdAccountAccessCostEIP2929 - WarmStorageReadCostEIP2929 in
  if negb warmAccess then
    add_address (Bytes20 a) ≫= λ _,
    ok ← use_gas coldCost;
    if negb ok then st_err ErrOutOfGas else
    gas ← oldCalculator memorySize;
    add_gas coldCost ≫= λ _,
    mret (u64 (gas + coldCost))
  else oldCalculator memorySize.
Definition gasCallEIP2929 : gasFunc := makeCallVariantGasCallEIP2929 gasCall.
Definition gasDelegateCallEIP2929 : gasFunc := makeCallVariantGasCallEIP2929 gasDelegateCall.
Definition gasStaticCallEIP2929 : gasFunc := makeCallVariantGasCallEIP2929 gasStaticCall.
Definition gasCallCodeEIP2929 : gasFunc := makeCallVariantGasCallEIP2929 gasCallCode.

Definition makeSelfdestructGasFn (refundsEnabled : bool) : gasFunc := λ _,
  a ← peek; c ← get_contract; w ← get_db;
  let cold := negb (AddressInAccessList w (Bytes20 a)) in
  (if cold then add_address (Bytes20 a) else mret tt) ≫= λ _,
  w ← get_db;
  let gas := if cold then ColdAccountAccessCostEIP2929 else 0 in
  let gas := if Empty w (Bytes20 a) && negb (GetBalance w (self c) =? 0)
             then gas + CreateBySelfdestructGas else gas in
  (if refundsEnabled && negb (HasSuicided w (self c)) then add_refund SelfdestructRefundGas else mret tt) ≫= λ _,
  mret gas.
Definition gasSelfdestructEIP2929 : gasFunc := makeSelfdestructGasFn true.
Definition gasSelfdestructEIP3529 : gasFunc := makeSelfdestructGasFn false.

End gas.
