(* ===== verification/EvmTable.v ===== *)
(** * Jump tables (src/geth/core/vm/jump_table.go, stack_table.go, eips.go,
    opcodes.go)

    The operations of every fork, with their gas, stack bounds and flags.  A
    table is an association list in which the first entry of an opcode counts,
    so that an assignment to an entry is a new first entry. *)
From stdpp Require Import gmap.
From S2P Require Import Prelude EvmAnalysis EvmBase EvmMachine EvmGas.

(** ** Opcodes *)

Module Op.
Definition STOP : Z := 0x0.
Definition ADD : Z := 0x1.
Definition MUL : Z := 0x2.
Definition SUB : Z := 0x3.
Definition DIV : Z := 0x4.
Definition SDIV : Z := 0x5.
Definition MOD : Z := 0x6.
Definition SMOD : Z := 0x7.
Definition ADDMOD : Z := 0x8.
Definition MULMOD : Z := 0x9.
Definition EXP : Z := 0xa.
Definition SIGNEXTEND : Z := 0xb.
Definition LT : Z := 0x10.
Definition GT : Z := 0x11.
Definition SLT : Z := 0x12.
Definition SGT : Z := 0x13.
Definition EQ : Z := 0x14.
Definition ISZERO : Z := 0x15.
Definition AND : Z := 0x16.
Definition OR : Z := 0x17.
Definition XOR : Z := 0x18.
Definition NOT : Z := 0x19.
Definition BYTE : Z := 0x1a.
Definition SHL : Z := 0x1b.
Definition SHR : Z := 0x1c.
Definition SAR : Z := 0x1d.
Definition SHA3 : Z := 0x20.
Definition ADDRESS : Z := 0x30.
Definition BALANCE : Z := 0x31.
Definition ORIGIN : Z := 0x32.
Definition CALLER : Z := 0x33.
Definition CALLVALUE : Z := 0x34.
Definition CALLDATALOAD : Z := 0x35.
Definition CALLDATASIZE : Z := 0x36.
Definition CALLDATACOPY : Z := 0x37.
Definition CODESIZE : Z := 0x38.
Definition CODECOPY : Z := 0x39.
Definition GASPRICE : Z := 0x3a.
Definition EXTCODESIZE : Z := 0x3b.
Definition EXTCODECOPY : Z := 0x3c.
Definition RETURNDATASIZE : Z := 0x3d.
Definition RETURNDATACOPY : Z := 0x3e.
Definition EXTCODEHASH : Z := 0x3f.
Definition BLOCKHASH : Z := 0x40.
Definition COINBASE : Z := 0x41.
Definition TIMESTAMP : Z := 0x42.
Definition NUMBER : Z := 0x43.
Definition DIFFICULTY : Z := 0x44.
Definition GASLIMIT : Z := 0x45.
Definition CHAINID : Z := 0x46.
Definition SELFBALANCE : Z := 0x47.
Definition BASEFEE : Z := 0x48.
Definition POP : Z := 0x50.
Definition MLOAD : Z := 0x51.
Definition MSTORE : Z := 0x52.
Definition MSTORE8 : Z := 0x53.
Definition SLOAD : Z := 0x54.
Definition SSTORE : Z := 0x55.
Definition JUMP : Z := 0x56.
Definition JUMPI : Z := 0x57.
Definition PC : Z := 0x58.
Definition MSIZE : Z := 0x59.
Definition GAS : Z := 0x5a.
Definition JUMPDEST : Z := 0x5b.
Definition PUSH1 : Z := 0x60.
Definition PUSH2 : Z := 0x61.
Definition PUSH3 : Z := 0x62.
Definition PUSH4 : Z := 0x63.
Definition PUSH5 : Z := 0x64.
Definition PUSH6 : Z := 0x65.
Definition PUSH7 : Z := 0x66.
Definition PUSH8 : Z := 0x67.
Definition PUSH9 : Z := 0x68.
Definition PUSH10 : Z := 0x69.
Definition PUSH11 : Z := 0x6a.
Definition PUSH12 : Z := 0x6b.
Definition PUSH13 : Z := 0x6c.
Definition PUSH14 : Z := 0x6d.
Definition PUSH15 : Z := 0x6e.
Definition PUSH16 : Z := 0x6f.
Definition PUSH17 : Z := 0x70.
Definition PUSH18 : Z := 0x71.
Definition PUSH19 : Z := 0x72.
Definition PUSH20 : Z := 0x73.
Definition PUSH21 : Z := 0x74.
Definition PUSH22 : Z := 0x75.
Definition PUSH23 : Z := 0x76.
Definition PUSH24 : Z := 0x77.
Definition PUSH25 : Z := 0x78.
Definition PUSH26 : Z := 0x79.
Definition PUSH27 : Z := 0x7a.
Definition PUSH28 : Z := 0x7b.
Definition PUSH29 : Z := 0x7c.
Definition PUSH30 : Z := 0x7d.
Definition PUSH31 : Z := 0x7e.
Definition PUSH32 : Z := 0x7f.
Definition DUP1 : Z := 0x80.
Definition DUP2 : Z := 0x81.
Definition DUP3 : Z := 0x82.
Definition DUP4 : Z := 0x83.
Definition DUP5 : Z := 0x84.
Definition DUP6 : Z := 0x85.
Definition DUP7 : Z := 0x86.
Definition DUP8 : Z := 0x87.
Definition DUP9 : Z := 0x88.
Definition DUP10 : Z := 0x89.
Definition DUP11 : Z := 0x8a.
Definition DUP12 : Z := 0x8b.
Definition DUP13 : Z := 0x8c.
Definition DUP14 : Z := 0x8d.
Definition DUP15 : Z := 0x8e.
Definition DUP16 : Z := 0x8f.
Definition SWAP1 : Z := 0x90.
Definition SWAP2 : Z := 0x91.
Definition SWAP3 : Z := 0x92.
Definition SWAP4 : Z := 0x93.
Definition SWAP5 : Z := 0x94.
Definition SWAP6 : Z := 0x95.
Definition SWAP7 : Z := 0x96.
Definition SWAP8 : Z := 0x97.
Definition SWAP9 : Z := 0x98.
Definition SWAP10 : Z := 0x99.
Definition SWAP11 : Z := 0x9a.
Definition SWAP12 : Z := 0x9b.
Definition SWAP13 : Z := 0x9c.
Definition SWAP14 : Z := 0x9d.
Definition SWAP15 : Z := 0x9e.
Definition SWAP16 : Z := 0x9f.
Definition LOG0 : Z := 0xa0.
Definition LOG1 : Z := 0xa1.
Definition LOG2 : Z := 0xa2.
Definition LOG3 : Z := 0xa3.
Definition LOG4 : Z := 0xa4.
Definition CREATE : Z := 0xf0.
Definition CALL : Z := 0xf1.
Definition CALLCODE : Z := 0xf2.
Definition RETURN : Z := 0xf3.
Definition DELEGATECALL : Z := 0xf4.
Definition CREATE2 : Z := 0xf5.
Definition STATICCALL : Z := 0xfa.
Definition REVERT : Z := 0xfd.
Definition SELFDESTRUCT : Z := 0xff.
End Op.

(** ** Constants *)

Definition GasQuickStep : Z := 2.
Definition GasFastestStep : Z := 3.
Definition GasFastStep : Z := 5.
Definition GasMidStep : Z := 8.
Definition GasSlowStep : Z := 10.
Definition GasExtStep : Z := 20.
Definition Sha3Gas : Z := 30.
Definition JumpdestGas : Z := 1.
Definition CreateGas : Z := 32000.
Definition Create2Gas : Z := 32000.
Definition CallGasFrontier : Z := 40.
Definition CallGasEIP150 : Z := 700.
Definition BalanceGasFrontier : Z := 20.
Definition BalanceGasEIP150 : Z := 400.
Definition BalanceGasEIP1884 : Z := 700.
Definition ExtcodeSizeGasFrontier : Z := 20.
Definition ExtcodeSizeGasEIP150 : Z := 700.
Definition SloadGasFrontier : Z := 50.
Definition SloadGasEIP150 : Z := 200.
Definition SloadGasEIP1884 : Z := 800.
Definition ExtcodeHashGasConstantinople : Z := 400.
Definition ExtcodeHashGasEIP1884 : Z := 700.
Definition ExtcodeCopyBaseFrontier : Z := 20.
Definition ExtcodeCopyBaseEIP150 : Z := 700.
Definition StackLimit : Z := 1024.

(** ** stack_table.go *)

Definition maxStack (pop push : Z) : Z := StackLimit + pop - push.
Definition minStack (pops push : Z) : Z := pops.
Definition minSwapStack (n : Z) : Z := minStack n n.
Definition maxSwapStack (n : Z) : Z := maxStack n n.
Definition minDupStack (n : Z) : Z := minStack n (n + 1).
Definition maxDupStack (n : Z) : Z := maxStack n (n + 1).

(** ** Operations *)

(** Halts execution, sets the program counter itself, modifies the state,
    reverts the state, sets the return data. *)
Record opflags := mk_opflags { halts : bool; jumps : bool; writes : bool; reverts : bool; returns : bool }.
Definition plain : opflags := mk_opflags false false false false false.
Definition halting : opflags := mk_opflags true false false false false.
Definition jumping : opflags := mk_opflags false true false false false.
Definition writing : opflags := mk_opflags false false true false false.
Definition returning : opflags := mk_opflags false false false false true.
Definition writing_returning : opflags := mk_opflags false false true false true.
Definition halting_writing : opflags := mk_opflags true false true false false.
Definition reverting_returning : opflags := mk_opflags false false false true true.

Section table.
Context {W : Type} `{Uint256, StateDB W} (env : Env W).
Abbreviation F := (st (frame W) evm_err).

Record operation := mk_operation {
  execute : Calls W → F bytes;
  constantGas : Z;
  dynamicGas : option (Z → F Z);
  op_minStack : Z;
  op_maxStack : Z;
  memorySize : option (F (Z * bool));
  flags : opflags
}.

Definition JumpTable : Type := list (Z * operation).

(** [jt[op]] *)
Fixpoint jt_get (op : Z) (jt : JumpTable) : option operation :=
  match jt with
  | [] => None
  | (op', o) :: jt => if op =? op' then Some o else jt_get op jt
  end.

(** [jt[op].constantGas = g] and [jt[op].dynamicGas = d] *)
Definition set_constantGas (op g : Z) (jt : JumpTable) : JumpTable :=
  match jt_get op jt with
  | Some o => (op, mk_operation (execute o) g (dynamicGas o) (op_minStack o) (op_maxStack o) (memorySize o) (flags o)) :: jt
  | None => jt
  end.
Definition set_dynamicGas (op : Z) (d : Z → F Z) (jt : JumpTable) : JumpTable :=
  match jt_get op jt with
  | Some o => (op, mk_operation (execute o) (constantGas o) (Some d) (op_minStack o) (op_maxStack o) (memorySize o) (flags o)) :: jt
  | None => jt
  end.

(** ** Frontier *)

Definition frontier_arith : list (Z * operation) := [
  (Op.STOP, mk_operation (λ _, opStop) 0 None (minStack 0 0) (maxStack 0 0) None halting);
  (Op.ADD, mk_operation (λ _, opAdd) GasFastestStep None (minStack 2 1) (maxStack 2 1) None plain);
  (Op.MUL, mk_operation (λ _, opMul) GasFastStep None (minStack 2 1) (maxStack 2 1) None plain);
  (Op.SUB, mk_operation (λ _, opSub) GasFastestStep None (minStack 2 1) (maxStack 2 1) None plain);
  (Op.DIV, mk_operation (λ _, opDiv) GasFastStep None (minStack 2 1) (maxStack 2 1) None plain);
  (Op.SDIV, mk_operation (λ _, opSdiv) GasFastStep None (minStack 2 1) (maxStack 2 1) None plain);
  (Op.MOD, mk_operation (λ _, opMod) GasFastStep None (minStack 2 1) (maxStack 2 1) None plain);
  (Op.SMOD, mk_operation (λ _, opSmod) GasFastStep None (minStack 2 1) (maxStack 2 1) None plain);
  (Op.ADDMOD, mk_operation (λ _, opAddmod) GasMidStep None (minStack 3 1) (maxStack 3 1) None plain);
  (Op.MULMOD, mk_operation (λ _, opMulmod) GasMidStep None (minStack 3 1) (maxStack 3 1) None plain);
  (Op.EXP, mk_operation (λ _, opExp) 0 (Some gasExpFrontier) (minStack 2 1) (maxStack 2 1) None plain);
  (Op.SIGNEXTEND, mk_operation (λ _, opSignExtend) GasFastStep None (minStack 2 1) (maxStack 2 1) None plain)
].

Definition frontier_compare : list (Z * operation) := [
  (Op.LT, mk_operation (λ _, opLt) GasFastestStep None (minStack 2 1) (maxStack 2 1) None plain);
  (Op.GT, mk_operation (λ _, opGt) GasFastestStep None (minStack 2 1) (maxStack 2 1) None plain);
  (Op.SLT, mk_operation (λ _, opSlt) GasFastestStep None (minStack 2 1) (maxStack 2 1) None plain);
  (Op.SGT, mk_operation (λ _, opSgt) GasFastestStep None (minStack 2 1) (maxStack 2 1) None plain);
  (Op.EQ, mk_operation (λ _, opEq) GasFastestStep None (minStack 2 1) (maxStack 2 1) None plain);
  (Op.ISZERO, mk_operation (λ _, opIszero) GasFastestStep None (minStack 1 1) (maxStack 1 1) None plain);
  (Op.AND, mk_operation (λ _, opAnd) GasFastestStep None (minStack 2 1) (maxStack 2 1) None plain);
  (Op.XOR, mk_operation (λ _, opXor) GasFastestStep None (minStack 2 1) (maxStack 2 1) None plain);
  (Op.OR, mk_operation (λ _, opOr) GasFastestStep None (minStack 2 1) (maxStack 2 1) None plain);
  (Op.NOT, mk_operation (λ _, opNot) GasFastestStep None (minStack 1 1) (maxStack 1 1) None plain);
  (Op.BYTE, mk_operation (λ _, opByte) GasFastestStep None (minStack 2 1) (maxStack 2 1) None plain);
  (Op.SHA3, mk_operation (λ _, opSha3 env) Sha3Gas (Some gasSha3) (minStack 2 1) (maxStack 2 1) (Some memorySha3) plain)
].

Definition frontier_env : list (Z * operation) := [
  (Op.ADDRESS, mk_operation (λ _, opAddress) GasQuickStep None (minStack 0 1) (maxStack 0 1) None plain);
  (Op.BALANCE, mk_operation (λ _, opBalance) BalanceGasFrontier None (minStack 1 1) (maxStack 1 1) None plain);
  (Op.ORIGIN, mk_operation (λ _, opOrigin env) GasQuickStep None (minStack 0 1) (maxStack 0 1) None plain);
  (Op.CALLER, mk_operation (λ _, opCaller) GasQuickStep None (minStack 0 1) (maxStack 0 1) None plain);
  (Op.CALLVALUE, mk_operation (λ _, opCallValue) GasQuickStep None (minStack 0 1) (maxStack 0 1) None plain);
  (Op.CALLDATALOAD, mk_operation (λ _, opCallDataLoad) GasFastestStep None (minStack 1 1) (maxStack 1 1) None plain);
  (Op.CALLDATASIZE, mk_operation (λ _, opCallDataSize) GasQuickStep None (minStack 0 1) (maxStack 0 1) None plain);
  (Op.CALLDATACOPY, mk_operation (λ _, opCallDataCopy) GasFastestStep (Some gasCallDataCopy) (minStack 3 0) (maxStack 3 0) (Some memoryCallDataCopy) plain);
  (Op.CODESIZE, mk_operation (λ _, opCodeSize) GasQuickStep None (minStack 0 1) (maxStack 0 1) None plain);
  (Op.CODECOPY, mk_operation (λ _, opCodeCopy) GasFastestStep (Some gasCodeCopy) (minStack 3 0) (maxStack 3 0) (Some memoryCodeCopy) plain);
  (Op.GASPRICE, mk_operation (λ _, opGasprice env) GasQuickStep None (minStack 0 1) (maxStack 0 1) None plain);
  (Op.EXTCODESIZE, mk_operation (λ _, opExtCodeSize) ExtcodeSizeGasFrontier None (minStack 1 1) (maxStack 1 1) None plain);
  (Op.EXTCODECOPY, mk_operation (λ _, opExtCodeCopy) ExtcodeCopyBaseFrontier (Some gasExtCodeCopy) (minStack 4 0) (maxStack 4 0) (Some memoryExtCodeCopy) plain);
  (Op.BLOCKHASH, mk_operation (λ _, opBlockhash env) GasExtStep None (minStack 1 1) (maxStack 1 1) None plain);
  (Op.COINBASE, mk_operation (λ _, opCoinbase env) GasQuickStep None (minStack 0 1) (maxStack 0 1) None plain);
  (Op.TIMESTAMP, mk_operation (λ _, opTimestamp env) GasQuickStep None (minStack 0 1) (maxStack 0 1) None plain);
  (Op.NUMBER, mk_operation (λ _, opNumber env) GasQuickStep None (minStack 0 1) (maxStack 0 1) None plain);
  (Op.DIFFICULTY, mk_operation (λ _, opDifficulty env) GasQuickStep None (minStack 0 1) (maxStack 0 1) None plain);
  (Op.GASLIMIT, mk_operation (λ _, opGasLimit env) GasQuickStep None (minStack 0 1) (maxStack 0 1) None plain)
].

Definition frontier_flow : list (Z * operation) := [
  (Op.POP, mk_operation (λ _, opPop) GasQuickStep None (minStack 1 0) (maxStack 1 0) None plain);
  (Op.MLOAD, mk_operation (λ _, opMload) GasFastestStep (Some gasMLoad) (minStack 1 1) (maxStack 1 1) (Some memoryMLoad) plain);
  (Op.MSTORE, mk_operation (λ _, opMstore) GasFastestStep (Some gasMStore) (minStack 2 0) (maxStack 2 0) (Some memoryMStore) plain);
  (Op.MSTORE8, mk_operation (λ _, opMstore8) GasFastestStep (Some gasMStore8) (minStack 2 0) (maxStack 2 0) (Some memoryMStore8) plain);
  (Op.SLOAD, mk_operation (λ _, opSload) SloadGasFrontier None (minStack 1 1) (maxStack 1 1) None plain);
  (Op.SSTORE, mk_operation (λ _, opSstore) 0 (Some (gasSStore env)) (minStack 2 0) (maxStack 2 0) None writing);
  (Op.JUMP, mk_operation (λ _, opJump env) GasMidStep None (minStack 1 0) (maxStack 1 0) None jumping);
  (Op.JUMPI, mk_operation (λ _, opJumpi env) GasSlowStep None (minStack 2 0) (maxStack 2 0) None jumping);
  (Op.PC, mk_operation (λ _, opPc) GasQuickStep None (minStack 0 1) (maxStack 0 1) None plain);
  (Op.MSIZE, mk_operation (λ _, opMsize) GasQuickStep None (minStack 0 1) (maxStack 0 1) None plain);
  (Op.GAS, mk_operation (λ _, opGas) GasQuickStep None (minStack 0 1) (maxStack 0 1) None plain);
  (Op.JUMPDEST, mk_operation (λ _, opJumpdest) JumpdestGas None (minStack 0 0) (maxStack 0 0) None plain)
].

Definition frontier_push_lo : list (Z * operation) := [
  (Op.PUSH1, mk_operation (λ _, opPush1) GasFastestStep None (minStack 0 1) (maxStack 0 1) None plain);
  (Op.PUSH2, mk_operation (λ _, makePush 2 2) GasFastestStep None (minStack 0 1) (maxStack 0 1) None plain);
  (Op.PUSH3, mk_operation (λ _, makePush 3 3) GasFastestStep None (minStack 0 1) (maxStack 0 1) None plain);
  (Op.PUSH4, mk_operation (λ _, makePush 4 4) GasFastestStep None (minStack 0 1) (maxStack 0 1) None plain);
  (Op.PUSH5, mk_operation (λ _, makePush 5 5) GasFastestStep None (minStack 0 1) (maxStack 0 1) None plain);
  (Op.PUSH6, mk_operation (λ _, makePush 6 6) GasFastestStep None (minStack 0 1) (maxStack 0 1) None plain);
  (Op.PUSH7, mk_operation (λ _, makePush 7 7) GasFastestStep None (minStack 0 1) (maxStack 0 1) None plain);
  (Op.PUSH8, mk_operation (λ _, makePush 8 8) GasFastestStep None (minStack 0 1) (maxStack 0 1) None plain);
  (Op.PUSH9, mk_operation (λ _, makePush 9 9) GasFastestStep None (minStack 0 1) (maxStack 0 1) None plain);
  (Op.PUSH10, mk_operation (λ _, makePush 10 10) GasFastestStep None (minStack 0 1) (maxStack 0 1) None plain);
  (Op.PUSH11, mk_operation (λ _, makePush 11 11) GasFastestStep None (minStack 0 1) (maxStack 0 1) None plain);
  (Op.PUSH12, mk_operation (λ _, makePush 12 12) GasFastestStep None (minStack 0 1) (maxStack 0 1) None plain);
  (Op.PUSH13, mk_operation (λ _, makePush 13 13) GasFastestStep None (minStack 0 1) (maxStack 0 1) None plain);
  (Op.PUSH14, mk_operation (λ _, makePush 14 14) GasFastestStep None (minStack 0 1) (maxStack 0 1) None plain);
  (Op.PUSH15, mk_operation (λ _, makePush 15 15) GasFastestStep None (minStack 0 1) (maxStack 0 1) None plain);
  (Op.PUSH16, mk_operation (λ _, makePush 16 16) GasFastestStep None (minStack 0 1) (maxStack 0 1) None plain)
].

Definition frontier_push_hi : list (Z * operation) := [
  (Op.PUSH17, mk_operation (λ _, makePush 17 17) GasFastestStep None (minStack 0 1) (maxStack 0 1) None plain);
  (Op.PUSH18, mk_operation (λ _, makePush 18 18) GasFastestStep None (minStack 0 1) (maxStack 0 1) None plain);
  (Op.PUSH19, mk_operation (λ _, makePush 19 19) GasFastestStep None (minStack 0 1) (maxStack 0 1) None plain);
  (Op.PUSH20, mk_operation (λ _, makePush 20 20) GasFastestStep None (minStack 0 1) (maxStack 0 1) None plain);
  (Op.PUSH21, mk_operation (λ _, makePush 21 21) GasFastestStep None (minStack 0 1) (maxStack 0 1) None plain);
  (Op.PUSH22, mk_operation (λ _, makePush 22 22) GasFastestStep None (minStack 0 1) (maxStack 0 1) None plain);
  (Op.PUSH23, mk_operation (λ _, makePush 23 23) GasFastestStep None (minStack 0 1) (maxStack 0 1) None plain);
  (Op.PUSH24, mk_operation (λ _, makePush 24 24) GasFastestStep None (minStack 0 1) (maxStack 0 1) None plain);
  (Op.PUSH25, mk_operation (λ _, makePush 25 25) GasFastestStep None (minStack 0 1) (maxStack 0 1) None plain);
  (Op.PUSH26, mk_operation (λ _, makePush 26 26) GasFastestStep None (minStack 0 1) (maxStack 0 1) None plain);
  (Op.PUSH27, mk_operation (λ _, makePush 27 27) GasFastestStep None (minStack 0 1) (maxStack 0 1) None plain);
  (Op.PUSH28, mk_operation (λ _, makePush 28 28) GasFastestStep None (minStack 0 1) (maxStack 0 1) None plain);
  (Op.PUSH29, mk_operation (λ _, makePush 29 29) GasFastestStep None (minStack 0 1) (maxStack 0 1) None plain);
  (Op.PUSH30, mk_operation (λ _, makePush 30 30) GasFastestStep None (minStack 0 1) (maxStack 0 1) None plain);
  (Op.PUSH31, mk_operation (λ _, makePush 31 31) GasFastestStep None (minStack 0 1) (maxStack 0 1) None plain);
  (Op.PUSH32, mk_operation (λ _, makePush 32 32) GasFastestStep None (minStack 0 1) (maxStack 0 1) None plain)
].

Definition frontier_dup : list (Z * operation) := [
  (Op.DUP1, mk_operation (λ _, makeDup 1) GasFastestStep None (minDupStack 1) (maxDupStack 1) None plain);
  (Op.DUP2, mk_operation (λ _, makeDup 2) GasFastestStep None (minDupStack 2) (maxDupStack 2) None plain);
  (Op.DUP3, mk_operation (λ _, makeDup 3) GasFastestStep None (minDupStack 3) (maxDupStack 3) None plain);
  (Op.DUP4, mk_operation (λ _, makeDup 4) GasFastestStep None (minDupStack 4) (maxDupStack 4) None plain);
  (Op.DUP5, mk_operation (λ _, makeDup 5) GasFastestStep None (minDupStack 5) (maxDupStack 5) None plain);
  (Op.DUP6, mk_operation (λ _, makeDup 6) GasFastestStep None (minDupStack 6) (maxDupStack 6) None plain);
  (Op.DUP7, mk_operation (λ _, makeDup 7) GasFastestStep None (minDupStack 7) (maxDupStack 7) None plain);
  (Op.DUP8, mk_operation (λ _, makeDup 8) GasFastestStep None (minDupStack 8) (maxDupStack 8) None plain);
  (Op.DUP9, mk_operation (λ _, makeDup 9) GasFastestStep None (minDupStack 9) (maxDupStack 9) None plain);
  (Op.DUP10, mk_operation (λ _, makeDup 10) GasFastestStep None (minDupStack 10) (maxDupStack 10) None plain);
  (Op.DUP11, mk_operation (λ _, makeDup 11) GasFastestStep None (minDupStack 11) (maxDupStack 11) None plain);
  (Op.DUP12, mk_operation (λ _, makeDup 12) GasFastestStep None (minDupStack 12) (maxDupStack 12) None plain);
  (Op.DUP13, mk_operation (λ _, makeDup 13) GasFastestStep None (minDupStack 13) (maxDupStack 13) None plain);
  (Op.DUP14, mk_operation (λ _, makeDup 14) GasFastestStep None (minDupStack 14) (maxDupStack 14) None plain);
  (Op.DUP15, mk_operation (λ _, makeDup 15) GasFastestStep None (minDupStack 15) (maxDupStack 15) None plain);
  (Op.DUP16, mk_operation (λ _, makeDup 16) GasFastestStep None (minDupStack 16) (maxDupStack 16) None plain)
].

Definition frontier_swap : list (Z * operation) := [
  (Op.SWAP1, mk_operation (λ _, makeSwap 1) GasFastestStep None (minSwapStack 2) (maxSwapStack 2) None plain);
  (Op.SWAP2, mk_operation (λ _, makeSwap 2) GasFastestStep None (minSwapStack 3) (maxSwapStack 3) None plain);
  (Op.SWAP3, mk_operation (λ _, makeSwap 3) GasFastestStep None (minSwapStack 4) (maxSwapStack 4) None plain);
  (Op.SWAP4, mk_operation (λ _, makeSwap 4) GasFastestStep None (minSwapStack 5) (maxSwapStack 5) None plain);
  (Op.SWAP5, mk_operation (λ _, makeSwap 5) GasFastestStep None (minSwapStack 6) (maxSwapStack 6) None plain);
  (Op.SWAP6, mk_operation (λ _, makeSwap 6) GasFastestStep None (minSwapStack 7) (maxSwapStack 7) None plain);
  (Op.SWAP7, mk_operation (λ _, makeSwap 7) GasFastestStep None (minSwapStack 8) (maxSwapStack 8) None plain);
  (Op.SWAP8, mk_operation (λ _, makeSwap 8) GasFastestStep None (minSwapStack 9) (maxSwapStack 9) None plain);
  (Op.SWAP9, mk_operation (λ _, makeSwap 9) GasFastestStep None (minSwapStack 10) (maxSwapStack 10) None plain);
  (Op.SWAP10, mk_operation (λ _, makeSwap 10) GasFastestStep None (minSwapStack 11) (maxSwapStack 11) None plain);
  (Op.SWAP11, mk_operation (λ _, makeSwap 11) GasFastestStep None (minSwapStack 12) (maxSwapStack 12) None plain);
  (Op.SWAP12, mk_operation (λ _, makeSwap 12) GasFastestStep None (minSwapStack 13) (maxSwapStack 13) None plain);
  (Op.SWAP13, mk_operation (λ _, makeSwap 13) GasFastestStep None (minSwapStack 14) (maxSwapStack 14) None plain);
  (Op.SWAP14, mk_operation (λ _, makeSwap 14) GasFastestStep None (minSwapStack 15) (maxSwapStack 15) None plain);
  (Op.SWAP15, mk_operation (λ _, makeSwap 15) GasFastestStep None (minSwapStack 16) (maxSwapStack 16) None plain);
  (Op.SWAP16, mk_operation (λ _, makeSwap 16) GasFastestStep None (minSwapStack 17) (maxSwapStack 17) None plain)
].

Definition frontier_system : list (Z * operation) := [
  (Op.LOG0, mk_operation (λ _, makeLog env 0) 0 (Some (makeGasLog 0)) (minStack 2 0) (maxStack 2 0) (Some memoryLog) writing);
  (Op.LOG1, mk_operation (λ _, makeLog env 1) 0 (Some (makeGasLog 1)) (minStack 3 0) (maxStack 3 0) (Some memoryLog) writing);
  (Op.LOG2, mk_operation (λ _, makeLog env 2) 0 (Some (makeGasLog 2)) (minStack 4 0) (maxStack 4 0) (Some memoryLog) writing);
  (Op.LOG3, mk_operation (λ _, makeLog env 3) 0 (Some (makeGasLog 3)) (minStack 5 0) (maxStack 5 0) (Some memoryLog) writing);
  (Op.LOG4, mk_operation (λ _, makeLog env 4) 0 (Some (makeGasLog 4)) (minStack 6 0) (maxStack 6 0) (Some memoryLog) writing);
  (Op.CREATE, mk_operation (λ calls, opCreate env calls) CreateGas (Some gasCreate) (minStack 3 1) (maxStack 3 1) (Some memoryCreate) writing_returning);
  (Op.CALL, mk_operation (λ calls, opCall calls) CallGasFrontier (Some (gasCall env)) (minStack 7 1) (maxStack 7 1) (Some memoryCall) returning);
  (Op.CALLCODE, mk_operation (λ calls, opCallCode calls) CallGasFrontier (Some (gasCallCode env)) (minStack 7 1) (maxStack 7 1) (Some memoryCall) returning);
  (Op.RETURN, mk_operation (λ _, opReturn) 0 (Some gasReturn) (minStack 2 0) (maxStack 2 0) (Some memoryReturn) halting);
  (Op.SELFDESTRUCT, mk_operation (λ _, opSuicide) 0 (Some (gasSelfdestruct env)) (minStack 1 0) (maxStack 1 0) None halting_writing)
].

Definition newFrontierInstructionSet : JumpTable :=
  frontier_arith ++ frontier_compare ++ frontier_env ++ frontier_flow ++ frontier_push_lo ++
  frontier_push_hi ++ frontier_dup ++ frontier_swap ++ frontier_system.

(** ** Later forks *)

Definition newHomesteadInstructionSet : JumpTable :=
  (Op.DELEGATECALL, mk_operation (λ calls, opDelegateCall calls) CallGasFrontier (Some (gasDelegateCall env))
     (minStack 6 1) (maxStack 6 1) (Some memoryDelegateCall) returning)
  :: newFrontierInstructionSet.

Definition newTangerineWhistleInstructionSet : JumpTable :=
  set_constantGas Op.DELEGATECALL CallGasEIP150
  (set_constantGas Op.CALLCODE CallGasEIP150
  (set_constantGas Op.CALL CallGasEIP150
  (set_constantGas Op.EXTCODECOPY ExtcodeCopyBaseEIP150
  (set_constantGas Op.SLOAD SloadGasEIP150
  (set_constantGas Op.EXTCODESIZE ExtcodeSizeGasEIP150
  (set_constantGas Op.BALANCE BalanceGasEIP150 newHomesteadInstructionSet)))))).

Definition newSpuriousDragonInstructionSet : JumpTable :=
  set_dynamicGas Op.EXP gasExpEIP158 newTangerineWhistleInstructionSet.

Definition newByzantiumInstructionSet : JumpTable :=
  (Op.REVERT, mk_operation (λ _, opRevert) 0 (Some gasRevert) (minStack 2 0) (maxStack 2 0)
     (Some memoryRevert) reverting_returning)
  :: (Op.RETURNDATACOPY, mk_operation (λ _, opReturnDataCopy) GasFastestStep (Some gasReturnDataCopy)
     (minStack 3 0) (maxStack 3 0) (Some memoryReturnDataCopy) plain)
  :: (Op.RETURNDATASIZE, mk_operation (λ _, opReturnDataSize) GasQuickStep None (minStack 0 1) (maxStack 0 1) None plain)
  :: (Op.STATICCALL, mk_operation (λ calls, opStaticCall calls) CallGasEIP150 (Some (gasStaticCall env))
     (minStack 6 1) (maxStack 6 1) (Some memoryStaticCall) returning)
  :: newSpuriousDragonInstructionSet.

Definition newConstantinopleInstructionSet : JumpTable :=
  (Op.CREATE2, mk_operation (λ calls, opCreate2 calls) Create2Gas (Some gasCreate2) (minStack 4 1) (maxStack 4 1)
     (Some memoryCreate2) writing_returning)
  :: (Op.EXTCODEHASH, mk_operation (λ _, opExtCodeHash) ExtcodeHashGasConstantinople None (minStack 1 1) (maxStack 1 1) None plain)
  :: (Op.SAR, mk_operation (λ _, opSAR) GasFastestStep None (minStack 2 1) (maxStack 2 1) None plain)
  :: (Op.SHR, mk_operation (λ _, opSHR) GasFastestStep None (minStack 2 1) (maxStack 2 1) None plain)
  :: (Op.SHL, mk_operation (λ _, opSHL) GasFastestStep None (minStack 2 1) (maxStack 2 1) None plain)
  :: newByzantiumInstructionSet.

(** ** eips.go *)

Definition enable1344 (jt : JumpTable) : JumpTable :=
  (Op.CHAINID, mk_operation (λ _, opChainID env) GasQuickStep None (minStack 0 1) (maxStack 0 1) None plain) :: jt.

Definition enable1884 (jt : JumpTable) : JumpTable :=
  (Op.SELFBALANCE, mk_operation (λ _, opSelfBalance) GasFastStep None (minStack 0 1) (maxStack 0 1) None plain)
  :: set_constantGas Op.EXTCODEHASH ExtcodeHashGasEIP1884
     (set_constantGas Op.BALANCE BalanceGasEIP1884
     (set_constantGas Op.SLOAD SloadGasEIP1884 jt)).

Definition enable2200 (jt : JumpTable) : JumpTable :=
  set_dynamicGas Op.SSTORE gasSStoreEIP2200 (set_constantGas Op.SLOAD SloadGasEIP2200 jt).

(** Constant and dynamic gas of one opcode. *)
Definition reprice (op g : Z) (d : Z → F Z) (jt : JumpTable) : JumpTable :=
  set_dynamicGas op d (set_constantGas op g jt).

Definition enable2929 (jt : JumpTable) : JumpTable :=
  let jt := set_dynamicGas Op.SSTORE gasSStoreEIP2929 jt in
  let jt := reprice Op.SLOAD 0 gasSLoadEIP2929 jt in
  let jt := reprice Op.EXTCODECOPY WarmStorageReadCostEIP2929 gasExtCodeCopyEIP2929 jt in
  let jt := reprice Op.EXTCODESIZE WarmStorageReadCostEIP2929 gasEip2929AccountCheck jt in
  let jt := reprice Op.EXTCODEHASH WarmStorageReadCostEIP2929 gasEip2929AccountCheck jt in
  let jt := reprice Op.BALANCE WarmStorageReadCostEIP2929 gasEip2929AccountCheck jt in
  let jt := reprice Op.CALL WarmStorageReadCostEIP2929 (gasCallEIP2929 env) jt in
  let jt := reprice Op.CALLCODE WarmStorageReadCostEIP2929 (gasCallCodeEIP2929 env) jt in
  let jt := reprice Op.STATICCALL WarmStorageReadCostEIP2929 (gasStaticCallEIP2929 env) jt in
  let jt := reprice Op.DELEGATECALL WarmStorageReadCostEIP2929 (gasDelegateCallEIP2929 env) jt in
  reprice Op.SELFDESTRUCT SelfdestructGasEIP150 gasSelfdestructEIP2929 jt.

Definition enable3529 (jt : JumpTable) : JumpTable :=
  set_dynamicGas Op.SELFDESTRUCT gasSelfdestructEIP3529 (set_dynamicGas Op.SSTORE gasSStoreEIP3529 jt).

Definition enable3198 (jt : JumpTable) : JumpTable :=
  (Op.BASEFEE, mk_operation (λ _, opBaseFee env) GasQuickStep None (minStack 0 1) (maxStack 0 1) None plain) :: jt.

Definition newIstanbulInstructionSet : JumpTable :=
  enable2200 (enable1884 (enable1344 newConstantinopleInstructionSet)).
Definition newBerlinInstructionSet : JumpTable := enable2929 newIstanbulInstructionSet.
Definition newLondonInstructionSet : JumpTable := enable3198 (enable3529 newBerlinInstructionSet).

(** The table [NewEVMInterpreter] chooses. *)
Definition instructionSet : JumpTable :=
  let r := chainRules env in
  if IsLondon r then newLondonInstructionSet
  else if IsBerlin r then newBerlinInstructionSet
  else if IsIstanbul r then newIstanbulInstructionSet
  else if IsConstantinople r then newConstantinopleInstructionSet
  else if IsByzantium r then newByzantiumInstructionSet
  else if IsEIP158 r then newSpuriousDragonInstructionSet
  else if IsEIP150 r then newTangerineWhistleInstructionSet
  else if IsHomestead r then newHomesteadInstructionSet
  else newFrontierInstructionSet.

End table.
