(* ===== verification/EvmInterp.v ===== *)
(** * The interpreter and the call frames (src/geth/core/vm/interpreter.go,
    evm.go, contracts.go; src/geth/crypto/crypto.go for the addresses)

    One step of the main loop, the loop, and the functions that run a frame:
    [Call], [CallCode], [DelegateCall], [StaticCall], [create], [Create] and
    [Create2].  The loop and the calls are mutually recursive; the recursion is
    bounded by fuel, one unit for a step or a nested frame. *)
From stdpp Require Import gmap.
From S2P Require Import Prelude RlpBase RlpRaw RlpEncode EvmAnalysis EvmBase EvmMachine EvmGas EvmTable.

Definition CallCreateDepth : Z := 1024.
Definition MaxCodeSize : Z := 24576.
Definition CreateDataGas : Z := 200.

(** [NewContract] and [SetCallCode]; the analyses are shared through the state. *)
Definition NewContract (caller object value gas : Z) : Contract := mk_Contract caller object [] 0 [] gas value None.
Definition SetCallCode (hash : Z) (code : bytes) (c : Contract) : Contract :=
  mk_Contract (CallerAddress c) (self c) code hash (Input c) (Gas c) (value c) (analysis c).
(** [AsDelegate]: caller and value of the parent. *)
Definition AsDelegate (parent c : Contract) : Contract :=
  mk_Contract (CallerAddress parent) (self c) (Code c) (CodeHash c) (Input c) (Gas c) (value parent) (analysis c).

Section interp.
Context {W : Type} `{Uint256, StateDB W} (env : Env W).
Abbreviation F := (st (frame W) evm_err).
Abbreviation G := (st (EVM W) Empty_set).

(** ** One round of the loop *)

(** The gas function of an operation; every error is [ErrOutOfGas]. *)
Definition dynamic_gas (d : Z → F Z) (memSize : Z) : F Z := λ f,
  match d memSize f with
  | (f, Err _) => (f, Err ErrOutOfGas)
  | r => r
  end.

Definition charge (gas : Z) : F unit :=
  ok ← use_gas gas; if negb ok then st_err ErrOutOfGas else mret tt.

Definition required_memory (o : operation (W:=W)) : F Z :=
  match memorySize o with
  | None => mret 0
  | Some ms =>
      '(memSize, overflow) ← ms;
      if overflow : bool then st_err ErrGasUintOverflow
      else checked (SafeMul (toWordSize memSize) 32)
  end.

(** The checks of [operation.writes] in read-only mode. *)
Definition write_protection (op : Z) (o : operation (W:=W)) : F unit :=
  e ← get_evm;
  if readOnly e && IsByzantium (chainRules env) then
    if writes (flags o) then st_err ErrWriteProtection
    else if op =? Op.CALL then
      v ← Back 2; if negb (v =? 0) then st_err ErrWriteProtection else mret tt
    else mret tt
  else mret tt.

(** An operation whose stack bounds hold: [None] to go on, or the returned data
    and error of the frame. *)
Definition run_op (calls : Calls W) (op : Z) (o : operation (W:=W)) : F (option (bytes * option evm_err)) :=
  write_protection op o ≫= λ _,
  charge (constantGas o) ≫= λ _,
  memSize ← required_memory o;
  (match dynamicGas o with
   | Some d => dynamicCost ← dynamic_gas d memSize; charge dynamicCost
   | None => mret tt
   end) ≫= λ _,
  (if 0 <? memSize then m ← get_mem; set_mem (mem_Resize m memSize) else mret tt) ≫= λ _,
  ret ← execute o calls;
  (if returns (flags o) then set_returnData ret else mret tt) ≫= λ _,
  if reverts (flags o) then mret (Some (ret, Some ErrExecutionReverted))
  else if halts (flags o) then mret (Some (ret, None))
  else if negb (jumps (flags o)) then p ← get_pc; set_pc (u64 (p + 1)) ≫= λ _, mret None
  else mret None.

(** One round: the operation at the program counter, with its stack bounds. *)
Definition step (calls : Calls W) : F (option (bytes * option evm_err)) :=
  f ← st_get;
  let op := GetOp (contract f) (pc f) in
  match jt_get op (instructionSet env) with
  | None => st_err (ErrInvalidOpCode op)
  | Some o =>
      let sLen := len (stack f) in
      if sLen <? op_minStack o then st_err (ErrStackUnderflow sLen (op_minStack o))
      else if op_maxStack o <? sLen then st_err (ErrStackOverflow sLen (op_maxStack o))
      else run_op calls op o
  end.

(** ** Running a contract *)

Abbreviation Loop := (frame W → frame W * res evm_err (bytes * option evm_err)).

Definition set_depth (d : Z) (e : EVM W) : EVM W :=
  mk_EVM (db e) d (callGasTemp e) (readOnly e) (returnData e) (jumpdests e).
Definition set_readOnly (b : bool) (e : EVM W) : EVM W :=
  mk_EVM (db e) (depth e) (callGasTemp e) b (returnData e) (jumpdests e).
Definition clear_returnData (e : EVM W) : EVM W :=
  mk_EVM (db e) (depth e) (callGasTemp e) (readOnly e) [] (jumpdests e).
Definition set_world (w : W) (e : EVM W) : EVM W :=
  mk_EVM w (depth e) (callGasTemp e) (readOnly e) (returnData e) (jumpdests e).

(** [in.Run(contract, input, readOnly)]; the contract comes back with the gas
    it has left. *)
Definition Run (loop : Loop) (c : Contract) (input : bytes) (ro : bool)
  : G (bytes * Contract * option evm_err) := λ e,
  let sets_ro := ro && negb (readOnly e) in
  let e1 := set_depth (depth e + 1) e in
  let e1 := if sets_ro then set_readOnly true e1 else e1 in
  let e1 := clear_returnData e1 in
  let leave (e : EVM W) :=
    let e := set_depth (depth e - 1) e in if sets_ro then set_readOnly false e else e in
  match Code c with
  | [] => (leave e1, Ok ([], c, None))
  | _ =>
      let '(f, r) := loop (mk_frame 0 e1 NewMemory [] (set_Input input c)) in
      (leave (evm f),
       match r with
       | Ok (ret, err) => Ok (ret, contract f, err)
       | Err e => Ok ([], contract f, Some e)
       | Panic p => Panic p
       | OutOfFuel => OutOfFuel
       end)
  end.

Definition g_db : G W := e ← st_get; mret (db e).
Definition g_set_db (w : W) : G unit := st_modify (set_world w).

Definition RunPrecompiledContract (p : Precompiled) (input : bytes) (suppliedGas : Z) : res Empty_set callres :=
  let gasCost := RequiredGas p input in
  if suppliedGas <? gasCost then Ok ([], 0, Some ErrOutOfGas)
  else match RunPre p input with
       | Ok output => Ok (output, suppliedGas - gasCost, None)
       | Err e => Ok ([], suppliedGas - gasCost, Some e)
       | Panic p => Panic p
       | OutOfFuel => OutOfFuel
       end.

(** The end of every call: an error reverts the state, and takes all gas unless
    the contract itself reverted. *)
Definition finish (snapshot : Z) (r : callres) : G callres :=
  let '(ret, gas, err) := r in
  match err with
  | None => mret r
  | Some e =>
      w ← g_db;
      g_set_db (RevertToSnapshot snapshot w) ≫= λ _,
      mret (ret, if bool_decide (e = ErrExecutionReverted) then gas else 0, err)
  end.

Definition denied (caller addr : Z) : bool :=
  match ExtraValidator env with
  | Some v => IsAddressDenied v caller true || IsAddressDenied v addr false
  | None => false
  end.

Definition snapshot_ : G Z :=
  w ← g_db; let '(id, w) := Snapshot w in g_set_db w ≫= λ _, mret id.

(** A contract that runs and whose remaining gas is the result's. *)
Definition run_contract (loop : Loop) (c : Contract) (input : bytes) (ro : bool) : G callres :=
  '(ret, c, err) ← Run loop c input ro; mret (ret, Gas c, err).

Definition Call_ (loop : Loop) (caller addr : Z) (input : bytes) (gas value : Z) : G callres :=
  e ← st_get;
  if NoRecursion env && (0 <? depth e) then mret ([], gas, None)
  else if CallCreateDepth <? depth e then mret ([], gas, Some ErrDepth)
  else if (0 <? depth e) && denied caller addr then mret ([], gas, Some ErrAddressDenied)
  else if negb (value =? 0) && negb (CanTransfer env (db e) caller value)
  then mret ([], gas, Some ErrInsufficientBalance)
  else
    snapshot ← snapshot_;
    w ← g_db;
    let p := precompile env addr in
    if negb (Exist w addr) && negb (bool_decide (is_Some p)) && IsEIP158 (chainRules env) && (value =? 0)
    then mret ([], gas, None)
    else
      (if negb (Exist w addr) then g_set_db (CreateAccount addr w) else mret tt) ≫= λ _,
      w ← g_db;
      g_set_db (Transfer env caller addr value w) ≫= λ _,
      w ← g_db;
      r ← (match p with
           | Some p => st_lift (RunPrecompiledContract p input gas)
           | None =>
               match GetCode w addr with
               | [] => mret ([], gas, None)
               | code =>
                   run_contract loop (SetCallCode (GetCodeHash w addr) code (NewContract caller addr value gas)) input false
               end
           end);
      finish snapshot r.

(** The common shape of [CallCode] and [DelegateCall]: the code of [addr] in
    the context of [c]. *)
Definition run_code (loop : Loop) (c : Contract) (addr : Z) (input : bytes) (gas : Z) (ro : bool) : G callres :=
  match precompile env addr with
  | Some p => st_lift (RunPrecompiledContract p input gas)
  | None => w ← g_db; run_contract loop (SetCallCode (GetCodeHash w addr) (GetCode w addr) c) input ro
  end.

Definition CallCode_ (loop : Loop) (caller : Contract) (addr : Z) (input : bytes) (gas value : Z) : G callres :=
  e ← st_get;
  if NoRecursion env && (0 <? depth e) then mret ([], gas, None)
  else if CallCreateDepth <? depth e then mret ([], gas, Some ErrDepth)
  else if denied (self caller) addr then mret ([], gas, Some ErrAddressDenied)
  else if negb (CanTransfer env (db e) (self caller) value) then mret ([], gas, Some ErrInsufficientBalance)
  else
    snapshot ← snapshot_;
    r ← run_code loop (NewContract (self caller) (self caller) value gas) addr input gas false;
    finish snapshot r.

Definition DelegateCall_ (loop : Loop) (caller : Contract) (addr : Z) (input : bytes) (gas : Z) : G callres :=
  e ← st_get;
  if NoRecursion env && (0 <? depth e) then mret ([], gas, None)
  else if CallCreateDepth <? depth e then mret ([], gas, Some ErrDepth)
  else if denied (self caller) addr then mret ([], gas, Some ErrAddressDenied)
  else
    snapshot ← snapshot_;
    r ← run_code loop (AsDelegate caller (NewContract (self caller) (self caller) 0 gas)) addr input gas false;
    finish snapshot r.

Definition StaticCall_ (loop : Loop) (caller : Contract) (addr : Z) (input : bytes) (gas : Z) : G callres :=
  e ← st_get;
  if NoRecursion env && (0 <? depth e) then mret ([], gas, None)
  else if CallCreateDepth <? depth e then mret ([], gas, Some ErrDepth)
  else if denied (self caller) addr then mret ([], gas, Some ErrAddressDenied)
  else
    snapshot ← snapshot_;
    w ← g_db;
    g_set_db (AddBalance addr 0 w) ≫= λ _,
    r ← run_code loop (NewContract (self caller) addr 0 gas) addr input gas true;
    finish snapshot r.

(** ** Creation *)

(** What [create] does with the code that the constructor returned. *)
Definition store_code (address : Z) (ret : bytes) (c : Contract) (err : option evm_err)
  : G (Contract * option evm_err) :=
  match err with
  | Some _ => mret (c, err)
  | None =>
      if IsEIP158 (chainRules env) && (MaxCodeSize <? len ret) then mret (c, Some ErrMaxCodeSizeExceeded)
      else if (1 <=? len ret) && (nth 0 ret 0 =? 0xEF) && IsLondon (chainRules env) then mret (c, Some ErrInvalidCode)
      else
        let '(ok, c) := UseGas (u64 (len ret * CreateDataGas)) c in
        if ok then w ← g_db; g_set_db (SetCode address ret w) ≫= λ _, mret (c, None)
        else mret (c, Some ErrCodeStoreOutOfGas)
  end.

Definition create (loop : Loop) (caller : Z) (code : bytes) (codeHash gas value address : Z)
  : G (callres * Z) :=
  e ← st_get;
  let w := db e in
  if CallCreateDepth <? depth e then mret ([], gas, Some ErrDepth, 0)
  else if match CanCreate env with Some f => negb (f w caller (BlockNumber env)) | None => false end
  then mret ([], gas, Some ErrUnauthorizedDeveloper, 0)
  else if negb (CanTransfer env w caller value) then mret ([], gas, Some ErrInsufficientBalance, 0)
  else
    let nonce := GetNonce w caller in
    if u64 (nonce + 1) <? nonce then mret ([], gas, Some ErrNonceUintOverflow, 0)
    else
      g_set_db (SetNonce caller (u64 (nonce + 1)) w) ≫= λ _,
      w ← g_db;
      (if IsBerlin (chainRules env) then g_set_db (AddAddressToAccessList address w) else mret tt) ≫= λ _,
      w ← g_db;
      let contractHash := GetCodeHash w address in
      if negb (GetNonce w address =? 0) ||
         (negb (contractHash =? 0) && negb (contractHash =? emptyCodeHash env))
      then mret ([], 0, Some ErrContractAddressCollision, 0)
      else
        snapshot ← snapshot_;
        w ← g_db;
        g_set_db (CreateAccount address w) ≫= λ _,
        w ← g_db;
        (if IsEIP158 (chainRules env) then g_set_db (SetNonce address 1 w) else mret tt) ≫= λ _,
        w ← g_db;
        g_set_db (Transfer env caller address value w) ≫= λ _,
        let c := SetCallCode codeHash code (NewContract caller address value gas) in
        if NoRecursion env && (0 <? depth e) then mret ([], gas, None, address)
        else
          '(ret, c, err) ← Run loop c [] false;
          '(c, err) ← store_code address ret c err;
          match err with
          | Some e =>
              if IsHomestead (chainRules env) || negb (bool_decide (e = ErrCodeStoreOutOfGas)) then
                w ← g_db;
                g_set_db (RevertToSnapshot snapshot w) ≫= λ _,
                mret (ret, if bool_decide (e = ErrExecutionReverted) then Gas c else 0, err, address)
              else mret (ret, Gas c, err, address)
          | None => mret (ret, Gas c, err, address)
          end.

(** [crypto.CreateAddress] and [crypto.CreateAddress2]. *)
Definition CreateAddress (b nonce : Z) : Z :=
  let data := match EncodeToBytes (VSlice false [VInterface (Some (VByteArray (be_bytes 20 b)));
                                                 VInterface (Some (VUint nonce))]) with
              | Ok d => d | _ => [] end in
  Bytes20 (keccak256 env data).
Definition CreateAddress2 (b salt inithash : Z) : Z :=
  Bytes20 (keccak256 env ([0xff] ++ be_bytes 20 b ++ be_bytes 32 salt ++ be_bytes 32 inithash)).

Definition Create_ (loop : Loop) (caller : Z) (code : bytes) (gas value : Z) : G (callres * Z) :=
  w ← g_db; create loop caller code 0 gas value (CreateAddress caller (GetNonce w caller)).
Definition Create2_ (loop : Loop) (caller : Z) (code : bytes) (gas endowment salt : Z) : G (callres * Z) :=
  let hash := keccak256 env code in
  create loop caller code hash gas endowment (CreateAddress2 caller salt hash).

(** ** The loop *)

Definition calls_of (loop : Loop) : Calls W := mk_Calls W
  (λ c, Call_ loop (self c)) (CallCode_ loop) (DelegateCall_ loop) (StaticCall_ loop)
  (λ c, Create_ loop (self c)) (λ c, Create2_ loop (self c)).

Fixpoint loop (fuel : nat) : Loop := λ f,
  match fuel with
  | O => (f, OutOfFuel)
  | S fuel =>
      match step (calls_of (loop fuel)) f with
      | (f, Ok None) => loop fuel f
      | (f, Ok (Some r)) => (f, Ok r)
      | (f, Err e) => (f, Err e)
      | (f, Panic why) => (f, Panic why)
      | (f, OutOfFuel) => (f, OutOfFuel)
      end
  end.

(** A message from an account: a fresh map of analyses. *)
Definition fresh (e : EVM W) : EVM W :=
  mk_EVM (db e) (depth e) (callGasTemp e) (readOnly e) (returnData e) ∅.
Definition evm_Call (fuel : nat) (caller addr : Z) (input : bytes) (gas value : Z) : G callres :=
  st_modify fresh ≫= λ _, Call_ (loop fuel) caller addr input gas value.
Definition evm_Create (fuel : nat) (caller : Z) (code : bytes) (gas value : Z) : G (callres * Z) :=
  st_modify fresh ≫= λ _, Create_ (loop fuel) caller code gas value.

End interp.
