(* ===== verification/EvmTrace.v ===== *)
(** * What the EVM does to the state database (src/geth/core/vm)

    Whatever a contract does, the database changes by a sequence of operations of
    the [StateDB] interface in which every revert goes back to a snapshot that
    was taken within the sequence.  This needs no assumption about the code, the
    gas or the database. *)
From stdpp Require Import gmap.
From S2P Require Import Prelude EvmAnalysis EvmBase EvmMachine EvmGas EvmTable EvmInterp.

(** Where a trace belongs: the database a message started from, and the amounts
    it may transfer, which are all that are not negative and what the message
    itself asks for. *)
Class Origin (W : Type) := { root : W; allowed : Z → Prop; allowed_nonneg x : 0 ≤ x → allowed x }.
#[program] Definition of_message {W} (w : W) (value : Z) : Origin W := {| root := w; allowed x := 0 ≤ x ∨ x = value |}.
Next Obligation. by left. Qed.
Lemma of_message_allowed {W} (w : W) value : allowed (Origin := of_message w value) value.
Proof. by right. Qed.

Section trace.
Context {W : Type} `{!StateDB W} {org : Origin W} (env : Env W).

(** What happens between the check that a sender can pay and the transfer. *)
Inductive Prep (w0 : W) : W → Prop :=
| Prep_refl : Prep w0 w0
| Prep_CreateAccount w a : Prep w0 w → Prep w0 (CreateAccount a w)
| Prep_SetNonce w a n : Prep w0 w → Prep w0 (SetNonce a n w)
| Prep_AddAddress w a : Prep w0 w → Prep w0 (AddAddressToAccessList a w)
| Prep_Snapshot w : Prep w0 w → Prep w0 (snd (Snapshot w)).

(** A change of the database by operations and well-nested reverts: balances
    change only by transfers the sender was found to be good for, by touching an
    account and by a contract that destroys itself. *)
Inductive Tr : W → W → Prop :=
| Tr_refl w : Tr w w
| Tr_trans w1 w2 w3 : Tr w1 w2 → Tr w2 w3 → Tr w1 w3
| Tr_CreateAccount w a : Tr w (CreateAccount a w)
| Tr_Touch w a : Tr w (AddBalance a 0 w)
| Tr_Transfer w0 w a b x :
    allowed x → x = 0 ∨ CanTransfer env w0 a x = true → Tr root w0 → Prep w0 w → Tr w (Transfer env a b x w)
| Tr_SetNonce w a n : Tr w (SetNonce a n w)
| Tr_SetCode w a c : Tr w (SetCode a c w)
| Tr_SetState w a k v : Tr w (SetState a k v w)
| Tr_Suicide w a b : Tr w (Suicide a (AddBalance b (GetBalance w a) w))
| Tr_AddRefund w g : Tr w (AddRefund g w)
| Tr_SubRefund w g w' : SubRefund g w = Ok w' → Tr w w'
| Tr_AddAddress w a : Tr w (AddAddressToAccessList a w)
| Tr_AddSlot w a s : Tr w (AddSlotToAccessList a s w)
| Tr_AddLog w a ts x : Tr w (AddLog a ts x w)
| Tr_AddPreimage w h x : Tr w (AddPreimage h x w)
| Tr_Snapshot w : Tr w (snd (Snapshot w))
| Tr_Revert w w' : Tr (snd (Snapshot w)) w' → Tr w (RevertToSnapshot (fst (Snapshot w)) w').

(** A trace within the trace of the message. *)
Definition From w0 w : Prop := Tr root w0 ∧ Tr w0 w.
Lemma From_step w0 w w' : Tr w w' → From w0 w → From w0 w'.
Proof. intros Hw [Hr H0]. split; [done|]. by apply Tr_trans with w. Qed.
Lemma From_root w0 w : From w0 w → Tr root w.
Proof. intros [Hr H0]. by apply Tr_trans with w0. Qed.

(** ** Computations that change the database by a trace

    [p] is the database in the state of the computation; [keeps_at] speaks of
    runs that start with the database [w]. *)
Section keeps.
Context {S Er : Type} (p : S → W).

Definition keeps {A} (w0 : W) (m : st S Er A) : Prop := ∀ s, From w0 (p s) → From w0 (p (fst (m s))).
Definition keeps_at {A} (w0 w : W) (m : st S Er A) : Prop := ∀ s, p s = w → From w0 w → From w0 (p (fst (m s))).
Definition pure {A} (m : st S Er A) : Prop := ∀ s, p (fst (m s)) = p s.

Lemma keeps_at_of {A} w0 w (m : st S Er A) : keeps w0 m → keeps_at w0 w m.
Proof. intros Hm s <-. apply Hm. Qed.
Lemma keeps_pure {A} w0 (m : st S Er A) : pure m → keeps w0 m.
Proof. intros Hm s. by rewrite Hm. Qed.
Lemma keeps_bind {A B} w0 (m : st S Er A) (k : A → st S Er B) :
  keeps w0 m → (∀ a, keeps w0 (k a)) → keeps w0 (m ≫= k).
Proof.
  intros Hm Hk s Hs. unfold mbind, st_bind. specialize (Hm s Hs).
  destruct (m s) as [s' [a|e| |]]; try done. by apply Hk.
Qed.
Lemma keeps_at_bind {A B} w0 w (m : st S Er A) (k : A → st S Er B) :
  keeps_at w0 w m → (∀ a, keeps w0 (k a)) → keeps_at w0 w (m ≫= k).
Proof.
  intros Hm Hk s Hw Hs. unfold mbind, st_bind. specialize (Hm s Hw Hs).
  destruct (m s) as [s' [a|e| |]]; try done. by apply Hk.
Qed.
Lemma keeps_read {B} w0 (m : st S Er W) (k : W → st S Er B) :
  (∀ s, m s = (s, Ok (p s))) → (∀ w, keeps_at w0 w (k w)) → keeps w0 (m ≫= k).
Proof. intros Hm Hk s Hs. unfold mbind, st_bind. rewrite Hm. by apply (Hk (p s)). Qed.
Lemma keeps_at_read {B} w0 w (m : st S Er W) (k : W → st S Er B) :
  (∀ s, m s = (s, Ok (p s))) → keeps_at w0 w (k w) → keeps_at w0 w (m ≫= k).
Proof. intros Hm Hk s Hw Hs. unfold mbind, st_bind. rewrite Hm, Hw. by apply Hk. Qed.
(** A write of a successor of the database that was read. *)
Lemma keeps_at_write {A} w0 w w' (m : st S Er A) : (∀ s, p (fst (m s)) = w') → Tr w w' → keeps_at w0 w m.
Proof. intros Hm Hw s _ Hs. rewrite Hm. by apply From_step with w. Qed.

Lemma pure_bind {A B} (m : st S Er A) (k : A → st S Er B) : pure m → (∀ a, pure (k a)) → pure (m ≫= k).
Proof.
  intros Hm Hk s. unfold mbind, st_bind. specialize (Hm s). destruct (m s) as [s' [a|e| |]]; cbn in *; try done.
  rewrite <-Hm. apply Hk.
Qed.
Lemma pure_ret {A} (a : A) : pure (mret a).
Proof. done. Qed.
Lemma pure_lift {A} (r : res Er A) : pure (st_lift r).
Proof. done. Qed.
Lemma pure_err {A} (e : Er) : pure (st_err (A:=A) e).
Proof. done. Qed.
Lemma pure_panic {A} why : pure (st_panic (A:=A) why).
Proof. done. Qed.
End keeps.

(** ** The frame *)

Definition dbf (f : frame W) : W := db (evm f).
Abbreviation F := (st (frame W) evm_err).

Lemma pure_get : pure dbf (st_get (E:=evm_err)).
Proof. done. Qed.
Lemma pure_get_pc : pure dbf get_pc.
Proof. done. Qed.
Lemma pure_get_contract : pure dbf get_contract.
Proof. done. Qed.
Lemma pure_get_mem : pure dbf get_mem.
Proof. done. Qed.
Lemma pure_get_evm : pure dbf get_evm.
Proof. done. Qed.
Lemma pure_get_db : pure dbf get_db.
Proof. done. Qed.
Lemma pure_set_pc x : pure dbf (set_pc x).
Proof. done. Qed.
Lemma pure_set_mem x : pure dbf (set_mem x).
Proof. done. Qed.
Lemma pure_set_stack x : pure dbf (set_stack x).
Proof. done. Qed.
Lemma pure_set_contract x : pure dbf (set_contract x).
Proof. done. Qed.
Lemma pure_set_callGasTemp x : pure dbf (set_callGasTemp x).
Proof. done. Qed.
Lemma pure_set_returnData x : pure dbf (set_returnData x).
Proof. done. Qed.
Lemma pure_set_jumpdests x : pure dbf (set_jumpdests x).
Proof. done. Qed.
Lemma pure_lift_mem {A} (m : st Memory evm_err A) : pure dbf (lift_mem m).
Proof. intros f. unfold lift_mem. by destruct (m (mem f)). Qed.
End trace.

(** Proves [pure] and [keeps] along the structure of a computation. *)
Ltac head_const t := lazymatch t with ?f _ => head_const f | _ => t end.
Ltac pure_prim :=
  lazymatch goal with
  | |- pure _ (mret _) => apply pure_ret
  | |- pure _ (st_lift _) => apply pure_lift
  | |- pure _ (st_err _) => apply pure_err
  | |- pure _ (st_panic _) => apply pure_panic
  | |- pure _ st_get => apply pure_get
  | |- pure _ get_pc => apply pure_get_pc
  | |- pure _ get_contract => apply pure_get_contract
  | |- pure _ get_mem => apply pure_get_mem
  | |- pure _ get_evm => apply pure_get_evm
  | |- pure _ get_db => apply pure_get_db
  | |- pure _ (set_pc _) => apply pure_set_pc
  | |- pure _ (set_mem _) => apply pure_set_mem
  | |- pure _ (set_stack _) => apply pure_set_stack
  | |- pure _ (set_contract _) => apply pure_set_contract
  | |- pure _ (set_callGasTemp _) => apply pure_set_callGasTemp
  | |- pure _ (set_returnData _) => apply pure_set_returnData
  | |- pure _ (set_jumpdests _) => apply pure_set_jumpdests
  | |- pure _ (lift_mem _) => apply pure_lift_mem
  end.
Ltac trace :=
  lazymatch goal with
  | |- Tr _ ?w ?w => apply Tr_refl
  | |- Tr _ _ (CreateAccount _ _) => eapply Tr_trans; [|apply Tr_CreateAccount]; trace
  | |- Tr _ _ (AddBalance _ 0 _) => eapply Tr_trans; [|apply Tr_Touch]; trace
  | |- Tr _ _ (SetNonce _ _ _) => eapply Tr_trans; [|apply Tr_SetNonce]; trace
  | |- Tr _ _ (SetCode _ _ _) => eapply Tr_trans; [|apply Tr_SetCode]; trace
  | |- Tr _ _ (SetState _ _ _ _) => eapply Tr_trans; [|apply Tr_SetState]; trace
  | |- Tr _ _ (Suicide _ (AddBalance _ _ _)) => eapply Tr_trans; [|apply Tr_Suicide]; trace
  | |- Tr _ _ (AddRefund _ _) => eapply Tr_trans; [|apply Tr_AddRefund]; trace
  | |- Tr _ _ (AddAddressToAccessList _ _) => eapply Tr_trans; [|apply Tr_AddAddress]; trace
  | |- Tr _ _ (AddSlotToAccessList _ _ _) => eapply Tr_trans; [|apply Tr_AddSlot]; trace
  | |- Tr _ _ (AddLog _ _ _ _) => eapply Tr_trans; [|apply Tr_AddLog]; trace
  | |- Tr _ _ (AddPreimage _ _ _) => eapply Tr_trans; [|apply Tr_AddPreimage]; trace
  end.
Ltac keeps_step :=
  lazymatch goal with
  | |- keeps _ _ _ (get_db ≫= _) => apply keeps_read; [done|intros ?]
  | |- keeps _ _ _ (_ ≫= _) => apply keeps_bind; [|intros ?]
  | |- keeps _ _ _ (if ?b then _ else _) => destruct b
  | |- keeps _ _ _ (match ?x with _ => _ end) => destruct x
  | |- keeps_at _ _ _ _ (get_db ≫= _) => apply keeps_at_read; [done|]
  | |- keeps_at _ _ _ _ (set_db _ ≫= _) => apply keeps_at_bind; [|intros ?]
  | |- keeps_at _ _ _ _ ((if ?b then set_db _ else _) ≫= _) => destruct b
  | |- keeps_at _ _ _ _ (set_db ?w) => apply (keeps_at_write _ _ _ _ w); [done|trace]
  | |- keeps_at _ _ _ _ (if ?b then _ else _) => destruct b
  | |- keeps_at _ _ _ _ (match ?x with _ => _ end) => destruct x
  | |- keeps_at _ _ _ _ _ => apply keeps_at_of
  | |- keeps _ _ _ ?m => first [apply keeps_pure; pure_prim|let h := head_const m in unfold h; cbv beta]
  end.

Section instructions.
Context {W : Type} `{!Uint256, !StateDB W} {org : Origin W} (env : Env W).
Abbreviation F := (st (frame W) evm_err).

Lemma keeps_sub_refund w0 g : keeps env dbf w0 (sub_refund g).
Proof.
  intros f Hf. unfold sub_refund, get_db, mbind, st_bind, st_get, st_lift, mret, st_ret.
  destruct (SubRefund g (db (evm f))) eqn:Hs; try done. cbn. apply From_step with (dbf f); [|done]. by apply Tr_SubRefund with g.
Qed.
Lemma keeps_check_jump w0 pos : keeps env dbf w0 (check_jump env pos).
Proof.
  apply keeps_pure. intros f. unfold check_jump.
  destruct (validJumpdest _ _ _ _ _) as [[[b c] j]| | |]; done.
Qed.
Lemma keeps_pop_topics w0 n : keeps env dbf w0 (pop_topics (W:=W) n).
Proof. induction n; cbn [pop_topics]; repeat (exact IHn || keeps_step). Qed.
End instructions.

(** Runs through an instruction or a gas function. *)
Ltac keeps_all :=
  repeat (lazymatch goal with
          | |- keeps _ _ _ (sub_refund _) => apply keeps_sub_refund
          | |- keeps _ _ _ (check_jump _ _) => apply keeps_check_jump
          | |- keeps _ _ _ (pop_topics _) => apply keeps_pop_topics
          | |- _ => keeps_step
          end).

(** ** The jump tables *)

Section table.
Context {W : Type} `{!Uint256, !StateDB W} {org : Origin W} (env : Env W).
Abbreviation F := (st (frame W) evm_err).

Lemma allowed_bigVal v : allowed (bigVal v).
Proof. apply allowed_nonneg. unfold bigVal, ToBig. destruct (negb _); [|done]. apply Z.mod_pos_bound. lia. Qed.

(** The interface of the calls to other frames. *)
Record calls_keep (calls : Calls W) : Prop := {
  Call_keeps w0 c a i g v : allowed v → keeps env db w0 (Call calls c a i g v);
  CallCode_keeps w0 c a i g v : keeps env db w0 (CallCode calls c a i g v);
  DelegateCall_keeps w0 c a i g : keeps env db w0 (DelegateCall calls c a i g);
  StaticCall_keeps w0 c a i g : keeps env db w0 (StaticCall calls c a i g);
  Create_keeps w0 c i g v : allowed v → keeps env db w0 (Create calls c i g v);
  Create2_keeps w0 c i g v s : allowed v → keeps env db w0 (Create2 calls c i g v s)
}.
Lemma keeps_lift_call {A} w0 (m : st (EVM W) Empty_set A) : keeps env db w0 m → keeps env dbf w0 (lift_call m).
Proof.
  intros Hm f Hf. unfold lift_call. specialize (Hm (evm f) Hf). by destruct (m (evm f)) as [e' [?|[]| |]].
Qed.

Definition op_keeps (o : operation (W:=W)) : Prop :=
  (∀ calls w0, calls_keep calls → keeps env dbf w0 (execute o calls)) ∧
  (∀ d ms w0, dynamicGas o = Some d → keeps env dbf w0 (d ms)) ∧
  (∀ m w0, memorySize o = Some m → keeps env dbf w0 m).
Definition table_keeps : JumpTable (W:=W) → Prop := Forall (λ x, op_keeps (snd x)).

Lemma table_keeps_get jt op o : table_keeps jt → jt_get op jt = Some o → op_keeps o.
Proof.
  induction 1 as [|[op' o'] jt Ho _ IH]; [done|]. cbn [jt_get].
  destruct (op =? op'); [by intros [= <-]|apply IH].
Qed.
Lemma table_keeps_const op g jt : table_keeps jt → table_keeps (set_constantGas op g jt).
Proof.
  intros Hjt. unfold set_constantGas. destruct (jt_get op jt) as [o|] eqn:Ho; [|done].
  constructor; [|done]. exact (table_keeps_get jt op o Hjt Ho).
Qed.
Lemma table_keeps_dyn op d jt : (∀ ms w0, keeps env dbf w0 (d ms)) → table_keeps jt → table_keeps (set_dynamicGas op d jt).
Proof.
  intros Hd Hjt. unfold set_dynamicGas. destruct (jt_get op jt) as [o|] eqn:Ho; [|done].
  apply (table_keeps_get jt op) in Ho as (He & _ & Hm); [|done]. constructor; [|done].
  split_and!; [done| |done]. by intros d' ms w0 [= <-].
Qed.
Lemma table_keeps_reprice op g d jt : (∀ ms w0, keeps env dbf w0 (d ms)) → table_keeps jt → table_keeps (reprice op g d jt).
Proof. intros Hd Hjt. by apply table_keeps_dyn, table_keeps_const. Qed.
End table.

Ltac keeps_calls H :=
  lazymatch goal with
  | |- keeps _ _ _ (lift_call (Call _ _ _ _ _ _)) => apply keeps_lift_call, (Call_keeps _ _ H), allowed_bigVal
  | |- keeps _ _ _ (lift_call (CallCode _ _ _ _ _ _)) => apply keeps_lift_call, (CallCode_keeps _ _ H)
  | |- keeps _ _ _ (lift_call (DelegateCall _ _ _ _ _)) => apply keeps_lift_call, (DelegateCall_keeps _ _ H)
  | |- keeps _ _ _ (lift_call (StaticCall _ _ _ _ _)) => apply keeps_lift_call, (StaticCall_keeps _ _ H)
  | |- keeps _ _ _ (lift_call (Create _ _ _ _ _)) => apply keeps_lift_call, (Create_keeps _ _ H), allowed_bigVal
  | |- keeps _ _ _ (lift_call (Create2 _ _ _ _ _ _)) => apply keeps_lift_call, (Create2_keeps _ _ H), allowed_bigVal
  | |- keeps _ _ _ (sub_refund _) => apply keeps_sub_refund
  | |- keeps _ _ _ (check_jump _ _) => apply keeps_check_jump
  | |- keeps _ _ _ (pop_topics _) => apply keeps_pop_topics
  | |- _ => keeps_step
  end.
Ltac op_keeps :=
  split_and!;
  [let H := fresh in intros ? ? H; cbn [execute]; repeat keeps_calls H
  |intros ? ? ?; cbn [dynamicGas]; (intros [= <-] || intros [=]); keeps_all
  |intros ? ?; cbn [memorySize]; (intros [= <-] || intros [=]); keeps_all].

Section tables.
Context {W : Type} `{!Uint256, !StateDB W} {org : Origin W} (env : Env W).
Ltac entries := repeat (apply Forall_cons_2; [cbn [snd]; op_keeps|]); try apply Forall_nil_2.

Lemma frontier_arith_keeps : table_keeps env (frontier_arith (W:=W)).
Proof. unfold frontier_arith. entries. Qed.
Lemma frontier_compare_keeps : table_keeps env (frontier_compare env).
Proof. unfold frontier_compare. entries. Qed.
Lemma frontier_env_keeps : table_keeps env (frontier_env env).
Proof. unfold frontier_env. entries. Qed.
Lemma frontier_flow_keeps : table_keeps env (frontier_flow env).
Proof. unfold frontier_flow. entries. Qed.
Lemma frontier_push_lo_keeps : table_keeps env (frontier_push_lo (W:=W)).
Proof. unfold frontier_push_lo. entries. Qed.
Lemma frontier_push_hi_keeps : table_keeps env (frontier_push_hi (W:=W)).
Proof. unfold frontier_push_hi. entries. Qed.
Lemma frontier_dup_keeps : table_keeps env (frontier_dup (W:=W)).
Proof. unfold frontier_dup. entries. Qed.
Lemma frontier_swap_keeps : table_keeps env (frontier_swap (W:=W)).
Proof. unfold frontier_swap. entries. Qed.
Lemma frontier_system_keeps : table_keeps env (frontier_system env).
Proof. unfold frontier_system. entries. Qed.
Lemma newFrontier_keeps : table_keeps env (newFrontierInstructionSet env).
Proof.
  unfold newFrontierInstructionSet, table_keeps. rewrite !Forall_app.
  split_and!; [apply frontier_arith_keeps|apply frontier_compare_keeps|apply frontier_env_keeps|apply frontier_flow_keeps|
    apply frontier_push_lo_keeps|apply frontier_push_hi_keeps|apply frontier_dup_keeps|apply frontier_swap_keeps|
    apply frontier_system_keeps].
Qed.
Ltac table :=
  repeat lazymatch goal with
  | |- table_keeps _ (set_constantGas _ _ _) => apply table_keeps_const
  | |- table_keeps _ (set_dynamicGas _ _ _) => apply table_keeps_dyn; [intros; keeps_all|]
  | |- table_keeps _ (reprice _ _ _ _) => apply table_keeps_reprice; [intros; keeps_all|]
  | |- table_keeps _ (_ :: _) => apply Forall_cons_2; [cbn [snd]; op_keeps|lazymatch goal with |- Forall _ ?t => change (table_keeps env t) end]
  end.
Lemma newHomestead_keeps : table_keeps env (newHomesteadInstructionSet env).
Proof. unfold newHomesteadInstructionSet. table. apply newFrontier_keeps. Qed.
Lemma newTangerineWhistle_keeps : table_keeps env (newTangerineWhistleInstructionSet env).
Proof. unfold newTangerineWhistleInstructionSet. table. apply newHomestead_keeps. Qed.
Lemma newSpuriousDragon_keeps : table_keeps env (newSpuriousDragonInstructionSet env).
Proof. unfold newSpuriousDragonInstructionSet. table. apply newTangerineWhistle_keeps. Qed.
Lemma newByzantium_keeps : table_keeps env (newByzantiumInstructionSet env).
Proof. unfold newByzantiumInstructionSet. table. apply newSpuriousDragon_keeps. Qed.
Lemma newConstantinople_keeps : table_keeps env (newConstantinopleInstructionSet env).
Proof. unfold newConstantinopleInstructionSet. table. apply newByzantium_keeps. Qed.
Lemma newIstanbul_keeps : table_keeps env (newIstanbulInstructionSet env).
Proof. unfold newIstanbulInstructionSet, enable2200, enable1884, enable1344. table. apply newConstantinople_keeps. Qed.
Lemma newBerlin_keeps : table_keeps env (newBerlinInstructionSet env).
Proof. unfold newBerlinInstructionSet, enable2929. cbn zeta. table. apply newIstanbul_keeps. Qed.
Lemma newLondon_keeps : table_keeps env (newLondonInstructionSet env).
Proof. unfold newLondonInstructionSet, enable3198, enable3529. table. apply newBerlin_keeps. Qed.

Lemma instructionSet_keeps : table_keeps env (instructionSet env).
Proof.
  unfold instructionSet. cbn zeta.
  repeat match goal with |- table_keeps _ (if ?b then _ else _) => destruct b end;
    auto using newFrontier_keeps, newHomestead_keeps, newTangerineWhistle_keeps, newSpuriousDragon_keeps,
      newByzantium_keeps, newConstantinople_keeps, newIstanbul_keeps, newBerlin_keeps, newLondon_keeps.
Qed.

(** ** The interpreter *)

Lemma keeps_dynamic_gas w0 d ms : (∀ ms, keeps env dbf w0 (d ms)) → keeps env dbf w0 (dynamic_gas d ms).
Proof.
  intros Hd f Hf. unfold dynamic_gas. specialize (Hd ms f Hf). by destruct (d ms f) as [f' []].
Qed.
Lemma keeps_required_memory w0 o : op_keeps env o → keeps env dbf w0 (required_memory o).
Proof.
  intros (_ & _ & Hm). unfold required_memory. destruct (memorySize o) as [m|] eqn:Hms; [|apply keeps_pure; pure_prim].
  apply keeps_bind; [by apply Hm|]. intros [? []]; keeps_all.
Qed.
Lemma keeps_run_op w0 calls op o : calls_keep env calls → op_keeps env o → keeps env dbf w0 (run_op env calls op o).
Proof.
  intros Hc Ho. unfold run_op.
  apply keeps_bind; [keeps_all|intros _]. apply keeps_bind; [keeps_all|intros _].
  apply keeps_bind; [by apply keeps_required_memory|intros ms]. apply keeps_bind; [|intros _].
  - destruct (dynamicGas o) as [d|] eqn:Hd; [|keeps_all]. apply keeps_bind; [|intros; keeps_all].
    apply keeps_dynamic_gas. intros. by apply Ho.
  - apply keeps_bind; [keeps_all|intros _]. apply keeps_bind; [by apply Ho|intros ret]. keeps_all.
Qed.
Lemma keeps_step w0 calls : calls_keep env calls → keeps env dbf w0 (step env calls).
Proof.
  intros Hc. apply keeps_bind; [keeps_all|intros f].
  cbn zeta. destruct (jt_get (GetOp (contract f) (pc f)) (instructionSet env)) as [o|] eqn:Ho; [|keeps_all].
  apply (table_keeps_get env _ _ _ instructionSet_keeps) in Ho.
  destruct (_ <? _); [keeps_all|]. destruct (_ <? _); [keeps_all|]. by apply keeps_run_op.
Qed.

(** ** Call frames *)

Abbreviation G := (st (EVM W) Empty_set).
Abbreviation Loop := (frame W → frame W * res evm_err (bytes * option evm_err)).
Definition loop_keeps (l : Loop) : Prop := ∀ w0 f, From env w0 (dbf f) → From env w0 (dbf (fst (l f))).

Lemma keeps_g_set w0 w w' : Tr env w w' → keeps_at env db w0 w (g_set_db w').
Proof. intros Hw. by apply keeps_at_write with w'. Qed.
Lemma keeps_Run w0 l c input ro : loop_keeps l → keeps env db w0 (Run l c input ro).
Proof.
  intros Hl e He. unfold Run. destruct (Code c) as [|b code]; [by destruct (ro && _)|].
  set (f := mk_frame _ _ _ _ _). specialize (Hl w0 f). destruct (l f) as [f' r]. cbn.
  assert (dbf f = db e) as Hf by (unfold f; by destruct (ro && _)). rewrite Hf in Hl.
  destruct (ro && negb (readOnly e)); by apply Hl.
Qed.
Lemma keeps_run_contract w0 l c input ro : loop_keeps l → keeps env db w0 (run_contract l c input ro).
Proof. intros Hl. apply keeps_bind; [by apply keeps_Run|]. intros [[? ?] ?]. by apply keeps_pure. Qed.
Lemma keeps_run_code w0 l c a input g ro : loop_keeps l → keeps env db w0 (run_code env l c a input g ro).
Proof.
  intros Hl. unfold run_code. destruct (precompile env a); [by apply keeps_pure|].
  apply keeps_read; [done|]. intros w. apply keeps_at_of. by apply keeps_run_contract.
Qed.

(** A call between its snapshot, taken in [w], and its end. *)
Definition ends {A} (w : W) (m : G A) : Prop :=
  ∀ e, From env (snd (Snapshot w)) (db e) → Tr env w (db (fst (m e))).
Definition ends_at {A} (w w1 : W) (m : G A) : Prop :=
  ∀ e, db e = w1 → From env (snd (Snapshot w)) w1 → Tr env w (db (fst (m e))).

Lemma ends_keeps {A} w (m : G A) : keeps env db (snd (Snapshot w)) m → ends w m.
Proof. intros Hm e He. apply Tr_trans with (snd (Snapshot w)); [apply Tr_Snapshot|by apply Hm]. Qed.
Lemma ends_at_of {A} w w1 (m : G A) : ends w m → ends_at w w1 m.
Proof. intros Hm e <-. apply Hm. Qed.
Lemma ends_bind {A B} w (m : G A) (k : A → G B) :
  keeps env db (snd (Snapshot w)) m → (∀ a, ends w (k a)) → ends w (m ≫= k).
Proof.
  intros Hm Hk e He. pose proof (ends_keeps w m Hm e He) as Hf. specialize (Hm e He). unfold mbind, st_bind.
  destruct (m e) as [e' [a|[]| |]]; [by apply Hk|exact Hf..].
Qed.
Lemma ends_revert {A} w (k : unit → G A) :
  (∀ u, pure db (k u)) → ends w (w1 ← g_db; g_set_db (RevertToSnapshot (fst (Snapshot w)) w1) ≫= k).
Proof.
  intros Hk e [_ He]. unfold g_db, g_set_db, mbind, st_bind, st_get, mret, st_ret, st_modify. rewrite Hk. by apply Tr_Revert.
Qed.
Lemma ends_finish w r : ends w (finish (fst (Snapshot w)) r).
Proof.
  unfold finish. destruct r as [[ret gas] [err|]]; [by apply ends_revert|]. apply ends_keeps, keeps_pure. done.
Qed.

Lemma keeps_get {A} w0 (k : EVM W → G A) :
  (∀ e, Tr env root (db e) → keeps_at env db w0 (db e) (k e)) → keeps env db w0 (st_get ≫= k).
Proof. intros Hk e He. apply (Hk e); [by apply From_root with w0|done..]. Qed.
Lemma ends_ret {A} w (a : A) : ends w (mret a).
Proof. apply ends_keeps, keeps_pure. done. Qed.

(** Reads and writes in a row, with the database known after each. *)
Lemma keeps_at_set {A} w0 w w' (k : unit → G A) :
  Tr env w w' → keeps_at env db w0 w' (k tt) → keeps_at env db w0 w (g_set_db w' ≫= k).
Proof. intros Hw Hk e _ Ht. apply (Hk (set_world w' e)); [done|]. by apply From_step with w. Qed.
Lemma keeps_at_ret {A B} w0 w (a : A) (k : A → G B) : keeps_at env db w0 w (k a) → keeps_at env db w0 w (mret a ≫= k).
Proof. done. Qed.
Lemma keeps_at_snapshot {A} w0 w (k : Z → G A) :
  ends_at w (snd (Snapshot w)) (k (fst (Snapshot w))) → keeps_at env db w0 w (snapshot_ ≫= k).
Proof.
  intros Hk e <- He. apply From_step with (db e); [|done]. apply From_root in He.
  unfold snapshot_, g_db, g_set_db, mbind, st_bind, st_get, mret, st_ret, st_modify.
  destruct (Snapshot (db e)) as [id w1] eqn:Hs. cbn [fst snd] in *. apply Hk; [done|]. rewrite Hs. split; [|apply Tr_refl].
  apply Tr_trans with (db e); [done|]. cbn [snd]. replace w1 with (snd (Snapshot (db e))) by (by rewrite Hs). apply Tr_Snapshot.
Qed.
Lemma ends_at_set {A} w w1 w2 (k : unit → G A) : Tr env w1 w2 → ends_at w w2 (k tt) → ends_at w w1 (g_set_db w2 ≫= k).
Proof. intros Hw Hk e _ Ht. apply (Hk (set_world w2 e)); [done|]. by apply From_step with w1. Qed.
Lemma ends_at_db {A} w w1 (k : W → G A) : ends_at w w1 (k w1) → ends_at w w1 (g_db ≫= k).
Proof. intros Hk e <- He. by apply Hk. Qed.
Lemma ends_at_ret {A B} w w1 (a : A) (k : A → G B) : ends_at w w1 (k a) → ends_at w w1 (mret a ≫= k).
Proof. done. Qed.

Ltac prep := repeat first [apply Prep_refl|apply Prep_Snapshot|apply Prep_SetNonce|apply Prep_CreateAccount|apply Prep_AddAddress].
Ltac effect :=
  lazymatch goal with
  | |- Tr _ _ (Transfer _ _ _ _ _) => eapply Tr_Transfer; [assumption|eassumption|assumption|prep]
  | |- _ => trace
  end.
Ltac g_step :=
  lazymatch goal with
  | |- keeps _ _ _ (st_get ≫= _) => apply keeps_get; intros ? ?; cbv zeta
  | |- keeps _ _ _ (mret _) => by apply keeps_pure
  | |- keeps_at _ _ _ _ (snapshot_ ≫= _) => apply keeps_at_snapshot
  | |- keeps_at _ _ _ _ (g_db ≫= _) => apply keeps_at_read; [done|]; cbv zeta
  | |- keeps_at _ _ _ _ (g_set_db _ ≫= _) => apply keeps_at_set; [effect|]
  | |- keeps_at _ _ _ _ (mret _ ≫= _) => apply keeps_at_ret
  | |- keeps_at _ _ _ _ ((if ?b then _ else _) ≫= _) => destruct b
  | |- keeps_at _ _ _ _ (if ?b then _ else _) => destruct b eqn:?
  | |- keeps_at _ _ _ _ (mret _) => apply keeps_at_of; by apply keeps_pure
  | |- ends_at _ _ (g_db ≫= _) => apply ends_at_db; cbv zeta
  | |- ends_at _ _ (g_set_db _ ≫= _) => apply ends_at_set; [effect|]
  | |- ends_at _ _ (mret _ ≫= _) => apply ends_at_ret
  | |- ends_at _ _ ((if ?b then _ else _) ≫= _) => destruct b
  | |- ends_at _ _ (if ?b then _ else _) => destruct b
  | |- ends_at _ _ (mret _) => apply ends_at_of, ends_ret
  end.

(** The guard of a call. *)
Lemma can_pay w caller value : negb (value =? 0) && negb (CanTransfer env w caller value) = false →
  value = 0 ∨ CanTransfer env w caller value = true.
Proof. destruct (Z.eqb_spec value 0); [by left|]. cbn. intros ?%negb_false_iff. by right. Qed.

Lemma Call_trace w0 l caller addr input gas value :
  allowed value → loop_keeps l → keeps env db w0 (Call_ env l caller addr input gas value).
Proof.
  intros Hv Hl. unfold Call_. do 5 g_step; try by (apply keeps_at_of, keeps_pure).
  revert select (negb _ && negb _ = false). intros Hpay%can_pay. repeat g_step.
  all: apply ends_at_of, ends_bind; [|intros; apply ends_finish].
  all: destruct (precompile env addr); [by apply keeps_pure|].
  all: destruct (GetCode _ addr); [by apply keeps_pure|by apply keeps_run_contract].
Qed.
Lemma CallCode_trace w0 l c addr input gas value : loop_keeps l → keeps env db w0 (CallCode_ env l c addr input gas value).
Proof.
  intros Hl. unfold CallCode_. repeat g_step. apply ends_at_of, ends_bind; [by apply keeps_run_code|intros; apply ends_finish].
Qed.
Lemma DelegateCall_trace w0 l c addr input gas : loop_keeps l → keeps env db w0 (DelegateCall_ env l c addr input gas).
Proof.
  intros Hl. unfold DelegateCall_. repeat g_step. apply ends_at_of, ends_bind; [by apply keeps_run_code|intros; apply ends_finish].
Qed.
Lemma StaticCall_trace w0 l c addr input gas : loop_keeps l → keeps env db w0 (StaticCall_ env l c addr input gas).
Proof.
  intros Hl. unfold StaticCall_. repeat g_step. apply ends_at_of, ends_bind; [by apply keeps_run_code|intros; apply ends_finish].
Qed.
Lemma keeps_store_code w0 a ret c err : keeps env db w0 (store_code env a ret c err).
Proof.
  unfold store_code. destruct err; [by apply keeps_pure|]. destruct (_ && _); [by apply keeps_pure|].
  destruct (_ && _); [by apply keeps_pure|]. destruct (UseGas _ c) as [[] c']; [|by apply keeps_pure].
  apply keeps_read; [done|]. intros w. apply keeps_at_bind; [apply keeps_g_set; trace|]. intros. by apply keeps_pure.
Qed.
Lemma create_trace w0 l caller code ch gas value address :
  allowed value → loop_keeps l → keeps env db w0 (create env l caller code ch gas value address).
Proof.
  intros Hv Hl. unfold create. do 4 g_step; try by (apply keeps_at_of, keeps_pure).
  revert select (negb (CanTransfer _ _ _ _) = false). intros Hpay%negb_false_iff.
  assert (value = 0 ∨ CanTransfer env (db e) caller value = true) as Hguard by (by right). repeat g_step.
  all: apply ends_at_of, ends_bind; [by apply keeps_Run|intros [[ret c] err]].
  all: apply ends_bind; [apply keeps_store_code|intros [c' err']].
  all: destruct err' as [x|]; [|apply ends_ret].
  all: destruct (IsHomestead _ || _); [by apply ends_revert|apply ends_ret].
Qed.

Lemma calls_of_keep l : loop_keeps l → calls_keep env (calls_of env l).
Proof.
  intros Hl. split; intros; cbn.
  - by apply Call_trace.
  - by apply CallCode_trace.
  - by apply DelegateCall_trace.
  - by apply StaticCall_trace.
  - unfold Create_. apply keeps_read; [done|]. intros w. apply keeps_at_of. by apply create_trace.
  - by apply create_trace.
Qed.
Lemma loop_trace fuel : loop_keeps (loop env fuel).
Proof.
  induction fuel as [|fuel IH]; intros w0 f Hf; [done|]. cbn [loop].
  pose proof (keeps_step w0 (calls_of env (loop env fuel)) (calls_of_keep _ IH) f Hf) as Hs.
  destruct (step env (calls_of env (loop env fuel)) f) as [f' [[r|]|e| |]]; try done. by apply IH.
Qed.

(** ** Failed calls *)

(** A result with an error comes with a revert to the snapshot taken in [w]. *)
Definition reverted (w : W) (e' : EVM W) : Prop :=
  ∃ w1, Tr env (snd (Snapshot w)) w1 ∧ db e' = RevertToSnapshot (fst (Snapshot w)) w1.
Definition fails_at (w w1 : W) (m : G callres) : Prop :=
  ∀ e e' ret g err, db e = w1 → From env (snd (Snapshot w)) w1 → m e = (e', Ok (ret, g, Some err)) → reverted w e'.
Definition fails (w : W) (m : G callres) : Prop := ∀ w1, fails_at w w1 m.

Lemma fails_at_of w w1 m : fails w m → fails_at w w1 m.
Proof. intros Hm. apply Hm. Qed.
Lemma fails_bind {A} w (m : G A) (k : A → G callres) :
  keeps env db (snd (Snapshot w)) m → (∀ a, fails w (k a)) → fails w (m ≫= k).
Proof.
  intros Hm Hk w1 e e' ret g err <- He. specialize (Hm e He). unfold mbind, st_bind.
  destruct (m e) as [e1 [a|[]| |]]; try done. by apply (Hk a (db e1) e1).
Qed.
Lemma fails_finish w r : fails w (finish (fst (Snapshot w)) r).
Proof.
  intros w1 e e' ret g err Hw He. destruct r as [[ret0 g0] [x|]]; [|done].
  unfold finish, g_db, g_set_db, mbind, st_bind, st_get, mret, st_ret, st_modify. intros [= <- _ _ _].
  exists (db e). cbn. rewrite Hw. by destruct He.
Qed.
Lemma fails_ret w ret g : fails w (mret (ret, g, None)).
Proof. by intros w1 e e' ret' g' err _ _. Qed.

Lemma fails_at_set w w1 w2 k : Tr env w1 w2 → fails_at w w2 (k tt) → fails_at w w1 (g_set_db w2 ≫= k).
Proof.
  intros Hw Hk e e' ret g err _ Ht. apply (Hk (set_world w2 e)); [done|]. by apply From_step with w1.
Qed.
Lemma fails_at_db w w1 k : fails_at w w1 (k w1) → fails_at w w1 (g_db ≫= k).
Proof. intros Hk e e' ret g err <- He. by apply Hk. Qed.
Lemma fails_at_ret {A} w w1 (a : A) (k : A → G callres) : fails_at w w1 (k a) → fails_at w w1 (mret a ≫= k).
Proof. done. Qed.

Ltac f_step :=
  lazymatch goal with
  | |- fails_at _ _ (g_db ≫= _) => apply fails_at_db; cbv zeta
  | |- fails_at _ _ (g_set_db _ ≫= _) => apply fails_at_set; [effect|]
  | |- fails_at _ _ ((if ?b then _ else _) ≫= _) => destruct b
  | |- fails_at _ _ (if ?b then _ else _) => destruct b
  | |- fails_at _ _ (mret _ ≫= _) => apply fails_at_ret
  | |- fails_at _ _ (mret _) => apply fails_at_of, fails_ret
  end.

(** A call that fails was refused at entry, or it ends with a revert to its own
    snapshot. *)
Lemma Call_failed l caller addr input gas value e e' ret g err :
  allowed value → root = db e → loop_keeps l → Call_ env l caller addr input gas value e = (e', Ok (ret, g, Some err)) →
  e' = e ∧ g = gas ∧ (err = ErrDepth ∨ err = ErrAddressDenied ∨ err = ErrInsufficientBalance) ∨ reverted (db e) e'.
Proof.
  intros Hv Hroot Hl. assert (Tr env root (db e)) as Htr by (rewrite Hroot; apply Tr_refl).
  assert (From env (snd (Snapshot (db e))) (snd (Snapshot (db e)))) as Hfrom.
  { split; [|apply Tr_refl]. apply Tr_trans with (db e); [done|apply Tr_Snapshot]. }
  unfold Call_. unfold mbind at 1, st_bind at 1, st_get. cbv beta iota.
  destruct (NoRecursion env && _); [done|].
  destruct (CallCreateDepth <? depth e); [intros [= <- <- <- <-]; left; auto|].
  destruct ((0 <? depth e) && _); [intros [= <- <- <- <-]; left; auto|].
  destruct (negb (value =? 0) && _) eqn:Hpay; [intros [= <- <- <- <-]; left; auto|]. apply can_pay in Hpay.
  unfold mbind at 1, st_bind at 1. unfold snapshot_ at 1, g_db at 1, g_set_db at 1, mbind at 1 2 3, st_bind at 1 2 3.
  unfold st_get, mret at 1 2, st_ret at 1 2, st_modify. destruct (Snapshot (db e)) as [id w0] eqn:Hs. cbv beta iota.
  assert (id = fst (Snapshot (db e)) ∧ w0 = snd (Snapshot (db e))) as [-> ->] by (by rewrite Hs). intros Hm. right.
  revert Hm. match goal with |- ?m ?e1 = _ → _ => intros Hm; refine ((_ : fails_at (db e) _ m) e1 e' ret g err eq_refl Hfrom Hm) end.
  cbn [db set_world]. repeat f_step.
  all: apply fails_at_of, fails_bind; [|intros; apply fails_finish].
  all: destruct (precompile env addr); [by apply keeps_pure|].
  all: destruct (GetCode _ addr); [by apply keeps_pure|by apply keeps_run_contract].
Qed.
End tables.
