(* ===== verification/EvmSafety.v ===== *)
(** * Safety, gas and termination of the EVM

    Every operation of every jump table, run in a well-formed frame, keeps the
    frame well-formed, never panics and pays for itself; from this the loop and
    the call functions are total on well-formed machines: fuel above the gas is
    always enough, gas is never created, and read-only frames change the
    database only in the ways of [RO].

    The proofs follow the structure of the interpreter: a weakest precondition
    for frame computations, a specification of the gas function and of the
    instruction of an operation, and one lemma that combines them. *)
From stdpp Require Import gmap.
From S2P Require Import Prelude EvmAnalysis EvmBase EvmMachine EvmGas EvmTable EvmInterp.

(** ** The database and the environment *)

(** Code is a string of bytes that fits into memory. *)
Definition code_ok (code : bytes) : Prop := bytes_ok code ∧ len code < 2 ^ 62.

(** What the machine relies on in a database: an invariant of its own under which
    the code it returns is code and [SubRefund] panics with its message at most, and
    which every operation keeps that the machine calls. *)
Class WorldLaws (W : Type) `{!StateDB W} := {
  world_ok : W → Prop;
  ok_GetCode w a : world_ok w → code_ok (GetCode w a);
  ok_GetRefund w : world_ok w → 0 ≤ GetRefund w;
  ok_SubRefund g w : world_ok w →
    match SubRefund g w with Ok w' => world_ok w' | Panic p => p = refund_below_zero | _ => False end;
  ok_CreateAccount a w : world_ok w → world_ok (CreateAccount a w);
  ok_SubBalance a x w : world_ok w → world_ok (SubBalance a x w);
  ok_AddBalance a x w : world_ok w → world_ok (AddBalance a x w);
  ok_SetNonce a n w : world_ok w → world_ok (SetNonce a n w);
  ok_SetCode a c w : code_ok c → world_ok w → world_ok (SetCode a c w);
  ok_AddRefund g w : world_ok w → world_ok (AddRefund g w);
  ok_SetState a k v w : world_ok w → world_ok (SetState a k v w);
  ok_Suicide a w : world_ok w → world_ok (Suicide a w);
  ok_AddAddress a w : world_ok w → world_ok (AddAddressToAccessList a w);
  ok_AddSlot a k w : world_ok w → world_ok (AddSlotToAccessList a k w);
  ok_Revert id w : world_ok w → world_ok (RevertToSnapshot id w);
  ok_Snapshot w : world_ok w → world_ok (snd (Snapshot w));
  ok_AddLog a ts x w : world_ok w → world_ok (AddLog a ts x w);
  ok_AddPreimage h x w : world_ok w → world_ok (AddPreimage h x w)
}.
Create HintDb world discriminated.
#[export] Hint Resolve ok_CreateAccount ok_SubBalance ok_AddBalance ok_SetNonce ok_SetCode ok_AddRefund ok_SetState ok_Suicide
  ok_AddAddress ok_AddSlot ok_Revert ok_Snapshot ok_AddLog ok_AddPreimage : world.

(** The reasons for which a run may panic: the check of the refund counter, the check
    that the address of a running contract is in the access list, and an analysis that a
    cache holds for the hash of the code but that is shorter than the code, which takes
    two codes with one hash. *)
Definition evm_panic (p : panic) : Prop :=
  p = refund_below_zero ∨ p = address_not_present ∨ p = index_of "bitvec".

Section laws.
Context {W : Type} `{!StateDB W, !WorldLaws W} (env : Env W).

(** A context of a block and a message: nothing is assumed of the hash function or of
    the cache of analyses. *)
Record env_ok : Prop := {
  rules_ok : IsBerlin (chainRules env) || IsLondon (chainRules env) = true → IsEIP150 (chainRules env) = true;
  Origin_ok : is_u256 (Origin env);
  Coinbase_ok : is_u256 (Coinbase env);
  GasLimit_ok : is_u64 (GasLimit env);
  BaseFee_ok : IsLondon (chainRules env) = true → is_Some (BaseFee env);
  Transfer_ok a b x w : world_ok w → world_ok (Transfer env a b x w);
  precompile_ok : ∀ a p input, precompile env a = Some p →
    0 ≤ RequiredGas p input ∧
    match RunPre p input with Ok out => code_ok out | Err _ => True | _ => False end
}.

(** What a read-only frame may do to the database. *)
Inductive RO : W → W → Prop :=
| RO_refl w : RO w w
| RO_trans w1 w2 w3 : RO w1 w2 → RO w2 w3 → RO w1 w3
| RO_address w a : RO w (AddAddressToAccessList a w)
| RO_slot w a s : RO w (AddSlotToAccessList a s w)
| RO_preimage w h d : RO w (AddPreimage h d w)
| RO_touch w a : RO w (AddBalance a 0 w)
| RO_new w a : Exist w a = false → RO w (CreateAccount a w)
| RO_transfer0 w a b : RO w (Transfer env a b 0 w)
| RO_snapshot w : RO w (snd (Snapshot w))
| RO_revert w w' : RO (snd (Snapshot w)) w' → RO w (RevertToSnapshot (fst (Snapshot w)) w').

(** ** Well-formed machines *)

Definition static (e : EVM W) : bool := readOnly e && IsByzantium (chainRules env).

Record evm_ok (e : EVM W) : Prop := {
  evm_world : world_ok (db e);
  evm_ret : code_ok (returnData e);
  evm_depth : 0 ≤ depth e;
  evm_temp : is_u64 (callGasTemp e)
}.

Record contract_ok (c : Contract) : Prop := {
  c_addr : is_u256 (CallerAddress c) ∧ is_u256 (self c);
  c_code : code_ok (Code c);
  c_input : code_ok (Input c);
  c_gas : is_u64 (Gas c)
}.

Definition memory_ok (m : Memory) : Prop := mem_ok m ∧ bytes_ok (store m).
Definition stack_ok (s : list Z) : Prop := Forall is_u256 s ∧ len s ≤ StackLimit.

Record frame_ok (f : frame W) : Prop := {
  f_evm : evm_ok (evm f);
  f_mem : memory_ok (mem f);
  f_stack : stack_ok (stack f);
  f_contract : contract_ok (contract f);
  f_pc : 0 ≤ pc f ≤ len (Code (contract f)) + 32
}.

(** How the machine may change while a frame runs. *)
Record evolves (e e' : EVM W) : Prop := {
  ev_ok : evm_ok e';
  ev_depth : depth e' = depth e;
  ev_ro : readOnly e' = readOnly e;
  ev_static : static e = true → RO (db e) (db e')
}.

Lemma evolves_refl e : evm_ok e → evolves e e.
Proof. by split; [..|constructor]. Qed.
Lemma evolves_trans e1 e2 e3 : evolves e1 e2 → evolves e2 e3 → evolves e1 e3.
Proof.
  intros H1 H2. split; [by apply H2|by rewrite (ev_depth _ _ H2), (ev_depth _ _ H1)| |].
  - by rewrite (ev_ro _ _ H2), (ev_ro _ _ H1).
  - intros Hs. apply RO_trans with (db e2); [by apply H1|]. apply H2. unfold static in *. by rewrite (ev_ro _ _ H1).
Qed.
End laws.

(** Evaluates the frame monad on a given frame, leaving the operations on
    words, memory and database as they are. *)
Ltac frame_eval :=
  cbv [mbind st_bind mret st_ret st_get st_modify st_err st_panic st_lift
       get_db get_pc get_contract get_mem get_evm set_pc set_evm set_mem set_stack set_contract set_db
       set_callGasTemp set_returnData set_jumpdests lift_mem lift_call
       push pop set_top Back peek dup swap set_bool binop use_gas UseGas add_gas add_refund add_address add_slot
       pc evm mem stack contract lookup list_lookup];
  cbn [db depth callGasTemp readOnly returnData jumpdests].

(** ** Weakest preconditions of frame computations *)

Section safety.
Context {W : Type} `{!Uint256, !Uint256Laws, !StateDB W, !WorldLaws W} (env : Env W).
Abbreviation F := (st (frame W) evm_err).
Implicit Types (f : frame W) (e : EVM W).

(** [Q] on success, [E] on error; a panic only for one of the reasons. *)
Definition wp {A} (m : F A) f (Q : A → frame W → Prop) (E : frame W → Prop) : Prop :=
  match m f with
  | (f', Ok a) => Q a f'
  | (f', Err _) => E f'
  | (_, Panic p) => evm_panic p
  | (_, OutOfFuel) => False
  end.

Lemma wp_bind {A B} (m : F A) (k : A → F B) f Q E :
  wp m f (λ a f', wp (k a) f' Q E) E → wp (m ≫= k) f Q E.
Proof. unfold wp, mbind, st_bind. destruct (m f) as [f' []]; done. Qed.
Lemma wp_mono {A} (m : F A) f (Q Q' : A → frame W → Prop) (E E' : frame W → Prop) :
  wp m f Q E → (∀ a f', Q a f' → Q' a f') → (∀ f', E f' → E' f') → wp m f Q' E'.
Proof. unfold wp. destruct (m f) as [f' []]; auto. Qed.
Lemma wp_ok {A} (m : F A) f f' a Q E : m f = (f', Ok a) → Q a f' → wp m f Q E.
Proof. unfold wp. by intros ->. Qed.
Lemma wp_bind_ok {A B} (m : F A) (k : A → F B) f f' a Q E :
  m f = (f', Ok a) → wp (k a) f' Q E → wp (m ≫= k) f Q E.
Proof. intros Hm Hk. apply wp_bind. by apply (wp_ok m f f' a). Qed.
Lemma wp_lift {A B} (r : res evm_err A) a (k : A → F B) f Q E :
  r = Ok a → wp (k a) f Q E → wp (st_lift r ≫= k) f Q E.
Proof. intros ->. done. Qed.

(** What an error leaves behind. *)
Definition err_post f f' : Prop :=
  evolves env (evm f) (evm f') ∧ 0 ≤ Gas (contract f') ≤ Gas (contract f).

(** ** Specifications of the parts of an operation *)

(** The memory function reads the stack. *)
Definition mem_fn (pops : Z) (ms : option (F (Z * bool))) (g : list Z → Z * bool) : Prop :=
  match ms with
  | None => ∀ s, g s = (0, false)
  | Some m => ∀ f, pops ≤ len (stack f) → stack_ok (stack f) → m f = (f, Ok (g (stack f))) ∧ is_u64 (fst (g (stack f)))
  end.

(** Gas is charged for at least [lo] and for what the instruction may hand on,
    [b]; the fee of the memory is remembered. *)
Definition gas_post (b : EVM W → list Z → Z) (lo ms : Z) f (g : Z) f' : Prop :=
  lo + b (evm f') (stack f) ≤ g < 2 ^ 64 ∧ stack f' = stack f ∧ pc f' = pc f ∧ contract f' = contract f ∧
  evolves env (evm f) (evm f') ∧ store (mem f') = store (mem f) ∧ mem_ok (mem_Resize (mem f') ms).
Definition gas_ok (hasmem : bool) (pops : Z) (grd : list Z → bool) (b : EVM W → list Z → Z) (lo : Z)
    (d : Z → F Z) : Prop :=
  ∀ ms f, frame_ok f → pops ≤ len (stack f) → (grd (stack f) = true → static env (evm f) = false) →
  ms = 0 ∨ hasmem = true ∧ is_u64 ms ∧ ms mod 32 = 0 →
  wp (d ms) f (gas_post b lo ms f) (err_post f).

Definition call_post e gas (r : EVM W * res Empty_set callres) : Prop :=
  match r with
  | (e', Ok (ret, g', _)) => evolves env e e' ∧ 0 ≤ g' ≤ gas ∧ bytes_ok ret ∧ len ret < 2 ^ 62
  | (_, Err _) => True
  | (_, Panic p) => evm_panic p
  | (_, OutOfFuel) => False
  end.
Definition create_post e gas (r : EVM W * res Empty_set (callres * Z)) : Prop :=
  match r with
  | (e', Ok (ret, g', _, addr)) =>
      evolves env e e' ∧ 0 ≤ g' ≤ gas ∧ bytes_ok ret ∧ len ret < 2 ^ 62 ∧ is_u256 addr
  | (_, Err _) => True
  | (_, Panic p) => evm_panic p
  | (_, OutOfFuel) => False
  end.

(** The arguments of a call. *)
Definition args_ok (n : Z) e (c : Contract) (input : bytes) (gas : Z) : Prop :=
  evm_ok e ∧ contract_ok c ∧ bytes_ok input ∧ len input < 2 ^ 62 ∧ is_u64 gas ∧ gas < n.

(** The interface of the call functions for calls with less gas than [n]. *)
Record calls_ok (n : Z) (calls : Calls W) : Prop := {
  Call_ok e c addr input gas value : args_ok n e c input gas → is_u256 addr →
    (static env e = true → value = 0) → call_post e gas (Call calls c addr input gas value e);
  CallCode_ok e c addr input gas value : args_ok n e c input gas → is_u256 addr →
    call_post e gas (CallCode calls c addr input gas value e);
  DelegateCall_ok e c addr input gas : args_ok n e c input gas → is_u256 addr →
    call_post e gas (DelegateCall calls c addr input gas e);
  StaticCall_ok e c addr input gas : args_ok n e c input gas → is_u256 addr →
    call_post e gas (StaticCall calls c addr input gas e);
  Create_ok e c input gas value : args_ok n e c input gas → static env e = false →
    create_post e gas (Create calls c input gas value e);
  Create2_ok e c input gas value salt : args_ok n e c input gas → static env e = false →
    create_post e gas (Create2 calls c input gas value salt e)
}.

(** The frame after an instruction: [b] more gas at most, and the program
    counter near the code unless the frame ends ([h]). *)
Record exec_post (pops pushes : Z) (b : Z) (h : bool) f (ret : bytes) f' : Prop := {
  x_evm : evolves env (evm f) (evm f');
  x_mem : memory_ok (mem f');
  x_stack : Forall is_u256 (stack f') ∧ len (stack f') = len (stack f) - pops + pushes;
  x_contract : contract_ok (contract f') ∧ Code (contract f') = Code (contract f) ∧
    Gas (contract f') ≤ Gas (contract f) + b;
  x_pc : h = false → 0 ≤ pc f' < len (Code (contract f)) + 32;
  x_ret : bytes_ok ret ∧ len ret < 2 ^ 62
}.

Definition exec_ok (pops pushes : Z) (grd : list Z → bool) (b : EVM W → list Z → Z) (g : list Z → Z * bool)
    (h : bool) (exec : Calls W → F bytes) : Prop :=
  ∀ n calls f, calls_ok n calls → frame_ok f → pops ≤ len (stack f) →
  (grd (stack f) = true → static env (evm f) = false) →
  snd (g (stack f)) = false → fst (g (stack f)) ≤ mem_Len (mem f) →
  (h = false → pc f < len (Code (contract f)) ∧ Gas (contract f) + b (evm f) (stack f) < Z.min n (2 ^ 64)) →
  wp (exec calls) f (exec_post pops pushes (b (evm f) (stack f)) h f) (err_post f).

(** ** One operation *)

Definition step_post f (ret : option (bytes * option evm_err)) f' : Prop :=
  match ret with
  | None => frame_ok f' ∧ Gas (contract f') < Gas (contract f) ∧ evolves env (evm f) (evm f') ∧
            Code (contract f') = Code (contract f)
  | Some (ret, _) => evolves env (evm f) (evm f') ∧ 0 ≤ Gas (contract f') ≤ Gas (contract f) ∧
                     bytes_ok ret ∧ len ret < 2 ^ 62
  end.

Definition stops (o : operation (W:=W)) : bool := halts (flags o) || reverts (flags o).

(** An entry of a jump table. *)
Definition entry_ok (x : Z * operation (W:=W)) : Prop :=
  ∀ n calls f, calls_ok n calls → frame_ok f → Gas (contract f) < n + 1 → 0 ≤ n →
  op_minStack (snd x) ≤ len (stack f) ≤ op_maxStack (snd x) →
  (stops (snd x) = false → pc f < len (Code (contract f))) →
  wp (run_op env calls (fst x) (snd x)) f (step_post f) (err_post f).

(** ** The phases of an operation *)

Definition with_gas (x : Z) f : frame W :=
  mk_frame (pc f) (evm f) (mem f) (stack f) (set_Gas x (contract f)).
Definition with_mem (m : Memory) f : frame W := mk_frame (pc f) (evm f) m (stack f) (contract f).

Lemma contract_ok_gas c x : contract_ok c → is_u64 x → contract_ok (set_Gas x c).
Proof. by intros [] ?. Qed.
Lemma frame_ok_gas f x : frame_ok f → is_u64 x → frame_ok (with_gas x f).
Proof. intros [] ?. split; [done..| |done]. by apply contract_ok_gas. Qed.

Lemma err_post_refl f : frame_ok f → err_post f f.
Proof.
  intros Hf. split; [apply evolves_refl, Hf|]. destruct (c_gas _ (f_contract _ Hf)). lia.
Qed.
Lemma err_post_weaken f f1 f' :
  evolves env (evm f) (evm f1) → Gas (contract f1) ≤ Gas (contract f) → err_post f1 f' → err_post f f'.
Proof. intros He Hg [He' Hg']. split; [by apply evolves_trans with (evm f1)|lia]. Qed.

Lemma wp_Back {A} n f x (k : Z → F A) Q E :
  stack f !! n = Some x → wp (k x) f Q E → wp (Back n ≫= k) f Q E.
Proof. intros Hx Hk. apply (wp_bind_ok _ _ f f x); [|done]. unfold Back, mbind, st_bind, st_get. by rewrite Hx. Qed.
Lemma nth_stack (s : list Z) (n : nat) : Z.of_nat n < len s → s !! n = Some (nth n s 0).
Proof. intros Hn. unfold len in Hn. destruct (nth_lookup_or_length s n 0) as [?|?]; [done|lia]. Qed.
Lemma nth_ok (s : list Z) (n : nat) : Forall is_u256 s → is_u256 (nth n s 0).
Proof.
  intros Hs. destruct (nth_lookup_or_length s n 0) as [Hn|Hn].
  - by apply (Forall_lookup_1 _ _ _ _ Hs Hn).
  - rewrite nth_overflow by done. done.
Qed.

Lemma wp_write_protection op (o : operation (W:=W)) f grd :
  frame_ok f → (op = Op.CALL → 2 < len (stack f)) →
  (∀ s, grd s = true → writes (flags o) = true ∨ op = Op.CALL ∧ nth 2 s 0 ≠ 0) →
  wp (write_protection env op o) f
    (λ _ f', f' = f ∧ (grd (stack f) = true → static env (evm f) = false)) (err_post f).
Proof.
  intros Hf Hlen Hg. pose proof (err_post_refl f Hf) as He. unfold write_protection.
  apply (wp_bind_ok _ _ f f (evm f)); [done|]. fold (static env (evm f)).
  destruct (static env (evm f)) eqn:Hs; [|by apply (wp_ok _ _ f tt)].
  destruct (writes (flags o)) eqn:Hw; [done|]. specialize (Hg (stack f)).
  destruct (Z.eqb_spec op Op.CALL) as [->|Hop].
  - apply (wp_Back _ _ (nth 2 (stack f) 0)); [apply nth_stack, Hlen; done|].
    destruct (Z.eqb_spec (nth 2 (stack f) 0) 0) as [Hz|Hz]; [|done].
    split; [done|]. intros Hgr. by destruct (Hg Hgr) as [?|[_ ?]].
  - split; [done|]. intros Hgr. by destruct (Hg Hgr) as [?|[? _]].
Qed.

Lemma wp_charge g f :
  frame_ok f → 0 ≤ g →
  wp (charge (W:=W) g) f (λ _ f', f' = with_gas (Gas (contract f) - g) f ∧ g ≤ Gas (contract f)) (err_post f).
Proof.
  intros Hf Hg. pose proof (err_post_refl f Hf). destruct f as [p e m s c]. unfold wp, charge, with_gas, UseGas.
  frame_eval. destruct (Z.ltb_spec (Gas c) g); cbn [negb]; [done|split; [done|lia]].
Qed.

Lemma SafeMul_ok x y : is_u64 x → is_u64 y →
  snd (SafeMul x y) = false → x * y < 2 ^ 64 ∧ fst (SafeMul x y) = x * y.
Proof.
  unfold is_u64, SafeMul. cbn. intros Hx Hy Hz%negb_false_iff%Z.eqb_eq.
  apply Z.div_small_iff in Hz as [?|?]; [|nia|lia]. split; [lia|by apply u64_small].
Qed.
Lemma SafeAdd_ok x y : is_u64 x → is_u64 y →
  snd (SafeAdd x y) = false → x + y < 2 ^ 64 ∧ fst (SafeAdd x y) = x + y.
Proof.
  unfold is_u64, SafeAdd. cbn. intros Hx Hy Hz%negb_false_iff%Z.eqb_eq.
  apply Z.div_small_iff in Hz as [?|?]; [|lia|lia]. split; [lia|by apply u64_small].
Qed.

Lemma toWordSize_bound s : is_u64 s → is_u64 (toWordSize s) ∧ s ≤ 32 * toWordSize s.
Proof.
  unfold is_u64, toWordSize, MaxUint64. intros Hs. destruct (Z.ltb_spec (2 ^ 64 - 1 - 31) s).
  - change ((2 ^ 64 - 1) / 32 + 1) with (2 ^ 59). lia.
  - pose proof (Z.div_mod (s + 31) 32). pose proof (Z.mod_pos_bound (s + 31) 32). lia.
Qed.

Lemma wp_checked (r : Z * bool) f Q (E : frame W → Prop) :
  (snd r = false → Q (fst r) f) → E f → wp (checked (W:=W) r) f Q E.
Proof. unfold wp, checked. intros HQ HE. destruct (snd r); [done|by apply HQ]. Qed.

Lemma wp_required_memory (o : operation (W:=W)) f pops g :
  frame_ok f → mem_fn pops (memorySize o) g → pops ≤ len (stack f) →
  wp (required_memory o) f (λ ms f', f' = f ∧ snd (g (stack f)) = false ∧ fst (g (stack f)) ≤ ms ∧
    (ms = 0 ∨ bool_decide (is_Some (memorySize o)) = true ∧ is_u64 ms ∧ ms mod 32 = 0)) (err_post f).
Proof.
  intros Hf Hm Hlen. pose proof (err_post_refl f Hf). unfold required_memory, mem_fn in *.
  destruct (memorySize o) as [m|].
  2: { unfold wp. cbn. rewrite Hm. cbn. split_and!; [done|done|lia|by left]. }
  destruct (Hm f Hlen (f_stack _ Hf)) as [Heq Hu]. apply (wp_bind_ok _ _ f f (g (stack f))); [done|].
  destruct (g (stack f)) as [sz ov] eqn:Hgs; cbn [fst snd] in *. destruct ov; [done|].
  destruct (toWordSize_bound sz Hu) as [Hw Hle]. apply wp_checked; [|done].
  intros Hov. apply SafeMul_ok in Hov as [Hlt ->]; [|done..]. unfold is_u64 in *.
  split_and!; [done|done|lia|]. right. split_and!; [done|lia|lia|]. by apply Z_mod_mult.
Qed.

(** The gas phase: the frame that executes, apart from the size of its memory. *)
Record paid (b : EVM W → list Z → Z) (lo ms : Z) f f' : Prop := {
  p_stack : stack f' = stack f;
  p_pc : pc f' = pc f;
  p_gas : ∃ x, contract f' = set_Gas x (contract f) ∧ 0 ≤ x ∧ lo + b (evm f') (stack f) + x ≤ Gas (contract f);
  p_evm : evolves env (evm f) (evm f');
  p_store : store (mem f') = store (mem f);
  p_mem : mem_ok (mem_Resize (mem f') ms)
}.

Definition dyn_ok (o : operation (W:=W)) pops grd b lo : Prop :=
  match dynamicGas o with
  | Some d => gas_ok (bool_decide (is_Some (memorySize o))) pops grd b lo d
  | None => memorySize o = None ∧ lo = 0 ∧ ∀ e s, b e s = 0
  end.

Lemma mem_Resize_0 m : mem_Resize m 0 = m.
Proof. unfold mem_Resize, mem_Len. by rewrite (proj2 (Z.ltb_ge _ _)) by apply len_nonneg. Qed.

Lemma set_Gas_set_Gas x y c : set_Gas x (set_Gas y c) = set_Gas x c.
Proof. done. Qed.

Lemma wp_dynamic (o : operation (W:=W)) pops grd b lo ms f :
  dyn_ok o pops grd b lo → frame_ok f → pops ≤ len (stack f) →
  (grd (stack f) = true → static env (evm f) = false) → 0 ≤ lo → (∀ e s, evm_ok e → 0 ≤ b e s) →
  (ms = 0 ∨ bool_decide (is_Some (memorySize o)) = true ∧ is_u64 ms ∧ ms mod 32 = 0) →
  wp (match dynamicGas o with
      | Some d => dynamicCost ← dynamic_gas d ms; charge dynamicCost
      | None => mret tt
      end) f (λ _, paid b lo ms f) (err_post f).
Proof.
  intros Hd Hf Hlen Hgrd Hlo Hb Hms. unfold dyn_ok in Hd. destruct (dynamicGas o) as [d|].
  - apply wp_bind.
    assert (wp (d ms) f (gas_post b lo ms f) (err_post f)) as Hwp by by apply Hd.
    apply wp_mono with (E := err_post f) (Q := gas_post b lo ms f); [|clear Hwp|done].
    + unfold wp, dynamic_gas in *. destruct (d ms f) as [? []]; done.
    + intros g f' (Hg & Hs & Hp & Hc & He & Hst & Hm). pose proof (Hb (evm f') (stack f) (ev_ok _ _ _ He)).
      unfold wp, charge. destruct f' as [p' e' m' s' c'], f as [p e m s c]. cbn in * |-. subst. frame_eval.
      destruct (Z.ltb_spec (Gas c) g); cbn [negb].
      * split; [done|]. pose proof (c_gas _ (f_contract _ Hf)). unfold is_u64 in *. cbn in *. lia.
      * split; [done|done| |done..]. exists (Gas c - g). cbn. split_and!; [done|lia|lia].
  - destruct Hd as (Hno & -> & Hb0). rewrite Hno in Hms. destruct Hms as [->|[? _]]; [|done].
    split; [done|done| |apply evolves_refl, Hf|done|].
    + exists (Gas (contract f)). pose proof (c_gas _ (f_contract _ Hf)). unfold is_u64 in *.
      split_and!; [by destruct (contract f)|lia|rewrite Hb0; lia].
    + rewrite mem_Resize_0. apply Hf.
Qed.

Lemma memory_ok_resize m m' ms :
  memory_ok m → store m' = store m → mem_ok (mem_Resize m' ms) → memory_ok (mem_Resize m' ms).
Proof.
  intros [_ Hb] Hs Hm. split; [done|]. unfold mem_Resize. destruct (mem_Len m' <? ms); cbn; [|by rewrite Hs].
  rewrite Hs. apply bytes_ok_app. split; [done|]. by apply Forall_replicate.
Qed.
Lemma mem_Resize_len m ms : ms ≤ mem_Len (mem_Resize m ms).
Proof.
  unfold mem_Resize. destruct (Z.ltb_spec (mem_Len m) ms); [|done]. unfold mem_Len in *. cbn.
  rewrite len_app. unfold len at 2. rewrite length_replicate. lia.
Qed.

(** The frame in which the instruction runs. *)
Lemma paid_ok b lo ms f f' :
  frame_ok f → paid b lo ms f f' → 0 ≤ lo → 0 ≤ b (evm f') (stack f) →
  frame_ok (with_mem (mem_Resize (mem f') ms) f').
Proof.
  intros [He Hm Hs Hc Hp] [Es Ep (x & Ec & Hx & Hle) Eev Est Em] Hlo Hb.
  split; cbn; [apply Eev|by apply memory_ok_resize with (mem f)|by rewrite Es| |].
  - rewrite Ec. apply contract_ok_gas; [done|]. pose proof (c_gas _ Hc). unfold is_u64 in *. lia.
  - by rewrite Ep, Ec.
Qed.

(** The end of an operation. *)
Lemma wp_leave (o : operation (W:=W)) b f ret f' :
  frame_ok f → op_maxStack o = StackLimit + op_minStack o - b →
  len (stack f) ≤ op_maxStack o → (stops o = false → Gas (contract f') < Gas (contract f)) →
  Gas (contract f') ≤ Gas (contract f) →
  exec_post (op_minStack o) b (Gas (contract f') - Gas (contract f)) (stops o) f ret f' →
  wp ((if returns (flags o) then set_returnData ret else mret tt) ≫= λ _,
    if reverts (flags o) then mret (Some (ret, Some ErrExecutionReverted))
    else if halts (flags o) then mret (Some (ret, None))
    else if negb (jumps (flags o)) then p ← get_pc; set_pc (u64 (p + 1)) ≫= λ _, mret None
    else mret None) f' (step_post f) (err_post f).
Proof.
  intros Hf Hmax Hlen Hlt Hle [Xe Xm [Xs Xl] (Xc & Xcode & _) Xp [Xr1 Xr2]].
  destruct f' as [p e m s c]. cbn in * |-.
  assert (∀ r, bytes_ok r → len r < 2 ^ 62 →
    evolves env (evm f) (mk_EVM (db e) (depth e) (callGasTemp e) (readOnly e) r (jumpdests e))) as Hev.
  { intros r Hr1 Hr2. destruct Xe as [[] ? ? ?]. by split. }
  assert (∃ e', evolves env (evm f) e' ∧ (if returns (flags o) then set_returnData ret else mret tt)
    (mk_frame p e m s c) = (mk_frame p e' m s c, (Ok tt : res evm_err unit))) as (e' & He' & Heq).
  { destruct (returns (flags o)); [|by exists e]. eexists. split; [by apply (Hev ret)|done]. }
  apply (wp_bind_ok _ _ _ _ _ _ _ Heq). unfold stops in *.
  destruct (reverts (flags o)); [|destruct (halts (flags o))]; cbn in *.
  1-2: pose proof (c_gas _ Xc) as Hg0; unfold is_u64 in Hg0; unfold wp; cbn; split_and!; [done|lia..|done|done].
  assert (∀ p', 0 ≤ p' ≤ len (Code c) + 32 → frame_ok (mk_frame p' e' m s c)) as Hok.
  { intros p' Hp'. split; cbn; [apply He'|done| |done|done]. split; [done|lia]. }
  specialize (Xp eq_refl). pose proof (c_code _ Xc) as [_ Hcl]. rewrite Xcode in *.
  destruct (jumps (flags o)); cbn; unfold wp; frame_eval; cbn; (split_and!; [apply Hok|by apply Hlt|done|done]); [lia|].
  rewrite u64_small by (unfold is_u64; lia). lia.
Qed.

(** An operation is correct when its parts are. *)
Lemma entry_intro op (o : operation (W:=W)) pushes grd b g lo :
  op_maxStack o = StackLimit + op_minStack o - pushes →
  (op = Op.CALL → 2 < op_minStack o) →
  (∀ s, grd s = true → writes (flags o) = true ∨ op = Op.CALL ∧ nth 2 s 0 ≠ 0) →
  mem_fn (op_minStack o) (memorySize o) g →
  dyn_ok o (op_minStack o) grd b lo →
  exec_ok (op_minStack o) pushes grd b g (stops o) (execute o) →
  0 ≤ constantGas o → 0 ≤ lo → (∀ e s, evm_ok e → 0 ≤ b e s) →
  (stops o = false → 0 < constantGas o + lo) →
  entry_ok (op, o).
Proof.
  intros Hmax Hcall Hgw Hmem Hdyn Hex Hc0 Hlo Hb Hpos n calls f Hcalls Hf Hgas Hn [Hmin Hle] Hpc.
  cbn [fst snd] in *. pose proof (c_gas _ (f_contract _ Hf)) as Hg. unfold is_u64 in Hg. unfold run_op.
  apply wp_bind. eapply wp_mono; [apply (wp_write_protection op o f grd Hf); [intros Hop; specialize (Hcall Hop); lia|done]| |done].
  intros _ ? [-> Hgrd]. apply wp_bind. eapply wp_mono; [by apply (wp_charge (constantGas o) f Hf)| |done].
  intros _ ? [-> Hc]. set (f1 := with_gas _ f).
  assert (frame_ok f1) as Hf1 by (apply frame_ok_gas; [done|unfold is_u64; lia]).
  assert (∀ f', err_post f1 f' → err_post f f') as Herr1.
  { intros f'. apply err_post_weaken; cbn; [apply evolves_refl, Hf|lia]. }
  apply wp_bind. eapply wp_mono; [by apply (wp_required_memory o f1 _ _ Hf1 Hmem)| |done].
  intros ms ? (-> & Hov & Hfit & Hms). apply wp_bind.
  eapply wp_mono; [by apply (wp_dynamic o _ grd b lo ms f1 Hdyn Hf1)| |done].
  intros [] f2 Hpaid. pose proof (Hb (evm f2) (stack f1) (ev_ok _ _ _ (p_evm _ _ _ _ _ Hpaid))) as Hbf.
  pose proof (paid_ok _ _ _ _ _ Hf1 Hpaid Hlo Hbf) as Hf3. set (f3 := with_mem _ f2) in Hf3.
  destruct Hpaid as [Es Ep (x & Ec & Hx & Hxle) Eev Est Em].
  assert (Gas (contract f1) = Gas (contract f) - constantGas o) as Hg1 by done.
  assert (Gas (contract f3) = x) as Hg3 by (cbn; by rewrite Ec).
  assert (∀ f', err_post f3 f' → err_post f f') as Herr3.
  { intros f' He'. apply Herr1. revert He'. apply err_post_weaken; cbn; [done|rewrite Ec; cbn; lia]. }
  apply (wp_bind_ok _ _ f2 f3 tt).
  { destruct (Z.ltb_spec 0 ms); [by destruct f2|]. unfold f3. destruct Hms as [->|(_ & Hms & _)].
    - rewrite mem_Resize_0. by destruct f2.
    - assert (ms = 0) as -> by (unfold is_u64 in Hms; lia). rewrite mem_Resize_0. by destruct f2. }
  apply wp_bind. eapply wp_mono.
  { apply (Hex n calls f3 Hcalls Hf3); cbn; rewrite ?Es, ?Ep, ?Ec; cbn; [done| |done| |].
    - intros Hgr. unfold static. rewrite (ev_ro _ _ _ Eev). by apply Hgrd.
    - pose proof (mem_Resize_len (mem f2) ms). unfold f1 in Hfit. cbn in Hfit. lia.
    - intros Hst. specialize (Hpc Hst). specialize (Hpos Hst). split; [done|]. cbn in Hxle. lia. }
  2: done.
  intros ret f4 Hx4. destruct Hx4 as [Xe Xm Xs (Xc & Xcode & Xg) Xp Xr]. cbn in Xs, Xcode, Xg, Xp, Xe. rewrite Es in *.
  rewrite Ec in *. cbn in Xcode, Xg, Xs, Xp, Hxle. apply (wp_leave o pushes); [done..| | |].
  - intros Hst. specialize (Hpos Hst). lia.
  - lia.
  - split; [by apply evolves_trans with (evm f2)|done|done| |done|done]. split_and!; [done|done|lia].
Qed.
End safety.
