(* ===== verification/EvmOps.v ===== *)
(** * Every instruction and gas function meets its specification

    For each entry of each jump table: the memory function is total, the gas
    function charges enough, the instruction keeps the frame well-formed.  The
    result is [instructionSet_ok]: every entry of the table of every fork is
    correct in the sense of [entry_ok]. *)
From stdpp Require Import gmap.
From S2P Require Import Prelude EvmAnalysis EvmBase EvmMachine EvmGas EvmTable EvmInterp EvmSafety.

(** ** Ranges of words *)

Lemma u256_div x y : is_u256 x → 0 ≤ y → is_u256 (x / y).
Proof.
  unfold is_u256. intros Hx Hy. destruct (Z.eq_dec y 0) as [->|]; [by rewrite Z.div_0_r|].
  split; [apply Z.div_pos; lia|]. apply Z.div_lt_upper_bound; nia.
Qed.
Lemma u256_mod x y : is_u256 y → y ≠ 0 → is_u256 (x mod y).
Proof. unfold is_u256. intros Hy Hne. pose proof (Z.mod_pos_bound x y). lia. Qed.
Lemma u256_mod_pow x k : 0 ≤ k ≤ 256 → is_u256 (x mod 2 ^ k).
Proof.
  unfold is_u256. intros Hk. pose proof (Z.mod_pos_bound x (2 ^ k)). pose proof (Z.pow_pos_nonneg 2 k).
  pose proof (Z.pow_le_mono_r 2 k 256). lia.
Qed.
Lemma u256_of_u64 x : is_u64 x → is_u256 x.
Proof. unfold is_u64, is_u256. lia. Qed.
Lemma u256_of_len {A} (l : list A) : len l < 2 ^ 62 → is_u256 (len l).
Proof. unfold is_u256. pose proof (len_nonneg l). lia. Qed.
Lemma u256_Bytes20 x : is_u256 (Bytes20 x).
Proof. unfold Bytes20. apply u256_mod_pow. lia. Qed.
Lemma u256_bitop (g : Z → Z → Z) (gb : bool → bool → bool) x y :
  (∀ n, Z.testbit (g x y) n = gb (Z.testbit x n) (Z.testbit y n)) → gb false false = false →
  0 ≤ g x y → is_u256 x → is_u256 y → is_u256 (g x y).
Proof.
  unfold is_u256. intros Hg Hff Hn Hx Hy. split; [done|].
  destruct (Z.eq_dec (g x y) 0) as [->|Hne]; [lia|]. apply Z.log2_lt_pow2; [lia|].
  apply Z.nle_gt. intros Hle. pose proof (Z.bit_log2 (g x y) ltac:(lia)) as Hb. rewrite Hg in Hb.
  rewrite !Z.bits_above_log2 in Hb; [congruence| | | | ]; try lia.
  - destruct (Z.eq_dec y 0) as [->|]; [cbn; lia|]. pose proof (proj1 (Z.log2_lt_pow2 y 256 ltac:(lia)) ltac:(lia)). lia.
  - destruct (Z.eq_dec x 0) as [->|]; [cbn; lia|]. pose proof (proj1 (Z.log2_lt_pow2 x 256 ltac:(lia)) ltac:(lia)). lia.
Qed.
Lemma u256_land x y : is_u256 x → is_u256 y → is_u256 (Z.land x y).
Proof.
  intros Hx Hy. apply (u256_bitop Z.land andb); [intros; apply Z.land_spec|done| |done|done].
  apply Z.land_nonneg. left. apply Hx.
Qed.
Lemma u256_lor x y : is_u256 x → is_u256 y → is_u256 (Z.lor x y).
Proof.
  intros Hx Hy. apply (u256_bitop Z.lor orb); [intros; apply Z.lor_spec|done| |done|done].
  apply Z.lor_nonneg. split; [apply Hx|apply Hy].
Qed.
Lemma u256_lxor x y : is_u256 x → is_u256 y → is_u256 (Z.lxor x y).
Proof.
  intros Hx Hy. apply (u256_bitop Z.lxor xorb); [intros; apply Z.lxor_spec|done| |done|done].
  apply Z.lxor_nonneg. unfold is_u256 in *. lia.
Qed.
Lemma u256_be_val l : bytes_ok l → len l ≤ 32 → is_u256 (be_val l).
Proof.
  intros Hl Hle. pose proof (be_val_bound l Hl). pose proof (len_nonneg l). unfold is_u256.
  pose proof (Z.pow_le_mono_r 2 (8 * len l) 256). lia.
Qed.
Lemma u256_if (b : bool) x y : is_u256 x → is_u256 y → is_u256 (if b then x else y).
Proof. by destruct b. Qed.
Lemma u256_0 : is_u256 0. Proof. done. Qed.
Lemma u256_1 : is_u256 1. Proof. done. Qed.
Lemma Uint64_u256 x : is_u256 (Uint64 x).
Proof. apply u256_of_u64, u64_range. Qed.
#[export] Hint Resolve u256_of_u64 u256_of_len u256_Bytes20 u256_land u256_lor u256_lxor u256_if u256_0 u256_1
  Uint64_u256 : go.

Section words.
Context `{!Uint256, !Uint256Laws}.
Implicit Types x y z : Z.

Lemma u_Add_range x y : is_u256 x → is_u256 y → is_u256 (u_Add x y).
Proof. intros. rewrite u_Add_spec by done. auto with go. Qed.
Lemma u_Sub_range x y : is_u256 x → is_u256 y → is_u256 (u_Sub x y).
Proof. intros. rewrite u_Sub_spec by done. auto with go. Qed.
Lemma u_Mul_range x y : is_u256 x → is_u256 y → is_u256 (u_Mul x y).
Proof. intros. rewrite u_Mul_spec by done. auto with go. Qed.
Lemma u_Div_range x y : is_u256 x → is_u256 y → is_u256 (u_Div x y).
Proof. intros Hx Hy. rewrite u_Div_spec by done. apply u256_if; [done|]. apply u256_div; [done|apply Hy]. Qed.
Lemma u_SDiv_range x y : is_u256 x → is_u256 y → is_u256 (u_SDiv x y).
Proof. intros. rewrite u_SDiv_spec by done. auto with go. Qed.
Lemma u_Mod_range x y : is_u256 x → is_u256 y → is_u256 (u_Mod x y).
Proof. intros. rewrite u_Mod_spec by done. destruct (Z.eqb_spec y 0); [done|]. by apply u256_mod. Qed.
Lemma u_SMod_range x y : is_u256 x → is_u256 y → is_u256 (u_SMod x y).
Proof. intros. rewrite u_SMod_spec by done. auto with go. Qed.
Lemma u_Exp_range x y : is_u256 x → is_u256 y → is_u256 (u_Exp x y).
Proof. intros. rewrite u_Exp_spec by done. auto with go. Qed.
Lemma u_ExtendSign_range x y : is_u256 x → is_u256 y → is_u256 (u_ExtendSign x y).
Proof.
  intros Hx Hy. rewrite u_ExtendSign_spec by done. destruct (Z.ltb_spec y 31); [|done]. cbn zeta.
  apply u256_if; [auto with go|]. apply u256_mod_pow. unfold is_u256 in Hy. lia.
Qed.
Lemma u_Not_range x : is_u256 x → is_u256 (u_Not x).
Proof. intros Hx. rewrite u_Not_spec by done. unfold is_u256 in *. lia. Qed.
Lemma u_Byte_range x y : is_u256 x → is_u256 y → is_u256 (u_Byte x y).
Proof.
  intros. rewrite u_Byte_spec by done. apply u256_if; [|done]. change 256 with (2 ^ 8). apply u256_mod_pow. lia.
Qed.
Lemma u_AddMod_range x y z : is_u256 x → is_u256 y → is_u256 z → is_u256 (u_AddMod x y z).
Proof. intros. rewrite u_AddMod_spec by done. destruct (Z.eqb_spec z 0); [done|]. by apply u256_mod. Qed.
Lemma u_MulMod_range x y z : is_u256 x → is_u256 y → is_u256 z → is_u256 (u_MulMod x y z).
Proof. intros. rewrite u_MulMod_spec by done. destruct (Z.eqb_spec z 0); [done|]. by apply u256_mod. Qed.
Lemma u_Lsh_range x y : is_u256 x → is_u256 y → is_u256 (u_Lsh x y).
Proof. intros. rewrite u_Lsh_spec by done. auto with go. Qed.
Lemma u_Rsh_range x y : is_u256 x → is_u256 y → is_u256 (u_Rsh x y).
Proof.
  intros Hx Hy. rewrite u_Rsh_spec by done. rewrite Z.shiftr_div_pow2 by apply Hy.
  apply u256_div; [done|]. apply Z.pow_nonneg. lia.
Qed.
Lemma u_SRsh_range x y : is_u256 x → is_u256 y → is_u256 (u_SRsh x y).
Proof. intros. rewrite u_SRsh_spec by done. auto with go. Qed.
End words.
#[export] Hint Resolve u_Add_range u_Sub_range u_Mul_range u_Div_range u_SDiv_range u_Mod_range u_SMod_range
  u_Exp_range u_ExtendSign_range u_Not_range u_Byte_range u_AddMod_range u_MulMod_range u_Lsh_range u_Rsh_range
  u_SRsh_range : go.

Section ops.
Context {W : Type} `{!Uint256, !Uint256Laws, !StateDB W, !WorldLaws W} (env : Env W) (Henv : env_ok env).
Abbreviation F := (st (frame W) evm_err).
Implicit Types (f : frame W) (e : EVM W).

Definition no_grd : list Z → bool := λ _, false.
Definition no_b : EVM W → list Z → Z := λ _ _, 0.
Definition no_mem : list Z → Z * bool := λ _, (0, false).

Lemma ret_nil : bytes_ok [] ∧ len ([] : bytes) < 2 ^ 62.
Proof. split; [constructor|done]. Qed.

(** ** Instructions that only work on the stack *)

Definition stack_exec (pops pushes : Z) (m : F bytes) : Prop :=
  ∀ f, frame_ok f → pops ≤ len (stack f) → pc f < len (Code (contract f)) →
  ∃ s' p', m f = (mk_frame p' (evm f) (mem f) s' (contract f), Ok []) ∧ Forall is_u256 s' ∧
    len s' = len (stack f) - pops + pushes ∧ pc f ≤ p' ≤ pc f + 32.

Lemma stack_exec_ok pops pushes m g : stack_exec pops pushes m → exec_ok env pops pushes no_grd no_b g false (λ _, m).
Proof.
  intros Hm n calls f Hcalls Hf Hlen _ _ _ Hpc. destruct (Hpc eq_refl) as [Hp _].
  destruct (Hm f Hf Hlen Hp) as (s' & p' & Heq & Hs & Hl & Hp'). apply (wp_ok _ _ _ _ _ _ Heq).
  destruct Hf as [He Hme Hst Hc Hpc0]. split; cbn; [by apply evolves_refl|done|done| |lia|apply ret_nil].
  split_and!; [done|done|unfold no_b; lia].
Qed.

(** Such an instruction with a constant price, and with a gas function. *)
Lemma plain_entry op m g pops pushes :
  stack_exec pops pushes m → 0 < g → op ≠ Op.CALL →
  entry_ok env (op, mk_operation (λ _, m) g None (minStack pops pushes) (maxStack pops pushes) None plain).
Proof.
  intros Hm Hg Hop. apply (entry_intro env _ _ pushes no_grd no_b no_mem 0); cbn; try done.
  - by apply stack_exec_ok.
  - lia.
  - lia.
Qed.
Lemma plain_dyn_entry op m g d lo pops pushes :
  stack_exec pops pushes m → gas_ok env false pops no_grd no_b lo d → 0 ≤ g → 0 ≤ lo → 0 < g + lo → op ≠ Op.CALL →
  entry_ok env (op, mk_operation (λ _, m) g (Some d) (minStack pops pushes) (maxStack pops pushes) None plain).
Proof.
  intros Hm Hd Hg Hlo Hp Hop. apply (entry_intro env _ _ pushes no_grd no_b no_mem lo); cbn; try done.
  by apply stack_exec_ok.
Qed.

(** The ranges a well-formed frame gives. *)
Lemma mem_ok_len m : mem_ok m → 0 ≤ mem_Len m ≤ 0x1FFFFFFFE0.
Proof. intros (w & Hw & -> & _). lia. Qed.
Lemma u256_mem_Len m : memory_ok m → is_u256 (mem_Len m).
Proof. intros [Hm _]. apply mem_ok_len in Hm. unfold is_u256. lia. Qed.
Lemma frame_words p e m s c : frame_ok (mk_frame p e m s c) →
  is_u256 (CallerAddress c) ∧ is_u256 (self c) ∧ is_u256 (len (Code c)) ∧ is_u256 (len (Input c)) ∧ is_u64 (Gas c) ∧
  is_u256 (len (returnData e)) ∧ is_u256 (mem_Len m) ∧ 0 ≤ p ≤ len (Code c) + 32 ∧ len (Code c) < 2 ^ 62 ∧ is_u256 p.
Proof.
  intros [[_ [_ Hr] _ _] Hm _ [[Ha1 Ha2] [_ Hcl] [_ Hi] Hg] Hp]. cbn in *.
  split_and!; auto using u256_of_len, u256_mem_Len; try lia; unfold is_u256; lia.
Qed.

(** Splits off [n] elements of the stack and runs the instruction. *)
Tactic Notation "stack_open" integer(n) :=
  intros [p e m s c] Hf Hlen Hpc; cbn [stack pc contract] in Hlen, Hpc;
  let Hs := fresh "Hs" in
  pose proof (proj1 (f_stack _ Hf)) as Hs; cbn [stack] in Hs;
  do n (destruct s as [|? s]; [unfold len in Hlen; cbn [length Z.of_nat] in Hlen; lia|]);
  decompose_Forall_hyps;
  destruct (frame_words _ _ _ _ _ Hf) as (? & ? & ? & ? & ? & ? & ? & ? & ? & ?);
  pose proof (Origin_ok _ Henv); pose proof (Coinbase_ok _ Henv); pose proof (GasLimit_ok _ Henv);
  frame_eval.
Ltac stack_close :=
  eexists _, _; split; [reflexivity|];
  split_and!; [repeat apply Forall_cons_2; try assumption|rewrite ?len_cons; lia|lia|lia].
Ltac word := first [assumption | solve [auto 6 with go] | idtac].

Lemma opAdd_s : stack_exec 2 1 opAdd.
Proof. unfold opAdd. stack_open 2. stack_close; word. Qed.
Lemma opSub_s : stack_exec 2 1 opSub.
Proof. unfold opSub. stack_open 2. stack_close; word. Qed.
Lemma opMul_s : stack_exec 2 1 opMul.
Proof. unfold opMul. stack_open 2. stack_close; word. Qed.
Lemma opDiv_s : stack_exec 2 1 opDiv.
Proof. unfold opDiv. stack_open 2. stack_close; word. Qed.
Lemma opSdiv_s : stack_exec 2 1 opSdiv.
Proof. unfold opSdiv. stack_open 2. stack_close; word. Qed.
Lemma opMod_s : stack_exec 2 1 opMod.
Proof. unfold opMod. stack_open 2. stack_close; word. Qed.
Lemma opSmod_s : stack_exec 2 1 opSmod.
Proof. unfold opSmod. stack_open 2. stack_close; word. Qed.
Lemma opExp_s : stack_exec 2 1 opExp.
Proof. unfold opExp. stack_open 2. stack_close; word. Qed.
Lemma opSignExtend_s : stack_exec 2 1 opSignExtend.
Proof. unfold opSignExtend. stack_open 2. stack_close; word. Qed.
Lemma opLt_s : stack_exec 2 1 opLt.
Proof. unfold opLt. stack_open 2. stack_close; word. Qed.
Lemma opGt_s : stack_exec 2 1 opGt.
Proof. unfold opGt. stack_open 2. stack_close; word. Qed.
Lemma opSlt_s : stack_exec 2 1 opSlt.
Proof. unfold opSlt. stack_open 2. stack_close; word. Qed.
Lemma opSgt_s : stack_exec 2 1 opSgt.
Proof. unfold opSgt. stack_open 2. stack_close; word. Qed.
Lemma opEq_s : stack_exec 2 1 opEq.
Proof. unfold opEq. stack_open 2. stack_close; word. Qed.
Lemma opAnd_s : stack_exec 2 1 opAnd.
Proof. unfold opAnd. stack_open 2. stack_close; word. Qed.
Lemma opOr_s : stack_exec 2 1 opOr.
Proof. unfold opOr. stack_open 2. stack_close; word. Qed.
Lemma opXor_s : stack_exec 2 1 opXor.
Proof. unfold opXor. stack_open 2. stack_close; word. Qed.
Lemma opByte_s : stack_exec 2 1 opByte.
Proof. unfold opByte. stack_open 2. stack_close; word. Qed.
Lemma opSHL_s : stack_exec 2 1 opSHL.
Proof. unfold opSHL. stack_open 2. stack_close; word. Qed.
Lemma opSHR_s : stack_exec 2 1 opSHR.
Proof. unfold opSHR. stack_open 2. stack_close; word. Qed.
Lemma opSAR_s : stack_exec 2 1 opSAR.
Proof. unfold opSAR. stack_open 2. stack_close; word. Qed.
Lemma opNot_s : stack_exec 1 1 opNot.
Proof. unfold opNot. stack_open 1. stack_close; word. Qed.
Lemma opIszero_s : stack_exec 1 1 opIszero.
Proof. unfold opIszero. stack_open 1. stack_close; word. Qed.
Lemma opBalance_s : stack_exec 1 1 opBalance.
Proof. unfold opBalance. stack_open 1. stack_close; word. Qed.
Lemma opExtCodeSize_s : stack_exec 1 1 opExtCodeSize.
Proof. unfold opExtCodeSize. stack_open 1. stack_close; word. Qed.
Lemma opExtCodeHash_s : stack_exec 1 1 opExtCodeHash.
Proof. unfold opExtCodeHash. stack_open 1. stack_close; word. Qed.
Lemma opBlockhash_s : stack_exec 1 1 (opBlockhash env).
Proof. unfold opBlockhash. stack_open 1. destruct (IsUint64 _); stack_close; word. Qed.
Lemma opSload_s : stack_exec 1 1 opSload.
Proof. unfold opSload. stack_open 1. stack_close; word. Qed.
Lemma opAddmod_s : stack_exec 3 1 opAddmod.
Proof. unfold opAddmod. stack_open 3. stack_close; word. Qed.
Lemma opMulmod_s : stack_exec 3 1 opMulmod.
Proof. unfold opMulmod. stack_open 3. stack_close; word. Qed.
Lemma opAddress_s : stack_exec 0 1 opAddress.
Proof. unfold opAddress. stack_open 0. stack_close; word. Qed.
Lemma opOrigin_s : stack_exec 0 1 (opOrigin env).
Proof. unfold opOrigin. stack_open 0. stack_close; word. Qed.
Lemma opCaller_s : stack_exec 0 1 opCaller.
Proof. unfold opCaller. stack_open 0. stack_close; word. Qed.
Lemma opCallValue_s : stack_exec 0 1 opCallValue.
Proof. unfold opCallValue. stack_open 0. stack_close; word. Qed.
Lemma opCallDataSize_s : stack_exec 0 1 opCallDataSize.
Proof. unfold opCallDataSize. stack_open 0. stack_close; word. Qed.
Lemma opCodeSize_s : stack_exec 0 1 opCodeSize.
Proof. unfold opCodeSize. stack_open 0. stack_close; word. Qed.
Lemma opGasprice_s : stack_exec 0 1 (opGasprice env).
Proof. unfold opGasprice. stack_open 0. stack_close; word. Qed.
Lemma opCoinbase_s : stack_exec 0 1 (opCoinbase env).
Proof. unfold opCoinbase. stack_open 0. stack_close; word. Qed.
Lemma opTimestamp_s : stack_exec 0 1 (opTimestamp env).
Proof. unfold opTimestamp. stack_open 0. stack_close; word. Qed.
Lemma opNumber_s : stack_exec 0 1 (opNumber env).
Proof. unfold opNumber. stack_open 0. stack_close; word. Qed.
Lemma opDifficulty_s : stack_exec 0 1 (opDifficulty env).
Proof. unfold opDifficulty. stack_open 0. stack_close; word. Qed.
Lemma opGasLimit_s : stack_exec 0 1 (opGasLimit env).
Proof. unfold opGasLimit. stack_open 0. stack_close; word. Qed.
Lemma opPc_s : stack_exec 0 1 opPc.
Proof. unfold opPc. stack_open 0. stack_close; word. Qed.
Lemma opMsize_s : stack_exec 0 1 opMsize.
Proof. unfold opMsize. stack_open 0. stack_close; word. Qed.
Lemma opGas_s : stack_exec 0 1 opGas.
Proof. unfold opGas. stack_open 0. stack_close; word. Qed.
Lemma opChainID_s : stack_exec 0 1 (opChainID env).
Proof. unfold opChainID. stack_open 0. stack_close; word. Qed.
Lemma opSelfBalance_s : stack_exec 0 1 opSelfBalance.
Proof. unfold opSelfBalance. stack_open 0. stack_close; word. Qed.
Lemma opBaseFee_s : is_Some (BaseFee env) → stack_exec 0 1 (opBaseFee env).
Proof. intros [b Hb]. unfold opBaseFee. rewrite Hb. stack_open 0. stack_close; word. Qed.
Lemma opReturnDataSize_s : stack_exec 0 1 opReturnDataSize.
Proof. unfold opReturnDataSize. stack_open 0. stack_close; word. Qed.
Lemma opPop_s : stack_exec 1 0 opPop.
Proof. unfold opPop. stack_open 1. stack_close; word. Qed.
Lemma opJumpdest_s : stack_exec 0 0 opJumpdest.
Proof. unfold opJumpdest. stack_open 0. stack_close; word. Qed.

Lemma RightPadBytes_ok d l : bytes_ok d → 0 ≤ l →
  bytes_ok (RightPadBytes d l) ∧ len (RightPadBytes d l) = Z.max l (len d).
Proof.
  intros Hd Hl. unfold RightPadBytes. destruct (Z.leb_spec l (len d)); [by split; [done|lia]|].
  split; [apply bytes_ok_app; split; [done|by apply Forall_replicate]|].
  rewrite len_app. unfold len at 2. rewrite length_replicate. lia.
Qed.

Lemma go_slice_bytes {E} (d : bytes) i j : bytes_ok d → 0 ≤ i → i ≤ j → j ≤ len d →
  ∃ x, go_slice (E:=E) d i j = Ok x ∧ bytes_ok x ∧ len x = j - i.
Proof.
  intros Hd Hi Hij Hj. rewrite go_slice_ok by done. eexists. split; [done|]. split; [auto with go|].
  unfold len in *. rewrite length_take, length_drop. lia.
Qed.

Lemma getData_ok {E} data start size :
  bytes_ok data → len data < 2 ^ 62 → 0 ≤ start → 0 ≤ size < 2 ^ 62 →
  ∃ d, getData (E:=E) data start size = Ok d ∧ bytes_ok d ∧ len d = size.
Proof.
  intros Hd Hl Hs Hz. unfold getData. pose proof (len_nonneg data). cbn zeta.
  set (st := if len data <? start then len data else start).
  assert (0 ≤ st ≤ len data) as Hst by (unfold st; destruct (Z.ltb_spec (len data) start); lia).
  rewrite u64_small by (unfold is_u64; lia).
  set (en := if len data <? st + size then len data else st + size).
  assert (st ≤ en ≤ len data ∧ en ≤ st + size) as Hen by (unfold en; destruct (Z.ltb_spec (len data) (st + size)); lia).
  destruct (go_slice_bytes (E:=E) data st en) as (x & -> & Hx & Hlx); [done|lia..|]. cbn [mbind res_bind].
  unfold int64. rewrite (proj2 (Z.ltb_lt size _)) by lia.
  destruct (RightPadBytes_ok x size Hx) as [Hb Hlen]; [lia|]. eexists. split; [done|]. split; [done|lia].
Qed.

Lemma opCallDataLoad_s : stack_exec 1 1 opCallDataLoad.
Proof.
  unfold opCallDataLoad. stack_open 1. destruct (IsUint64 _); cbn [negb]; [|stack_close; word].
  destruct (c_input _ (f_contract _ Hf)) as [Hb Hl].
  destruct (getData_ok (E:=evm_err) (Input c) (u64 z) 32) as (d & -> & Hd & Hld); [done|done|apply u64_range|lia|].
  stack_close. apply u256_be_val; [done|lia].
Qed.

Lemma opPush1_s : stack_exec 0 1 opPush1.
Proof.
  unfold opPush1. stack_open 0. rewrite u64_small by (unfold is_u64; lia). stack_close.
  destruct (Z.ltb_spec (p + 1) (len (Code c))) as [Hlt|]; [|done].
  destruct (nth_lookup_or_length (Code c) (Z.to_nat (p + 1)) 0) as [Hn|Hn]; [|by rewrite nth_overflow].
  pose proof (bytes_ok_lookup _ _ _ (proj1 (c_code _ (f_contract _ Hf))) Hn) as Hb. unfold is_u8, is_u256 in *. lia.
Qed.

Lemma makePush_s n : 1 ≤ n ≤ 32 → stack_exec 0 1 (makePush n n).
Proof.
  intros Hn. unfold makePush. stack_open 0. rewrite !(u64_small (_ + _)) by (unfold is_u64; lia). unfold int64.
  rewrite (proj2 (Z.ltb_lt (p + 1) (2 ^ 63))) by lia.
  set (st := if p + 1 <? len (Code c) then p + 1 else len (Code c)).
  assert (0 ≤ st ≤ len (Code c)) as Hst by (unfold st; destruct (Z.ltb_spec (p + 1) (len (Code c))); lia).
  set (en := if st + n <? len (Code c) then st + n else len (Code c)).
  assert (st ≤ en ≤ len (Code c) ∧ en ≤ st + n) as Hen by (unfold en; destruct (Z.ltb_spec (st + n) (len (Code c))); lia).
  destruct (go_slice_bytes (E:=evm_err) (Code c) st en) as (x & -> & Hx & Hlx);
    [apply (c_code _ (f_contract _ Hf))|lia..|].
  stack_close. destruct (RightPadBytes_ok x n Hx) as [Hb Hlen']; [lia|]. apply u256_be_val; [done|lia].
Qed.

Lemma makeDup_s n : (1 ≤ n)%nat → stack_exec (Z.of_nat n) (Z.of_nat n + 1) (makeDup n).
Proof.
  intros Hn [p e m s c] Hf Hlen Hpc. pose proof (proj1 (f_stack _ Hf)) as Hs. cbn in Hlen, Hpc, Hs.
  destruct (lookup_lt_is_Some_2 s (n - 1)) as [x Hx]; [unfold len in Hlen; lia|].
  exists (x :: s), p. split; [unfold makeDup, dup, mbind, st_bind, st_get; cbn; by rewrite Hx|].
  split_and!; [|rewrite len_cons; cbn; lia|cbn; lia..].
  apply Forall_cons_2; [|done]. by apply (Forall_lookup_1 _ _ _ _ Hs Hx).
Qed.

Lemma makeSwap_s n : stack_exec (Z.of_nat n + 1) (Z.of_nat n + 1) (makeSwap n).
Proof.
  intros [p e m s c] Hf Hlen Hpc. pose proof (proj1 (f_stack _ Hf)) as Hs. cbn in Hlen, Hpc, Hs.
  destruct (lookup_lt_is_Some_2 s (n + 1 - 1)) as [y Hy]; [unfold len in Hlen; lia|].
  destruct (lookup_lt_is_Some_2 s 0) as [x Hx]; [unfold len in Hlen; lia|].
  exists (<[0%nat := y]> (<[(n + 1 - 1)%nat := x]> s)), p.
  split; [unfold makeSwap, swap, mbind, st_bind, st_get; cbn -[lookup insert]; by rewrite Hy, Hx|].
  split_and!; [|rewrite !len_insert; cbn; lia|cbn; lia..].
  apply Forall_insert; [apply Forall_insert; [done|]|].
  - by apply (Forall_lookup_1 _ _ _ _ Hs Hx).
  - by apply (Forall_lookup_1 _ _ _ _ Hs Hy).
Qed.

(** ** Memory sizes and accesses *)

Definition g_range (off l : nat) (s : list Z) : Z * bool := calcMemSize64 (nth off s 0) (nth l s 0).
Definition g_fixed (off : nat) (n : Z) (s : list Z) : Z * bool := calcMemSize64WithUint (nth off s 0) n.
Definition g_larger (a b : list Z → Z * bool) (s : list Z) : Z * bool :=
  if snd (a s) then (0, true) else if snd (b s) then (0, true)
  else (if fst (b s) <? fst (a s) then fst (a s) else fst (b s), false).

Lemma calcMemSize64WithUint_u64 o n : is_u64 (fst (calcMemSize64WithUint o n)).
Proof.
  unfold calcMemSize64WithUint, Uint64WithOverflow. destruct (n =? 0); [done|].
  destruct (IsUint64 o); cbn; [apply u64_range|done].
Qed.
Lemma calcMemSize64_u64 o l : is_u64 (fst (calcMemSize64 o l)).
Proof. unfold calcMemSize64. destruct (negb _); [done|apply calcMemSize64WithUint_u64]. Qed.

(** A memory function that reads the stack. *)
Definition reads (pops : Z) (m : F (Z * bool)) (g : list Z → Z * bool) : Prop :=
  ∀ f, pops ≤ len (stack f) → m f = (f, Ok (g (stack f))) ∧ is_u64 (fst (g (stack f))).
Lemma reads_mem_fn pops m g : reads pops m g → mem_fn pops (Some m) g.
Proof. intros Hr f Hl _. by apply Hr. Qed.

Lemma Back_eq n f : Z.of_nat n < len (stack f) → Back n f = (f, (Ok (nth n (stack f) 0) : res evm_err Z)).
Proof. intros Hn. unfold Back, mbind, st_bind, st_get. by rewrite (nth_stack _ _ Hn). Qed.

Lemma range_reads pops off l : Z.of_nat off < pops → Z.of_nat l < pops → reads pops (range off l) (g_range off l).
Proof.
  intros Ho Hl f Hlen. unfold range, mbind, st_bind. rewrite Back_eq by lia. rewrite Back_eq by lia.
  split; [done|]. apply calcMemSize64_u64.
Qed.
Lemma fixed_reads pops off n : Z.of_nat off < pops → reads pops (fixed off n) (g_fixed off n).
Proof.
  intros Ho f Hlen. unfold fixed, mbind, st_bind. rewrite Back_eq by lia.
  split; [done|]. apply calcMemSize64WithUint_u64.
Qed.
Lemma larger_reads pops a b ga gb : reads pops a ga → reads pops b gb → reads pops (larger a b) (g_larger ga gb).
Proof.
  intros Ha Hb f Hlen. unfold larger, mbind, st_bind, g_larger. destruct (Ha f Hlen) as [-> Hua], (Hb f Hlen) as [Hbe Hub].
  destruct (ga (stack f)) as [x []]; cbn; [done|]. rewrite Hbe. destruct (gb (stack f)) as [y []]; cbn; [done|].
  split; [done|]. by destruct (y <? x).
Qed.

(** A range that was sized lies in memory, or is empty. *)
Definition in_mem (m : Memory) (off size : Z) : Prop := size = 0 ∨ 0 < size ∧ 0 ≤ off ∧ off + size ≤ mem_Len m.

Lemma range_in_mem m off l s :
  Forall is_u256 s → mem_ok m → snd (g_range off l s) = false → fst (g_range off l s) ≤ mem_Len m →
  in_mem m (nth off s 0) (nth l s 0).
Proof.
  intros Hs Hm. unfold g_range, in_mem. pose proof (nth_ok s off Hs) as Ho. pose proof (nth_ok s l Hs) as Hl.
  destruct (calcMemSize64_ok _ _ Ho Hl) as (_ & H2 & H3). unfold is_u256 in *.
  destruct (Z.eq_dec (nth l s 0) 0); [by left|]. right.
  destruct (Z.lt_ge_cases (nth off s 0 + nth l s 0) (2 ^ 64)) as [Hlt|Hge].
  - rewrite H2 in * by done. cbn in *. lia.
  - rewrite H3 in * by done. done.
Qed.
Lemma fixed_in_mem m off n s :
  Forall is_u256 s → mem_ok m → 0 < n < 2 ^ 64 → snd (g_fixed off n s) = false → fst (g_fixed off n s) ≤ mem_Len m →
  in_mem m (nth off s 0) n.
Proof.
  intros Hs Hm Hn Hov Hle. assert (calcMemSize64 (nth off s 0) n = g_fixed off n s) as Heq.
  { unfold calcMemSize64, g_fixed, IsUint64, Uint64. rewrite (proj2 (Z.ltb_lt n _)) by lia. cbn [negb].
    by rewrite u64_small by (unfold is_u64; lia). }
  rewrite <-Heq in *. pose proof (nth_ok s off Hs) as Ho.
  destruct (calcMemSize64_ok (nth off s 0) n Ho) as (_ & H2 & H3); [unfold is_u256; lia|]. unfold in_mem, is_u256 in *.
  right. destruct (Z.lt_ge_cases (nth off s 0 + n) (2 ^ 64)) as [Hlt|Hge].
  - rewrite H2 in * by lia. cbn in *. lia.
  - rewrite H3 in * by lia. done.
Qed.
Lemma larger_in_mem a b s m :
  snd (g_larger a b s) = false → fst (g_larger a b s) ≤ m →
  snd (a s) = false ∧ fst (a s) ≤ m ∧ snd (b s) = false ∧ fst (b s) ≤ m.
Proof.
  unfold g_larger. destruct (snd (a s)), (snd (b s)); cbn; try done.
  destruct (Z.ltb_spec (fst (b s)) (fst (a s))); lia.
Qed.

Lemma in_mem_small m off size : mem_ok m → 0 < size → in_mem m off size →
  Uint64 off = off ∧ Uint64 size = size ∧ int64 off = off ∧ int64 size = size ∧ 0 ≤ off ∧
  off + size ≤ mem_Len m ∧ mem_Len m ≤ 0x1FFFFFFFE0.
Proof.
  intros Hm Hpos [->|Hin]; [lia|]. apply mem_ok_len in Hm. unfold Uint64, int64.
  rewrite !u64_small by (unfold is_u64; lia). rewrite !(proj2 (Z.ltb_lt _ _)) by lia.
  split_and!; lia.
Qed.

Lemma mem_GetPtr_ok {E} m off size : memory_ok m → 0 ≤ size → in_mem m off size →
  ∃ d, mem_GetPtr (E:=E) m (int64 (Uint64 off)) (int64 (Uint64 size)) = Ok d ∧ bytes_ok d ∧ len d = size ∧ size < 2 ^ 62.
Proof.
  intros [Hm Hb] Hsz Hin. destruct (Z.eq_dec size 0) as [->|Hne].
  { exists []. split_and!; [done|constructor|done|done]. }
  destruct (in_mem_small m off size Hm ltac:(lia) Hin) as (-> & -> & -> & -> & Ho & Hle & Hlen). unfold mem_GetPtr, mem_Len in *.
  rewrite (proj2 (Z.eqb_neq size 0)), (proj2 (Z.ltb_lt off _)) by lia.
  destruct (go_slice_bytes (E:=E) (store m) off (off + size)) as (d & -> & Hd & Hl); [done|lia..|].
  exists d. split_and!; [done|done|lia|lia].
Qed.
Lemma mem_GetCopy_ok {E} m off size : memory_ok m → 0 ≤ size → in_mem m off size →
  ∃ d, mem_GetCopy (E:=E) m (int64 (Uint64 off)) (int64 (Uint64 size)) = Ok d ∧ bytes_ok d ∧ len d = size ∧ size < 2 ^ 62.
Proof.
  intros Hm Hsz Hin. destruct (mem_GetPtr_ok (E:=E) m off size Hm Hsz Hin) as (d & Heq & Hd).
  exists d. split; [|done]. rewrite <-Heq. unfold mem_GetCopy, mem_GetPtr. destruct (Z.eq_dec size 0) as [->|Hne]; [done|].
  destruct (in_mem_small m off size (proj1 Hm) ltac:(lia) Hin) as (-> & -> & -> & -> & _).
  destruct (size =? 0), (off <? len (store m)); try done. by rewrite (proj2 (Z.ltb_ge size 0)) by lia.
Qed.

Lemma mem_copy_ok m off size v : bytes_ok m → bytes_ok v → 0 ≤ off → 0 ≤ size → off + size ≤ len m →
  bytes_ok (mem_copy m off size v) ∧ len (mem_copy m off size v) = len m.
Proof.
  intros Hm Hv Ho Hs Hle. unfold mem_copy. split.
  - rewrite !bytes_ok_app. split_and!; auto with go.
  - unfold len in *. rewrite !length_app, !length_take, length_drop. lia.
Qed.
Lemma memory_ok_store m s : memory_ok m → bytes_ok s → len s = mem_Len m → memory_ok (mk_Memory s (lastGasCost m)).
Proof.
  intros [(w & Hw & Hl & Hf) _] Hs Hlen. split; [|done]. exists w. split; [done|]. split; [|done].
  unfold mem_Len in *. cbn. lia.
Qed.

Lemma mem_Set_ok {E} m off size v : memory_ok m → bytes_ok v → 0 ≤ size → in_mem m off size →
  ∃ m', mem_Set (E:=E) m (Uint64 off) (Uint64 size) v = Ok m' ∧ memory_ok m'.
Proof.
  intros Hm Hv Hsz Hin. destruct (Z.eq_dec size 0) as [->|Hne]; [by exists m|].
  destruct (in_mem_small m off size (proj1 Hm) ltac:(lia) Hin) as (-> & -> & _ & _ & Ho & Hle & Hlen). unfold mem_Set, mem_Len in *.
  rewrite (proj2 (Z.ltb_lt 0 size)), u64_small, (proj2 (Z.ltb_ge (len _) (off + size))) by (unfold is_u64; lia).
  rewrite go_slice_ok by lia. cbn [mbind res_bind]. eexists. split; [done|].
  destruct (mem_copy_ok (store m) off size v) as [? ?]; [apply Hm|done|lia..|]. by apply memory_ok_store.
Qed.
Lemma mem_Set32_ok {E} m off v : memory_ok m → in_mem m off 32 →
  ∃ m', mem_Set32 (E:=E) m (Uint64 off) v = Ok m' ∧ memory_ok m'.
Proof.
  intros Hm Hin. destruct (in_mem_small m off 32 (proj1 Hm) ltac:(lia) Hin) as (-> & _ & _ & _ & Ho & Hle & Hlen).
  unfold mem_Set32, mem_Len in *.
  rewrite u64_small, (proj2 (Z.ltb_ge (len _) (off + 32))) by (unfold is_u64; lia).
  rewrite go_slice_ok by lia. cbn [mbind res_bind]. eexists. split; [done|].
  destruct (mem_copy_ok (store m) off 32 (be_bytes 32 v)) as [? ?]; [apply Hm|auto with go|lia..|]. by apply memory_ok_store.
Qed.

(** ** Instructions that use memory or the database *)

Definition mem_exec (pops pushes : Z) (grd : list Z → bool) (g : list Z → Z * bool) (m : F bytes) : Prop :=
  ∀ f, frame_ok f → pops ≤ len (stack f) → (grd (stack f) = true → static env (evm f) = false) →
  snd (g (stack f)) = false → fst (g (stack f)) ≤ mem_Len (mem f) →
  wp m f (λ ret f', evolves env (evm f) (evm f') ∧ memory_ok (mem f') ∧ Forall is_u256 (stack f') ∧
    len (stack f') = len (stack f) - pops + pushes ∧ contract f' = contract f ∧ pc f' = pc f ∧
    bytes_ok ret ∧ len ret < 2 ^ 62) (err_post env f).

Lemma mem_exec_ok pops pushes grd g h m : mem_exec pops pushes grd g m → exec_ok env pops pushes grd no_b g h (λ _, m).
Proof.
  intros Hm n calls f Hcalls Hf Hlen Hgrd Hov Hfit Hpc. eapply wp_mono; [by apply (Hm f)| |done].
  intros ret f' (He & Hme & Hs & Hl & Hc & Hp & Hr). split; [done|done|done| | |done].
  - rewrite Hc. split_and!; [apply Hf|done|unfold no_b; lia].
  - intros ->. rewrite Hp. destruct Hf. destruct (Hpc eq_refl). lia.
Qed.

(** The entry of such an operation. *)
Lemma mem_entry op m g d lo ms gm grd fl pops pushes :
  mem_exec pops pushes grd gm m → mem_fn pops ms gm → gas_ok env (bool_decide (is_Some ms)) pops grd no_b lo d →
  (∀ s, grd s = true → writes fl = true) → 0 ≤ g → 0 ≤ lo → (halts fl || reverts fl = false → 0 < g + lo) → op ≠ Op.CALL →
  entry_ok env (op, mk_operation (λ _, m) g (Some d) (minStack pops pushes) (maxStack pops pushes) ms fl).
Proof.
  intros Hm Hms Hd Hw Hg Hlo Hp Hop. apply (entry_intro env _ _ pushes grd no_b gm lo); cbn; try done.
  - intros s Hs. left. by apply (Hw s).
  - by apply mem_exec_ok.
Qed.

Lemma evolves_db e w : evm_ok e → (world_ok (db e) → world_ok w) → (static env e = true → RO env (db e) w) →
  evolves env e (mk_EVM w (depth e) (callGasTemp e) (readOnly e) (returnData e) (jumpdests e)).
Proof. intros [] Hw HR. split; [split; cbn; auto|done..]. Qed.

Tactic Notation "mem_open" integer(n) :=
  intros [p e m s c] Hf Hlen Hgrd Hov Hfit; cbn [stack evm mem] in *;
  pose proof (err_post_refl env _ Hf) as Herr;
  pose proof (f_evm _ Hf) as He; pose proof (f_mem _ Hf) as Hm;
  let Hs := fresh "Hs" in
  pose proof (proj1 (f_stack _ Hf)) as Hs; cbn [stack evm mem contract] in Hs, Hm, He;
  do n (destruct s as [|? s]; [unfold len in Hlen; cbn [length Z.of_nat] in Hlen; lia|]);
  decompose_Forall_hyps;
  unfold wp; frame_eval.
Ltac mem_close :=
  cbn [evm mem stack contract pc]; rewrite ?len_cons;
  split_and!; [|try assumption|repeat apply Forall_cons_2; try assumption|lia|reflexivity|reflexivity|..];
  try apply ret_nil; try (apply evolves_refl; assumption).

Lemma opMload_m : mem_exec 1 1 no_grd (g_fixed 0 32) opMload.
Proof.
  unfold opMload. mem_open 1. pose proof (fixed_in_mem m 0 32 _ (proj1 (f_stack _ Hf)) (proj1 Hm) ltac:(lia) Hov Hfit) as Hin. cbn in Hin.
  destruct (mem_GetPtr_ok (E:=evm_err) m z 32 Hm ltac:(lia) Hin) as (d & Heq & Hd & Hl & _).
  change (int64 (Uint64 32)) with 32 in Heq. rewrite Heq. mem_close. apply u256_be_val; [done|lia].
Qed.
Lemma opMstore_m : mem_exec 2 0 no_grd (g_fixed 0 32) opMstore.
Proof.
  unfold opMstore. mem_open 2. pose proof (fixed_in_mem m 0 32 _ (proj1 (f_stack _ Hf)) (proj1 Hm) ltac:(lia) Hov Hfit) as Hin. cbn in Hin.
  destruct (mem_Set32_ok (E:=evm_err) m z z0 Hm Hin) as (m' & -> & Hm'). mem_close.
Qed.
Lemma opMstore8_m : mem_exec 2 0 no_grd (g_fixed 0 1) opMstore8.
Proof.
  unfold opMstore8. mem_open 2. pose proof (fixed_in_mem m 0 1 _ (proj1 (f_stack _ Hf)) (proj1 Hm) ltac:(lia) Hov Hfit) as Hin. cbn in Hin.
  destruct (in_mem_small m z 1 (proj1 Hm) ltac:(lia) Hin) as (Hz & _ & _ & _ & Hz0 & Hle & _).
  rewrite Hz, go_set_ok by (unfold mem_Len in Hle; lia). mem_close.
  apply memory_ok_store; [done| |by rewrite len_insert]. apply Forall_insert; [apply Hm|apply u8_range].
Qed.
Lemma opSha3_m : mem_exec 2 1 no_grd (g_range 0 1) (opSha3 env).
Proof.
  unfold opSha3. mem_open 2. pose proof (range_in_mem m 0 1 _ (proj1 (f_stack _ Hf)) (proj1 Hm) Hov Hfit) as Hin. cbn in Hin.
  destruct (mem_GetPtr_ok (E:=evm_err) m z z0 Hm ltac:(unfold is_u256 in *; lia) Hin) as (d & -> & Hd & Hl & _).
  destruct (EnablePreimageRecording env); mem_close; try apply u256_range.
  apply evolves_db; [done|auto with world|]. intros _. constructor.
Qed.
Lemma opReturn_m : mem_exec 2 0 no_grd (g_range 0 1) opReturn.
Proof.
  unfold opReturn. mem_open 2. pose proof (range_in_mem m 0 1 _ (proj1 (f_stack _ Hf)) (proj1 Hm) Hov Hfit) as Hin. cbn in Hin.
  destruct (mem_GetPtr_ok (E:=evm_err) m z z0 Hm ltac:(unfold is_u256 in *; lia) Hin) as (d & -> & Hd & Hl & Hlt).
  mem_close; [done|lia].
Qed.
Lemma opStop_m : mem_exec 0 0 no_grd no_mem opStop.
Proof. unfold opStop. mem_open 0. mem_close. Qed.
Lemma opSstore_m : mem_exec 2 0 (λ _, true) no_mem opSstore.
Proof. unfold opSstore. mem_open 2. mem_close. apply evolves_db; [done|auto with world|]. by rewrite Hgrd. Qed.
Lemma opSuicide_m : mem_exec 1 0 (λ _, true) no_mem opSuicide.
Proof. unfold opSuicide. mem_open 1. mem_close. apply evolves_db; [done|auto with world|]. by rewrite Hgrd. Qed.

(** The sized length of a copy fits, so that its data can be read and stored. *)
Lemma copy_length m off l : mem_ok m → is_u256 l → in_mem m off l → Uint64 l = l ∧ 0 ≤ l < 2 ^ 62.
Proof.
  unfold Uint64, is_u256, in_mem. intros Hm Hl Hin. apply mem_ok_len in Hm. rewrite u64_small by (unfold is_u64; lia). lia.
Qed.
Lemma copy_offset_nonneg x : 0 ≤ copy_offset x.
Proof.
  unfold copy_offset, Uint64WithOverflow. destruct (IsUint64 x); cbn; [apply u64_range|done].
Qed.

Lemma opCallDataCopy_m : mem_exec 3 0 no_grd (g_range 0 2) opCallDataCopy.
Proof.
  unfold opCallDataCopy, memory_Set. mem_open 3.
  pose proof (range_in_mem m 0 2 _ (proj1 (f_stack _ Hf)) (proj1 Hm) Hov Hfit) as Hin. cbn in Hin.
  destruct (copy_length m z z1 (proj1 Hm)) as [Hl Hb]; [done..|]. destruct (c_input _ (f_contract _ Hf)) as [Hi1 Hi2].
  destruct (getData_ok (E:=evm_err) (Input c) (copy_offset z0) (Uint64 z1)) as (d & -> & Hd & _);
    [done|done|apply copy_offset_nonneg|lia|].
  destruct (mem_Set_ok (E:=evm_err) m z z1 d Hm Hd (proj1 Hb) Hin) as (m' & -> & Hm'). mem_close.
Qed.
Lemma opCodeCopy_m : mem_exec 3 0 no_grd (g_range 0 2) opCodeCopy.
Proof.
  unfold opCodeCopy, memory_Set. mem_open 3.
  pose proof (range_in_mem m 0 2 _ (proj1 (f_stack _ Hf)) (proj1 Hm) Hov Hfit) as Hin. cbn in Hin.
  destruct (copy_length m z z1 (proj1 Hm)) as [Hl Hb]; [done..|]. destruct (c_code _ (f_contract _ Hf)) as [Hi1 Hi2].
  destruct (getData_ok (E:=evm_err) (Code c) (copy_offset z0) (Uint64 z1)) as (d & -> & Hd & _);
    [done|done|apply copy_offset_nonneg|lia|].
  destruct (mem_Set_ok (E:=evm_err) m z z1 d Hm Hd (proj1 Hb) Hin) as (m' & -> & Hm'). mem_close.
Qed.
Lemma opExtCodeCopy_m : mem_exec 4 0 no_grd (g_range 1 3) opExtCodeCopy.
Proof.
  unfold opExtCodeCopy, memory_Set. mem_open 4.
  pose proof (range_in_mem m 1 3 _ (proj1 (f_stack _ Hf)) (proj1 Hm) Hov Hfit) as Hin. cbn in Hin.
  destruct (copy_length m z0 z2 (proj1 Hm)) as [Hl Hb]; [done..|].
  destruct (ok_GetCode (db e) (Bytes20 z) (evm_world _ He)) as [Hi1 Hi2].
  destruct (getData_ok (E:=evm_err) (GetCode (db e) (Bytes20 z)) (copy_offset z1) (Uint64 z2)) as (d & -> & Hd & _);
    [done|done|apply copy_offset_nonneg|lia|].
  destruct (mem_Set_ok (E:=evm_err) m z0 z2 d Hm Hd (proj1 Hb) Hin) as (m' & -> & Hm'). mem_close.
Qed.
Lemma opReturnDataCopy_m : mem_exec 3 0 no_grd (g_range 0 2) opReturnDataCopy.
Proof.
  unfold opReturnDataCopy, memory_Set, Uint64WithOverflow. mem_open 3.
  pose proof (range_in_mem m 0 2 _ (proj1 (f_stack _ Hf)) (proj1 Hm) Hov Hfit) as Hin. cbn in Hin.
  destruct (copy_length m z z1 (proj1 Hm)) as [Hl Hb]; [done..|]. destruct (evm_ret _ He) as [Hi1 Hi2].
  unfold IsUint64. destruct (Z.ltb_spec z0 (2 ^ 64)) as [Hz0|]; cbn [negb]; [|done].
  assert (u_Add z0 z1 = z0 + z1) as ->.
  { rewrite u_Add_spec by done. apply u256_small. unfold is_u256 in *. lia. }
  destruct (Z.ltb_spec (z0 + z1) (2 ^ 64)) as [Hz1|]; cbn [negb orb]; [|done].
  rewrite !u64_small by (unfold is_u64, is_u256 in *; lia).
  destruct (Z.ltb_spec (len (returnData e)) (z0 + z1)); [done|].
  destruct (go_slice_bytes (E:=evm_err) (returnData e) z0 (z0 + z1)) as (d & -> & Hd & _); [done|unfold is_u256 in *; lia..|].
  destruct (mem_Set_ok (E:=evm_err) m z z1 d Hm Hd (proj1 Hb) Hin) as (m' & -> & Hm'). mem_close.
Qed.

Lemma pop_topics_eq n p e m s c : (n ≤ length s)%nat →
  pop_topics n (mk_frame p e m s c) = (mk_frame p e m (drop n s) c, (Ok (take n s) : res evm_err (list Z))) .
Proof.
  revert s. induction n as [|n IH]; intros s Hn; [by rewrite drop_0|]. destruct s as [|x s]; cbn in Hn; [lia|].
  cbn [pop_topics]. frame_eval. rewrite IH by lia. done.
Qed.
Lemma makeLog_m (n : nat) : mem_exec (Z.of_nat n + 2) 0 (λ _, true) (g_range 0 1) (makeLog env n).
Proof.
  intros [p e m s c] Hf Hlen Hgrd Hov Hfit. cbn [stack evm mem] in *. pose proof (err_post_refl env _ Hf) as Herr.
  pose proof (f_evm _ Hf) as He. pose proof (f_mem _ Hf) as Hm. pose proof (proj1 (f_stack _ Hf)) as Hs.
  pose proof (range_in_mem m 0 1 _ Hs (proj1 Hm) Hov Hfit) as Hin. cbn [stack evm mem] in *.
  destruct s as [|z [|z0 s]]; [unfold len in Hlen; cbn in Hlen; lia..|]. cbn in Hin. decompose_Forall_hyps.
  destruct (mem_GetCopy_ok (E:=evm_err) m z z0 Hm ltac:(unfold is_u256 in *; lia) Hin) as (d & Heq & Hd & Hl & _).
  unfold makeLog. apply (wp_bind_ok _ _ _ (mk_frame p e m (z0 :: s) c) z); [done|].
  apply (wp_bind_ok _ _ _ (mk_frame p e m s c) z0); [done|].
  apply (wp_bind_ok _ _ _ _ _ _ _ (pop_topics_eq n p e m s c ltac:(unfold len in Hlen; cbn in Hlen; lia))).
  assert (evolves env e (mk_EVM (AddLog (self c) (take n s) d (db e)) (depth e) (callGasTemp e) (readOnly e)
    (returnData e) (jumpdests e))) as Hev by (apply evolves_db; [done|auto with world|by rewrite Hgrd]).
  unfold wp. frame_eval. rewrite Heq.
  destruct (ExtraValidator env) as [v|]; [destruct (IsLogDenied _ _ _ _); [split; [apply evolves_refl, He|apply Herr]|]|].
  all: cbn [evm mem stack contract pc]; split_and!; [done|done|by apply Forall_drop| |done|done|apply ret_nil..].
  all: rewrite !len_cons in *; unfold len in *; rewrite length_drop; lia.
Qed.

(** ** Jumps *)

Lemma wp_check_jump p e m s c pos Q E :
  frame_ok (mk_frame p e m s c) → is_u256 pos →
  (∀ b c' jd', contract_ok c' → Code c' = Code c → Gas c' = Gas c → (b = true → pos < len (Code c)) →
    Q b (mk_frame p (mk_EVM (db e) (depth e) (callGasTemp e) (readOnly e) (returnData e) jd') m s c')) →
  wp (check_jump env pos) (mk_frame p e m s c) Q E.
Proof.
  intros Hf Hpos HQ. destruct Hf as [_ _ _ Hc _]. cbn in Hc.
  pose proof (validJumpdest_safe (emptyCodeHash env) (cache_Get env) c (jumpdests e) pos Hpos ltac:(pose proof (proj2 (c_code _ Hc)); lia)) as Hv.
  unfold wp, check_jump. cbn [contract evm]. destruct (validJumpdest _ _ _ _ _) as [[[b c'] jd']|x|y|]; [|done|by right; right|done].
  destruct Hv as [Hset Hb]. destruct c', c. cbn in Hset. simplify_eq. apply HQ; try done. destruct Hc. by split.
Qed.

Lemma jump_post pops p e m s0 s c pos c' jd' :
  frame_ok (mk_frame p e m s0 c) → Forall is_u256 s → len s = len s0 - pops → contract_ok c' →
  Code c' = Code c → Gas c' = Gas c → 0 ≤ pos < len (Code c) + 32 →
  exec_post env pops 0 0 false (mk_frame p e m s0 c) []
    (mk_frame pos (mk_EVM (db e) (depth e) (callGasTemp e) (readOnly e) (returnData e) jd') m s c').
Proof.
  intros [[] Hm _ _ _] Hs Hl Hc' Hcode Hg Hp. split; cbn; [|done|split; [done|lia]| |done|apply ret_nil].
  - split; cbn; [by split|done|done|constructor].
  - split_and!; [done|done|lia].
Qed.

Lemma jump_err p e m s0 s c c' jd' :
  frame_ok (mk_frame p e m s0 c) → Gas c' = Gas c →
  err_post env (mk_frame p e m s0 c)
    (mk_frame p (mk_EVM (db e) (depth e) (callGasTemp e) (readOnly e) (returnData e) jd') m s c').
Proof.
  intros Hf Hg. pose proof (c_gas _ (f_contract _ Hf)) as Hg0. unfold is_u64 in Hg0. cbn in Hg0.
  destruct Hf as [[] _ _ _ _]. split; cbn; [split; cbn; [by split|done|done|constructor]|lia].
Qed.

(** Taking a jump with the operands removed from the stack. *)
Lemma wp_jump pops p e m s0 s c z :
  frame_ok (mk_frame p e m s0 c) → Forall is_u256 s → len s = len s0 - pops → 0 ≤ pops → is_u256 z →
  wp (ok ← check_jump env z; if negb ok then st_err ErrInvalidJump else set_pc (Uint64 z) ≫= λ _, mret [])
    (mk_frame p e m s c) (exec_post env pops 0 0 false (mk_frame p e m s0 c)) (err_post env (mk_frame p e m s0 c)).
Proof.
  intros Hf Hs Hl Hpops Hz. apply wp_bind. apply wp_check_jump; [|done|].
  { destruct Hf as [? ? [? Hsl] ? ?]. split; [done..| |done|done]. split; [done|]. cbn in Hsl |- *. lia. }
  intros b c' jd' Hc' Hcode Hg Hb. destruct b; cbn [negb].
  - specialize (Hb eq_refl). pose proof (proj2 (c_code _ (f_contract _ Hf))) as Hcl. cbn in Hcl.
    apply jump_post; try done. unfold Uint64, is_u256 in *. rewrite u64_small by (unfold is_u64; lia). lia.
  - by apply jump_err.
Qed.

Lemma opJump_ok : exec_ok env 1 0 no_grd no_b no_mem false (λ _, opJump env).
Proof.
  intros n calls [p e m s c] _ Hf Hlen _ _ _ Hpc. cbn in Hlen.
  pose proof (proj1 (f_stack _ Hf)) as Hs. cbn in Hs. destruct s as [|z s]; [unfold len in Hlen; cbn in Hlen; lia|].
  decompose_Forall_hyps. unfold opJump. apply (wp_bind_ok _ _ _ (mk_frame p e m s c) z); [done|].
  apply wp_jump; [done|done|rewrite len_cons; lia|done|done].
Qed.
Lemma opJumpi_ok : exec_ok env 2 0 no_grd no_b no_mem false (λ _, opJumpi env).
Proof.
  intros n calls [p e m s c] _ Hf Hlen _ _ _ Hpc. destruct (Hpc eq_refl) as [Hp _]. cbn in Hlen, Hp.
  pose proof (proj1 (f_stack _ Hf)) as Hs. cbn in Hs.
  destruct s as [|z [|z0 s]]; [unfold len in Hlen; cbn in Hlen; lia..|].
  decompose_Forall_hyps. unfold opJumpi. apply (wp_bind_ok _ _ _ (mk_frame p e m (z0 :: s) c) z); [done|].
  apply (wp_bind_ok _ _ _ (mk_frame p e m s c) z0); [done|].
  pose proof (f_pc _ Hf) as Hp0. pose proof (proj2 (c_code _ (f_contract _ Hf))) as Hcl. cbn in Hp0, Hcl.
  destruct (z0 =? 0); cbn [negb]; [|apply wp_jump; [done|done|rewrite !len_cons; lia|done|done]].
  pose proof (jump_post 2 p e m (z :: z0 :: s) s c (u64 (p + 1)) c (jumpdests e) Hf) as Hpost.
  destruct e. apply Hpost; [done|rewrite !len_cons; lia|apply Hf|done|done|].
  rewrite u64_small by (unfold is_u64; lia). lia.
Qed.
End ops.

Create HintDb ops discriminated.
#[export] Hint Constants Opaque : ops.
#[export] Hint Resolve opAdd_s opSub_s opMul_s opDiv_s opSdiv_s opMod_s opSmod_s opExp_s opSignExtend_s opLt_s
  opGt_s opSlt_s opSgt_s opEq_s opAnd_s opOr_s opXor_s opByte_s opSHL_s opSHR_s opSAR_s opNot_s opIszero_s
  opBalance_s opExtCodeSize_s opExtCodeHash_s opBlockhash_s opSload_s opAddmod_s opMulmod_s opAddress_s
  opOrigin_s opCaller_s opCallValue_s opCallDataSize_s opCodeSize_s opGasprice_s opCoinbase_s opTimestamp_s
  opNumber_s opDifficulty_s opGasLimit_s opPc_s opMsize_s opGas_s opChainID_s opSelfBalance_s opBaseFee_s
  opReturnDataSize_s opPop_s opJumpdest_s opCallDataLoad_s opPush1_s opMload_m opMstore_m opMstore8_m opSha3_m
  opReturn_m opStop_m opSstore_m opSuicide_m opCallDataCopy_m opCodeCopy_m opExtCodeCopy_m opReturnDataCopy_m :
  ops.
