(* ===== verification/EvmGasOk.v ===== *)
(** * The gas functions and the call instructions meet their specifications

    In particular the amount charged for a call covers the gas handed to the
    callee, also where the source subtracts and adds 64-bit words without
    checks, and the callee's gas is strictly below the caller's. *)
From stdpp Require Import gmap.
From S2P Require Import Prelude EvmAnalysis EvmBase EvmMachine EvmGas EvmTable EvmInterp EvmSafety EvmOps.

Section gas.
Context {W : Type} `{!Uint256, !Uint256Laws, !StateDB W, !WorldLaws W} (env : Env W) (Henv : env_ok env).
Abbreviation F := (st (frame W) evm_err).
Implicit Types (f : frame W) (e : EVM W).

Definition ms_ok (hasmem : bool) (ms : Z) : Prop := ms = 0 ∨ hasmem = true ∧ is_u64 ms ∧ ms mod 32 = 0.

(** ** Memory *)

(** The frame after the memory fee was computed. *)
Definition priced (ms : Z) f f' : Prop :=
  ∃ m', f' = with_mem m' f ∧ store m' = store (mem f) ∧ mem_ok (mem_Resize m' ms).

Lemma wp_memory_gas hasmem ms f :
  frame_ok f → ms_ok hasmem ms →
  wp (memory_gas (W:=W) ms) f (λ fee f', priced ms f f' ∧ 0 ≤ fee < 2 ^ 56) (err_post env f).
Proof.
  intros Hf Hms. pose proof (proj1 (f_mem _ Hf)) as Hm. pose proof (err_post_refl env _ Hf) as Herr.
  unfold wp, memory_gas, lift_mem. destruct f as [p e m s c]. cbn in *.
  assert (0 ≤ ms ∧ ms mod 32 = 0) as [H1 H2] by (destruct Hms as [->|(_ & [? ?] & ?)]; done).
  destruct (Z.le_gt_cases ms 0x1FFFFFFFE0) as [Hle|Hgt].
  - destruct (memoryGasCost_ok m ms Hm) as (m' & fee & -> & Hst & Hfee & Hok); [lia|].
    split.
    + exists m'. split_and!; [done|done|]. replace ms with (32 * ((ms + 31) / 32)); [done|].
      apply Z.div_exact in H2; [|lia]. rewrite H2. replace (32 * (ms / 32) + 31) with (31 + ms / 32 * 32) by lia.
      rewrite Z.div_add by lia. change (31 / 32) with 0. lia.
    + destruct Hm as (w & Hw & Hl & _). destruct (Hfee w Hl) as (-> & Hpos & _). split; [done|].
      destruct (toWordSize_ceil ms) as [_ Hn]; [lia|]. pose proof (memory_fee_bound (Z.max w ((ms + 31) / 32)) ltac:(lia)).
      pose proof (memory_fee_mono w w ltac:(lia)). lia.
  - unfold memoryGasCost. rewrite (proj2 (Z.eqb_neq ms 0)), (proj2 (Z.ltb_lt _ ms)) by lia. done.
Qed.

Lemma priced_post b lo ms f f' g :
  frame_ok f → priced ms f f' → lo + b (evm f) (stack f) ≤ g < 2 ^ 64 → gas_post env b lo ms f g f'.
Proof. intros Hf (m' & -> & Hs & Hm) Hg. unfold gas_post. cbn. split_and!; try done; try lia. apply evolves_refl, Hf. Qed.
Lemma priced_err ms f f' : frame_ok f → priced ms f f' → err_post env f f'.
Proof. intros Hf (m' & -> & Hs & Hm). exact (err_post_refl env f Hf). Qed.
Lemma priced_stack ms f f' : priced ms f f' → stack f' = stack f ∧ evm f' = evm f ∧ contract f' = contract f.
Proof. by intros (m' & -> & _). Qed.

Lemma pureMemoryGascost_ok h pops : gas_ok env h pops no_grd no_b 0 pureMemoryGascost.
Proof.
  intros ms f Hf Hlen _ Hms. eapply wp_mono; [by apply (wp_memory_gas h)| |done].
  intros fee f' [Hp Hfee]. apply priced_post; [done|done|unfold no_b; lia].
Qed.

Lemma toWordSize_small x : is_u64 x → 0 ≤ toWordSize x ≤ 2 ^ 59.
Proof.
  unfold is_u64, toWordSize, MaxUint64. intros Hx. destruct (Z.ltb_spec (2 ^ 64 - 1 - 31) x); [done|].
  split; [apply Z.div_pos; lia|]. apply Z.div_le_upper_bound; lia.
Qed.

(** A price per word of a length on the stack, on top of the memory fee. *)
Lemma word_price_ok h pops k price :
  Z.of_nat k < pops → is_u64 price →
  gas_ok env h pops no_grd no_b 0 (λ ms,
    gas ← memory_gas ms; l ← Back k; words ← checked (Uint64WithOverflow l);
    words ← checked (SafeMul (toWordSize words) price); checked (SafeAdd gas words)).
Proof.
  intros Hk Hpr ms f Hf Hlen _ Hms. apply wp_bind. eapply wp_mono; [by apply (wp_memory_gas h)| |done].
  intros fee f' [Hp Hfee]. pose proof (priced_err _ _ _ Hf Hp) as Herr. destruct (priced_stack _ _ _ Hp) as (Hs & _ & _).
  apply (wp_Back _ _ (nth k (stack f) 0)); [rewrite Hs; apply nth_stack; lia|].
  apply wp_bind, wp_checked; [intros _|done]. apply wp_bind, wp_checked; [|done]. intros Hov1. cbn [fst] in *.
  pose proof (u64_range (nth k (stack f) 0)) as Hu. pose proof (toWordSize_small _ Hu) as Hw.
  unfold Uint64WithOverflow in *. cbn [fst] in *.
  apply SafeMul_ok in Hov1 as [Hlt Heq]; [|unfold is_u64; lia|done]. rewrite Heq.
  set (wp_ := toWordSize _ * price) in *. assert (0 ≤ wp_) by (unfold wp_; apply Z.mul_nonneg_nonneg; [lia|apply Hpr]).
  apply wp_checked; [|done]. intros Hov2. apply SafeAdd_ok in Hov2 as [Hlt2 ->]; [|unfold is_u64; lia..].
  apply priced_post; [done|done|unfold no_b; lia].
Qed.
Lemma memoryCopierGas_ok h pops k : Z.of_nat k < pops → gas_ok env h pops no_grd no_b 0 (memoryCopierGas k).
Proof. intros Hk. by apply (word_price_ok h pops k CopyGas). Qed.
Lemma hashGas_ok h pops k : Z.of_nat k < pops → gas_ok env h pops no_grd no_b 0 (hashGas k).
Proof. intros Hk. by apply (word_price_ok h pops k Sha3WordGas). Qed.

Lemma makeGasLog_ok h pops grd n : 1 < pops → 0 ≤ n ≤ 4 → gas_ok env h pops grd no_b 375 (makeGasLog n).
Proof.
  intros Hk Hn ms f Hf Hlen _ Hms. unfold makeGasLog.
  apply (wp_Back _ _ (nth 1 (stack f) 0)); [apply nth_stack; lia|].
  apply wp_bind, wp_checked; [intros _|by apply err_post_refl]. unfold Uint64WithOverflow. cbn [fst].
  apply wp_bind. eapply wp_mono; [by apply (wp_memory_gas h)| |done].
  intros fee f' [Hp Hfee]. pose proof (priced_err _ _ _ Hf Hp) as Herr.
  pose proof (u64_range (nth 1 (stack f) 0)) as Hu. unfold LogGas, LogTopicGas, LogDataGas in *.
  assert (u64 (n * 375) = n * 375) as -> by (apply u64_small; unfold is_u64; lia).
  apply wp_bind, wp_checked; [|done]. intros Hov. apply SafeAdd_ok in Hov as [Hlt ->]; [|unfold is_u64; lia..].
  apply wp_bind, wp_checked; [|done]. intros Hov. apply SafeAdd_ok in Hov as [Hlt1 ->]; [|unfold is_u64; lia..].
  apply wp_bind, wp_checked; [|done]. intros Hov. apply SafeMul_ok in Hov as [Hlt2 ->]; [|done|done].
  unfold is_u64 in Hu. apply wp_checked; [|done]. intros Hov. apply SafeAdd_ok in Hov as [Hlt3 ->]; [|unfold is_u64; lia..].
  apply priced_post; [done|done|unfold no_b; lia].
Qed.

Lemma BitLen_bound x : is_u256 x → 0 ≤ BitLen x ≤ 256.
Proof.
  unfold is_u256, BitLen. intros Hx. destruct (Z.eqb_spec x 0); [lia|].
  pose proof (Z.log2_nonneg x). pose proof (proj1 (Z.log2_lt_pow2 x 256 ltac:(lia)) ltac:(lia)). lia.
Qed.

(** A gas function without memory that leaves the frame alone apart from the
    database. *)
Lemma db_post grd lo f g w :
  frame_ok f → (grd (stack f) = true → static env (evm f) = false) →
  world_ok w → grd (stack f) = true ∨ RO env (db (evm f)) w → lo ≤ g < 2 ^ 64 →
  gas_post env no_b lo 0 f g
    (mk_frame (pc f) (mk_EVM w (depth (evm f)) (callGasTemp (evm f)) (readOnly (evm f)) (returnData (evm f))
       (jumpdests (evm f))) (mem f) (stack f) (contract f)).
Proof.
  intros Hf Hgrd Hw HR Hg. unfold gas_post, no_b. cbn. rewrite mem_Resize_0. split_and!; try done; try lia; [|apply Hf].
  apply evolves_db; [apply Hf|done|]. intros Hs. destruct HR as [Ht|?]; [|done]. by rewrite (Hgrd Ht) in Hs.
Qed.
Lemma same_post lo f g : frame_ok f → lo ≤ g < 2 ^ 64 → gas_post env no_b lo 0 f g f.
Proof.
  intros Hf Hg. unfold gas_post, no_b. rewrite mem_Resize_0. split_and!; try done; try lia; [apply evolves_refl, Hf|apply Hf].
Qed.
Lemma db_err grd f w :
  frame_ok f → (grd (stack f) = true → static env (evm f) = false) →
  world_ok w → grd (stack f) = true ∨ RO env (db (evm f)) w →
  err_post env f
    (mk_frame (pc f) (mk_EVM w (depth (evm f)) (callGasTemp (evm f)) (readOnly (evm f)) (returnData (evm f))
       (jumpdests (evm f))) (mem f) (stack f) (contract f)).
Proof.
  intros Hf Hgrd Hw HR. pose proof (err_post_refl env f Hf) as [_ Hg]. split; [|done].
  apply evolves_db; [apply Hf|done|]. intros Hs. destruct HR as [Ht|?]; [|done]. by rewrite (Hgrd Ht) in Hs.
Qed.

Lemma gasExp_ok pops price : 1 < pops → 0 ≤ price ≤ 50 → gas_ok env false pops no_grd no_b 10 (gasExp price).
Proof.
  intros Hk Hpr ms f Hf Hlen _ [->|[? _]]; [|done]. unfold gasExp.
  apply (wp_Back _ _ (nth 1 (stack f) 0)); [apply nth_stack; lia|].
  pose proof (BitLen_bound _ (nth_ok (stack f) 1 (proj1 (f_stack _ Hf)))) as Hb.
  set (k := (BitLen (nth 1 (stack f) 0) + 7) / 8). cbn zeta.
  assert (0 ≤ k ≤ 32) as Hk32 by (unfold k; split; [apply Z.div_pos; lia|apply Z.lt_succ_r, Z.div_lt_upper_bound; lia]).
  rewrite (u64_small k), u64_small by (unfold is_u64; nia).
  apply wp_checked; [|by apply err_post_refl]. unfold ExpGas. intros Hov.
  apply SafeAdd_ok in Hov as [Hlt ->]; [|unfold is_u64; nia..]. apply same_post; [done|nia].
Qed.

(** Taking back a refund. *)
Lemma SubRefund_result g w : world_ok w → ∀ r, SubRefund g w = r →
  match r with Ok w' => world_ok w' | Panic p => p = refund_below_zero | _ => False end.
Proof. intros Hw r <-. by apply ok_SubRefund. Qed.

(** Opens a gas function on the first [n] words of the stack, and splits all
    its cases. *)
Tactic Notation "gas_open" integer(n) :=
  intros ms [p e m s c] Hf Hlen Hgrd [->|[? _]]; [|done]; cbn [stack] in Hlen;
  do n (destruct s as [|? s]; [unfold len in Hlen; cbn [length Z.of_nat] in Hlen; lia|]);
  pose proof (err_post_refl env _ Hf) as Herr; pose proof (evm_world _ (f_evm _ Hf)) as Hworld; cbn [evm] in Hworld;
  unfold wp; frame_eval.
Ltac gas_cases grd :=
  repeat match goal with
    | |- context [if ?b then _ else _] => destruct b eqn:?
    | |- context [match SubRefund ?g ?w with _ => _ end] =>
        let Hr := fresh "Hr" in
        assert (world_ok w) as Hr by (cbn [db evm]; auto with world); apply (SubRefund_result g) with (r := SubRefund g w) in Hr; [|reflexivity];
        destruct (SubRefund g w) eqn:?; [|destruct Hr|subst|destruct Hr]
    | |- context [match SlotInAccessList ?w ?a ?s with _ => _ end] => destruct (SlotInAccessList w a s) eqn:?
    end;
  repeat match goal with
    | |- err_post _ ?f ?f => assumption
    | |- gas_post _ _ _ _ ?f _ ?f => apply same_post; [done|]
    | |- gas_post _ _ _ _ ?f _ _ => apply (db_post grd _ f); [done|done|cbn [db evm]; auto with world|try (left; reflexivity)|]
    | |- err_post _ ?f _ => apply (db_err grd f); [done|done|cbn [db evm]; auto with world|try (left; reflexivity)]
    end;
  try match goal with
    | |- evm_panic address_not_present => by right; left
    | |- evm_panic _ => by left
    end.
Definition wr : list Z → bool := λ _, true.

Lemma gasSStore_ok : gas_ok env false 2 wr no_b 200 (gasSStore env).
Proof. unfold gasSStore, sub_refund. gas_open 2. gas_cases wr; done. Qed.
Lemma gasSStoreEIP2200_ok : gas_ok env false 2 wr no_b 800 gasSStoreEIP2200.
Proof. unfold gasSStoreEIP2200, sub_refund. gas_open 2. gas_cases wr; done. Qed.
Lemma makeGasSStoreFunc_ok r : gas_ok env false 2 wr no_b 100 (makeGasSStoreFunc r).
Proof. unfold makeGasSStoreFunc, sub_refund, sstore_cold. gas_open 2. gas_cases wr; done. Qed.
Lemma gasSLoadEIP2929_ok : gas_ok env false 1 no_grd no_b 100 gasSLoadEIP2929.
Proof. unfold gasSLoadEIP2929. gas_open 1. gas_cases no_grd; try done. right. constructor. Qed.
Lemma gasEip2929AccountCheck_ok : gas_ok env false 1 no_grd no_b 0 gasEip2929AccountCheck.
Proof. unfold gasEip2929AccountCheck. gas_open 1. gas_cases no_grd; try done. right. constructor. Qed.
Lemma gasSelfdestruct_ok : gas_ok env false 1 wr no_b 0 (gasSelfdestruct env).
Proof. unfold gasSelfdestruct. gas_open 1. gas_cases wr; done. Qed.
Lemma makeSelfdestructGasFn_ok b : gas_ok env false 1 wr no_b 0 (makeSelfdestructGasFn b).
Proof. unfold makeSelfdestructGasFn. gas_open 1. gas_cases wr; done. Qed.

(** A database change after a gas function. *)
Lemma gas_post_db b lo ms f f1 g g' w :
  (∀ e e' s, callGasTemp e' = callGasTemp e → b e' s = b e s) →
  gas_post env b lo ms f g f1 → world_ok w → RO env (db (evm f1)) w → g ≤ g' < 2 ^ 64 →
  gas_post env b lo ms f g' (mk_frame (pc f1)
    (mk_EVM w (depth (evm f1)) (callGasTemp (evm f1)) (readOnly (evm f1)) (returnData (evm f1)) (jumpdests (evm f1)))
    (mem f1) (stack f1) (contract f1)).
Proof.
  intros Hb (Hg & Hs & Hp & Hc & He & Hst & Hm) Hw HR Hg'. unfold gas_post. cbn.
  rewrite (Hb (evm f1)) by done. split_and!; try done; try lia.
  apply evolves_trans with (evm f1); [done|]. by apply evolves_db; [apply He|..].
Qed.

Lemma gasExtCodeCopyEIP2929_ok h : gas_ok env h 4 no_grd no_b 0 gasExtCodeCopyEIP2929.
Proof.
  intros ms f Hf Hlen Hgrd Hms. unfold gasExtCodeCopyEIP2929. apply wp_bind.
  eapply wp_mono; [by apply (memoryCopierGas_ok h 4 3)| |done]. intros g f1 Hpost.
  pose proof Hpost as ((Hg & Hlt) & Hs & Hp & Hc & He & Hst & Hm). unfold peek.
  apply (wp_Back _ _ (nth 0 (stack f) 0)); [rewrite Hs; apply nth_stack; lia|].
  apply (wp_bind_ok _ _ f1 f1 (db (evm f1))); [by destruct f1|].
  destruct (AddressInAccessList _ _); cbn [negb]; [done|].
  apply (wp_bind_ok _ _ f1 (mk_frame (pc f1) (mk_EVM (AddAddressToAccessList (Bytes20 (nth 0 (stack f) 0)) (db (evm f1)))
    (depth (evm f1)) (callGasTemp (evm f1)) (readOnly (evm f1)) (returnData (evm f1)) (jumpdests (evm f1)))
    (mem f1) (stack f1) (contract f1)) tt); [by destruct f1|].
  unfold ColdAccountAccessCostEIP2929, WarmStorageReadCostEIP2929. apply wp_checked.
  - intros Hov. apply SafeAdd_ok in Hov as [Hlt' ->]; [|unfold is_u64, no_b in *; lia..].
    apply (gas_post_db no_b 0 ms f f1 g); [done|done|apply ok_AddAddress, (ev_ok _ _ _ He)|constructor|]. lia.
  - split; cbn; [|rewrite Hc; apply (proj2 (err_post_refl env f Hf))].
    apply evolves_trans with (evm f1); [done|]. apply evolves_db; [apply He|auto with world|constructor].
Qed.

(** ** The gas of calls *)

Lemma callGas_ok eip150 avail base cc :
  is_u64 avail → 0 ≤ base < 2 ^ 57 → is_u256 cc →
  match callGas eip150 avail base cc with
  | Ok g => is_u64 g ∧ (eip150 = true → base + g ≤ avail ∨ base + g < 2 ^ 64 - 2 ^ 56)
  | Err _ => True
  | _ => False
  end.
Proof.
  unfold is_u64, is_u256. intros Ha Hb Hc. unfold callGas, IsUint64, Uint64.
  destruct eip150; [|destruct (cc <? 2 ^ 64); cbn; [split; [apply u64_range|done]|done]].
  set (x := u64 (avail - base)). pose proof (u64_range (avail - base)) as Hx. fold x in Hx. unfold is_u64 in Hx.
  assert (0 ≤ x / 64 ≤ x) as Hd by (split; [apply Z.div_pos; lia|apply Z.div_le_upper_bound; lia]).
  rewrite (u64_small (x - x / 64)) by (unfold is_u64; lia).
  assert (∀ g, 0 ≤ g ≤ x - x / 64 →
    (0 ≤ g < 2 ^ 64) ∧ (true = true → base + g ≤ avail ∨ base + g < 2 ^ 64 - 2 ^ 56)) as Hg.
  { intros g Hg. split; [lia|]. intros _. unfold x, u64 in *. destruct (Z.le_gt_cases base avail).
    - left. rewrite Z.mod_small in * by lia. lia.
    - right. replace (avail - base) with (avail - base + 2 ^ 64 + (-1) * 2 ^ 64) in * by lia.
      rewrite Z.mod_add, Z.mod_small in * by lia. assert (2 ^ 58 - 2 ^ 51 ≤ (avail - base + 2 ^ 64) / 64); [|lia].
      apply Z.div_le_lower_bound; lia. }
  destruct (Z.ltb_spec cc (2 ^ 64)) as [Hl|Hl]; cbn [negb orb]; [|apply Hg; lia].
  rewrite (u64_small cc) by (unfold is_u64; lia). destruct (Z.ltb_spec (x - x / 64) cc); apply Hg; lia.
Qed.

(** What an instruction hands to the callee: the reserved gas, and the stipend
    of a call with value. *)
Definition b_plain : EVM W → list Z → Z := λ e _, callGasTemp e.
Definition b_value : EVM W → list Z → Z := λ e s, callGasTemp e + (if nth 2 s 0 =? 0 then 0 else CallStipend).

Definition call_gas_ok (pops : Z) (b : EVM W → list Z → Z) (d : Z → F Z) : Prop :=
  ∀ ms f, frame_ok f → pops ≤ len (stack f) → ms_ok true ms →
  wp (d ms) f (λ g f', gas_post env b 0 ms f g f' ∧
    (IsEIP150 (chainRules env) = true → Gas (contract f) + 2500 < 2 ^ 64 → g + 2500 < 2 ^ 64)) (err_post env f).

Lemma call_gas_gas pops grd b d : call_gas_ok pops b d → gas_ok env true pops grd b 0 d.
Proof. intros Hd ms f Hf Hlen _ Hms. eapply wp_mono; [by apply Hd| |done]. by intros g f' [? _]. Qed.

Lemma evolves_temp e t : evm_ok e → is_u64 t →
  evolves env e (mk_EVM (db e) (depth e) t (readOnly e) (returnData e) (jumpdests e)).
Proof. intros [] Ht. split; cbn; [by split|done|done|constructor]. Qed.

Lemma wp_reserve b ms base f f1 :
  frame_ok f → priced ms f f1 → 0 ≤ base < 2 ^ 57 → 0 < len (stack f) →
  (∀ e, b e (stack f) ≤ callGasTemp e + base) →
  wp (reserve_call env base) f1 (λ g f', gas_post env b 0 ms f g f' ∧
    (IsEIP150 (chainRules env) = true → Gas (contract f) + 2500 < 2 ^ 64 → g + 2500 < 2 ^ 64)) (err_post env f).
Proof.
  intros Hf Hpr Hbase Hlen Hb. pose proof (priced_err _ _ _ Hf Hpr) as Herr. destruct Hpr as (m' & -> & Hst & Hm).
  pose proof (callGas_ok (IsEIP150 (chainRules env)) (Gas (contract f)) base (nth 0 (stack f) 0)
    (c_gas _ (f_contract _ Hf)) Hbase (nth_ok _ 0 (proj1 (f_stack _ Hf)))) as Hcg.
  unfold reserve_call. apply (wp_bind_ok _ _ _ (with_mem m' f) (contract f)); [done|].
  apply (wp_Back _ _ (nth 0 (stack f) 0)); [apply nth_stack; cbn; lia|].
  destruct (callGas _ _ _ _) as [t|x| |]; [|..|done|done].
  - destruct Hcg as [Ht Hcap]. pose proof (evolves_temp _ t (f_evm _ Hf) Ht) as Hev.
    apply (wp_bind_ok _ _ _ (mk_frame (pc f) (mk_EVM (db (evm f)) (depth (evm f)) t (readOnly (evm f)) (returnData (evm f))
      (jumpdests (evm f))) m' (stack f) (contract f)) tt); [done|].
    apply wp_checked; [|split; [done|apply Herr]]. intros Hov. unfold is_u64 in Ht.
    apply SafeAdd_ok in Hov as [Hlt ->]; [|unfold is_u64; lia..]. split.
    + unfold gas_post. cbn. split_and!; try done. pose proof (Hb (mk_EVM (db (evm f)) (depth (evm f)) t (readOnly (evm f))
        (returnData (evm f)) (jumpdests (evm f)))) as Hb'. cbn in Hb'. lia.
    + intros H150 Hgas. destruct (Hcap H150); lia.
  - split; [|apply Herr]. by apply evolves_temp; [apply Hf|].
Qed.

Lemma gasCall_ok : call_gas_ok 7 b_value (gasCall env).
Proof.
  intros ms f Hf Hlen Hms. unfold gasCall.
  apply (wp_Back _ _ (nth 2 (stack f) 0)); [apply nth_stack; lia|].
  apply (wp_Back _ _ (nth 1 (stack f) 0)); [apply nth_stack; lia|].
  apply (wp_bind_ok _ _ f f (db (evm f))); [by destruct f|]. cbn zeta.
  set (base := if negb _ then u64 _ else _).
  assert (0 ≤ base ≤ 34000 ∧ (nth 2 (stack f) 0 ≠ 0 → 9000 ≤ base)) as [Hbase Hval].
  { unfold base, CallNewAccountGas, CallValueTransferGas. destruct (Z.eqb_spec (nth 2 (stack f) 0) 0); cbn [negb].
    all: repeat case_match; rewrite ?u64_small by done; lia. }
  clearbody base. apply wp_bind. eapply wp_mono; [by apply (wp_memory_gas true)| |done].
  intros fee f1 [Hpr Hfee]. apply wp_bind, wp_checked; [|by apply (priced_err ms)]. intros Hov.
  apply SafeAdd_ok in Hov as [Hlt ->]; [|unfold is_u64; lia..].
  apply wp_reserve; [done|done|lia|lia|]. intros e. unfold b_value, CallStipend.
  destruct (Z.eqb_spec (nth 2 (stack f) 0) 0); lia.
Qed.
Lemma gasCallCode_ok : call_gas_ok 7 b_value (gasCallCode env).
Proof.
  intros ms f Hf Hlen Hms. unfold gasCallCode. apply wp_bind. eapply wp_mono; [by apply (wp_memory_gas true)| |done].
  intros fee f1 [Hpr Hfee]. destruct (priced_stack _ _ _ Hpr) as (Hs & _ & _).
  apply (wp_Back _ _ (nth 2 (stack f) 0)); [rewrite Hs; apply nth_stack; lia|].
  set (base := if negb _ then _ else _).
  assert (0 ≤ base ≤ 9000 ∧ (nth 2 (stack f) 0 ≠ 0 → 9000 ≤ base)) as [Hbase Hval].
  { unfold base, CallValueTransferGas. destruct (Z.eqb_spec (nth 2 (stack f) 0) 0); cbn [negb]; lia. }
  clearbody base. apply wp_bind, wp_checked; [|by apply (priced_err ms)]. intros Hov.
  apply SafeAdd_ok in Hov as [Hlt ->]; [|unfold is_u64; lia..].
  apply wp_reserve; [done|done|lia|lia|]. intros e. unfold b_value, CallStipend.
  destruct (Z.eqb_spec (nth 2 (stack f) 0) 0); lia.
Qed.
Lemma gasDelegateCall_ok : call_gas_ok 6 b_plain (gasDelegateCall env).
Proof.
  intros ms f Hf Hlen Hms. unfold gasDelegateCall. apply wp_bind. eapply wp_mono; [by apply (wp_memory_gas true)| |done].
  intros fee f1 [Hpr Hfee]. apply wp_reserve; [done|done|lia|lia|]. intros e. unfold b_plain. lia.
Qed.
Lemma gasStaticCall_ok : call_gas_ok 6 b_plain (gasStaticCall env).
Proof. apply gasDelegateCall_ok. Qed.

(** The surcharge of a cold address: it is taken from the contract while the
    gas of the call is computed, and given back to be charged with the rest. *)
Lemma call_variant_ok pops grd b d :
  IsEIP150 (chainRules env) = true → 1 < pops → (∀ e s, evm_ok e → 0 ≤ b e s) → call_gas_ok pops b d →
  gas_ok env true pops grd b 0 (makeCallVariantGasCallEIP2929 d).
Proof.
  intros H150 Hpops Hb Hd ms f Hf Hlen _ Hms. unfold makeCallVariantGasCallEIP2929.
  apply (wp_Back _ _ (nth 1 (stack f) 0)); [apply nth_stack; lia|].
  apply (wp_bind_ok _ _ f f (db (evm f))); [by destruct f|].
  destruct (AddressInAccessList _ _); cbn [negb]; [by apply (call_gas_gas pops no_grd b d Hd)|].
  set (e1 := mk_EVM (AddAddressToAccessList (Bytes20 (nth 1 (stack f) 0)) (db (evm f))) (depth (evm f)) (callGasTemp (evm f))
    (readOnly (evm f)) (returnData (evm f)) (jumpdests (evm f))).
  assert (evolves env (evm f) e1) as Hev1 by (apply evolves_db; [apply Hf|auto with world|constructor]).
  apply (wp_bind_ok _ _ f (mk_frame (pc f) e1 (mem f) (stack f) (contract f)) tt); [by destruct f|].
  unfold ColdAccountAccessCostEIP2929, WarmStorageReadCostEIP2929. change (2600 - 100) with 2500.
  pose proof (c_gas _ (f_contract _ Hf)) as Hg. pose proof (err_post_refl env f Hf) as [_ Herr]. unfold is_u64 in Hg.
  apply wp_bind. unfold wp at 1. frame_eval. destruct f as [p e m s c]. cbn [contract evm] in *.
  destruct (Z.ltb_spec (Gas c) 2500) as [Hlow|Hhigh]; cbn [negb]; [by split|].
  apply wp_bind. set (f2 := mk_frame p e1 m s (set_Gas (Gas c - 2500) c)).
  assert (frame_ok f2) as Hf2.
  { destruct Hf. split; [apply Hev1|done|done| |done]. apply contract_ok_gas; [done|unfold is_u64; lia]. }
  eapply wp_mono; [by apply (Hd ms f2 Hf2)| |].
  - intros g f3 [(Hgb & Hs & Hp & Hc & He & Hst & Hm) Hcap]. specialize (Hcap H150). cbn in Hcap.
    destruct f3 as [p3 e3 m3 s3 c3]. unfold f2 in *. cbn [contract evm stack pc mem] in *. subst p3 s3 c3. unfold wp. frame_eval. cbn [set_Gas Gas].
    replace (Gas c - 2500 + 2500) with (Gas c) by lia. rewrite (u64_small (Gas c)) by (unfold is_u64; lia).
    pose proof (Hb e3 s (ev_ok _ _ _ He)) as Hb0.
    assert (0 ≤ g ∧ g + 2500 < 2 ^ 64) as Hgr by (cbn in Hgb; split; [lia|apply Hcap; lia]).
    rewrite u64_small by (unfold is_u64; lia).
    unfold gas_post. cbn in Hgb |- *. split_and!; try done; try lia; [by destruct c|by apply evolves_trans with e1].
  - intros f'. apply err_post_weaken; cbn; [done|lia].
Qed.
End gas.
