(* ===== verification/EvmCallOk.v ===== *)
(** * The call and create instructions, and the tables

    The instructions that run another frame meet their specifications against
    the interface [calls_ok] of the call functions; with them every entry of
    the table of every fork is correct. *)
From stdpp Require Import gmap.
From S2P Require Import Prelude EvmAnalysis EvmBase EvmMachine EvmGas EvmTable EvmInterp EvmSafety EvmOps EvmGasOk.

Section calls.
Context {W : Type} `{!Uint256, !Uint256Laws, !StateDB W, !WorldLaws W} (env : Env W) (Henv : env_ok env).
Abbreviation F := (st (frame W) evm_err).
Implicit Types (f : frame W) (e : EVM W).

(** ** Calls *)

Lemma finish_call_eq p e m s c ro rs ret rg err :
  memory_ok m → in_mem m ro rs → is_u256 rs → bytes_ok ret → 0 ≤ rg → is_u64 (Gas c) → Gas c + rg < 2 ^ 64 →
  ∃ m' x, finish_call (W:=W) ro rs (ret, rg, err) (mk_frame p e m s c) =
      (mk_frame p e m' (x :: s) (set_Gas (Gas c + rg) c), Ok ret) ∧ memory_ok m' ∧ is_u256 x.
Proof.
  intros Hm Hin Hrs Hret Hrg Hg Hsum. unfold finish_call, memory_Set.
  destruct (mem_Set_ok (E:=evm_err) m ro rs ret Hm Hret (proj1 Hrs) Hin) as (m' & Heq & Hm').
  assert (∀ m0, (add_gas rg ≫= λ _, mret ret) (mk_frame p e m0 ((if is_err err then 0 else 1) :: s) c) =
    (mk_frame p e m0 ((if is_err err then 0 else 1) :: s) (set_Gas (Gas c + rg) c), (Ok ret : res evm_err bytes))) as Hadd.
  { intros m0. frame_eval. rewrite u64_small by (unfold is_u64 in *; lia). done. }
  assert (is_u256 (if is_err err then 0 else 1)) by by destruct (is_err err).
  destruct (negb (is_err err) || is_reverted err).
  - exists m', (if is_err err then 0 else 1). split; [|done]. rewrite <-Hadd. frame_eval. by rewrite Heq.
  - exists m, (if is_err err then 0 else 1). split; [|done]. rewrite <-Hadd. done.
Qed.

(** After the callee returned. *)
Lemma call_exec_post pops b p e m s0 s c e' m' x g' ret :
  frame_ok (mk_frame p e m s0 c) → evolves env e e' → memory_ok m' → is_u256 x → Forall is_u256 s →
  len s = len s0 - pops → 0 ≤ g' ≤ b → Gas c + b < 2 ^ 64 → p < len (Code c) → bytes_ok ret → len ret < 2 ^ 62 →
  exec_post env pops 1 b false (mk_frame p e m s0 c) ret (mk_frame p e' m' (x :: s) (set_Gas (Gas c + g') c)).
Proof.
  intros Hf He Hm Hx Hs Hl Hg Hb Hp Hr1 Hr2. pose proof (c_gas _ (f_contract _ Hf)) as Hg0. unfold is_u64 in Hg0. cbn in Hg0.
  split; cbn; [done|done|split; [by apply Forall_cons_2|rewrite len_cons; lia]| | |done].
  - split_and!; [|done|lia]. apply contract_ok_gas; [apply Hf|unfold is_u64; lia].
  - pose proof (f_pc _ Hf) as Hp0. cbn in Hp0. lia.
Qed.

(** The interface of the four call functions, with the gas they are given. *)
Lemma wp_call pops b p e m s0 s c n (call : bytes → st (EVM W) Empty_set callres) io is_ ro rs gas :
  frame_ok (mk_frame p e m s0 c) → Forall is_u256 s → len s = len s0 - pops →
  in_mem m io is_ → in_mem m ro rs → is_u256 is_ → is_u256 rs →
  (∀ args, args_ok n e c args gas → call_post env e gas (call args e)) →
  is_u64 gas → gas ≤ b → p < len (Code c) → Gas c + b < Z.min n (2 ^ 64) →
  wp (args ← call_args io is_; r ← lift_call (call args); finish_call ro rs r) (mk_frame p e m s c)
    (exec_post env pops 1 b false (mk_frame p e m s0 c)) (err_post env (mk_frame p e m s0 c)).
Proof.
  intros Hf Hs Hl Hio Hro His Hrs Hcall Hgas Hgb Hp Hsum.
  pose proof (c_gas _ (f_contract _ Hf)) as Hg. unfold is_u64 in Hg, Hgas. cbn in Hg.
  destruct (mem_GetPtr_ok (E:=evm_err) m io is_ (f_mem _ Hf) (proj1 His) Hio) as (d & Heq & Hd & Hld & Hlt).
  apply (wp_bind_ok _ _ _ (mk_frame p e m s c) d); [unfold call_args; frame_eval; by rewrite Heq|].
  apply wp_bind. unfold wp at 1, lift_call. cbn [evm pc mem stack contract].
  pose proof (Hcall d) as Hpost. destruct (call d e) as [e' [[[ret g'] err]|x| |]]; [|done|..].
  2-3: apply Hpost; split_and!; [apply Hf|apply Hf|done|lia|done|lia..].
  destruct Hpost as (Hev & Hg' & Hret & Hrl).
  { split_and!; [apply Hf|apply Hf|done|lia|unfold is_u64; lia|lia]. }
  destruct (finish_call_eq p e' m s c ro rs ret g' err (f_mem _ Hf) Hro Hrs Hret) as (m' & x & Hfin & Hm' & Hx); [lia|unfold is_u64; lia|lia|].
  apply (wp_ok _ _ _ _ _ _ Hfin). apply call_exec_post; try done; lia.
Qed.

Definition g_call : list Z → Z * bool := g_larger (g_range 5 6) (g_range 3 4).
Definition g_delegate : list Z → Z * bool := g_larger (g_range 4 5) (g_range 2 3).
Definition grd_value : list Z → bool := λ s, negb (nth 2 s 0 =? 0).

Lemma stipend_ok e v s : is_u64 (callGasTemp e) → b_value (W:=W) e s < 2 ^ 64 → nth 2 s 0 = v →
  stipend (callGasTemp e) v = b_value e s ∧ is_u64 (b_value e s).
Proof.
  unfold b_value, stipend, is_u64, CallStipend. intros Ht Hb Hv. rewrite Hv in *. revert Hb. destruct (Z.eqb_spec v 0); cbn [negb]; intros Hb; [lia|].
  rewrite u64_small by (unfold is_u64; lia). lia.
Qed.

(** Opens a call instruction with [n] operands. *)
Tactic Notation "call_open" integer(n) :=
  intros k calls [p e m s c] Hcalls Hf Hlen Hgrd Hov Hfit Hpc; destruct (Hpc eq_refl) as [Hp Hgas];
  cbn [stack evm mem pc contract] in *;
  pose proof (proj1 (f_stack _ Hf)) as Hs; pose proof (f_mem _ Hf) as Hm; cbn [stack mem] in Hs, Hm;
  destruct (larger_in_mem _ _ _ _ Hov Hfit) as (Hov1 & Hfit1 & Hov2 & Hfit2);
  pose proof (range_in_mem m _ _ s Hs (proj1 Hm) Hov1 Hfit1) as Hin1;
  pose proof (range_in_mem m _ _ s Hs (proj1 Hm) Hov2 Hfit2) as Hin2;
  pose proof (evm_temp _ (f_evm _ Hf)) as Htemp; pose proof (c_gas _ (f_contract _ Hf)) as Hg;
  cbn [evm contract] in Htemp, Hg;
  do n (destruct s as [|? s]; [unfold len in Hlen; cbn [length Z.of_nat] in Hlen; lia|]);
  cbn [nth] in Hin1, Hin2; decompose_Forall_hyps.

Lemma opCall_ok : exec_ok env 7 1 grd_value b_value g_call false opCall.
Proof.
  call_open 7.
  destruct (stipend_ok e z1 (z :: z0 :: z1 :: z2 :: z3 :: z4 :: z5 :: s) Htemp) as [Hst Hu]; [unfold is_u64 in Hg; lia|done|].
  pose proof (wp_call 7 (b_value e (z :: z0 :: z1 :: z2 :: z3 :: z4 :: z5 :: s)) p e m _ s c k (λ args, Call calls c (Bytes20 z0) args (stipend (callGasTemp e) z1) (bigVal z1))
    z2 z3 z4 z5 (stipend (callGasTemp e) z1) Hf) as Hwp.
  apply Hwp; try done; [rewrite !len_cons; lia| |by rewrite Hst|by rewrite Hst].
  intros args Hargs. apply (Call_ok _ _ _ Hcalls); [done|apply u256_Bytes20|].
  intros Hstat. unfold grd_value in Hgrd. cbn in Hgrd. destruct (Z.eqb_spec z1 0) as [->|]; [done|].
  by rewrite Hgrd in Hstat.
Qed.
Lemma opCallCode_ok : exec_ok env 7 1 no_grd b_value g_call false opCallCode.
Proof.
  call_open 7.
  destruct (stipend_ok e z1 (z :: z0 :: z1 :: z2 :: z3 :: z4 :: z5 :: s) Htemp) as [Hst Hu]; [unfold is_u64 in Hg; lia|done|].
  pose proof (wp_call 7 (b_value e (z :: z0 :: z1 :: z2 :: z3 :: z4 :: z5 :: s)) p e m _ s c k (λ args, CallCode calls c (Bytes20 z0) args (stipend (callGasTemp e) z1) (bigVal z1))
    z2 z3 z4 z5 (stipend (callGasTemp e) z1) Hf) as Hwp.
  apply Hwp; try done; [rewrite !len_cons; lia| |by rewrite Hst|by rewrite Hst].
  intros args Hargs. apply (CallCode_ok _ _ _ Hcalls); [done|apply u256_Bytes20].
Qed.
Lemma opDelegateCall_ok : exec_ok env 6 1 no_grd b_plain g_delegate false opDelegateCall.
Proof.
  call_open 6. unfold b_plain in *.
  pose proof (wp_call 6 (callGasTemp e) p e m _ s c k (λ args, DelegateCall calls c (Bytes20 z0) args (callGasTemp e))
    z1 z2 z3 z4 (callGasTemp e) Hf) as Hwp.
  apply Hwp; try done; [rewrite !len_cons; lia|].
  intros args Hargs. apply (DelegateCall_ok _ _ _ Hcalls); [done|apply u256_Bytes20].
Qed.
Lemma opStaticCall_ok : exec_ok env 6 1 no_grd b_plain g_delegate false opStaticCall.
Proof.
  call_open 6. unfold b_plain in *.
  pose proof (wp_call 6 (callGasTemp e) p e m _ s c k (λ args, StaticCall calls c (Bytes20 z0) args (callGasTemp e))
    z1 z2 z3 z4 (callGasTemp e) Hf) as Hwp.
  apply Hwp; try done; [rewrite !len_cons; lia|].
  intros args Hargs. apply (StaticCall_ok _ _ _ Hcalls); [done|apply u256_Bytes20].
Qed.

(** ** Creation *)

(** The end of both create instructions: [gas] of the contract's gas is handed
    to the constructor. *)
Lemma wp_create pops p e m s0 s c n (create : Contract → bytes → st (EVM W) Empty_set (callres * Z)) off size gas
    (top : option evm_err → Z → Z) (data : option evm_err → bytes → bytes) :
  frame_ok (mk_frame p e m s0 c) → Forall is_u256 s → len s = len s0 - pops →
  in_mem m off size → is_u256 size → 0 ≤ gas ≤ Gas c → p < len (Code c) → Gas c < n →
  (∀ c' input, args_ok n e c' input gas → create_post env e gas (create c' input e)) →
  (∀ err a, is_u256 a → is_u256 (top err a)) →
  (∀ err r, bytes_ok r → len r < 2 ^ 62 → bytes_ok (data err r) ∧ len (data err r) < 2 ^ 62) →
  wp (input ← create_args off size; _ ← use_gas gas; c ← get_contract;
      '(res, returnGas, suberr, addr) ← lift_call (create c input);
      push (top suberr addr) ≫= λ _, add_gas returnGas ≫= λ _, mret (data suberr res)) (mk_frame p e m s c)
    (exec_post env pops 1 0 false (mk_frame p e m s0 c)) (err_post env (mk_frame p e m s0 c)).
Proof.
  intros Hf Hs Hl Hin Hsz Hgas Hp Hn Hcreate Htop Hdata.
  pose proof (c_gas _ (f_contract _ Hf)) as Hg. unfold is_u64 in Hg. cbn in Hg.
  destruct (mem_GetCopy_ok (E:=evm_err) m off size (f_mem _ Hf) (proj1 Hsz) Hin) as (d & Heq & Hd & Hld & Hlt).
  apply (wp_bind_ok _ _ _ (mk_frame p e m s c) d); [unfold create_args; frame_eval; by rewrite Heq|].
  set (c1 := set_Gas (Gas c - gas) c).
  apply (wp_bind_ok _ _ _ (mk_frame p e m s c1) true); [frame_eval; by rewrite (proj2 (Z.ltb_ge _ _)) by lia|].
  apply (wp_bind_ok _ _ _ (mk_frame p e m s c1) c1); [done|].
  assert (args_ok n e c1 d gas) as Hargs.
  { split_and!; [apply Hf| |done|lia|unfold is_u64; lia|lia]. apply contract_ok_gas; [apply Hf|unfold is_u64; lia]. }
  apply wp_bind. unfold wp at 1, lift_call. cbn [evm pc mem stack contract].
  pose proof (Hcreate c1 d Hargs) as Hpost. destruct (create c1 d e) as [e' [[[[ret g'] err] addr]|x| |]]; [|done..].
  destruct Hpost as (Hev & Hg' & Hret & Hrl & Ha). destruct (Hdata err ret Hret Hrl) as [Hd1 Hd2].
  unfold wp. frame_eval. cbn [Gas set_Gas c1]. rewrite u64_small by (unfold is_u64; lia).
  split; cbn; [done|apply Hf|split; [apply Forall_cons_2; [by apply Htop|done]|rewrite len_cons; lia]| | |done].
  - split_and!; [|done|lia]. apply contract_ok_gas; [apply contract_ok_gas; [apply Hf|]|]; unfold is_u64; lia.
  - pose proof (f_pc _ Hf) as Hp0. cbn in Hp0. lia.
Qed.

Lemma opCreate_ok : exec_ok env 3 1 wr no_b (g_range 1 2) false (opCreate env).
Proof.
  intros k calls [p e m s c] Hcalls Hf Hlen Hgrd Hov Hfit Hpc. destruct (Hpc eq_refl) as [Hp Hgas]. unfold no_b in Hgas.
  pose proof (proj1 (f_stack _ Hf)) as Hs. pose proof (f_mem _ Hf) as Hm.
  pose proof (range_in_mem m _ _ s Hs (proj1 Hm) Hov Hfit) as Hin.
  pose proof (c_gas _ (f_contract _ Hf)) as Hg. unfold is_u64 in Hg. cbn in Hs, Hm, Hlen, Hg, Hp, Hgas, Hgrd.
  destruct s as [|z [|z0 [|z1 s]]]; [unfold len in Hlen; cbn in Hlen; lia..|]. cbn [nth] in Hin. decompose_Forall_hyps.
  set (gas := if IsEIP150 (chainRules env) then u64 (Gas c - Gas c / 64) else Gas c).
  assert (0 ≤ gas ≤ Gas c) as Hgas'.
  { pose proof (Z.div_pos (Gas c) 64). pose proof (Z.div_le_upper_bound (Gas c) 64 (Gas c)). unfold gas.
    destruct (IsEIP150 _); [rewrite u64_small by (unfold is_u64; lia)|]; lia. }
  pose proof (wp_create 3 p e m (z :: z0 :: z1 :: s) s c k (λ c' input, Create calls c' input gas (bigVal z)) z0 z1 gas
    (λ suberr addr, if IsHomestead (chainRules env) && bool_decide (suberr = Some ErrCodeStoreOutOfGas) then 0
        else if is_err suberr && negb (bool_decide (suberr = Some ErrCodeStoreOutOfGas)) then 0 else addr)
    (λ suberr res, if is_reverted suberr then res else []) Hf) as Hwp.
  apply Hwp; try done; [rewrite !len_cons; lia|lia| | |].
  - intros c' input Hargs. apply (Create_ok _ _ _ Hcalls); [done|by apply Hgrd].
  - intros err a Ha. auto with go.
  - intros err r Hr Hl. destruct (is_reverted err); [done|apply ret_nil].
Qed.
Lemma opCreate2_ok : exec_ok env 4 1 wr no_b (g_range 1 2) false opCreate2.
Proof.
  intros k calls [p e m s c] Hcalls Hf Hlen Hgrd Hov Hfit Hpc. destruct (Hpc eq_refl) as [Hp Hgas]. unfold no_b in Hgas.
  pose proof (proj1 (f_stack _ Hf)) as Hs. pose proof (f_mem _ Hf) as Hm.
  pose proof (range_in_mem m _ _ s Hs (proj1 Hm) Hov Hfit) as Hin.
  pose proof (c_gas _ (f_contract _ Hf)) as Hg. unfold is_u64 in Hg. cbn in Hs, Hm, Hlen, Hg, Hp, Hgas, Hgrd.
  destruct s as [|z [|z0 [|z1 [|z2 s]]]]; [unfold len in Hlen; cbn in Hlen; lia..|]. cbn [nth] in Hin. decompose_Forall_hyps.
  set (gas := u64 (Gas c - Gas c / 64)).
  assert (0 ≤ gas ≤ Gas c) as Hgas'.
  { pose proof (Z.div_pos (Gas c) 64). pose proof (Z.div_le_upper_bound (Gas c) 64 (Gas c)). unfold gas.
    rewrite u64_small by (unfold is_u64; lia). lia. }
  pose proof (wp_create 4 p e m (z :: z0 :: z1 :: z2 :: s) s c k (λ c' input, Create2 calls c' input gas (bigVal z) z2) z0 z1 gas
    (λ suberr addr, if is_err suberr then 0 else addr) (λ suberr res, if is_reverted suberr then res else []) Hf) as Hwp.
  apply Hwp; try done; [rewrite !len_cons; lia|lia| | |].
  - intros c' input Hargs. apply (Create2_ok _ _ _ Hcalls); [done|by apply Hgrd].
  - intros err a Ha. auto with go.
  - intros err r Hr Hl. destruct (is_reverted err); [done|apply ret_nil].
Qed.

(** ** Entries of the tables *)

Lemma b_plain_nonneg e (s : list Z) : evm_ok e → 0 ≤ b_plain e s.
Proof. intros He. apply (evm_temp _ He). Qed.
Lemma b_value_nonneg e (s : list Z) : evm_ok e → 0 ≤ b_value e s.
Proof. intros He. pose proof (evm_temp _ He). unfold b_value, CallStipend, is_u64 in *. destruct (_ =? 0); lia. Qed.

Lemma call_entry g d : gas_ok env true 7 grd_value b_value 0 d → 0 < g →
  entry_ok env (Op.CALL, mk_operation opCall g (Some d) (minStack 7 1) (maxStack 7 1) (Some memoryCall) returning).
Proof.
  intros Hd Hg. apply (entry_intro env _ _ 1 grd_value b_value g_call 0); cbn; try done; try lia.
  - intros s Hs. right. split; [done|]. unfold grd_value in Hs. by apply negb_true_iff, Z.eqb_neq in Hs.
  - apply reads_mem_fn, larger_reads; apply range_reads; done.
  - apply opCall_ok.
  - apply b_value_nonneg.
Qed.
Lemma callcode_entry g d : gas_ok env true 7 no_grd b_value 0 d → 0 < g →
  entry_ok env (Op.CALLCODE, mk_operation opCallCode g (Some d) (minStack 7 1) (maxStack 7 1) (Some memoryCall) returning).
Proof.
  intros Hd Hg. apply (entry_intro env _ _ 1 no_grd b_value g_call 0); cbn; try done; try lia.
  - apply reads_mem_fn, larger_reads; apply range_reads; done.
  - apply opCallCode_ok.
  - apply b_value_nonneg.
Qed.
Lemma delegate_entry g d : gas_ok env true 6 no_grd b_plain 0 d → 0 < g →
  entry_ok env (Op.DELEGATECALL, mk_operation opDelegateCall g (Some d) (minStack 6 1) (maxStack 6 1) (Some memoryDelegateCall) returning).
Proof.
  intros Hd Hg. apply (entry_intro env _ _ 1 no_grd b_plain g_delegate 0); cbn; try done; try lia.
  - apply reads_mem_fn, larger_reads; apply range_reads; done.
  - apply opDelegateCall_ok.
  - apply b_plain_nonneg.
Qed.
Lemma static_entry g d : gas_ok env true 6 no_grd b_plain 0 d → 0 < g →
  entry_ok env (Op.STATICCALL, mk_operation opStaticCall g (Some d) (minStack 6 1) (maxStack 6 1) (Some memoryStaticCall) returning).
Proof.
  intros Hd Hg. apply (entry_intro env _ _ 1 no_grd b_plain g_delegate 0); cbn; try done; try lia.
  - apply reads_mem_fn, larger_reads; apply range_reads; done.
  - apply opStaticCall_ok.
  - apply b_plain_nonneg.
Qed.
Lemma gas_ok_grd h pops b lo d grd : gas_ok env h pops no_grd b lo d → gas_ok env h pops grd b lo d.
Proof. intros Hd ms f Hf Hlen _. by apply Hd. Qed.
Lemma create_entry : entry_ok env (Op.CREATE,
  mk_operation (opCreate env) CreateGas (Some gasCreate) (minStack 3 1) (maxStack 3 1) (Some memoryCreate) writing_returning).
Proof.
  apply (entry_intro env _ _ 1 wr no_b (g_range 1 2) 0); cbn; try done; try lia.
  - apply reads_mem_fn, range_reads; done.
  - apply gas_ok_grd, pureMemoryGascost_ok.
  - apply opCreate_ok.
Qed.
Lemma create2_entry : entry_ok env (Op.CREATE2,
  mk_operation opCreate2 Create2Gas (Some gasCreate2) (minStack 4 1) (maxStack 4 1) (Some memoryCreate2) writing_returning).
Proof.
  apply (entry_intro env _ _ 1 wr no_b (g_range 1 2) 0); cbn; try done; try lia.
  - apply reads_mem_fn, range_reads; done.
  - apply gas_ok_grd, hashGas_ok. done.
  - apply opCreate2_ok.
Qed.
Lemma stop_entry : entry_ok env (Op.STOP, mk_operation (λ _, opStop) 0 None (minStack 0 0) (maxStack 0 0) None halting).
Proof. apply (entry_intro env _ _ 0 no_grd no_b no_mem 0); cbn; try done. apply mem_exec_ok, opStop_m. Qed.
Lemma jump_entry g : 0 < g → entry_ok env (Op.JUMP, mk_operation (λ _, opJump env) g None (minStack 1 0) (maxStack 1 0) None jumping).
Proof. intros Hg. apply (entry_intro env _ _ 0 no_grd no_b no_mem 0); cbn; try done; try lia. by apply opJump_ok. Qed.
Lemma jumpi_entry g : 0 < g → entry_ok env (Op.JUMPI, mk_operation (λ _, opJumpi env) g None (minStack 2 0) (maxStack 2 0) None jumping).
Proof. intros Hg. apply (entry_intro env _ _ 0 no_grd no_b no_mem 0); cbn; try done; try lia. by apply opJumpi_ok. Qed.

(** ** Every table *)

Ltac stack_lemma :=
  match goal with
  | |- stack_exec _ _ (makePush ?n ?n) => exact (makePush_s env Henv n ltac:(done))
  | |- stack_exec _ _ (makeDup ?n) => exact (makeDup_s n ltac:(lia))
  | |- stack_exec _ _ (makeSwap ?n) => exact (makeSwap_s n)
  | |- stack_exec _ _ _ => solve [eauto with ops]
  end.
Ltac mem_lemma :=
  match goal with
  | |- mem_exec ?env _ _ _ _ (makeLog ?env ?n) => exact (makeLog_m env n)
  | |- mem_exec _ _ _ _ _ opRevert => apply opReturn_m
  | |- mem_exec _ _ _ _ _ _ => solve [eauto with ops]
  | |- mem_fn _ None _ => intros ?; reflexivity
  | |- mem_fn _ (Some _) (g_fixed _ _) => apply reads_mem_fn, fixed_reads; done
  | |- mem_fn _ (Some _) (g_range _ _) => apply reads_mem_fn, range_reads; done
  end.
Ltac gas_lemma :=
  lazymatch goal with
  | |- gas_ok _ _ _ _ _ _ (gasSStore _) => apply gasSStore_ok
  | |- gas_ok _ _ _ _ _ _ gasSStoreEIP2200 => apply gasSStoreEIP2200_ok
  | |- gas_ok _ _ _ _ _ _ gasSStoreEIP2929 => apply makeGasSStoreFunc_ok
  | |- gas_ok _ _ _ _ _ _ gasSStoreEIP3529 => apply makeGasSStoreFunc_ok
  | |- gas_ok _ _ _ _ _ _ gasSLoadEIP2929 => apply gasSLoadEIP2929_ok
  | |- gas_ok _ _ _ _ _ _ gasEip2929AccountCheck => apply gasEip2929AccountCheck_ok
  | |- gas_ok _ _ _ _ _ _ (gasSelfdestruct _) => apply gasSelfdestruct_ok
  | |- gas_ok _ _ _ _ _ _ gasSelfdestructEIP2929 => apply makeSelfdestructGasFn_ok
  | |- gas_ok _ _ _ _ _ _ gasSelfdestructEIP3529 => apply makeSelfdestructGasFn_ok
  | |- gas_ok _ _ _ _ _ _ gasExpFrontier => apply gasExp_ok; done
  | |- gas_ok _ _ _ _ _ _ gasExpEIP158 => apply gasExp_ok; done
  | |- gas_ok _ _ _ _ _ _ (makeGasLog _) => apply makeGasLog_ok; done
  | |- gas_ok _ _ _ _ _ _ gasExtCodeCopyEIP2929 => apply gasExtCodeCopyEIP2929_ok
  | |- gas_ok _ _ _ _ _ _ gasSha3 => apply hashGas_ok; done
  | |- gas_ok _ _ _ _ _ _ gasCallDataCopy => apply memoryCopierGas_ok; done
  | |- gas_ok _ _ _ _ _ _ gasCodeCopy => apply memoryCopierGas_ok; done
  | |- gas_ok _ _ _ _ _ _ gasExtCodeCopy => apply memoryCopierGas_ok; done
  | |- gas_ok _ _ _ _ _ _ gasReturnDataCopy => apply memoryCopierGas_ok; done
  | |- gas_ok _ _ _ _ _ _ _ => apply pureMemoryGascost_ok
  end.
Ltac call_gas :=
  lazymatch goal with
  | |- gas_ok _ _ _ _ _ _ (gasCall _) => apply call_gas_gas, gasCall_ok
  | |- gas_ok _ _ _ _ _ _ (gasCallCode _) => apply call_gas_gas, gasCallCode_ok
  | |- gas_ok _ _ _ _ _ _ (gasDelegateCall _) => apply call_gas_gas, gasDelegateCall_ok
  | |- gas_ok _ _ _ _ _ _ (gasStaticCall _) => apply call_gas_gas, gasStaticCall_ok
  | |- gas_ok _ _ _ _ _ _ (gasCallEIP2929 _) => apply call_variant_ok; [assumption|done|apply b_value_nonneg|apply gasCall_ok]
  | |- gas_ok _ _ _ _ _ _ (gasCallCodeEIP2929 _) => apply call_variant_ok; [assumption|done|apply b_value_nonneg|apply gasCallCode_ok]
  | |- gas_ok _ _ _ _ _ _ (gasDelegateCallEIP2929 _) => apply call_variant_ok; [assumption|done|apply b_plain_nonneg|apply gasDelegateCall_ok]
  | |- gas_ok _ _ _ _ _ _ (gasStaticCallEIP2929 _) => apply call_variant_ok; [assumption|done|apply b_plain_nonneg|apply gasStaticCall_ok]
  end.
Ltac entry :=
  lazymatch goal with
  | |- entry_ok _ (Op.STOP, _) => apply stop_entry
  | |- entry_ok _ (Op.JUMP, _) => apply (jump_entry _); done
  | |- entry_ok _ (Op.JUMPI, _) => apply (jumpi_entry _); done
  | |- entry_ok _ (Op.CREATE, _) => apply create_entry
  | |- entry_ok _ (Op.CALL, _) => apply call_entry; [call_gas|done]
  | |- entry_ok _ (Op.CALLCODE, _) => apply callcode_entry; [call_gas|done]
  | |- entry_ok _ (Op.DELEGATECALL, _) => apply delegate_entry; [call_gas|done]
  | |- entry_ok _ (Op.STATICCALL, _) => apply static_entry; [call_gas|done]
  | |- entry_ok _ (Op.CREATE2, _) => apply create2_entry
  | |- entry_ok _ (_, mk_operation _ _ None _ _ None plain) => apply plain_entry; [stack_lemma|done|done]
  | |- entry_ok _ (_, mk_operation _ _ (Some _) _ _ None plain) =>
      eapply plain_dyn_entry; [stack_lemma|gas_lemma|done|done|done|done]
  | |- entry_ok _ (_, mk_operation _ _ (Some _) _ _ _ _) =>
      eapply mem_entry; [mem_lemma|mem_lemma|gas_lemma|done|done|done|done|done]
  end.
Ltac entries := repeat apply Forall_cons_2; [entry..|apply Forall_nil_2].

Lemma frontier_arith_ok : Forall (entry_ok env) (frontier_arith).
Proof. unfold frontier_arith. entries. Qed.
Lemma frontier_compare_ok : Forall (entry_ok env) (frontier_compare env).
Proof. unfold frontier_compare. entries. Qed.
Lemma frontier_env_ok : Forall (entry_ok env) (frontier_env env).
Proof. unfold frontier_env. entries. Qed.
Lemma frontier_flow_ok : Forall (entry_ok env) (frontier_flow env).
Proof. unfold frontier_flow. entries. Qed.
Lemma frontier_push_lo_ok : Forall (entry_ok env) (frontier_push_lo).
Proof. unfold frontier_push_lo. entries. Qed.
Lemma frontier_push_hi_ok : Forall (entry_ok env) (frontier_push_hi).
Proof. unfold frontier_push_hi. entries. Qed.
Lemma frontier_dup_ok : Forall (entry_ok env) (frontier_dup).
Proof. unfold frontier_dup. entries. Qed.
Lemma frontier_swap_ok : Forall (entry_ok env) (frontier_swap).
Proof. unfold frontier_swap. entries. Qed.
Lemma frontier_system_ok : Forall (entry_ok env) (frontier_system env).
Proof. unfold frontier_system. entries. Qed.

(** The entries that count are correct. *)
Definition table_ok (jt : JumpTable (W:=W)) : Prop := ∀ op o, jt_get op jt = Some o → entry_ok env (op, o).

Lemma Forall_table_ok jt : Forall (entry_ok env) jt → table_ok jt.
Proof.
  induction 1 as [|[op' o'] jt Ho _ IH]; [done|]. intros op o. cbn [jt_get].
  destruct (Z.eqb_spec op op') as [->|]; [by intros [= <-]|apply IH].
Qed.
Lemma table_ok_cons op o jt : entry_ok env (op, o) → table_ok jt → table_ok ((op, o) :: jt).
Proof.
  intros Ho Hjt op' o'. cbn [jt_get]. destruct (Z.eqb_spec op' op) as [->|]; [by intros [= <-]|apply Hjt].
Qed.

(** The entry of [op] with another price. *)
Definition with_price (g : Z) (d : option (Z → F Z)) (o : operation (W:=W)) : operation (W:=W) :=
  mk_operation (execute o) g d (op_minStack o) (op_maxStack o) (memorySize o) (flags o).

Lemma table_ok_const op g jt o : jt_get op jt = Some o → entry_ok env (op, with_price g (dynamicGas o) o) →
  table_ok jt → table_ok (set_constantGas op g jt).
Proof. intros Ho He Hjt. unfold set_constantGas. rewrite Ho. by apply table_ok_cons. Qed.
Lemma table_ok_dyn op d jt o : jt_get op jt = Some o → entry_ok env (op, with_price (constantGas o) (Some d) o) →
  table_ok jt → table_ok (set_dynamicGas op d jt).
Proof. intros Ho He Hjt. unfold set_dynamicGas. rewrite Ho. by apply table_ok_cons. Qed.
Lemma jt_get_const op op' g (jt : JumpTable (W:=W)) : op ≠ op' → jt_get op (set_constantGas op' g jt) = jt_get op jt.
Proof.
  intros Hne. unfold set_constantGas. destruct (jt_get op' jt); [|done]. cbn [jt_get].
  by rewrite (proj2 (Z.eqb_neq op op')).
Qed.
Lemma jt_get_dyn op op' d (jt : JumpTable (W:=W)) : op ≠ op' → jt_get op (set_dynamicGas op' d jt) = jt_get op jt.
Proof.
  intros Hne. unfold set_dynamicGas. destruct (jt_get op' jt); [|done]. cbn [jt_get].
  by rewrite (proj2 (Z.eqb_neq op op')).
Qed.
Lemma jt_get_reprice op op' g d (jt : JumpTable (W:=W)) : op ≠ op' → jt_get op (reprice op' g d jt) = jt_get op jt.
Proof. intros Hne. unfold reprice. by rewrite jt_get_dyn, jt_get_const. Qed.
Lemma jt_get_dyn_same op d (jt : JumpTable (W:=W)) o : jt_get op jt = Some o →
  jt_get op (set_dynamicGas op d jt) = Some (with_price (constantGas o) (Some d) o).
Proof. intros Ho. unfold set_dynamicGas. rewrite Ho. cbn [jt_get]. by rewrite Z.eqb_refl. Qed.
Lemma jt_get_reprice_same op g d (jt : JumpTable (W:=W)) o : jt_get op jt = Some o →
  jt_get op (reprice op g d jt) = Some (with_price g (Some d) o).
Proof.
  intros Ho. unfold reprice. rewrite (jt_get_dyn_same op d _ (with_price g (dynamicGas o) o)); [done|].
  unfold set_constantGas. rewrite Ho. cbn [jt_get]. by rewrite Z.eqb_refl.
Qed.
Lemma table_ok_reprice op g d jt o : jt_get op jt = Some o → entry_ok env (op, with_price g (Some d) o) →
  table_ok jt → table_ok (reprice op g d jt).
Proof.
  intros Ho He Hjt. unfold reprice, set_dynamicGas, set_constantGas. rewrite Ho. cbn [jt_get]. rewrite Z.eqb_refl.
  intros op' o'. cbn [jt_get]. destruct (Z.eqb_spec op' op) as [->|]; [by intros [= <-]|apply Hjt].
Qed.

Lemma newFrontier_ok : table_ok (newFrontierInstructionSet env).
Proof.
  apply Forall_table_ok. unfold newFrontierInstructionSet. rewrite !Forall_app.
  split_and!; auto using frontier_arith_ok, frontier_compare_ok, frontier_env_ok, frontier_flow_ok, frontier_push_lo_ok,
    frontier_push_hi_ok, frontier_dup_ok, frontier_swap_ok, frontier_system_ok.
Qed.
Lemma newHomestead_ok : table_ok (newHomesteadInstructionSet env).
Proof. apply table_ok_cons; [entry|apply newFrontier_ok]. Qed.

(** The current entry of an opcode, below changes to other opcodes. *)
Ltac current_entry :=
  rewrite ?jt_get_reprice, ?jt_get_const, ?jt_get_dyn, ?jt_get_reprice by done; reflexivity.
Ltac repriced :=
  unfold with_price; cbn [execute constantGas op_minStack op_maxStack memorySize flags dynamicGas]; entry.

Lemma newTangerineWhistle_ok : table_ok (newTangerineWhistleInstructionSet env).
Proof. repeat (eapply table_ok_const; [current_entry|repriced|]). apply newHomestead_ok. Qed.
Lemma newSpuriousDragon_ok : table_ok (newSpuriousDragonInstructionSet env).
Proof. eapply table_ok_dyn; [current_entry|repriced|]. apply newTangerineWhistle_ok. Qed.
Lemma newByzantium_ok : table_ok (newByzantiumInstructionSet env).
Proof. do 4 (apply table_ok_cons; [entry|]). apply newSpuriousDragon_ok. Qed.
Lemma newConstantinople_ok : table_ok (newConstantinopleInstructionSet env).
Proof. do 5 (apply table_ok_cons; [entry|]). apply newByzantium_ok. Qed.
Lemma newIstanbul_ok : table_ok (newIstanbulInstructionSet env).
Proof.
  unfold newIstanbulInstructionSet, enable2200, enable1884, enable1344.
  eapply table_ok_dyn; [current_entry|repriced|]. eapply table_ok_const; [current_entry|repriced|].
  apply table_ok_cons; [entry|]. repeat (eapply table_ok_const; [current_entry|repriced|]).
  apply table_ok_cons; [entry|]. apply newConstantinople_ok.
Qed.
Lemma newBerlin_ok : IsEIP150 (chainRules env) = true → table_ok (newBerlinInstructionSet env).
Proof.
  intros H150. unfold newBerlinInstructionSet, enable2929. cbn zeta.
  repeat (eapply table_ok_reprice; [current_entry|repriced|]).
  eapply table_ok_dyn; [current_entry|repriced|]. apply newIstanbul_ok.
Qed.
Lemma newLondon_ok : IsEIP150 (chainRules env) = true → is_Some (BaseFee env) → table_ok (newLondonInstructionSet env).
Proof.
  intros H150 Hfee. unfold newLondonInstructionSet, enable3529, enable3198. apply table_ok_cons; [entry|].
  eapply table_ok_dyn; [rewrite jt_get_dyn by done; eapply jt_get_reprice_same; current_entry|repriced|].
  assert (∃ o, jt_get Op.SSTORE (newBerlinInstructionSet env) = Some o ∧
    entry_ok env (Op.SSTORE, with_price (constantGas o) (Some gasSStoreEIP3529) o)) as (o & Ho & He).
  { eexists. split.
    - unfold newBerlinInstructionSet, enable2929. cbn zeta. rewrite !jt_get_reprice by done.
      apply jt_get_dyn_same. reflexivity.
    - repriced. }
  eapply table_ok_dyn; [exact Ho|exact He|by apply newBerlin_ok].
Qed.

Lemma instructionSet_ok : table_ok (instructionSet env).
Proof.
  pose proof (rules_ok _ Henv) as H150. unfold instructionSet. cbn zeta.
  repeat match goal with |- table_ok (if ?b then _ else _) => destruct b eqn:? end.
  - apply newLondon_ok; [apply H150; by rewrite orb_true_r|by apply (BaseFee_ok _ Henv)].
  - by apply newBerlin_ok, H150.
  - apply newIstanbul_ok.
  - apply newConstantinople_ok.
  - apply newByzantium_ok.
  - apply newSpuriousDragon_ok.
  - apply newTangerineWhistle_ok.
  - apply newHomestead_ok.
  - apply newFrontier_ok.
Qed.
End calls.
