(* ===== verification/EvmTotal.v ===== *)
(** * Totality of the EVM (src/geth/core/vm/interpreter.go, evm.go)

    The loop and the call functions, closed over each other: on a well-formed
    machine every message returns, with no more gas than it was given, and a
    read-only frame changes the database only as [RO] allows.  Fuel above the
    gas of the frame is enough, since every step that goes on and every nested
    frame has less gas. *)
From stdpp Require Import gmap.
From S2P Require Import Prelude EvmAnalysis EvmBase EvmMachine EvmGas EvmTable EvmInterp EvmSafety EvmOps EvmGasOk EvmCallOk.

Section total.
Context {W : Type} `{!Uint256, !Uint256Laws, !StateDB W, !WorldLaws W} (env : Env W) (Henv : env_ok env).
Abbreviation F := (st (frame W) evm_err).
Abbreviation G := (st (EVM W) Empty_set).
Abbreviation Loop := (frame W → frame W * res evm_err (bytes * option evm_err)).
Implicit Types (f : frame W) (e : EVM W).

(** ** One round *)

Lemma jt_get_cons_ne op op' o (jt : JumpTable (W:=W)) : op ≠ op' → jt_get op ((op', o) :: jt) = jt_get op jt.
Proof. intros Hne. cbn [jt_get]. by rewrite (proj2 (Z.eqb_neq op op')). Qed.

(** Opcode 0 ends the frame in every table. *)
Lemma stop_stops o : jt_get 0 (instructionSet env) = Some o → stops o = true.
Proof.
  assert (jt_get 0 (instructionSet env) = jt_get 0 (newFrontierInstructionSet env)) as ->; [|by intros [= <-]].
  unfold instructionSet. cbn zeta.
  repeat match goal with |- jt_get _ (if ?b then _ else _) = _ => destruct b end.
  all: unfold newLondonInstructionSet, enable3198, enable3529, newBerlinInstructionSet, enable2929,
    newIstanbulInstructionSet, enable2200, enable1884, enable1344, newConstantinopleInstructionSet,
    newByzantiumInstructionSet, newSpuriousDragonInstructionSet, newTangerineWhistleInstructionSet,
    newHomesteadInstructionSet; cbn zeta;
    repeat first [rewrite jt_get_cons_ne by done | rewrite jt_get_dyn by done
                 | rewrite jt_get_reprice by done | rewrite jt_get_const by done]; reflexivity.
Qed.

Lemma step_ok n calls f :
  calls_ok env n calls → frame_ok f → Gas (contract f) < n + 1 → 0 ≤ n →
  wp (step env calls) f (step_post env f) (err_post env f).
Proof.
  intros Hcalls Hf Hgas Hn. pose proof (err_post_refl env f Hf) as Herr. unfold step.
  apply (wp_bind_ok _ _ f f f); [done|]. set (op := GetOp (contract f) (pc f)).
  destruct (jt_get op (instructionSet env)) as [o|] eqn:Ho; [|done].
  destruct (Z.ltb_spec (len (stack f)) (op_minStack o)); [done|].
  destruct (Z.ltb_spec (op_maxStack o) (len (stack f))); [done|].
  apply (instructionSet_ok env Henv op o Ho n); try done.
  cbn [snd]. intros Hst. apply Z.nle_gt. intros Hle. assert (op = 0) as Hop.
  { unfold op, GetOp, GetByte. by rewrite (proj2 (Z.ltb_ge _ _)). }
  rewrite Hop in Ho. apply stop_stops in Ho. congruence.
Qed.

(** ** Running a contract *)

Definition loop_post f (r : frame W * res evm_err (bytes * option evm_err)) : Prop :=
  match r with
  | (f', Ok (ret, _)) => evolves env (evm f) (evm f') ∧ 0 ≤ Gas (contract f') ≤ Gas (contract f) ∧ bytes_ok ret ∧ len ret < 2 ^ 62
  | (f', Err _) => err_post env f f'
  | (_, Panic p) => evm_panic p
  | (_, OutOfFuel) => False
  end.
Definition loop_ok (n : Z) (loop : Loop) : Prop :=
  ∀ f, frame_ok f → Gas (contract f) < n → loop_post f (loop f).

(** Weakest preconditions of computations on the machine. *)
Definition gwp {A} (m : G A) e (Q : A → EVM W → Prop) : Prop :=
  match m e with
  | (e', Ok a) => Q a e'
  | (_, Err _) => True
  | (_, Panic p) => evm_panic p
  | (_, OutOfFuel) => False
  end.
Lemma gwp_bind {A B} (m : G A) (k : A → G B) e Q : gwp m e (λ a e', gwp (k a) e' Q) → gwp (m ≫= k) e Q.
Proof. unfold gwp, mbind, st_bind. destruct (m e) as [e' []]; done. Qed.
Lemma gwp_bind_ok {A B} (m : G A) (k : A → G B) e e' a Q : m e = (e', Ok a) → gwp (k a) e' Q → gwp (m ≫= k) e Q.
Proof. intros Hm Hk. apply gwp_bind. unfold gwp. by rewrite Hm. Qed.
Lemma gwp_mono {A} (m : G A) e (Q Q' : A → EVM W → Prop) : gwp m e Q → (∀ a e', Q a e' → Q' a e') → gwp m e Q'.
Proof. unfold gwp. destruct (m e) as [e' []]; auto. Qed.

Definition res_ok gas (r : callres) : Prop :=
  let '(ret, g, _) := r in 0 ≤ g ≤ gas ∧ bytes_ok ret ∧ len ret < 2 ^ 62.
Lemma gwp_call_post (m : G callres) e gas : gwp m e (λ r e', evolves env e e' ∧ res_ok gas r) → call_post env e gas (m e).
Proof. unfold gwp, call_post, res_ok. destruct (m e) as [e' [[[ret g] err]|[]| |]]; naive_solver. Qed.

Lemma memory_ok_new : memory_ok NewMemory.
Proof. split; [by exists 0|constructor]. Qed.

Lemma Run_ok n (loop : Loop) c input ro e :
  loop_ok n loop → evm_ok e → contract_ok c → Gas c < n → bytes_ok input → len input < 2 ^ 62 →
  gwp (Run loop c input ro) e (λ r e',
    evolves env e e' ∧ res_ok (Gas c) (fst (fst r), Gas (snd (fst r)), snd r)).
Proof.
  intros Hloop He Hc Hg Hi1 Hi2. pose proof (c_gas _ Hc) as Hg0. unfold is_u64 in Hg0. unfold gwp, Run.
  set (e1 := clear_returnData _).
  assert (evm_ok e1) as He1.
  { destruct He as [? ? ? ?]. unfold e1. destruct (ro && negb (readOnly e)); split; cbn; try done; try lia; apply ret_nil. }
  assert (∀ e2, evolves env e1 e2 → evolves env e
    (if ro && negb (readOnly e) then set_readOnly false (set_depth (depth e2 - 1) e2) else set_depth (depth e2 - 1) e2)) as Hleave.
  { intros e2 [[Hj Hr Hd0 Ht] Hd Hro Hst]. pose proof (evm_depth _ He). unfold e1, static in *. clear e1 He1.
    destruct (readOnly e) eqn:Hre, ro; cbn in *.
    all: split; [split; cbn; try done; lia|cbn; lia|cbn; congruence|]; unfold static; cbn; rewrite Hre; try done.
    all: intros Hs; apply Hst; by rewrite ?Hre. }
  destruct (Code c) as [|b code] eqn:Hcode.
  { split; [apply Hleave, evolves_refl, He1|]. cbn. split; [lia|apply ret_nil]. }
  set (f0 := mk_frame 0 e1 NewMemory [] (set_Input input c)).
  assert (frame_ok f0) as Hf0.
  { split; cbn; [done|apply memory_ok_new|split; [constructor|done]| |pose proof (len_nonneg (Code c)); lia].
    destruct Hc. by split. }
  pose proof (Hloop f0 Hf0 Hg) as Hpost. destruct (loop f0) as [f' [[ret err]|x| |]]; cbn in Hpost |- *; [| |done|done].
  - destruct Hpost as (Hev & Hg' & Hret). split; [by apply Hleave|]. by split.
  - destruct Hpost as (Hev & Hg'). split; [by apply Hleave|]. split; [done|apply ret_nil].
Qed.

(** ** The parts of a call *)

Lemma evolves_world e w : evm_ok e → (world_ok (db e) → world_ok w) → (static env e = true → RO env (db e) w) →
  evolves env e (set_world w e).
Proof. apply evolves_db. Qed.

(** The machine with a snapshot taken. *)
Definition snapped e : EVM W := set_world (snd (Snapshot (db e))) e.
Lemma snapped_evolves e : evm_ok e → evolves env e (snapped e).
Proof. intros He. apply evolves_world; [done|auto with world|constructor]. Qed.
Lemma gwp_snapshot {A} (k : Z → G A) e Q :
  gwp (k (fst (Snapshot (db e)))) (snapped e) Q → gwp (snapshot_ ≫= k) e Q.
Proof.
  intros Hk. apply (gwp_bind_ok _ _ e (snapped e) (fst (Snapshot (db e)))); [|done].
  unfold snapshot_, g_db, g_set_db, snapped. unfold mbind, st_bind, mret, st_ret, st_get, st_modify.
  by destruct (Snapshot (db e)) as [id w].
Qed.

Lemma gwp_db {A} (k : W → G A) e Q : gwp (k (db e)) e Q → gwp (g_db ≫= k) e Q.
Proof. done. Qed.
Lemma gwp_set_db {A} (k : unit → G A) w e Q : gwp (k tt) (set_world w e) Q → gwp (g_set_db w ≫= k) e Q.
Proof. done. Qed.

(** After a snapshot, staying or reverting are both allowed. *)
Lemma finish_evolves e e2 : evm_ok e → evolves env (snapped e) e2 →
  evolves env e e2 ∧ evolves env e (set_world (RevertToSnapshot (fst (Snapshot (db e))) (db e2)) e2).
Proof.
  intros He He2. assert (evolves env e e2) as Hee2 by (apply evolves_trans with (snapped e); [by apply snapped_evolves|done]).
  split; [done|]. destruct Hee2 as [[] Hd Hro _]. split; cbn; [split; cbn; auto with world|done|done|]. intros Hs.
  apply RO_revert. by apply (ev_static _ _ _ He2).
Qed.
Lemma finish_ok e e2 gas r : evm_ok e → evolves env (snapped e) e2 → res_ok gas r →
  gwp (finish (fst (Snapshot (db e))) r) e2 (λ r' e', evolves env e e' ∧ res_ok gas r').
Proof.
  intros He He2. destruct r as [[ret g] [x|]]; unfold res_ok; intros (Hg & Hr1 & Hr2);
    destruct (finish_evolves e e2 He He2) as [H1 H2]; unfold finish.
  - apply gwp_db, gwp_set_db. split; [done|]. destruct (bool_decide _); split_and!; try done; lia.
  - by split.
Qed.

Lemma RunPrecompiled_ok a p input gas e : precompile env a = Some p → 0 ≤ gas → evm_ok e →
  gwp (st_lift (RunPrecompiledContract p input gas)) e (λ r e', evolves env e e' ∧ res_ok gas r).
Proof.
  intros Hp Hg He. destruct (precompile_ok _ Henv a p input Hp) as [Hr Hrun]. pose proof (evolves_refl env e He).
  unfold RunPrecompiledContract, gwp, st_lift. destruct (Z.ltb_spec gas (RequiredGas p input)).
  { split; [done|]. split; [lia|apply ret_nil]. }
  destruct (RunPre p input); [| |done|done]; (split; [done|]); (split; [lia|]); [done|apply ret_nil].
Qed.

Lemma run_contract_ok n loop c input ro e :
  loop_ok n loop → evm_ok e → contract_ok c → Gas c < n → bytes_ok input → len input < 2 ^ 62 →
  gwp (run_contract loop c input ro) e (λ r e', evolves env e e' ∧ res_ok (Gas c) r).
Proof.
  intros. unfold run_contract. apply gwp_bind. eapply gwp_mono; [by apply (Run_ok n)|].
  intros [[ret c'] err] e' [Hev Hr]. by split.
Qed.

(** The contract a call runs. *)
Lemma contract_ok_new w a caller self_ value gas :
  world_ok w → is_u256 caller → is_u256 self_ → is_u64 gas →
  contract_ok (SetCallCode (GetCodeHash w a) (GetCode w a) (NewContract caller self_ value gas)).
Proof.
  intros Hw Hc Hs Hg. split; cbn; [done|by apply ok_GetCode|apply ret_nil|done].
Qed.

Lemma run_code_ok n loop c a input gas ro e :
  loop_ok n loop → evm_ok e → (∀ w, world_ok w → contract_ok (SetCallCode (GetCodeHash w a) (GetCode w a) c)) → Gas c = gas →
  0 ≤ gas < n → bytes_ok input → len input < 2 ^ 62 →
  gwp (run_code env loop c a input gas ro) e (λ r e', evolves env e e' ∧ res_ok gas r).
Proof.
  intros Hl He Hc Hg Hgn Hi1 Hi2. unfold run_code. destruct (precompile env a) as [p|] eqn:Hp.
  - apply (RunPrecompiled_ok a); [done|lia|done].
  - apply gwp_db. rewrite <-Hg.
    apply (run_contract_ok n loop (SetCallCode (GetCodeHash (db e) a) (GetCode (db e) a) c)); try done; [apply Hc, He|cbn; lia].
Qed.

(** A call that is refused keeps its gas. *)
Lemma refused_ok e gas err : evm_ok e → 0 ≤ gas →
  evolves env e e ∧ res_ok gas (([], gas, err) : callres).
Proof. intros He Hg. split; [by apply evolves_refl|]. split; [lia|apply ret_nil]. Qed.

(** ** The call functions *)

Lemma Call__ok n loop e caller addr input gas value :
  loop_ok n loop → evm_ok e → is_u256 caller → is_u256 addr → bytes_ok input → len input < 2 ^ 62 →
  is_u64 gas → gas < n → (static env e = true → value = 0) →
  call_post env e gas (Call_ env loop caller addr input gas value e).
Proof.
  intros Hl He Hca Ha Hi1 Hi2 Hg Hgn Hst. unfold is_u64 in Hg. apply gwp_call_post. unfold Call_.
  apply (gwp_bind_ok _ _ e e e); [done|].
  destruct (NoRecursion env && _); [apply refused_ok; [done|lia]|].
  destruct (CallCreateDepth <? depth e); [apply refused_ok; [done|lia]|].
  destruct ((0 <? depth e) && _); [apply refused_ok; [done|lia]|].
  destruct (negb (value =? 0) && _); [apply refused_ok; [done|lia]|].
  apply gwp_snapshot, gwp_db. pose proof (snapped_evolves e He) as Hsn. cbn [db snapped set_world].
  set (w := snd (Snapshot (db e))).
  destruct (negb (Exist w addr) && _ && _ && _).
  { split; [done|]. split; [lia|apply ret_nil]. }
  apply gwp_bind.
  assert (gwp (if negb (Exist w addr) then g_set_db (CreateAccount addr w) else mret tt) (snapped e)
    (λ _ e', evolves env (snapped e) e')) as Hnew.
  { destruct (Exist w addr) eqn:Hex; cbn [negb]; [apply evolves_refl, Hsn|].
    apply (evolves_world (snapped e)); [apply Hsn|cbn; auto with world|]. intros _. by apply RO_new. }
  eapply gwp_mono; [exact Hnew|]. intros [] e1 He1. apply gwp_db, gwp_set_db, gwp_db. cbn [db set_world].
  set (e2 := set_world (Transfer env caller addr value (db e1)) e1).
  assert (evolves env (snapped e) e2) as He2.
  { apply evolves_trans with e1; [done|]. apply evolves_world; [apply He1|apply (Transfer_ok _ Henv)|]. intros Hs.
    rewrite Hst; [constructor|]. unfold static in *. by rewrite (ev_ro _ _ _ He1) in Hs. }
  apply gwp_bind. apply gwp_mono with (Q := λ r e3, evolves env e2 e3 ∧ res_ok gas r).
  2: { intros r e3 [He3 Hr]. apply (finish_ok e e3 gas r He); [by apply evolves_trans with e2|exact Hr]. }
  destruct (precompile env addr) as [p|] eqn:Hp.
  { apply (RunPrecompiled_ok addr); [done|lia|apply He2]. }
  destruct (GetCode (Transfer env caller addr value (db e1)) addr) as [|b code] eqn:Hcode.
  { apply refused_ok; [apply He2|lia]. }
  rewrite <-Hcode.
  apply (run_contract_ok n loop (SetCallCode (GetCodeHash (Transfer env caller addr value (db e1)) addr)
    (GetCode (Transfer env caller addr value (db e1)) addr) (NewContract caller addr value gas))); try done; [apply He2|].
  apply contract_ok_new; try done. apply (evm_world _ (ev_ok _ _ _ He2)).
Qed.

Lemma CallCode__ok n loop e c addr input gas value :
  loop_ok n loop → args_ok n e c input gas → call_post env e gas (CallCode_ env loop c addr input gas value e).
Proof.
  intros Hl (He & Hc & Hi1 & Hi2 & Hg & Hgn). pose proof (c_addr _ Hc) as [_ Hself]. apply gwp_call_post. unfold CallCode_.
  apply (gwp_bind_ok _ _ e e e); [done|].
  destruct (NoRecursion env && _); [apply refused_ok; [done|apply Hg]|].
  destruct (CallCreateDepth <? depth e); [apply refused_ok; [done|apply Hg]|].
  destruct (denied _ _ _); [apply refused_ok; [done|apply Hg]|].
  destruct (negb _); [apply refused_ok; [done|apply Hg]|].
  apply gwp_snapshot, gwp_bind. apply gwp_mono with (Q := λ r e3, evolves env (snapped e) e3 ∧ res_ok gas r).
  2: { intros r e3 [He3 Hr]. exact (finish_ok e e3 gas r He He3 Hr). }
  apply (run_code_ok n); try done; [by apply (snapped_evolves e)|intros w Hw; by apply contract_ok_new|split; [apply Hg|done]].
Qed.

Lemma DelegateCall__ok n loop e c addr input gas :
  loop_ok n loop → args_ok n e c input gas → call_post env e gas (DelegateCall_ env loop c addr input gas e).
Proof.
  intros Hl (He & Hc & Hi1 & Hi2 & Hg & Hgn). pose proof (c_addr _ Hc) as [Hcaller Hself]. apply gwp_call_post.
  unfold DelegateCall_. apply (gwp_bind_ok _ _ e e e); [done|].
  destruct (NoRecursion env && _); [apply refused_ok; [done|apply Hg]|].
  destruct (CallCreateDepth <? depth e); [apply refused_ok; [done|apply Hg]|].
  destruct (denied _ _ _); [apply refused_ok; [done|apply Hg]|].
  apply gwp_snapshot, gwp_bind. apply gwp_mono with (Q := λ r e3, evolves env (snapped e) e3 ∧ res_ok gas r).
  2: { intros r e3 [He3 Hr]. exact (finish_ok e e3 gas r He He3 Hr). }
  apply (run_code_ok n); try done; [by apply (snapped_evolves e)|intros w Hw|split; [apply Hg|done]].
  destruct (contract_ok_new w addr (self c) (self c) 0 gas Hw Hself Hself Hg). by split.
Qed.

Lemma StaticCall__ok n loop e c addr input gas :
  loop_ok n loop → args_ok n e c input gas → is_u256 addr →
  call_post env e gas (StaticCall_ env loop c addr input gas e).
Proof.
  intros Hl (He & Hc & Hi1 & Hi2 & Hg & Hgn) Ha. pose proof (c_addr _ Hc) as [_ Hself]. apply gwp_call_post.
  unfold StaticCall_. apply (gwp_bind_ok _ _ e e e); [done|].
  destruct (NoRecursion env && _); [apply refused_ok; [done|apply Hg]|].
  destruct (CallCreateDepth <? depth e); [apply refused_ok; [done|apply Hg]|].
  destruct (denied _ _ _); [apply refused_ok; [done|apply Hg]|].
  apply gwp_snapshot, gwp_db, gwp_set_db. pose proof (snapped_evolves e He) as Hsn.
  set (e1 := set_world _ (snapped e)).
  assert (evolves env (snapped e) e1) as He1 by (apply evolves_world; [apply Hsn|cbn; auto with world|constructor]).
  apply gwp_bind. apply gwp_mono with (Q := λ r e3, evolves env e1 e3 ∧ res_ok gas r).
  2: { intros r e3 [He3 Hr]. apply (finish_ok e e3 gas r He); [by apply evolves_trans with e1|exact Hr]. }
  apply (run_code_ok n); try done; [apply He1|intros w Hw; by apply contract_ok_new|split; [apply Hg|done]].
Qed.

(** ** Creation *)

Definition created_ok gas (r : callres * Z) : Prop := res_ok gas (fst r) ∧ is_u256 (snd r).
Lemma gwp_create_post (m : G (callres * Z)) e gas :
  gwp m e (λ r e', evolves env e e' ∧ created_ok gas r) → create_post env e gas (m e).
Proof.
  unfold gwp, create_post, created_ok, res_ok. destruct (m e) as [e' [[[[ret g] err] a]|[]| |]]; [|done..].
  cbn. intros (? & (? & ? & ?) & ?). done.
Qed.
Lemma refused_create e gas err : evm_ok e → 0 ≤ gas →
  evolves env e e ∧ created_ok gas (([], gas, err, 0) : callres * Z).
Proof. intros He Hg. destruct (refused_ok e gas err He Hg). done. Qed.

(** A frame that may write. *)
Lemma evolves_write e w : evm_ok e → (world_ok (db e) → world_ok w) → static env e = false → evolves env e (set_world w e).
Proof. intros He Hw Hs. apply evolves_world; [done|done|]. by rewrite Hs. Qed.

(** A change of the database that the code makes under a condition. *)
Lemma gwp_write_if {A} e0 (b : bool) w (k : unit → G A) e Q :
  static env e0 = false → evolves env e0 e → (world_ok (db e) → world_ok w) →
  (∀ e', evolves env e0 e' → depth e' = depth e → gwp (k tt) e' Q) →
  gwp ((if b then g_set_db w else mret tt) ≫= k) e Q.
Proof.
  intros Hs He Hw Hk. destruct b; [|by apply (Hk e)]. apply gwp_set_db, Hk; [|done].
  apply evolves_trans with e; [done|]. apply evolves_write; [apply He|done|]. unfold static in *. by rewrite (ev_ro _ _ _ He).
Qed.
Lemma gwp_write {A} e0 w (k : unit → G A) e Q :
  static env e0 = false → evolves env e0 e → (world_ok (db e) → world_ok w) →
  (∀ e', evolves env e0 e' → depth e' = depth e → gwp (k tt) e' Q) → gwp (g_set_db w ≫= k) e Q.
Proof. intros Hs He Hw Hk. by apply (gwp_write_if e0 true). Qed.

Lemma store_code_ok address ret c err e e0 :
  static env e0 = false → evolves env e0 e → is_u64 (Gas c) → code_ok ret →
  gwp (store_code env address ret c err) e (λ r e', evolves env e0 e' ∧ 0 ≤ Gas (fst r) ≤ Gas c).
Proof.
  intros Hs He Hg Hl. unfold is_u64 in Hg. unfold store_code. destruct err; [split; [done|cbn; lia]|].
  destruct (IsEIP158 _ && _); [split; [done|cbn; lia]|]. destruct ((1 <=? len ret) && _ && _); [split; [done|cbn; lia]|].
  unfold UseGas. pose proof (u64_range (len ret * CreateDataGas)) as Hu. unfold is_u64 in Hu.
  destruct (Z.ltb_spec (Gas c) (u64 (len ret * CreateDataGas))); [split; [done|cbn; lia]|].
  apply gwp_db, (gwp_write e0); [done|done|auto with world|]. intros e' He' _. split; [done|]. cbn. lia.
Qed.

Lemma create_ok n loop e caller code codeHash gas value address :
  loop_ok n loop → evm_ok e → static env e = false → is_u256 caller → is_u256 address →
  code_ok code → is_u64 gas → gas < n →
  create_post env e gas (create env loop caller code codeHash gas value address e).
Proof.
  intros Hl He Hs Hca Ha Hcode Hg Hgn. pose proof Hg as Hg'. unfold is_u64 in Hg'. apply gwp_create_post. unfold create.
  apply (gwp_bind_ok _ _ e e e); [done|]. cbn zeta.
  destruct (CallCreateDepth <? depth e); [apply refused_create; [done|lia]|].
  destruct (match CanCreate env with Some _ => _ | None => _ end); [apply refused_create; [done|lia]|].
  destruct (negb _); [apply refused_create; [done|lia]|].
  destruct (u64 _ <? _); [apply refused_create; [done|lia]|].
  apply (gwp_write e); [done|by apply evolves_refl|auto with world|]. intros e1 He1 _. apply gwp_db.
  apply (gwp_write_if e); [done|done|auto with world|]. intros e2 He2 _. apply gwp_db.
  destruct (negb _ || _). { split; [done|]. split; [split; [lia|apply ret_nil]|done]. }
  apply gwp_snapshot, gwp_db. set (e3 := snapped e2).
  assert (evolves env e e3) as He3 by (apply evolves_trans with e2; [done|apply snapped_evolves, He2]).
  apply (gwp_write e); [done|done|auto with world|]. intros e4 He4 _. apply gwp_db.
  apply (gwp_write_if e); [done|done|auto with world|]. intros e5 He5 _. apply gwp_db.
  apply (gwp_write e); [done|done|apply (Transfer_ok _ Henv)|]. intros e6 He6 _.
  destruct (NoRecursion env && _). { split; [done|]. split; [split; [lia|apply ret_nil]|done]. }
  set (c := SetCallCode codeHash code _).
  assert (contract_ok c) as Hc by (split; cbn; [done|done|apply ret_nil|done]).
  apply gwp_bind. eapply gwp_mono; [apply (Run_ok n loop c [] false); [done|apply He6|done|done|apply ret_nil..]|].
  intros [[ret c1] err] e7 [He7 (Hg1 & Hr1 & Hr2)]. cbn [fst snd] in *. cbn in Hg1.
  assert (evolves env e e7) as He7' by by apply evolves_trans with e6.
  apply gwp_bind. eapply gwp_mono; [apply (store_code_ok address ret c1 err e7 e); [done|done|unfold is_u64; lia|by split]|].
  intros [c2 err2] e8 [He8 Hg2]. cbn [fst] in Hg2.
  assert (created_ok gas (ret, Gas c2, err2, address)) as Hok by (split; [split; [lia|done]|done]).
  destruct err2 as [x|]; [|by split]. destruct (IsHomestead _ || _); [|by split].
  apply gwp_db, (gwp_write e); [done|done|auto with world|]. intros e9 He9 _. split; [done|].
  split; [|done]. split; [|done]. destruct (bool_decide _); lia.
Qed.

(** ** Tying the knot *)

Lemma calls_of_ok n loop : loop_ok n loop → calls_ok env n (calls_of env loop).
Proof.
  intros Hl. split; cbn.
  - intros e c addr input gas value (He & Hc & Hi1 & Hi2 & Hg & Hgn) Ha Hst.
    apply (Call__ok n); try done. apply Hc.
  - intros. by apply (CallCode__ok n).
  - intros. by apply (DelegateCall__ok n).
  - intros. by apply (StaticCall__ok n).
  - intros e c input gas value (He & Hc & Hi1 & Hi2 & Hg & Hgn) Hs. unfold Create_.
    apply (create_ok n); try done; [apply Hc|apply u256_Bytes20].
  - intros e c input gas value salt (He & Hc & Hi1 & Hi2 & Hg & Hgn) Hs. unfold Create2_.
    apply (create_ok n); try done; [apply Hc|apply u256_Bytes20].
Qed.

Lemma loop_total fuel : loop_ok (Z.of_nat fuel) (loop env fuel).
Proof.
  induction fuel as [|fuel IH]; intros f Hf Hgas.
  { destruct (c_gas _ (f_contract _ Hf)). lia. }
  pose proof (step_ok (Z.of_nat fuel) (calls_of env (loop env fuel)) f (calls_of_ok _ _ IH) Hf ltac:(lia) ltac:(lia)) as Hstep.
  cbn [loop]. unfold wp in Hstep. destruct (step env (calls_of env (loop env fuel)) f) as [f1 [[[ret err]|]|x| |]]; try done.
  destruct Hstep as (Hf1 & Hlt & Hev & _). pose proof (IH f1 Hf1 ltac:(lia)) as Hrest.
  destruct (loop env fuel f1) as [f2 [[ret err]|x| |]]; cbn in Hrest |- *; try done.
  - destruct Hrest as (Hev2 & Hg2 & Hr1 & Hr2). split_and!; try done; try lia. by apply evolves_trans with (evm f1).
  - by apply (err_post_weaken env f f1); [|lia|].
Qed.

(** ** Static calls *)

(** A run in read-only mode is the same as one from a machine that already is. *)
Lemma Run_set_ro loop c input e :
  db (fst (Run loop c input true e)) = db (fst (Run loop c input true (set_readOnly true e))) ∧
  snd (Run loop c input true e) = snd (Run loop c input true (set_readOnly true e)).
Proof.
  destruct e as [w d t ro r j]. unfold Run. cbn. destruct ro; [done|]. cbn.
  destruct (Code c); [done|]. cbn. set (f0 := mk_frame _ _ _ _ _). by destruct (loop f0) as [f' [[]| | |]].
Qed.

Lemma run_code_static n loop c a input gas e :
  loop_ok n loop → evm_ok e → (∀ w, world_ok w → contract_ok (SetCallCode (GetCodeHash w a) (GetCode w a) c)) → Gas c = gas →
  0 ≤ gas < n → bytes_ok input → len input < 2 ^ 62 → IsByzantium (chainRules env) = true →
  gwp (run_code env loop c a input gas true) e (λ r e', RO env (db e) (db e')).
Proof.
  intros Hl He Hc Hg Hgn Hi1 Hi2 Hbyz. unfold run_code. destruct (precompile env a) as [p|] eqn:Hp.
  { pose proof (RunPrecompiled_ok a p input gas e Hp ltac:(lia) He) as Hrun. unfold gwp, st_lift in *.
    destruct (RunPrecompiledContract p input gas); [constructor|done..]. }
  apply gwp_db. set (c1 := SetCallCode _ _ c). unfold run_contract. apply gwp_bind.
  destruct (Run_set_ro loop c1 input e) as [Hdb Hres].
  assert (evm_ok (set_readOnly true e)) as He' by (destruct He; by split).
  pose proof (Run_ok n loop c1 input true (set_readOnly true e) Hl He' (Hc _ (evm_world _ He)) ltac:(cbn; lia) Hi1 Hi2) as Hrun.
  unfold gwp in *. destruct (Run loop c1 input true e) as [e1 r1], (Run loop c1 input true (set_readOnly true e)) as [e2 r2].
  cbn in Hdb, Hres. subst r2. destruct r1 as [[[ret c2] err]| | |]; [|done..].
  destruct Hrun as [[_ _ _ Hs] _]. cbn. rewrite Hdb. apply Hs. unfold static. by rewrite Hbyz.
Qed.

Lemma StaticCall_RO n loop e c addr input gas :
  loop_ok n loop → args_ok n e c input gas → is_u256 addr → IsByzantium (chainRules env) = true →
  gwp (StaticCall_ env loop c addr input gas) e (λ r e', RO env (db e) (db e')).
Proof.
  intros Hl (He & Hc & Hi1 & Hi2 & Hg & Hgn) Ha Hbyz. pose proof (c_addr _ Hc) as [_ Hself].
  unfold StaticCall_. apply (gwp_bind_ok _ _ e e e); [done|].
  destruct (NoRecursion env && _); [constructor|]. destruct (CallCreateDepth <? depth e); [constructor|].
  destruct (denied _ _ _); [constructor|].
  apply gwp_snapshot, gwp_db, gwp_set_db. set (e1 := set_world _ (snapped e)).
  assert (evolves env e e1) as He1.
  { apply evolves_trans with (snapped e); [by apply snapped_evolves|].
    apply evolves_world; [by apply snapped_evolves|cbn; auto with world|constructor]. }
  apply gwp_bind. apply gwp_mono with (Q := λ _ e2, RO env (db e1) (db e2)).
  { apply (run_code_static n); try done; [apply He1|intros w Hw; by apply contract_ok_new|split; [apply Hg|done]]. }
  intros [[ret g] [x|]] e2 HR; (assert (RO env (snd (Snapshot (db e))) (db e2)) as HR' by
    (apply RO_trans with (db e1); [constructor|done])); cbn.
  - by apply RO_revert.
  - apply RO_trans with (snd (Snapshot (db e))); [constructor|done].
Qed.
End total.
