(* ===== verification/EvmTheorems.v ===== *)
(** * What the EVM guarantees

    The theorems about whole messages: they always return, never create gas and
    panic for the reasons of [evm_panic] at most; static calls do not write; failed calls
    are undone; and the arithmetic instructions compute what the Yellow Paper
    says.  A small concrete machine serves the examples; that the journaled database
    satisfies the assumptions is shown in StateTyped. *)
From stdpp Require Import gmap countable.
From S2P Require Import Prelude EvmAnalysis EvmBase EvmMachine EvmGas EvmTable EvmInterp EvmTrace EvmSafety EvmOps EvmGasOk EvmCallOk EvmTotal.

(** ** A concrete machine *)

(** The words as the library documents them. *)
#[export] Instance Z_Uint256 : Uint256 := {
  u_Add x y := u256 (x + y); u_Sub x y := u256 (x - y); u_Mul x y := u256 (x * y);
  u_Div x y := if y =? 0 then 0 else x / y;
  u_SDiv x y := if y =? 0 then 0 else u256 (Z.quot (signed x) (signed y));
  u_Mod x y := if y =? 0 then 0 else x mod y;
  u_SMod x y := if y =? 0 then 0 else u256 (Z.rem (signed x) (signed y));
  u_Exp x y := u256 (x ^ y);
  u_ExtendSign x y :=
    if y <? 31 then
      let b := 8 * (y + 1) in
      if Z.testbit x (b - 1) then u256 (x mod 2 ^ b - 2 ^ b) else x mod 2 ^ b
    else x;
  u_Not x := 2 ^ 256 - 1 - x;
  u_Slt x y := signed x <? signed y; u_Sgt x y := signed y <? signed x;
  u_Byte x n := if n <? 32 then Z.shiftr x (8 * (31 - n)) mod 256 else 0;
  u_AddMod x y m := if m =? 0 then 0 else (x + y) mod m;
  u_MulMod x y m := if m =? 0 then 0 else (x * y) mod m;
  u_Lsh x n := u256 (x * 2 ^ n); u_Rsh x n := Z.shiftr x n; u_SRsh x n := u256 (Z.shiftr (signed x) n)
}.
#[export] Instance Z_Uint256Laws : Uint256Laws.
Proof. split; reflexivity. Qed.

(** A database with one slot per number, whose code at address 2 calls address
    3 statically and stops: the storage is a map that is copied by [Snapshot]. *)
Record toy := mk_toy { slots : gmap Z Z; saved : list (gmap Z Z) }.
Definition toy_code (a : Z) : bytes :=
  if a =? 2 then [0x60; 0; 0x60; 0; 0x60; 0; 0x60; 0; 0x60; 3; 0x5a; 0xfa; 0x00]
  else if a =? 3 then [0x60; 7; 0x60; 1; 0x55; 0x00] else [].
(** A digest of 256 bits. *)
Definition toy_hash (d : bytes) : Z := fold_left (λ a x, (a * 257 + x + 1) mod 2 ^ 256) d 7.

#[export] Instance toy_StateDB : StateDB toy := {
  CreateAccount _ w := w; SubBalance _ _ w := w; AddBalance _ _ w := w; GetBalance _ _ := 0; GetNonce _ _ := 0;
  SetNonce _ _ w := w; GetCodeHash _ a := toy_hash (toy_code a); GetCode _ a := toy_code a; SetCode _ _ w := w;
  GetCodeSize _ a := len (toy_code a); AddRefund _ w := w; SubRefund _ w := Ok w; GetRefund _ := 0;
  GetCommittedState _ _ _ := 0; GetState w _ k := default 0 (slots w !! k);
  SetState _ k v w := mk_toy (<[k := v]> (slots w)) (saved w);
  Suicide _ w := w; HasSuicided _ _ := false; Exist _ _ := true; Empty _ _ := false;
  AddressInAccessList _ _ := true; SlotInAccessList _ _ _ := (true, true); AddAddressToAccessList _ w := w;
  AddSlotToAccessList _ _ w := w;
  RevertToSnapshot id w := mk_toy (nth (Z.to_nat id) (saved w) ∅) (take (Z.to_nat id) (saved w));
  Snapshot w := (len (saved w), mk_toy (slots w) (saved w ++ [slots w]));
  AddLog _ _ _ w := w; AddPreimage _ _ w := w
}.

Definition london : Rules := mk_Rules true true true true true true true true true true.
Definition toy_env : Env toy := mk_Env toy london 1 (λ _ _ _, true) (λ _ _ _ w, w) (λ _, 0) None None
  5 30000000 100 1000 1 (Some 7) 9 1 false false (λ _, None) toy_hash (λ _, None).
Definition toy_evm : EVM toy := mk_EVM (mk_toy ∅ []) 0 0 false [] ∅.

(** ** Messages return *)

Lemma evm_Call_returns {W} `{!Uint256, !Uint256Laws, !StateDB W, !WorldLaws W} (env : Env W) fuel e caller addr input gas value :
  env_ok env → evm_ok (fresh e) → is_u256 caller → is_u256 addr → bytes_ok input → len input < 2 ^ 62 →
  is_u64 gas → gas < Z.of_nat fuel → readOnly e = false →
  match evm_Call env fuel caller addr input gas value e with
  | (e', Ok (ret, rest, _)) => (0 ≤ rest ≤ gas ∧ bytes_ok ret ∧ depth e' = depth e ∧ readOnly e' = false) ∧ evm_ok (fresh e')
  | (_, Err _) => False
  | (_, Panic p) => evm_panic p
  | (_, OutOfFuel) => False
  end.
Proof.
  intros Henv He Hc Ha Hi1 Hi2 Hg Hf Hro.
  pose proof (Call__ok env Henv (Z.of_nat fuel) (loop env fuel) (fresh e) caller addr input gas value
    (loop_total env Henv fuel) He Hc Ha Hi1 Hi2 Hg Hf) as Hpost.
  unfold evm_Call, call_post in *. unfold mbind at 1, st_bind, st_modify.
  destruct (Call_ env (loop env fuel) caller addr input gas value (fresh e)) as [e' [[[ret rest] err]|[]| |]];
    cbn in Hpost; try apply Hpost; try (unfold static; cbn; by rewrite Hro).
  destruct Hpost as (Hev & Hleft & Hr & _); [unfold static; cbn; by rewrite Hro|].
  split; [split_and!; try done; try lia; [apply (ev_depth _ _ _ Hev)|by rewrite (ev_ro _ _ _ Hev)]|]. by destruct (ev_ok _ _ _ Hev); split.
Qed.

(** C6: a message call on a well-formed machine returns within a number of
    rounds and nested frames bounded by its gas; it never returns more gas than
    it was given, restores call depth and read-only mode, and leaves a well-formed
    machine.  It panics for one of three reasons at most: the refund counter below zero,
    a running contract that is not in the access list, or a cached analysis that is
    shorter than the code it is used for; no stack, memory, code or data access is out
    of range.  This holds for every database with the laws of [WorldLaws] and every
    hash function. *)
Theorem evm_Call_total {W} `{!Uint256, !Uint256Laws, !StateDB W, !WorldLaws W} (env : Env W) fuel e caller addr input gas value :
  env_ok env → evm_ok (fresh e) → is_u256 caller → is_u256 addr → bytes_ok input → len input < 2 ^ 62 →
  is_u64 gas → gas < Z.of_nat fuel → readOnly e = false →
  match evm_Call env fuel caller addr input gas value e with
  | (e', Ok (ret, rest, _)) => 0 ≤ rest ≤ gas ∧ bytes_ok ret ∧ depth e' = depth e ∧ readOnly e' = false ∧ evm_ok (fresh e')
  | (_, Err _) => False
  | (_, Panic p) => evm_panic p
  | (_, OutOfFuel) => False
  end.
Proof.
  intros Henv He Hc Ha Hi1 Hi2 Hg Hf Hro. pose proof (evm_Call_returns env fuel e caller addr input gas value Henv He Hc Ha Hi1 Hi2 Hg Hf Hro) as Hret.
  destruct (evm_Call env fuel caller addr input gas value e) as [e' [[[ret rest] err]|[]| |]]; [|done..].
  by destruct Hret as [(? & ? & ? & ?) ?].
Qed.

(** The same for a message that creates a contract. *)
Lemma evm_Create_returns {W} `{!Uint256, !Uint256Laws, !StateDB W, !WorldLaws W} (env : Env W) fuel e caller code gas value :
  env_ok env → evm_ok (fresh e) → is_u256 caller → bytes_ok code → len code < 2 ^ 62 →
  is_u64 gas → gas < Z.of_nat fuel → readOnly e = false →
  match evm_Create env fuel caller code gas value e with
  | (e', Ok (ret, rest, _, addr)) =>
      (0 ≤ rest ≤ gas ∧ bytes_ok ret ∧ is_u256 addr ∧ depth e' = depth e ∧ readOnly e' = false) ∧ evm_ok (fresh e')
  | (_, Err _) => False
  | (_, Panic p) => evm_panic p
  | (_, OutOfFuel) => False
  end.
Proof.
  intros Henv He Hc Hi1 Hi2 Hg Hf Hro.
  assert (create_post env (fresh e) gas (evm_Create env fuel caller code gas value e)) as Hpost.
  { apply (create_ok env Henv (Z.of_nat fuel)); try done; [by apply loop_total|unfold static; cbn; by rewrite Hro|apply u256_Bytes20]. }
  destruct (evm_Create env fuel caller code gas value e) as [e' [[[[ret rest] err] addr]|[]| |]]; try done.
  destruct Hpost as (Hev & Hleft & Hr & _ & Ha).
  split; [split_and!; try done; try lia; [apply (ev_depth _ _ _ Hev)|by rewrite (ev_ro _ _ _ Hev)]|]. by destruct (ev_ok _ _ _ Hev); split.
Qed.

(** C26: one round in a well-formed frame: it ends the frame, or leaves a
    well-formed frame (stack below the limit, memory paid for, program counter
    near the code) with strictly less gas; it panics for one of the three reasons of
    [evm_panic] at most, whatever the opcode, the fork and the operands. *)
Theorem step_progress {W} `{!Uint256, !Uint256Laws, !StateDB W, !WorldLaws W} (env : Env W) n f :
  env_ok env → frame_ok f → Gas (contract f) ≤ Z.of_nat n →
  match step env (calls_of env (loop env n)) f with
  | (f', Ok None) => frame_ok f' ∧ Gas (contract f') < Gas (contract f)
  | (f', Ok (Some (ret, _))) => 0 ≤ Gas (contract f') ≤ Gas (contract f) ∧ bytes_ok ret
  | (f', Err _) => 0 ≤ Gas (contract f') ≤ Gas (contract f)
  | (_, Panic p) => evm_panic p
  | (_, OutOfFuel) => False
  end.
Proof.
  intros Henv Hf Hg.
  pose proof (step_ok env Henv (Z.of_nat n) _ f (calls_of_ok env Henv _ _ (loop_total env Henv n)) Hf ltac:(lia) ltac:(lia)) as Hs.
  unfold wp in Hs. destruct (step env (calls_of env (loop env n)) f) as [f' [[[ret err]|]|x| |]]; cbn in Hs; try done.
  - destruct Hs as (_ & ? & ? & _). done.
  - destruct Hs as (? & ? & _). done.
  - apply Hs.
Qed.
Definition toy_frame : frame toy := mk_frame 0 toy_evm NewMemory [] (mk_Contract 1 2 [0x60; 7; 0x50] 0 [] 50 0 None).

(** ** Static calls *)

(** C25: a static call changes the database only by what [RO] lists: it fills the
    access list, records preimages, touches or creates empty accounts, transfers
    nothing, and takes and reverts snapshots.  No storage, code, nonce, log,
    refund or self-destruct is written, by any code the callee runs. *)
Theorem static_call_read_only {W} `{!Uint256, !Uint256Laws, !StateDB W, !WorldLaws W} (env : Env W) fuel e c addr input gas :
  env_ok env → args_ok (Z.of_nat fuel) e c input gas → is_u256 addr → IsByzantium (chainRules env) = true →
  match StaticCall_ env (loop env fuel) c addr input gas e with
  | (e', Ok _) => RO env (db e) (db e')
  | (_, Panic p) => evm_panic p
  | _ => False
  end.
Proof.
  intros Henv Ha Haddr Hbyz.
  pose proof (StaticCall_RO env Henv _ _ e c addr input gas (loop_total env Henv fuel) Ha Haddr Hbyz) as Hpost.
  unfold gwp in Hpost. by destruct (StaticCall_ _ _ _ _ _ _ _) as [e' [|[]| |]].
Qed.

(** ** Failed calls *)

Lemma st_bind_inv {S E A B} (m : st S E A) (k : A → st S E B) s s' b :
  (m ≫= k) s = (s', Ok b) → ∃ s1 a, m s = (s1, Ok a) ∧ k a s1 = (s', Ok b).
Proof. unfold mbind, st_bind. destruct (m s) as [s1 []]; [|done..]. intros Heq. by eexists _, _. Qed.

(** The gas of a failed call is gone unless the callee itself reverted. *)
Lemma finish_gas {W} `{!StateDB W} id r (e e' : EVM W) ret g err :
  finish id r e = (e', Ok (ret, g, Some err)) → err ≠ ErrExecutionReverted → g = 0.
Proof.
  destruct r as [[ret0 g0] [x|]]; unfold finish; [|done].
  intros (e1 & w & [= <- <-] & (e2 & [] & [= <-] & [= <- <- <- ->])%st_bind_inv)%st_bind_inv.
  intros Hne. by rewrite bool_decide_eq_false_2.
Qed.

(** A call that fails either was refused at entry, and then nothing changed
    and all gas is back; or the database ends with a revert to the snapshot taken
    at entry, from a state that was reached from there by operations and
    well-nested reverts only, and all gas is gone unless the callee reverted. *)
Theorem failed_call_undone {W} `{!Uint256, !StateDB W} (env : Env W) fuel caller addr input gas value e e' ret g err :
  Call_ env (loop env fuel) caller addr input gas value e = (e', Ok (ret, g, Some err)) →
  (e' = e ∧ g = gas ∧ (err = ErrDepth ∨ err = ErrAddressDenied ∨ err = ErrInsufficientBalance)) ∨
  ((∃ w, Tr (org:=of_message (db e) value) env (snd (Snapshot (db e))) w ∧ db e' = RevertToSnapshot (fst (Snapshot (db e))) w) ∧
   (err ≠ ErrExecutionReverted → g = 0)).
Proof.
  intros Hc. destruct (Call_failed (org:=of_message (db e) value) env _ _ _ _ _ _ _ _ _ _ _ (of_message_allowed (db e) value) eq_refl (loop_trace env fuel) Hc) as [Hr|Hr]; [by left|].
  revert Hc. unfold Call_. intros (e0 & e0' & [= <- <-] & Heq)%st_bind_inv. revert Heq.
  destruct (NoRecursion env && _); [done|].
  destruct (CallCreateDepth <? depth e); [intros [= <- <- <- <-]; left; auto|].
  destruct ((0 <? depth e) && _); [intros [= <- <- <- <-]; left; auto|].
  destruct (negb (value =? 0) && _); [intros [= <- <- <- <-]; left; auto|].
  intros (e1 & id & _ & Heq)%st_bind_inv. right. split; [exact Hr|].
  apply st_bind_inv in Heq as (e2 & w & _ & Heq). revert Heq. destruct (_ && _ && _ && _); [done|].
  intros (? & ? & _ & (? & ? & _ & (? & ? & _ & (? & ? & _ & (? & ? & _ & Heq)%st_bind_inv)%st_bind_inv)
    %st_bind_inv)%st_bind_inv)%st_bind_inv. exact (finish_gas _ _ _ _ _ _ _ Heq).
Qed.
Lemma failed_call_undone_witness :
  let e' := fst (Call_ toy_env (loop toy_env 2) 1 2 [] 4 0 toy_evm) in
  (e' = toy_evm ∧ 0 = 4 ∧ (ErrOutOfGas = ErrDepth ∨ ErrOutOfGas = ErrAddressDenied ∨ ErrOutOfGas = ErrInsufficientBalance)) ∨
  ((∃ w, Tr (org:=of_message (db toy_evm) 0) toy_env (snd (Snapshot (db toy_evm))) w ∧ db e' = RevertToSnapshot (fst (Snapshot (db toy_evm))) w) ∧
   (ErrOutOfGas ≠ ErrExecutionReverted → 0 = 0)).
Proof. apply (failed_call_undone toy_env 2 1 2 [] 4 0 toy_evm _ []). reflexivity. Defined.

(** ** The gas of a call *)

(** Since EIP-150 a call is given what was asked for, but at most all but one
    64th of what remains after its own price: whenever the charge goes through,
    the subtraction and the sum of 64-bit words in [callGas] did not wrap. *)
Theorem callGas_63_64 avail base cc g :
  is_u64 avail → 0 ≤ base < 2 ^ 57 → is_u256 cc → callGas true avail base cc = Ok g →
  base + g ≤ avail → g = Z.min cc (avail - base - (avail - base) / 64).
Proof.
  unfold is_u64, is_u256. intros Ha Hb Hc Hg Hle. unfold callGas, IsUint64, Uint64 in Hg.
  destruct (Z.le_gt_cases base avail) as [Hba|Hba].
  - rewrite (u64_small (avail - base)) in Hg by (unfold is_u64; lia).
    assert (0 ≤ (avail - base) / 64 ≤ avail - base) as Hd
      by (split; [apply Z.div_pos; lia|apply Z.div_le_upper_bound; lia]).
    rewrite u64_small in Hg by (unfold is_u64; lia).
    destruct (Z.ltb_spec cc (2 ^ 64)) as [Hl|Hl]; cbn [negb orb] in Hg; [|simplify_eq; lia].
    rewrite (u64_small cc) in Hg by (unfold is_u64; lia).
    destruct (Z.ltb_spec (avail - base - (avail - base) / 64) cc); simplify_eq; lia.
  - pose proof (callGas_ok true avail base cc Ha Hb Hc) as Hok. unfold callGas, IsUint64, Uint64 in Hok. rewrite Hg in Hok.
    destruct Hok as [[? ?] _]. lia.
Qed.
Lemma callGas_63_64_witness : 936 = Z.min (2 ^ 255) (1000 - 50 - (1000 - 50) / 64).
Proof. apply (callGas_63_64 1000 50 (2 ^ 255) 936); done. Defined.

(** ** Arithmetic *)

(** What the instructions on two words compute, by opcode. *)
Definition word_spec (op x y : Z) : option Z :=
  match op with
  | 0x01 => Some ((x + y) mod 2 ^ 256)
  | 0x02 => Some ((x * y) mod 2 ^ 256)
  | 0x03 => Some ((x - y) mod 2 ^ 256)
  | 0x04 => Some (if y =? 0 then 0 else x / y)
  | 0x05 => Some (if y =? 0 then 0 else Z.quot (signed x) (signed y) mod 2 ^ 256)
  | 0x06 => Some (if y =? 0 then 0 else x mod y)
  | 0x07 => Some (if y =? 0 then 0 else Z.rem (signed x) (signed y) mod 2 ^ 256)
  | 0x0a => Some (x ^ y mod 2 ^ 256)
  | 0x0b => Some (if x <? 31 then
                    let b := 8 * (x + 1) in
                    (if Z.testbit y (b - 1) then y mod 2 ^ b - 2 ^ b else y mod 2 ^ b) mod 2 ^ 256
                  else y)
  | 0x10 => Some (if x <? y then 1 else 0)
  | 0x11 => Some (if y <? x then 1 else 0)
  | 0x12 => Some (if signed x <? signed y then 1 else 0)
  | 0x13 => Some (if signed y <? signed x then 1 else 0)
  | 0x14 => Some (if x =? y then 1 else 0)
  | 0x16 => Some (Z.land x y)
  | 0x17 => Some (Z.lor x y)
  | 0x18 => Some (Z.lxor x y)
  | 0x1a => Some (if x <? 32 then y / 2 ^ (8 * (31 - x)) mod 256 else 0)
  | 0x1b => Some (y * 2 ^ x mod 2 ^ 256)
  | 0x1c => Some (y / 2 ^ x)
  | 0x1d => Some (signed y / 2 ^ x mod 2 ^ 256)
  | _ => None
  end.

Section executes.
Context {W : Type} `{!Uint256, !StateDB W} (env : Env W).

(** The table runs [e] for [op], if it has the opcode. *)
Definition executes (op : Z) (e : Calls W → st (frame W) evm_err bytes) (jt : JumpTable (W:=W)) : Prop :=
  ∀ o, jt_get op jt = Some o → execute o = e.

Lemma executes_cons op e op' o' jt : (op = op' → execute o' = e) → executes op e jt → executes op e ((op', o') :: jt).
Proof.
  intros Ho Hjt o. cbn [jt_get]. destruct (Z.eqb_spec op op') as [Heq|]; [|apply Hjt]. intros [= <-]. by apply Ho.
Qed.
Lemma executes_const op e op' g jt : executes op e jt → executes op e (set_constantGas op' g jt).
Proof.
  intros Hjt. unfold set_constantGas. destruct (jt_get op' jt) as [o'|] eqn:Ho'; [|done].
  apply executes_cons; [|done]. intros ->. exact (Hjt o' Ho').
Qed.
Lemma executes_dyn op e op' d jt : executes op e jt → executes op e (set_dynamicGas op' d jt).
Proof.
  intros Hjt. unfold set_dynamicGas. destruct (jt_get op' jt) as [o'|] eqn:Ho'; [|done].
  apply executes_cons; [|done]. intros ->. exact (Hjt o' Ho').
Qed.
Lemma executes_reprice op e op' g d jt : executes op e jt → executes op e (reprice op' g d jt).
Proof. intros Hjt. by apply executes_dyn, executes_const. Qed.

(** The opcodes the later forks add. *)
Definition added : list (Z * (Calls W → st (frame W) evm_err bytes)) := [
  (Op.DELEGATECALL, opDelegateCall); (Op.REVERT, λ _, opRevert); (Op.RETURNDATACOPY, λ _, opReturnDataCopy);
  (Op.RETURNDATASIZE, λ _, opReturnDataSize); (Op.STATICCALL, opStaticCall); (Op.CREATE2, opCreate2);
  (Op.EXTCODEHASH, λ _, opExtCodeHash); (Op.SAR, λ _, opSAR); (Op.SHR, λ _, opSHR); (Op.SHL, λ _, opSHL);
  (Op.CHAINID, λ _, opChainID env); (Op.SELFBALANCE, λ _, opSelfBalance); (Op.BASEFEE, λ _, opBaseFee env)].

(** What an opcode executes does not change from fork to fork. *)
Lemma instructionSet_executes op e :
  executes op e (newFrontierInstructionSet env) → Forall (λ x, op = fst x → snd x = e) added →
  executes op e (instructionSet env).
Proof.
  intros HF0 Hadd. unfold added in Hadd. decompose_Forall_hyps.
  assert (executes op e (newHomesteadInstructionSet env)) as HF1 by by apply executes_cons.
  assert (executes op e (newTangerineWhistleInstructionSet env)) as HF2 by by do 7 apply executes_const.
  assert (executes op e (newSpuriousDragonInstructionSet env)) as HF3 by by apply executes_dyn.
  assert (executes op e (newByzantiumInstructionSet env)) as HF4 by by do 4 (apply executes_cons; [done|]).
  assert (executes op e (newConstantinopleInstructionSet env)) as HF5 by by do 5 (apply executes_cons; [done|]).
  assert (executes op e (newIstanbulInstructionSet env)) as HF6.
  { apply executes_dyn, executes_const, executes_cons; [done|]. do 3 apply executes_const. by apply executes_cons. }
  assert (executes op e (newBerlinInstructionSet env)) as HF7.
  { unfold newBerlinInstructionSet, enable2929. cbn zeta. do 10 apply executes_reprice. by apply executes_dyn. }
  assert (executes op e (newLondonInstructionSet env)) as HF8.
  { apply executes_cons; [done|]. by do 2 apply executes_dyn. }
  unfold instructionSet. cbn zeta. repeat match goal with |- executes _ _ (if ?b then _ else _) => destruct b end.
  - exact HF8.
  - exact HF7.
  - exact HF6.
  - exact HF5.
  - exact HF4.
  - exact HF3.
  - exact HF2.
  - exact HF1.
  - exact HF0.
Qed.
End executes.

(** Splits the opcodes of [word_spec]. *)
Lemma word_spec_cases (P : Z → Prop) op x y v :
  word_spec op x y = Some v →
  Forall P [0x01; 0x02; 0x03; 0x04; 0x05; 0x06; 0x07; 0x0a; 0x0b; 0x10; 0x11; 0x12; 0x13; 0x14; 0x16; 0x17; 0x18; 0x1a;
            0x1b; 0x1c; 0x1d] → P op.
Proof.
  intros Hv HP. rewrite Forall_forall in HP. apply HP. revert Hv. unfold word_spec.
  repeat (case_match; try done); intros _; set_solver.
Qed.

Section words.
Context {W : Type} `{!Uint256, !Uint256Laws, !StateDB W} (env : Env W).

(** [op] computes [g] on the two words on top of the stack. *)
Definition computes (op : Z) (g : Z → Z → Z) : Prop :=
  ∀ o calls x y p e m s c, jt_get op (instructionSet env) = Some o → is_u256 x → is_u256 y →
  execute o calls (mk_frame p e m (x :: y :: s) c) = (mk_frame p e m (g x y :: s) c, Ok []).

Lemma computes_intro op m g :
  executes op (λ _, m) (newFrontierInstructionSet env) → Forall (λ x, op = fst x → snd x = (λ _, m)) (added env) →
  (∀ x y p e me s c, is_u256 x → is_u256 y →
    m (mk_frame p e me (x :: y :: s) c) = (mk_frame p e me (g x y :: s) c, Ok [])) → computes op g.
Proof.
  intros H1 H2 Hm o calls x y p e me s c Ho Hx Hy. by rewrite (instructionSet_executes env op _ H1 H2 o Ho), Hm.
Qed.

Ltac same_code := intros ? [= <-]; cbn [execute]; reflexivity.
Ltac not_added := repeat apply Forall_cons_2; try apply Forall_nil_2; cbn; done.
Tactic Notation "word_op" reference(m) uconstr(u) :=
  eexists; split; [|intros ? ?; reflexivity]; apply (computes_intro _ u); [same_code|not_added|];
  intros ? ? ? ? ? ? ? ? ?; unfold m; frame_eval.

Lemma sar_value x y : is_u256 x → is_u256 y →
  (if 256 <? x then if y <? 2 ^ 255 then 0 else 2 ^ 256 - 1 else u_SRsh y (Uint64 x)) = signed y / 2 ^ x mod 2 ^ 256.
Proof.
  intros Hx Hy. destruct (Z.ltb_spec 256 x) as [Hlt|Hge].
  - assert (2 ^ 256 < 2 ^ x) as Hp by (apply Z.pow_lt_mono_r; lia). unfold is_u256, signed in *.
    destruct (Z.ltb_spec y (2 ^ 255)); [by rewrite Z.div_small by lia|].
    replace ((y - 2 ^ 256) / 2 ^ x) with (-1); [done|].
    apply Z.div_unique with (y - 2 ^ 256 + 2 ^ x); [lia|lia].
  - unfold is_u256 in Hx. unfold Uint64. rewrite u64_small by (unfold is_u64; lia).
    rewrite u_SRsh_spec by (done || (unfold is_u256; lia)). by rewrite Z.shiftr_div_pow2 by lia.
Qed.
Lemma shl_value x y : is_u256 x → is_u256 y →
  (if x <? 256 then u_Lsh y (Uint64 x) else 0) = y * 2 ^ x mod 2 ^ 256.
Proof.
  unfold is_u256. intros Hx Hy. destruct (Z.ltb_spec x 256).
  - unfold Uint64. rewrite u64_small by (unfold is_u64; lia). by rewrite u_Lsh_spec by (unfold is_u256; lia).
  - replace x with (x - 256 + 256) by lia. rewrite Z.pow_add_r, Z.mul_assoc by lia. by rewrite Z_mod_mult.
Qed.
Lemma shr_value x y : is_u256 x → is_u256 y → (if x <? 256 then u_Rsh y (Uint64 x) else 0) = y / 2 ^ x.
Proof.
  unfold is_u256. intros Hx Hy. destruct (Z.ltb_spec x 256).
  - unfold Uint64. rewrite u64_small by (unfold is_u64; lia). rewrite u_Rsh_spec by (unfold is_u256; lia).
    by rewrite Z.shiftr_div_pow2 by lia.
  - rewrite Z.div_small; [done|]. pose proof (Z.pow_le_mono_r 2 256 x). lia.
Qed.
Lemma signextend_value x y : is_u256 x → is_u256 y →
  u_ExtendSign y x = if x <? 31 then
    let b := 8 * (x + 1) in (if Z.testbit y (b - 1) then y mod 2 ^ b - 2 ^ b else y mod 2 ^ b) mod 2 ^ 256 else y.
Proof.
  intros Hx Hy. rewrite u_ExtendSign_spec by done. destruct (Z.ltb_spec x 31); [|done]. cbn zeta.
  destruct (Z.testbit y _); [done|]. symmetry. apply Z.mod_small, u256_mod_pow. unfold is_u256 in Hx. lia.
Qed.

(** Each opcode of [word_spec] computes its value. *)
Lemma word_computes op x y v : word_spec op x y = Some v →
  ∃ g, computes op g ∧ ∀ x y, word_spec op x y = Some (g x y).
Proof.
  intros Hv. apply (word_spec_cases (λ op, ∃ g, computes op g ∧ ∀ x y, word_spec op x y = Some (g x y)) op x y v Hv).
  repeat apply Forall_cons_2; try apply Forall_nil_2.
  - word_op opAdd (opAdd (W:=W)). by rewrite u_Add_spec.
  - word_op opMul (opMul (W:=W)). by rewrite u_Mul_spec.
  - word_op opSub (opSub (W:=W)). by rewrite u_Sub_spec.
  - word_op opDiv (opDiv (W:=W)). by rewrite u_Div_spec.
  - word_op opSdiv (opSdiv (W:=W)). by rewrite u_SDiv_spec.
  - word_op opMod (opMod (W:=W)). by rewrite u_Mod_spec.
  - word_op opSmod (opSmod (W:=W)). by rewrite u_SMod_spec.
  - word_op opExp (opExp (W:=W)). by rewrite u_Exp_spec.
  - word_op opSignExtend (opSignExtend (W:=W)). by rewrite signextend_value.
  - word_op opLt (opLt (W:=W)). done.
  - word_op opGt (opGt (W:=W)). done.
  - word_op opSlt (opSlt (W:=W)). by rewrite u_Slt_spec.
  - word_op opSgt (opSgt (W:=W)). by rewrite u_Sgt_spec.
  - word_op opEq (opEq (W:=W)). done.
  - word_op opAnd (opAnd (W:=W)). done.
  - word_op opOr (opOr (W:=W)). done.
  - word_op opXor (opXor (W:=W)). done.
  - word_op opByte (opByte (W:=W)). rewrite u_Byte_spec by done. do 3 f_equal.
    match goal with H : is_u256 ?x |- context [?x <? 32] => destruct (Z.ltb_spec x 32) end; [|done].
    rewrite Z.shiftr_div_pow2 by lia. done.
  - word_op opSHL (opSHL (W:=W)). by rewrite shl_value.
  - word_op opSHR (opSHR (W:=W)). by rewrite shr_value.
  - word_op opSAR (opSAR (W:=W)). by rewrite sar_value.
Qed.

(** C28: in every fork, the instructions on two words replace them by the value
    that the mathematical definition of the opcode gives, for all operands:
    division by zero, signed overflow and shifts beyond the word included. *)
Theorem word_instructions op o calls x y v p e m s c :
  jt_get op (instructionSet env) = Some o → word_spec op x y = Some v → is_u256 x → is_u256 y →
  execute o calls (mk_frame p e m (x :: y :: s) c) = (mk_frame p e m (v :: s) c, Ok []).
Proof.
  intros Ho Hv Hx Hy. destruct (word_computes op x y v Hv) as (g & Hg & Hspec).
  rewrite (Hg o calls x y p e m s c Ho Hx Hy). rewrite Hspec in Hv. by injection Hv as ->.
Qed.
End words.

Definition toy_petersburg : Env toy := mk_Env toy (mk_Rules true true true true true true true false false false) 1
  (λ _ _ _, true) (λ _ _ _ w, w) (λ _, 0) None None 5 30000000 100 1000 1 None 9 1 false false (λ _, None) toy_hash (λ _, None).
Lemma word_instructions_witness :
  ∃ o, jt_get Op.SAR (instructionSet toy_petersburg) = Some o ∧
  execute o (calls_of toy_env (loop toy_env 0)) (mk_frame 0 toy_evm NewMemory [300; 2 ^ 256 - 4] (contract toy_frame)) =
    (mk_frame 0 toy_evm NewMemory [2 ^ 256 - 1] (contract toy_frame), Ok []).
Proof.
  eexists. split; [reflexivity|].
  apply (word_instructions toy_petersburg Op.SAR _ _ 300 (2 ^ 256 - 4) (2 ^ 256 - 1) 0 toy_evm NewMemory [] (contract toy_frame));
    [reflexivity|vm_compute; reflexivity|done|done].
Defined.
