(* ===== verification/StateAccess.v ===== *)
(** * The EIP-2930 access list (src/geth/core/state/access_list.go)

    Addresses are mapped to the position of their set of slots, or to [-1] when
    they have none.  The theorem shows that this index structure implements a
    finite map from addresses to sets of slots, that no operation indexes out of
    range, and that the deletions used by the journal restore the list exactly. *)
From stdpp Require Import gmap.
From S2P Require Import Prelude.

Record accessList := mk_accessList {
  addresses : gmap Z Z;
  slots : list (gset Z)
}.

Definition newAccessList : accessList := mk_accessList ∅ [].

Definition ContainsAddress (al : accessList) (address : Z) : bool :=
  bool_decide (is_Some (addresses al !! address)).

Definition Contains (al : accessList) (address slot : Z) : res Empty_set (bool * bool) :=
  match addresses al !! address with
  | None => Ok (false, false)
  | Some idx =>
      if idx =? -1 then Ok (true, false) else
      slotmap ← go_index (slots al) idx; Ok (true, bool_decide (slot ∈ slotmap))
  end.

(** [Copy] rebuilds both maps key by key. *)
Definition al_Copy (a : accessList) : accessList :=
  mk_accessList (map_fold (λ k v cp, <[k := v]> cp) ∅ (addresses a))
    (map (λ slotMap, set_fold (λ k cp, {[k]} ∪ cp) ∅ slotMap) (slots a)).

Definition AddAddress (address : Z) (al : accessList) : accessList * bool :=
  match addresses al !! address with
  | Some _ => (al, false)
  | None => (mk_accessList (<[address := -1]> (addresses al)) (slots al), true)
  end.

Definition AddSlot (address slot : Z) (al : accessList) : res Empty_set (accessList * (bool * bool)) :=
  let present := addresses al !! address in
  match present with
  | None | Some (-1) =>
      Ok (mk_accessList (<[address := len (slots al)]> (addresses al)) (slots al ++ [{[slot]}]),
          (negb (bool_decide (is_Some present)), true))
  | Some idx =>
      slotmap ← go_index (slots al) idx;
      if decide (slot ∈ slotmap) then Ok (al, (false, false)) else
      sl ← go_set (slots al) idx ({[slot]} ∪ slotmap);
      Ok (mk_accessList (addresses al) sl, (false, true))
  end.

Definition DeleteSlot (address slot : Z) (al : accessList) : res Empty_set accessList :=
  match addresses al !! address with
  | None => Panic (raised "reverting slot change, address not present in list")
  | Some idx =>
      slotmap ← go_index (slots al) idx;
      let slotmap := slotmap ∖ {[slot]} in
      sl ← go_set (slots al) idx slotmap;
      if decide (size slotmap = 0%nat) then
        sl ← go_slice sl 0 idx; Ok (mk_accessList (<[address := -1]> (addresses al)) sl)
      else Ok (mk_accessList (addresses al) sl)
  end.

Definition DeleteAddress (address : Z) (al : accessList) : accessList :=
  mk_accessList (delete address (addresses al)) (slots al).

(** ** The finite map held by an access list *)

Implicit Types (al : accessList) (m : gmap Z (gset Z)) (a s : Z).

(** Indices point at non-empty sets, and no two addresses share one. *)
Record al_ok al : Prop := {
  al_index a i : addresses al !! a = Some i → i ≠ -1 →
    0 ≤ i ∧ ∃ sl, slots al !! Z.to_nat i = Some sl ∧ sl ≠ ∅;
  al_inj a b i : addresses al !! a = Some i → addresses al !! b = Some i → i ≠ -1 → a = b
}.

Definition al_set al (i : Z) : gset Z :=
  if i =? -1 then ∅ else default ∅ (slots al !! Z.to_nat i).
Definition al_map al : gmap Z (gset Z) := al_set al <$> addresses al.

Lemma al_ok_new : al_ok newAccessList.
Proof. split; cbn; intros; simplify_map_eq. Qed.

Lemma al_map_lookup al a : al_map al !! a = al_set al <$> addresses al !! a.
Proof. apply lookup_fmap. Qed.

Lemma al_index_get al a i : al_ok al → addresses al !! a = Some i → i ≠ -1 →
  ∃ sl, slots al !! Z.to_nat i = Some sl ∧ sl ≠ ∅ ∧ 0 ≤ i < len (slots al) ∧
        go_index (E:=Empty_set) (slots al) i = Ok sl ∧ al_set al i = sl.
Proof.
  intros Hok Ha Hi. destruct (al_index _ Hok a i Ha Hi) as (Hi0 & sl & Hsl & Hne).
  exists sl. split_and!; [done..| | |].
  - apply lookup_lt_Some in Hsl. unfold len. lia.
  - by apply go_index_ok.
  - unfold al_set. rewrite (proj2 (Z.eqb_neq i (-1))) by done. by rewrite Hsl.
Qed.

Lemma Contains_spec al a s : al_ok al →
  Contains al a s = Ok (bool_decide (is_Some (al_map al !! a)), bool_decide (s ∈ al_map al !!! a)).
Proof.
  intros Hok. unfold Contains, lookup_total, map_lookup_total. rewrite al_map_lookup.
  destruct (addresses al !! a) as [i|] eqn:Ha; cbn; [|done].
  destruct (Z.eqb_spec i (-1)) as [->|Hi]; [by rewrite bool_decide_eq_false_2 by set_solver|].
  destruct (al_index_get al a i Hok Ha Hi) as (sl & _ & _ & _ & -> & ->). done.
Qed.

Lemma AddAddress_map al a :
  al_map (fst (AddAddress a al)) = <[a := al_map al !!! a]> (al_map al).
Proof.
  apply map_eq. intros b. rewrite lookup_insert. unfold AddAddress, lookup_total, map_lookup_total.
  rewrite !al_map_lookup. destruct (addresses al !! a) as [i|] eqn:Ha; cbn; rewrite ?lookup_insert.
  - destruct (decide (a = b)) as [<-|]; [by rewrite Ha|done].
  - by destruct (decide (a = b)).
Qed.
Lemma AddAddress_ok al a : al_ok al → al_ok (fst (AddAddress a al)).
Proof.
  intros Hok. unfold AddAddress. destruct (addresses al !! a) eqn:Ha; [done|]. split; cbn.
  - intros b i Hb Hi. apply lookup_insert_Some in Hb as [[_ <-]|[_ Hb]]; [done|by apply (al_index _ Hok b i)].
  - intros b c i Hb Hc Hi. apply lookup_insert_Some in Hb as [[_ <-]|[_ Hb]]; [done|].
    apply lookup_insert_Some in Hc as [[_ <-]|[_ Hc]]; [done|]. by apply (al_inj _ Hok b c i).
Qed.

(** The two ways in which [AddSlot] changes the list. *)
Lemma AddSlot_cases al a s : al_ok al →
  (addresses al !! a = None ∨ addresses al !! a = Some (-1)) ∧
    AddSlot a s al = Ok (mk_accessList (<[a := len (slots al)]> (addresses al)) (slots al ++ [{[s]}]),
                         (negb (bool_decide (is_Some (addresses al !! a))), true))
  ∨ ∃ i sl, addresses al !! a = Some i ∧ i ≠ -1 ∧ slots al !! Z.to_nat i = Some sl ∧ 0 ≤ i ∧ sl ≠ ∅ ∧
    AddSlot a s al =
      Ok (if decide (s ∈ sl) then (al, (false, false))
          else (mk_accessList (addresses al) (<[Z.to_nat i := {[s]} ∪ sl]> (slots al)), (false, true))).
Proof.
  intros Hok. unfold AddSlot. destruct (addresses al !! a) as [i|] eqn:Ha; [|by left; auto].
  destruct (decide (i = -1)) as [->|Hi]; [by left; auto|]. right.
  destruct (al_index_get al a i Hok Ha Hi) as (sl & Hsl & Hne & Hi' & Hget & _).
  exists i, sl. split_and!; [done..|lia|done|].
  assert (∀ x : res Empty_set (accessList * (bool * bool)), match i with -1 => x | _ =>
      slotmap ← go_index (slots al) i;
      if decide (s ∈ slotmap) then Ok (al, (false, false)) else
      sl ← go_set (slots al) i ({[s]} ∪ slotmap);
      Ok (mk_accessList (addresses al) sl, (false, true)) end =
      Ok (if decide (s ∈ sl) then (al, (false, false))
          else (mk_accessList (addresses al) (<[Z.to_nat i := {[s]} ∪ sl]> (slots al)), (false, true)))) as ->; [|done].
  intros x. rewrite Hget. cbn [mbind res_bind]. rewrite (go_set_ok (slots al) i) by done. cbn [mbind res_bind].
  destruct (decide (s ∈ sl)); destruct i as [|p|[]]; done || lia.
Qed.

Lemma len_slots_index al a i : al_ok al → addresses al !! a = Some i → i < len (slots al).
Proof.
  intros Hok Ha. destruct (decide (i = -1)) as [->|Hi]; [pose proof (len_nonneg (slots al)); lia|].
  destruct (al_index_get al a i Hok Ha Hi) as (? & ? & ? & ? & ?). lia.
Qed.

(** A first slot: a new set at the end. *)
Definition al_grow a s al : accessList :=
  mk_accessList (<[a := len (slots al)]> (addresses al)) (slots al ++ [{[s]}]).
(** A further slot: the set at [i] grows. *)
Definition al_extend (i : Z) s sl al : accessList :=
  mk_accessList (addresses al) (<[Z.to_nat i := {[s]} ∪ sl]> (slots al)).

Lemma al_grow_ok al a s : al_ok al → al_ok (al_grow a s al).
Proof.
  intros Hok. split; cbn.
  - intros b i Hb Hi. apply lookup_insert_Some in Hb as [[<- <-]|[_ Hb]].
    + split; [apply len_nonneg|]. exists {[s]}. split; [|set_solver].
      unfold len. rewrite Nat2Z.id. by rewrite list_lookup_middle.
    + destruct (al_index _ Hok b i Hb Hi) as (? & sl & Hsl & Hne). split; [done|]. exists sl. split; [|done].
      by apply lookup_app_l_Some.
  - intros b c i Hb Hc Hi. apply lookup_insert_Some in Hb as [[<- <-]|[Hn Hb]];
      apply lookup_insert_Some in Hc as [[<- Hl]|[Hn' Hc]]; [done| | |by apply (al_inj _ Hok b c i)].
    + apply len_slots_index in Hc; [lia|done].
    + apply len_slots_index in Hb; [lia|done].
Qed.

Lemma al_grow_map al a s : al_ok al → al_map al !!! a = ∅ →
  al_map (al_grow a s al) = <[a := {[s]} ∪ al_map al !!! a]> (al_map al).
Proof.
  intros Hok Ha. rewrite Ha. apply map_eq. intros b. rewrite al_map_lookup, lookup_insert. cbn [addresses al_grow].
  rewrite lookup_insert. destruct (decide (a = b)) as [<-|Hn].
  - cbn. f_equal. unfold al_set. cbn [slots al_grow]. pose proof (len_nonneg (slots al)).
    rewrite (proj2 (Z.eqb_neq _ _)) by lia. unfold len. rewrite Nat2Z.id, list_lookup_middle by done. set_solver.
  - rewrite al_map_lookup. destruct (addresses al !! b) as [i|] eqn:Hb; [|done]. cbn. f_equal.
    unfold al_set. cbn [slots al_grow]. destruct (Z.eqb_spec i (-1)) as [|Hi]; [done|].
    destruct (al_index _ Hok b i Hb Hi) as (? & sl & Hsl & Hne).
    by rewrite Hsl, (lookup_app_l_Some _ _ _ _ Hsl).
Qed.

Lemma al_extend_ok al i s sl : al_ok al → 0 ≤ i → slots al !! Z.to_nat i = Some sl → al_ok (al_extend i s sl al).
Proof.
  intros Hok Hi0 Hsl. split; cbn; [|apply (al_inj _ Hok)]. intros b j Hb Hj.
  destruct (al_index _ Hok b j Hb Hj) as (? & sl' & Hsl' & Hne'). split; [done|].
  destruct (decide (j = i)) as [->|Hij].
  - exists ({[s]} ∪ sl). split; [|set_solver]. apply list_lookup_insert_eq. by apply lookup_lt_Some in Hsl.
  - exists sl'. split; [|done]. rewrite list_lookup_insert_ne; [done|lia].
Qed.

Lemma al_extend_map al a i s sl :
  al_ok al → addresses al !! a = Some i → i ≠ -1 → 0 ≤ i → slots al !! Z.to_nat i = Some sl →
  al_map (al_extend i s sl al) = <[a := {[s]} ∪ sl]> (al_map al).
Proof.
  intros Hok Ha Hi Hi0 Hsl. apply map_eq. intros b. rewrite al_map_lookup, lookup_insert. cbn [addresses al_extend].
  destruct (decide (a = b)) as [<-|Hn].
  - rewrite Ha. cbn. f_equal. unfold al_set. rewrite (proj2 (Z.eqb_neq i (-1))) by done. cbn [slots al_extend].
    by rewrite list_lookup_insert_eq by (by apply lookup_lt_Some in Hsl).
  - rewrite al_map_lookup. destruct (addresses al !! b) as [j|] eqn:Hb; [|done]. cbn. f_equal.
    unfold al_set. cbn [slots al_extend]. destruct (Z.eqb_spec j (-1)) as [|Hj]; [done|].
    rewrite list_lookup_insert_ne; [done|]. intros Hij. apply Hn, (al_inj _ Hok a b i Ha); [|done].
    rewrite Hb. f_equal. destruct (al_index _ Hok b j Hb Hj) as (? & _). lia.
Qed.

Lemma AddSlot_spec al a s : al_ok al →
  ∃ al' ac sc, AddSlot a s al = Ok (al', (ac, sc)) ∧ al_ok al' ∧
    al_map al' = <[a := {[s]} ∪ al_map al !!! a]> (al_map al) ∧
    ac = negb (bool_decide (is_Some (al_map al !! a))) ∧ sc = negb (bool_decide (s ∈ al_map al !!! a)).
Proof.
  intros Hok. destruct (AddSlot_cases al a s Hok) as [[Ha ->]|(i & sl & Ha & Hi & Hsl & Hi0 & Hne & ->)].
  - assert (al_map al !!! a = ∅) as Hm.
    { unfold lookup_total, map_lookup_total. rewrite al_map_lookup. by destruct Ha as [->| ->]. }
    exists (al_grow a s al). eexists _, _. split; [reflexivity|]. split_and!.
    + by apply al_grow_ok.
    + by apply al_grow_map.
    + rewrite al_map_lookup. by destruct Ha as [->| ->].
    + rewrite Hm. by rewrite bool_decide_eq_false_2 by set_solver.
  - assert (al_map al !! a = Some sl) as Hm.
    { rewrite al_map_lookup, Ha. cbn. f_equal. unfold al_set. by rewrite (proj2 (Z.eqb_neq i (-1))), Hsl. }
    unfold lookup_total, map_lookup_total. rewrite Hm. cbn [default from_option]. destruct (decide (s ∈ sl)) as [Hin|Hin].
    + exists al, false, false. split_and!; [done..| |done|by rewrite bool_decide_eq_true_2].
      symmetry. apply insert_id. rewrite Hm. f_equal. cbn. set_solver.
    + exists (al_extend i s sl al), false, true. split_and!; [done| | |done|by rewrite bool_decide_eq_false_2].
      * by apply al_extend_ok.
      * by apply al_extend_map.
Qed.

(** ** The deletions of the journal *)

Lemma AddAddress_undo al a :
  snd (AddAddress a al) = true → DeleteAddress a (fst (AddAddress a al)) = al.
Proof.
  unfold AddAddress, DeleteAddress. destruct (addresses al !! a) eqn:Ha; [done|]. intros _. cbn.
  rewrite delete_insert_id by done. by destruct al.
Qed.

Lemma AddSlot_undo al a s al' ac :
  al_ok al → AddSlot a s al = Ok (al', (ac, true)) →
  DeleteSlot a s al' = Ok (if ac then fst (AddAddress a al) else al) ∧ (ac = true → snd (AddAddress a al) = true).
Proof.
  intros Hok. destruct (AddSlot_cases al a s Hok) as [[Ha ->]|(i & sl & Ha & Hi & Hsl & Hi0 & Hne & ->)].
  - intros [= <- <-]. unfold DeleteSlot. cbn. rewrite lookup_insert_eq. unfold len.
    rewrite (go_index_ok _ _ {[s]}) by (lia || by rewrite Nat2Z.id, list_lookup_middle). cbn.
    rewrite go_set_ok by (unfold len; rewrite length_app; cbn; lia). cbn.
    rewrite Nat2Z.id, insert_app_r_alt, Nat.sub_diag by lia. cbn. rewrite difference_diag_L, decide_True by done.
    rewrite go_slice_ok by (unfold len; rewrite ?length_app; cbn; lia). cbn.
    change (Z.to_nat 0) with 0%nat. rewrite Z.sub_0_r, Nat2Z.id, drop_0, take_app_length, insert_insert_eq.
    destruct al as [ad sls]; unfold AddAddress; cbn in *. destruct Ha as [Ha|Ha]; rewrite Ha; cbn; [done|].
    by rewrite insert_id.
  - destruct (decide (s ∈ sl)) as [Hin|Hin]; intros [= <- <-]. unfold DeleteSlot. cbn. rewrite Ha.
    assert (Z.to_nat i < length (slots al))%nat as Hlt by (by apply lookup_lt_Some in Hsl).
    rewrite (go_index_ok _ _ ({[s]} ∪ sl)) by (lia || by rewrite list_lookup_insert_eq). cbn.
    rewrite go_set_ok by (unfold len; rewrite length_insert; lia). cbn. rewrite list_insert_insert_eq.
    assert (({[s]} ∪ sl) ∖ {[s]} = sl) as -> by set_solver.
    rewrite decide_False by (intros ?%size_empty_inv; set_solver).
    rewrite list_insert_id by done. by destruct al.
Qed.

(** The access list implements a finite map from addresses to sets of slots:
    membership queries, [AddAddress] and [AddSlot] act on that map and report
    exactly whether they changed it, no index is out of range, and the deletions
    that the journal applies undo the additions exactly. *)
Theorem access_list_refines al a s :
  al_ok al →
  Contains al a s = Ok (bool_decide (is_Some (al_map al !! a)), bool_decide (s ∈ al_map al !!! a)) ∧
  (al_ok (fst (AddAddress a al)) ∧ al_map (fst (AddAddress a al)) = <[a := al_map al !!! a]> (al_map al) ∧
   (snd (AddAddress a al) = true ↔ al_map al !! a = None) ∧
   (snd (AddAddress a al) = true → DeleteAddress a (fst (AddAddress a al)) = al)) ∧
  ∃ al' ac sc, AddSlot a s al = Ok (al', (ac, sc)) ∧ al_ok al' ∧
    al_map al' = <[a := {[s]} ∪ al_map al !!! a]> (al_map al) ∧
    ac = negb (bool_decide (is_Some (al_map al !! a))) ∧ sc = negb (bool_decide (s ∈ al_map al !!! a)) ∧
    (sc = true → ∃ al1, DeleteSlot a s al' = Ok al1 ∧ (if ac then DeleteAddress a al1 else al1) = al).
Proof.
  intros Hok. split; [by apply Contains_spec|]. split.
  - split; [by apply AddAddress_ok|]. split; [apply AddAddress_map|]. split; [|apply AddAddress_undo].
    rewrite al_map_lookup. unfold AddAddress. by destruct (addresses al !! a).
  - destruct (AddSlot_spec al a s Hok) as (al' & ac & sc & He & Hok' & Hm & Hac & Hsc).
    exists al', ac, sc. split_and!; [done..|]. intros ->.
    destruct (AddSlot_undo al a s al' ac Hok He) as [Hd Hadd]. eexists. split; [exact Hd|].
    clear Hac. destruct ac; [by apply AddAddress_undo, Hadd|done].
Qed.
Definition example_list : accessList := mk_accessList {[1 := -1; 2 := 0]} [{[7]}].
Lemma access_list_refines_witness :
  Contains example_list 2 7 = Ok (true, true) ∧
  ∃ al', AddSlot 1 9 example_list = Ok (al', (false, true)) ∧ DeleteSlot 1 9 al' = Ok example_list.
Proof.
  destruct (access_list_refines example_list 2 7) as [H1 _].
  { split; cbn.
    - intros a i Ha Hi. apply lookup_insert_Some in Ha as [[_ <-]|[_ Ha]]; [done|].
      apply lookup_singleton_Some in Ha as [_ <-]. split; [done|]. exists {[7]}. split; [done|set_solver].
    - intros a b i Ha Hb Hi. apply lookup_insert_Some in Ha as [[_ <-]|[_ Ha]]; [done|].
      apply lookup_insert_Some in Hb as [[_ <-]|[_ Hb]]; [done|].
      apply lookup_singleton_Some in Ha as [<- _]. by apply lookup_singleton_Some in Hb as [<- _]. }
  split; [exact H1|]. eexists. split; vm_compute; reflexivity.
Defined.
