(* ===== verification/StateDb.v ===== *)
(** * Accounts, journal and state database
    (src/geth/core/state: state_object.go, journal.go, statedb.go)

    [StateDB] keeps the accounts touched since the last commit in memory, over
    a snapshot layer or an account trie, and records every change in a journal
    so that it can be undone.  Addresses and hashes are their big-endian values.
    Objects are reached through the map [stateObjects] only, and an object that
    a journal entry holds is no longer in that map, so objects are kept by value.
    The journal is flattened into the fields [entries] and [dirties].

    The tries, the code store and the snapshot layer are parameters ([Database],
    [Snap]); the trie prefetcher is taken to be absent and metrics are left out. *)
From stdpp Require Import gmap.
From S2P Require Import Prelude RlpBase RlpRaw RlpEncode RlpStream RlpStruct StateAccess.

(** ** Interfaces *)

(** [state.Database] and [state.Trie]: [T] is the type of tries, [E] of their
    errors.  Reading a trie may load nodes into it. *)
Class Database (T E : Type) := {
  OpenTrie : Z → E + T;
  OpenStorageTrie : Z → Z → E + T;
  ContractCode : Z → Z → E + bytes;
  ContractCodeSize : Z → Z → E + Z;
  tr_TryGet : bytes → T → T * (E + bytes);
  tr_TryUpdate : bytes → bytes → T → T * option E;
  tr_TryDelete : bytes → T → T * option E;
  tr_Hash : T → T * Z;
  Keccak256 : bytes → Z
}.

(** [snapshot.Account] and [snapshot.Snapshot]; a nil slice is []. *)
Record SnapAccount := mk_SnapAccount { sa_Nonce : Z; sa_Balance : Z; sa_Root : bytes; sa_CodeHash : bytes }.
Record Snap (E : Type) := mk_Snap {
  snap_Account : Z → E + option SnapAccount;
  snap_Storage : Z → Z → E + bytes
}.
Arguments mk_Snap {E} _ _.
Arguments snap_Account {E} _ _.
Arguments snap_Storage {E} _ _ _.

(** The errors memoised by [setError]. *)
Inductive db_err (E : Type) :=
| ErrDB (e : E)
| ErrStorageTrie (e : E)      (* can't create storage trie *)
| ErrLoadCode (e : E)         (* can't load code hash *)
| ErrLoadCodeSize (e : E)     (* can't load code size *)
| ErrGetDeleted (e : E)       (* getDeleteStateObject error *)
| ErrUpdate (e : E)           (* updateStateObject error *)
| ErrDelete (e : E)           (* deleteStateObject error *)
| ErrRlp (e : rlp_err).
Arguments ErrDB {E} _.
Arguments ErrStorageTrie {E} _.
Arguments ErrLoadCode {E} _.
Arguments ErrLoadCodeSize {E} _.
Arguments ErrGetDeleted {E} _.
Arguments ErrUpdate {E} _.
Arguments ErrDelete {E} _.
Arguments ErrRlp {E} _.

Definition setErr {E} (err : db_err E) (old : option (db_err E)) : option (db_err E) :=
  match old with None => Some err | Some _ => old end.

(** ** Hashes and bytes *)

Definition HashLength : Z := 32.
(** [common.BytesToHash] and [SetBytes] on a zero hash: longer input is cropped
    from the left. *)
Definition BytesToHash (b : bytes) : Z :=
  be_val (if HashLength <? len b then drop (Z.to_nat (len b - HashLength)) b else b).
Definition hash_bytes (h : Z) : bytes := be_bytes 32 h.
Definition address_bytes (a : Z) : bytes := be_bytes 20 a.
Fixpoint TrimLeftZeroes (s : bytes) : bytes :=
  match s with
  | b :: s' => if b =? 0 then TrimLeftZeroes s' else s
  | [] => []
  end.

(** [common.HexToHash("56e8...b421")], the root of the empty trie. *)
Definition emptyRoot : Z := 0x56e81f171bcc55a6ff8345e692c0f86e5b48e01b996cadc001622fb5e363b421.
(** [ripemd], the address whose touch survives a revert. *)
Definition ripemd : Z := 3.

(** ** Accounts as stored in the trie (core/types/state_account.go) *)

(** [Balance] and [CodeHash] may be nil. *)
Record StateAccount := mk_StateAccount {
  acc_Nonce : Z; acc_Balance : option Z; acc_Root : Z; acc_CodeHash : option bytes
}.

(** What [makeStructWriter] writes for an account. *)
Definition account_gval (nonce balance root : Z) (codehash : bytes) : gval :=
  VStruct [(false, false, VUint nonce); (false, false, VBigIntPtr (Some balance));
           (false, false, VByteArray (hash_bytes root)); (false, false, VBytes codehash)].

(** [makeStructDecoder] for [types.StateAccount]. *)
Definition decodeStateAccount : S_ StateAccount :=
  decodeStruct
    (nonce ← decodeField (decodeUint 64);
     balance ← decodeField decodeBigInt;
     root ← decodeField (decodeByteArray 32);
     codehash ← decodeField decodeBytes;
     mret (mk_StateAccount nonce (Some balance) (be_val root) (Some codehash))).

(** [snapshot.SlimAccountRLP]: empty root and code hash become empty strings. *)
Definition slim_gval (emptyCodeHash : bytes) (nonce balance root : Z) (codehash : bytes) : gval :=
  VStruct [(false, false, VUint nonce); (false, false, VBigIntPtr (Some balance));
           (false, false, VBytes (if root =? emptyRoot then [] else hash_bytes root));
           (false, false, VBytes (if bool_decide (codehash = emptyCodeHash) then [] else codehash))].

(** ** Data *)

Record Log := mk_Log {
  log_Address : Z; log_Topics : list Z; log_Data : bytes; log_BlockNumber : Z;
  log_TxHash : Z; log_TxIndex : Z; log_BlockHash : Z; log_Index : Z; log_Removed : bool
}.

Section state.
Context {T E : Type} `{!Database T E}.

(** [emptyCodeHash = crypto.Keccak256(nil)]. *)
Definition emptyCodeHash : bytes := hash_bytes (Keccak256 (E:=E) []).

(** [stateObject]: the account's [data] is spread over [Nonce], [Balance], [Root] and
    [CodeHash]; an account RLP that was not computed is [Panic]. *)
Record stateObject := mk_stateObject {
  address : Z;
  addrHash : Z;
  Nonce : Z;
  Balance : Z;
  Root : Z;
  CodeHash : bytes;
  o_dbErr : option (db_err E);
  o_trie : option T;
  code : option bytes;
  originStorage : gmap Z Z;
  pendingStorage : gmap Z Z;
  dirtyStorage : gmap Z Z;
  dirtyCode : bool;
  suicided : bool;
  deleted : bool;
  accountRLP : res rlp_err bytes;
  slimAccountRLP : bytes;
  o_snapStorage : option (gmap Z bytes)
}.
Definition set_Nonce (x : Z) (o : stateObject) : stateObject :=
  mk_stateObject (address o) (addrHash o) x (Balance o) (Root o) (CodeHash o) (o_dbErr o) (o_trie o) (code o)
    (originStorage o) (pendingStorage o) (dirtyStorage o) (dirtyCode o) (suicided o) (deleted o) (accountRLP o)
    (slimAccountRLP o) (o_snapStorage o).
Definition set_Balance (x : Z) (o : stateObject) : stateObject :=
  mk_stateObject (address o) (addrHash o) (Nonce o) x (Root o) (CodeHash o) (o_dbErr o) (o_trie o) (code o)
    (originStorage o) (pendingStorage o) (dirtyStorage o) (dirtyCode o) (suicided o) (deleted o) (accountRLP o)
    (slimAccountRLP o) (o_snapStorage o).
Definition set_Root (x : Z) (o : stateObject) : stateObject :=
  mk_stateObject (address o) (addrHash o) (Nonce o) (Balance o) x (CodeHash o) (o_dbErr o) (o_trie o) (code o)
    (originStorage o) (pendingStorage o) (dirtyStorage o) (dirtyCode o) (suicided o) (deleted o) (accountRLP o)
    (slimAccountRLP o) (o_snapStorage o).
Definition set_CodeHash (x : bytes) (o : stateObject) : stateObject :=
  mk_stateObject (address o) (addrHash o) (Nonce o) (Balance o) (Root o) x (o_dbErr o) (o_trie o) (code o)
    (originStorage o) (pendingStorage o) (dirtyStorage o) (dirtyCode o) (suicided o) (deleted o) (accountRLP o)
    (slimAccountRLP o) (o_snapStorage o).
Definition set_o_dbErr (x : option (db_err E)) (o : stateObject) : stateObject :=
  mk_stateObject (address o) (addrHash o) (Nonce o) (Balance o) (Root o) (CodeHash o) x (o_trie o) (code o)
    (originStorage o) (pendingStorage o) (dirtyStorage o) (dirtyCode o) (suicided o) (deleted o) (accountRLP o)
    (slimAccountRLP o) (o_snapStorage o).
Definition set_o_trie (x : option T) (o : stateObject) : stateObject :=
  mk_stateObject (address o) (addrHash o) (Nonce o) (Balance o) (Root o) (CodeHash o) (o_dbErr o) x (code o)
    (originStorage o) (pendingStorage o) (dirtyStorage o) (dirtyCode o) (suicided o) (deleted o) (accountRLP o)
    (slimAccountRLP o) (o_snapStorage o).
Definition set_code (x : option bytes) (o : stateObject) : stateObject :=
  mk_stateObject (address o) (addrHash o) (Nonce o) (Balance o) (Root o) (CodeHash o) (o_dbErr o) (o_trie o) x
    (originStorage o) (pendingStorage o) (dirtyStorage o) (dirtyCode o) (suicided o) (deleted o) (accountRLP o)
    (slimAccountRLP o) (o_snapStorage o).
Definition set_originStorage (x : gmap Z Z) (o : stateObject) : stateObject :=
  mk_stateObject (address o) (addrHash o) (Nonce o) (Balance o) (Root o) (CodeHash o) (o_dbErr o) (o_trie o)
    (code o) x (pendingStorage o) (dirtyStorage o) (dirtyCode o) (suicided o) (deleted o) (accountRLP o)
    (slimAccountRLP o) (o_snapStorage o).
Definition set_pendingStorage (x : gmap Z Z) (o : stateObject) : stateObject :=
  mk_stateObject (address o) (addrHash o) (Nonce o) (Balance o) (Root o) (CodeHash o) (o_dbErr o) (o_trie o)
    (code o) (originStorage o) x (dirtyStorage o) (dirtyCode o) (suicided o) (deleted o) (accountRLP o)
    (slimAccountRLP o) (o_snapStorage o).
Definition set_dirtyStorage (x : gmap Z Z) (o : stateObject) : stateObject :=
  mk_stateObject (address o) (addrHash o) (Nonce o) (Balance o) (Root o) (CodeHash o) (o_dbErr o) (o_trie o)
    (code o) (originStorage o) (pendingStorage o) x (dirtyCode o) (suicided o) (deleted o) (accountRLP o)
    (slimAccountRLP o) (o_snapStorage o).
Definition set_dirtyCode (x : bool) (o : stateObject) : stateObject :=
  mk_stateObject (address o) (addrHash o) (Nonce o) (Balance o) (Root o) (CodeHash o) (o_dbErr o) (o_trie o)
    (code o) (originStorage o) (pendingStorage o) (dirtyStorage o) x (suicided o) (deleted o) (accountRLP o)
    (slimAccountRLP o) (o_snapStorage o).
Definition set_suicided (x : bool) (o : stateObject) : stateObject :=
  mk_stateObject (address o) (addrHash o) (Nonce o) (Balance o) (Root o) (CodeHash o) (o_dbErr o) (o_trie o)
    (code o) (originStorage o) (pendingStorage o) (dirtyStorage o) (dirtyCode o) x (deleted o) (accountRLP o)
    (slimAccountRLP o) (o_snapStorage o).
Definition set_deleted (x : bool) (o : stateObject) : stateObject :=
  mk_stateObject (address o) (addrHash o) (Nonce o) (Balance o) (Root o) (CodeHash o) (o_dbErr o) (o_trie o)
    (code o) (originStorage o) (pendingStorage o) (dirtyStorage o) (dirtyCode o) (suicided o) x (accountRLP o)
    (slimAccountRLP o) (o_snapStorage o).
Definition set_accountRLP (x : res rlp_err bytes) (o : stateObject) : stateObject :=
  mk_stateObject (address o) (addrHash o) (Nonce o) (Balance o) (Root o) (CodeHash o) (o_dbErr o) (o_trie o)
    (code o) (originStorage o) (pendingStorage o) (dirtyStorage o) (dirtyCode o) (suicided o) (deleted o) x
    (slimAccountRLP o) (o_snapStorage o).
Definition set_slimAccountRLP (x : bytes) (o : stateObject) : stateObject :=
  mk_stateObject (address o) (addrHash o) (Nonce o) (Balance o) (Root o) (CodeHash o) (o_dbErr o) (o_trie o)
    (code o) (originStorage o) (pendingStorage o) (dirtyStorage o) (dirtyCode o) (suicided o) (deleted o)
    (accountRLP o) x (o_snapStorage o).
Definition set_o_snapStorage (x : option (gmap Z bytes)) (o : stateObject) : stateObject :=
  mk_stateObject (address o) (addrHash o) (Nonce o) (Balance o) (Root o) (CodeHash o) (o_dbErr o) (o_trie o)
    (code o) (originStorage o) (pendingStorage o) (dirtyStorage o) (dirtyCode o) (suicided o) (deleted o)
    (accountRLP o) (slimAccountRLP o) x.

(** The journal entries. *)
Inductive journalEntry :=
| createObjectChange (account : Z)
| resetObjectChange (prev : stateObject) (prevdestruct : bool)
| suicideChange (account : Z) (prev : bool) (prevbalance : Z)
| balanceChange (account : Z) (prev : Z)
| nonceChange (account : Z) (prev : Z)
| storageChange (account : Z) (key prevalue : Z)
| codeChange (account : Z) (prevcode : option bytes) (prevhash : bytes)
| refundChange (prev : Z)
| addLogChange (txhash : Z)
| addPreimageChange (hash : Z)
| touchChange (account : Z)
| accessListAddAccountChange (address : Z)
| accessListAddSlotChange (address slot : Z)
| eraseChange (account : Z) (prevcode : option bytes) (prevhash : bytes) (prevroot : Z).

(** [StateDB]; a nil map is [None] where writing to it would panic. *)
Record StateDB := mk_StateDB {
  trie : T;
  originalRoot : Z;
  snap : option (Snap E);
  snapDestructs : gset Z;
  snapAccounts : gmap Z bytes;
  snapStorage : gmap Z (gmap Z bytes);
  stateObjects : gmap Z stateObject;
  stateObjectsPending : gset Z;
  stateObjectsDirty : gset Z;
  stateObjectsDestruct : option (gset Z);
  dbErr : option (db_err E);
  refund : Z;
  thash : Z;
  txIndex : Z;
  logs : gmap Z (list Log);
  logSize : Z;
  preimages : gmap Z bytes;
  access : accessList;
  entries : list journalEntry;
  dirties : gmap Z Z;
  validRevisions : list (Z * Z);
  nextRevisionId : Z
}.
Definition set_trie (x : T) (d : StateDB) : StateDB :=
  mk_StateDB x (originalRoot d) (snap d) (snapDestructs d) (snapAccounts d) (snapStorage d) (stateObjects d)
    (stateObjectsPending d) (stateObjectsDirty d) (stateObjectsDestruct d) (dbErr d) (refund d) (thash d)
    (txIndex d) (logs d) (logSize d) (preimages d) (access d) (entries d) (dirties d) (validRevisions d)
    (nextRevisionId d).
Definition set_snap (x : option (Snap E)) (d : StateDB) : StateDB :=
  mk_StateDB (trie d) (originalRoot d) x (snapDestructs d) (snapAccounts d) (snapStorage d) (stateObjects d)
    (stateObjectsPending d) (stateObjectsDirty d) (stateObjectsDestruct d) (dbErr d) (refund d) (thash d)
    (txIndex d) (logs d) (logSize d) (preimages d) (access d) (entries d) (dirties d) (validRevisions d)
    (nextRevisionId d).
Definition set_snapDestructs (x : gset Z) (d : StateDB) : StateDB :=
  mk_StateDB (trie d) (originalRoot d) (snap d) x (snapAccounts d) (snapStorage d) (stateObjects d)
    (stateObjectsPending d) (stateObjectsDirty d) (stateObjectsDestruct d) (dbErr d) (refund d) (thash d)
    (txIndex d) (logs d) (logSize d) (preimages d) (access d) (entries d) (dirties d) (validRevisions d)
    (nextRevisionId d).
Definition set_snapAccounts (x : gmap Z bytes) (d : StateDB) : StateDB :=
  mk_StateDB (trie d) (originalRoot d) (snap d) (snapDestructs d) x (snapStorage d) (stateObjects d)
    (stateObjectsPending d) (stateObjectsDirty d) (stateObjectsDestruct d) (dbErr d) (refund d) (thash d)
    (txIndex d) (logs d) (logSize d) (preimages d) (access d) (entries d) (dirties d) (validRevisions d)
    (nextRevisionId d).
Definition set_snapStorage (x : gmap Z (gmap Z bytes)) (d : StateDB) : StateDB :=
  mk_StateDB (trie d) (originalRoot d) (snap d) (snapDestructs d) (snapAccounts d) x (stateObjects d)
    (stateObjectsPending d) (stateObjectsDirty d) (stateObjectsDestruct d) (dbErr d) (refund d) (thash d)
    (txIndex d) (logs d) (logSize d) (preimages d) (access d) (entries d) (dirties d) (validRevisions d)
    (nextRevisionId d).
Definition set_stateObjects (x : gmap Z stateObject) (d : StateDB) : StateDB :=
  mk_StateDB (trie d) (originalRoot d) (snap d) (snapDestructs d) (snapAccounts d) (snapStorage d) x
    (stateObjectsPending d) (stateObjectsDirty d) (stateObjectsDestruct d) (dbErr d) (refund d) (thash d)
    (txIndex d) (logs d) (logSize d) (preimages d) (access d) (entries d) (dirties d) (validRevisions d)
    (nextRevisionId d).
Definition set_stateObjectsPending (x : gset Z) (d : StateDB) : StateDB :=
  mk_StateDB (trie d) (originalRoot d) (snap d) (snapDestructs d) (snapAccounts d) (snapStorage d) (stateObjects
    d) x (stateObjectsDirty d) (stateObjectsDestruct d) (dbErr d) (refund d) (thash d) (txIndex d) (logs d)
    (logSize d) (preimages d) (access d) (entries d) (dirties d) (validRevisions d) (nextRevisionId d).
Definition set_stateObjectsDirty (x : gset Z) (d : StateDB) : StateDB :=
  mk_StateDB (trie d) (originalRoot d) (snap d) (snapDestructs d) (snapAccounts d) (snapStorage d) (stateObjects
    d) (stateObjectsPending d) x (stateObjectsDestruct d) (dbErr d) (refund d) (thash d) (txIndex d) (logs d)
    (logSize d) (preimages d) (access d) (entries d) (dirties d) (validRevisions d) (nextRevisionId d).
Definition set_stateObjectsDestruct (x : option (gset Z)) (d : StateDB) : StateDB :=
  mk_StateDB (trie d) (originalRoot d) (snap d) (snapDestructs d) (snapAccounts d) (snapStorage d) (stateObjects
    d) (stateObjectsPending d) (stateObjectsDirty d) x (dbErr d) (refund d) (thash d) (txIndex d) (logs d)
    (logSize d) (preimages d) (access d) (entries d) (dirties d) (validRevisions d) (nextRevisionId d).
Definition set_dbErr (x : option (db_err E)) (d : StateDB) : StateDB :=
  mk_StateDB (trie d) (originalRoot d) (snap d) (snapDestructs d) (snapAccounts d) (snapStorage d) (stateObjects
    d) (stateObjectsPending d) (stateObjectsDirty d) (stateObjectsDestruct d) x (refund d) (thash d) (txIndex d)
    (logs d) (logSize d) (preimages d) (access d) (entries d) (dirties d) (validRevisions d) (nextRevisionId d).
Definition set_refund (x : Z) (d : StateDB) : StateDB :=
  mk_StateDB (trie d) (originalRoot d) (snap d) (snapDestructs d) (snapAccounts d) (snapStorage d) (stateObjects
    d) (stateObjectsPending d) (stateObjectsDirty d) (stateObjectsDestruct d) (dbErr d) x (thash d) (txIndex d)
    (logs d) (logSize d) (preimages d) (access d) (entries d) (dirties d) (validRevisions d) (nextRevisionId d).
Definition set_thash (x : Z) (d : StateDB) : StateDB :=
  mk_StateDB (trie d) (originalRoot d) (snap d) (snapDestructs d) (snapAccounts d) (snapStorage d) (stateObjects
    d) (stateObjectsPending d) (stateObjectsDirty d) (stateObjectsDestruct d) (dbErr d) (refund d) x (txIndex d)
    (logs d) (logSize d) (preimages d) (access d) (entries d) (dirties d) (validRevisions d) (nextRevisionId d).
Definition set_txIndex (x : Z) (d : StateDB) : StateDB :=
  mk_StateDB (trie d) (originalRoot d) (snap d) (snapDestructs d) (snapAccounts d) (snapStorage d) (stateObjects
    d) (stateObjectsPending d) (stateObjectsDirty d) (stateObjectsDestruct d) (dbErr d) (refund d) (thash d) x
    (logs d) (logSize d) (preimages d) (access d) (entries d) (dirties d) (validRevisions d) (nextRevisionId d).
Definition set_logs (x : gmap Z (list Log)) (d : StateDB) : StateDB :=
  mk_StateDB (trie d) (originalRoot d) (snap d) (snapDestructs d) (snapAccounts d) (snapStorage d) (stateObjects
    d) (stateObjectsPending d) (stateObjectsDirty d) (stateObjectsDestruct d) (dbErr d) (refund d) (thash d)
    (txIndex d) x (logSize d) (preimages d) (access d) (entries d) (dirties d) (validRevisions d)
    (nextRevisionId d).
Definition set_logSize (x : Z) (d : StateDB) : StateDB :=
  mk_StateDB (trie d) (originalRoot d) (snap d) (snapDestructs d) (snapAccounts d) (snapStorage d) (stateObjects
    d) (stateObjectsPending d) (stateObjectsDirty d) (stateObjectsDestruct d) (dbErr d) (refund d) (thash d)
    (txIndex d) (logs d) x (preimages d) (access d) (entries d) (dirties d) (validRevisions d) (nextRevisionId
    d).
Definition set_preimages (x : gmap Z bytes) (d : StateDB) : StateDB :=
  mk_StateDB (trie d) (originalRoot d) (snap d) (snapDestructs d) (snapAccounts d) (snapStorage d) (stateObjects
    d) (stateObjectsPending d) (stateObjectsDirty d) (stateObjectsDestruct d) (dbErr d) (refund d) (thash d)
    (txIndex d) (logs d) (logSize d) x (access d) (entries d) (dirties d) (validRevisions d) (nextRevisionId d).
Definition set_access (x : accessList) (d : StateDB) : StateDB :=
  mk_StateDB (trie d) (originalRoot d) (snap d) (snapDestructs d) (snapAccounts d) (snapStorage d) (stateObjects
    d) (stateObjectsPending d) (stateObjectsDirty d) (stateObjectsDestruct d) (dbErr d) (refund d) (thash d)
    (txIndex d) (logs d) (logSize d) (preimages d) x (entries d) (dirties d) (validRevisions d) (nextRevisionId
    d).
Definition set_entries (x : list journalEntry) (d : StateDB) : StateDB :=
  mk_StateDB (trie d) (originalRoot d) (snap d) (snapDestructs d) (snapAccounts d) (snapStorage d) (stateObjects
    d) (stateObjectsPending d) (stateObjectsDirty d) (stateObjectsDestruct d) (dbErr d) (refund d) (thash d)
    (txIndex d) (logs d) (logSize d) (preimages d) (access d) x (dirties d) (validRevisions d) (nextRevisionId
    d).
Definition set_dirties (x : gmap Z Z) (d : StateDB) : StateDB :=
  mk_StateDB (trie d) (originalRoot d) (snap d) (snapDestructs d) (snapAccounts d) (snapStorage d) (stateObjects
    d) (stateObjectsPending d) (stateObjectsDirty d) (stateObjectsDestruct d) (dbErr d) (refund d) (thash d)
    (txIndex d) (logs d) (logSize d) (preimages d) (access d) (entries d) x (validRevisions d) (nextRevisionId
    d).
Definition set_validRevisions (x : list (Z * Z)) (d : StateDB) : StateDB :=
  mk_StateDB (trie d) (originalRoot d) (snap d) (snapDestructs d) (snapAccounts d) (snapStorage d) (stateObjects
    d) (stateObjectsPending d) (stateObjectsDirty d) (stateObjectsDestruct d) (dbErr d) (refund d) (thash d)
    (txIndex d) (logs d) (logSize d) (preimages d) (access d) (entries d) (dirties d) x (nextRevisionId d).
Definition set_nextRevisionId (x : Z) (d : StateDB) : StateDB :=
  mk_StateDB (trie d) (originalRoot d) (snap d) (snapDestructs d) (snapAccounts d) (snapStorage d) (stateObjects
    d) (stateObjectsPending d) (stateObjectsDirty d) (stateObjectsDestruct d) (dbErr d) (refund d) (thash d)
    (txIndex d) (logs d) (logSize d) (preimages d) (access d) (entries d) (dirties d) (validRevisions d) x.

Abbreviation M := (st StateDB Empty_set).
Implicit Types (o : stateObject) (d : StateDB).

(** ** stateObject (state_object.go) *)

Definition obj_empty o : bool :=
  (Nonce o =? 0) && (Balance o =? 0) && bool_decide (CodeHash o = emptyCodeHash).

Definition newObject (addr : Z) (data : StateAccount) : stateObject :=
  mk_stateObject addr (Keccak256 (E:=E) (address_bytes addr))
    (acc_Nonce data) (default 0 (acc_Balance data))
    (if acc_Root data =? 0 then emptyRoot else acc_Root data) (default emptyCodeHash (acc_CodeHash data))
    None None None ∅ ∅ ∅ false false false (Panic runtime_error) [] None.

Definition obj_setError (err : db_err E) o : stateObject := set_o_dbErr (setErr err (o_dbErr o)) o.

(** [getTrie]; the result is nil when not even the empty trie can be opened. *)
Definition getTrie o : stateObject * option T :=
  match o_trie o with
  | Some t => (o, Some t)
  | None =>
      match OpenStorageTrie (addrHash o) (Root o) with
      | inr t => (set_o_trie (Some t) o, Some t)
      | inl err =>
          let t := match OpenStorageTrie (E:=E) (addrHash o) 0 with inr t => Some t | inl _ => None end in
          (obj_setError (ErrStorageTrie err) (set_o_trie t o), t)
      end
  end.

(** The encoded slot found in the snapshot layer, if there is one and it can be
    read, and the slot found in the storage trie. *)
Definition snap_slot d o (key : Z) : option bytes :=
  match snap d with
  | None => None
  | Some sn =>
      match snap_Storage sn (addrHash o) (Keccak256 (E:=E) (hash_bytes key)) with
      | inr enc => Some enc
      | inl _ => None
      end
  end.
Definition trie_slot o (key : Z) : res Empty_set (stateObject * (E + bytes)) :=
  let '(o, t) := getTrie o in
  match t with
  | None => Panic runtime_error
  | Some t => let '(t, r) := tr_TryGet (hash_bytes key) t in Ok (set_o_trie (Some t) o, r)
  end.

Definition is_destructed d o : bool :=
  match snap d with Some _ => bool_decide (addrHash o ∈ snapDestructs d) | None => false end.

(** The end of [GetCommittedState]: decode the slot and cache it. *)
Definition cache_slot o (key : Z) (enc : bytes) : res Empty_set (stateObject * Z) :=
  '(o, value) ←
    (if 0 <? len enc then
       match Split enc with
       | Ok (_, content, _) => Ok (o, BytesToHash content)
       | Err err => Ok (obj_setError (ErrRlp err) o, BytesToHash [])
       | Panic p => Panic p
       | OutOfFuel => OutOfFuel
       end
     else Ok (o, 0));
  Ok (set_originStorage (<[key := value]> (originStorage o)) o, value).

Definition obj_GetCommittedState d o (key : Z) : res Empty_set (stateObject * Z) :=
  match pendingStorage o !! key with
  | Some value => Ok (o, value)
  | None =>
      match originStorage o !! key with
      | Some value => Ok (o, value)
      | None =>
          if is_destructed d o then Ok (o, 0) else
          '(o, enc) ← match snap_slot d o key with Some enc => Ok (o, inr enc) | None => trie_slot o key end;
          match enc with
          | inl err => Ok (obj_setError (ErrDB err) o, 0)
          | inr enc => cache_slot o key enc
          end
      end
  end.

Definition obj_GetState d o (key : Z) : res Empty_set (stateObject * Z) :=
  match dirtyStorage o !! key with
  | Some value => Ok (o, value)
  | None => obj_GetCommittedState d o key
  end.

Definition obj_setState (key value : Z) o : stateObject :=
  set_dirtyStorage (<[key := value]> (dirtyStorage o)) o.

(** [finalise]; the loop copies every dirty slot into the pending ones. *)
Definition obj_finalise o : stateObject :=
  let o := set_pendingStorage (map_fold (λ key value p, <[key := value]> p) (pendingStorage o) (dirtyStorage o)) o in
  if decide (base.size (dirtyStorage o) = 0%nat) then o else set_dirtyStorage ∅ o.

Definition obj_Code o : stateObject * option bytes :=
  match code o with
  | Some c => (o, Some c)
  | None =>
      if bool_decide (CodeHash o = emptyCodeHash) then (o, None) else
      match ContractCode (addrHash o) (BytesToHash (CodeHash o)) with
      | inr c => (set_code (Some c) o, Some c)
      | inl err => (set_code None (obj_setError (ErrLoadCode err) o), None)
      end
  end.

Definition obj_CodeSize o : stateObject * Z :=
  match code o with
  | Some c => (o, len c)
  | None =>
      if bool_decide (CodeHash o = emptyCodeHash) then (o, 0) else
      match ContractCodeSize (addrHash o) (BytesToHash (CodeHash o)) with
      | inr size => (o, size)
      | inl err => (obj_setError (ErrLoadCodeSize err) o, 0)
      end
  end.

Definition obj_setCode (codeHash : Z) (c : option bytes) o : stateObject :=
  set_dirtyCode true (set_CodeHash (hash_bytes codeHash) (set_code c o)).

Definition revertErase (codeHash : Z) (c : option bytes) (root : Z) o : stateObject :=
  set_dirtyCode true (fst (getTrie (set_Root root (set_CodeHash (hash_bytes codeHash) (set_code c o))))).

(** ** journal (journal.go) *)

Definition dirtied (ch : journalEntry) : option Z :=
  match ch with
  | createObjectChange a | suicideChange a _ _ | balanceChange a _ | nonceChange a _ | storageChange a _ _
  | codeChange a _ _ | touchChange a | eraseChange a _ _ _ => Some a
  | resetObjectChange _ _ | refundChange _ | addLogChange _ | addPreimageChange _
  | accessListAddAccountChange _ | accessListAddSlotChange _ _ => None
  end.

(** [journal.dirty] and the counting part of [append]. *)
Definition journal_dirty (addr : Z) : M unit := st_modify (λ d,
  set_dirties (<[addr := default 0 (dirties d !! addr) + 1]> (dirties d)) d).

Definition journal_append (entry : journalEntry) : M unit :=
  st_modify (λ d, set_entries (entries d ++ [entry]) d) ≫= λ _,
  match dirtied entry with Some addr => journal_dirty addr | None => mret tt end.

(** The counting part of [journal.revert]. *)
Definition journal_undirty (addr : Z) : M unit := st_modify (λ d,
  let n := default 0 (dirties d !! addr) - 1 in
  set_dirties (if n =? 0 then delete addr (dirties d) else <[addr := n]> (dirties d)) d).

(** ** Reading accounts (statedb.go) *)

Definition setStateObject o : M unit := st_modify (λ d,
  set_stateObjects (<[address o := o]> (stateObjects d)) d).

Definition setError (err : db_err E) : M unit := st_modify (λ d, set_dbErr (setErr err (dbErr d)) d).

(** The account of a snapshot entry. *)
Definition snap_data (acc : SnapAccount) : StateAccount :=
  mk_StateAccount (sa_Nonce acc) (Some (sa_Balance acc))
    (let root := BytesToHash (sa_Root acc) in if root =? 0 then emptyRoot else root)
    (Some (if len (sa_CodeHash acc) =? 0 then emptyCodeHash else sa_CodeHash acc)).

(** [snap.Account]: [None] when there is no snapshot or it fails. *)
Definition snap_account d (addr : Z) : option (option SnapAccount) :=
  match snap d with
  | None => None
  | Some sn =>
      match snap_Account sn (Keccak256 (E:=E) (address_bytes addr)) with
      | inr acc => Some acc
      | inl _ => None
      end
  end.

(** The account of the trie; failures to read or to decode it are absence. *)
Definition trie_account (addr : Z) : M (option StateAccount) :=
  d ← st_get;
  let '(t, r) := tr_TryGet (address_bytes addr) (trie d) in
  st_put (set_trie t d) ≫= λ _,
  match r with
  | inl err => setError (ErrGetDeleted err) ≫= λ _, mret None
  | inr enc =>
      if len enc =? 0 then mret None else
      match DecodeBytes_with decodeStateAccount enc with
      | Ok data => mret (Some data)
      | Err _ => mret None
      | Panic p => st_panic p
      | OutOfFuel => λ s, (s, OutOfFuel)
      end
  end.

Definition getDeletedStateObject (addr : Z) : M (option stateObject) :=
  d ← st_get;
  match stateObjects d !! addr with
  | Some o => mret (Some o)
  | None =>
      data ← match snap_account d addr with
             | Some acc => mret (option_map snap_data acc)
             | None => trie_account addr
             end;
      match data with
      | None => mret None
      | Some data => let o := newObject addr data in setStateObject o ≫= λ _, mret (Some o)
      end
  end.

Definition getStateObject (addr : Z) : M (option stateObject) :=
  o ← getDeletedStateObject addr;
  mret (match o with Some o => if deleted o then None else Some o | None => None end).

(** Runs a pure operation of the object at [addr], if there is one, and keeps
    what it did to the object. *)
Definition with_object {A} (addr : Z) (default : A) (f : StateDB → stateObject → res Empty_set (stateObject * A)) : M A :=
  r ← getStateObject addr;
  match r with
  | None => mret default
  | Some o => d ← st_get; '(o, a) ← st_lift (f d o); setStateObject o ≫= λ _, mret a
  end.

Definition Exist (addr : Z) : M bool := o ← getStateObject addr; mret (bool_decide (is_Some o)).
Definition Empty (addr : Z) : M bool :=
  o ← getStateObject addr; mret (match o with Some o => obj_empty o | None => true end).
Definition GetBalance (addr : Z) : M Z :=
  o ← getStateObject addr; mret (match o with Some o => Balance o | None => 0 end).
Definition GetNonce (addr : Z) : M Z :=
  o ← getStateObject addr; mret (match o with Some o => Nonce o | None => 0 end).
Definition GetCode (addr : Z) : M (option bytes) := with_object addr None (λ _ o, Ok (obj_Code o)).
Definition GetCodeSize (addr : Z) : M Z := with_object addr 0 (λ _ o, Ok (obj_CodeSize o)).
Definition GetCodeHash (addr : Z) : M Z :=
  o ← getStateObject addr; mret (match o with Some o => BytesToHash (CodeHash o) | None => 0 end).
Definition GetState (addr hash : Z) : M Z := with_object addr 0 (λ d o, obj_GetState d o hash).
Definition GetCommittedState (addr hash : Z) : M Z := with_object addr 0 (λ d o, obj_GetCommittedState d o hash).
Definition HasSuicided (addr : Z) : M bool :=
  o ← getStateObject addr; mret (match o with Some o => suicided o | None => false end).
Definition GetRefund : M Z := d ← st_get; mret (refund d).
Definition TxIndex : M Z := d ← st_get; mret (txIndex d).
Definition Error : M (option (db_err E)) := d ← st_get; mret (dbErr d).
Definition Preimages : M (gmap Z bytes) := d ← st_get; mret (preimages d).

(** ** Changing accounts *)

Definition createObject (addr : Z) : M (stateObject * option stateObject) :=
  prev ← getDeletedStateObject addr;
  d ← st_get;
  let prevdestruct := match prev with Some p => is_destructed d p | None => false end in
  (match prev, snap d with
   | Some p, Some _ =>
       if prevdestruct then mret tt else st_put (set_snapDestructs ({[addrHash p]} ∪ snapDestructs d) d)
   | _, _ => mret tt
   end) ≫= λ _,
  let newobj := newObject addr (mk_StateAccount 0 None 0 None) in
  journal_append (match prev with
                  | None => createObjectChange addr
                  | Some p => resetObjectChange p prevdestruct
                  end) ≫= λ _,
  setStateObject newobj ≫= λ _,
  mret (newobj, match prev with Some p => if deleted p then None else Some p | None => None end).

Definition CreateAccount (addr : Z) : M unit :=
  '(newobj, prev) ← createObject addr;
  match prev with
  | Some p => setStateObject (set_Balance (Balance p) newobj)
  | None => mret tt
  end.

Definition GetOrNewStateObject (addr : Z) : M stateObject :=
  o ← getStateObject addr;
  match o with
  | Some o => mret o
  | None => '(newobj, _) ← createObject addr; mret newobj
  end.

Definition obj_touch o : M unit :=
  journal_append (touchChange (address o)) ≫= λ _,
  if address o =? ripemd then journal_dirty (address o) else mret tt.

Definition obj_SetBalance o (amount : Z) : M unit :=
  journal_append (balanceChange (address o) (Balance o)) ≫= λ _, setStateObject (set_Balance amount o).
Definition obj_AddBalance o (amount : Z) : M unit :=
  if amount =? 0 then (if obj_empty o then obj_touch o else mret tt)
  else obj_SetBalance o (Balance o + amount).
Definition obj_SubBalance o (amount : Z) : M unit :=
  if amount =? 0 then (if obj_empty o then obj_touch o else mret tt)
  else obj_SetBalance o (Balance o - amount).
Definition obj_SetNonce o (nonce : Z) : M unit :=
  journal_append (nonceChange (address o) (Nonce o)) ≫= λ _, setStateObject (set_Nonce nonce o).
Definition obj_SetCode o (codeHash : Z) (c : bytes) : M unit :=
  let '(o, prevcode) := obj_Code o in
  journal_append (codeChange (address o) prevcode (CodeHash o)) ≫= λ _,
  setStateObject (obj_setCode codeHash (Some c) o).
Definition obj_SetState o (key value : Z) : M unit :=
  d ← st_get;
  '(o, prev) ← st_lift (obj_GetState d o key);
  setStateObject o ≫= λ _,
  if prev =? value then mret tt else
  journal_append (storageChange (address o) key prev) ≫= λ _, setStateObject (obj_setState key value o).
Definition obj_erase o : M unit :=
  let '(o, prevcode) := obj_Code o in
  journal_append (eraseChange (address o) prevcode (CodeHash o) (Root o)) ≫= λ _,
  setStateObject (set_dirtyCode true (set_o_trie None (set_Root emptyRoot (set_CodeHash emptyCodeHash
    (set_code (Some []) o))))).

Definition AddBalance (addr amount : Z) : M unit := o ← GetOrNewStateObject addr; obj_AddBalance o amount.
Definition SubBalance (addr amount : Z) : M unit := o ← GetOrNewStateObject addr; obj_SubBalance o amount.
Definition SetBalance (addr amount : Z) : M unit := o ← GetOrNewStateObject addr; obj_SetBalance o amount.
Definition SetNonce (addr nonce : Z) : M unit := o ← GetOrNewStateObject addr; obj_SetNonce o nonce.
Definition SetCode (addr : Z) (c : bytes) : M unit :=
  o ← GetOrNewStateObject addr; obj_SetCode o (Keccak256 (E:=E) c) c.
Definition SetState (addr key value : Z) : M unit := o ← GetOrNewStateObject addr; obj_SetState o key value.

Fixpoint set_slots (o : stateObject) (storage : list (Z * Z)) : M unit :=
  match storage with
  | [] => mret tt
  | (k, v) :: storage =>
      obj_SetState o k v ≫= λ _, d ← st_get;
      set_slots (default o (stateObjects d !! address o)) storage
  end.
(** [SetStorage]; the slots in the order in which the map is iterated. *)
Definition SetStorage (addr : Z) (storage : list (Z * Z)) : M unit :=
  d ← st_get;
  match stateObjectsDestruct d with
  | None => st_panic runtime_error
  | Some s =>
      st_put (set_stateObjectsDestruct (Some ({[addr]} ∪ s)) d) ≫= λ _,
      o ← GetOrNewStateObject addr; set_slots o storage
  end.

Definition Suicide (addr : Z) : M bool :=
  r ← getStateObject addr;
  match r with
  | None => mret false
  | Some o =>
      journal_append (suicideChange addr (suicided o) (Balance o)) ≫= λ _,
      setStateObject (set_Balance 0 (set_suicided true o)) ≫= λ _, mret true
  end.

Definition Erase (addr : Z) : M bool :=
  r ← getStateObject addr;
  match r with None => mret false | Some o => obj_erase o ≫= λ _, mret true end.

(** ** Logs, preimages, refunds and the access list *)

Definition AddLog (log : Log) : M unit :=
  d ← st_get;
  journal_append (addLogChange (thash d)) ≫= λ _,
  st_modify (λ d,
    let log := mk_Log (log_Address log) (log_Topics log) (log_Data log) (log_BlockNumber log)
                 (thash d) (u64 (txIndex d)) (log_BlockHash log) (logSize d) (log_Removed log) in
    set_logSize (u64 (logSize d + 1))
      (set_logs (<[thash d := default [] (logs d !! thash d) ++ [log]]> (logs d)) d)).

(** [GetLogs] stores the block hash in the logs it returns. *)
Definition GetLogs (hash blockHash : Z) : M (list Log) :=
  d ← st_get;
  match logs d !! hash with
  | None => mret []
  | Some l =>
      let l := map (λ g, mk_Log (log_Address g) (log_Topics g) (log_Data g) (log_BlockNumber g)
                          (log_TxHash g) (log_TxIndex g) blockHash (log_Index g) (log_Removed g)) l in
      st_put (set_logs (<[hash := l]> (logs d)) d) ≫= λ _, mret l
  end.

Definition AddPreimage (hash : Z) (preimage : bytes) : M unit :=
  d ← st_get;
  match preimages d !! hash with
  | Some _ => mret tt
  | None =>
      journal_append (addPreimageChange hash) ≫= λ _,
      st_modify (λ d, set_preimages (<[hash := preimage]> (preimages d)) d)
  end.

Definition AddRefund (gas : Z) : M unit :=
  d ← st_get;
  journal_append (refundChange (refund d)) ≫= λ _, st_modify (λ d, set_refund (u64 (refund d + gas)) d).
Definition SubRefund (gas : Z) : M unit :=
  d ← st_get;
  journal_append (refundChange (refund d)) ≫= λ _,
  if refund d <? gas then st_panic (raised "Refund counter below zero") else st_modify (λ d, set_refund (refund d - gas) d).

Definition AddAddressToAccessList (addr : Z) : M unit :=
  d ← st_get;
  let '(al, added) := AddAddress addr (access d) in
  st_put (set_access al d) ≫= λ _,
  if added then journal_append (accessListAddAccountChange addr) else mret tt.
Definition AddSlotToAccessList (addr slot : Z) : M unit :=
  d ← st_get;
  '(al, (addrMod, slotMod)) ← st_lift (AddSlot addr slot (access d));
  st_put (set_access al d) ≫= λ _,
  (if (addrMod : bool) then journal_append (accessListAddAccountChange addr) else mret tt) ≫= λ _,
  if (slotMod : bool) then journal_append (accessListAddSlotChange addr slot) else mret tt.
Definition AddressInAccessList (addr : Z) : M bool := d ← st_get; mret (ContainsAddress (access d) addr).
Definition SlotInAccessList (addr slot : Z) : M (bool * bool) := d ← st_get; st_lift (Contains (access d) addr slot).

Fixpoint for_each {A} (f : A → M unit) (l : list A) : M unit :=
  match l with [] => mret tt | x :: l => f x ≫= λ _, for_each f l end.

Definition PrepareAccessList (sender : Z) (dst : option Z) (precompiles : list Z) (al : list (Z * list Z)) : M unit :=
  AddAddressToAccessList sender ≫= λ _,
  (match dst with Some dst => AddAddressToAccessList dst | None => mret tt end) ≫= λ _,
  for_each AddAddressToAccessList precompiles ≫= λ _,
  for_each (λ el, AddAddressToAccessList (fst el) ≫= λ _, for_each (AddSlotToAccessList (fst el)) (snd el)) al.

Definition Prepare (h ti : Z) : M unit :=
  st_modify (λ d, set_access newAccessList (set_txIndex ti (set_thash h d))).

(** ** Undoing *)

(** The object a journal entry refers to; a missing one is a nil dereference. *)
Definition update_object (addr : Z) (f : stateObject → stateObject) : M unit :=
  r ← getStateObject addr;
  match r with None => st_panic runtime_error | Some o => setStateObject (f o) end.

Definition revert_log (txhash : Z) : M unit :=
  d ← st_get;
  let l := default [] (logs d !! txhash) in
  (if len l =? 1 then st_put (set_logs (delete txhash (logs d)) d)
   else l' ← st_lift (go_slice l 0 (len l - 1)); st_put (set_logs (<[txhash := l']> (logs d)) d)) ≫= λ _,
  st_modify (λ d, set_logSize (u64 (logSize d - 1)) d).

Definition entry_revert (ch : journalEntry) : M unit :=
  match ch with
  | createObjectChange a => st_modify (λ d,
      set_stateObjectsDirty (stateObjectsDirty d ∖ {[a]}) (set_stateObjects (delete a (stateObjects d)) d))
  | resetObjectChange prev prevdestruct =>
      setStateObject prev ≫= λ _,
      d ← st_get;
      if negb prevdestruct && bool_decide (is_Some (snap d))
      then st_put (set_snapDestructs (snapDestructs d ∖ {[addrHash prev]}) d) else mret tt
  | suicideChange a prev prevbalance =>
      r ← getStateObject a;
      match r with
      | Some o => setStateObject (set_Balance prevbalance (set_suicided prev o))
      | None => mret tt
      end
  | touchChange _ => mret tt
  | balanceChange a prev => update_object a (set_Balance prev)
  | nonceChange a prev => update_object a (set_Nonce prev)
  | codeChange a prevcode prevhash => update_object a (obj_setCode (BytesToHash prevhash) prevcode)
  | storageChange a key prevalue => update_object a (obj_setState key prevalue)
  | refundChange prev => st_modify (set_refund prev)
  | addLogChange txhash => revert_log txhash
  | addPreimageChange hash => st_modify (λ d, set_preimages (delete hash (preimages d)) d)
  | accessListAddAccountChange a => st_modify (λ d, set_access (DeleteAddress a (access d)) d)
  | accessListAddSlotChange a slot =>
      d ← st_get; al ← st_lift (DeleteSlot a slot (access d)); st_put (set_access al d)
  | eraseChange a prevcode prevhash prevroot =>
      update_object a (revertErase (BytesToHash prevhash) prevcode prevroot)
  end.

(** One round of the loop of [journal.revert]. *)
Definition undo (ch : journalEntry) : M unit :=
  entry_revert ch ≫= λ _, match dirtied ch with Some addr => journal_undirty addr | None => mret tt end.

Definition journal_revert (snapshot : Z) : M unit :=
  d ← st_get;
  for_each undo (reverse (drop (Z.to_nat snapshot) (entries d))) ≫= λ _,
  d ← st_get;
  es ← st_lift (go_slice (entries d) 0 snapshot);
  st_put (set_entries es d).

Definition Snapshot : M Z :=
  d ← st_get;
  let id := nextRevisionId d in
  st_put (set_validRevisions (validRevisions d ++ [(id, len (entries d))]) (set_nextRevisionId (id + 1) d)) ≫= λ _,
  mret id.

Definition RevertToSnapshot (revid : Z) : M unit :=
  d ← st_get;
  let idx := sort_Search (len (validRevisions d))
               (λ i, match validRevisions d !! Z.to_nat i with Some r => revid <=? fst r | None => true end) in
  match validRevisions d !! Z.to_nat idx with
  | Some (id, snapshot) =>
      if negb (id =? revid) then st_panic (raised "revision cannot be reverted") else
      journal_revert snapshot ≫= λ _,
      d ← st_get; rs ← st_lift (go_slice (validRevisions d) 0 idx); st_put (set_validRevisions rs d)
  | None => st_panic (raised "revision cannot be reverted")
  end.

(** ** The end of a transaction *)

Definition clearJournalAndRefund : M unit := st_modify (λ d,
  set_validRevisions [] (if 0 <? len (entries d) then set_refund 0 (set_dirties ∅ (set_entries [] d)) else d)).

Definition finalise_account (deleteEmptyObjects : bool) (addr : Z) : M unit :=
  d ← st_get;
  match stateObjects d !! addr with
  | None => mret tt
  | Some o =>
      (if suicided o || (deleteEmptyObjects && obj_empty o) then
         setStateObject (set_deleted true o) ≫= λ _,
         (match snap d with
          | Some _ => st_modify (λ d,
              set_snapStorage (delete (addrHash o) (snapStorage d))
                (set_snapAccounts (delete (addrHash o) (snapAccounts d))
                   (set_snapDestructs ({[addrHash o]} ∪ snapDestructs d) d)))
          | None => mret tt
          end)
       else setStateObject (obj_finalise o)) ≫= λ _ : unit,
      st_modify (λ d, set_stateObjectsDirty ({[addr]} ∪ stateObjectsDirty d)
                        (set_stateObjectsPending ({[addr]} ∪ stateObjectsPending d) d))
  end.

Definition Finalise (deleteEmptyObjects : bool) : M unit :=
  d ← st_get;
  for_each (finalise_account deleteEmptyObjects) (map fst (map_to_list (dirties d))) ≫= λ _,
  clearJournalAndRefund.
End state.
