(* ===== verification/StateJournal.v ===== *)
(** * Undoing changes of the state database (src/geth/core/state)

    Two states are equivalent when no getter can tell them apart: they may
    differ in what has been loaded from the database so far.  Every operation
    that runs inside a transaction extends the journal by entries whose undoing
    leads back to an equivalent state, so [RevertToSnapshot] restores the state
    at the snapshot. *)
From stdpp Require Import gmap.
From S2P Require Import Prelude RlpBase RlpRaw RlpStream StateAccess StateDb.

(** What the state database relies on: reading a trie changes only what is
    loaded, the size of a code is the length of that code, and the hashes of two
    addresses differ. *)
Class DatabaseLaws (T E : Type) `{!Database T E} := {
  tr_val : T → bytes → E + bytes;
  TryGet_answer k t : snd (tr_TryGet k t) = tr_val t k;
  TryGet_keeps k t k' : tr_val (fst (tr_TryGet k t)) k' = tr_val t k';
  ContractCodeSize_len h c :
    match ContractCode (E:=E) h c with
    | inr code => ContractCodeSize h c = inr (len code)
    | inl _ => ∃ e, ContractCodeSize h c = inl e
    end;
  Keccak_address x y : bytes_ok x → bytes_ok y → len x = 20 → len y = 20 → Keccak256 (E:=E) x = Keccak256 (E:=E) y → x = y
}.

Definition is_addr (a : Z) : Prop := 0 ≤ a < 2 ^ 160.

Lemma address_bytes_inj a b : is_addr a → is_addr b → address_bytes a = address_bytes b → a = b.
Proof.
  unfold is_addr, address_bytes. intros Ha Hb Heq. apply (f_equal be_val) in Heq.
  rewrite !be_val_be_bytes in Heq. change (8 * Z.of_nat 20) with 160 in Heq. by rewrite !Z.mod_small in Heq by lia.
Qed.

(** A hash of 32 bytes comes back from its value. *)
Definition hash_ok (h : bytes) : Prop := len h = 32 ∧ bytes_ok h.
Lemma hash_bytes_ok h : hash_ok (hash_bytes h).
Proof. split; [apply len_be_bytes|apply be_bytes_ok]. Qed.
Lemma hash_bytes_BytesToHash h : hash_ok h → hash_bytes (BytesToHash h) = h.
Proof.
  intros [Hl Hb]. unfold BytesToHash, hash_bytes. rewrite Hl. cbn [Z.ltb HashLength Z.compare].
  replace 32%nat with (length h) by (unfold len in Hl; lia). by apply be_bytes_be_val.
Qed.

Section journal.
Context {T E : Type} `{!Database T E, !DatabaseLaws T E}.
Abbreviation stateObject := (@stateObject T E).
Abbreviation StateDB := (@StateDB T E).
Abbreviation M := (st StateDB Empty_set).
Implicit Types (o : stateObject) (d e : StateDB) (a k v : Z).

(** ** What the getters can see *)

Definition loaded_data d a : res Empty_set (option StateAccount) :=
  match snap_account d a with
  | Some acc => Ok (option_map (snap_data (E:=E)) acc)
  | None =>
      match tr_val (trie d) (address_bytes a) with
      | inl _ => Ok None
      | inr enc =>
          if len enc =? 0 then Ok None else
          match DecodeBytes_with decodeStateAccount enc with
          | Ok data => Ok (Some data)
          | Err _ => Ok None
          | Panic p => Panic p
          | OutOfFuel => OutOfFuel
          end
      end
  end.
Definition account_of d a : res Empty_set (option stateObject) :=
  match stateObjects d !! a with
  | Some o => Ok (Some o)
  | None => data ← loaded_data d a; Ok (option_map (newObject a) data)
  end.

Definition slot_answer d o k : res Empty_set (E + bytes) :=
  match snap_slot d o k with
  | Some enc => Ok (inr enc)
  | None => match snd (getTrie o) with Some t => Ok (tr_val t (hash_bytes k)) | None => Panic runtime_error end
  end.
Definition slot_value (r : E + bytes) : res Empty_set Z :=
  match r with
  | inl _ => Ok 0
  | inr enc =>
      if 0 <? len enc then
        match Split enc with
        | Ok (_, content, _) => Ok (BytesToHash content)
        | Err _ => Ok (BytesToHash [])
        | Panic p => Panic p
        | OutOfFuel => OutOfFuel
        end
      else Ok 0
  end.
Definition committed d o k : res Empty_set Z :=
  match pendingStorage o !! k with
  | Some v => Ok v
  | None =>
      match originStorage o !! k with
      | Some v => Ok v
      | None => if is_destructed d o then Ok 0 else r ← slot_answer d o k; slot_value r
      end
  end.
Definition current d o k : res Empty_set Z :=
  match dirtyStorage o !! k with Some v => Ok v | None => committed d o k end.

Record obj_equiv d o1 o2 : Prop := {
  oe_address : address o1 = address o2;
  oe_addrHash : addrHash o1 = addrHash o2;
  oe_Nonce : Nonce o1 = Nonce o2;
  oe_Balance : Balance o1 = Balance o2;
  oe_Root : Root o1 = Root o2;
  oe_CodeHash : CodeHash o1 = CodeHash o2;
  oe_suicided : suicided o1 = suicided o2;
  oe_deleted : deleted o1 = deleted o2;
  oe_Code : snd (obj_Code o1) = snd (obj_Code o2);
  oe_committed k : committed d o1 k = committed d o2 k;
  oe_current k : current d o1 k = current d o2 k
}.

Definition acc_equiv d (x y : res Empty_set (option stateObject)) : Prop :=
  match x, y with
  | Ok (Some o1), Ok (Some o2) => obj_equiv d o1 o2
  | Ok None, Ok None => True
  | Panic p, Panic q => p = q
  | OutOfFuel, OutOfFuel => True
  | _, _ => False
  end.

Record state_equiv d1 d2 : Prop := {
  se_snap : snap d1 = snap d2;
  se_destructs : snapDestructs d1 = snapDestructs d2;
  se_snapAccounts : snapAccounts d1 = snapAccounts d2;
  se_snapStorage : snapStorage d1 = snapStorage d2;
  se_pending : stateObjectsPending d1 = stateObjectsPending d2;
  se_trie (x : bytes) : tr_val (trie d1) x = tr_val (trie d2) x;
  se_account a : is_addr a → acc_equiv d2 (account_of d1 a) (account_of d2 a);
  se_refund : refund d1 = refund d2;
  se_thash : thash d1 = thash d2;
  se_txIndex : txIndex d1 = txIndex d2;
  se_logs h : default [] (logs d1 !! h) = default [] (logs d2 !! h);
  se_logSize : logSize d1 = logSize d2;
  se_preimages : preimages d1 = preimages d2;
  se_access : access d1 = access d2
}.

Lemma obj_equiv_refl d o : obj_equiv d o o.
Proof. by split. Qed.
Lemma obj_equiv_sym d o1 o2 : obj_equiv d o1 o2 → obj_equiv d o2 o1.
Proof. intros []. by split. Qed.
Lemma obj_equiv_trans d o1 o2 o3 : obj_equiv d o1 o2 → obj_equiv d o2 o3 → obj_equiv d o1 o3.
Proof. intros [] []. split; try congruence; intros; by etrans. Qed.

(** Only the snapshot layer and the destruction of the object matter. *)
Lemma committed_env d e o k :
  snap d = snap e → is_destructed d o = is_destructed e o → committed d o k = committed e o k.
Proof. intros Hs Hd. unfold committed, slot_answer, snap_slot. by rewrite Hs, Hd. Qed.
Lemma obj_equiv_env d e o1 o2 :
  snap d = snap e → is_destructed d o2 = is_destructed e o2 → obj_equiv d o1 o2 → obj_equiv e o1 o2.
Proof.
  intros Hs Hd []. assert (is_destructed d o1 = is_destructed e o1) as Hd1.
  { revert Hd. unfold is_destructed. by rewrite oe_addrHash0. }
  assert (∀ k, committed e o1 k = committed e o2 k) as Hc.
  { intros k. rewrite <-(committed_env d e o1 k), <-(committed_env d e o2 k) by done. done. }
  split; try done. intros k. specialize (oe_current0 k). unfold current in *.
  by rewrite <-(committed_env d e o1 k), <-(committed_env d e o2 k).
Qed.

Lemma is_destructed_same d e o : snap d = snap e → snapDestructs d = snapDestructs e → is_destructed d o = is_destructed e o.
Proof. intros Hs Hd. unfold is_destructed. by rewrite Hs, Hd. Qed.

Lemma acc_equiv_env d e x y : snap d = snap e → snapDestructs d = snapDestructs e → acc_equiv d x y → acc_equiv e x y.
Proof.
  intros Hs Hd. destruct x as [[o1|]| | |], y as [[o2|]| | |]; try done. apply obj_equiv_env; [done|].
  by apply is_destructed_same.
Qed.

#[export] Instance state_equiv_equivalence : Equivalence state_equiv.
Proof.
  split.
  - intros d. split; try done. intros a _. unfold acc_equiv. destruct (account_of d a) as [[|]|[]| |]; try done.
  - intros d1 d2 []. split; try done. intros a Ha. apply acc_equiv_env with d2; try done.
    specialize (se_account0 a Ha). unfold acc_equiv in *.
    destruct (account_of d1 a) as [[|]| | |], (account_of d2 a) as [[|]| | |]; try done. by apply obj_equiv_sym.
  - intros d1 d2 d3 [] []. split; try congruence. intros a Ha.
    assert (acc_equiv d3 (account_of d1 a) (account_of d2 a)) as H1 by (apply acc_equiv_env with d2; auto).
    assert (acc_equiv d3 (account_of d2 a) (account_of d3 a)) as H2 by auto. unfold acc_equiv in *.
    destruct (account_of d1 a) as [[|]| | |], (account_of d2 a) as [[|]| | |], (account_of d3 a) as [[|]| | |]; try done.
    + by apply obj_equiv_trans with s0.
    + congruence.
Qed.

(** ** Loading is invisible *)

(** The fields that storage and code are read from. *)
Definition same_storage o1 o2 : Prop :=
  pendingStorage o1 = pendingStorage o2 ∧ originStorage o1 = originStorage o2 ∧
  dirtyStorage o1 = dirtyStorage o2 ∧ addrHash o1 = addrHash o2 ∧ o_trie o1 = o_trie o2 ∧ Root o1 = Root o2.
Definition same_code o1 o2 : Prop :=
  code o1 = code o2 ∧ CodeHash o1 = CodeHash o2 ∧ addrHash o1 = addrHash o2.

Lemma getTrie_same o1 o2 : o_trie o1 = o_trie o2 → addrHash o1 = addrHash o2 → Root o1 = Root o2 →
  snd (getTrie o1) = snd (getTrie o2).
Proof.
  intros Ht Ha Hr. unfold getTrie. rewrite Ht, Ha, Hr. destruct (o_trie o2); [done|].
  by destruct (OpenStorageTrie _ (Root o2)).
Qed.
Lemma same_storage_committed d o1 o2 k : same_storage o1 o2 → committed d o1 k = committed d o2 k.
Proof.
  intros (Hp & Ho & _ & Ha & Ht & Hr). unfold committed, slot_answer, snap_slot, is_destructed.
  by rewrite Hp, Ho, Ha, (getTrie_same o1 o2 Ht Ha Hr).
Qed.
Lemma same_storage_current d o1 o2 k : same_storage o1 o2 → current d o1 k = current d o2 k.
Proof. intros Hs. unfold current. rewrite (same_storage_committed d o1 o2 k Hs). by destruct Hs as (_&_&->&_). Qed.
Lemma same_code_Code o1 o2 : same_code o1 o2 → snd (obj_Code o1) = snd (obj_Code o2).
Proof.
  intros (Hc & Hh & Ha). unfold obj_Code. rewrite Hc, Hh, Ha. destruct (code o2); [done|].
  case_bool_decide; [done|]. by destruct (ContractCode _ _).
Qed.

Lemma obj_Code_fields o : let o' := fst (obj_Code o) in
  same_storage o' o ∧ address o' = address o ∧ Nonce o' = Nonce o ∧ Balance o' = Balance o ∧
  CodeHash o' = CodeHash o ∧ suicided o' = suicided o ∧ deleted o' = deleted o ∧
  code o' = snd (obj_Code o).
Proof.
  unfold obj_Code. destruct (code o) eqn:Hc; [done|]. case_bool_decide; [done|].
  by destruct (ContractCode _ _).
Qed.
Lemma obj_Code_again o : snd (obj_Code (fst (obj_Code o))) = snd (obj_Code o).
Proof.
  destruct (obj_Code_fields o) as ((_&_&_&Ha&_) & _ & _ & _ & Hh & _ & _ & Hc).
  destruct (snd (obj_Code o)) as [c|] eqn:Hs.
  - unfold obj_Code at 1. by rewrite Hc.
  - revert Hs. unfold obj_Code at 1 2. rewrite Hc, Hh, Ha. destruct (code o) eqn:Hco; [done|].
    case_bool_decide; [done|]. by destruct (ContractCode _ _).
Qed.
Lemma obj_Code_equiv d o : obj_equiv d (fst (obj_Code o)) o.
Proof.
  destruct (obj_Code_fields o) as (Hs & ? & ? & ? & ? & ? & ? & ?). pose proof Hs as (_&_&_&?&_&?).
  split; try done; [apply obj_Code_again|intros k..].
  - by apply same_storage_committed.
  - by apply same_storage_current.
Qed.

(** The size of the code is the length of the code. *)
Lemma obj_CodeSize_len o : snd (obj_CodeSize o) = match snd (obj_Code o) with Some c => len c | None => 0 end.
Proof.
  unfold obj_CodeSize, obj_Code. destruct (code o); [done|]. case_bool_decide; [done|].
  pose proof (ContractCodeSize_len (addrHash o) (BytesToHash (CodeHash o))) as Hsz.
  destruct (ContractCode _ _); [destruct Hsz as [? ->]|rewrite Hsz]; done.
Qed.
Lemma obj_CodeSize_equiv d o : obj_equiv d (fst (obj_CodeSize o)) o.
Proof.
  assert (∀ x, obj_equiv d (obj_setError x o) o) as Hx.
  { intros x. split; try done; [by apply same_code_Code|intros k..].
    - by apply same_storage_committed.
    - by apply same_storage_current. }
  unfold obj_CodeSize. destruct (code o); [done|]. case_bool_decide; [done|].
  destruct (ContractCodeSize _ _); [apply Hx|apply obj_equiv_refl].
Qed.

Lemma trie_slot_answer d o k o' r : trie_slot o k = Ok (o', r) →
  (snap_slot d o k = None → slot_answer d o k = Ok r) ∧
  (∀ k', snap_slot d o k' = None → slot_answer d o' k' = slot_answer d o k') ∧
  pendingStorage o' = pendingStorage o ∧ originStorage o' = originStorage o ∧ dirtyStorage o' = dirtyStorage o ∧
  addrHash o' = addrHash o ∧ Root o' = Root o ∧ same_code o' o ∧ address o' = address o ∧ Nonce o' = Nonce o ∧
  Balance o' = Balance o ∧ suicided o' = suicided o ∧ deleted o' = deleted o.
Proof.
  unfold trie_slot, slot_answer, snap_slot. destruct (getTrie o) as [o1 [t|]] eqn:Hg; [|done].
  destruct (tr_TryGet (hash_bytes k) t) as [t' r'] eqn:Ht. intros [= <- <-].
  assert (∀ x, tr_val t' x = tr_val t x) as Hk by (intros x; by rewrite <-(TryGet_keeps (hash_bytes k) t x), Ht).
  assert (r' = tr_val t (hash_bytes k)) as -> by (by rewrite <-TryGet_answer, Ht).
  cbn [snd]. unfold getTrie in *.
  assert (addrHash o1 = addrHash o ∧ pendingStorage o1 = pendingStorage o ∧ originStorage o1 = originStorage o ∧
    dirtyStorage o1 = dirtyStorage o ∧ Root o1 = Root o ∧ same_code o1 o ∧ address o1 = address o ∧ Nonce o1 = Nonce o ∧
    Balance o1 = Balance o ∧ suicided o1 = suicided o ∧ deleted o1 = deleted o) as Hf.
  { destruct (o_trie o); [by injection Hg as <- _|]. destruct (OpenStorageTrie _ (Root o)); by injection Hg as <- _. }
  destruct Hf as (Ha&?&?&?&?&?&?&?&?&?&?). cbn. rewrite Ha. split_and!; try done.
  - by intros ->.
  - intros k' ->. by rewrite Hk.
Qed.

(** Caching the value that was read does not change any value. *)
Lemma cache_equiv d o k o' v :
  (∀ k', committed d o' k' = if decide (k' = k) then Ok v else committed d o k') →
  committed d o k = Ok v → dirtyStorage o' = dirtyStorage o →
  addrHash o' = addrHash o → Root o' = Root o → same_code o' o → address o' = address o →
  Nonce o' = Nonce o → Balance o' = Balance o → suicided o' = suicided o → deleted o' = deleted o →
  obj_equiv d o' o.
Proof.
  intros Hc Hv Hd Ha Hr Hcode. assert (∀ k', committed d o' k' = committed d o k') as Hc'.
  { intros k'. rewrite Hc. by destruct (decide (k' = k)) as [->|]. }
  intros. split; try done; [apply Hcode|by apply same_code_Code|]. intros k'. unfold current. by rewrite Hd, Hc'.
Qed.

Lemma cache_slot_spec o k enc o' v : cache_slot o k enc = Ok (o', v) →
  slot_value (inr enc) = Ok v ∧ ∃ err, o' = set_originStorage (<[k := v]> (originStorage o)) (set_o_dbErr err o).
Proof.
  unfold cache_slot, slot_value. destruct (0 <? len enc).
  - destruct (Split enc) as [[[? c] ?]|err| |]; intros [= <- <-]; (split; [done|]).
    + exists (o_dbErr o). by destruct o.
    + by exists (setErr (ErrRlp err) (o_dbErr o)).
  - intros [= <- <-]. split; [done|]. exists (o_dbErr o). by destruct o.
Qed.

Lemma snap_slot_same d o o' k : addrHash o' = addrHash o → snap_slot d o' k = snap_slot d o k.
Proof. intros Ha. unfold snap_slot. by rewrite Ha. Qed.

Lemma committed_cached d o k v err k' : k' ≠ k →
  committed d (set_originStorage (<[k := v]> (originStorage o)) (set_o_dbErr err o)) k' = committed d o k'.
Proof.
  intros Hk. unfold committed, slot_answer, snap_slot, is_destructed. cbn. rewrite lookup_insert_ne by done.
  by rewrite (getTrie_same _ o).
Qed.

Lemma GetCommittedState_spec d o k o' v : obj_GetCommittedState d o k = Ok (o', v) →
  committed d o k = Ok v ∧ obj_equiv d o' o.
Proof.
  unfold obj_GetCommittedState, committed at 1.
  destruct (pendingStorage o !! k) eqn:Hp; [by intros [= <- <-]|].
  destruct (originStorage o !! k) eqn:Ho; [by intros [= <- <-]|].
  destruct (is_destructed d o) eqn:Hd; [by intros [= <- <-]|].
  destruct (match snap_slot d o k with Some enc => Ok (o, inr enc) | None => trie_slot o k end)
    as [[o1 r]| | |] eqn:Hr; try done. cbn [mbind res_bind].
  assert (slot_answer d o k = Ok r ∧ (∀ k', slot_answer d o1 k' = slot_answer d o k') ∧
    pendingStorage o1 = pendingStorage o ∧ originStorage o1 = originStorage o ∧ dirtyStorage o1 = dirtyStorage o ∧
    addrHash o1 = addrHash o ∧ Root o1 = Root o ∧ same_code o1 o ∧ address o1 = address o ∧ Nonce o1 = Nonce o ∧
    Balance o1 = Balance o ∧ suicided o1 = suicided o ∧ deleted o1 = deleted o)
    as (Hans & Hsame & Hp1 & Ho1 & Hd1 & Ha1 & Hroot & Hcode & Hf).
  { destruct (snap_slot d o k) eqn:Hs.
    - injection Hr as <- <-. unfold slot_answer. by rewrite Hs.
    - destruct (trie_slot_answer d o k o1 r Hr) as (H1 & H2 & Hf). split; [by apply H1|]. split; [|done].
      intros k'. destruct (snap_slot d o k') eqn:Hs'; [|by apply H2].
      unfold slot_answer. by rewrite (snap_slot_same d o o1), Hs' by apply Hf. }
  assert (is_destructed d o1 = false) as Hdes by (unfold is_destructed in *; by rewrite Ha1).
  assert (∀ k', committed d o1 k' = committed d o k') as Hc1
    by (intros k'; unfold committed; by rewrite Hp1, Ho1, Hdes, Hd, Hsame).
  assert (committed d o k = slot_value r) as Hck by (unfold committed; by rewrite Hp, Ho, Hd, Hans).
  rewrite Hans. destruct Hf as (Haddr & Hn & Hb & Hsu & Hde). destruct r as [err|enc].
  - intros [= <- <-]. split; [done|]. apply (cache_equiv d o k _ 0); try done.
    intros k'. rewrite (same_storage_committed d _ o1), Hc1 by done. by destruct (decide (k' = k)) as [->|].
  - intros (Hv & err & ->)%cache_slot_spec. rewrite Hv in Hck. split; [done|].
    apply (cache_equiv d o k _ v); try done. intros k'. destruct (decide (k' = k)) as [->|Hk].
    + unfold committed. cbn. by rewrite Hp1, Hp, lookup_insert_eq.
    + rewrite committed_cached by done. apply Hc1.
Qed.
(** The value, a panic included, is the value the view gives. *)
Definition res_snd {A B} (r : res Empty_set (A * B)) : res Empty_set B := '(_, b) ← r; Ok b.
Lemma GetCommittedState_value d o k : res_snd (obj_GetCommittedState d o k) = committed d o k.
Proof.
  destruct (obj_GetCommittedState d o k) as [[o' v]|[]| |] eqn:Hg; [symmetry; by apply GetCommittedState_spec in Hg as [? _]|..];
    revert Hg; unfold obj_GetCommittedState, committed;
    (destruct (pendingStorage o !! k); [done|]); (destruct (originStorage o !! k); [done|]);
    (destruct (is_destructed d o); [done|]);
    unfold slot_answer, trie_slot; (destruct (snap_slot d o k) as [enc|];
      [|destruct (getTrie o) as [o1 [t|]]; [|by intros Hg; simplify_eq/=]; cbn [snd]; rewrite <-TryGet_answer;
        destruct (tr_TryGet (hash_bytes k) t) as [t' [err|enc]]; [done|]]);
    cbn; unfold cache_slot; (destruct (0 <? len enc); [|done]);
    destruct (Split enc) as [[[? ?] ?]| | |]; intros Hg; by simplify_eq/=.
Qed.
Lemma GetState_value d o k : res_snd (obj_GetState d o k) = current d o k.
Proof. unfold obj_GetState, current. destruct (dirtyStorage o !! k); [done|]. apply GetCommittedState_value. Qed.

Lemma GetState_spec d o k o' v : obj_GetState d o k = Ok (o', v) → current d o k = Ok v ∧ obj_equiv d o' o.
Proof.
  unfold obj_GetState, current. destruct (dirtyStorage o !! k); [by intros [= <- <-]|]. apply GetCommittedState_spec.
Qed.
End journal.
