(* ===== verification/StateUndo.v ===== *)
(** * Every operation of a transaction can be undone (src/geth/core/state)

    [Hist d0 es d] says that undoing the entries [es] one by one, last first,
    leads from every state equivalent to [d] back to states equivalent to [d0].
    The operations extend such histories ([Ext]), reverting shortens them. *)
From stdpp Require Import gmap.
From S2P Require Import Prelude RlpBase RlpRaw RlpStream StateAccess StateDb StateJournal.

Section undo.
Context {T E : Type} `{!Database T E, !DatabaseLaws T E}.
Abbreviation stateObject := (@stateObject T E).
Abbreviation StateDB := (@StateDB T E).
Abbreviation M := (st StateDB Empty_set).
Implicit Types (o : stateObject) (d e : StateDB) (a k v : Z).

(** ** Well-formed states *)

Record inv d : Prop := {
  inv_account a o : is_addr a → account_of d a = Ok (Some o) →
    address o = a ∧ addrHash o = Keccak256 (E:=E) (address_bytes a) ∧ hash_ok (CodeHash o);
  inv_access : al_ok (access d);
  inv_logSize : is_u64 (logSize d)
}.

Lemma inv_equiv d e : state_equiv e d → inv d → inv e.
Proof.
  intros He [Ha Hal Hl]. split; [|by rewrite (se_access _ _ He)|by rewrite (se_logSize _ _ He)].
  intros a o Hr Ho. pose proof (se_account _ _ He a Hr) as Hacc. rewrite Ho in Hacc.
  destruct (account_of d a) as [[o2|]| | |] eqn:Ho2; try done. cbn in Hacc.
  destruct (Ha a o2 Hr Ho2) as (? & ? & ?).
  by rewrite (oe_address _ _ _ Hacc), (oe_addrHash _ _ _ Hacc), (oe_CodeHash _ _ _ Hacc).
Qed.

(** The parts that undoing leaves alone, and the whole journal. *)
Definition frame e d : Prop :=
  entries e = entries d ∧ validRevisions e = validRevisions d ∧ nextRevisionId e = nextRevisionId d.
Lemma frame_refl d : frame d d.
Proof. done. Qed.
Lemma frame_trans d1 d2 d3 : frame d1 d2 → frame d2 d3 → frame d1 d3.
Proof. intros (?&?&?) (?&?&?). split_and!; congruence. Qed.

Lemma account_of_ext d e a :
  stateObjects d !! a = stateObjects e !! a → snap d = snap e →
  (∀ x, tr_val (trie d) x = tr_val (trie e) x) → account_of d a = account_of e a.
Proof. intros Ho Hs Ht. unfold account_of, loaded_data, snap_account. by rewrite Ho, Hs, Ht. Qed.
Lemma account_of_loaded d a o : stateObjects d !! a = Some o → account_of d a = Ok (Some o).
Proof. intros Ho. unfold account_of. by rewrite Ho. Qed.

Definition put o d : StateDB := set_stateObjects (<[address o := o]> (stateObjects d)) d.
Lemma account_of_put o d a :
  account_of (put o d) a = if decide (a = address o) then Ok (Some o) else account_of d a.
Proof.
  unfold account_of. cbn [stateObjects put set_stateObjects]. destruct (decide (a = address o)) as [->|Hn].
  - by rewrite lookup_insert_eq.
  - by rewrite lookup_insert_ne by done.
Qed.

Lemma acc_equiv_refl d x : acc_equiv d x x.
Proof. destruct x as [[|]|[]| |]; cbn; try done. Qed.

(** A state that differs in what is loaded only. *)
Lemma state_equiv_load d e :
  (∀ a, is_addr a → account_of e a = account_of d a) → snap e = snap d → snapDestructs e = snapDestructs d →
  snapAccounts e = snapAccounts d → snapStorage e = snapStorage d → stateObjectsPending e = stateObjectsPending d →
  (∀ x, tr_val (trie e) x = tr_val (trie d) x) → refund e = refund d → thash e = thash d → txIndex e = txIndex d →
  logs e = logs d → logSize e = logSize d → preimages e = preimages d → access e = access d → state_equiv e d.
Proof.
  intros Ha. intros. split; try done; [|congruence]. intros a Hr. rewrite Ha by done. apply acc_equiv_refl.
Qed.

(** ** Reading accounts *)

Lemma trie_account_spec a d :
  stateObjects d !! a = None → snap_account d a = None →
  ∃ d', trie_account a d = (d', loaded_data d a) ∧ state_equiv d' d ∧ frame d' d ∧ stateObjects d' = stateObjects d ∧ dirties d' = dirties d.
Proof.
  intros Ho Hs. unfold trie_account, loaded_data. rewrite Hs.
  unfold mbind, st_bind, st_get. destruct (tr_TryGet (address_bytes a) (trie d)) as [t r] eqn:Ht.
  assert (r = tr_val (trie d) (address_bytes a)) as -> by (by rewrite <-TryGet_answer, Ht).
  assert (∀ x, tr_val t x = tr_val (trie d) x) as Hk
    by (intros x; by rewrite <-(TryGet_keeps (address_bytes a) (trie d) x), Ht).
  assert (∀ err, state_equiv (set_dbErr err (set_trie t d)) d) as Heq.
  { intros err. apply state_equiv_load; try done. intros b _. by apply account_of_ext. }
  assert (state_equiv (set_trie t d) d) as Heq0 by apply (Heq (dbErr d)).
  destruct (tr_val (trie d) (address_bytes a)) as [err|enc]; cbn [st_put].
  - eexists. split; [reflexivity|]. split; [apply Heq|done].
  - destruct (len enc =? 0); [eexists; split; [reflexivity|]; split; [apply Heq0|done]|].
    destruct (DecodeBytes_with decodeStateAccount enc); eexists; (split; [reflexivity|]; split; [apply Heq0|done]).
Qed.

Lemma getDeleted_spec a d :
  ∃ d', getDeletedStateObject a d = (d', account_of d a) ∧ state_equiv d' d ∧ frame d' d ∧ dirties d' = dirties d ∧
        match account_of d a with Ok r => stateObjects d' !! a = r | _ => True end.
Proof.
  unfold getDeletedStateObject, account_of. unfold mbind at 1, st_bind at 1, st_get.
  destruct (stateObjects d !! a) as [o|] eqn:Ho; [by exists d|].
  assert (∃ d1, (match snap_account d a with
                 | Some acc => mret (option_map snap_data acc) | None => trie_account a end) d = (d1, loaded_data d a) ∧
    state_equiv d1 d ∧ frame d1 d ∧ stateObjects d1 = stateObjects d ∧ dirties d1 = dirties d) as (d1 & Hd1 & Heq & Hf & Hso & Hdi).
  { destruct (snap_account d a) as [acc|] eqn:Hs; [|by apply trie_account_spec].
    exists d. unfold loaded_data. by rewrite Hs. }
  unfold mbind at 1, st_bind at 1. rewrite Hd1.
  destruct (loaded_data d a) as [[data|]|[]| |] eqn:Hl; cbn.
  - exists (put (newObject a data) d1). split; [done|].
    split; [|split; [done|split; [done|by unfold put; cbn; rewrite lookup_insert_eq]]].
    transitivity d1; [|done]. apply state_equiv_load; try done. intros b Hb. rewrite account_of_put. cbn.
    destruct (decide (b = a)) as [->|]; [|done]. rewrite (account_of_ext d1 d); [|by rewrite Hso|apply Heq|apply Heq].
    unfold account_of. by rewrite Ho, Hl.
  - exists d1. split_and!; try done. by rewrite Hso.
  - exists d1. done.
  - exists d1. done.
Qed.

(** [getStateObject] on a known account. *)
Lemma getStateObject_spec a d d' r :
  getStateObject a d = (d', Ok r) →
  state_equiv d' d ∧ frame d' d ∧ dirties d' = dirties d ∧
  match r with
  | Some o => account_of d a = Ok (Some o) ∧ stateObjects d' !! a = Some o ∧ deleted o = false
  | None => account_of d a = Ok None ∨ ∃ o, account_of d a = Ok (Some o) ∧ deleted o = true
  end.
Proof.
  unfold getStateObject, mbind, st_bind. destruct (getDeleted_spec a d) as (d1 & -> & Heq & Hf & Hdi & Hso).
  destruct (account_of d a) as [[o|]| | |] eqn:Ho; try done; intros [= <- <-]; (split; [done|]; split; [done|]; split; [done|]).
  - destruct (deleted o) eqn:Hde; [right; by exists o|done].
  - by left.
Qed.
Lemma getStateObject_some a d o :
  account_of d a = Ok (Some o) → deleted o = false →
  ∃ d', getStateObject a d = (d', Ok (Some o)) ∧ state_equiv d' d ∧ frame d' d ∧ stateObjects d' !! a = Some o.
Proof.
  intros Ho Hde. unfold getStateObject, mbind, st_bind. destruct (getDeleted_spec a d) as (d1 & -> & Heq & Hf & Hdi & Hso).
  rewrite Ho in *. exists d1. cbn. by rewrite Hde.
Qed.

(** ** Histories *)

Definition undoes ch d d1 : Prop :=
  ∀ e, state_equiv e d → ∃ e', undo ch e = (e', Ok tt) ∧ state_equiv e' d1 ∧ frame e' e.

Inductive Hist (d0 : StateDB) : list journalEntry → StateDB → Prop :=
| Hist_nil d : state_equiv d d0 → Hist d0 [] d
| Hist_snoc es ch d1 d : Hist d0 es d1 → inv d1 → undoes ch d d1 → Hist d0 (es ++ [ch]) d.

Lemma Hist_equiv d0 es d e : Hist d0 es d → state_equiv e d → Hist d0 es e.
Proof.
  destruct 1 as [d Hd|es ch d1 d Hh Hi Hu]; intros He; [constructor; by transitivity d|].
  apply (Hist_snoc _ _ _ d1); [done..|]. intros e' He'. apply Hu. by transitivity e.
Qed.

(** Undoing the last entries of a history. *)
Lemma Hist_undo d0 es1 es2 d :
  Hist d0 (es1 ++ es2) d → inv d → ∃ d', for_each undo (reverse es2) d = (d', Ok tt) ∧ Hist d0 es1 d' ∧ frame d' d ∧ inv d'.
Proof.
  revert d. induction es2 as [|ch es2 IH] using rev_ind; intros d Hh Hd.
  - exists d. rewrite app_nil_r in Hh. split; [done|]. split; [done|]. by split.
  - rewrite app_assoc in Hh. inversion Hh as [|es ch' d1 d' Hh1 Hi Hu Heq]; [by destruct (es1 ++ es2)|].
    apply app_inj_tail in Heq as [-> ->]. subst d'. destruct (Hu d) as (e & He & Heq & Hf); [done|].
    destruct (IH e) as (d'' & Hr & Hh' & Hf' & Hi'); [by apply Hist_equiv with d1|by apply inv_equiv with d1|].
    exists d''. rewrite reverse_app. cbn [reverse rev_append app for_each].
    unfold mbind, st_bind. rewrite He. split_and!; try done. by apply frame_trans with e.
Qed.

(** ** Extending histories *)

Definition Ext d d' : Prop :=
  inv d' ∧ validRevisions d' = validRevisions d ∧ nextRevisionId d' = nextRevisionId d ∧
  ∃ es, entries d' = entries d ++ es ∧ ∀ d0 es0, Hist d0 es0 d → Hist d0 (es0 ++ es) d'.

Lemma Ext_trans d1 d2 d3 : Ext d1 d2 → Ext d2 d3 → Ext d1 d3.
Proof.
  intros (_ & Hv1 & Hn1 & es1 & He1 & Hh1) (Hi & Hv2 & Hn2 & es2 & He2 & Hh2).
  split; [done|]. split; [congruence|]. split; [congruence|]. exists (es1 ++ es2).
  split; [by rewrite He2, He1, app_assoc|]. intros d0 es0 Hh. rewrite app_assoc. by apply Hh2, Hh1.
Qed.
Lemma Ext_load d d' : inv d → state_equiv d' d → frame d' d → Ext d d'.
Proof.
  intros Hi Heq (He & Hv & Hn). split; [by apply inv_equiv with d|]. split; [done|]. split; [done|].
  exists []. split; [by rewrite app_nil_r|]. intros d0 es0 Hh. rewrite app_nil_r. by apply Hist_equiv with d.
Qed.
Lemma Ext_refl d : inv d → Ext d d.
Proof. intros Hi. by apply Ext_load. Qed.
Lemma Ext_entry ch d d' :
  inv d → inv d' → entries d' = entries d ++ [ch] → validRevisions d' = validRevisions d →
  nextRevisionId d' = nextRevisionId d → undoes ch d' d → Ext d d'.
Proof.
  intros Hi Hi' He Hv Hn Hu. do 3 (split; [done|]). exists [ch]. split; [done|].
  intros d0 es0 Hh. by apply Hist_snoc with d.
Qed.

(** The effect of [journal_append]. *)
Definition logged ch d : StateDB :=
  match dirtied ch with
  | Some a => set_dirties (<[a := default 0 (dirties d !! a) + 1]> (dirties d)) (set_entries (entries d ++ [ch]) d)
  | None => set_entries (entries d ++ [ch]) d
  end.
Lemma journal_append_logged ch d : journal_append ch d = (logged ch d, Ok tt).
Proof. unfold journal_append, logged, mbind, st_bind, st_modify. by destruct (dirtied ch). Qed.
Lemma logged_fields ch d :
  entries (logged ch d) = entries d ++ [ch] ∧ validRevisions (logged ch d) = validRevisions d ∧
  nextRevisionId (logged ch d) = nextRevisionId d ∧ stateObjects (logged ch d) = stateObjects d.
Proof. unfold logged. by destruct (dirtied ch). Qed.
Lemma logged_equiv ch d : state_equiv (logged ch d) d.
Proof.
  unfold logged. destruct (dirtied ch); by apply state_equiv_load.
Qed.

(** Undoing an entry is undoing its change; the counters are not visible. *)
Lemma undoes_intro ch d d1 :
  (∀ e, state_equiv e d → ∃ e', entry_revert ch e = (e', Ok tt) ∧ state_equiv e' d1 ∧ frame e' e) → undoes ch d d1.
Proof.
  intros Hr e He. destruct (Hr e He) as (e' & Hc & Heq & Hf). unfold undo, mbind, st_bind. rewrite Hc.
  destruct (dirtied ch) as [a|]; [|by exists e'].
  unfold journal_undirty, st_modify. eexists. split; [reflexivity|]. split; [|done].
  transitivity e'; [|done]. by apply state_equiv_load.
Qed.

(** ** Changes of one account *)

Lemma put_equiv d e o1 o :
  state_equiv e d → address o1 = address o → stateObjects d !! address o = Some o → obj_equiv d o1 o → state_equiv (put o1 e) d.
Proof.
  intros [] Ha Ho Heq. split; try done. intros a Hr. rewrite account_of_put, Ha.
  destruct (decide (a = address o)) as [->|]; [|by auto]. by rewrite (account_of_loaded d _ o).
Qed.

Lemma inv_put d ch o' a :
  inv d → is_addr a → address o' = a → addrHash o' = Keccak256 (E:=E) (address_bytes a) → hash_ok (CodeHash o') →
  inv (put o' (logged ch d)).
Proof.
  intros [Ha Hal Hl] Hr Hao Hh Hc. pose proof (logged_equiv ch d) as Hlog.
  split; [|by rewrite <-(se_access _ _ Hlog) in Hal|by rewrite <-(se_logSize _ _ Hlog) in Hl].
  intros b o Hb. rewrite account_of_put, Hao. destruct (decide (b = a)) as [->|Hn]; [by intros [= <-]|].
  rewrite (account_of_ext _ d); [by auto| |apply Hlog|apply Hlog]. by destruct (logged_fields ch d) as (_&_&_&->).
Qed.

Lemma Ext_update ch a f d o o' :
  inv d → is_addr a → stateObjects d !! a = Some o → deleted o = false →
  address o' = a → addrHash o' = addrHash o → deleted o' = false → hash_ok (CodeHash o') →
  (∀ e e1 o2, getStateObject a e = (e1, Ok (Some o2)) → entry_revert ch e = (put (f o2) e1, Ok tt)) →
  (∀ o2, obj_equiv d o2 o' → address (f o2) = a ∧ obj_equiv d (f o2) o) →
  Ext d (put o' (logged ch d)).
Proof.
  intros Hi Hr Ho Hde Ha Hh Hde' Hc Hrev Hf. destruct (inv_account d Hi a o Hr) as (Hao & Hho & _); [by apply account_of_loaded|].
  destruct (logged_fields ch d) as (He & Hv & Hn & Hso). pose proof (logged_equiv ch d) as Hlog.
  apply (Ext_entry ch); [done| |done..|]. { by apply (inv_put d ch o' a); [..|rewrite Hh|]. }
  apply undoes_intro. intros e Heq. set (D := put o' (logged ch d)) in *.
  pose proof (se_account _ _ Heq a Hr) as Hacc. rewrite (account_of_loaded D a o') in Hacc
    by (unfold D, put; cbn; by rewrite Ha, lookup_insert_eq).
  destruct (account_of e a) as [[o2|]| | |] eqn:Ho2; try done. cbn [acc_equiv] in Hacc.
  destruct (getStateObject_some a e o2 Ho2) as (e1 & Hg & He1 & Hf1 & Ho1); [by rewrite (oe_deleted _ _ _ Hacc)|].
  assert (obj_equiv d o2 o') as Hacc'.
  { apply obj_equiv_env with D; [apply Hlog|apply is_destructed_same; apply Hlog|done]. }
  destruct (Hf o2 Hacc') as [Haf Hof].
  exists (put (f o2) e1). split; [by apply Hrev|]. split; [|done].
  assert (state_equiv e1 D) as HeD by (by transitivity e).
  assert (state_equiv (put (f o2) e1) (put o (logged ch d))) as Hput.
  { pose proof (se_account _ _ HeD) as HaD. destruct HeD. split; try done. intros b Hb. rewrite !account_of_put, Haf, Hao.
    destruct (decide (b = a)) as [->|Hnb].
    - apply obj_equiv_env with d; [symmetry; apply Hlog|symmetry; apply is_destructed_same; apply Hlog|done].
    - specialize (HaD b Hb). unfold D in HaD. rewrite account_of_put, Ha, decide_False in HaD by done.
      by apply acc_equiv_env with D. }
  transitivity (put o (logged ch d)); [done|]. apply (put_equiv d _ o o); [done..|by rewrite Hao|apply obj_equiv_refl].
Qed.

(** The revert of most entries. *)
Lemma update_object_put a f e e1 o2 :
  getStateObject a e = (e1, Ok (Some o2)) → update_object a f e = (put (f o2) e1, Ok tt).
Proof. intros Hg. unfold update_object, mbind, st_bind. by rewrite Hg. Qed.

(** ** New accounts *)

Definition destructing d (p : stateObject) : StateDB :=
  match snap d with
  | Some _ => if is_destructed d p then d else set_snapDestructs ({[addrHash p]} ∪ snapDestructs d) d
  | None => d
  end.
Definition creation d a (prev : option stateObject) : journalEntry * StateDB :=
  match prev with
  | None => (createObjectChange a, d)
  | Some p => (resetObjectChange p (is_destructed d p), destructing d p)
  end.

Lemma createObject_eq a d d1 prev :
  getDeletedStateObject a d = (d1, Ok prev) →
  createObject a d =
    (put (newObject a (mk_StateAccount 0 None 0 None)) (logged (fst (creation d1 a prev)) (snd (creation d1 a prev))),
     Ok (newObject a (mk_StateAccount 0 None 0 None),
         match prev with Some p => if deleted p then None else Some p | None => None end)).
Proof.
  intros Hg. unfold createObject. unfold mbind at 1, st_bind at 1. rewrite Hg.
  unfold mbind at 1, st_bind at 1, st_get at 1. cbv beta iota. unfold creation, destructing.
  destruct prev as [p|]; [destruct (snap d1) eqn:Hs; [destruct (is_destructed d1 p) eqn:Hd|]|];
    unfold mbind, st_bind, st_put, mret, st_ret; cbv beta iota; cbn [fst snd]; by rewrite journal_append_logged.
Qed.

Lemma undoes_create d a n : stateObjects d !! a = None → account_of d a = Ok None → address n = a →
  undoes (createObjectChange a) (put n (logged (createObjectChange a) d)) d.
Proof.
  intros Ho Hacc Ha. apply undoes_intro. intros e Heq. cbn [entry_revert]. eexists. split; [reflexivity|].
  split; [|done]. pose proof (se_account _ _ Heq) as HaD. destruct Heq. split; try done. intros b Hb.
  destruct (decide (b = a)) as [->|Hn].
  - rewrite (account_of_ext _ d a); [by apply acc_equiv_refl| |done|done]. cbn. by rewrite lookup_delete_eq.
  - specialize (HaD b Hb). rewrite account_of_put, Ha, decide_False in HaD by done.
    rewrite (account_of_ext _ e); [by apply (acc_equiv_env _ d) in HaD| |done|done]. cbn. by rewrite lookup_delete_ne.
Qed.

Lemma undoes_reset d a p n :
  inv d → is_addr a → stateObjects d !! a = Some p → address n = a →
  undoes (resetObjectChange p (is_destructed d p))
    (put n (logged (resetObjectChange p (is_destructed d p)) (destructing d p))) d.
Proof.
  intros Hi Hr Ho Ha. destruct (inv_account d Hi a p Hr) as (Hap & Hhp & _); [by apply account_of_loaded|].
  apply undoes_intro. intros e Heq. set (D := put n _) in *. unfold entry_revert, mbind, st_bind, setStateObject, st_modify, st_get.
  cbn. fold (put p e).
  assert (snap D = snap d) as Hsn by (unfold D, destructing; cbn; destruct (snap d) eqn:Hs; [destruct (is_destructed d p)|]; done).
  assert (snapDestructs D = snapDestructs (destructing d p)) as HdD by done.
  rewrite (se_snap _ _ Heq), Hsn.
  assert (∀ b, is_addr b → b ≠ a → acc_equiv d (account_of e b) (account_of d b)) as Hother.
  { intros b Hb Hn. pose proof (se_account _ _ Heq b Hb) as Hacc.
    assert (account_of D b = account_of d b) as HDb.
    { unfold D. rewrite account_of_put, Ha, decide_False by done. apply account_of_ext; unfold destructing;
        destruct (snap d) eqn:Hs; try destruct (is_destructed d p); done. }
    rewrite HDb in Hacc. destruct (account_of e b) as [[o1|]| | |], (account_of d b) as [[o2|]| | |] eqn:Ho2; try done.
    apply obj_equiv_env with D; [done| |done]. unfold is_destructed. rewrite Hsn, HdD. unfold destructing.
    destruct (snap d) eqn:Hs; [|done]. destruct (is_destructed d p); [done|]. cbn.
    destruct (inv_account d Hi b o2 Hb Ho2) as (_ & Hh & _). apply bool_decide_ext. rewrite elem_of_union, elem_of_singleton.
    split; [intros [Hc|?]; [|done]|auto]. exfalso. apply Hn. rewrite Hh, Hhp in Hc.
    apply Keccak_address in Hc; [by apply address_bytes_inj|apply be_bytes_ok..|apply len_be_bytes|apply len_be_bytes]. }
  assert (∀ S, S = snapDestructs d → state_equiv (set_snapDestructs S (put p e)) d) as Hfin.
  { intros S ->. pose proof Heq as [? ? ? ? ? Htr _ ? ? ? ? ? ? ?].
    split; try done; try (by rewrite <-Hsn);
      try (unfold D, destructing in *; destruct (snap d); try destruct (is_destructed d p); done).
    intros b Hb. rewrite (account_of_ext _ (put p e)) by done. rewrite account_of_put, Hap.
    destruct (decide (b = a)) as [->|Hn]; [|by apply Hother]. rewrite (account_of_loaded d a p) by done.
    apply acc_equiv_refl. }
  pose proof (se_destructs _ _ Heq) as Hds. rewrite HdD in Hds. unfold destructing in Hds.
  assert (put p e = set_snapDestructs (snapDestructs e) (put p e)) as Hid by (by destruct e).
  destruct (is_destructed d p) eqn:Hdp; cbn.
  - eexists. split; [reflexivity|]. split; [|done]. rewrite Hid. apply Hfin. rewrite Hds. by destruct (snap d).
  - destruct (snap d) as [sn|] eqn:Hs; cbn.
    + eexists. split; [reflexivity|]. split; [|done]. apply Hfin. cbn. rewrite Hds. cbn.
      unfold is_destructed in Hdp. rewrite Hs in Hdp. apply bool_decide_eq_false in Hdp. set_solver.
    + eexists. split; [reflexivity|]. split; [|done]. rewrite Hid. by apply Hfin.
Qed.

Lemma destructing_fields d p :
  entries (destructing d p) = entries d ∧ validRevisions (destructing d p) = validRevisions d ∧
  nextRevisionId (destructing d p) = nextRevisionId d ∧ stateObjects (destructing d p) = stateObjects d ∧
  (inv d → inv (destructing d p)).
Proof.
  unfold destructing. destruct (snap d) eqn:Hs; [destruct (is_destructed d p); [done|]|done].
  split_and!; try done. intros [Ha ? ?]. split; [|done..]. intros a o Hr. rewrite (account_of_ext _ d) by done. by apply Ha.
Qed.

Lemma Ext_creation d a prev n :
  inv d → is_addr a → account_of d a = Ok prev → stateObjects d !! a = prev →
  address n = a → addrHash n = Keccak256 (E:=E) (address_bytes a) → hash_ok (CodeHash n) →
  Ext d (put n (logged (fst (creation d a prev)) (snd (creation d a prev)))).
Proof.
  intros Hi Hr Hacc Hso Ha Hh Hc. destruct (logged_fields (fst (creation d a prev)) (snd (creation d a prev))) as (He & Hv & Hn & _).
  destruct prev as [p|]; cbn [creation fst snd] in *.
  - destruct (destructing_fields d p) as (He' & Hv' & Hn' & _ & Hid).
    apply (Ext_entry (resetObjectChange p (is_destructed d p))); [done| | | | |].
    + by apply (inv_put _ _ _ a); [apply Hid|..].
    + cbn. by rewrite He'.
    + done.
    + done.
    + by apply (undoes_reset d a).
  - apply (Ext_entry (createObjectChange a)); [done|by apply (inv_put _ _ _ a)|done..|by apply undoes_create].
Qed.

Lemma createObject_spec a d d' n p :
  inv d → is_addr a → createObject a d = (d', Ok (n, p)) →
  n = newObject a (mk_StateAccount 0 None 0 None) ∧ stateObjects d' !! a = Some n ∧
  (∀ n', address n' = a → addrHash n' = addrHash n → hash_ok (CodeHash n') → Ext d (put n' d')) ∧ put n d' = d'.
Proof.
  intros Hi Hr. destruct (getDeleted_spec a d) as (d1 & Hg & Heq & Hf & _ & Hso).
  destruct (account_of d a) as [prev| | |] eqn:Hacc; [|unfold createObject, mbind, st_bind; rewrite Hg; done..].
  rewrite (createObject_eq a d d1 prev) by done. intros [= <- <- <-]. split; [done|].
  assert (account_of d1 a = Ok prev) as Hacc1.
  { destruct prev as [o|]; [by apply account_of_loaded|]. pose proof (se_account _ _ Heq a Hr) as Hae. rewrite Hacc in Hae.
    destruct (account_of d1 a) as [[|]| | |]; done. }
  split; [|split].
  - by cbn; rewrite lookup_insert_eq.
  - intros n' Ha' Hh' Hc'. apply Ext_trans with d1; [by apply Ext_load|].
    assert (∀ D, put n' (put (newObject a (mk_StateAccount 0 None 0 None)) D) = put n' D) as ->.
    { intros D. unfold put. cbn. by rewrite Ha', insert_insert_eq. }
    by apply Ext_creation; [apply inv_equiv with d|..].
  - unfold put. cbn. by rewrite insert_insert_eq.
Qed.

(** ** The operations *)

Definition Good {A} (m : M A) : Prop := ∀ d d' (x : A), inv d → m d = (d', Ok x) → Ext d d'.

Lemma CreateAccount_Good a : is_addr a → Good (CreateAccount a).
Proof.
  intros Hr d d' x Hi. unfold CreateAccount, mbind, st_bind.
  destruct (createObject a d) as [d1 [[n p]|[]| |]] eqn:Hc; try done.
  apply createObject_spec in Hc as (-> & Hso & Hext & Hput); [|done..].
  destruct p as [p|]; intros [= <- <-].
  - apply Hext; [done..|]. apply hash_bytes_ok.
  - rewrite <-Hput. apply Hext; [done..|]. apply hash_bytes_ok.
Qed.

Lemma GetOrNew_spec a d d' o :
  inv d → is_addr a → GetOrNewStateObject a d = (d', Ok o) →
  Ext d d' ∧ inv d' ∧ stateObjects d' !! a = Some o ∧ deleted o = false ∧ address o = a ∧ hash_ok (CodeHash o).
Proof.
  intros Hi Hr Hg. assert (Ext d d' ∧ stateObjects d' !! a = Some o ∧ deleted o = false) as (Hx & Hso & Hde).
  { revert Hg. unfold GetOrNewStateObject, mbind, st_bind.
    destruct (getStateObject a d) as [d1 [[o1|]|[]| |]] eqn:Hg; try done;
      apply getStateObject_spec in Hg as (Heq & Hf & _ & Hs).
    - intros [= <- <-]. split; [by apply Ext_load|by apply Hs].
    - destruct (createObject a d1) as [d2 [[n p]|[]| |]] eqn:Hc; try done. intros [= <- <-].
      apply createObject_spec in Hc as (-> & Hso & Hext & Hput); [|by apply inv_equiv with d|done].
      split; [|by split]. apply Ext_trans with d1; [by apply Ext_load|]. rewrite <-Hput. apply Hext; [done..|].
      apply hash_bytes_ok. }
  destruct Hx as [Hi' Hx]. destruct (inv_account d' Hi' a o Hr) as (? & ? & ?); [by apply account_of_loaded|].
  split_and!; done.
Qed.

(** An operation on an account that exists or is created first. *)
Lemma on_account_Good {A} a (f : stateObject → M A) :
  is_addr a →
  (∀ d d' o x, inv d → stateObjects d !! a = Some o → deleted o = false → address o = a → hash_ok (CodeHash o) →
     f o d = (d', Ok x) → Ext d d') →
  Good (GetOrNewStateObject a ≫= f).
Proof.
  intros Hr Hf d d' x Hi. unfold mbind, st_bind.
  destruct (GetOrNewStateObject a d) as [d1 [o|[]| |]] eqn:Hg; try done.
  apply GetOrNew_spec in Hg as (Hx & Hi1 & Hso & Hde & Ha & Hc); [|done..]. intros Hm.
  apply Ext_trans with d1; [done|]. by apply (Hf d1 d' o x).
Qed.
End undo.
