(* ===== verification/StateOps.v ===== *)
(** * The operations of a transaction on the state database
    (src/geth/core/state/statedb.go)

    Each operation that the EVM and the transaction processing use inside a
    transaction extends the history of the journal, so [RevertToSnapshot] leads
    back to the state of the snapshot whatever happened in between. *)
From stdpp Require Import gmap.
From S2P Require Import Prelude RlpBase RlpRaw RlpStream StateAccess StateDb StateJournal StateUndo.

(** Carries an equivalence over to states that differ in the other parts. *)
Ltac reframe H :=
  let Ha := fresh in pose proof (se_account _ _ H) as Ha; destruct H; split; try done;
  try (intros ? ?; eapply acc_equiv_env; [..|by apply Ha]; done); cbn in *.

Section ops.
Context {T E : Type} `{!Database T E, !DatabaseLaws T E}.
Abbreviation stateObject := (@stateObject T E).
Abbreviation StateDB := (@StateDB T E).
Abbreviation M := (st StateDB Empty_set).
Implicit Types (o : stateObject) (d e : StateDB) (a k v : Z).

(** Objects that differ from equivalent ones in the plain fields only. *)
Lemma obj_equiv_fields d o1 o2 o1' o2' :
  obj_equiv d o1 o2 → same_storage o1' o1 → same_code o1' o1 → same_storage o2' o2 → same_code o2' o2 →
  address o1' = address o2' → Nonce o1' = Nonce o2' → Balance o1' = Balance o2' →
  suicided o1' = suicided o2' → deleted o1' = deleted o2' → obj_equiv d o1' o2'.
Proof.
  intros Heq Hs1 Hc1 Hs2 Hc2. intros. pose proof Hs1 as (_&_&_&Hh1&_&Hr1). pose proof Hs2 as (_&_&_&Hh2&_&Hr2).
  pose proof Hc1 as (_&Hch1&_). pose proof Hc2 as (_&Hch2&_).
  split; try done.
  - rewrite Hh1, Hh2. apply Heq.
  - rewrite Hr1, Hr2. apply Heq.
  - rewrite Hch1, Hch2. apply Heq.
  - rewrite (same_code_Code o1' o1), (same_code_Code o2' o2) by done. apply Heq.
  - intros k. rewrite (same_storage_committed d o1' o1), (same_storage_committed d o2' o2) by done. apply Heq.
  - intros k. rewrite (same_storage_current d o1' o1), (same_storage_current d o2' o2) by done. apply Heq.
Qed.

Lemma append_put ch o d : (journal_append ch ≫= λ _, setStateObject o) d = (put o (logged ch d), Ok tt).
Proof. unfold mbind, st_bind. by rewrite journal_append_logged. Qed.

(** ** Balances, nonces, code and storage *)

Lemma SetBalance_Ext a x d d' o r :
  is_addr a → inv d → stateObjects d !! a = Some o → deleted o = false → address o = a → hash_ok (CodeHash o) →
  obj_SetBalance o x d = (d', Ok r) → Ext d d'.
Proof.
  intros Hr Hi Ho Hde Ha Hc. unfold obj_SetBalance. rewrite append_put. intros [= <- <-].
  apply (Ext_update _ a (set_Balance (Balance o)) d o (set_Balance x o)); try done.
  - rewrite Ha. apply update_object_put.
  - intros o2 Heq. split; [by rewrite <-Ha; apply Heq|].
    apply (obj_equiv_fields d o2 (set_Balance x o)); try done; apply Heq.
Qed.
Lemma SetBalance_Good a x : is_addr a → Good (SetBalance a x).
Proof. intros Hr. apply on_account_Good; [done|]. intros. by eapply SetBalance_Ext. Qed.

Lemma touch_Ext d o d' r : inv d → obj_touch o d = (d', Ok r) → Ext d d'.
Proof.
  intros Hi. unfold obj_touch, mbind, st_bind. rewrite journal_append_logged. intros Ht.
  assert (state_equiv d' d ∧ entries d' = entries d ++ [touchChange (address o)] ∧
    validRevisions d' = validRevisions d ∧ nextRevisionId d' = nextRevisionId d) as (Heq & He & Hv & Hn).
  { destruct (address o =? ripemd); injection Ht as <- _; (split; [|done]); [|apply logged_equiv].
    transitivity (logged (touchChange (address o)) d); [by apply state_equiv_load|apply logged_equiv]. }
  apply (Ext_entry (touchChange (address o))); try done; [by apply inv_equiv with d|].
  apply undoes_intro. intros e He'. exists e. split; [done|]. split; [by transitivity d'|done].
Qed.

Lemma AddBalance_Good a x : is_addr a → Good (AddBalance a x).
Proof.
  intros Hr. apply on_account_Good; [done|]. intros d d' o r Hi Ho Hde Ha Hc. unfold obj_AddBalance.
  destruct (x =? 0); [|by eapply SetBalance_Ext].
  destruct (obj_empty o); [by apply touch_Ext|intros [= <- <-]; by apply Ext_refl].
Qed.
Lemma SubBalance_Good a x : is_addr a → Good (SubBalance a x).
Proof.
  intros Hr. apply on_account_Good; [done|]. intros d d' o r Hi Ho Hde Ha Hc. unfold obj_SubBalance.
  destruct (x =? 0); [|by eapply SetBalance_Ext].
  destruct (obj_empty o); [by apply touch_Ext|intros [= <- <-]; by apply Ext_refl].
Qed.

Lemma SetNonce_Good a n : is_addr a → Good (SetNonce a n).
Proof.
  intros Hr. apply on_account_Good; [done|]. intros d d' o r Hi Ho Hde Ha Hc.
  unfold obj_SetNonce. rewrite append_put. intros [= <- <-].
  apply (Ext_update _ a (set_Nonce (Nonce o)) d o (set_Nonce n o)); try done.
  - rewrite Ha. apply update_object_put.
  - intros o2 Heq. split; [by rewrite <-Ha; apply Heq|].
    apply (obj_equiv_fields d o2 (set_Nonce n o)); try done; apply Heq.
Qed.

(** Code: the object may have loaded its old code first. *)
Lemma put_loaded_Ext d o o1 a :
  inv d → stateObjects d !! a = Some o → address o = a → address o1 = a → obj_equiv d o1 o → Ext d (put o1 d).
Proof.
  intros Hi Ho Ha Ha1 Heq. apply Ext_load; [done| |done].
  apply (put_equiv d d o1 o); [done|congruence|by rewrite Ha|done].
Qed.
Lemma put_logged ch o1 d o' : address o1 = address o' → put o' (logged ch (put o1 d)) = put o' (logged ch d).
Proof.
  intros Ha. unfold put. destruct (logged_fields ch d) as (_&_&_&Hso).
  destruct (logged_fields ch (set_stateObjects (<[address o1 := o1]> (stateObjects d)) d)) as (_&_&_&Hso').
  rewrite Hso, Hso'. cbn [stateObjects set_stateObjects]. rewrite Ha, insert_insert_eq.
  unfold logged. by destruct (dirtied ch).
Qed.

Lemma SetCode_Good a c : is_addr a → Good (SetCode a c).
Proof.
  intros Hr. apply on_account_Good; [done|]. intros d d' o r Hi Ho Hde Ha Hc. unfold obj_SetCode.
  pose proof (obj_Code_equiv d o) as Heq1. pose proof (obj_Code_fields o) as (_ & _ & _ & _ & _ & _ & _ & Hcode).
  destruct (obj_Code o) as [o1 prevcode]. cbn [fst snd] in *.
  rewrite append_put. intros [= <- <-].
  assert (address o1 = a) as Ha1 by (rewrite <-Ha; apply Heq1).
  apply Ext_trans with (put o1 d); [by apply (put_loaded_Ext d o o1 a)|].
  rewrite <-(put_logged _ o1) by done.
  assert (hash_ok (CodeHash o1)) as Hc1 by (by rewrite (oe_CodeHash _ _ _ Heq1)).
  apply (Ext_update _ a (obj_setCode (BytesToHash (CodeHash o1)) prevcode) (put o1 d) o1); try done.
  - by apply (put_loaded_Ext d o o1 a).
  - unfold put. cbn. by rewrite Ha1, lookup_insert_eq.
  - by rewrite (oe_deleted _ _ _ Heq1).
  - transitivity (deleted o); [apply Heq1|done].
  - apply hash_bytes_ok.
  - rewrite Ha1. apply update_object_put.
  - intros o2 Heq. split; [rewrite <-Ha1; apply Heq|]. set (o' := obj_setCode _ _ o1) in *.
    assert (CodeHash (obj_setCode (BytesToHash (CodeHash o1)) prevcode o2) = CodeHash o1) as Hh
      by (by apply hash_bytes_BytesToHash).
    split; try apply Heq.
    + done.
    + apply same_code_Code. split_and!; [by rewrite Hcode|done|apply Heq].
    + intros k. rewrite (same_storage_committed _ _ o2) by done. rewrite (oe_committed _ _ _ Heq k).
      by apply same_storage_committed.
    + intros k. rewrite (same_storage_current _ _ o2) by done. rewrite (oe_current _ _ _ Heq k).
      by apply same_storage_current.
Qed.

Lemma current_setState d o k v k' :
  current d (obj_setState k v o) k' = if decide (k' = k) then Ok v else current d o k'.
Proof.
  unfold current. cbn [dirtyStorage obj_setState set_dirtyStorage]. destruct (decide (k' = k)) as [->|Hn].
  - by rewrite lookup_insert_eq.
  - rewrite lookup_insert_ne by done. destruct (dirtyStorage o !! k'); [done|]. unfold committed, slot_answer.
    by rewrite (getTrie_same _ o).
Qed.
Lemma committed_setState d o k v k' : committed d (obj_setState k v o) k' = committed d o k'.
Proof. unfold committed, slot_answer. by rewrite (getTrie_same _ o). Qed.

Lemma SetState_Good a k v : is_addr a → Good (SetState a k v).
Proof.
  intros Hr. apply on_account_Good; [done|]. intros d d' o r Hi Ho Hde Ha Hc. unfold obj_SetState.
  unfold mbind at 1, st_bind at 1, st_get. unfold mbind at 1, st_bind at 1, st_lift.
  destruct (obj_GetState d o k) as [[o1 prev]|[]| |] eqn:Hg; try done. apply GetState_spec in Hg as [Hcur Heq1].
  assert (address o1 = a) as Ha1 by (rewrite <-Ha; apply Heq1).
  assert (Ext d (put o1 d)) as Hx by (by apply (put_loaded_Ext d o o1 a)).
  unfold mbind at 1, st_bind at 1, setStateObject at 1, st_modify. fold (put o1 d).
  destruct (prev =? v); [by intros [= <- <-]|]. rewrite append_put. intros [= <- <-].
  apply Ext_trans with (put o1 d); [done|].
  apply (Ext_update _ a (obj_setState k prev) (put o1 d) o1); try done.
  - apply Hx.
  - unfold put. cbn. by rewrite Ha1, lookup_insert_eq.
  - by rewrite (oe_deleted _ _ _ Heq1).
  - transitivity (deleted o); [apply Heq1|done].
  - cbn. by rewrite (oe_CodeHash _ _ _ Heq1).
  - rewrite Ha1. apply update_object_put.
  - intros o2 Heq. split; [rewrite <-Ha1; apply Heq|].
    split; try apply Heq.
    + rewrite (same_code_Code _ o2), (oe_Code _ _ _ Heq) by done. by apply same_code_Code.
    + intros k'. rewrite committed_setState, (oe_committed _ _ _ Heq). apply committed_setState.
    + intros k'. rewrite current_setState, (oe_current _ _ _ Heq), current_setState.
      destruct (decide (k' = k)) as [->|]; [|done]. rewrite <-Hcur. symmetry.
      rewrite (oe_current d o1 o Heq1 k) || rewrite <-(oe_current d o1 o Heq1 k). done.
Qed.

Lemma Suicide_Good a : is_addr a → Good (Suicide a).
Proof.
  intros Hr d d' r Hi. unfold Suicide. unfold mbind at 1, st_bind at 1.
  destruct (getStateObject a d) as [d1 [[o|]|[]| |]] eqn:Hg; try done;
    apply getStateObject_spec in Hg as (Heq & Hf & _ & Hs).
  - unfold mbind at 1, st_bind at 1. rewrite journal_append_logged.
    destruct Hs as (_ & Hso & Hde). intros [= <- <-].
    assert (inv d1) as Hi1 by (by apply inv_equiv with d).
    destruct (inv_account d1 Hi1 a o Hr) as (Ha & _ & Hc); [by apply account_of_loaded|].
    apply Ext_trans with d1; [by apply Ext_load|].
    change (set_stateObjects _ _) with (put (set_Balance 0 (set_suicided true o)) (logged (suicideChange a (suicided o) (Balance o)) d1)).
    apply (Ext_update _ a (λ o2, set_Balance (Balance o) (set_suicided (suicided o) o2)) d1 o); try done.
    + intros e e1 o2 Hg. cbn [entry_revert]. unfold mbind, st_bind. by rewrite Hg.
    + intros o2 Heq2. split; [by rewrite <-Ha; apply Heq2|].
      apply (obj_equiv_fields d1 o2 (set_Balance 0 (set_suicided true o))); try done; apply Heq2.
  - intros [= <- <-]. by apply Ext_load.
Qed.

(** ** Reading *)

Lemma getStateObject_Good a : Good (getStateObject (T:=T) (E:=E) a).
Proof. intros d d' r Hi (Heq & Hf & _)%getStateObject_spec. by apply Ext_load. Qed.
Lemma Good_bind_ret {A B} (m : M A) (f : A → B) : Good m → Good (x ← m; mret (f x)).
Proof.
  intros Hm d d' r Hi. unfold mbind, st_bind. destruct (m d) as [d1 [x|[]| |]] eqn:Hx; try done.
  intros [= <- <-]. by apply (Hm d d1 x).
Qed.
Lemma with_object_Good {A} a (x : A) f :
  is_addr a → (∀ d o o' y, f d o = Ok (o', y) → obj_equiv d o' o) → Good (with_object a x f).
Proof.
  intros Hr Hf d d' r Hi. unfold with_object. unfold mbind at 1, st_bind at 1.
  destruct (getStateObject a d) as [d1 [[o|]|[]| |]] eqn:Hg; try done;
    apply getStateObject_spec in Hg as (Heq & Hfr & _ & Hs); [|intros [= <- <-]; by apply Ext_load].
  unfold mbind, st_bind, st_get, st_lift. destruct (f d1 o) as [[o' y]|[]| |] eqn:Hfo; try done.
  intros [= <- <-]. assert (inv d1) as Hi1 by (by apply inv_equiv with d). destruct Hs as (_ & Hso & Hde).
  destruct (inv_account d1 Hi1 a o Hr) as (Ha & _ & Hc); [by apply account_of_loaded|].
  apply Ext_trans with d1; [by apply Ext_load|]. apply Hf in Hfo.
  apply (put_loaded_Ext d1 o o' a); try done. rewrite <-Ha. apply Hfo.
Qed.

(** ** Logs, preimages, refunds and the access list *)

(** A change of a part that no account depends on. *)
Lemma Ext_other ch d d' (r : StateDB → StateDB) :
  inv d → inv d' → entries d' = entries d ++ [ch] → validRevisions d' = validRevisions d →
  nextRevisionId d' = nextRevisionId d →
  (∀ e, state_equiv e d' → entry_revert ch e = (r e, Ok tt) ∧ state_equiv (r e) d ∧ frame (r e) e) → Ext d d'.
Proof.
  intros. apply (Ext_entry ch); try done. apply undoes_intro. intros e He. exists (r e). auto.
Qed.

Lemma AddRefund_Good g : Good (AddRefund (T:=T) (E:=E) g).
Proof.
  intros d d' r Hi. unfold AddRefund, mbind, st_bind, st_get. rewrite journal_append_logged. intros [= <- <-].
  apply (Ext_other (refundChange (refund d)) d _ (set_refund (refund d))); try done.
  - by destruct Hi.
  - intros e He. split; [done|]. split; [by reframe He|done].
Qed.
Lemma SubRefund_Good g : Good (SubRefund (T:=T) (E:=E) g).
Proof.
  intros d d' r Hi. unfold SubRefund, mbind, st_bind, st_get. rewrite journal_append_logged.
  destruct (refund d <? g); [done|]. intros [= <- <-].
  apply (Ext_other (refundChange (refund d)) d _ (set_refund (refund d))); try done.
  - by destruct Hi.
  - intros e He. split; [done|]. split; [by reframe He|done].
Qed.
Lemma AddPreimage_Good h b : Good (AddPreimage (T:=T) (E:=E) h b).
Proof.
  intros d d' r Hi. unfold AddPreimage, mbind, st_bind, st_get. destruct (preimages d !! h) eqn:Hp.
  - intros [= <- <-]. by apply Ext_refl.
  - rewrite journal_append_logged. intros [= <- <-].
    apply (Ext_other (addPreimageChange h) d _ (λ e, set_preimages (delete h (preimages e)) e)); try done.
    + by destruct Hi.
    + intros e He. split; [done|]. split; [|done]. reframe He. rewrite se_preimages. by apply delete_insert_id.
Qed.

Lemma AddAddressToAccessList_Good a : Good (AddAddressToAccessList (T:=T) (E:=E) a).
Proof.
  intros d d' r Hi. unfold AddAddressToAccessList, mbind, st_bind, st_get.
  pose proof (AddAddress_undo (access d) a) as Hu. pose proof (AddAddress_ok (access d) a (inv_access d Hi)) as Hok.
  destruct (AddAddress a (access d)) as [al added] eqn:Hal. cbn [fst snd] in *. unfold st_put. destruct added.
  - rewrite journal_append_logged. intros [= <- <-].
    apply (Ext_other (accessListAddAccountChange a) d _ (λ e, set_access (DeleteAddress a (access e)) e)); try done.
    + by destruct Hi.
    + intros e He. split; [done|]. split; [|done]. reframe He. rewrite se_access. by apply Hu.
  - intros [= <- <-]. unfold AddAddress in Hal. destruct (addresses (access d) !! a); [|done]. injection Hal as <-.
    destruct d. by apply Ext_refl.
Qed.

(** A slot whose address was missing is two changes, the address first. *)
Lemma AddSlotToAccessList_Good a s : Good (AddSlotToAccessList (T:=T) (E:=E) a s).
Proof.
  intros d d' r Hi. unfold AddSlotToAccessList. unfold mbind at 1, st_bind at 1, st_get.
  pose proof (inv_access d Hi) as Hal. destruct (AddSlot_spec (access d) a s Hal) as (al & ac & sc & Heq & Hok & Hm & Hac & Hsc).
  rewrite Heq. unfold mbind at 1, st_bind at 1, st_lift. unfold mbind at 1, st_bind at 1, st_put.
  destruct sc.
  2: { assert (ac = false ∧ al = access d) as [-> ->].
       { destruct (AddSlot_cases (access d) a s Hal) as [[_ Hc]|(i & sl & Ha & _ & _ & _ & _ & Hc)]; rewrite Hc in Heq; [done|].
         destruct (decide (s ∈ sl)); injection Heq as <- <-; done. }
       intros [= <- <-]. destruct d. by apply Ext_refl. }
  destruct (AddSlot_undo (access d) a s al ac Hal Heq) as [Hd1 Hadd].
  assert (∀ d1 al1, inv d1 → al_ok al → access d1 = al1 → DeleteSlot a s al = Ok al1 →
    Ext d1 (logged (accessListAddSlotChange a s) (set_access al d1))) as Hslot.
  { intros d1 al1 Hi1 Hok1 Hal1 Hdel. apply (Ext_other (accessListAddSlotChange a s) _ _ (λ e, set_access al1 e)); try done.
    - by destruct Hi1.
    - intros e He; split; [|split; [by reframe He|done]]. cbn [entry_revert]. unfold mbind, st_bind, st_get, st_lift.
      by rewrite (se_access _ _ He : _ = al), Hdel. }
  unfold mbind, st_bind, mret, st_ret. clear Hac. destruct ac; rewrite !journal_append_logged; intros [= <- <-].
  - apply Ext_trans with (logged (accessListAddAccountChange a) (set_access (fst (AddAddress a (access d))) d)).
    + apply (AddAddressToAccessList_Good a d _ tt Hi). unfold AddAddressToAccessList, mbind, st_bind, st_get, st_put.
      specialize (Hadd eq_refl). destruct (AddAddress a (access d)) as [al1 []]; [|done]. by rewrite journal_append_logged.
    + eapply (Hslot (logged (accessListAddAccountChange a) (set_access (fst (AddAddress a (access d))) d))); try done.
      destruct Hi as [Ha ? ?]. by split; [|apply AddAddress_ok|].
  - by eapply Hslot.
Qed.

Lemma logSize_undo n : is_u64 n → u64 (u64 (n + 1) - 1) = n.
Proof.
  intros Hn. unfold u64. rewrite Zminus_mod_idemp_l. replace (n + 1 - 1) with n by lia. by apply Z.mod_small.
Qed.
Lemma revert_log_app h (l : list Log) g e : default [] (logs e !! h) = l ++ [g] →
  ∃ m, revert_log h e = (set_logSize (u64 (logSize e - 1)) (set_logs m e), Ok tt) ∧
       default [] (m !! h) = l ∧ ∀ h', h' ≠ h → m !! h' = logs e !! h'.
Proof.
  intros Hl. unfold revert_log, mbind, st_bind, st_get. rewrite Hl, len_app. change (len [g]) with 1.
  destruct (Z.eqb_spec (len l + 1) 1) as [Hz|Hz].
  - assert (l = []) as -> by (destruct l as [|x l]; [done|rewrite len_cons in Hz; pose proof (len_nonneg l); lia]).
    eexists. split; [reflexivity|]. rewrite lookup_delete_eq. split; [done|]. intros h' Hn. by rewrite lookup_delete_ne.
  - unfold st_lift. pose proof (len_nonneg l). rewrite go_slice_ok by (rewrite ?len_app; change (len [g]) with 1; lia).
    change (Z.to_nat 0) with 0%nat.
    replace (Z.to_nat (len l + 1 - 1 - 0)) with (length l) by (unfold len; lia).
    rewrite drop_0, take_app_length. eexists. split; [reflexivity|]. rewrite lookup_insert_eq. split; [done|].
    intros h' Hn. by rewrite lookup_insert_ne.
Qed.
Lemma AddLog_Good g : Good (AddLog (T:=T) (E:=E) g).
Proof.
  intros d d' r Hi. unfold AddLog, mbind, st_bind, st_get. rewrite journal_append_logged. intros [= <- <-].
  apply (Ext_entry (addLogChange (thash d))); try done. { destruct Hi. split; try done. apply u64_range. }
  apply undoes_intro. intros e He. cbn [entry_revert]. pose proof (se_logs _ _ He (thash d)) as Hl. cbn in Hl.
  rewrite lookup_insert_eq in Hl. cbn in Hl. destruct (revert_log_app _ _ _ _ Hl) as (m & Hr & Hm & Hm').
  eexists. split; [exact Hr|]. split; [|done]. reframe He.
  - intros h. destruct (decide (h = thash d)) as [->|Hn]; [done|]. rewrite Hm', se_logs by done.
    by rewrite lookup_insert_ne.
  - rewrite se_logSize. apply logSize_undo, Hi.
Qed.
End ops.
