(* ===== verification/StateRevert.v ===== *)
(** * Snapshots and reverts (src/geth/core/state/statedb.go)

    Whatever a transaction does between [Snapshot] and the matching
    [RevertToSnapshot], nested snapshots and reverts included, the revert
    succeeds and restores everything the getters can see. *)
From stdpp Require Import gmap.
From S2P Require Import Prelude RlpBase RlpRaw RlpStream StateAccess StateDb StateJournal StateUndo StateOps.

(** What a transaction does with the database. *)
Inductive op :=
| OCreateAccount (a : Z) | OAddBalance (a x : Z) | OSubBalance (a x : Z) | OSetBalance (a x : Z)
| OSetNonce (a n : Z) | OSetCode (a : Z) (c : bytes) | OSetState (a k v : Z) | OSuicide (a : Z)
| OAddLog (g : Log) | OAddPreimage (h : Z) (b : bytes) | OAddRefund (g : Z) | OSubRefund (g : Z)
| OAddAddress (a : Z) | OAddSlot (a s : Z)
| OExist (a : Z) | OEmpty (a : Z) | OGetBalance (a : Z) | OGetNonce (a : Z) | OGetCodeHash (a : Z) | OHasSuicided (a : Z)
| OGetCode (a : Z) | OGetCodeSize (a : Z) | OGetState (a k : Z) | OGetCommittedState (a k : Z)
| OSnapshot | ORevertToSnapshot (id : Z).

Section revert.
Context {T E : Type} `{!Database T E, !DatabaseLaws T E}.
Abbreviation StateDB := (@StateDB T E).
Abbreviation M := (st StateDB Empty_set).
Implicit Types (d e : StateDB).

Definition ignore {A} (m : M A) : M unit := m ≫= λ _, mret tt.

Definition run_op (o : op) : M unit :=
  match o with
  | OCreateAccount a => CreateAccount a
  | OAddBalance a x => AddBalance a x
  | OSubBalance a x => SubBalance a x
  | OSetBalance a x => SetBalance a x
  | OSetNonce a n => SetNonce a n
  | OSetCode a c => SetCode a c
  | OSetState a k v => SetState a k v
  | OSuicide a => ignore (Suicide a)
  | OAddLog g => AddLog g
  | OAddPreimage h b => AddPreimage h b
  | OAddRefund g => AddRefund g
  | OSubRefund g => SubRefund g
  | OAddAddress a => AddAddressToAccessList a
  | OAddSlot a s => AddSlotToAccessList a s
  | OExist a => ignore (Exist a)
  | OEmpty a => ignore (Empty a)
  | OGetBalance a => ignore (GetBalance a)
  | OGetNonce a => ignore (GetNonce a)
  | OGetCodeHash a => ignore (GetCodeHash a)
  | OHasSuicided a => ignore (HasSuicided a)
  | OGetCode a => ignore (GetCode a)
  | OGetCodeSize a => ignore (GetCodeSize a)
  | OGetState a k => ignore (GetState a k)
  | OGetCommittedState a k => ignore (GetCommittedState a k)
  | OSnapshot => ignore Snapshot
  | ORevertToSnapshot id => RevertToSnapshot id
  end.
Definition run_ops : list op → M unit := for_each run_op.

(** Addresses are addresses, and no revert goes behind the snapshot [id]. *)
Definition op_ok (id : Z) (o : op) : Prop :=
  match o with
  | OCreateAccount a | OAddBalance a _ | OSubBalance a _ | OSetBalance a _ | OSetNonce a _ | OSetCode a _
  | OSetState a _ _ | OSuicide a | OGetCode a | OGetCodeSize a | OGetState a _ | OGetCommittedState a _ => is_addr a
  | ORevertToSnapshot id' => id < id'
  | _ => True
  end.

(** ** Single operations *)

Lemma ignore_Good {A} (m : M A) : Good m → Good (ignore m).
Proof. apply (Good_bind_ret m (λ _, tt)). Qed.

Lemma run_op_Good id o : op_ok id o → o ≠ OSnapshot → (∀ id', o ≠ ORevertToSnapshot id') → Good (run_op o).
Proof.
  intros Hok Hs Hr. destruct o; cbn [run_op op_ok] in *;
    try (apply ignore_Good; apply Good_bind_ret; apply getStateObject_Good).
  - by apply CreateAccount_Good.
  - by apply AddBalance_Good.
  - by apply SubBalance_Good.
  - by apply SetBalance_Good.
  - by apply SetNonce_Good.
  - by apply SetCode_Good.
  - by apply SetState_Good.
  - by apply ignore_Good, Suicide_Good.
  - apply AddLog_Good.
  - apply AddPreimage_Good.
  - apply AddRefund_Good.
  - apply SubRefund_Good.
  - apply AddAddressToAccessList_Good.
  - apply AddSlotToAccessList_Good.
  - apply ignore_Good, with_object_Good; [done|]. intros d o o' y [= Hc]. pose proof (obj_Code_equiv d o) as He. by rewrite Hc in He.
  - apply ignore_Good, with_object_Good; [done|]. intros d o o' y [= Hc]. pose proof (obj_CodeSize_equiv d o) as He. by rewrite Hc in He.
  - apply ignore_Good, with_object_Good; [done|]. intros d o o' y Hg. by apply GetState_spec in Hg as [_ ?].
  - apply ignore_Good, with_object_Good; [done|]. intros d o o' y Hg. by apply GetCommittedState_spec in Hg as [_ ?].
  - done.
  - by destruct (Hr id0).
Qed.

(** ** The stack of revisions *)

Record revs_ok d : Prop := {
  revs_sorted i j r r' : (i < j)%nat → validRevisions d !! i = Some r → validRevisions d !! j = Some r' →
    fst r < fst r' ∧ snd r ≤ snd r';
  revs_bound i r : validRevisions d !! i = Some r → fst r < nextRevisionId d ∧ 0 ≤ snd r ≤ len (entries d)
}.

Lemma search_revision d i id n :
  revs_ok d → validRevisions d !! i = Some (id, n) →
  sort_Search (len (validRevisions d))
    (λ x, match validRevisions d !! Z.to_nat x with Some r => id <=? fst r | None => true end) = Z.of_nat i.
Proof.
  intros Hok Hi. set (f := λ x, _).
  assert (∀ x r, validRevisions d !! x = Some r → id ≤ fst r ↔ (i ≤ x)%nat) as Hx.
  { intros x r Hr. destruct (lt_eq_lt_dec x i) as [[Hlt| ->]|Hgt].
    - destruct (revs_sorted d Hok x i _ _ Hlt Hr Hi) as [? _]. cbn in *. split; lia.
    - simplify_eq. cbn. split; lia.
    - destruct (revs_sorted d Hok i x _ _ Hgt Hi Hr) as [? _]. cbn in *. split; lia. }
  destruct (sort_Search_spec (len (validRevisions d)) f) as (Hr0 & Hlo & Hhi); [apply len_nonneg| |].
  { intros x y Hxy. unfold f. destruct (validRevisions d !! Z.to_nat x) as [r|] eqn:Hr.
    - rewrite Z.leb_le, (Hx _ _ Hr). intros Hle. destruct (validRevisions d !! Z.to_nat y) as [r'|] eqn:Hr'; [|done].
      apply Z.leb_le, (Hx _ _ Hr'). lia.
    - intros _. apply lookup_ge_None in Hr. rewrite (proj2 (lookup_ge_None _ _)); [done|lia]. }
  set (r := sort_Search _ f) in *. assert (f (Z.of_nat i) = true) as Hfi.
  { unfold f. rewrite Nat2Z.id, Hi. apply Z.leb_refl. }
  apply lookup_lt_Some in Hi as Hlt. fold (len (validRevisions d)) in *. unfold len in *.
  destruct (Z.lt_trichotomy r (Z.of_nat i)) as [Hri|[Hri|Hri]]; [|done|].
  - specialize (Hhi r ltac:(lia)). unfold f in Hhi. destruct (lookup_lt_is_Some_2 (validRevisions d) (Z.to_nat r)) as [q Hq]; [lia|].
    rewrite Hq in Hhi. apply Z.leb_le, (Hx _ _ Hq) in Hhi. lia.
  - rewrite Hlo in Hfi by lia. done.
Qed.

(** ** Reverting inside a history *)

(** [d] was reached from the snapshot [id] taken in [d0]. *)
Record since (d0 : StateDB) (id : Z) (d : StateDB) : Prop := {
  since_inv : inv d;
  since_revs : revs_ok d;
  since_valid : ∃ rs, validRevisions d = validRevisions d0 ++ (id, len (entries d0)) :: rs;
  since_hist : ∃ es, entries d = entries d0 ++ es ∧ Hist d0 es d
}.

(** What [RevertToSnapshot] does to a state with the history [es1 ++ es2]. *)
Lemma RevertToSnapshot_spec d0 d i id n es1 es2 :
  inv d → revs_ok d → validRevisions d !! i = Some (id, n) →
  entries d = entries d0 ++ es1 ++ es2 → n = len (entries d0 ++ es1) → Hist d0 (es1 ++ es2) d →
  ∃ d', RevertToSnapshot id d = (d', Ok tt) ∧ inv d' ∧ Hist d0 es1 d' ∧ entries d' = entries d0 ++ es1 ∧
        validRevisions d' = take i (validRevisions d) ∧ nextRevisionId d' = nextRevisionId d.
Proof.
  intros Hi Hr Hv He Hn Hh. unfold RevertToSnapshot. unfold mbind at 1, st_bind at 1, st_get.
  rewrite (search_revision d i id n), Nat2Z.id, Hv by done. rewrite Z.eqb_refl. cbn [negb].
  unfold journal_revert. unfold mbind, st_bind, st_get. rewrite He, app_assoc, Hn. unfold len at 1.
  rewrite Nat2Z.id, drop_app_length.
  destruct (Hist_undo d0 es1 es2 d Hh Hi) as (d1 & -> & Hh1 & (He1 & Hv1 & Hn1) & Hi1).
  unfold st_lift. rewrite He1, He, app_assoc, go_slice_ok by (rewrite ?len_app; pose proof (len_nonneg es2); pose proof (len_nonneg es1);
    pose proof (len_nonneg (entries d0)); lia). unfold st_put.
  replace (Z.to_nat (len (entries d0 ++ es1) - 0)) with (length (entries d0 ++ es1)) by (unfold len; lia).
  change (Z.to_nat 0) with 0%nat. rewrite drop_0, take_app_length. cbn [validRevisions set_entries].
  apply lookup_lt_Some in Hv as Hlt. rewrite Hv1, go_slice_ok by (unfold len; lia).
  change (Z.to_nat 0) with 0%nat. rewrite drop_0, Z.sub_0_r, Nat2Z.id.
  eexists. split; [reflexivity|]. split; [by destruct Hi1|]. split; [|done].
  apply Hist_equiv with d1; [done|]. by apply state_equiv_load.
Qed.

Lemma Hist_nil_equiv d0 d : Hist d0 [] d → state_equiv d d0.
Proof. inversion 1 as [|es]; [done|]. by destruct es. Qed.

Lemma since_Ext d0 id d d' : since d0 id d → Ext d d' → since d0 id d'.
Proof.
  intros [Hi [Hs Hb] [rs Hrs] [es [He Hh]]] (Hi' & Hv & Hn & es' & He' & Hx). split; [done|..].
  - split; rewrite Hv; [apply Hs|]. intros i r Hr. destruct (Hb i r Hr) as [? ?]. rewrite Hn, He', len_app.
    pose proof (len_nonneg es'). lia.
  - exists rs. by rewrite Hv.
  - exists (es ++ es'). split; [by rewrite He', He, app_assoc|]. by apply Hx.
Qed.

Lemma Snapshot_revs d : revs_ok d → revs_ok (fst (Snapshot d)).
Proof.
  intros [Hs Hb].
  assert (validRevisions (fst (Snapshot d)) = validRevisions d ++ [(nextRevisionId d, len (entries d))]) as Hv by done.
  assert (nextRevisionId (fst (Snapshot d)) = nextRevisionId d + 1) as Hn by done.
  assert (entries (fst (Snapshot d)) = entries d) as He by done.
  split; rewrite Hv, ?Hn, ?He.
  - intros i j r r' Hij Hr Hr'. apply lookup_app_Some in Hr as [Hr|[Hl Hr]].
    + apply lookup_app_Some in Hr' as [Hr'|[_ Hr']]; [by apply (Hs i j)|].
      apply list_lookup_singleton_Some in Hr' as [_ <-]. destruct (Hb i r Hr). cbn. lia.
    + apply list_lookup_singleton_Some in Hr as [Hz _]. apply lookup_lt_Some in Hr'. rewrite length_app in Hr'. cbn in Hr'. lia.
  - intros i r Hr. apply lookup_app_Some in Hr as [Hr|[_ Hr]]; [destruct (Hb i r Hr); lia|].
    apply list_lookup_singleton_Some in Hr as [_ <-]. cbn. pose proof (len_nonneg (entries d)). lia.
Qed.
Lemma Snapshot_equiv d : state_equiv (fst (Snapshot d)) d.
Proof. by apply state_equiv_load. Qed.
Lemma Snapshot_since d0 id d : since d0 id d → since d0 id (fst (Snapshot d)).
Proof.
  intros [Hi Hr [rs Hrs] [es [He Hh]]]. split.
  - apply inv_equiv with d; [apply Snapshot_equiv|done].
  - by apply Snapshot_revs.
  - exists (rs ++ [(nextRevisionId d, len (entries d))]).
    change (validRevisions d ++ [(nextRevisionId d, len (entries d))] = validRevisions d0 ++ (id, len (entries d0)) :: rs ++ [(nextRevisionId d, len (entries d))]).
    by rewrite Hrs, <-app_assoc.
  - exists es. split; [done|]. apply Hist_equiv with d; [done|apply Snapshot_equiv].
Qed.
Lemma Snapshot_begin d : inv d → revs_ok d → since d (nextRevisionId d) (fst (Snapshot d)).
Proof.
  intros Hi Hr. split.
  - apply inv_equiv with d; [apply Snapshot_equiv|done].
  - by apply Snapshot_revs.
  - by exists [].
  - exists []. split; [by rewrite app_nil_r|]. constructor. apply Snapshot_equiv.
Qed.

Lemma RevertToSnapshot_since d0 id d :
  since d0 id d → ∀ id' d' x, id < id' → RevertToSnapshot id' d = (d', Ok x) → since d0 id d'.
Proof.
  intros [Hi Hr [rs Hrs] [es [He Hh]]] id' d' x Hid Hrev.
  assert (∃ i n, validRevisions d !! i = Some (id', n)) as (i & n & Hin).
  { revert Hrev. unfold RevertToSnapshot, mbind, st_bind, st_get. destruct (validRevisions d !! _) as [[id1 n]|] eqn:Hl; [|done].
    destruct (Z.eqb_spec id1 id') as [->|]; [by eauto|done]. }
  assert (validRevisions d !! length (validRevisions d0) = Some (id, len (entries d0))) as Hbase
    by (by rewrite Hrs, list_lookup_middle).
  assert (length (validRevisions d0) < i)%nat as Hlt.
  { destruct (lt_eq_lt_dec i (length (validRevisions d0))) as [[Hlt| ->]|]; [|simplify_eq; lia|done].
    destruct (revs_sorted d Hr _ _ _ _ Hlt Hin Hbase) as [? _]. cbn in *. lia. }
  destruct (revs_sorted d Hr _ _ _ _ Hlt Hbase Hin) as [_ Hn]. destruct (revs_bound d Hr _ _ Hin) as [_ Hn']. cbn [fst snd] in *.
  rewrite He, len_app in Hn'. unfold len in Hn, Hn'.
  set (m := (Z.to_nat n - length (entries d0))%nat). rewrite <-(take_drop m es) in He, Hh.
  destruct (RevertToSnapshot_spec d0 d i id' n (take m es) (drop m es)) as (d1 & Heq & Hi1 & Hh1 & He1 & Hv1 & Hn1); try done.
  { rewrite len_app. unfold len. rewrite length_take. lia. }
  rewrite Heq in Hrev. injection Hrev as <- _. split; [done|..].
  - split; rewrite Hv1.
    + intros p q r r' Hpq Hp Hq. apply lookup_take_Some in Hp as [Hp _]. apply lookup_take_Some in Hq as [Hq _].
      by apply (revs_sorted d Hr p q).
    + intros p r Hp. apply lookup_take_Some in Hp as [Hp Hpi]. destruct (revs_bound d Hr p r Hp) as [? ?].
      destruct (revs_sorted d Hr p i _ _ Hpi Hp Hin) as [_ Hsn]. cbn in Hsn.
      rewrite Hn1, He1, len_app. unfold len. rewrite length_take. lia.
  - rewrite Hv1, Hrs. exists (take (i - length (validRevisions d0) - 1) rs).
    rewrite take_app_ge by lia. f_equal.
    destruct (i - length (validRevisions d0))%nat as [|y] eqn:Hy; [lia|]. cbn. by rewrite Nat.sub_0_r.
  - exists (take m es). by split.
Qed.

Lemma run_ops_since d0 id ops : Forall (op_ok id) ops →
  ∀ d d', since d0 id d → run_ops ops d = (d', Ok tt) → since d0 id d'.
Proof.
  induction 1 as [|o ops Ho Hops IH]; intros d d' Hs.
  - by intros [= <-].
  - unfold run_ops. cbn [for_each]. unfold mbind, st_bind. destruct (run_op o d) as [d1 [[]|[]| |]] eqn:Hr; try done.
    apply IH. destruct o; try (apply (since_Ext d0 id d); [done|]; apply (run_op_Good id _ Ho ltac:(done) ltac:(done) d d1 tt); [apply Hs|done]).
    + injection Hr as <-. by apply Snapshot_since.
    + by apply (RevertToSnapshot_since d0 id d Hs id0 d1 tt).
Qed.

(** ** What the getters see *)

Record same_view d1 d2 : Prop := {
  sv_Exist a : is_addr a → snd (Exist a d1) = snd (Exist a d2);
  sv_Empty a : is_addr a → snd (Empty a d1) = snd (Empty a d2);
  sv_GetBalance a : is_addr a → snd (GetBalance a d1) = snd (GetBalance a d2);
  sv_GetNonce a : is_addr a → snd (GetNonce a d1) = snd (GetNonce a d2);
  sv_GetCodeHash a : is_addr a → snd (GetCodeHash a d1) = snd (GetCodeHash a d2);
  sv_HasSuicided a : is_addr a → snd (HasSuicided a d1) = snd (HasSuicided a d2);
  sv_GetCode a : is_addr a → snd (GetCode a d1) = snd (GetCode a d2);
  sv_GetCodeSize a : is_addr a → snd (GetCodeSize a d1) = snd (GetCodeSize a d2);
  sv_GetState a k : is_addr a → snd (GetState a k d1) = snd (GetState a k d2);
  sv_GetCommittedState a k : is_addr a → snd (GetCommittedState a k d1) = snd (GetCommittedState a k d2);
  sv_GetRefund : snd (GetRefund d1) = snd (GetRefund d2);
  sv_AddressInAccessList a : snd (AddressInAccessList a d1) = snd (AddressInAccessList a d2);
  sv_SlotInAccessList a k : snd (SlotInAccessList a k d1) = snd (SlotInAccessList a k d2);
  sv_GetLogs h b : snd (GetLogs h b d1) = snd (GetLogs h b d2);
  sv_Preimages : snd (Preimages d1) = snd (Preimages d2)
}.

(** A getter that looks at the account only. *)
Lemma account_getter {A} a d1 d2 (f : option stateObject → A) :
  state_equiv d1 d2 → is_addr a →
  (∀ o1 o2, obj_equiv d2 o1 o2 → f (if deleted o1 then None else Some o1) = f (if deleted o2 then None else Some o2)) →
  snd ((o ← getStateObject a; mret (f o)) d1) = snd ((o ← getStateObject a; mret (f o)) d2).
Proof.
  intros Heq Hr Hf. pose proof (se_account _ _ Heq a Hr) as Hacc. unfold getStateObject, mbind, st_bind.
  destruct (getDeleted_spec a d1) as (d1' & -> & _), (getDeleted_spec a d2) as (d2' & -> & _).
  destruct (account_of d1 a) as [[o1|]|[]| |], (account_of d2 a) as [[o2|]|[]| |]; try done; cbn in *; [by rewrite (Hf o1 o2)|by subst].
Qed.
(** A getter that runs an operation of the object. *)
Lemma object_getter {A} a d1 d2 (x : A) (f : StateDB → stateObject → res Empty_set (stateObject * A)) :
  state_equiv d1 d2 → is_addr a →
  (∀ e1 e2 o1 o2, snap e1 = snap e2 → snapDestructs e1 = snapDestructs e2 → obj_equiv e2 o1 o2 →
     res_snd (f e1 o1) = res_snd (f e2 o2)) →
  snd (with_object a x f d1) = snd (with_object a x f d2).
Proof.
  intros Heq Hr Hf. pose proof (se_account _ _ Heq a Hr) as Hacc. unfold with_object, getStateObject, mbind, st_bind.
  destruct (getDeleted_spec a d1) as (e1 & -> & He1 & _), (getDeleted_spec a d2) as (e2 & -> & He2 & _).
  destruct (account_of d1 a) as [[o1|]|[]| |], (account_of d2 a) as [[o2|]|[]| |]; try done; cbn in *; [|by subst].
  rewrite (oe_deleted _ _ _ Hacc). destruct (deleted o2); [done|]. unfold st_get, st_lift.
  assert (res_snd (f e1 o1) = res_snd (f e2 o2)) as Hs.
  { apply Hf; [by rewrite (se_snap _ _ He1), (se_snap _ _ He2); apply Heq|
      by rewrite (se_destructs _ _ He1), (se_destructs _ _ He2); apply Heq|].
    apply obj_equiv_env with d2; [symmetry; apply He2| |done]. symmetry. apply is_destructed_same; apply He2. }
  destruct (f e1 o1) as [[? ?]|[]| |], (f e2 o2) as [[? ?]|[]| |]; cbn in *; congruence.
Qed.

Lemma state_equiv_view d1 d2 : state_equiv d1 d2 → same_view d1 d2.
Proof.
  intros Heq. split; intros;
    try (apply account_getter; [done..|]; intros o1 o2 Ho; rewrite (oe_deleted _ _ _ Ho); destruct (deleted o2); [done|]).
  - done.
  - unfold obj_empty. by rewrite (oe_Nonce _ _ _ Ho), (oe_Balance _ _ _ Ho), (oe_CodeHash _ _ _ Ho).
  - apply Ho.
  - apply Ho.
  - by rewrite (oe_CodeHash _ _ _ Ho).
  - apply Ho.
  - apply object_getter; [done..|]. intros e1 e2 o1 o2 _ _ Ho. pose proof (oe_Code _ _ _ Ho).
    destruct (obj_Code o1), (obj_Code o2). cbn in *. by f_equal.
  - apply object_getter; [done..|]. intros e1 e2 o1 o2 _ _ Ho. pose proof (oe_Code _ _ _ Ho) as Hc.
    pose proof (obj_CodeSize_len o1) as Hs1. pose proof (obj_CodeSize_len o2) as Hs2. rewrite Hc in Hs1.
    destruct (obj_CodeSize o1), (obj_CodeSize o2). cbn in *. congruence.
  - apply object_getter; [done..|]. intros e1 e2 o1 o2 Hs Hd Ho. rewrite !GetState_value.
    rewrite <-(oe_current _ _ _ Ho). unfold current. destruct (dirtyStorage o1 !! k); [done|].
    by apply committed_env; [|apply is_destructed_same].
  - apply object_getter; [done..|]. intros e1 e2 o1 o2 Hs Hd Ho. rewrite !GetCommittedState_value.
    rewrite <-(oe_committed _ _ _ Ho). by apply committed_env; [|apply is_destructed_same].
  - unfold GetRefund, mbind, st_bind, st_get. cbn. by rewrite (se_refund _ _ Heq).
  - unfold AddressInAccessList, mbind, st_bind, st_get. cbn. by rewrite (se_access _ _ Heq).
  - unfold SlotInAccessList, mbind, st_bind, st_get, st_lift. cbn. by rewrite (se_access _ _ Heq).
  - pose proof (se_logs _ _ Heq h) as Hl. unfold GetLogs, mbind, st_bind, st_get, st_put.
    destruct (logs d1 !! h), (logs d2 !! h); cbn in *; by subst.
  - unfold Preimages, mbind, st_bind, st_get. cbn. by rewrite (se_preimages _ _ Heq).
Qed.

(** C7: a revert undoes everything: if a transaction takes a snapshot and then runs
    any sequence of operations, nested snapshots and reverts to them included,
    without a panic, then reverting to the snapshot succeeds, and afterwards every
    getter (balances, nonces, code, storage, committed storage, existence, suicides,
    refund counter, access list, logs, preimages) returns what it returned when the
    snapshot was taken; the journal and the stack of revisions are back too. *)
Theorem RevertToSnapshot_restores d0 d1 id ops d2 :
  inv d0 → revs_ok d0 → Snapshot d0 = (d1, Ok id) → Forall (op_ok id) ops → run_ops ops d1 = (d2, Ok tt) →
  ∃ d3, RevertToSnapshot id d2 = (d3, Ok tt) ∧ same_view d3 d0 ∧
        entries d3 = entries d0 ∧ validRevisions d3 = validRevisions d0 ∧ inv d3 ∧ revs_ok d3.
Proof.
  intros Hi Hr [= <- <-] Hops Hrun. apply (run_ops_since d0 (nextRevisionId d0)) in Hrun as [Hi2 Hr2 [rs Hrs] [es [He Hh]]];
    [|done|by apply Snapshot_begin].
  destruct (RevertToSnapshot_spec d0 d2 (length (validRevisions d0)) (nextRevisionId d0) (len (entries d0)) [] es)
    as (d3 & Hd3 & Hi3 & Hh3 & He3 & Hv3 & Hn3); try done.
  { by rewrite Hrs, list_lookup_middle. }
  { by rewrite app_nil_r. }
  rewrite app_nil_r in He3. rewrite Hrs, take_app_length in Hv3.
  exists d3. split_and!; try done; [by apply state_equiv_view, Hist_nil_equiv|].
  destruct Hr as [Hs Hb]. split; rewrite Hv3, ?He3; [done|]. intros i r Hir. destruct (Hb i r Hir) as [? ?].
  rewrite Hn3. split; [|done]. destruct (revs_bound d2 Hr2 i r) as [? _]; [|done].
  rewrite Hrs. by apply lookup_app_l_Some.
Qed.
End revert.

(** ** A concrete database *)

(** Tries are finite maps, one stored account, one stored slot. *)
Definition toy_trie : Type := gmap (list Z) bytes.
#[export] Instance toy_Database : Database toy_trie unit := {
  OpenTrie _ := inr ∅;
  OpenStorageTrie _ root := inr (if root =? 7 then {[hash_bytes 1 := [5]]} else ∅);
  ContractCode _ _ := inl tt;
  ContractCodeSize _ _ := inl tt;
  tr_TryGet k t := (t, inr (default [] (t !! k)));
  tr_TryUpdate k v t := (<[k := v]> t, None);
  tr_TryDelete k t := (delete k t, None);
  tr_Hash t := (t, Z.of_nat (base.size t) `mod` 2 ^ 256);
  Keccak256 b := (be_val b + (len b + 1) * 2 ^ 200) `mod` 2 ^ 256
}.
#[export] Instance toy_DatabaseLaws : DatabaseLaws toy_trie unit.
Proof.
  refine {| tr_val t k := inr (default [] (t !! k)) |}; [done..| |].
  - intros h c. by exists tt.
  - intros x y Hx Hy Hlx Hly. cbn. rewrite Hlx, Hly. pose proof (be_val_bound x Hx) as Hbx. pose proof (be_val_bound y Hy) as Hby.
    rewrite Hlx in Hbx. rewrite Hly in Hby. rewrite !Z.mod_small by lia. intros Heq.
    rewrite <-(be_bytes_be_val x), <-(be_bytes_be_val y) by done. unfold len in *. f_equal; lia.
Defined.

Definition toy_state : @StateDb.StateDB toy_trie unit :=
  mk_StateDB ∅ 0 None ∅ ∅ ∅ ∅ ∅ ∅ None None 0 0 0 ∅ 0 ∅ newAccessList [] ∅ [] 0.
Definition toy_ops : list op :=
  [OAddBalance 10 100; OSetState 10 1 9; OSnapshot; OCreateAccount 10; OAddSlot 10 3; OSetCode 10 [96];
   ORevertToSnapshot 1; OSuicide 10; OAddLog (mk_Log 10 [] [] 1 0 0 0 0 false); OAddRefund 4].

Lemma RevertToSnapshot_restores_witness :
  ∃ d2 d3, run_ops toy_ops (fst (Snapshot toy_state)) = (d2, Ok tt) ∧
    RevertToSnapshot 0 d2 = (d3, Ok tt) ∧ same_view d3 toy_state.
Proof.
  destruct (run_ops toy_ops (fst (Snapshot toy_state))) as [d2 r] eqn:Hr.
  assert (r = Ok tt) as -> by (apply (f_equal snd) in Hr; vm_compute in Hr; by rewrite Hr).
  destruct (RevertToSnapshot_restores toy_state (fst (Snapshot toy_state)) 0 toy_ops d2) as (d3 & H3 & Hv & _).
  - clear. split; [|split; cbn; intros; simplify_map_eq|done]. intros a o _ Ho. exfalso. revert Ho. clear. vm_compute. done.
  - split; cbn; intros; by rewrite ?lookup_nil in *.
  - reflexivity.
  - repeat constructor; done.
  - exact Hr.
  - exists d2, d3. by split_and!.
Defined.
