(* ===== verification/StateErase.v ===== *)
(** What [StateDB.Erase] (statedb.go, state_object.go), the governance action
    that empties an account's code and storage root, does to later reads: the
    journal undoes the account fields but not the storage trie and the slot cache
    that were filled in between, and the caches filled before it survive it. *)
From stdpp Require Import base list gmap.
From Stdlib Require Import ZArith Lia.
From S2P Require Import Prelude RlpBase RlpRaw RlpEncode RlpStream StateAccess StateDb StateJournal StateUndo StateOps StateRevert.

(** An account whose storage trie holds 5 in slot 1. *)
Definition stored_account : @stateObject toy_trie unit := newObject 10 (mk_StateAccount 1 (Some 5) 7 None).
Definition stored_state : @StateDb.StateDB toy_trie unit := set_stateObjects {[10 := stored_account]} toy_state.

Lemma stored_inv : inv stored_state.
Proof.
  split; [|split; cbn; intros; simplify_map_eq|done].
  intros a o Ha Ho. unfold account_of in Ho. destruct (stateObjects stored_state !! a) as [o1|] eqn:Hl.
  - unfold stored_state in Hl. cbn in Hl. apply lookup_singleton_Some in Hl as [<- <-]. injection Ho as <-.
    split; [done|]. split; [done|]. apply hash_bytes_ok.
  - exfalso. revert Ho. clear. vm_compute. done.
Qed.

Section erase.
Context {T E : Type} `{!Database T E, !DatabaseLaws T E}.
Implicit Types (d : @StateDb.StateDB T E) (o : @stateObject T E).

Lemma getStateObject_loaded d a o : stateObjects d !! a = Some o → deleted o = false → getStateObject a d = (d, Ok (Some o)).
Proof.
  intros Ho Hd. unfold getStateObject, getDeletedStateObject, mbind, st_bind, st_get. rewrite Ho. unfold mret, st_ret. by rewrite Hd.
Qed.
(** Reading a slot of a loaded object keeps what the reading did to it. *)
Lemma GetState_object d a o k o' v : stateObjects d !! a = Some o → deleted o = false → obj_GetState d o k = Ok (o', v) →
  GetState a k d = (put o' d, Ok v).
Proof.
  intros Ho Hd Hg. unfold GetState, with_object, mbind, st_bind. rewrite (getStateObject_loaded d a o) by done.
  unfold st_get, st_lift. by rewrite Hg.
Qed.
(** A slot that is in no cache, read from an empty storage trie. *)
Lemma read_empty d o k t0 : snap d = None → dirtyStorage o !! k = None → pendingStorage o !! k = None → originStorage o !! k = None →
  o_trie o = None → OpenStorageTrie (addrHash o) (Root o) = inr t0 → tr_val t0 (hash_bytes k) = inr [] →
  ∃ t, obj_GetState d o k = Ok (set_originStorage (<[k := 0]> (originStorage o)) (set_o_trie (Some t) o), 0).
Proof.
  intros Hsn Hdi Hpe Hor Htr Hop Hval. unfold obj_GetState, obj_GetCommittedState, is_destructed, snap_slot, trie_slot, getTrie.
  rewrite Hdi, Hpe, Hor, Hsn, Htr, Hop. rewrite <-TryGet_answer in Hval. cbn [set_o_trie]. destruct (tr_TryGet (hash_bytes k) t0) as [t r].
  cbn in Hval. subst r. by exists t.
Qed.
(** Undoing the last entry of the journal. *)
Lemma revert_last d d1 id ch dx : revs_ok d → validRevisions d = validRevisions d1 ++ [(id, len (entries d1))] → entries d = entries d1 ++ [ch] →
  undo ch d = (dx, Ok tt) → entries dx = entries d → validRevisions dx = validRevisions d →
  RevertToSnapshot id d = (set_validRevisions (validRevisions d1) (set_entries (entries d1) dx), Ok tt).
Proof.
  intros Hr Hv He Hu Hex Hvx.
  assert (validRevisions d !! length (validRevisions d1) = Some (id, len (entries d1))) as Hl by by rewrite Hv, list_lookup_middle.
  unfold RevertToSnapshot. unfold mbind at 1, st_bind at 1, st_get. rewrite (search_revision d _ id _ Hr Hl), Nat2Z.id, Hl, Z.eqb_refl. cbn [negb].
  unfold journal_revert, mbind, st_bind, st_get. assert (∀ {A} (l : list A), Z.to_nat (len l) = length l) as Hlen by (intros A l; unfold len; lia). rewrite He, Hlen, drop_app_length.
  change (reverse [ch]) with [ch]. cbn [for_each]. unfold mbind, st_bind. rewrite Hu. unfold mret, st_ret, st_lift.
  rewrite Hex, He, go_slice_ok by (rewrite ?len_app; pose proof (len_nonneg (entries d1)); pose proof (len_nonneg [ch]); lia).
  unfold st_put. cbn [validRevisions set_entries].
  rewrite Hvx, Hv, go_slice_ok by (rewrite ?len_app; unfold len; pose proof (Nat2Z.is_nonneg (length (validRevisions d1))); cbn; lia).
  change (Z.to_nat 0) with 0%nat. by rewrite !drop_0, !Z.sub_0_r, Nat2Z.id, Hlen, !take_app_length.
Qed.

(** C38: reverting to a snapshot does not undo [Erase]: whatever the state, when an account
    is erased after a snapshot and a slot of it is read that no cache holds, the read
    returns 0, and after the revert the account has its code hash and storage root back
    but the slot still reads 0, whatever it held before, because [revertErase] keeps
    the storage trie opened for the empty root and the slot cache filled from it.  (States
    without a snapshot layer; the empty root opens a trie in which nothing is stored.) *)
Theorem Erase_revert_loses_storage d a o k t0 :
  inv d → revs_ok d → is_addr a → stateObjects d !! a = Some o → deleted o = false → snap d = None →
  dirtyStorage o !! k = None → pendingStorage o !! k = None → originStorage o !! k = None →
  OpenStorageTrie (addrHash o) emptyRoot = inr t0 → tr_val t0 (hash_bytes k) = inr [] →
  ∃ d2 d3 d4, Erase a (fst (Snapshot d)) = (d2, Ok true) ∧ GetState a k d2 = (d3, Ok 0) ∧
    RevertToSnapshot (nextRevisionId d) d3 = (d4, Ok tt) ∧
    snd (GetCodeHash a d4) = snd (GetCodeHash a d) ∧ option_map Root (stateObjects d4 !! a) = Some (Root o) ∧
    snd (GetState a k d4) = Ok 0.
Proof.
  intros Hi Hr Ha Ho Hdel Hsn Hdi Hpe Hor Hop Hval.
  destruct (inv_account _ Hi a o Ha (account_of_loaded d a o Ho)) as (Haddr & _ & Hhash).
  set (d1 := fst (Snapshot d)). destruct (obj_Code_fields o) as (Hst & Hf). set (o1 := fst (obj_Code o)) in *. set (prev := snd (obj_Code o)).
  set (o2 := set_dirtyCode true (set_o_trie None (set_Root emptyRoot (set_CodeHash emptyCodeHash (set_code (Some []) o1))))).
  set (ch := eraseChange (T:=T) (E:=E) (address o1) prev (StateDb.CodeHash o1) (Root o1)). set (d2 := put o2 (logged ch d1)).
  destruct Hf as (Haddr1 & _ & _ & Hch & _ & Hdel1 & _). destruct Hst as (Hpe1 & Hor1 & Hdi1 & Hah1 & _ & Hro1).
  assert (Erase a d1 = (d2, Ok true)) as Herase.
  { unfold Erase, mbind, st_bind. rewrite (getStateObject_loaded d1 a o) by done. unfold obj_erase. rewrite (surjective_pairing (obj_Code o)).
    fold o1 prev ch. unfold mbind, st_bind. by rewrite journal_append_logged. }
  assert (stateObjects d2 !! a = Some o2) as Ho2 by (cbn; rewrite Haddr1, Haddr; apply lookup_insert_eq).
  destruct (read_empty d2 o2 k t0) as (t & Hread);
    [done|by rewrite <-Hdi, <-Hdi1|by rewrite <-Hpe, <-Hpe1|by rewrite <-Hor, <-Hor1|done|cbn; by rewrite Hah1|done|].
  set (o3 := set_originStorage _ _) in Hread. set (d3 := put o3 d2).
  assert (GetState a k d2 = (d3, Ok 0)) as Hget by (apply (GetState_object d2 a o2); [done|cbn; congruence|done]).
  set (o4 := revertErase (BytesToHash (StateDb.CodeHash o1)) prev (Root o1) o3).
  assert (stateObjects d3 !! a = Some o3) as Ho3 by (cbn; rewrite Haddr1, Haddr; apply lookup_insert_eq).
  assert (undo ch d3 = (fst (journal_undirty a (put o4 d3)), Ok tt)) as Hundo.
  { unfold undo, ch. cbn [entry_revert dirtied]. unfold update_object, mbind, st_bind.
    rewrite Haddr1, Haddr, (getStateObject_loaded d3 a o3) by (done || cbn; congruence). done. }
  assert (revs_ok d3) as Hr3.
  { destruct (Snapshot_revs d Hr) as [Hsorted Hbound]. split; [exact Hsorted|]. intros i r Hir. destruct (Hbound i r Hir) as [H1 H2].
    split; [exact H1|]. change (0 ≤ snd r ≤ len (entries d ++ [ch])). rewrite len_app. pose proof (len_nonneg [ch]). change (0 ≤ snd r ≤ len (entries d)) in H2. lia. }
  exists d2, d3. eexists. split; [exact Herase|]. split; [exact Hget|].
  split; [apply (revert_last d3 d (nextRevisionId d) ch (fst (journal_undirty a (put o4 d3))) Hr3); done|].
  set (d4 := set_validRevisions _ _).
  assert (address o4 = a ∧ deleted o4 = false ∧ Root o4 = Root o ∧ StateDb.CodeHash o4 = StateDb.CodeHash o ∧
    dirtyStorage o4 = dirtyStorage o ∧ pendingStorage o4 = pendingStorage o ∧ originStorage o4 !! k = Some 0) as (Ha4 & Hd4 & Hro4 & Hch4 & Hdi4 & Hpe4 & Hor4).
  { split_and!; try (cbn; congruence); [|apply lookup_insert_eq]. change (hash_bytes (BytesToHash (StateDb.CodeHash o1)) = StateDb.CodeHash o).
    rewrite Hch. by apply hash_bytes_BytesToHash. }
  assert (stateObjects d4 !! a = Some o4) as Ho4 by (cbn [d4 stateObjects]; cbn; rewrite Haddr1, Haddr; apply lookup_insert_eq).
  split_and!.
  - unfold GetCodeHash, mbind, st_bind. rewrite (getStateObject_loaded d4 a o4), (getStateObject_loaded d a o) by done. cbv [mret st_ret snd]. by rewrite Hch4.
  - rewrite Ho4. cbv [option_map]. by rewrite Hro4.
  - rewrite (GetState_object d4 a o4 k o4 0); [done..|]. unfold obj_GetState, obj_GetCommittedState. by rewrite Hdi4, Hdi, Hpe4, Hpe, Hor4.
Qed.
End erase.

Lemma Erase_revert_loses_storage_witness :
  snd (GetState 10 1 stored_state) = Ok 5 ∧
  ∃ d2 d3 d4, Erase 10 (fst (Snapshot stored_state)) = (d2, Ok true) ∧ GetState 10 1 d2 = (d3, Ok 0) ∧
    RevertToSnapshot (nextRevisionId stored_state) d3 = (d4, Ok tt) ∧
    snd (GetCodeHash 10 d4) = snd (GetCodeHash 10 stored_state) ∧ option_map Root (stateObjects d4 !! 10) = Some 7 ∧
    snd (GetState 10 1 d4) = Ok 0.
Proof.
  split; [vm_compute; reflexivity|].
  apply (Erase_revert_loses_storage stored_state 10 stored_account 1 ∅); try reflexivity.
  - exact stored_inv.
  - split; cbn; intros; by rewrite ?lookup_nil in *.
  - by split.
Defined.

(** [Erase] does not empty the storage of an account whose slots were already
    read: with the slot in the object's cache, the erased account still reads 5. *)
Lemma Erase_keeps_cached_storage :
  ∃ d1 d2, GetState 10 1 stored_state = (d1, Ok 5) ∧ Erase 10 d1 = (d2, Ok true) ∧
    option_map Root (stateObjects d2 !! 10) = Some emptyRoot ∧ snd (GetState 10 1 d2) = Ok 5.
Proof.
  do 2 eexists. split; [vm_compute; reflexivity|]. split; [vm_compute; reflexivity|].
  split; vm_compute; reflexivity.
Qed.
