(* ===== verification/StateCommit.v ===== *)
(** * Writing the state back to the tries
    (src/geth/core/state: statedb.go New, IntermediateRoot; state_object.go)

    [IntermediateRoot] finalises the transaction, writes the changed slots of
    every pending account into its storage trie, then the accounts into the
    account trie, and returns the root.  The two loops run over the pending
    addresses; the goroutines of the first loop each touch one object only, so
    they are run one after the other. *)
From stdpp Require Import gmap.
From S2P Require Import Prelude RlpBase RlpRaw RlpEncode RlpStream RlpStruct StateAccess StateDb.

Section commit.
Context {T E : Type} `{!Database T E}.
Abbreviation stateObject := (@stateObject T E).
Abbreviation StateDB := (@StateDB T E).
Abbreviation M := (st StateDB Empty_set).
Implicit Types (o : stateObject) (d e : StateDB) (a k v : Z).

(** [New]; the snapshot tree maps a root to its layer. *)
Definition New (root : Z) (snaps : option (Z → option (Snap E))) : E + StateDB :=
  match OpenTrie root with
  | inl err => inl err
  | inr tr =>
      inr (mk_StateDB tr root (match snaps with Some f => f root | None => None end) ∅ ∅ ∅ ∅ ∅ ∅ None None 0 0 0 ∅ 0 ∅
             newAccessList [] ∅ [] 0)
  end.

(** ** Storage tries *)

(** One round of the loop of [updateTrieConcurrencySafe]: the object, the trie
    it works on and the map of snapshot slots collected so far. *)
Definition update_slot d (kv : Z * Z) (acc : stateObject * option T * option (gmap Z bytes)) :
    res Empty_set (stateObject * option T * option (gmap Z bytes)) :=
  let '(key, value) := kv in
  let '(o, tr, storage) := acc in
  if value =? default 0 (originStorage o !! key) then Ok acc else
  let o := set_originStorage (<[key := value]> (originStorage o)) o in
  match tr with
  | None => Panic runtime_error
  | Some t =>
      '(t, err, v) ←
        (if value =? 0 then let '(t, err) := tr_TryDelete (hash_bytes key) t in Ok (t, err, [])
         else
           match EncodeToBytes (VBytes (TrimLeftZeroes (hash_bytes value))) with
           | Ok v => let '(t, err) := tr_TryUpdate (hash_bytes key) v t in Ok (t, err, v)
           | Err _ => let '(t, err) := tr_TryUpdate (hash_bytes key) [] t in Ok (t, err, [])
           | Panic p => Panic p
           | OutOfFuel => OutOfFuel
           end);
      let o := match err with Some err => obj_setError (ErrDB err) o | None => o end in
      let storage :=
        match snap d with
        | None => storage
        | Some _ =>
            let old := match storage with Some s => s | None => default ∅ (snapStorage d !! addrHash o) end in
            Some (<[Keccak256 (E:=E) (hash_bytes key) := v]> old)
        end in
      Ok (set_o_trie (Some t) o, Some t, storage)
  end.
Fixpoint update_slots d (l : list (Z * Z)) (acc : stateObject * option T * option (gmap Z bytes)) :
    res Empty_set (stateObject * option T * option (gmap Z bytes)) :=
  match l with
  | [] => Ok acc
  | kv :: l => acc ← update_slot d kv acc; update_slots d l acc
  end.
Definition updateTrieConcurrencySafe d o : res Empty_set (stateObject * option T) :=
  if decide (base.size (pendingStorage o) = 0%nat) then Ok (o, o_trie o) else
  let '(o, tr) := getTrie o in
  '(o, tr, storage) ← update_slots d (map_to_list (pendingStorage o)) (o, tr, None);
  Ok (set_pendingStorage ∅ (set_o_snapStorage storage o), tr).

(** ** Accounts *)

Definition account_bytes o : R bytes := EncodeToBytes (account_gval (Nonce o) (Balance o) (Root o) (CodeHash o)).

Definition preUpdateStateObject d o : res Empty_set stateObject :=
  '(o, _) ← updateTrieConcurrencySafe d o;
  let o := match o_trie o with
           | Some t => let '(t, h) := tr_Hash t in set_Root h (set_o_trie (Some t) o)
           | None => o
           end in
  let o := set_accountRLP (account_bytes o) o in
  match snap d with
  | None => Ok o
  | Some _ =>
      match EncodeToBytes (slim_gval (emptyCodeHash (E:=E)) (Nonce o) (Balance o) (Root o) (CodeHash o)) with
      | Ok b => Ok (set_slimAccountRLP b o)
      | Err _ => Panic (raised "can't encode object")
      | Panic p => Panic p
      | OutOfFuel => OutOfFuel
      end
  end.

(** [updateSnapshot]. *)
Definition updateSnapshot o : M stateObject :=
  match o_snapStorage o with
  | Some s => st_modify (λ d, set_snapStorage (<[addrHash o := s]> (snapStorage d)) d) ≫= λ _, mret (set_o_snapStorage None o)
  | None => mret o
  end.

Definition updateStateObject o : M unit :=
  o ← updateSnapshot o;
  match accountRLP o with
  | Ok enc =>
      d ← st_get;
      let '(t, err) := tr_TryUpdate (address_bytes (address o)) enc (trie d) in
      st_put (set_trie t d) ≫= λ _,
      (match err with Some err => setError (ErrUpdate err) | None => mret tt end) ≫= λ _ : unit,
      (match snap d with
       | Some _ => st_modify (λ d, set_snapAccounts (<[addrHash o := slimAccountRLP o]> (snapAccounts d)) d)
       | None => mret tt
       end) ≫= λ _ : unit,
      setStateObject (set_accountRLP (Panic runtime_error) (set_slimAccountRLP [] o))
  | Panic p => st_panic p
  | _ => st_panic (raised "can't encode object")
  end.

Definition deleteStateObject o : M unit :=
  d ← st_get;
  let '(t, err) := tr_TryDelete (address_bytes (address o)) (trie d) in
  st_put (set_trie t d) ≫= λ _,
  match err with Some err => setError (ErrDelete err) | None => mret tt end.

(** The bodies of the two loops of [IntermediateRoot]. *)
Definition prepare_account (addr : Z) : M unit :=
  d ← st_get;
  match stateObjects d !! addr with
  | None => st_panic runtime_error
  | Some o =>
      if deleted o then mret tt else
      o ← st_lift (preUpdateStateObject d (obj_finalise o)); setStateObject o
  end.
Definition write_account (addr : Z) : M unit :=
  d ← st_get;
  match stateObjects d !! addr with
  | None => st_panic runtime_error
  | Some o => if deleted o then deleteStateObject o else updateStateObject o
  end.

Definition IntermediateRoot (deleteEmptyObjects : bool) : M Z :=
  Finalise deleteEmptyObjects ≫= λ _,
  d ← st_get;
  let addrs := elements (stateObjectsPending d) in
  for_each prepare_account addrs ≫= λ _,
  for_each write_account addrs ≫= λ _,
  d ← st_get;
  let '(t, h) := tr_Hash (trie d) in
  st_put (set_stateObjectsPending ∅ (set_trie t d)) ≫= λ _,
  mret h.

(** C39: overriding the storage of an account crashes: on any state that [New] opens,
    [SetStorage] writes to the nil map [stateObjectsDestruct] and panics, whatever
    the address and the slots. *)
Theorem SetStorage_New_panics root snaps d : New root snaps = inr d →
  ∀ addr storage, SetStorage addr storage d = (d, Panic runtime_error).
Proof. unfold New. destruct (OpenTrie root); [done|]. by intros [= <-]. Qed.
End commit.
