(* ===== verification/StatePersist.v ===== *)
(** * What [IntermediateRoot] leaves in the tries

    Slots and accounts come back from their RLP encodings, the slot caches of an
    object agree with its storage trie, and so the tries written by
    [IntermediateRoot] (StateCommit) hold exactly what the getters showed. *)
From stdpp Require Import gmap.
From S2P Require Import Prelude RlpBase RlpRaw RlpEncode RlpStream RlpStruct StateAccess StateDb StateJournal StateUndo StateRevert StateCommit.

(** ** What writing relies on *)

(** Hashing keeps the content of a trie, and a write that reports no error stores
    the value at its key and nothing else. *)
Class TrieLaws (T E : Type) `{!Database T E, !DatabaseLaws T E} := {
  Hash_keeps t k : tr_val (fst (tr_Hash (E:=E) t)) k = tr_val t k;
  Hash_range t : 0 ≤ snd (tr_Hash (E:=E) t) < 2 ^ 256;
  TryUpdate_stores k v t t' : v ≠ [] → tr_TryUpdate k v t = (t', None) →
    ∀ k', tr_val t' k' = if decide (k' = k) then inr v else tr_val t k';
  TryDelete_removes k t t' : tr_TryDelete k t = (t', None) →
    ∀ k', tr_val t' k' = if decide (k' = k) then inr [] else tr_val t k'
}.

Definition is_word (x : Z) : Prop := 0 ≤ x < 2 ^ 256.
Lemma hash_bytes_inj x y : is_word x → is_word y → hash_bytes x = hash_bytes y → x = y.
Proof.
  unfold is_word, hash_bytes. intros Hx Hy Heq. apply (f_equal be_val) in Heq. rewrite !be_val_be_bytes in Heq.
  change (8 * Z.of_nat 32) with 256 in Heq. by rewrite !Z.mod_small in Heq by lia.
Qed.

(** ** Slots and accounts come back from their encodings *)

Lemma TrimLeftZeroes_val b : be_val (TrimLeftZeroes b) = be_val b.
Proof.
  induction b as [|x b IH]; [done|]. cbn [TrimLeftZeroes]. destruct (Z.eqb_spec x 0) as [->|]; [|done].
  rewrite IH. change (0 :: b) with ([0] ++ b). by rewrite be_val_app, be_val_single.
Qed.
Lemma TrimLeftZeroes_sub b : (∃ n, TrimLeftZeroes b = drop n b).
Proof.
  induction b as [|x b [n IH]]; [by exists 0%nat|]. cbn [TrimLeftZeroes]. destruct (x =? 0); [|by exists 0%nat].
  by exists (S n).
Qed.

Lemma short_string_u64 c : len c ≤ 32 → is_u64 (len (rlp_string c)).
Proof.
  intros Hl. pose proof (len_nonneg c). destruct (rlp_string_cases c) as [(x & -> & Hx & ->)|[Hx ->]]; [done|].
  rewrite len_app, rlp_head_short by lia. rewrite len_cons, len_nil. unfold is_u64. lia.
Qed.

Lemma slot_round_trip {E} v : 0 < v < 2 ^ 256 →
  ∃ b, EncodeToBytes (VBytes (TrimLeftZeroes (hash_bytes v))) = Ok b ∧ b ≠ [] ∧ slot_value (E:=E) (inr b) = Ok v.
Proof.
  intros Hv. set (c := TrimLeftZeroes (hash_bytes v)).
  assert (be_val c = v) as Hc.
  { unfold c. rewrite TrimLeftZeroes_val. unfold hash_bytes. rewrite be_val_be_bytes.
    change (8 * Z.of_nat 32) with 256. by rewrite Z.mod_small by lia. }
  assert (bytes_ok c ∧ len c ≤ 32) as [Hok Hl].
  { unfold c. destruct (TrimLeftZeroes_sub (hash_bytes v)) as [n ->]. destruct (hash_bytes_ok v) as [Hl Hb].
    split; [by apply bytes_ok_drop|]. unfold len in *. rewrite length_drop. lia. }
  pose proof (len_nonneg c).
  assert (len c ≠ 0) as Hne.
  { intros H0. assert (c = []) as E0 by (destruct c; [done|rewrite len_cons in H0; pose proof (len_nonneg c); lia]).
    rewrite E0 in Hc. cbn in Hc. lia. }
  clearbody c.
  assert (string_ok c) as Hso by (split; [done|unfold is_u64; lia]).
  assert (is_u64 (len (rlp_string c))) as Hu by (apply short_string_u64; lia).
  destruct (rlp_string_value c Hok) as (kd & Hkd & Heq & Hko).
  exists (rlp_string c). split; [|split].
  - rewrite EncodeToBytes_enc_ref; [done|done|]. intros b [= <-]. exact Hu.
  - intros E0. apply (f_equal len) in E0. pose proof (rlp_value_nonempty kd c Hko) as Hx. rewrite Heq in E0. rewrite len_nil in E0. lia.
  - unfold slot_value. rewrite Heq in *. pose proof (rlp_value_nonempty kd c Hko). rewrite (proj2 (Z.ltb_lt 0 _)) by lia.
    rewrite <-(app_nil_r (rlp_value kd c)), Split_value; [|done|by rewrite app_nil_r|by rewrite app_nil_r].
    unfold BytesToHash, HashLength. rewrite (proj2 (Z.ltb_ge 32 (len c))) by lia. by rewrite Hc.
Qed.

Lemma short_string_ok c : bytes_ok c → len c ≤ 32 → string_ok c ∧ bytes_ok (rlp_string c) ∧ len (rlp_string c) ≤ 33.
Proof.
  intros Hok Hl. pose proof (len_nonneg c). assert (is_u64 (len c)) by (unfold is_u64; lia).
  split; [done|]. split; [by apply rlp_string_ok|]. destruct (rlp_string_cases c) as [(x & -> & Hx & ->)|[Hx ->]]; [done|].
  rewrite len_app, rlp_head_short by lia. rewrite len_cons, len_nil. lia.
Qed.
Lemma word_bytes x : is_word x → bytes_ok (be_bytes (nbytes x) x) ∧ len (be_bytes (nbytes x) x) ≤ 32.
Proof.
  intros [Hx Hy]. split; [apply be_bytes_ok|]. rewrite len_be_bytes.
  destruct (Z.eq_dec x 0) as [->|]; [done|]. destruct (nbytes_spec x ltac:(lia)) as [Hlo _].
  assert (8 * (Z.of_nat (nbytes x) - 1) < 256); [|lia].
  apply (Z.pow_lt_mono_r_iff 2); lia.
Qed.

(** The account comes back from what [EncodeToBytes] writes for it. *)
Lemma account_round_trip nonce balance root codehash b :
  is_u64 nonce → balance < 2 ^ 256 → is_word root → bytes_ok codehash → len codehash ≤ 32 →
  EncodeToBytes (account_gval nonce balance root codehash) = Ok b →
  b ≠ [] ∧ DecodeBytes_with decodeStateAccount b = Ok (mk_StateAccount nonce (Some balance) root (Some codehash)).
Proof.
  intros Hn Hb Hr Hc Hlc He.
  assert (is_word nonce) as Hnw by (unfold is_word, is_u64 in *; lia).
  destruct (word_bytes nonce Hnw) as [Hn1 Hn2]. destruct (short_string_ok _ Hn1 Hn2) as (_ & Hn3 & Hn4).
  destruct (hash_bytes_ok root) as [Hr2 Hr1]. destruct (short_string_ok _ Hr1 ltac:(lia)) as (Hr5 & Hr3 & Hr4).
  destruct (short_string_ok _ Hc Hlc) as (Hc5 & Hc3 & Hc4).
  set (enc := rlp_list (rlp_scalar nonce ++ rlp_scalar balance ++ rlp_string (hash_bytes root) ++ rlp_string codehash ++ [])).
  destruct (Z.ltb_spec balance 0) as [Hneg|Hpos].
  { exfalso. revert He. unfold EncodeToBytes, account_gval. cbn [write enc_list struct_fields]. cbn. unfold writeBigInt.
    by rewrite (proj2 (Z.ltb_lt balance 0)). }
  destruct (word_bytes balance ltac:(done)) as [Hb1 Hb2]. destruct (short_string_ok _ Hb1 Hb2) as (_ & Hb3 & Hb4).
  assert (enc_ref (account_gval nonce balance root codehash) = Ok enc) as Href.
  { cbn. unfold big_ref. by rewrite (proj2 (Z.ltb_ge balance 0)). }
  set (p := rlp_scalar nonce ++ rlp_scalar balance ++ rlp_string (hash_bytes root) ++ rlp_string codehash ++ []) in *.
  assert (bytes_ok p ∧ 0 ≤ len p ≤ 132) as [Hpok Hpl].
  { split; [unfold p; rewrite !bytes_ok_app; repeat split; done || constructor|].
    pose proof (len_nonneg p). split; [done|]. unfold p, rlp_scalar. rewrite !len_app, len_nil. lia. }
  assert (is_u64 (len p)) as Hpu by (unfold is_u64; lia).
  assert (bytes_ok enc ∧ is_u64 (len enc)) as [Heok Heu].
  { unfold enc, rlp_list. split; [apply bytes_ok_app; split; [by apply rlp_head_ok; [right|]|done]|].
    rewrite len_app, <-headsize_spec by done. rewrite headsize_spec with (tag := 0xC0) by done. unfold rlp_head.
    destruct (len p <? 56); [rewrite len_cons, len_nil; unfold is_u64; lia|].
    rewrite len_cons, len_be_bytes. pose proof (nbytes_u64 (len p) Hpu). unfold is_u64. lia. }
  assert (b = enc) as ->.
  { rewrite EncodeToBytes_enc_ref in He; [congruence| |].
    - cbn. split_and!; try done. unfold big_BitLen. destruct (Z.eqb_spec balance 0); [done|].
      rewrite Z.abs_eq by done. pose proof (Z.log2_nonneg balance). pose proof (Z.log2_lt_pow2 balance 256 ltac:(lia)).
      unfold is_u64. lia.
    - intros b' Hb'. rewrite Href in Hb'. by injection Hb' as <-. }
  split.
  { unfold enc, rlp_list. destruct (rlp_head_nonempty 0xC0 (len p)) as (x & l & ->). done. }
  apply DecodeBytes_decodes; [done..|]. apply decodes_struct.
  eapply decodes_bind; [by apply decodes_field, decodes_uint|].
  eapply decodes_bind; [by apply decodes_field, decodes_bigInt|].
  eapply decodes_bind; [apply decodes_field, decodes_byteArray; [done|exact Hr2|done]|].
  eapply decodes_bind; [by apply decodes_field, decodes_bytes|].
  unfold hash_bytes. rewrite be_val_be_bytes. change (8 * Z.of_nat 32) with 256. rewrite Z.mod_small by apply Hr.
  apply decodes_ret.
Qed.

Section persist.
Context {T E : Type} `{!Database T E, !DatabaseLaws T E, !TrieLaws T E}.
Abbreviation stateObject := (@stateObject T E).
Abbreviation StateDB := (@StateDB T E).
Abbreviation M := (st StateDB Empty_set).
Implicit Types (o : stateObject) (d e : StateDB) (a k v : Z) (t : T).

(** ** The slot caches of an object *)

(** The slots cached from the trie are the slots of the trie, and a slot is
    loaded before it is written. *)
Definition cached_ok o t : Prop :=
  ∀ k v, originStorage o !! k = Some v → is_word k ∧ slot_value (tr_val t (hash_bytes k)) = Ok v.
Definition written_ok o (m : gmap Z Z) : Prop :=
  ∀ k v, m !! k = Some v → is_Some (originStorage o !! k) ∧ is_word v.
Record coherent o : Prop := {
  co_origin t : snd (getTrie o) = Some t → cached_ok o t;
  co_pending : written_ok o (pendingStorage o);
  co_dirty : written_ok o (dirtyStorage o)
}.

Definition same_core o1 o2 : Prop :=
  address o1 = address o2 ∧ addrHash o1 = addrHash o2 ∧ Nonce o1 = Nonce o2 ∧ Balance o1 = Balance o2 ∧
  CodeHash o1 = CodeHash o2 ∧ code o1 = code o2 ∧ suicided o1 = suicided o2 ∧ deleted o1 = deleted o2.
Lemma same_core_trans o1 o2 o3 : same_core o1 o2 → same_core o2 o3 → same_core o1 o3.
Proof. intros (?&?&?&?&?&?&?&?) (?&?&?&?&?&?&?&?). unfold same_core. split_and!; congruence. Qed.

Lemma getTrie_core o : same_core (fst (getTrie o)) o ∧ Root (fst (getTrie o)) = Root o ∧
  originStorage (fst (getTrie o)) = originStorage o ∧ pendingStorage (fst (getTrie o)) = pendingStorage o ∧
  dirtyStorage (fst (getTrie o)) = dirtyStorage o ∧ o_trie (fst (getTrie o)) = snd (getTrie o).
Proof. unfold getTrie. destruct (o_trie o) eqn:Ht; [by split_and!|]. by destruct (OpenStorageTrie _ (Root o)). Qed.

(** The write of one slot. *)
Lemma update_slot_core d kv o tr st o' tr' st' :
  update_slot d kv (o, tr, st) = Ok (o', tr', st') →
  same_core o' o ∧ Root o' = Root o ∧ pendingStorage o' = pendingStorage o ∧ dirtyStorage o' = dirtyStorage o ∧
  (o_dbErr o' = None → o_dbErr o = None) ∧ (o_trie o = tr → o_trie o' = tr').
Proof.
  destruct kv as [k v]. unfold update_slot. destruct (v =? _); [by intros [= <- <- <-]|].
  destruct tr as [t|]; [|done]. cbn [originStorage set_originStorage].
  set (r := if v =? 0 then _ else _). destruct r as [[[t1 err] b]| | |]; try done. cbn.
  intros [= <- <- <-]. destruct err; cbn; [|done]. split_and!; try done. by destruct (o_dbErr o).
Qed.

Lemma update_slot_spec d k v o t st o' tr' st' :
  cached_ok o t → is_Some (originStorage o !! k) → is_word v →
  update_slot d (k, v) (o, Some t, st) = Ok (o', tr', st') → o_dbErr o' = None →
  ∃ t', tr' = Some t' ∧ cached_ok o' t' ∧ originStorage o' = <[k := v]> (originStorage o) ∧
        (∀ k', is_word k' → k' ≠ k → tr_val t' (hash_bytes k') = tr_val t (hash_bytes k')).
Proof.
  intros Hc [w Hw] Hv. destruct (Hc k w Hw) as [Hk Hkw]. unfold update_slot. rewrite Hw. cbn [default from_option id].
  destruct (Z.eqb_spec v w) as [->|Hne].
  { intros [= <- <- <-] _. exists t. split_and!; try done. by rewrite insert_id. }
  assert (∀ (x : bytes) t1, (∀ y : bytes, tr_val t1 y = if decide (y = hash_bytes k) then inr x else tr_val t y) → slot_value (E:=E) (inr x) = Ok v →
    cached_ok (set_o_trie (Some t1) (set_originStorage (<[k := v]> (originStorage o)) o)) t1 ∧
    (∀ k', is_word k' → k' ≠ k → tr_val t1 (hash_bytes k') = tr_val t (hash_bytes k'))) as Hfin.
  { intros x t1 Ht1 Hx. split.
    - intros k1 v1. cbn. destruct (decide (k = k1)) as [<-|Hk1].
      + rewrite lookup_insert_eq. intros [= <-]. split; [done|]. by rewrite Ht1, decide_True.
      + rewrite lookup_insert_ne by done. intros Ho. destruct (Hc k1 v1 Ho) as [Hw1 Hs1]. split; [done|].
        rewrite Ht1, decide_False; [done|]. intros Heq. by apply hash_bytes_inj in Heq.
    - intros k' Hk' Hn. rewrite Ht1, decide_False; [done|]. intros Heq. by apply hash_bytes_inj in Heq. }
  destruct (Z.eqb_spec v 0) as [->|Hv0].
  - destruct (tr_TryDelete (hash_bytes k) t) as [t1 [err|]] eqn:Hd; cbn; intros [= <- <- <-]; cbn.
    + by destruct (o_dbErr o).
    + intros _. exists t1. destruct (Hfin [] t1) as [H1 H2]; [by apply TryDelete_removes|done|]. by split_and!.
  - destruct (slot_round_trip (E:=E) v) as (b & Hb & Hbn & Hbv); [unfold is_word in *; lia|].
    rewrite Hb. destruct (tr_TryUpdate (hash_bytes k) b t) as [t1 [err|]] eqn:Hd; cbn; intros [= <- <- <-]; cbn.
    + by destruct (o_dbErr o).
    + intros _. exists t1. destruct (Hfin b t1) as [H1 H2]; [by apply TryUpdate_stores|done|]. by split_and!.
Qed.

Lemma update_slots_core d l : ∀ o tr st o' tr' st',
  update_slots d l (o, tr, st) = Ok (o', tr', st') →
  same_core o' o ∧ Root o' = Root o ∧ pendingStorage o' = pendingStorage o ∧ dirtyStorage o' = dirtyStorage o ∧
  (o_dbErr o' = None → o_dbErr o = None) ∧ (o_trie o = tr → o_trie o' = tr').
Proof.
  induction l as [|kv l IH]; intros o tr st o' tr' st'; cbn [update_slots]; [by intros [= <- <- <-]|].
  destruct (update_slot d kv (o, tr, st)) as [[[o1 tr1] st1]| | |] eqn:Hu; try done. cbn. intros Hr.
  destruct (update_slot_core _ _ _ _ _ _ _ _ Hu) as (Hc1 & Hr1 & Hp1 & Hd1 & He1 & Ht1).
  destruct (IH _ _ _ _ _ _ Hr) as (Hc2 & Hr2 & Hp2 & Hd2 & He2 & Ht2).
  split; [by apply same_core_trans with o1|]. split_and!; try congruence; auto.
Qed.

Lemma update_slots_spec d l : ∀ o t st o' tr' st',
  NoDup l.*1 → cached_ok o t → (∀ k v, (k, v) ∈ l → is_Some (originStorage o !! k) ∧ is_word v) →
  update_slots d l (o, Some t, st) = Ok (o', tr', st') → o_dbErr o' = None →
  ∃ t', tr' = Some t' ∧ cached_ok o' t' ∧
        (∀ k, originStorage o' !! k = match (list_to_map l : gmap Z Z) !! k with Some v => Some v | None => originStorage o !! k end) ∧
        (∀ k, is_word k → k ∉ l.*1 → tr_val t' (hash_bytes k) = tr_val t (hash_bytes k)).
Proof.
  induction l as [|[k v] l IH]; intros o t st o' tr' st' Hnd Hc Hl; cbn [update_slots].
  { intros [= <- <- <-] _. exists t. split_and!; try done. }
  destruct (update_slot d (k, v) (o, Some t, st)) as [[[o1 tr1] st1]| | |] eqn:Hu; try done. cbn [mbind res_bind]. intros Hr He.
  pose proof (update_slots_core _ _ _ _ _ _ _ _ Hr) as (_ & _ & _ & _ & He1 & _).
  destruct (Hl k v) as [Hk Hv]; [by left|]. cbn in Hnd. apply list.NoDup_cons in Hnd as [Hnk Hnd].
  destruct (update_slot_spec d k v o t st o1 tr1 st1 Hc Hk Hv Hu (He1 He)) as (t1 & -> & Hc1 & Ho1 & Ht1).
  destruct (IH o1 t1 st1 o' tr' st') as (t' & -> & Hc' & Ho' & Ht'); try done.
  { intros k1 v1 Hin. destruct (Hl k1 v1) as [Hk1 Hv1]; [by right|]. split; [|done]. rewrite Ho1.
    destruct (decide (k = k1)) as [<-|]; [by rewrite lookup_insert_eq; eexists|by rewrite lookup_insert_ne]. }
  exists t'. split_and!; try done.
  - intros k1. rewrite Ho', Ho1. cbn. destruct (decide (k = k1)) as [<-|Hne].
    + rewrite lookup_insert_eq, not_elem_of_list_to_map_1 by done. by rewrite lookup_insert_eq.
    + by rewrite !lookup_insert_ne.
  - intros k1 Hk1 [Hne Hnin]%not_elem_of_cons. cbn [fst] in Hne. rewrite Ht' by done. by apply Ht1.
Qed.

Lemma update_slots_nil d l : ∀ o st o' tr' st', update_slots d l (o, None, st) = Ok (o', tr', st') → tr' = None.
Proof.
  induction l as [|[k v] l IH]; intros o st o' tr' st'; cbn [update_slots]; [by intros [= _ <- _]|].
  unfold update_slot at 1. destruct (v =? _); [|done]. apply IH.
Qed.

(** Writing the pending slots leaves a trie that answers every read. *)
Lemma updateTrie_core d o o' tr : updateTrieConcurrencySafe d o = Ok (o', tr) →
  same_core o' o ∧ Root o' = Root o ∧ dirtyStorage o' = dirtyStorage o.
Proof.
  unfold updateTrieConcurrencySafe. destruct (decide _); [by intros [= <- _]|].
  destruct (getTrie_core o) as (Hc & Hr & Ho & Hp & Hd & Ht). destruct (getTrie o) as [o1 tr1]. cbn [fst snd] in *.
  destruct (update_slots d _ (o1, tr1, None)) as [[[o2 tr2] st2]| | |] eqn:Hu; try done. cbn. intros [= <- _].
  destruct (update_slots_core _ _ _ _ _ _ _ _ Hu) as (Hc2 & Hr2 & Hp2 & Hd2 & _).
  cbn. split; [by apply same_core_trans with o2; [|apply same_core_trans with o1]|]. split; congruence.
Qed.

Lemma committed_trie d o k t : snap d = None → snd (getTrie o) = Some t →
  committed d o k = match pendingStorage o !! k with
                    | Some v => Ok v
                    | None => match originStorage o !! k with Some v => Ok v | None => slot_value (tr_val t (hash_bytes k)) end
                    end.
Proof. intros Hs Ht. unfold committed, is_destructed, slot_answer, snap_slot. by rewrite Hs, Ht. Qed.

Lemma updateTrie_answers d o o' tr :
  snap d = None → coherent o → updateTrieConcurrencySafe d o = Ok (o', tr) → o_dbErr o' = None →
  ∀ t k, o_trie o' = Some t → is_word k → slot_value (tr_val t (hash_bytes k)) = committed d o k.
Proof.
  intros Hs [Hco Hcp _]. unfold updateTrieConcurrencySafe. destruct (decide _) as [Hz|Hz].
  { intros [= <- _] _ t k Ht Hk. apply map_size_empty_inv in Hz.
    assert (snd (getTrie o) = Some t) as Hg by (unfold getTrie; by rewrite Ht).
    rewrite (committed_trie d o k t Hs Hg), Hz, lookup_empty. destruct (originStorage o !! k) eqn:Ho; [|done].
    by apply (Hco t Hg k). }
  destruct (getTrie_core o) as (Hc & Hr & Ho & Hp & Hd & Ht). destruct (getTrie o) as [o1 tr1] eqn:Hg. cbn [fst snd] in *.
  destruct (update_slots d _ (o1, tr1, None)) as [[[o2 tr2] st2]| | |] eqn:Hu; try done. cbn [mbind res_bind]. intros [= <- _].
  intros He t k Ht2 Hk. cbn in He, Ht2.
  pose proof (update_slots_core _ _ _ _ _ _ _ _ Hu) as (_ & _ & _ & _ & _ & Htr). rewrite (Htr Ht) in Ht2. subst tr2.
  destruct tr1 as [t1|]; [|by apply update_slots_nil in Hu].
  rewrite Hp in Hu.
  destruct (update_slots_spec d (map_to_list (pendingStorage o)) o1 t1 None o2 (Some t) st2) as (t' & [= <-] & Hc' & Ho' & Ht'); try done.
  { apply NoDup_fst_map_to_list. }
  { intros k1 v1. unfold cached_ok. rewrite Ho. apply (Hco t1 eq_refl). }
  { intros k1 v1 Hin%elem_of_map_to_list. rewrite Ho. by apply (Hcp k1). }
  rewrite (committed_trie d o k t1 Hs) by (by rewrite Hg). specialize (Ho' k). rewrite list_to_map_to_list, Ho in Ho'.
  destruct (pendingStorage o !! k) as [v|] eqn:Hpk; [by apply Hc'|].
  destruct (originStorage o !! k) as [v|] eqn:Hok; [by apply Hc'|].
  rewrite Ht'; [done..|]. intros ([k1 v1] & -> & Hin%elem_of_map_to_list)%list_elem_of_fmap. cbn in Hpk. congruence.
Qed.

(** ** Objects *)

Record obj_ok a o : Prop := {
  ok_address : address o = a;
  ok_Nonce : is_u64 (Nonce o);
  ok_Balance : Balance o < 2 ^ 256;
  ok_Root : is_word (Root o);
  ok_CodeHash : hash_ok (CodeHash o)
}.
Definition objs_ok d : Prop := ∀ a o, stateObjects d !! a = Some o → is_addr a ∧ obj_ok a o ∧ coherent o.

Lemma obj_ok_core a o o' : same_core o' o → is_word (Root o') → obj_ok a o → obj_ok a o'.
Proof. intros (?&?&?&?&?&?&?&?) Hr []. split; congruence. Qed.

Lemma finalise_slots o k : pendingStorage (obj_finalise o) !! k =
  match dirtyStorage o !! k with Some v => Some v | None => pendingStorage o !! k end.
Proof.
  assert (map_fold (λ key value p, <[key := value]> p) (pendingStorage o) (dirtyStorage o) = dirtyStorage o ∪ pendingStorage o) as Hf.
  { induction (dirtyStorage o) as [|x v m Hm Hfold IH] using map_fold_fmap_ind; [by rewrite map_fold_empty, (left_id_L ∅ (∪))|].
    rewrite <-insert_union_l. rewrite map_fold_insert_L; [by rewrite IH| |done].
    intros j1 j2 z1 z2 y Hj _ _. by apply insert_insert_ne. }
  unfold obj_finalise. rewrite Hf.
  assert (pendingStorage (if decide (base.size (dirtyStorage (set_pendingStorage (dirtyStorage o ∪ pendingStorage o) o)) = 0%nat)
    then set_pendingStorage (dirtyStorage o ∪ pendingStorage o) o
    else set_dirtyStorage ∅ (set_pendingStorage (dirtyStorage o ∪ pendingStorage o) o)) = dirtyStorage o ∪ pendingStorage o) as ->
    by (by destruct (decide _)).
  rewrite lookup_union. by destruct (dirtyStorage o !! k), (pendingStorage o !! k).
Qed.
Lemma finalise_fields o : same_core (obj_finalise o) o ∧ Root (obj_finalise o) = Root o ∧
  originStorage (obj_finalise o) = originStorage o ∧ o_trie (obj_finalise o) = o_trie o ∧
  dirtyStorage (obj_finalise o) = ∅ ∧ o_dbErr (obj_finalise o) = o_dbErr o.
Proof.
  unfold obj_finalise. destruct (decide _) as [Hz|]; [|done]. apply map_size_empty_inv in Hz. by split_and!.
Qed.
Lemma finalise_coherent o : coherent o → coherent (obj_finalise o).
Proof.
  intros [Ho Hp Hd]. destruct (finalise_fields o) as ((Ha & Hh & _) & Hr & Hor & Ht & Hdi & _). split.
  - intros t. rewrite (getTrie_same _ o) by done. unfold cached_ok. rewrite Hor. apply Ho.
  - intros k v. rewrite finalise_slots, Hor. destruct (dirtyStorage o !! k) eqn:Hk; [|apply Hp]. intros [= <-]. by apply Hd.
  - intros k v. by rewrite Hdi, lookup_empty.
Qed.
(** After [finalise] the committed slots are the ones [GetState] returns. *)
Lemma finalise_committed d o k : committed d (obj_finalise o) k = current d o k.
Proof.
  destruct (finalise_fields o) as ((Ha & Hh & _) & Hr & Hor & Ht & Hdi & _). unfold committed, current.
  rewrite finalise_slots, Hor. destruct (dirtyStorage o !! k); [done|]. unfold committed, slot_answer, snap_slot, is_destructed.
  by rewrite Hh, (getTrie_same _ o).
Qed.

(** [preUpdateStateObject] on a finalised object. *)
Lemma preUpdate_spec d a o o2 :
  obj_ok a o → preUpdateStateObject d o = Ok o2 →
  same_core o2 o ∧ obj_ok a o2 ∧ accountRLP o2 = account_bytes o2 ∧
  (snap d = None → coherent o → o_dbErr o2 = None → ∀ t k, o_trie o2 = Some t → is_word k →
     slot_value (tr_val t (hash_bytes k)) = committed d o k ∧ ∃ t0, tr_Hash t0 = (t, Root o2)).
Proof.
  intros Hok. unfold preUpdateStateObject.
  destruct (updateTrieConcurrencySafe d o) as [[o1 tr]| | |] eqn:Hu; try done. cbn [mbind res_bind].
  destruct (updateTrie_core d o o1 tr Hu) as (Hc & Hr & _).
  set (o1' := match o_trie o1 with Some t => _ | None => o1 end).
  assert (same_core o1' o ∧ is_word (Root o1') ∧ o_dbErr o1' = o_dbErr o1 ∧
    ∀ t, o_trie o1' = Some t → ∃ t0, o_trie o1 = Some t0 ∧ tr_Hash (E:=E) t0 = (t, Root o1')) as (Hc1 & Hr1 & He1 & Ht1).
  { unfold o1'. destruct (o_trie o1) as [t0|] eqn:Ht0.
    - pose proof (Hash_range (E:=E) t0). destruct (tr_Hash (E:=E) t0) as [t1 h] eqn:Hh.
      split; [done|]. split; [done|]. split; [done|]. intros t [= <-]. by exists t0.
    - split; [done|]. split; [rewrite Hr; apply Hok|]. split; [done|]. intros t Ht. congruence. }
  intros Hres. assert (∃ sl, o2 = set_slimAccountRLP sl (set_accountRLP (account_bytes o1') o1')) as [sl ->].
  { destruct (snap d); [|injection Hres as <-; exists (slimAccountRLP o1'); by destruct o1'].
    destruct (EncodeToBytes _) as [sl| | |]; try done. injection Hres as <-. by exists sl. }
  split; [done|]. split; [by apply (obj_ok_core a o)|]. split; [done|].
  intros Hs Hco He t k Ht Hk. cbn in Ht, He. destruct (Ht1 t Ht) as (t0 & Ht0 & Hh). split; [|by exists t0].
  rewrite <-(updateTrie_answers d o o1 tr Hs Hco Hu) with (t := t0); [|congruence|done|done].
  pose proof (Hash_keeps (E:=E) t0 (hash_bytes k)) as Hkeep. by rewrite Hh in Hkeep; rewrite <-Hkeep.
Qed.

Lemma account_bytes_decode a o enc : obj_ok a o → account_bytes o = Ok enc →
  enc ≠ [] ∧ DecodeBytes_with decodeStateAccount enc =
             Ok (mk_StateAccount (Nonce o) (Some (Balance o)) (Root o) (Some (CodeHash o))).
Proof. intros [_ Hn Hb Hr [Hl Hc]] He. apply account_round_trip; try done. lia. Qed.

(** Reading and writing slots keep the caches coherent. *)
Lemma newObject_coherent a data : coherent (newObject a data).
Proof. split; [intros t _ k v|intros k v..]; cbn; by rewrite lookup_empty. Qed.
Lemma GetCommittedState_coherent d o k o' v : snap d = None → is_word k → coherent o →
  obj_GetCommittedState d o k = Ok (o', v) → coherent o'.
Proof.
  intros Hs Hk Hco. pose proof Hco as [Ho Hp Hd]. unfold obj_GetCommittedState.
  destruct (pendingStorage o !! k); [by intros [= <- _]|]. destruct (originStorage o !! k) eqn:Hor; [by intros [= <- _]|].
  unfold is_destructed, snap_slot. rewrite Hs. destruct (trie_slot o k) as [[o1 r]| | |] eqn:Ht; try done. cbn [mbind res_bind].
  assert (∃ t t1, snd (getTrie o) = Some t ∧ snd (getTrie o1) = Some t1 ∧ r = tr_val t (hash_bytes k) ∧ (∀ x, tr_val t1 x = tr_val t x) ∧
    originStorage o1 = originStorage o ∧ pendingStorage o1 = pendingStorage o ∧ dirtyStorage o1 = dirtyStorage o ∧ o_trie o1 = Some t1)
    as (t & t1 & Hg & Hg1 & -> & Hv & H1 & H2 & H3 & H4).
  { revert Ht. unfold trie_slot. destruct (getTrie_core o) as (_ & _ & E1 & E2 & E3 & E4). destruct (getTrie o) as [o0 [t|]]; [|done].
    pose proof (TryGet_answer (hash_bytes k) t) as Ha. pose proof (TryGet_keeps (hash_bytes k) t) as Hkp.
    destruct (tr_TryGet (hash_bytes k) t) as [t1 r1]. intros [= <- <-]. by exists t, t1. }
  assert (∀ m err, (∀ k' v', m !! k' = Some v' → originStorage o !! k' = Some v' ∨ (k' = k ∧ slot_value (tr_val t (hash_bytes k)) = Ok v')) →
    (∀ k', is_Some (originStorage o !! k') → is_Some (m !! k')) → coherent (set_originStorage m (set_o_dbErr err o1))) as Hfin.
  { intros m err Hm Hsub. split.
    - intros t2 Hg2 k' v' Hm'. cbn in Hm'. assert (t2 = t1) as -> by (unfold getTrie in Hg2; cbn in Hg2; rewrite H4 in Hg2; by injection Hg2).
      rewrite Hv. destruct (Hm k' v' Hm') as [Hx|[-> Hx]]; [by apply (Ho t Hg)|done].
    - intros k' v'. cbn. rewrite H2. intros Hx. destruct (Hp k' v' Hx). split; auto.
    - intros k' v'. cbn. rewrite H3. intros Hx. destruct (Hd k' v' Hx). split; auto. }
  destruct (tr_val t (hash_bytes k)) as [err|enc] eqn:Hval.
  - intros [= <- _]. specialize (Hfin (originStorage o1) (setErr (ErrDB err) (o_dbErr o1))). 
    replace (obj_setError (ErrDB err) o1) with (set_originStorage (originStorage o1) (set_o_dbErr (setErr (ErrDB err) (o_dbErr o1)) o1)) by (by destruct o1).
    apply Hfin; rewrite H1; auto.
  - intros (Hsv & err & ->)%cache_slot_spec. apply Hfin; rewrite H1.
    + intros k' v' [[-> <-]|[? ?]]%lookup_insert_Some; auto.
    + intros k' Hx. destruct (decide (k = k')) as [<-|]; [by rewrite lookup_insert_eq; eexists|by rewrite lookup_insert_ne].
Qed.
Lemma setState_coherent o k v : is_Some (originStorage o !! k) → is_word v → coherent o → coherent (obj_setState k v o).
Proof.
  intros Hk Hv [Ho Hp Hd]. split; [|done|].
  - intros t. rewrite (getTrie_same _ o) by done. apply Ho.
  - intros k' v'. cbn. intros [[-> <-]|[_ Hx]]%lookup_insert_Some; [done|by apply Hd].
Qed.

(** ** The two loops *)

Lemma preUpdate_ext d e o : snap d = snap e → snapStorage d = snapStorage e →
  preUpdateStateObject d o = preUpdateStateObject e o.
Proof.
  intros Hs Ht. assert (∀ l acc, update_slots d l acc = update_slots e l acc) as Hu.
  { induction l as [|kv l IH]; intros acc; [done|]. cbn [update_slots].
    assert (update_slot d kv acc = update_slot e kv acc) as -> by (unfold update_slot; by rewrite Hs, Ht).
    destruct (update_slot e kv acc); [apply IH|done..]. }
  unfold preUpdateStateObject, updateTrieConcurrencySafe. rewrite Hs. destruct (decide _); [done|].
  destruct (getTrie o) as [o1 tr]. by rewrite Hu.
Qed.

Definition prepared d a o2 : Prop := ∃ o, stateObjects d !! a = Some o ∧
  if deleted o then o2 = o else preUpdateStateObject d (obj_finalise o) = Ok o2.

Lemma prepare_loop l : ∀ d d', NoDup l →
  (∀ a o, a ∈ l → stateObjects d !! a = Some o → obj_ok a o) → for_each prepare_account l d = (d', Ok tt) →
  d' = set_stateObjects (stateObjects d') d ∧
  (∀ a, a ∉ l → stateObjects d' !! a = stateObjects d !! a) ∧
  (∀ a, a ∈ l → ∃ o2, stateObjects d' !! a = Some o2 ∧ prepared d a o2).
Proof.
  induction l as [|x l IH]; intros d d' Hnd Hok; cbn [for_each].
  { intros [= <-]. split; [by destruct d|]. split; [done|]. by intros a ?%elem_of_nil. }
  apply list.NoDup_cons in Hnd as [Hx Hnd]. unfold mbind at 1, st_bind at 1.
  destruct (prepare_account x d) as [d1 [[]| | |]] eqn:Hp; try done. intros Hr.
  assert (∃ o2, d1 = set_stateObjects (<[x := o2]> (stateObjects d)) d ∧ prepared d x o2) as (o2 & -> & Hpre).
  { revert Hp. unfold prepare_account, mbind, st_bind, st_get. destruct (stateObjects d !! x) as [o|] eqn:Ho; [|done].
    destruct (deleted o) eqn:Hde.
    - intros [= <-]. exists o. split; [|exists o; by rewrite Hde]. rewrite insert_id by done. by destruct d.
    - unfold st_lift. destruct (preUpdateStateObject d (obj_finalise o)) as [o2| | |] eqn:Hu; try done. intros [= <-].
      exists o2. pose proof (Hok x o ltac:(by left) Ho) as Hoo. destruct (finalise_fields o) as (Hc & Hroot & _).
      destruct (preUpdate_spec d x (obj_finalise o) o2) as (Hc2 & [Ha2 _ _ _ _] & _); [|done|].
      { apply (obj_ok_core x o); [done|rewrite Hroot; apply Hoo|done]. }
      rewrite Ha2. split; [done|]. exists o. by rewrite Hde. }
  set (d1 := set_stateObjects (<[x := o2]> (stateObjects d)) d) in *.
  assert (∀ a, a ≠ x → stateObjects d1 !! a = stateObjects d !! a) as Hne by (intros a Ha; by apply lookup_insert_ne).
  destruct (IH d1 d') as (Hd' & Hout & Hin); [done| |done|].
  { intros a o Ha. rewrite Hne by (intros ->; done). apply Hok. by right. }
  split; [by rewrite Hd'|]. split.
  - intros a [Hax Hal]%not_elem_of_cons. by rewrite Hout, Hne.
  - intros a [->|Ha]%elem_of_cons.
    + exists o2. rewrite Hout by done. split; [apply lookup_insert_eq|done].
    + destruct (Hin a Ha) as (o3 & Ho3 & o & Ho & Hpo). exists o3. split; [done|]. exists o.
      rewrite Hne in Ho by (intros ->; done). split; [done|]. destruct (deleted o); [done|].
      by rewrite <-(preUpdate_ext d1 d).
Qed.

Definition stored d' a o : Prop :=
  if deleted o then stateObjects d' !! a = Some o ∧ tr_val (trie d') (address_bytes a) = inr []
  else ∃ enc o', accountRLP o = Ok enc ∧ tr_val (trie d') (address_bytes a) = inr enc ∧ stateObjects d' !! a = Some o' ∧
                 same_core o' o ∧ Root o' = Root o ∧ o_trie o' = o_trie o ∧ o_dbErr o' = o_dbErr o.

Lemma write_account_spec x d d1 :
  is_addr x → (∀ o, stateObjects d !! x = Some o → address o = x ∧ (∀ enc, deleted o = false → accountRLP o = Ok enc → enc ≠ [])) →
  write_account x d = (d1, Ok tt) →
  (∀ a, a ≠ x → stateObjects d1 !! a = stateObjects d !! a) ∧ (dbErr d1 = None →
  dbErr d = None ∧ (∃ o, stateObjects d !! x = Some o ∧ stored d1 x o) ∧
  (∀ y : bytes, y ≠ address_bytes x → tr_val (trie d1) y = tr_val (trie d) y)).
Proof.
  intros Hx Hok. unfold write_account, mbind at 1, st_bind at 1, st_get.
  destruct (stateObjects d !! x) as [o|] eqn:Ho; [|done]. destruct (Hok o eq_refl) as [Ha Henc]. unfold stored.
  destruct (deleted o) eqn:Hde.
  - unfold deleteStateObject, mbind, st_bind, st_get, st_put. rewrite Ha.
    destruct (tr_TryDelete (address_bytes x) (trie d)) as [t [err|]] eqn:Ht; intros [= <-]; (split; [done|]); cbn [dbErr set_dbErr set_trie].
    { by destruct (dbErr d). }
    pose proof (TryDelete_removes _ _ _ Ht) as Hrm. intros He. split; [done|]. split.
    + exists o. rewrite Hde. split; [done|]. split; [done|]. cbn [trie set_trie]. by rewrite Hrm, decide_True.
    + intros y Hy. cbn [trie set_trie]. by rewrite Hrm, decide_False.
  - unfold updateStateObject, mbind at 1, st_bind at 1.
    assert (∃ d0 o0, updateSnapshot o d = (d0, Ok o0) ∧ same_core o0 o ∧ Root o0 = Root o ∧ o_trie o0 = o_trie o ∧ o_dbErr o0 = o_dbErr o ∧
      accountRLP o0 = accountRLP o ∧ trie d0 = trie d ∧ stateObjects d0 = stateObjects d ∧ dbErr d0 = dbErr d)
      as (d0 & o0 & -> & Hc & Hr & Ht0 & He0 & Hrlp & Htd & Hsd & Hed).
    { unfold updateSnapshot. destruct (o_snapStorage o); by do 2 eexists. }
    rewrite Hrlp. destruct (accountRLP o) as [enc| | |] eqn:Hrl; try done.
    unfold mbind, st_bind, st_get, st_put. assert (address o0 = x) as -> by (destruct Hc; congruence). rewrite Htd.
    destruct (tr_TryUpdate (address_bytes x) enc (trie d)) as [t err] eqn:Ht.
    intros Hw.
    assert (trie d1 = t ∧ stateObjects d1 = <[x := set_accountRLP (Panic runtime_error) (set_slimAccountRLP [] o0)]> (stateObjects d) ∧
      (dbErr d1 = None → err = None ∧ dbErr d = None)) as (Ht1 & Hs1 & He1).
    { destruct Hc as (Hca & _). rewrite <-Hsd, <-Hed, <-Ha, <-Hca. revert Hw.
      destruct err as [err|], (snap d0); intros [= <-]; cbn; (split; [done|]; split; [done|]); by destruct (dbErr d0). }
    rewrite Hs1. split; [intros a Hne; by rewrite lookup_insert_ne|]. intros Hnone. destruct (He1 Hnone) as [-> Hnd].
    pose proof (TryUpdate_stores _ _ _ _ (Henc enc eq_refl eq_refl) Ht) as Hup. rewrite Ht1.
    split; [done|]. split.
    + exists o. split; [done|]. rewrite Hde. exists enc, (set_accountRLP (Panic runtime_error) (set_slimAccountRLP [] o0)).
      split; [done|]. rewrite Hup, decide_True by done. split; [done|]. rewrite lookup_insert_eq. by split_and!; try apply Hc.
    + intros y Hy. by rewrite Hup, decide_False.
Qed.

Lemma write_loop l : ∀ d d', NoDup l →
  (∀ a o, a ∈ l → stateObjects d !! a = Some o → address o = a ∧ (∀ enc, deleted o = false → accountRLP o = Ok enc → enc ≠ [])) →
  Forall is_addr l → for_each write_account l d = (d', Ok tt) → dbErr d' = None →
  dbErr d = None ∧ (∀ a, a ∈ l → ∃ o, stateObjects d !! a = Some o ∧ stored d' a o) ∧
  (∀ y : bytes, (∀ a, a ∈ l → y ≠ address_bytes a) → tr_val (trie d') y = tr_val (trie d) y) ∧
  (∀ a, a ∉ l → stateObjects d' !! a = stateObjects d !! a).
Proof.
  induction l as [|x l IH]; intros d d' Hnd Hok Hl; cbn [for_each].
  { intros [= <-]. split; [done|]. split; [by intros a ?%elem_of_nil|done]. }
  apply list.NoDup_cons in Hnd as [Hx Hnd]. apply Forall_cons_1 in Hl as [Hxa Hl]. unfold mbind at 1, st_bind at 1.
  destruct (write_account x d) as [d1 [[]| | |]] eqn:Hw; try done. intros Hr He.
  destruct (write_account_spec x d d1 Hxa) as [Hne Hwr]; [intros o; apply Hok; by left|done|].
  destruct (IH d1 d' Hnd) as (He1 & Hin & Htr & Hout); try done.
  { intros a o Ha. rewrite Hne by (intros ->; done). apply Hok. by right. }
  destruct (Hwr He1) as (He0 & (o & Ho & Hst) & Hty). split; [done|]. rewrite Forall_forall in Hl. split_and!.
  - intros a [->|Ha]%elem_of_cons.
    + exists o. split; [done|]. unfold stored in *. rewrite Hout by done. rewrite Htr; [done|].
      intros a Ha Heq. assert (x = a) as <- by (apply address_bytes_inj; [done|by apply Hl, list_elem_of_In|done]). done.
    + destruct (Hin a Ha) as (o1 & Ho1 & Hs1). exists o1. by rewrite <-Hne by (intros ->; done).
  - intros y Hy. rewrite Htr by (intros a Ha; apply Hy; by right). apply Hty, Hy. by left.
  - intros a [Hax Hal]%not_elem_of_cons. by rewrite Hout, Hne.
Qed.

(** ** Finalise *)

Lemma finalise_account_ok b x d d1 : objs_ok d → finalise_account b x d = (d1, Ok tt) →
  objs_ok d1 ∧ snap d1 = snap d ∧ trie d1 = trie d.
Proof.
  intros Hok. unfold finalise_account, mbind, st_bind, st_get. destruct (stateObjects d !! x) as [o|] eqn:Ho; [|by intros [= <-]].
  destruct (Hok x o Ho) as (Hx & Hoo & Hco).
  assert (∀ o', obj_ok x o' → coherent o' → ∀ d2, stateObjects d2 = <[x := o']> (stateObjects d) → objs_ok d2) as Hput.
  { intros o' Hok' Hco' d2 Hd2 a o2. rewrite Hd2. intros [[<- <-]|[_ Ha]]%lookup_insert_Some; [done|by apply Hok]. }
  pose proof (ok_address _ _ Hoo) as Hax. destruct (suicided o || b && obj_empty o).
  - intros Hd1. assert (stateObjects d1 = <[x := set_deleted true o]> (stateObjects d) ∧ snap d1 = snap d ∧ trie d1 = trie d) as (Hs & ? & ?).
    { revert Hd1. destruct (snap d) eqn:Hsn; intros [= <-]; cbn; rewrite Hax; by rewrite Hsn. }
    split; [|done]. apply (Hput (set_deleted true o)); [destruct Hoo; by split| |done].
    destruct Hco as [Hc1 Hc2 Hc3]. split; [|done..]. intros t. rewrite (getTrie_same _ o) by done. apply Hc1.
  - destruct (finalise_fields o) as (Hc & Hr & _). pose proof Hc as (Hca & _).
    intros [= <-]. split; [|done]. apply (Hput (obj_finalise o)); [|by apply finalise_coherent|].
    + apply (obj_ok_core x o); [done|rewrite Hr; apply Hoo|done].
    + cbn. by rewrite Hca, Hax.
Qed.
Lemma Finalise_ok b d d1 : objs_ok d → Finalise b d = (d1, Ok tt) → objs_ok d1 ∧ snap d1 = snap d ∧ trie d1 = trie d.
Proof.
  intros Hok. unfold Finalise, mbind at 1, st_bind at 1, st_get. unfold mbind, st_bind.
  assert (∀ l d0 d2, objs_ok d0 → for_each (finalise_account b) l d0 = (d2, Ok tt) → objs_ok d2 ∧ snap d2 = snap d0 ∧ trie d2 = trie d0) as Hloop.
  { induction l as [|x l IH]; intros d0 d2 Hd0; cbn [for_each]; [by intros [= <-]|]. unfold mbind, st_bind.
    destruct (finalise_account b x d0) as [d3 [[]| | |]] eqn:Hx; try done. intros Hr.
    destruct (finalise_account_ok b x d0 d3 Hd0 Hx) as (H3 & Hs3 & Ht3). destruct (IH d3 d2 H3 Hr) as (H2 & Hs2 & Ht2).
    split; [done|]. split; congruence. }
  destruct (for_each _ _ d) as [d2 [[]| | |]] eqn:Hf; try done. destruct (Hloop _ _ _ Hok Hf) as (H2 & Hs2 & Ht2).
  intros [= <-]. destruct (0 <? len (entries d2)); (split; [|done]); intros a o Ho; by apply H2.
Qed.

(** ** The result *)

Lemma getter_value {A} a e r (f : option stateObject → A) : account_of e a = Ok r →
  snd ((o ← getStateObject a; mret (f o)) e) =
  Ok (f (match r with Some o => if deleted o then None else Some o | None => None end)).
Proof.
  intros Hr. unfold getStateObject, mbind, st_bind. destruct (getDeleted_spec a e) as (e1 & -> & _). by rewrite Hr.
Qed.

Record same_account a e d : Prop := {
  sa_Exist : snd (Exist a e) = snd (Exist a d);
  sa_GetBalance : snd (GetBalance a e) = snd (GetBalance a d);
  sa_GetNonce : snd (GetNonce a e) = snd (GetNonce a d);
  sa_GetCodeHash : snd (GetCodeHash a e) = snd (GetCodeHash a d)
}.

Lemma same_account_intro a e d r1 r2 : account_of e a = Ok r1 → account_of d a = Ok r2 →
  match (match r1 with Some o => if deleted o then None else Some o | None => None end),
        (match r2 with Some o => if deleted o then None else Some o | None => None end) with
  | Some o1, Some o2 => Balance o1 = Balance o2 ∧ Nonce o1 = Nonce o2 ∧ CodeHash o1 = CodeHash o2
  | None, None => True
  | _, _ => False
  end → same_account a e d.
Proof.
  intros H1 H2 Hm. split; unfold Exist, GetBalance, GetNonce, GetCodeHash; rewrite !(getter_value a e r1), !(getter_value a d r2) by done;
    destruct (match r1 with Some o => if deleted o then None else Some o | None => None end),
             (match r2 with Some o => if deleted o then None else Some o | None => None end); try done;
    destruct Hm as (Hb & Hn & Hc); congruence.
Qed.

Lemma GetState_loaded d a o k : stateObjects d !! a = Some o → deleted o = false → snd (GetState a k d) = current d o k.
Proof.
  intros Ho Hde. unfold GetState, with_object, getStateObject, getDeletedStateObject, mbind, st_bind, st_get. rewrite Ho. cbn. rewrite Hde.
  unfold st_lift. rewrite <-GetState_value. by destruct (obj_GetState d o k) as [[? ?]|[]| |].
Qed.

(** An account between the two loops. *)
Lemma prepared_spec d a o2 : objs_ok d → prepared d a o2 →
  ∃ o, stateObjects d !! a = Some o ∧ is_addr a ∧ address o2 = a ∧ deleted o2 = deleted o ∧
  (deleted o = false → obj_ok a o2 ∧ same_core o2 o ∧ accountRLP o2 = account_bytes o2 ∧
    (snap d = None → o_dbErr o2 = None → ∀ t k, o_trie o2 = Some t → is_word k →
       slot_value (tr_val t (hash_bytes k)) = snd (GetState a k d) ∧ ∃ t0, tr_Hash t0 = (t, Root o2))).
Proof.
  intros Hok (o & Ho & Hpre). destruct (Hok a o Ho) as (Ha & Hoo & Hco). exists o. split; [done|]. split; [done|].
  destruct (deleted o) eqn:Hde; [subst o2; split; [apply Hoo|]; by split|].
  destruct (finalise_fields o) as (Hc & Hr & _).
  destruct (preUpdate_spec d a (obj_finalise o) o2) as (Hc2 & Hoo2 & Hrlp & Hst); [|done|].
  { apply (obj_ok_core a o); [done|rewrite Hr; apply Hoo|done]. }
  assert (same_core o2 o) as Hc3 by (by apply same_core_trans with (obj_finalise o)).
  split; [apply Hoo2|]. split; [pose proof Hc3 as (_&_&_&_&_&_&_&->); done|]. intros _. do 3 (split; [done|]).
  intros Hs He t k Ht Hk. destruct (Hst Hs (finalise_coherent o Hco) He t k Ht Hk) as [Hv Hh]. split; [|done].
  by rewrite Hv, finalise_committed, (GetState_loaded d a o).
Qed.

(** Reading an account back from the trie it was written to. *)
Lemma stored_reads a d1 d3 e o o2 :
  (∀ k : bytes, tr_val (trie e) k = tr_val (trie d3) k) → snap e = None → stateObjects e !! a = None →
  stateObjects d1 !! a = Some o → deleted o2 = deleted o → stored d3 a o2 →
  (deleted o = false → obj_ok a o2 ∧ same_core o2 o ∧ accountRLP o2 = account_bytes o2) → same_account a e d1.
Proof.
  intros Hkeep Hse Hoe Ho Hde Hst Hlive. pose proof (account_of_loaded d1 a o Ho) as Hacc.
  assert (account_of e a = data ← loaded_data e a; Ok (option_map (newObject a) data)) as Hae
    by (unfold account_of; by rewrite Hoe).
  assert (∀ enc, tr_val (trie d3) (address_bytes a) = inr enc → loaded_data e a =
    if len enc =? 0 then Ok None else
      match DecodeBytes_with decodeStateAccount enc with
      | Ok data => Ok (Some data) | Err _ => Ok None | Panic p => Panic p | OutOfFuel => OutOfFuel end) as Hld.
  { intros enc Henc. unfold loaded_data, snap_account. by rewrite Hse, Hkeep, Henc. }
  unfold stored in Hst. rewrite Hde in Hst. destruct (deleted o) eqn:Hdo.
  - destruct Hst as [_ Hst]. rewrite (Hld _ Hst) in Hae. apply (same_account_intro a e d1 None (Some o)); [done..|]. by rewrite Hdo.
  - destruct Hst as (enc & o' & Henc & Hst & _). destruct (Hlive eq_refl) as (Hoo & Hc & Hrlp).
    destruct (account_bytes_decode a o2 enc Hoo) as [Hne Hdec]; [congruence|].
    rewrite (Hld _ Hst), Hdec in Hae. destruct enc as [|x enc]; [done|].
    rewrite len_cons in Hae. pose proof (len_nonneg enc). rewrite (proj2 (Z.eqb_neq _ 0)) in Hae by lia.
    apply (same_account_intro a e d1 _ (Some o) Hae Hacc). cbn. rewrite Hdo.
    destruct Hc as (_ & _ & Hn & Hb & Hch & _). split_and!; done.
Qed.

(** C8: [IntermediateRoot] writes the state it shows: for every account pending after
    the transaction was finalised, a database opened on the resulting account trie
    returns the same existence, balance, nonce and code hash; a deleted account is
    gone from the trie; the account's storage trie, whose hash is the stored root,
    holds the value [GetState] returned for every slot; and no other account of the
    trie is changed. *)
Theorem IntermediateRoot_persists b d d1 d' root :
  objs_ok d → Finalise b d = (d1, Ok tt) → IntermediateRoot b d = (d', Ok root) → dbErr d' = None →
  stateObjectsPending d' = ∅ ∧
  ∀ a, is_addr a →
    (a ∉ stateObjectsPending d1 → tr_val (trie d') (address_bytes a) = tr_val (trie d) (address_bytes a)) ∧
    (a ∈ stateObjectsPending d1 →
       (∀ e, trie e = trie d' → snap e = None → stateObjects e !! a = None → same_account a e d1) ∧
       (∀ o' t k, stateObjects d' !! a = Some o' → deleted o' = false → o_dbErr o' = None → snap d = None →
          o_trie o' = Some t → is_word k →
          slot_value (tr_val t (hash_bytes k)) = snd (GetState a k d1) ∧ ∃ t0, tr_Hash t0 = (t, Root o'))).
Proof.
  intros Hok Hfin Hint He. destruct (Finalise_ok b d d1 Hok Hfin) as (Hok1 & Hsn & Htr). revert Hint.
  unfold IntermediateRoot, mbind at 1, st_bind at 1. rewrite Hfin. unfold mbind, st_bind, st_get.
  set (l := elements (stateObjectsPending d1)).
  destruct (for_each prepare_account l d1) as [d2 [[]| | |]] eqn:Hp; try done.
  destruct (for_each write_account l d2) as [d3 [[]| | |]] eqn:Hw; try done.
  pose proof (Hash_keeps (E:=E) (trie d3)) as Hkeep. destruct (tr_Hash (E:=E) (trie d3)) as [t3 h]. intros [= <- <-].
  cbn [fst] in Hkeep. cbn in He. split; [done|].
  destruct (prepare_loop l d1 d2) as (Hd2 & Hout2 & Hin2); [apply NoDup_elements|by intros a o _ Ho; apply Hok1|done|].
  assert (∀ a, a ∈ l → is_addr a) as Hla.
  { intros a Ha. destruct (Hin2 a Ha) as (o2 & _ & Hpre). by destruct (prepared_spec d1 a o2 Hok1 Hpre) as (_ & _ & ? & _). }
  destruct (write_loop l d2 d3) as (_ & Hin3 & Htr3 & Hout3); [apply NoDup_elements| | |done..|].
  { intros a o Ha Ho. destruct (Hin2 a Ha) as (o2 & Ho2 & Hpre). assert (o2 = o) as -> by congruence.
    destruct (prepared_spec d1 a o Hok1 Hpre) as (o1 & _ & _ & Hao & Hde & Hnd). split; [done|]. intros enc Hdel Hrlp.
    destruct Hnd as (Hoo & _ & Hrl & _); [congruence|]. apply (account_bytes_decode a o); [done|congruence]. }
  { apply Forall_forall. intros a Ha. by apply Hla, list_elem_of_In. }
  assert (trie d2 = trie d1) as Htr2 by (by rewrite Hd2). cbn [trie set_stateObjectsPending set_trie stateObjects].
  intros a Ha. split.
  - intros Hna. rewrite Hkeep, Htr3, Htr2, Htr; [done|]. intros a' Ha' Heq. apply Hna, elem_of_elements.
    assert (a = a') as -> by (apply address_bytes_inj; [done|by apply Hla|done]). done.
  - intros Hpa%elem_of_elements. fold l in Hpa. destruct (Hin3 a Hpa) as (o2 & Ho2 & Hst).
    destruct (Hin2 a Hpa) as (o2' & Ho2' & Hpre). assert (o2' = o2) as -> by congruence.
    destruct (prepared_spec d1 a o2 Hok1 Hpre) as (o & Ho & _ & Ha2 & Hde & Hlive).
    split.
    + intros e Hte Hse Hoe. apply (stored_reads a d1 d3 e o o2); try done; [by rewrite Hte|].
      intros Hdo. destruct (Hlive Hdo) as (? & ? & ? & _). done.
    + intros o' t k Ho' Hdel' Herr' Hsd Ht Hk. unfold stored in Hst. rewrite Hde in Hst. destruct (deleted o) eqn:Hdo.
      * destruct Hst as [Hst _]. assert (o' = o2) as -> by congruence. congruence.
      * destruct Hst as (enc & o3 & _ & _ & Ho3 & _ & Hr3 & Ht3 & He3). assert (o3 = o') as -> by congruence.
        destruct (Hlive eq_refl) as (_ & _ & _ & Hsl). rewrite Hr3. apply Hsl; congruence.
Qed.
End persist.

(** ** A concrete database *)

#[export] Instance toy_TrieLaws : TrieLaws toy_trie unit.
Proof.
  split.
  - done.
  - intros t. cbn. apply Z.mod_pos_bound. lia.
  - intros k v t t' Hv [= <-] k'. destruct (decide (k' = k)) as [->|Hne].
    + exact (f_equal (λ x, inr (default [] x)) (lookup_insert_eq (M:=gmap (list Z)) t k v)).
    + exact (f_equal (λ x, inr (default [] x)) (lookup_insert_ne (M:=gmap (list Z)) t k k' v (not_eq_sym Hne))).
  - intros k t t' [= <-] k'. destruct (decide (k' = k)) as [->|Hne].
    + exact (f_equal (λ x, inr (default [] x)) (lookup_delete_eq (M:=gmap (list Z)) t k)).
    + exact (f_equal (λ x, inr (default [] x)) (lookup_delete_ne (M:=gmap (list Z)) t k k' (not_eq_sym Hne))).
Defined.

(** Account 10, whose slot 1 holds 5 in the trie, after a transaction wrote 9. *)
Definition changed_account : @stateObject toy_trie unit :=
  set_dirtyStorage {[1 := 9]} (set_originStorage {[1 := 5]} (newObject 10 (mk_StateAccount 1 (Some 5) 7 None))).
Definition changed_state : @StateDb.StateDB toy_trie unit :=
  set_dirties {[10 := 1]} (set_entries [storageChange 10 1 5] (set_stateObjects {[10 := changed_account]} toy_state)).

Lemma changed_ok : objs_ok changed_state.
Proof.
  intros a o Ho. unfold changed_state in Ho. cbn in Ho. apply lookup_singleton_Some in Ho as [<- <-]. split; [done|].
  split; [by split; [..|apply hash_bytes_ok]|]. split.
  - intros t [= <-] k v Hk. unfold changed_account in Hk. cbn in Hk. apply lookup_singleton_Some in Hk as [<- <-]. split; [done|]. vm_compute. done.
  - intros k v. cbn. by rewrite lookup_empty.
  - intros k v Hk. unfold changed_account in Hk. cbn in Hk. apply lookup_singleton_Some in Hk as [<- <-]. split; [by eexists|done].
Qed.

Lemma IntermediateRoot_persists_witness :
  ∃ d1 d' root, Finalise true changed_state = (d1, Ok tt) ∧ IntermediateRoot true changed_state = (d', Ok root) ∧
    stateObjectsPending d' = ∅ ∧ (10 ∈ stateObjectsPending d1 → ∀ e : @StateDb.StateDB toy_trie unit,
      trie e = trie d' → snap e = None → stateObjects e !! 10 = None → same_account 10 e d1).
Proof.
  assert (is_addr 10) as Haddr by done.
  destruct (Finalise true changed_state) as [d1 r1] eqn:H1.
  assert (snd (Finalise true changed_state) = Ok tt) as Hs1 by (vm_compute; reflexivity). rewrite H1 in Hs1. cbn [snd] in Hs1. subst r1.
  destruct (IntermediateRoot true changed_state) as [d' r2] eqn:H2.
  assert (snd (IntermediateRoot true changed_state) = Ok 1) as Hs2 by (vm_compute; reflexivity). rewrite H2 in Hs2. cbn [snd] in Hs2. subst r2.
  assert (dbErr (fst (IntermediateRoot true changed_state)) = None) as Hs3 by (vm_compute; reflexivity). rewrite H2 in Hs3. cbn [fst] in Hs3.
  destruct (IntermediateRoot_persists true changed_state d1 d' 1 changed_ok H1 H2 Hs3) as [Hp Ha].
  exists d1, d', 1. split; [reflexivity|]. split; [reflexivity|]. split; [exact Hp|].
  intros Hin. destruct (Ha 10 Haddr) as [_ Hpend]. apply (Hpend Hin).
Defined.

Lemma SetStorage_New_panics_witness :
  ∃ d : @StateDb.StateDB toy_trie unit, New 7 None = inr d ∧ SetStorage 10 [(1, 9)] d = (d, Panic runtime_error).
Proof. eexists. split; [reflexivity|]. apply (SetStorage_New_panics 7 None). reflexivity. Defined.
