(* ===== verification/StateEvm.v ===== *)
(** * The state database under the EVM (src/geth/core/state, core/evm.go)

    The journaled state database implements the interface of the EVM.  A panic of
    the database ends the run of the machine, so a world is a database or a
    panic that nothing gets out of.  The getters load data into caches; what
    they load is invisible, so the interface drops it.

    The theorem joins the two components: a message call that fails leaves the
    database as every getter saw it before, whatever the contracts did. *)
From stdpp Require Import gmap.
From S2P Require Import Prelude RlpBase StateAccess StateDb StateJournal StateUndo StateOps StateRevert.
From S2P Require Import EvmAnalysis EvmBase EvmMachine EvmGas EvmTable EvmInterp EvmTrace EvmTheorems.

(** [core.CanTransfer] and [core.Transfer] on the interface of the EVM. *)
Definition core_CanTransfer {W} `{!EvmBase.StateDB W} (w : W) (addr amount : Z) : bool :=
  amount <=? EvmBase.GetBalance w addr.
Definition core_Transfer {W} `{!EvmBase.StateDB W} (sender recipient amount : Z) (w : W) : W :=
  EvmBase.AddBalance recipient amount (EvmBase.SubBalance sender amount w).

Section instance.
Context {T E : Type} `{!Database T E}.
Abbreviation SDB := (@StateDb.StateDB T E).
Abbreviation M := (st SDB Empty_set).

(** A database, or the panic it ended in. *)
Definition world : Type := res Empty_set SDB.

Definition run_st {A} (m : M A) (w : world) : world :=
  match w with
  | Ok d =>
      match m d with
      | (d', Ok _) => Ok d'
      | (_, Err e) => Err e
      | (_, Panic p) => Panic p
      | (_, OutOfFuel) => OutOfFuel
      end
  | _ => w
  end.
Definition ask {A} (m : M A) (none : A) (w : world) : A :=
  match w with Ok d => match snd (m d) with Ok a => a | _ => none end | _ => none end.

(** Addresses are the low 20 bytes of a word, the refund counter is a [uint64]. *)
#[export] Instance StateDB_world (blockNumber : Z) : EvmBase.StateDB world := {
  CreateAccount a := run_st (StateDb.CreateAccount (Bytes20 a));
  SubBalance a x := run_st (StateDb.SubBalance (Bytes20 a) x);
  AddBalance a x := run_st (StateDb.AddBalance (Bytes20 a) x);
  GetBalance w a := ask (StateDb.GetBalance (Bytes20 a)) 0 w;
  GetNonce w a := ask (StateDb.GetNonce (Bytes20 a)) 0 w;
  SetNonce a n := run_st (StateDb.SetNonce (Bytes20 a) n);
  GetCodeHash w a := ask (StateDb.GetCodeHash (Bytes20 a)) 0 w;
  GetCode w a := default [] (ask (StateDb.GetCode (Bytes20 a)) None w);
  SetCode a c := run_st (StateDb.SetCode (Bytes20 a) c);
  GetCodeSize w a := ask (StateDb.GetCodeSize (Bytes20 a)) 0 w;
  AddRefund g := run_st (StateDb.AddRefund g);
  SubRefund g w := match w, run_st (StateDb.SubRefund g) w with Ok _, Panic p => Panic p | _, w' => Ok w' end;
  GetRefund w := u64 (ask StateDb.GetRefund 0 w);
  GetCommittedState w a k := ask (StateDb.GetCommittedState (Bytes20 a) k) 0 w;
  GetState w a k := ask (StateDb.GetState (Bytes20 a) k) 0 w;
  SetState a k v := run_st (StateDb.SetState (Bytes20 a) k v);
  Suicide a := run_st (StateDb.Suicide (Bytes20 a));
  HasSuicided w a := ask (StateDb.HasSuicided (Bytes20 a)) false w;
  Exist w a := ask (StateDb.Exist (Bytes20 a)) false w;
  Empty w a := ask (StateDb.Empty (Bytes20 a)) true w;
  AddressInAccessList w a := ask (StateDb.AddressInAccessList (Bytes20 a)) false w;
  SlotInAccessList w a s := ask (StateDb.SlotInAccessList (Bytes20 a) s) (false, false) w;
  AddAddressToAccessList a := run_st (StateDb.AddAddressToAccessList (Bytes20 a));
  AddSlotToAccessList a s := run_st (StateDb.AddSlotToAccessList (Bytes20 a) s);
  RevertToSnapshot id := run_st (StateDb.RevertToSnapshot id);
  Snapshot w := (ask StateDb.Snapshot 0 w, run_st StateDb.Snapshot w);
  AddLog a topics data := run_st (StateDb.AddLog (mk_Log (Bytes20 a) topics data blockNumber 0 0 0 0 false));
  AddPreimage h data := run_st (StateDb.AddPreimage h data)
}.
End instance.

Section composition.
Context {T E : Type} `{!Database T E, !DatabaseLaws T E} `{!Uint256} (blockNumber : Z).
Abbreviation SDB := (@StateDb.StateDB T E).
Abbreviation M := (st SDB Empty_set).
Abbreviation world := (@world T E).
#[local] Existing Instance StateDB_world.
#[local] Instance the_StateDB : EvmBase.StateDB world := StateDB_world blockNumber.
Context (env : Env world).
Context (Htransfer : ∀ a b x w, Transfer env a b x w = core_Transfer a b x w).
Implicit Types (d : SDB) (w : world).

Lemma Bytes20_addr a : is_addr (Bytes20 a).
Proof. apply Z.mod_pos_bound. lia. Qed.

Lemma run_st_ok {A} (m : M A) w d' : run_st m w = Ok d' → ∃ d a, w = Ok d ∧ m d = (d', Ok a).
Proof.
  destruct w as [d|[]| |]; cbn; try done. destruct (m d) as [d1 [a|[]| |]] eqn:Hm; try done.
  intros [= <-]. by exists d, a.
Qed.

Lemma sub_refund_ok g w d' : EvmBase.SubRefund g w = Ok (Ok d' : world) → run_st (StateDb.SubRefund g) w = Ok d'.
Proof.
  unfold EvmBase.SubRefund, the_StateDB, StateDB_world.
  destruct w as [d|[]| |]; [|by intros [= ]..]. by destruct (run_st (StateDb.SubRefund g) (Ok d)) as [d1|[]| |]; [intros [= <-]|intros [= ]..].
Qed.

(** A step of the machine that the journal can undo. *)
Definition safe w w' : Prop :=
  ∀ d', w' = Ok d' → ∃ d, w = Ok d ∧ ∀ d0 id, since d0 id d → since d0 id d'.

Lemma safe_run {A} (m : M A) w : Good m → safe w (run_st m w).
Proof.
  intros Hm d' (d & a & -> & Hd)%run_st_ok. exists d. split; [done|]. intros d0 id Hs.
  apply (since_Ext d0 id d); [done|]. apply (Hm d d' a); [apply Hs|done].
Qed.
Lemma safe_trans w1 w2 w3 : safe w1 w2 → safe w2 w3 → safe w1 w3.
Proof.
  intros H12 H23 d3 Hd3. destruct (H23 d3 Hd3) as (d2 & Hd2 & Hs23). destruct (H12 d2 Hd2) as (d1 & Hd1 & Hs12).
  exists d1. split; [done|]. intros d0 id Hs. by apply Hs23, Hs12.
Qed.

Lemma safe_revert w w1 : safe (snd (EvmBase.Snapshot w)) w1 → safe w (EvmBase.RevertToSnapshot (fst (EvmBase.Snapshot w)) w1).
Proof.
  intros Hs d' (d1 & [] & -> & Hd)%run_st_ok. destruct (Hs d1 eq_refl) as (ds & Hds & Hs').
  destruct (run_st_ok _ _ _ Hds) as (d & id' & -> & Hsnap). exists d. split; [done|].
  injection Hsnap as <- <-. intros d0 id Hd0.
  assert (id < nextRevisionId d) as Hid.
  { destruct (since_valid _ _ _ Hd0) as [rs Hrs].
    destruct (revs_bound _ (since_revs _ _ _ Hd0) (length (validRevisions d0)) (id, len (entries d0))) as [? _]; [|done].
    by rewrite Hrs, list_lookup_middle. }
  apply (RevertToSnapshot_since d0 id d1) with (id' := nextRevisionId d) (x := tt); [|done|exact Hd].
  apply Hs'. exact (Snapshot_since d0 id d Hd0).
Qed.

Lemma trace_safe {org : Origin world} w w' : Tr env w w' → safe w w'.
Proof.
  induction 1.
  - intros d' ->. by exists d'.
  - by apply safe_trans with w2.
  - apply safe_run, CreateAccount_Good, Bytes20_addr.
  - apply safe_run, AddBalance_Good, Bytes20_addr.
  - rewrite Htransfer. apply safe_trans with (EvmBase.SubBalance a x w).
    + apply safe_run, SubBalance_Good, Bytes20_addr.
    + apply safe_run, AddBalance_Good, Bytes20_addr.
  - apply safe_run, SetNonce_Good, Bytes20_addr.
  - apply safe_run, SetCode_Good, Bytes20_addr.
  - apply safe_run, SetState_Good, Bytes20_addr.
  - apply safe_trans with (EvmBase.AddBalance b (EvmBase.GetBalance w a) w).
    + apply safe_run, AddBalance_Good, Bytes20_addr.
    + apply safe_run, Suicide_Good, Bytes20_addr.
  - apply safe_run, AddRefund_Good.
  - intros d' ->. by apply (safe_run (StateDb.SubRefund g) w); [apply SubRefund_Good|apply sub_refund_ok].
  - apply safe_run, AddAddressToAccessList_Good.
  - apply safe_run, AddSlotToAccessList_Good.
  - apply safe_run, AddLog_Good.
  - apply safe_run, AddPreimage_Good.
  - intros d' (d & id & -> & Hd)%run_st_ok. injection Hd as <- <-. exists d. split; [done|].
    intros d0 id0 Hs. exact (Snapshot_since d0 id0 d Hs).
  - by apply safe_revert.
Qed.

(** The state after a revert to the snapshot of [d]. *)
Lemma reverted_state {org : Origin world} d d' w1 :
  inv d → revs_ok d → Tr env (snd (EvmBase.Snapshot (Ok d : world))) w1 →
  EvmBase.RevertToSnapshot (fst (EvmBase.Snapshot (Ok d : world))) w1 = Ok d' →
  state_equiv d' d ∧ inv d' ∧ revs_ok d'.
Proof.
  intros Hi Hr Htr He'.
  apply run_st_ok in He' as (d1 & [] & -> & Hrev). destruct (trace_safe _ _ Htr d1 eq_refl) as (ds & Hds & Hs).
  injection Hds as <-. destruct (Hs d (nextRevisionId d) (Snapshot_begin d Hi Hr)) as [Hi1 Hr1 [rs Hrs] [es [He Hh]]].
  assert (validRevisions d1 !! length (validRevisions d) = Some (nextRevisionId d, len (entries d))) as Hl
    by (by rewrite Hrs, list_lookup_middle).
  destruct (RevertToSnapshot_spec d d1 (length (validRevisions d)) (nextRevisionId d) (len (entries d)) [] es)
    as (d3 & Hd3 & Hi3 & Hh3 & He3 & Hv3 & Hn3); try done.
  { by rewrite app_nil_r. }
  change (StateDb.RevertToSnapshot (nextRevisionId d) d1 = (d', Ok tt)) in Hrev. rewrite Hd3 in Hrev. injection Hrev as <-.
  split; [by apply Hist_nil_equiv|]. split; [done|].
  rewrite Hrs, take_app_length in Hv3. rewrite app_nil_r in He3.
  destruct (revs_bound _ Hr1 _ _ Hl) as [Hid _]. cbn in Hid. destruct Hr as [Hso Hb].
  split; rewrite Hv3; [done|]. intros i r Hir. destruct (Hb i r Hir). rewrite Hn3, He3. lia.
Qed.
Lemma reverted_view {org : Origin world} d d' e' :
  inv d → revs_ok d → reverted env (Ok d) e' → db e' = Ok d' → same_view d' d.
Proof.
  intros Hi Hr (w1 & Htr & He') Hd'. rewrite Hd' in He'. symmetry in He'.
  by apply state_equiv_view, (reverted_state d d' w1).
Qed.

(** C1: a failed message call changes nothing: if the EVM runs a call over the
    journaled database and returns any error, out of gas or a revert for example,
    then every getter of the database returns what it returned before the call,
    whatever code was run and however deep the calls were nested. *)
Theorem failed_call_leaves_state fuel caller addr input gas value e e' ret g err d d' :
  db e = Ok d → inv d → revs_ok d →
  evm_Call env fuel caller addr input gas value e = (e', Ok (ret, g, Some err)) → db e' = Ok d' →
  same_view d' d.
Proof.
  intros Hd Hi Hr Hc Hd'. unfold evm_Call, mbind, st_bind, st_modify in Hc.
  apply (Call_failed (org:=of_message (db e) value)) in Hc as [(-> & _)|Hrev];
    [| |apply of_message_allowed|reflexivity|apply loop_trace].
  - change (db e = Ok d') in Hd'. assert (d' = d) as -> by congruence. apply state_equiv_view. reflexivity.
  - change (reverted (org:=of_message (db e) value) env (db e) e') in Hrev. rewrite Hd in Hrev. by apply (reverted_view d d' e' Hi Hr Hrev).
Qed.
End composition.

(** ** A call over a concrete database *)

(** Account 2 holds code that writes slot 0 and then runs an invalid opcode. *)
Definition example_code : bytes := [0x60; 1; 0x60; 0; 0x55; 0xfe].
Definition example_db : @StateDb.StateDB toy_trie unit :=
  set_access (mk_accessList {[2 := -1]} [])
    (set_stateObjects {[2 := StateDb.set_code (Some example_code) (newObject 2 (mk_StateAccount 1 (Some 5) 7 None))]} toy_state).
#[local] Instance example_StateDB : EvmBase.StateDB (@world toy_trie unit) := StateDB_world 100.
Definition example_env : Env (@world toy_trie unit) := mk_Env _ london 1 core_CanTransfer core_Transfer (λ _, 0) None None
  5 30000000 100 1000 1 (Some 7) 9 1 false false (λ _, None) (Keccak256 (T:=toy_trie) (E:=unit)) (λ _, None).
Definition example_evm : EVM (@world toy_trie unit) := mk_EVM (Ok example_db) 0 0 false [] ∅.

Lemma example_inv : inv example_db.
Proof.
  split; [|split; cbn|done].
  - intros a o Ha Ho. unfold account_of in Ho. destruct (stateObjects example_db !! a) as [o1|] eqn:Hl.
    + unfold example_db in Hl. cbn in Hl. apply lookup_singleton_Some in Hl as [<- <-]. injection Ho as <-.
      split; [done|]. split; [done|]. apply hash_bytes_ok.
    + exfalso. revert Ho. clear. vm_compute. done.
  - intros a i Hl Hi. apply lookup_singleton_Some in Hl as [_ <-]. done.
  - intros a b i Hl Hl' Hi. apply lookup_singleton_Some in Hl as [_ <-]. done.
Qed.

Lemma example_revs : revs_ok example_db.
Proof. split; cbn; intros; by rewrite ?lookup_nil in *. Qed.

Lemma failed_call_leaves_state_witness :
  ∃ e' d', evm_Call example_env 20 1 2 [] 50000 0 example_evm = (e', Ok ([], 0, Some (ErrInvalidOpCode 0xfe))) ∧
    db e' = Ok d' ∧ same_view d' example_db.
Proof.
  assert (is_ok (db (fst (evm_Call example_env 20 1 2 [] 50000 0 example_evm)))) as Hok by (vm_compute; exact I).
  assert (snd (evm_Call example_env 20 1 2 [] 50000 0 example_evm) = Ok ([], 0, Some (ErrInvalidOpCode 0xfe)))
    as Hs by (vm_cast_no_check (@eq_refl (res Empty_set callres) (Ok ([], 0, Some (ErrInvalidOpCode 0xfe))))).
  destruct (evm_Call example_env 20 1 2 [] 50000 0 example_evm) as [e' r] eqn:Hr.
  cbn [snd] in Hs. subst r. cbn [fst] in Hok. destruct (db e') as [d'|[]| |] eqn:Hd; cbn [is_ok] in Hok; [|destruct Hok..].
  exists e', d'. split; [reflexivity|]. split; [exact Hd|].
  apply (failed_call_leaves_state 100 example_env (λ a b x w, eq_refl) 20 1 2 [] 50000 0 example_evm e' [] 0
    (ErrInvalidOpCode 0xfe) example_db d'); [reflexivity|apply example_inv|apply example_revs|exact Hr|exact Hd].
Defined.
