(* ===== verification/StateLedger.v ===== *)
(** * Balances of the journaled state database (src/geth/core/state, core/evm.go)

    What each operation does to the balance of every account, and the sum of all
    balances.  Over the interface of the EVM this gives the ledger property of a
    run: whatever code is executed, however calls fail and are reverted, no
    balance gets negative and the sum of all balances does not grow. *)
From stdpp Require Import gmap.
From S2P Require Import Prelude RlpBase StateAccess StateDb StateJournal StateUndo StateOps StateRevert.
From S2P Require Import EvmAnalysis EvmBase EvmMachine EvmGas EvmTable EvmInterp EvmTrace StateEvm.

(** ** Sums over all addresses *)

Fixpoint sum_of (f : Z → Z) (l : list Z) : Z :=
  match l with [] => 0 | a :: l => f a + sum_of f l end.

Lemma sum_of_ext f g l : (∀ a, a ∈ l → f a = g a) → sum_of f l = sum_of g l.
Proof.
  induction l as [|b l IH]; [done|]. intros Hfg. cbn. rewrite (Hfg b), IH; [done| |set_solver]. intros a Ha. apply Hfg. set_solver.
Qed.
Lemma sum_of_change f g l a x :
  NoDup l → a ∈ l → (∀ b, b ∈ l → g b = f b + if decide (b = a) then x else 0) → sum_of g l = sum_of f l + x.
Proof.
  induction 1 as [|b l Hb _ IH]; [set_solver|]. intros Ha Hg. cbn. rewrite (Hg b) by set_solver.
  apply elem_of_cons in Ha as [->|Ha].
  - rewrite decide_True by done. rewrite (sum_of_ext g f l); [lia|]. intros c Hc. rewrite (Hg c) by set_solver.
    rewrite decide_False by set_solver. lia.
  - rewrite decide_False by set_solver. rewrite IH; [lia|done|]. intros c Hc. apply Hg. set_solver.
Qed.

(** The list of all addresses, sealed: it is far too long to be evaluated. *)
Definition all_addresses_aux : seal (seqZ 0 (2 ^ 160)).
Proof. by eexists. Qed.
Definition all_addresses : list Z := unseal all_addresses_aux.
Lemma all_addresses_NoDup : NoDup all_addresses.
Proof. unfold all_addresses. rewrite (seal_eq all_addresses_aux). apply NoDup_seqZ. Qed.
Lemma elem_of_all a : a ∈ all_addresses ↔ is_addr a.
Proof. unfold all_addresses, is_addr. rewrite (seal_eq all_addresses_aux), elem_of_seqZ. lia. Qed.

(** ** The balance of an account *)

Section balances.
Context {T E : Type} `{!Database T E, !DatabaseLaws T E}.
Abbreviation SDB := (@StateDb.StateDB T E).
Abbreviation M := (st SDB Empty_set).
Implicit Types (d : SDB) (a b x : Z).

Definition held (r : res Empty_set (option (@stateObject T E))) : Z :=
  match r with Ok (Some o) => if deleted o then 0 else Balance o | _ => 0 end.
Definition bal d a : Z := held (account_of d a).
Definition supply d : Z := sum_of (bal d) all_addresses.
(** No account owes anything. *)
Definition solvent d : Prop := ∀ a, is_addr a → 0 ≤ bal d a.

(** The balance of [a] changes by [x], and no other one. *)
Definition shifts a x d d' : Prop := ∀ b, is_addr b → bal d' b = bal d b + if decide (b = a) then x else 0.
Definition still d d' : Prop := ∀ b, is_addr b → bal d' b = bal d b.

Lemma still_trans d1 d2 d3 : still d1 d2 → still d2 d3 → still d1 d3.
Proof. intros H1 H2 b Hb. by rewrite H2, H1. Qed.
Lemma still_shifts a x d1 d2 d3 : still d1 d2 → shifts a x d2 d3 → shifts a x d1 d3.
Proof. intros H1 H2 b Hb. by rewrite H2, H1. Qed.
Lemma shifts_0 a d d' : shifts a 0 d d' ↔ still d d'.
Proof. split; intros H b Hb; rewrite (H b Hb); [|symmetry]; destruct (decide _); lia. Qed.
Lemma still_ext d d' :
  stateObjects d' = stateObjects d → snap d' = snap d → trie d' = trie d → still d d'.
Proof. intros Ho Hs Ht b _. unfold bal. by rewrite (account_of_ext d' d) by congruence. Qed.
Lemma still_equiv d d' : state_equiv d' d → still d d'.
Proof.
  intros Heq b Hb. pose proof (se_account _ _ Heq b Hb) as Ha. unfold bal, held, acc_equiv in *.
  destruct (account_of d' b) as [[o1|]|[]| |], (account_of d b) as [[o2|]|[]| |]; try done.
  by rewrite (oe_deleted _ _ _ Ha), (oe_Balance _ _ _ Ha).
Qed.
Lemma still_supply d d' : still d d' → supply d' = supply d.
Proof. intros H. apply sum_of_ext. intros a Ha%elem_of_all. by apply H. Qed.
Lemma shifts_supply a x d d' : is_addr a → shifts a x d d' → supply d' = supply d + x.
Proof.
  intros Ha H. apply sum_of_change with a; [apply all_addresses_NoDup|by apply elem_of_all|]. intros b Hb%elem_of_all. by apply H.
Qed.
Lemma shifts_solvent a x d d' : shifts a x d d' → 0 ≤ bal d a + x → solvent d → solvent d'.
Proof.
  intros H Hx Hs b Hb. rewrite (H b Hb). specialize (Hs b Hb). destruct (decide (b = a)) as [->|]; lia.
Qed.
Lemma still_solvent d d' : still d d' → solvent d → solvent d'.
Proof. intros H Hs b Hb. rewrite (H b Hb). by apply Hs. Qed.

(** An account that is replaced, with an entry in the journal. *)
Lemma shifts_put ch a o d : address o = a → deleted o = false → shifts a (Balance o - bal d a) d (put o (logged ch d)).
Proof.
  intros Ha Hde b Hb. unfold bal at 1. rewrite account_of_put, Ha. destruct (decide (b = a)) as [->|].
  - cbn. rewrite Hde. lia.
  - pose proof (logged_equiv ch d) as Hl. destruct (logged_fields ch d) as (_ & _ & _ & Hso).
    rewrite (account_of_ext _ d) by (by rewrite ?Hso || apply Hl). fold (bal d b). lia.
Qed.
Lemma bal_loaded d a o : stateObjects d !! a = Some o → deleted o = false → bal d a = Balance o.
Proof. intros Ho Hde. unfold bal. rewrite (account_of_loaded d a o) by done. cbn. by rewrite Hde. Qed.

Lemma createObject_balance a d d' n p : createObject a d = (d', Ok (n, p)) →
  shifts a (- bal d a) d d' ∧ stateObjects d' !! a = Some n ∧ address n = a ∧ deleted n = false ∧ Balance n = 0 ∧
  bal d a = match p with Some p => Balance p | None => 0 end.
Proof.
  destruct (getDeleted_spec a d) as (d1 & Hg & Heq & Hf & _ & Hso). intros Hc.
  destruct (account_of d a) as [prev| | |] eqn:Hacc; [|by unfold createObject, mbind, st_bind in Hc; rewrite Hg in Hc..].
  rewrite (createObject_eq a d d1 prev) in Hc by done. injection Hc as <- <- <-. split_and!; try done.
  - intros b Hb.
    assert (still d (snd (creation d1 a prev))) as Hst.
    { apply still_trans with d1; [by apply still_equiv|]. unfold creation. destruct prev as [p|]; [|by apply still_ext].
      unfold destructing. cbn [snd]. destruct (snap d1) eqn:Hs; [|done]. destruct (is_destructed d1 p); by apply still_ext. }
    rewrite (shifts_put (fst (creation d1 a prev)) a (newObject a (mk_StateAccount 0 None 0 None)) (snd (creation d1 a prev)) eq_refl eq_refl b Hb), (Hst b Hb). cbn [Balance].
    destruct (decide (b = a)) as [->|]; [|done]. rewrite (Hst a Hb). cbn. lia.
  - cbn. by rewrite lookup_insert_eq.
  - unfold bal. rewrite Hacc. destruct prev as [p|]; [|done]. cbn. by destruct (deleted p).
Qed.

Lemma GetOrNew_balance a d d' o : inv d → is_addr a → GetOrNewStateObject a d = (d', Ok o) →
  still d d' ∧ bal d a = Balance o ∧ inv d' ∧ stateObjects d' !! a = Some o ∧ deleted o = false ∧ address o = a.
Proof.
  intros Hi Ha Hg. pose proof (GetOrNew_spec a d d' o Hi Ha Hg) as (_ & Hi' & Hso & Hde & Hao & _).
  assert (still d d') as Hst.
  { revert Hg. unfold GetOrNewStateObject, mbind, st_bind.
    destruct (getStateObject a d) as [d1 [[o1|]|[]| |]] eqn:Hg; try done;
      apply getStateObject_spec in Hg as (Heq & _ & _ & Hs).
    - intros [= <- <-]. by apply still_equiv.
    - destruct (createObject a d1) as [d2 [[n p]|[]| |]] eqn:Hc; try done. intros [= <- <-].
      apply createObject_balance in Hc as (Hsh & _). apply still_trans with d1; [by apply still_equiv|].
      assert (bal d1 a = 0) as Hz.
      { rewrite (still_equiv _ _ Heq a Ha). unfold bal. destruct Hs as [->|(o' & -> & Hd)]; [done|]. cbn. by rewrite Hd. }
      rewrite Hz in Hsh. by apply shifts_0 in Hsh. }
  split_and!; try done. rewrite <-(Hst a Ha). by apply bal_loaded.
Qed.

(** An operation that replaces the account it finds or creates. *)
Lemma on_account_shifts {A} a x (f : stateObject → M A) d d' r : inv d → is_addr a →
  (∀ d1 o, inv d1 → stateObjects d1 !! a = Some o → deleted o = false → address o = a → bal d1 a = Balance o →
     f o d1 = (d', Ok r) → shifts a x d1 d') →
  (GetOrNewStateObject a ≫= f) d = (d', Ok r) → shifts a x d d'.
Proof.
  intros Hi Ha Hf. unfold mbind, st_bind. destruct (GetOrNewStateObject a d) as [d1 [o|[]| |]] eqn:Hg; try done.
  apply GetOrNew_balance in Hg as (Hst & Hb & Hi1 & Hso & Hde & Hao); [|done..]. intros Hm.
  apply still_shifts with d1; [done|]. apply (Hf d1 o); try done. by apply bal_loaded.
Qed.

Lemma touch_still d o d' r : obj_touch o d = (d', Ok r) → still d d'.
Proof.
  unfold obj_touch, mbind, st_bind. rewrite journal_append_logged. intros Ht.
  apply still_trans with (logged (touchChange (address o)) d); [apply still_equiv, logged_equiv|].
  destruct (address o =? ripemd); injection Ht as <- _; by apply still_ext.
Qed.
Lemma SetBalance_shifts d o y d' r : deleted o = false → bal d (address o) = Balance o →
  obj_SetBalance o y d = (d', Ok r) → shifts (address o) (y - Balance o) d d'.
Proof.
  intros Hde Hb. unfold obj_SetBalance. rewrite append_put. intros [= <- <-].
  rewrite <-Hb. by apply (shifts_put _ (address o) (set_Balance y o)).
Qed.

Lemma AddBalance_shifts a x d d' r : inv d → is_addr a → StateDb.AddBalance a x d = (d', Ok r) → shifts a x d d'.
Proof.
  intros Hi Ha. apply on_account_shifts; [done..|]. intros d1 o Hi1 Ho Hde Hao Hb. unfold obj_AddBalance.
  destruct (Z.eqb_spec x 0) as [->|Hx].
  - destruct (obj_empty o); [|by intros [= <- <-]; apply shifts_0]. intros Ht. apply shifts_0. by apply touch_still with o r.
  - intros Hs. apply SetBalance_shifts in Hs; [|done|by rewrite Hao]. rewrite Hao in Hs. by replace (Balance o + x - Balance o) with x in Hs by lia.
Qed.
Lemma SubBalance_shifts a x d d' r : inv d → is_addr a → StateDb.SubBalance a x d = (d', Ok r) → shifts a (- x) d d'.
Proof.
  intros Hi Ha. apply on_account_shifts; [done..|]. intros d1 o Hi1 Ho Hde Hao Hb. unfold obj_SubBalance.
  destruct (Z.eqb_spec x 0) as [->|Hx].
  - destruct (obj_empty o); [|by intros [= <- <-]; apply shifts_0]. intros Ht. apply shifts_0. by apply touch_still with o r.
  - intros Hs. apply SetBalance_shifts in Hs; [|done|by rewrite Hao]. rewrite Hao in Hs.
    by replace (Balance o - x - Balance o) with (- x) in Hs by lia.
Qed.
Lemma CreateAccount_still a d d' r : is_addr a → StateDb.CreateAccount a d = (d', Ok r) → still d d'.
Proof.
  intros Ha. unfold StateDb.CreateAccount, mbind, st_bind. destruct (createObject a d) as [d1 [[n p]|[]| |]] eqn:Hc; try done.
  apply createObject_balance in Hc as (Hsh & Hso & Han & Hde & Hb & Hp). destruct p as [p|]; intros [= <- <-].
  - intros b Hb'. change (set_stateObjects _ d1) with (put (set_Balance (Balance p) n) d1). unfold bal at 1.
    rewrite account_of_put. cbn [address set_Balance]. rewrite Han. specialize (Hsh b Hb').
    destruct (decide (b = a)) as [->|]; [|fold (bal d1 b); lia]. cbn. by rewrite Hde.
  - rewrite Hp in Hsh. by apply (shifts_0 a).
Qed.

(** Operations that keep the balance of the account they change. *)
Lemma put_still ch o d : deleted o = false → bal d (address o) = Balance o → still d (put o (logged ch d)).
Proof. intros Hde Hb. apply (shifts_0 (address o)). replace 0 with (Balance o - bal d (address o)) by lia. by apply shifts_put. Qed.
Lemma load_still o o1 d : obj_equiv d o1 o → bal d (address o) = Balance o → deleted o = false → still d (put o1 d).
Proof.
  intros Heq Hb Hde b Hb'. unfold bal at 1. rewrite account_of_put, (oe_address _ _ _ Heq).
  destruct (decide (b = address o)) as [->|]; [|done]. cbn. by rewrite (oe_deleted _ _ _ Heq), (oe_Balance _ _ _ Heq), Hde.
Qed.
Lemma SetNonce_still a n d d' r : inv d → is_addr a → StateDb.SetNonce a n d = (d', Ok r) → still d d'.
Proof.
  intros Hi Ha Hm. apply (shifts_0 a). revert Hm. apply on_account_shifts; [done..|]. intros d1 o Hi1 Ho Hde Hao Hb.
  unfold obj_SetNonce. rewrite append_put. intros [= <- <-]. apply shifts_0, (put_still _ (set_Nonce n o)); [done|]. cbn. by rewrite Hao.
Qed.
Lemma SetCode_still a c d d' r : inv d → is_addr a → StateDb.SetCode a c d = (d', Ok r) → still d d'.
Proof.
  intros Hi Ha Hm. apply (shifts_0 a). revert Hm. apply on_account_shifts; [done..|]. intros d1 o Hi1 Ho Hde Hao Hb.
  unfold obj_SetCode. pose proof (obj_Code_equiv d1 o) as Heq. destruct (obj_Code o) as [o1 prev]. cbn [fst] in Heq.
  rewrite append_put. intros [= <- <-]. set (o2 := obj_setCode _ _ o1).
  assert (deleted o2 = deleted o ∧ address o2 = address o ∧ Balance o2 = Balance o) as (Hd2 & Ha2 & Hb2)
    by (split_and!; apply Heq).
  apply shifts_0, put_still; congruence.
Qed.
Lemma SetState_still a k v d d' r : inv d → is_addr a → StateDb.SetState a k v d = (d', Ok r) → still d d'.
Proof.
  intros Hi Ha Hm. apply (shifts_0 a). revert Hm. apply on_account_shifts; [done..|]. intros d1 o Hi1 Ho Hde Hao Hb.
  unfold obj_SetState. unfold mbind at 1, st_bind at 1, st_get. unfold mbind at 1, st_bind at 1, st_lift.
  destruct (obj_GetState d1 o k) as [[o1 prev]|[]| |] eqn:Hg; try done. apply GetState_spec in Hg as [_ Heq].
  unfold mbind at 1, st_bind at 1, setStateObject at 1, st_modify. fold (put o1 d1).
  assert (still d1 (put o1 d1)) as Hst by (apply (load_still o); [done|by rewrite Hao|done]).
  destruct (prev =? v); [by intros [= <- <-]; apply shifts_0|]. rewrite append_put. intros [= <- <-]. apply shifts_0.
  apply still_trans with (put o1 d1); [done|]. set (o2 := obj_setState k v o1).
  assert (deleted o2 = deleted o ∧ address o2 = address o ∧ Balance o2 = Balance o) as (Hd2 & Ha2 & Hb2)
    by (split_and!; apply Heq).
  apply put_still; [congruence|]. rewrite Ha2, Hao, (Hst a Ha). congruence.
Qed.
Lemma Suicide_shifts a d d' r : inv d → is_addr a → StateDb.Suicide a d = (d', Ok r) → shifts a (- bal d a) d d'.
Proof.
  intros Hi Ha. unfold StateDb.Suicide. unfold mbind at 1, st_bind at 1.
  destruct (getStateObject a d) as [d1 [[o|]|[]| |]] eqn:Hg; try done; apply getStateObject_spec in Hg as (Heq & _ & _ & Hs).
  - unfold mbind at 1, st_bind at 1. rewrite journal_append_logged. destruct Hs as (Hacc & Hso & Hde). intros [= <- <-].
    destruct (inv_account d Hi a o Ha Hacc) as (Hao & _). apply still_shifts with d1; [by apply still_equiv|].
    change (set_stateObjects _ _) with (put (set_Balance 0 (set_suicided true o)) (logged (suicideChange a (suicided o) (Balance o)) d1)).
    replace (- bal d a) with (Balance (set_Balance 0 (set_suicided true o)) - bal d1 a); [by apply shifts_put|].
    rewrite (still_equiv _ _ Heq a Ha). cbn. lia.
  - intros [= <- <-]. assert (bal d a = 0) as ->.
    { unfold bal. destruct Hs as [->|(o & -> & Hd)]; [done|]. cbn. by rewrite Hd. }
    apply shifts_0. by apply still_equiv.
Qed.

(** Operations that leave the accounts alone. *)
Definition apart {A} (m : M A) : Prop :=
  ∀ d, stateObjects (fst (m d)) = stateObjects d ∧ snap (fst (m d)) = snap d ∧ trie (fst (m d)) = trie d.
Lemma apart_still {A} (m : M A) d d' r : apart m → m d = (d', Ok r) → still d d'.
Proof. intros Hm Hd. destruct (Hm d) as (Ho & Hs & Ht). rewrite Hd in *. by apply still_ext. Qed.
Lemma apart_bind {A B} (m : M A) (k : A → M B) : apart m → (∀ y, apart (k y)) → apart (m ≫= k).
Proof.
  intros Hm Hk d. unfold mbind, st_bind. destruct (Hm d) as (Ho & Hs & Ht). destruct (m d) as [d1 [a|[]| |]]; cbn in *; try done.
  destruct (Hk a d1) as (-> & -> & ->). done.
Qed.
Lemma apart_get {A} (k : SDB → M A) : (∀ d, apart (k d)) → apart (st_get ≫= k).
Proof. intros Hk d. apply Hk. Qed.
Lemma apart_append ch : apart (journal_append ch).
Proof. intros d. rewrite journal_append_logged. unfold logged. by destruct (dirtied ch). Qed.
Lemma AddRefund_apart g : apart (StateDb.AddRefund g).
Proof. apply apart_get. intros d. apply apart_bind; [apply apart_append|]. by intros ? ?. Qed.
Lemma SubRefund_apart g : apart (StateDb.SubRefund g).
Proof. apply apart_get. intros d. apply apart_bind; [apply apart_append|]. intros ?. by destruct (refund d <? g). Qed.
Lemma AddLog_apart l : apart (StateDb.AddLog l).
Proof. apply apart_get. intros d. apply apart_bind; [apply apart_append|]. by intros ? ?. Qed.
Lemma AddPreimage_apart h p : apart (StateDb.AddPreimage h p).
Proof. apply apart_get. intros d. destruct (preimages d !! h); [done|]. apply apart_bind; [apply apart_append|]. by intros ? ?. Qed.
Lemma AddAddress_apart a : apart (StateDb.AddAddressToAccessList a).
Proof.
  intros d. unfold StateDb.AddAddressToAccessList, mbind, st_bind, st_get, st_put. destruct (AddAddress a (access d)) as [al []]; [|done].
  apply (apart_append _ (set_access al d)).
Qed.
Lemma AddSlot_apart a k : apart (StateDb.AddSlotToAccessList a k).
Proof.
  intros d. unfold StateDb.AddSlotToAccessList, mbind, st_bind, st_get, st_lift.
  destruct (AddSlot a k (access d)) as [[al [m1 m2]]|[]| |]; [|done..].
  assert (∀ (b : bool) ch, apart (if b then journal_append ch else mret tt)) as Hif by (intros [] ?; [apply apart_append|done]).
  apply (apart_bind _ _ (Hif m1 _) (λ _, Hif m2 _) (set_access al d)).
Qed.
Lemma for_each_apart {A} (f : A → M unit) l : (∀ y, apart (f y)) → apart (for_each f l).
Proof. intros Hf. induction l as [|x l IH]; [done|]. cbn. apply apart_bind; [done|]. by intros ?. Qed.
Lemma PrepareAccessList_apart sender dst precompiles al : apart (StateDb.PrepareAccessList sender dst precompiles al).
Proof.
  apply apart_bind; [apply AddAddress_apart|]. intros _. apply apart_bind; [destruct dst; [apply AddAddress_apart|done]|]. intros _.
  apply apart_bind; [apply for_each_apart, AddAddress_apart|]. intros _. apply for_each_apart. intros el.
  apply apart_bind; [apply AddAddress_apart|]. intros _. apply for_each_apart, AddSlot_apart.
Qed.

(** ** Runs of the EVM *)

(** A state in which snapshots can be taken and reverted. *)
Definition standing d : Prop := inv d ∧ revs_ok d.
Lemma Ext_standing d d' : Ext d d' → standing d → standing d'.
Proof.
  intros (Hi' & Hv & Hn & es & He & _) [Hi [Hs Hb]]. split; [done|]. split; rewrite Hv; [done|].
  intros i r Hr. destruct (Hb i r Hr) as [? ?]. rewrite Hn, He, len_app. pose proof (len_nonneg es). lia.
Qed.

(** No new money, and no debts. *)
Record prudent d d' : Prop := {
  pr_standing : standing d → standing d';
  pr_solvent : standing d → solvent d → solvent d';
  pr_supply : standing d → solvent d → supply d' ≤ supply d
}.
Lemma prudent_trans d1 d2 d3 : prudent d1 d2 → prudent d2 d3 → prudent d1 d3.
Proof.
  intros [Hs1 Hp1 Hl1] [Hs2 Hp2 Hl2]. split; [by auto..|]. intros Hs Hp. transitivity (supply d2); auto.
Qed.
Lemma prudent_still d d' : (standing d → standing d') → (standing d → still d d') → prudent d d'.
Proof.
  intros Hs Hst. split; [done| |].
  - intros Hd. by apply still_solvent, Hst.
  - intros Hd _. by rewrite (still_supply d d') by auto.
Qed.
End balances.

Section worlds.
Context {T E : Type} `{!Database T E, !DatabaseLaws T E} `{!Uint256} (blockNumber : Z).
Abbreviation SDB := (@StateDb.StateDB T E).
Abbreviation M := (st SDB Empty_set).
Abbreviation world := (@world T E).
#[local] Instance ledger_StateDB : EvmBase.StateDB world := StateDB_world blockNumber.
Context (env : Env world).
Context (Htransfer : ∀ a b x w, Transfer env a b x w = core_Transfer a b x w).
Context (Hcan : ∀ w a x, CanTransfer env w a x = core_CanTransfer w a x).
Implicit Types (d : SDB) (w : world).

Definition thrifty w w' : Prop := ∀ d', w' = Ok d' → ∃ d, w = Ok d ∧ prudent d d'.
Lemma thrifty_trans w1 w2 w3 : thrifty w1 w2 → thrifty w2 w3 → thrifty w1 w3.
Proof.
  intros H12 H23 d3 Hd3. destruct (H23 d3 Hd3) as (d2 & Hd2 & Hp). destruct (H12 d2 Hd2) as (d1 & Hd1 & Hp1).
  exists d1. split; [done|]. by apply prudent_trans with d2.
Qed.
Lemma thrifty_run {A} (m : M A) w :
  Good m → (∀ d d' r, inv d → m d = (d', Ok r) → still d d') → thrifty w (run_st m w).
Proof.
  intros Hm Hst d' (d & r & -> & Hd)%run_st_ok. exists d. split; [done|]. apply prudent_still.
  - intros Hs. apply (Ext_standing d); [|done]. apply (Hm d d' r); [apply Hs|done].
  - intros Hs. apply (Hst d d' r); [apply Hs|done].
Qed.

Lemma balance_of d a : EvmBase.GetBalance (Ok d : world) a = bal d (Bytes20 a).
Proof.
  change (ask (StateDb.GetBalance (Bytes20 a)) 0 (Ok d) = bal d (Bytes20 a)).
  unfold ask, StateDb.GetBalance, getStateObject, mbind, st_bind, bal.
  destruct (getDeleted_spec (Bytes20 a) d) as (d1 & -> & _). destruct (account_of d (Bytes20 a)) as [[o|]|[]| |]; try done.
  cbn. by destruct (deleted o).
Qed.

Lemma prep_still w0 w d : Prep w0 w → w = Ok d → ∃ d0, w0 = Ok d0 ∧ (standing d0 → standing d ∧ still d0 d).
Proof.
  intros Hp. revert d. induction Hp as [|w a _ IH|w a n _ IH|w a _ IH|w _ IH]; intros d Hd.
  { exists d. split; [done|]. intros Hs. split; [done|]. by intros b. }
  all: apply run_st_ok in Hd as (d1 & r & Hw & Hd); destruct (IH d1 Hw) as (d0 & Hd0 & Hs); exists d0; split; [done|]; intros Hs0;
    destruct (Hs Hs0) as [Hs1 Hst1].
  - split; [|apply still_trans with d1; [done|]; apply (CreateAccount_still (Bytes20 a) d1 d r); [apply Bytes20_addr|done]].
    apply (Ext_standing d1); [|done]. apply (CreateAccount_Good (Bytes20 a)) with (x := r); [apply Bytes20_addr|apply Hs1|done].
  - split; [|apply still_trans with d1; [done|]; apply (SetNonce_still (Bytes20 a) n d1 d r); [apply Hs1|apply Bytes20_addr|done]].
    apply (Ext_standing d1); [|done]. apply (SetNonce_Good (Bytes20 a) n) with (x := r); [apply Bytes20_addr|apply Hs1|done].
  - split; [|apply still_trans with d1; [done|]; apply (apart_still _ d1 d r (AddAddress_apart (Bytes20 a)) Hd)].
    apply (Ext_standing d1); [|done]. apply (AddAddressToAccessList_Good (Bytes20 a)) with (x := r); [apply Hs1|done].
  - injection Hd as <- <-. split; [split; [apply inv_equiv with d1; [apply Snapshot_equiv|apply Hs1]|apply Snapshot_revs, Hs1]|].
    apply still_trans with d1; [done|]. apply still_equiv, Snapshot_equiv.
Qed.

Lemma add_ok a x w d' : EvmBase.AddBalance a x w = Ok d' → ∃ d r, w = Ok d ∧ StateDb.AddBalance (Bytes20 a) x d = (d', Ok r).
Proof. exact (run_st_ok _ w d'). Qed.
Lemma sub_ok a x w d' : EvmBase.SubBalance a x w = Ok d' → ∃ d r, w = Ok d ∧ StateDb.SubBalance (Bytes20 a) x d = (d', Ok r).
Proof. exact (run_st_ok _ w d'). Qed.
Lemma suicide_ok a w d' : EvmBase.Suicide a w = Ok d' → ∃ d r, w = Ok d ∧ StateDb.Suicide (Bytes20 a) d = (d', Ok r).
Proof. exact (run_st_ok _ w d'). Qed.

(** A transfer of an amount the sender has. *)
Lemma transfer_prudent d d' a b x : 0 ≤ x → (standing d → x ≤ 0 ∨ x ≤ bal d (Bytes20 a)) →
  core_Transfer a b x (Ok d : world) = Ok d' → prudent d d'.
Proof.
  intros Hx Hpay (d1 & r2 & (d0 & r1 & [= <-] & Hsub)%sub_ok & Hadd)%add_ok.
  pose proof (Bytes20_addr a) as Ha. pose proof (Bytes20_addr b) as Hb.
  assert (standing d → standing d1) as Hst1.
  { intros Hs. apply (Ext_standing d); [|done]. apply (SubBalance_Good (Bytes20 a) x Ha d d1 r1); [apply Hs|done]. }
  assert (standing d → shifts (Bytes20 a) (- x) d d1) as Hsh1 by (intros [Hi _]; by apply (SubBalance_shifts _ _ d d1 r1)).
  assert (standing d → shifts (Bytes20 b) x d1 d') as Hsh2
    by (intros Hs%Hst1; apply (AddBalance_shifts _ _ d1 d' r2); [apply Hs|done..]).
  split.
  - intros Hs%Hst1. apply (Ext_standing d1); [|done]. apply (AddBalance_Good (Bytes20 b) x Hb d1 d' r2); [apply Hs|done].
  - intros Hs Hso. assert (solvent d1) as Hso1.
    { apply (shifts_solvent (Bytes20 a) (- x) d); [by apply Hsh1| |done]. specialize (Hso _ Ha). destruct (Hpay Hs); lia. }
    apply (shifts_solvent (Bytes20 b) x d1); [by apply Hsh2| |done]. specialize (Hso1 _ Hb). lia.
  - intros Hs _. rewrite (shifts_supply (Bytes20 b) x d1), (shifts_supply (Bytes20 a) (- x) d) by auto. lia.
Qed.
(** A contract that destroys itself. *)
Lemma suicide_prudent d d' a b :
  EvmBase.Suicide a (EvmBase.AddBalance b (EvmBase.GetBalance (Ok d : world) a) (Ok d)) = Ok d' → prudent d d'.
Proof.
  rewrite balance_of. set (x := bal d (Bytes20 a)). intros (d1 & r2 & (d0 & r1 & [= <-] & Hadd)%add_ok & Hsui)%suicide_ok.
  pose proof (Bytes20_addr a) as Ha. pose proof (Bytes20_addr b) as Hb.
  assert (standing d → standing d1) as Hst1.
  { intros Hs. apply (Ext_standing d); [|done]. apply (AddBalance_Good (Bytes20 b) x Hb d d1 r1); [apply Hs|done]. }
  assert (standing d → shifts (Bytes20 b) x d d1) as Hsh1 by (intros [Hi _]; by apply (AddBalance_shifts _ _ d d1 r1)).
  assert (standing d → shifts (Bytes20 a) (- bal d1 (Bytes20 a)) d1 d') as Hsh2
    by (intros Hs%Hst1; apply (Suicide_shifts _ d1 d' r2); [apply Hs|done..]).
  split.
  - intros Hs%Hst1. apply (Ext_standing d1); [|done]. apply (Suicide_Good (Bytes20 a) Ha d1 d' r2); [apply Hs|done].
  - intros Hs Hso. apply (shifts_solvent _ _ d1 d' (Hsh2 Hs)); [lia|].
    apply (shifts_solvent _ _ d d1 (Hsh1 Hs)); [|done]. pose proof (Hso _ Ha). pose proof (Hso _ Hb). unfold x. lia.
  - intros Hs Hso. rewrite (shifts_supply _ _ d1 d' Ha (Hsh2 Hs)), (shifts_supply _ _ d d1 Hb (Hsh1 Hs)), (Hsh1 Hs _ Ha).
    pose proof (Hso _ Ha). unfold x in *. destruct (decide _); lia.
Qed.

(** Whatever the machine does, it pays with what there is. *)
Lemma trace_thrifty {org : Origin world} w w' :
  (∀ x, allowed x → 0 ≤ x) → (∀ d, root = Ok d → standing d) → Tr env w w' → thrifty w w'.
Proof.
  intros Hall Hroot. induction 1 as
    [w|w1 w2 w3 _ IH1 _ IH2|w a|w a|w0 w a b x Hx Hpay _ IH Hp|w a n|w a c|w a k v|w a b|w g|w g w1 Hsub|w a|w a k|w a ts l|w h l|w|w w1 Htr _].
  - intros d ->. exists d. split; [done|]. apply prudent_still; [done|]. by intros _ b.
  - by apply thrifty_trans with w2.
  - apply thrifty_run; [apply CreateAccount_Good, Bytes20_addr|]. intros d d' r _. apply CreateAccount_still, Bytes20_addr.
  - apply thrifty_run; [apply AddBalance_Good, Bytes20_addr|]. intros d d' r Hi Hm. apply (shifts_0 (Bytes20 a)).
    by apply (AddBalance_shifts _ _ d d' r Hi (Bytes20_addr a)).
  - intros d' Hd'. rewrite Htransfer in Hd'.
    assert (∃ d, w = Ok d) as [d ->].
    { destruct (add_ok _ _ _ _ Hd') as (d1 & ? & Hd1 & _). destruct (sub_ok _ _ _ _ Hd1) as (d & ? & Hd & _). by exists d. }
    exists d. split; [done|]. apply (transfer_prudent d d' a b x); [by apply Hall| |done]. intros _.
    destruct (prep_still w0 _ d Hp eq_refl) as (d0 & -> & Hst). destruct (IH d0 eq_refl) as (dr & Hdr & [Hs0 _ _]).
    destruct (Hst (Hs0 (Hroot dr Hdr))) as [_ Hst0]. destruct Hpay as [->|Hpay]; [by left|right].
    rewrite Hcan in Hpay. unfold core_CanTransfer in Hpay. rewrite balance_of in Hpay. apply Z.leb_le in Hpay.
    by rewrite (Hst0 _ (Bytes20_addr a)).
  - apply thrifty_run; [apply SetNonce_Good, Bytes20_addr|]. intros d d' r Hi. by apply SetNonce_still, Bytes20_addr.
  - apply thrifty_run; [apply SetCode_Good, Bytes20_addr|]. intros d d' r Hi. by apply SetCode_still, Bytes20_addr.
  - apply thrifty_run; [apply SetState_Good, Bytes20_addr|]. intros d d' r Hi. by apply SetState_still, Bytes20_addr.
  - intros d' Hd'. assert (∃ d, w = Ok d) as [d ->].
    { destruct (suicide_ok _ _ _ Hd') as (d1 & ? & Hd1 & _). destruct (add_ok _ _ _ _ Hd1) as (d & ? & Hd & _). by exists d. }
    exists d. split; [done|]. by apply (suicide_prudent d d' a b).
  - apply thrifty_run; [apply AddRefund_Good|]. intros d d' r _. apply apart_still, AddRefund_apart.
  - intros d' ->. apply sub_refund_ok in Hsub.
    apply (thrifty_run (StateDb.SubRefund g) w); [apply SubRefund_Good| |done]. intros d d2 r _. apply apart_still, SubRefund_apart.
  - apply thrifty_run; [apply AddAddressToAccessList_Good|]. intros d d' r _. apply apart_still, AddAddress_apart.
  - apply thrifty_run; [apply AddSlotToAccessList_Good|]. intros d d' r _. apply apart_still, AddSlot_apart.
  - apply thrifty_run; [apply AddLog_Good|]. intros d d' r _. apply apart_still, AddLog_apart.
  - apply thrifty_run; [apply AddPreimage_Good|]. intros d d' r _. apply apart_still, AddPreimage_apart.
  - intros d' (d & id & -> & Hd)%run_st_ok. injection Hd as <- <-. exists d. split; [done|].
    pose proof (Snapshot_equiv d) as Heq. apply prudent_still; [|by intros _; apply still_equiv].
    intros [Hi Hr]. split; [by apply inv_equiv with d|by apply Snapshot_revs].
  - intros d' Hd'. destruct (safe_revert blockNumber w w1 (trace_safe blockNumber env Htransfer _ _ Htr) d' Hd') as (d & -> & _).
    exists d. split; [done|].
    assert (standing d → state_equiv d' d ∧ standing d') as Hrev.
    { intros [Hi Hr]. destruct (reverted_state blockNumber env Htransfer d d' w1) as (? & ? & ?); try done. }
    apply prudent_still; [by intros [_ ?]%Hrev|]. intros [? _]%Hrev. by apply still_equiv.
Qed.
End worlds.
