(* ===== verification/StateTyped.v ===== *)
(** * Addresses and code of the state database (src/geth/core/state)

    Go's maps of the database are keyed by 20-byte addresses, an object is stored under
    its own address and the code it holds is a byte string of a size that fits into
    memory.  Every operation keeps this, reverts included, for which the journal must name
    addresses and code too.  With it the journaled database keeps the promises that the
    EVM relies on: it is an instance of [WorldLaws]. *)
From stdpp Require Import gmap.
From S2P Require Import Prelude RlpBase RlpRaw RlpStream StateAccess StateDb StateJournal StateUndo StateOps StateRevert.
From S2P Require Import EvmAnalysis EvmBase EvmMachine EvmInterp EvmTrace EvmSafety EvmTotal EvmTheorems StateEvm StateLedger.

(** The codes that the database of the node has stored are codes. *)
Class StoredCode (T E : Type) `{!Database T E} :=
  stored_code : ∀ h c code, ContractCode (T:=T) (E:=E) h c = inr code → code_ok code.

Section typed.
Context {T E : Type} `{!Database T E, !DatabaseLaws T E, !StoredCode T E}.
Abbreviation SDB := (@StateDb.StateDB T E).
Abbreviation M := (st SDB Empty_set).
Implicit Types (d : SDB) (a : Z) (o : @stateObject T E).

Definition slot_ok (c : option bytes) : Prop := ∀ x, c = Some x → code_ok x.
(** An object at its address, with its code. *)
Definition object_ok a o : Prop := is_addr a ∧ address o = a ∧ slot_ok (code o).
Definition entry_ok (ch : @journalEntry T E) : Prop :=
  match ch with
  | resetObjectChange prev _ => object_ok (address prev) prev
  | createObjectChange a | suicideChange a _ _ | touchChange a | balanceChange a _ | nonceChange a _
  | storageChange a _ _ => is_addr a
  | codeChange a c _ | eraseChange a c _ _ => is_addr a ∧ slot_ok c
  | _ => True
  end.
Record typed d : Prop := {
  ty_objects x o : stateObjects d !! x = Some o → object_ok x o;
  ty_entries : Forall entry_ok (entries d)
}.
(** An object that differs in neither address nor code. *)
Lemma object_ok_same a o o' : address o' = address o → code o' = code o → object_ok a o → object_ok a o'.
Proof. intros Ha Hc (H1 & H2 & H3). split; [done|]. split; [congruence|]. by rewrite Hc. Qed.
Lemma object_ok_code a o c : slot_ok c → object_ok a o → object_ok a (StateDb.set_code c o).
Proof. by intros Hc (H1 & H2 & _). Qed.

(** ** Computations that keep addresses, with a property of their results *)

Definition Ty {A} (m : M A) (Q : A → Prop) : Prop := ∀ d, typed d → typed (m d).1 ∧ ∀ r, (m d).2 = Ok r → Q r.

Lemma Ty_ret {A} (x : A) (Q : A → Prop) : Q x → Ty (mret x) Q.
Proof. intros HQ d Hd. split; [done|]. by intros r [= <-]. Qed.
Lemma Ty_bind {A B} (m : M A) (k : A → M B) (Q : A → Prop) (R : B → Prop) : Ty m Q → (∀ x, Q x → Ty (k x) R) → Ty (m ≫= k) R.
Proof.
  intros Hm Hk d Hd. unfold mbind, st_bind. destruct (Hm d Hd) as [H1 H2]. destruct (m d) as [d1 [x|[]| |]]; cbn in *; [|split; done..].
  by apply (Hk x (H2 x eq_refl)).
Qed.
Lemma Ty_get {A} (k : SDB → M A) (Q : A → Prop) : (∀ d, typed d → typed (k d d).1 ∧ ∀ r, (k d d).2 = Ok r → Q r) → Ty (st_get ≫= k) Q.
Proof. intros Hk d Hd. by apply Hk. Qed.
Lemma Ty_weaken {A} (m : M A) (Q R : A → Prop) : Ty m Q → (∀ x, Q x → R x) → Ty m R.
Proof. intros Hm HQ d Hd. destruct (Hm d Hd) as [H1 H2]. split; [done|]. intros r Hr. by apply HQ, H2. Qed.
Lemma Ty_lift {A} (r : res Empty_set A) (Q : A → Prop) : (∀ x, r = Ok x → Q x) → Ty (st_lift r) Q.
Proof. intros Hr d Hd. by split. Qed.
Lemma Ty_panic {A} p (Q : A → Prop) : Ty (st_panic p) Q.
Proof. intros d Hd. by split. Qed.
Lemma typed_ext d d' : stateObjects d' = stateObjects d → entries d' = entries d → typed d → typed d'.
Proof. intros Ho He [H1 H2]. split; [by rewrite Ho|by rewrite He]. Qed.
Lemma Ty_modify f : (∀ d, stateObjects (f d) = stateObjects d ∧ entries (f d) = entries d) → Ty (st_modify f) (λ _, True).
Proof. intros Hf d Hd. destruct (Hf d). split; [by apply (typed_ext d)|done]. Qed.
Lemma Ty_put d' : typed d' → Ty (st_put d') (λ _, True).
Proof. intros Hd d _. by split. Qed.
Lemma Ty_True {A} (m : M A) (Q : A → Prop) : Ty m Q → Ty m (λ _, True).
Proof. intros Hm. by apply (Ty_weaken _ _ _ Hm). Qed.
Lemma Ty_each {A} (f : A → M unit) l : (∀ x, x ∈ l → Ty (f x) (λ _, True)) → Ty (for_each f l) (λ _, True).
Proof.
  induction l as [|x l IH]; intros Hf; [by apply Ty_ret|]. apply (Ty_bind _ _ (λ _, True)); [apply Hf; by left|]. intros _ _. apply IH.
  intros y Hy. apply Hf. by right.
Qed.

Lemma Ty_append ch : entry_ok ch → Ty (journal_append ch) (λ _, True).
Proof.
  intros Hc d [H1 H2]. rewrite journal_append_logged. split; [|done]. unfold logged. split.
  - by destruct (dirtied ch).
  - destruct (dirtied ch); cbn; apply Forall_app; (split; [done|]); by repeat constructor.
Qed.
Lemma Ty_set a o : object_ok a o → Ty (setStateObject o) (λ _, True).
Proof.
  intros (Ha & <- & Hc) d [H1 H2]. split; [|done]. split; [|done]. cbn.
  intros x o'. intros [[<- <-]|[_ Hx]]%lookup_insert_Some; [done|by apply H1].
Qed.
Lemma object_ok_new a data : is_addr a → object_ok a (newObject a data).
Proof. by intros Ha. Qed.

(** ** Loading and creating *)

Definition at_address a (r : option (@stateObject T E)) : Prop := ∀ o, r = Some o → object_ok a o.
Lemma Ty_trie_account a : Ty (trie_account a) (λ _, True).
Proof.
  apply Ty_get. intros d Hd. destruct (tr_TryGet _ _) as [t r]. refine (Ty_bind _ _ (λ _, True) _ _ _ d Hd).
  { apply Ty_put. by apply (typed_ext d). }
  intros _ _. destruct r as [err|enc].
  - apply (Ty_bind _ _ (λ _, True)); [by apply Ty_modify|]. intros _ _. by apply Ty_ret.
  - destruct (_ =? 0); [by apply Ty_ret|]. destruct (DecodeBytes_with _ _); [by apply Ty_ret..|by apply Ty_panic|]. intros d0 Hd0. by split.
Qed.
Lemma Ty_getDeleted a : is_addr a → Ty (getDeletedStateObject a) (at_address a).
Proof.
  intros Ha. apply Ty_get. intros d Hd. destruct (stateObjects d !! a) as [o|] eqn:Ho.
  - refine (Ty_ret _ _ _ d Hd). intros o' [= <-]. by apply (ty_objects _ Hd).
  - refine (Ty_bind _ _ (λ _, True) _ _ _ d Hd); [destruct (snap_account d a); [by apply Ty_ret|apply Ty_trie_account]|].
    intros [data|] _; [|by apply Ty_ret]. apply (Ty_bind _ _ (λ _, True)); [by apply (Ty_set a)|]. intros _ _. apply Ty_ret. by intros o' [= <-].
Qed.
Lemma Ty_getStateObject a : is_addr a → Ty (getStateObject a) (at_address a).
Proof.
  intros Ha. eapply Ty_bind; [by apply Ty_getDeleted|]. intros r Hr. apply Ty_ret. destruct r as [o|]; [|done]. by destruct (deleted o).
Qed.
Lemma Ty_createObject a : is_addr a → Ty (createObject a) (λ np, object_ok a np.1 ∧ at_address a np.2).
Proof.
  intros Ha. eapply Ty_bind; [by apply Ty_getDeleted|]. intros prev Hp. apply Ty_get. intros d Hd.
  refine (Ty_bind _ _ (λ _, True) _ _ _ d Hd).
  { destruct prev as [p|], (snap d); try by apply Ty_ret. destruct (is_destructed d p); [by apply Ty_ret|]. apply Ty_put. by apply (typed_ext d). }
  intros _ _. apply (Ty_bind _ _ (λ _, True)).
  { apply Ty_append. destruct prev as [p|]; [|done]. cbn. destruct (Hp p eq_refl) as (H1 & <- & H2). done. }
  intros _ _. apply (Ty_bind _ _ (λ _, True)); [by apply (Ty_set a)|]. intros _ _. apply Ty_ret. split; [done|].
  destruct prev as [p|]; [|done]. by destruct (deleted p).
Qed.
Lemma Ty_GetOrNew a : is_addr a → Ty (GetOrNewStateObject a) (object_ok a).
Proof.
  intros Ha. eapply Ty_bind; [by apply Ty_getStateObject|]. intros [o|] Hr; [apply Ty_ret; by apply Hr|].
  eapply Ty_bind; [by apply Ty_createObject|]. intros [n p] [Hn _]. by apply Ty_ret.
Qed.

(** ** Operations *)

Abbreviation Keeps m := (Ty m (λ _, True)).
Lemma Keeps_seq {A B} (m : M A) (k : A → M B) : Keeps m → (∀ x, Keeps (k x)) → Keeps (m ≫= k).
Proof. intros Hm Hk. eapply Ty_bind; [done|]. intros x _. apply Hk. Qed.
Lemma Keeps_account {A} a (f : stateObject → M A) : is_addr a → (∀ o, object_ok a o → Keeps (f o)) → Keeps (GetOrNewStateObject a ≫= f).
Proof. intros Ha Hf. eapply Ty_bind; [by apply Ty_GetOrNew|]. apply Hf. Qed.
Lemma Keeps_write a ch o : entry_ok ch → object_ok a o → Keeps (journal_append ch ≫= λ _, setStateObject o).
Proof. intros Hc Ho. apply Keeps_seq; [by apply Ty_append|]. intros _. by apply (Ty_set a). Qed.
Lemma object_ok_address a o : object_ok a o → is_addr (address o).
Proof. by intros (? & -> & _). Qed.
#[local] Hint Resolve object_ok_address : core.
Lemma Keeps_touch o : is_addr (address o) → Keeps (obj_touch o).
Proof. intros Ho. apply Keeps_seq; [by apply Ty_append|]. intros _. destruct (_ =? _); [by apply Ty_modify|by apply Ty_ret]. Qed.
Lemma Keeps_AddBalance a x : is_addr a → Keeps (StateDb.AddBalance a x).
Proof.
  intros Ha. apply Keeps_account; [done|]. intros o Ho. unfold obj_AddBalance. destruct (x =? 0); [destruct (obj_empty o); [apply Keeps_touch; eauto|by apply Ty_ret]|].
  apply (Keeps_write a); [cbn; eauto|by apply (object_ok_same a o)].
Qed.
Lemma Keeps_SubBalance a x : is_addr a → Keeps (StateDb.SubBalance a x).
Proof.
  intros Ha. apply Keeps_account; [done|]. intros o Ho. unfold obj_SubBalance. destruct (x =? 0); [destruct (obj_empty o); [apply Keeps_touch; eauto|by apply Ty_ret]|].
  apply (Keeps_write a); [cbn; eauto|by apply (object_ok_same a o)].
Qed.
Lemma Keeps_SetNonce a n : is_addr a → Keeps (StateDb.SetNonce a n).
Proof. intros Ha. apply Keeps_account; [done|]. intros o Ho. apply (Keeps_write a); [cbn; eauto|by apply (object_ok_same a o)]. Qed.
Lemma Code_ok a o : object_ok a o → object_ok a (obj_Code o).1 ∧ slot_ok (obj_Code o).2.
Proof.
  intros Ho. unfold obj_Code. destruct (code o) as [c|] eqn:Hc.
  { split; [done|]. intros x [= <-]. destruct Ho as (_ & _ & Hs). by apply Hs. }
  case_bool_decide; [done|]. destruct (ContractCode _ _) as [err|c] eqn:Hdb; cbn.
  - split; [|done]. apply object_ok_code; [done|]. by apply (object_ok_same a o).
  - assert (slot_ok (Some c)) as Hs by (intros x [= <-]; by eapply stored_code). split; [|done]. by apply object_ok_code.
Qed.
Lemma getTrie_same_object a o : object_ok a o → object_ok a (getTrie o).1.
Proof. intros Ho. unfold getTrie. repeat case_match; cbn; [done|by apply (object_ok_same a o)..]. Qed.
Lemma Keeps_SetCode a c : is_addr a → code_ok c → Keeps (StateDb.SetCode a c).
Proof.
  intros Ha Hc. apply Keeps_account; [done|]. intros o Ho. unfold obj_SetCode. destruct (Code_ok a o Ho) as [Ho1 Hp].
  destruct (obj_Code o) as [o1 prev]. cbn [fst snd] in *. apply (Keeps_write a); [cbn; eauto|].
  apply (object_ok_same a (StateDb.set_code (Some c) o1)); [done..|]. apply object_ok_code; [|done]. by intros x [= <-].
Qed.
Lemma GetState_same d o k o1 v : obj_GetState d o k = Ok (o1, v) → address o1 = address o ∧ code o1 = code o.
Proof.
  assert (∀ o, address (getTrie o).1 = address o ∧ code (getTrie o).1 = code o) as Htrie
    by (intros o0; unfold getTrie; repeat case_match; done).
  assert (∀ o0 enc, cache_slot o0 k enc = Ok (o1, v) → address o1 = address o0 ∧ code o1 = code o0) as Hcache.
  { intros o0 enc. unfold cache_slot. destruct (0 <? len enc); [|by intros [= <- _]]. destruct (Split enc) as [[[? ?] ?]| | |]; by intros [= <- _]. }
  unfold obj_GetState, obj_GetCommittedState. destruct (dirtyStorage o !! k); [by intros [= <- _]|]. destruct (pendingStorage o !! k); [by intros [= <- _]|].
  destruct (originStorage o !! k); [by intros [= <- _]|]. destruct (is_destructed d o); [by intros [= <- _]|].
  destruct (snap_slot d o k); [apply Hcache|]. unfold trie_slot. pose proof (Htrie o) as [Ha Hc].
  destruct (getTrie o) as [o2 [t|]]; cbn in *; [|done]. destruct (tr_TryGet _ _) as [t' [err|enc]]; cbn.
  - intros [= <- _]. done.
  - intros [-> ->]%Hcache. done.
Qed.
Lemma Keeps_SetState a k v : is_addr a → Keeps (StateDb.SetState a k v).
Proof.
  intros Ha. apply Keeps_account; [done|]. intros o Ho. apply Ty_get. intros d Hd. refine (Ty_bind _ _ (λ p, object_ok a p.1) _ _ _ d Hd).
  { apply Ty_lift. intros [o1 prev] [H1 H2]%GetState_same. by apply (object_ok_same a o). }
  intros [o1 prev] Ho1. cbn [fst] in Ho1. apply Keeps_seq; [by apply (Ty_set a)|]. intros _. destruct (prev =? v); [by apply Ty_ret|].
  apply (Keeps_write a); [cbn; eauto|by apply (object_ok_same a o1)].
Qed.
Lemma Keeps_CreateAccount a : is_addr a → Keeps (StateDb.CreateAccount a).
Proof.
  intros Ha. eapply Ty_bind; [by apply Ty_createObject|]. intros [n p] [Hn _]. destruct p; [apply (Ty_set a); by apply (object_ok_same a n)|by apply Ty_ret].
Qed.
Lemma Keeps_Suicide a : is_addr a → Keeps (StateDb.Suicide a).
Proof.
  intros Ha. eapply Ty_bind; [by apply Ty_getStateObject|]. intros [o|] Hr; [|by apply Ty_ret]. apply Keeps_seq; [by apply Ty_append|]. intros _.
  apply Keeps_seq; [apply (Ty_set a); apply (object_ok_same a o); [done..|by apply Hr]|]. intros _. by apply Ty_ret.
Qed.
Lemma Keeps_AddRefund g : Keeps (StateDb.AddRefund g).
Proof. apply Ty_get. intros d Hd. refine (Keeps_seq _ _ _ _ d Hd); [by apply Ty_append|]. intros _. by apply Ty_modify. Qed.
Lemma Keeps_SubRefund g : Keeps (StateDb.SubRefund g).
Proof.
  apply Ty_get. intros d Hd. refine (Keeps_seq _ _ _ _ d Hd); [by apply Ty_append|]. intros _. destruct (_ <? g); [apply Ty_panic|by apply Ty_modify].
Qed.
Lemma Keeps_AddLog l : Keeps (StateDb.AddLog l).
Proof. apply Ty_get. intros d Hd. refine (Keeps_seq _ _ _ _ d Hd); [by apply Ty_append|]. intros _. by apply Ty_modify. Qed.
Lemma Keeps_AddPreimage h x : Keeps (StateDb.AddPreimage h x).
Proof.
  apply Ty_get. intros d Hd. destruct (preimages d !! h); [by apply (Ty_ret tt)|].
  refine (Keeps_seq _ _ _ _ d Hd); [by apply Ty_append|]. intros _. by apply Ty_modify.
Qed.
Lemma Keeps_AddAddress a : Keeps (StateDb.AddAddressToAccessList a).
Proof.
  apply Ty_get. intros d Hd. destruct (AddAddress a (access d)) as [al ch]. refine (Keeps_seq _ _ _ _ d Hd); [apply Ty_put; by apply (typed_ext d)|].
  intros _. destruct ch; [by apply Ty_append|by apply Ty_ret].
Qed.
Lemma Keeps_AddSlot a k : Keeps (StateDb.AddSlotToAccessList a k).
Proof.
  apply Ty_get. intros d Hd. refine (Keeps_seq _ _ _ _ d Hd); [by apply Ty_lift|]. intros [al [m1 m2]].
  apply Keeps_seq; [apply Ty_put; by apply (typed_ext d)|]. intros _.
  apply Keeps_seq; [destruct m1; [by apply Ty_append|by apply Ty_ret]|]. intros _. destruct m2; [by apply Ty_append|by apply Ty_ret].
Qed.
Lemma Keeps_PrepareAccessList sender dst ps al : Keeps (PrepareAccessList sender dst ps al).
Proof.
  apply Keeps_seq; [apply Keeps_AddAddress|]. intros _. apply Keeps_seq; [destruct dst; [apply Keeps_AddAddress|by apply Ty_ret]|]. intros _.
  apply Keeps_seq; [apply Ty_each; intros x _; apply Keeps_AddAddress|]. intros _. apply Ty_each. intros el _.
  apply Keeps_seq; [apply Keeps_AddAddress|]. intros _. apply Ty_each. intros k _. apply Keeps_AddSlot.
Qed.
Lemma Keeps_Snapshot : Keeps StateDb.Snapshot.
Proof. apply Ty_get. intros d Hd. refine (Keeps_seq _ _ _ _ d Hd); [apply Ty_put; by apply (typed_ext d)|]. intros _. by apply Ty_ret. Qed.

(** ** Reverting *)

Lemma Keeps_update a f : is_addr a → (∀ o, object_ok a o → object_ok a (f o)) → Keeps (update_object a f).
Proof.
  intros Ha Hf. eapply Ty_bind; [by apply Ty_getStateObject|]. intros [o|] Hr; [|by apply Ty_panic]. apply (Ty_set a), Hf. by apply Hr.
Qed.
Lemma Keeps_update_same a f : is_addr a → (∀ o, address (f o) = address o ∧ code (f o) = code o) → Keeps (update_object a f).
Proof. intros Ha Hf. apply Keeps_update; [done|]. intros o. destruct (Hf o). by apply object_ok_same. Qed.
Lemma Keeps_entry ch : entry_ok ch → Keeps (entry_revert ch).
Proof.
  destruct ch as [a|prev pd|a pr pb|a pr|a pr|a k pv|a pc ph|pr|th|h|a|a|a sl|a pc ph pt]; intros Hc; cbn [entry_revert entry_ok] in *.
  - intros d [H1 H2]. split; [|done]. split; [|done]. cbn. intros x o [_ Hx]%lookup_delete_Some. by apply H1.
  - apply Keeps_seq; [by apply (Ty_set (address prev))|]. intros _. apply Ty_get. intros d Hd. destruct (negb pd && _); [|by apply (Ty_ret tt)].
    split; [by apply (typed_ext d)|done].
  - eapply Ty_bind; [by apply Ty_getStateObject|]. intros [o|] Hr; [|by apply Ty_ret]. apply (Ty_set a), (object_ok_same a o); [done..|by apply Hr].
  - by apply Keeps_update_same.
  - by apply Keeps_update_same.
  - by apply Keeps_update_same.
  - destruct Hc as [Ha Hc]. apply Keeps_update; [done|]. intros o Ho. apply (object_ok_same a (StateDb.set_code pc o)); [done..|]. by apply object_ok_code.
  - by apply Ty_modify.
  - apply Ty_get. intros d Hd. refine (Keeps_seq _ _ _ _ d Hd); [|intros _; by apply Ty_modify]. destruct (_ =? 1).
    + apply Ty_put. by apply (typed_ext d).
    + apply Keeps_seq; [by apply Ty_lift|]. intros l. apply Ty_put. by apply (typed_ext d).
  - by apply Ty_modify.
  - by apply Ty_ret.
  - by apply Ty_modify.
  - apply Ty_get. intros d Hd. refine (Keeps_seq _ _ _ _ d Hd); [by apply Ty_lift|]. intros l. apply Ty_put. by apply (typed_ext d).
  - destruct Hc as [Ha Hc]. apply Keeps_update; [done|]. intros o Ho. unfold revertErase.
    set (o1 := set_Root _ _). apply (object_ok_same a (getTrie o1).1); [done..|]. apply getTrie_same_object.
    apply (object_ok_same a (StateDb.set_code pc o)); [done..|]. by apply object_ok_code.
Qed.
Lemma Keeps_undo ch : entry_ok ch → Keeps (undo ch).
Proof. intros Hc. apply Keeps_seq; [by apply Keeps_entry|]. intros _. destruct (dirtied ch); [by apply Ty_modify|by apply Ty_ret]. Qed.
Lemma Keeps_Revert id : Keeps (StateDb.RevertToSnapshot id).
Proof.
  apply Ty_get. intros d Hd. cbv zeta. destruct (validRevisions d !! Z.to_nat (sort_Search _ _)) as [[id' snapshot]|]; [|by apply (Ty_panic _ (λ _, True))].
  destruct (negb _); [by apply (Ty_panic _ (λ _, True))|]. refine (Keeps_seq _ _ _ _ d Hd).
  - apply Ty_get. intros d1 Hd1. refine (Keeps_seq _ _ _ _ d1 Hd1).
    + apply Ty_each. intros ch Hch. apply Keeps_undo. rewrite elem_of_reverse in Hch. apply (proj1 (list.Forall_forall _ _) (ty_entries _ Hd1)).
      rewrite <-(take_drop (Z.to_nat snapshot) (entries d1)). apply elem_of_app. by right.
    + intros _. apply Ty_get. intros d2 Hd2. destruct (go_slice (entries d2) 0 snapshot) as [es| | |] eqn:Hs; cbv [mbind st_bind st_lift st_put]; try by split.
      split; [|done]. split; [apply Hd2|]. cbn. unfold go_slice in Hs. destruct (decide _); [|done]. injection Hs as <-.
      apply Forall_take, Forall_drop, Hd2.
  - intros _. apply Ty_get. intros d1 Hd1. refine (Keeps_seq _ _ _ _ d1 Hd1); [by apply Ty_lift|]. intros rs. apply Ty_put. by apply (typed_ext d1).
Qed.
End typed.



(** ** The promises to the EVM *)

Section laws.
Context {T E : Type} `{!Database T E, !DatabaseLaws T E, !StoredCode T E} (blockNumber : Z).
Abbreviation SDB := (@StateDb.StateDB T E).
Abbreviation M := (st SDB Empty_set).
Abbreviation world := (@world T E).
#[local] Instance typed_StateDB : EvmBase.StateDB world := StateDB_world blockNumber.
Implicit Types (d : SDB) (w : world).

(** A database that has panicked is never used again. *)
Definition typed_world w : Prop := match w with Ok d => typed d | _ => True end.
Lemma typed_run {A} (m : M A) w : Ty m (λ _, True) → typed_world w → typed_world (run_st m w).
Proof.
  intros Hm. destruct w as [d|[]| |]; cbn; [|done..]. intros Hd. destruct (Hm d Hd) as [Hd' _]. by destruct (m d) as [d' [r|[]| |]].
Qed.
Lemma Ty_GetCode a : is_addr a → Ty (T:=T) (E:=E) (StateDb.GetCode a) slot_ok.
Proof.
  intros Ha. eapply Ty_bind; [by apply Ty_getStateObject|]. intros [o|] Hr; [|by apply Ty_ret]. destruct (Code_ok a o (Hr o eq_refl)) as [Ho Hc].
  apply Ty_get. intros d Hd. cbv [mbind st_bind st_lift]. destruct (obj_Code o) as [o1 c]. by apply (Ty_bind (setStateObject o1) _ (λ _, True) slot_ok); [apply (Ty_set a)|intros _ _; apply Ty_ret|].
Qed.
Lemma code_ok_nil : code_ok [].
Proof. by split; [constructor|]. Qed.
#[local] Hint Resolve Bytes20_addr Keeps_CreateAccount Keeps_AddBalance Keeps_SubBalance Keeps_SetNonce Keeps_SetCode Keeps_SetState Keeps_Suicide
  Keeps_AddRefund Keeps_AddAddress Keeps_AddSlot Keeps_AddLog Keeps_AddPreimage Keeps_Snapshot Keeps_Revert : core.
#[export] Instance typed_WorldLaws : WorldLaws world.
Proof.
  refine {| world_ok := typed_world |}; try (intros; by apply typed_run; auto).
  - intros [d|[]| |] a Hd; try apply code_ok_nil. cbn in *. destruct (Ty_GetCode (Bytes20 a) (Bytes20_addr a) d Hd) as [_ Hc].
    destruct (StateDb.GetCode (Bytes20 a) d) as [d' [[c|]|[]| |]]; cbn in *; try apply code_ok_nil. by apply (Hc (Some c)).
  - intros w _. apply u64_range.
  - intros g [d|[]| |] Hd; try done. cbn in *. destruct (Keeps_SubRefund g d Hd) as [Hd' _]. revert Hd'.
    unfold StateDb.SubRefund, mbind, st_bind, st_get. rewrite journal_append_logged. by destruct (_ <? g).
Defined.
Lemma typed_Transfer a b x w : typed_world w → typed_world (core_Transfer a b x w).
Proof. intros Hw. by repeat apply typed_run; auto. Qed.
End laws.

(** ** Calls over the concrete database *)

#[export] Instance toy_StoredCode : StoredCode toy_trie unit.
Proof. by intros h c code. Qed.
#[local] Instance example_StateDB : EvmBase.StateDB (@world toy_trie unit) := StateDB_world 100.

Lemma example_env_ok : env_ok example_env.
Proof. split; try done. apply (typed_Transfer 100). Qed.
Lemma example_typed : typed example_db.
Proof.
  split; [|constructor]. cbn. intros x o [<- <-]%lookup_singleton_Some. split; [done|]. split; [done|].
  intros c [= <-]. split; [repeat constructor; done|done].
Qed.
Lemma example_evm_ok : evm_ok (fresh example_evm).
Proof. split; [exact example_typed|apply code_ok_nil|done|done]. Qed.

Lemma evm_Call_total_witness :
  ∃ e', evm_Call example_env (Z.to_nat 50001) 1 2 [] 50000 0 example_evm = (e', Ok ([], 0, Some (ErrInvalidOpCode 0xfe))) ∧ evm_ok (fresh e').
Proof.
  pose proof (evm_Call_total example_env (Z.to_nat 50001) example_evm 1 2 [] 50000 0 example_env_ok example_evm_ok) as Hc.
  assert (snd (evm_Call example_env (Z.to_nat 50001) 1 2 [] 50000 0 example_evm) = Ok ([], 0, Some (ErrInvalidOpCode 0xfe)))
    as Hs by (vm_cast_no_check (@eq_refl (res Empty_set callres) (Ok ([], 0, Some (ErrInvalidOpCode 0xfe))))).
  destruct (evm_Call example_env (Z.to_nat 50001) 1 2 [] 50000 0 example_evm) as [e' r]. cbn [snd] in Hs. subst r.
  exists e'. split; [reflexivity|]. apply Hc; try done. constructor.
Defined.

(** A frame about to push a word. *)
Definition example_frame : frame (@world toy_trie unit) :=
  mk_frame 0 example_evm NewMemory [] (mk_Contract 1 2 example_code 0 [] 50 0 None).
Lemma example_contract_ok : contract_ok (contract example_frame).
Proof. split; [done|split; [repeat constructor; done|done]|apply code_ok_nil|done]. Qed.
Lemma example_frame_ok : frame_ok example_frame.
Proof.
  split; [split; [exact example_typed|apply code_ok_nil|done|done]|apply memory_ok_new|split; [apply Forall_nil_2|done]|exact example_contract_ok|done].
Qed.
Lemma step_progress_witness :
  match step example_env (calls_of example_env (loop example_env 50)) example_frame with
  | (f', Ok None) => frame_ok f' ∧ Gas (contract f') < 50
  | _ => False
  end.
Proof.
  pose proof (step_progress example_env 50 example_frame example_env_ok example_frame_ok) as Hp.
  assert (snd (step example_env (calls_of example_env (loop example_env 50)) example_frame) = Ok None)
    as Hs by (vm_compute; reflexivity).
  destruct (step example_env (calls_of example_env (loop example_env 50)) example_frame) as [f' r]. cbn [snd] in Hs. subst r. apply Hp. discriminate.
Defined.

(** The callee tries to write a slot. *)
Lemma static_call_read_only_witness :
  ∃ e', StaticCall_ example_env (loop example_env 50) (contract example_frame) 2 [] 40 example_evm = (e', Ok ([], 0, Some ErrWriteProtection)) ∧
    RO example_env (db example_evm) (db e').
Proof.
  pose proof (static_call_read_only example_env 50 example_evm (contract example_frame) 2 [] 40 example_env_ok) as Hc.
  assert (snd (StaticCall_ example_env (loop example_env 50) (contract example_frame) 2 [] 40 example_evm) = Ok ([], 0, Some ErrWriteProtection))
    as Hs by (vm_cast_no_check (@eq_refl (res Empty_set callres) (Ok ([], 0, Some ErrWriteProtection)))).
  destruct (StaticCall_ example_env (loop example_env 50) (contract example_frame) 2 [] 40 example_evm) as [e' r]. cbn [snd] in Hs. subst r.
  exists e'. split; [reflexivity|]. apply Hc; [|done|done]. split; [split; [exact example_typed|apply code_ok_nil|done|done]|].
  split; [exact example_contract_ok|]. split; [constructor|]. done.
Defined.
