(* ===== verification/TxMeta.v ===== *)
(** * Meta transactions (src/geth/core/types/meta_transaction.go)

    A transaction whose data starts with a fixed prefix carries, RLP encoded,
    the real payload and the signature of a second account that pays a share of
    the gas fee.  The elliptic curve is a parameter: [Ecrecover] returns the
    public key of a signature (crypto/signature_cgo.go calls libsecp256k1). *)
From S2P Require Import Prelude RlpBase RlpRaw RlpEncode RlpStream RlpStruct StateDb.

Inductive meta_err :=
| ErrInvalidMetaDataLen
| ErrMetaRlp (e : rlp_err)
| ErrMetaFeePercent (found : Z)
| ErrMetaExpired (current limit : Z)
| ErrInvalidMetaSig.

(** [hex.EncodeToString(data[:17]) == MetaPrefix], the bytes of "#MetaTransaction#". *)
Definition MetaPrefix : bytes :=
  [0x23; 0x4d; 0x65; 0x74; 0x61; 0x54; 0x72; 0x61; 0x6e; 0x73; 0x61; 0x63; 0x74; 0x69; 0x6f; 0x6e; 0x23].
Definition MetaPrefixBytesLen : Z := 17.
Definition BIG10000 : Z := 10000.

Record MetaData := mk_MetaData {
  BlockNumLimit : Z; FeePercent : Z; md_V : Z; md_R : Z; md_S : Z; Payload : bytes
}.

Definition IsMetaTransaction (data : bytes) : bool :=
  if MetaPrefixBytesLen <=? len data then bool_decide (take (Z.to_nat MetaPrefixBytesLen) data = MetaPrefix) else false.

Definition decodeMeta : S_ MetaData :=
  decodeStruct
    (limit ← decodeField (decodeUint 64);
     percent ← decodeField (decodeUint 64);
     v ← decodeField decodeBigInt;
     r ← decodeField decodeBigInt;
     s ← decodeField decodeBigInt;
     payload ← decodeField decodeBytes;
     mret (mk_MetaData limit percent v r s payload)).

Definition DecodeMetaData (encodedData : bytes) (blockNumber : Z) : res meta_err MetaData :=
  if len encodedData <=? MetaPrefixBytesLen then Err ErrInvalidMetaDataLen else
  match DecodeBytes_with decodeMeta (drop (Z.to_nat MetaPrefixBytesLen) encodedData) with
  | Ok md =>
      if BIG10000 <? FeePercent md then Err (ErrMetaFeePercent (FeePercent md))
      else if BlockNumLimit md <? u64 blockNumber then Err (ErrMetaExpired (u64 blockNumber) (BlockNumLimit md))
      else Ok md
  | Err e => Err (ErrMetaRlp e)
  | Panic p => Panic p
  | OutOfFuel => OutOfFuel
  end.

(** The payload comes from what follows the prefix. *)
Lemma decodeMeta_keeps n : 1 ≤ n → keeps n decodeMeta (λ md, bytes_ok (Payload md) ∧ len (Payload md) ≤ n).
Proof.
  intros Hn. apply keeps_struct. do 2 (eapply keeps_seq; [apply keeps_field, keeps_wrapped, keeps_uint|]; intros ? _).
  do 3 (eapply keeps_seq; [apply keeps_field, keeps_bigInt|]; intros ? _).
  eapply keeps_seq; [apply keeps_field, keeps_wrapped, keeps_Bytes; lia|]. intros p Hp. by apply keeps_ret.
Qed.
Lemma DecodeMetaData_payload d n : bytes_ok d →
  match DecodeMetaData d n with
  | Ok md => bytes_ok (Payload md) ∧ len (Payload md) ≤ len d - 17 ∧ FeePercent md ≤ BIG10000
  | Err _ => True
  | _ => False
  end.
Proof.
  intros Hd. unfold DecodeMetaData. destruct (Z.leb_spec (len d) MetaPrefixBytesLen) as [|Hlen]; [done|]. unfold MetaPrefixBytesLen in *.
  set (b := drop _ d). assert (bytes_ok b ∧ 1 ≤ len b ∧ len b = len d - 17) as (Hb & Hbl & Hbd).
  { unfold b. split; [by apply bytes_ok_drop|]. unfold len in *. rewrite length_drop. lia. }
  pose proof (DecodeBytes_keeps decodeMeta b _ Hb (decodeMeta_keeps (len b) Hbl)) as Hk. destruct (DecodeBytes_with decodeMeta b) as [md|e| |]; try done.
  destruct (Z.ltb_spec BIG10000 (FeePercent md)); [done|]. destruct (_ <? _); [done|]. split_and!; [apply Hk|lia|done].
Qed.

(** ** Signatures (crypto/crypto.go, core/types/transaction_signing.go) *)

Definition secp256k1N : Z := 0xfffffffffffffffffffffffffffffffebaaedce6af48a03bbfd25e8cd0364141.
Definition secp256k1halfN : Z := secp256k1N / 2.

Definition ValidateSignatureValues (v r s : Z) (homestead : bool) : bool :=
  if (r <? 1) || (s <? 1) then false
  else if homestead && (secp256k1halfN <? s) then false
  else (r <? secp256k1N) && (s <? secp256k1N) && ((v =? 0) || (v =? 1)).

Section recover.
Context (Ecrecover : bytes → bytes → option bytes) (keccak256 : bytes → Z).

(** [Vb.Uint64()] drops the sign. *)
Definition recoverPlain (sighash R S Vb : Z) (homestead : bool) : option Z :=
  if 8 <? big_BitLen Vb then None else
  let V := u8 (u64 (Z.abs Vb) - 27) in
  if negb (ValidateSignatureValues V R S homestead) then None else
  match Ecrecover (be_bytes 32 sighash) (be_bytes 32 R ++ be_bytes 32 S ++ [V]) with
  | None => None
  | Some [] => None
  | Some (x :: pub) => if negb (x =? 4) then None else Some (keccak256 pub mod 2 ^ 160)
  end.

(** The list that the fee payer signs. *)
Definition meta_fields (md : MetaData) (nonce gasPrice gas : Z) (to : option Z) (value : Z) (payload : bytes)
    (from chainID : Z) : gval :=
  VSlice false (map (λ v, VInterface (Some v))
    [VUint nonce; VBigIntPtr (Some gasPrice); VUint gas;
     VPtr String (option_map (λ a, VByteArray (address_bytes a)) to); VBigIntPtr (Some value); VBytes payload;
     VByteArray (address_bytes from); VUint (FeePercent md); VUint (BlockNumLimit md); VBigIntPtr (Some chainID)]).

(** [rlpHash] hashes what the encoder has written; nothing on an error. *)
Definition rlpHash (v : gval) : Z :=
  match EncodeToBytes v with Ok b => keccak256 b | _ => keccak256 [] end.

Definition ParseMetaData (md : MetaData) (nonce gasPrice gas : Z) (to : option Z) (value : Z) (payload : bytes)
    (from chainID : Z) : res meta_err Z :=
  let hash := rlpHash (meta_fields md nonce gasPrice gas to value payload from chainID) in
  let V := md_V md - chainID * 2 - 8 in
  match recoverPlain hash (md_R md) (md_S md) V true with
  | Some addr => Ok addr
  | None => Err ErrInvalidMetaSig
  end.
End recover.
