(* ===== verification/TxTransition.v ===== *)
(** * Applying a message to the state
    (src/geth/core/state_transition.go, src/geth/core/gaspool.go)

    [TransitionDb] checks a message, buys its gas from the sender (for a meta
    transaction from the sender and the fee payer), runs the EVM, refunds what is
    left and pays the fee.  The transition works on the EVM, whose database is a
    parameter with the interface [StateDB]; the gas pool is shared with the other
    messages of the block. *)
From S2P Require Import Prelude RlpBase RlpEncode RlpStream EvmAnalysis EvmBase EvmMachine EvmInterp TxMeta.

(** ** The gas pool *)

Inductive tx_err :=
| ErrNonceTooHigh | ErrNonceTooLow | ErrNonceMax | ErrSenderNoEOA
| ErrFeeCapVeryHigh | ErrTipVeryHigh | ErrTipAboveFeeCap | ErrFeeCapTooLow
| ErrInsufficientFunds | ErrGasLimitReached
| ErrMeta (e : meta_err)
| ErrTxGasUintOverflow | ErrIntrinsicGas | ErrInsufficientFundsForTransfer | ErrTxUnauthorizedDeveloper.

Definition MaxUint64 : Z := 2 ^ 64 - 1.
Definition AddGas (amount gp : Z) : res tx_err Z := if MaxUint64 - amount <? gp then Panic (raised "gas pool pushed above uint64") else Ok (gp + amount).
Definition SubGas (amount gp : Z) : res tx_err Z := if gp <? amount then Err ErrGasLimitReached else Ok (gp - amount).

(** ** Intrinsic gas *)

Definition TxGas : Z := 21000.
Definition TxGasContractCreation : Z := 53000.
Definition TxDataZeroGas : Z := 4.
Definition TxDataNonZeroGasFrontier : Z := 68.
Definition TxDataNonZeroGasEIP2028 : Z := 16.
Definition TxAccessListAddressGas : Z := 2400.
Definition TxAccessListStorageKeyGas : Z := 1900.
Definition RefundQuotient : Z := 2.
Definition RefundQuotientEIP3529 : Z := 5.

(** An access list: addresses with their storage keys. *)
Definition AccessList : Type := list (Z * list Z).
Fixpoint StorageKeys (al : AccessList) : Z :=
  match al with [] => 0 | (_, keys) :: al => len keys + StorageKeys al end.

Fixpoint count_nz (data : bytes) : Z :=
  match data with [] => 0 | b :: data => (if b =? 0 then 0 else 1) + count_nz data end.

Definition IntrinsicGas (data : bytes) (accessList : AccessList) (isContractCreation isHomestead isEIP2028 : bool) :
    res tx_err Z :=
  let gas := if isContractCreation && isHomestead then TxGasContractCreation else TxGas in
  gas ← (if 0 <? len data then
           let nz := count_nz data in
           let nonZeroGas := if isEIP2028 then TxDataNonZeroGasEIP2028 else TxDataNonZeroGasFrontier in
           if (MaxUint64 - gas) / nonZeroGas <? nz then Err ErrTxGasUintOverflow else
           let gas := u64 (gas + nz * nonZeroGas) in
           let z := u64 (len data - nz) in
           if (MaxUint64 - gas) / TxDataZeroGas <? z then Err ErrTxGasUintOverflow else
           Ok (u64 (gas + z * TxDataZeroGas))
         else Ok gas);
  let gas := u64 (gas + len accessList * TxAccessListAddressGas) in
  Ok (u64 (gas + StorageKeys accessList * TxAccessListStorageKeyGas)).

(** ** Messages and the transition *)

(** [core.Message]; the fee caps may be nil. *)
Record Message := mk_Message {
  From : Z; To : option Z; m_GasPrice : Z; m_GasFeeCap : option Z; m_GasTipCap : option Z;
  m_Gas : Z; m_Value : Z; m_Nonce : Z; IsFake : bool; m_Data : bytes; m_AccessList : AccessList
}.

(** What the transition reads of the chain configuration and the EVM's
    configuration, and the parts of [vm.StateDB] the EVM itself does not use. *)
Record TxEnv (W : Type) := mk_TxEnv {
  vmenv : Env W;
  Congress : bool;
  NoBaseFee : bool;
  ActivePrecompiles : list Z;
  tx_PrepareAccessList : Z → option Z → list Z → AccessList → W → W;
  tx_Ecrecover : bytes → bytes → option bytes
}.
Arguments vmenv {W} _.
Arguments Congress {W} _.
Arguments NoBaseFee {W} _.
Arguments ActivePrecompiles {W} _.
Arguments tx_PrepareAccessList {W} _ _ _ _ _ _.
Arguments tx_Ecrecover {W} _ _ _.

Record ExecutionResult := mk_ExecutionResult { UsedGas : Z; res_Err : option evm_err; ReturnData : bytes }.

(** [consensus.FeeRecoder]. *)
Definition FeeRecoder : Z := 2 ^ 160 - 1.

Record StateTransition (W : Type) := mk_ST {
  gp : Z; gas : Z; initialGas : Z; data : bytes; isMeta : bool; feeAddress : Z; feePercent : Z;
  realPayload : bytes; evm : EVM W
}.
Arguments mk_ST {W} _ _ _ _ _ _ _ _ _.
Arguments gp {W} _.
Arguments gas {W} _.
Arguments initialGas {W} _.
Arguments data {W} _.
Arguments isMeta {W} _.
Arguments feeAddress {W} _.
Arguments feePercent {W} _.
Arguments realPayload {W} _.
Arguments evm {W} _.

Section transition.
Context {W : Type} `{!Uint256, !StateDB W} (tenv : TxEnv W) (msg : Message).
Abbreviation ST := (StateTransition W).
Abbreviation X := (st ST tx_err).
Abbreviation env := (vmenv tenv).

Definition set_gp (x : Z) (s : ST) : ST :=
  mk_ST x (gas s) (initialGas s) (data s) (isMeta s) (feeAddress s) (feePercent s) (realPayload s) (evm s).
Definition set_gas (x : Z) (s : ST) : ST :=
  mk_ST (gp s) x (initialGas s) (data s) (isMeta s) (feeAddress s) (feePercent s) (realPayload s) (evm s).
Definition set_initialGas (x : Z) (s : ST) : ST :=
  mk_ST (gp s) (gas s) x (data s) (isMeta s) (feeAddress s) (feePercent s) (realPayload s) (evm s).
Definition set_data (x : bytes) (s : ST) : ST :=
  mk_ST (gp s) (gas s) (initialGas s) x (isMeta s) (feeAddress s) (feePercent s) (realPayload s) (evm s).
Definition set_evm (x : EVM W) (s : ST) : ST :=
  mk_ST (gp s) (gas s) (initialGas s) (data s) (isMeta s) (feeAddress s) (feePercent s) (realPayload s) x.
Definition set_meta (addr percent : Z) (s : ST) : ST :=
  mk_ST (gp s) (gas s) (initialGas s) (data s) true addr percent (data s) (evm s).

Definition world_of (s : ST) : W := db (evm s).
Definition update_world (f : W → W) : X unit :=
  st_modify (λ s, set_evm (set_world (f (world_of s)) (evm s)) s).

Definition NewStateTransition (e : EVM W) (pool : Z) : ST := mk_ST pool 0 0 (m_Data msg) false 0 0 [] e.

Definition to : Z := match To msg with Some a => a | None => 0 end.

(** The pool and gas part that [buyGas] and [buyGasMeta] share. *)
Definition take_gas : X unit :=
  s ← st_get;
  pool ← st_lift (SubGas (m_Gas msg) (gp s));
  st_modify (λ s, set_initialGas (m_Gas msg) (set_gas (u64 (gas s + m_Gas msg)) (set_gp pool s))).

Definition buyGas : X unit :=
  let mgval := m_Gas msg * m_GasPrice msg in
  let balanceCheck := match m_GasFeeCap msg with Some cap => m_Gas msg * cap + m_Value msg | None => mgval end in
  s ← st_get;
  if GetBalance (world_of s) (From msg) <? balanceCheck then st_err ErrInsufficientFunds else
  take_gas ≫= λ _, update_world (SubBalance (From msg) mgval).

(** The shares of a meta transaction's fee. *)
Definition fee_share (amount percent : Z) : Z := amount * percent / BIG10000.
Definition self_share (amount percent : Z) : Z := amount * u64 (u64 BIG10000 - percent) / BIG10000.

Definition buyGasMeta : X unit :=
  s ← st_get;
  let mgval := m_Gas msg * m_GasPrice msg in
  let mgFeeAddrVal := fee_share mgval (feePercent s) in
  let mgSelfVal := self_share mgval (feePercent s) in
  if (GetBalance (world_of s) (feeAddress s) <? mgFeeAddrVal) || (GetBalance (world_of s) (From msg) <? mgSelfVal)
  then st_err ErrInsufficientFunds else
  take_gas ≫= λ _,
  update_world (SubBalance (feeAddress s) mgFeeAddrVal) ≫= λ _, update_world (SubBalance (From msg) mgSelfVal).

Definition metaTransactionCheck : X unit :=
  s ← st_get;
  if IsMetaTransaction (data s) then
    match DecodeMetaData (data s) (BlockNumber env) with
    | Ok md =>
        match ParseMetaData (tx_Ecrecover tenv) (keccak256 env) md (m_Nonce msg) (m_GasPrice msg) (m_Gas msg) (To msg)
                (m_Value msg) (Payload md) (From msg) (ChainID env) with
        | Ok addr => st_modify (set_meta addr (FeePercent md)) ≫= λ _, st_modify (set_data (Payload md))
        | Err e => st_err (ErrMeta e)
        | Panic p => st_panic p
        | OutOfFuel => λ s, (s, OutOfFuel)
        end
    | Err e => st_err (ErrMeta e)
    | Panic p => st_panic p
    | OutOfFuel => λ s, (s, OutOfFuel)
    end
  else mret tt.

(** The checks of [preCheck] on the sender and on the fee caps. *)
Definition check_sender : X unit :=
  s ← st_get;
  if IsFake msg then mret tt else
  let stNonce := GetNonce (world_of s) (From msg) in
  if stNonce <? m_Nonce msg then st_err ErrNonceTooHigh
  else if m_Nonce msg <? stNonce then st_err ErrNonceTooLow
  else if u64 (stNonce + 1) <? stNonce then st_err ErrNonceMax
  else
    let codeHash := GetCodeHash (world_of s) (From msg) in
    if negb (codeHash =? keccak256 env []) && negb (codeHash =? 0) then st_err ErrSenderNoEOA else mret tt.
Definition check_fees : X unit :=
  if negb (IsLondon (chainRules env)) then mret tt else
  match m_GasFeeCap msg with
  | None => st_panic runtime_error
  | Some feeCap =>
      enabled ← (if negb (NoBaseFee tenv) || (0 <? big_BitLen feeCap) then mret true
                 else match m_GasTipCap msg with Some tipCap => mret (0 <? big_BitLen tipCap) | None => st_panic runtime_error end);
      if negb enabled then mret tt
      else if 256 <? big_BitLen feeCap then st_err ErrFeeCapVeryHigh
      else
        match m_GasTipCap msg with
        | None => st_panic runtime_error
        | Some tipCap =>
            if 256 <? big_BitLen tipCap then st_err ErrTipVeryHigh
            else if feeCap <? tipCap then st_err ErrTipAboveFeeCap
            else
              match BaseFee env with
              | None => st_panic runtime_error
              | Some baseFee => if feeCap <? baseFee then st_err ErrFeeCapTooLow else mret tt
              end
        end
  end.

Definition preCheck : X unit :=
  check_sender ≫= λ _,
  check_fees ≫= λ _,
  metaTransactionCheck ≫= λ _,
  s ← st_get;
  if isMeta s then buyGasMeta else buyGas.

Definition gasUsed (s : ST) : Z := u64 (initialGas s - gas s).

Definition refundGas (refundQuotient : Z) : X unit :=
  s ← st_get;
  let refund := gasUsed s / refundQuotient in
  let refund := if GetRefund (world_of s) <? refund then GetRefund (world_of s) else refund in
  st_modify (set_gas (u64 (gas s + refund))) ≫= λ _,
  s ← st_get;
  let remaining := gas s * m_GasPrice msg in
  (if isMeta s then
     update_world (AddBalance (feeAddress s) (fee_share remaining (feePercent s))) ≫= λ _,
     update_world (AddBalance (From msg) (self_share remaining (feePercent s))) ≫= λ _,
     st_modify (set_data (realPayload s))
   else update_world (AddBalance (From msg) remaining)) ≫= λ _ : unit,
  s ← st_get;
  pool ← st_lift (AddGas (gas s) (gp s));
  st_modify (set_gp pool).

(** Runs the EVM on the transition's state. *)
Definition run_evm {A} (m : st (EVM W) Empty_set A) : X A := λ s,
  match m (evm s) with
  | (e, Ok a) => (set_evm e s, Ok a)
  | (e, Err err) => match err with end
  | (e, Panic why) => (set_evm e s, Panic why)
  | (e, OutOfFuel) => (set_evm e s, OutOfFuel)
  end.

(** The checks between buying gas and running the message. *)
Definition charge_intrinsic : X unit :=
  s ← st_get;
  g ← st_lift (IntrinsicGas (data s) (m_AccessList msg) (bool_decide (To msg = None)) (IsHomestead (chainRules env))
                 (IsIstanbul (chainRules env)));
  if gas s <? g then st_err ErrIntrinsicGas else st_modify (set_gas (gas s - g)).
Definition check_transfer : X unit :=
  s ← st_get;
  if (0 <? m_Value msg) && negb (CanTransfer env (world_of s) (From msg) (m_Value msg))
  then st_err ErrInsufficientFundsForTransfer else mret tt.
Definition prepare_access : X unit :=
  if IsBerlin (chainRules env)
  then update_world (tx_PrepareAccessList tenv (From msg) (To msg) (ActivePrecompiles tenv) (m_AccessList msg))
  else mret tt.
Definition check_create : X unit :=
  s ← st_get;
  match To msg, CanCreate env with
  | None, Some f => if negb (f (world_of s) (From msg) (BlockNumber env)) then st_err ErrTxUnauthorizedDeveloper else mret tt
  | _, _ => mret tt
  end.

(** The message itself: the returned data and the EVM's error. *)
Definition execute (fuel : nat) : X (bytes * option evm_err) :=
  s ← st_get;
  '(ret, rest, vmerr) ←
    match To msg with
    | None => '(r, _) ← run_evm (evm_Create env fuel (From msg) (data s) (gas s) (m_Value msg)); mret r
    | Some _ =>
        update_world (λ w, SetNonce (From msg) (u64 (GetNonce w (From msg) + 1)) w) ≫= λ _,
        run_evm (evm_Call env fuel (From msg) to (data s) (gas s) (m_Value msg))
    end;
  st_modify (set_gas rest) ≫= λ _, mret (ret, vmerr).

(** [math.BigMin]. *)
Definition BigMin (x y : Z) : Z := if y <? x then y else x.
Definition pay_fee : X unit :=
  s ← st_get;
  let london := IsLondon (chainRules env) in
  tip_rate ← (if london then
                match m_GasTipCap msg, m_GasFeeCap msg, BaseFee env with
                | Some tipCap, Some feeCap, Some baseFee => mret (BigMin tipCap (feeCap - baseFee))
                | _, _, _ => st_panic runtime_error
                end
              else mret (m_GasPrice msg));
  let tip := gasUsed s * tip_rate in
  if Congress tenv then
    update_world (AddBalance FeeRecoder tip) ≫= λ _,
    match london, BaseFee env with
    | true, Some baseFee => if 0 <? baseFee then update_world (AddBalance FeeRecoder (gasUsed s * baseFee)) else mret tt
    | _, _ => mret tt
    end
  else update_world (AddBalance (Coinbase env) tip).

Definition TransitionDb (fuel : nat) : X ExecutionResult :=
  preCheck ≫= λ _,
  charge_intrinsic ≫= λ _,
  check_transfer ≫= λ _,
  prepare_access ≫= λ _,
  check_create ≫= λ _,
  '(ret, vmerr) ← execute fuel;
  refundGas (if IsLondon (chainRules env) then RefundQuotientEIP3529 else RefundQuotient) ≫= λ _,
  pay_fee ≫= λ _,
  s ← st_get;
  mret (mk_ExecutionResult (gasUsed s) vmerr ret).

(** [ApplyMessage], with the pool passed in and out. *)
Definition ApplyMessage (fuel : nat) (e : EVM W) (pool : Z) : ST * res tx_err ExecutionResult :=
  TransitionDb fuel (NewStateTransition e pool).
End transition.
