(* ===== verification/TxGas.v ===== *)
(** * Gas of a message

    The intrinsic gas is the exact sum of its parts or an overflow error, and a
    message that is executed takes from the block's gas pool exactly the gas it
    reports as used. *)
From S2P Require Import Prelude RlpBase RlpRaw RlpEncode RlpStream RlpStruct EvmAnalysis EvmBase EvmMachine EvmInterp EvmSafety.
From S2P Require Import EvmTheorems TxMeta TxTransition.

(** ** Intrinsic gas *)

Lemma count_nz_bound data : 0 ≤ count_nz data ≤ len data.
Proof.
  induction data as [|b data IH]; [done|]. cbn [count_nz]. rewrite len_cons. destruct (b =? 0); lia.
Qed.

(** The gas of the transaction and its data, over the integers. *)
Definition data_gas (data : bytes) (isContractCreation isHomestead isEIP2028 : bool) : Z :=
  (if isContractCreation && isHomestead then TxGasContractCreation else TxGas) +
  count_nz data * (if isEIP2028 then TxDataNonZeroGasEIP2028 else TxDataNonZeroGasFrontier) +
  (len data - count_nz data) * TxDataZeroGas.

Lemma intrinsic_eq data al c h e : is_u64 (len data) →
  IntrinsicGas data al c h e =
  if MaxUint64 <? data_gas data c h e then Err ErrTxGasUintOverflow
  else Ok (u64 (data_gas data c h e + len al * TxAccessListAddressGas + StorageKeys al * TxAccessListStorageKeyGas)).
Proof.
  intros [_ Hl]. pose proof (count_nz_bound data) as Hnz. unfold IntrinsicGas, data_gas.
  set (base := if c && h then TxGasContractCreation else TxGas).
  set (rate := if e then TxDataNonZeroGasEIP2028 else TxDataNonZeroGasFrontier).
  assert (21000 ≤ base ≤ 53000) as Hb by (unfold base; destruct (c && h); unfold TxGasContractCreation, TxGas; lia).
  assert (16 ≤ rate ≤ 68) as Hr by (unfold rate; destruct e; unfold TxDataNonZeroGasEIP2028, TxDataNonZeroGasFrontier; lia).
  set (nz := count_nz data) in *. unfold TxDataZeroGas, MaxUint64 in *.
  assert (∀ g, Ok (u64 (u64 (g + len al * TxAccessListAddressGas) + StorageKeys al * TxAccessListStorageKeyGas)) =
    Ok (E:=tx_err) (u64 (g + len al * TxAccessListAddressGas + StorageKeys al * TxAccessListStorageKeyGas))) as Hfin
    by (intros g; unfold u64; by rewrite Zplus_mod_idemp_l).
  destruct (Z.ltb_spec 0 (len data)) as [Hpos|Hz].
  2: { cbn [mbind res_bind]. assert (nz = 0) as -> by lia. assert (len data = 0) as -> by lia.
       rewrite (proj2 (Z.ltb_ge _ (base + _ + _))) by lia. rewrite Hfin. do 2 f_equal. lia. }
  assert ((2 ^ 64 - 1 - base) / rate < nz ↔ 2 ^ 64 - 1 < base + nz * rate) as Hov1.
  { split; intros Hx.
    - assert (2 ^ 64 - 1 - base < rate * nz); [|lia].
      pose proof (Z.mul_succ_div_gt (2 ^ 64 - 1 - base) rate ltac:(lia)). nia.
    - apply Z.div_lt_upper_bound; lia. }
  destruct (Z.ltb_spec ((2 ^ 64 - 1 - base) / rate) nz) as [H1|H1].
  { cbn [mbind res_bind]. rewrite (proj2 (Z.ltb_lt _ _)); [done|]. apply Hov1 in H1. lia. }
  assert (base + nz * rate ≤ 2 ^ 64 - 1) as H1' by (apply Z.nlt_ge; intros Hx; apply Hov1 in Hx; lia).
  rewrite (u64_small (base + nz * rate)) by (unfold is_u64; nia).
  rewrite (u64_small (len data - nz)) by (unfold is_u64; lia).
  assert ((2 ^ 64 - 1 - (base + nz * rate)) / 4 < len data - nz ↔ 2 ^ 64 - 1 < base + nz * rate + (len data - nz) * 4) as Hov2.
  { split; intros Hx.
    - pose proof (Z.mul_succ_div_gt (2 ^ 64 - 1 - (base + nz * rate)) 4 ltac:(lia)). lia.
    - apply Z.div_lt_upper_bound; lia. }
  destruct (Z.ltb_spec ((2 ^ 64 - 1 - (base + nz * rate)) / 4) (len data - nz)) as [H2|H2].
  { cbn [mbind res_bind]. rewrite (proj2 (Z.ltb_lt _ _)); [done|]. by apply Hov2. }
  assert (base + nz * rate + (len data - nz) * 4 ≤ 2 ^ 64 - 1) as H2' by (apply Z.nlt_ge; intros Hx; apply Hov2 in Hx; lia).
  rewrite (u64_small (base + nz * rate + (len data - nz) * 4)) by (unfold is_u64; nia).
  cbn [mbind res_bind]. rewrite (proj2 (Z.ltb_ge _ (base + _ + _))) by lia. apply Hfin.
Qed.

(** The intrinsic gas of a message is the exact sum of the base cost, the cost
    of its zero and non-zero bytes and of its access list, and an input whose data
    alone would exceed 64 bits is refused instead of wrapping around. *)
Theorem IntrinsicGas_exact data al isContractCreation isHomestead isEIP2028 :
  is_u64 (len data) →
  let g := data_gas data isContractCreation isHomestead isEIP2028 in
  let total := g + len al * TxAccessListAddressGas + StorageKeys al * TxAccessListStorageKeyGas in
  IntrinsicGas data al isContractCreation isHomestead isEIP2028 =
    (if MaxUint64 <? g then Err ErrTxGasUintOverflow else Ok (u64 total)) ∧
  (total ≤ MaxUint64 → IntrinsicGas data al isContractCreation isHomestead isEIP2028 = Ok total).
Proof.
  intros Hl g total. rewrite intrinsic_eq by done. fold g. split; [done|]. intros Ht.
  assert (∀ al, 0 ≤ StorageKeys al) as Hk by (induction al0 as [|[? ks] al0 IH]; cbn; [lia|pose proof (len_nonneg ks); lia]).
  pose proof (Hk al). pose proof (len_nonneg al). pose proof (count_nz_bound data).
  assert (0 ≤ g) by (unfold g, data_gas, TxGasContractCreation, TxGas, TxDataNonZeroGasEIP2028, TxDataNonZeroGasFrontier, TxDataZeroGas;
    destruct (isContractCreation && isHomestead), isEIP2028; lia).
  unfold total, TxAccessListAddressGas, TxAccessListStorageKeyGas, MaxUint64 in *.
  rewrite (proj2 (Z.ltb_ge _ g)) by lia. rewrite u64_small by (unfold is_u64; lia). done.
Qed.

Lemma IntrinsicGas_exact_witness :
  IntrinsicGas [0; 1; 2] [(7, [1; 2])] true true true = Ok (53000 + 2 * 16 + 4 + 2400 + 2 * 1900).
Proof. apply (IntrinsicGas_exact [0; 1; 2] [(7, [1; 2])] true true true); done. Defined.

(** ** The phases of a transition *)

Section phases.
Context {W : Type} `{!Uint256, !Uint256Laws, !StateDB W, !WorldLaws W} (tenv : TxEnv W) (msg : Message).
Abbreviation ST := (StateTransition W).
Abbreviation env := (vmenv tenv).
Implicit Types s : ST.

(** A message as the chain builds it. *)
Record msg_ok : Prop := {
  msg_gas : is_u64 (m_Gas msg);
  msg_data : bytes_ok (m_Data msg) ∧ len (m_Data msg) < 2 ^ 62;
  msg_from : is_u256 (From msg);
  msg_to : is_u256 (to msg);
  msg_caps : is_Some (m_GasFeeCap msg) ∧ is_Some (m_GasTipCap msg)
}.

(** The context of a message: that of the EVM, with a preparation of the access list
    that the database allows. *)
Record tenv_ok : Prop := {
  te_env : env_ok env;
  te_access sender dst ps al w : world_ok w → world_ok (tx_PrepareAccessList tenv sender dst ps al w)
}.

(** The transition can run the EVM on its data. *)
Record ready s : Prop := {
  ready_data : bytes_ok (data s) ∧ len (data s) < 2 ^ 62;
  ready_evm : evm_ok (fresh (evm s));
  ready_ro : readOnly (evm s) = false
}.
Lemma ready_ok s : ready s → world_ok (world_of s).
Proof. intros Hr. exact (evm_world _ (ready_evm _ Hr)). Qed.
Lemma ready_world w s : ready s → world_ok w → ready (set_evm (set_world w (evm s)) s).
Proof. intros [Hd [] Hr] Hw. split; [done|by split|done]. Qed.

Lemma DecodeMetaData_ok d n : bytes_ok d → len d < 2 ^ 62 →
  match DecodeMetaData d n with
  | Ok md => bytes_ok (Payload md) ∧ len (Payload md) < 2 ^ 62 ∧ FeePercent md ≤ BIG10000
  | Err _ => True
  | _ => False
  end.
Proof.
  intros Hd Hl. pose proof (DecodeMetaData_payload d n Hd) as Hp. destruct (DecodeMetaData d n); try done. split_and!; [apply Hp|lia|apply Hp].
Qed.

(** What [preCheck] does to the gas: it is taken from the pool and credited to the
    transition, or nothing changes. *)
Definition bought s s' : Prop :=
  ready s' ∧ gas s' = m_Gas msg ∧ initialGas s' = m_Gas msg ∧ gp s' = gp s - m_Gas msg ∧ m_Gas msg ≤ gp s.
Definition refused s s' : Prop := gp s' = gp s ∧ evm s' = evm s ∧ gas s' = gas s.

Lemma take_gas_spec s : msg_ok → ready s → gas s = 0 →
  match take_gas msg s with
  | (s', Ok _) => bought s s' ∧ isMeta s' = isMeta s ∧ feeAddress s' = feeAddress s ∧ feePercent s' = feePercent s ∧ evm s' = evm s ∧ realPayload s' = realPayload s
  | (s', Err e) => s' = s
  | _ => False
  end.
Proof.
  intros Hm Hr Hg. unfold take_gas, mbind, st_bind, st_get, st_lift, SubGas. destruct (Z.ltb_spec (gp s) (m_Gas msg)); [done|].
  cbn. split; [|done]. split; [by destruct Hr; split|]. rewrite Hg, u64_small by (rewrite Z.add_0_l; apply Hm). split_and!; cbn; lia.
Qed.

Lemma bought_world s s' w : bought s s' → world_ok w → bought s (set_evm (set_world w (evm s')) s').
Proof. intros (Hr & ? & ? & ? & ?) Hw. split; [by apply ready_world|done]. Qed.
Lemma bought_ok s s' : bought s s' → world_ok (world_of s').
Proof. intros [Hr _]. by apply ready_ok. Qed.
#[local] Hint Resolve ready_ok bought_ok : world.

Lemma buyGas_spec s : msg_ok → ready s → gas s = 0 →
  match buyGas msg s with (s', Ok _) => bought s s' | (s', Err _) => refused s s' | _ => False end.
Proof.
  intros Hm Hr Hg. unfold buyGas, mbind at 1, st_bind at 1, st_get. destruct (_ <? _); [done|].
  pose proof (take_gas_spec s Hm Hr Hg) as Ht. unfold mbind, st_bind. destruct (take_gas msg s) as [s' [u|e| |]]; try done.
  - apply bought_world; [apply Ht|]. apply ok_SubBalance, (bought_ok s), Ht.
  - by subst.
Qed.
Lemma buyGasMeta_spec s : msg_ok → ready s → gas s = 0 →
  match buyGasMeta msg s with (s', Ok _) => bought s s' | (s', Err _) => refused s s' | _ => False end.
Proof.
  intros Hm Hr Hg. unfold buyGasMeta, mbind at 1, st_bind at 1, st_get. destruct (_ || _); [done|].
  pose proof (take_gas_spec s Hm Hr Hg) as Ht. unfold mbind, st_bind. destruct (take_gas msg s) as [s' [u|e| |]]; try done.
  - destruct Ht as [Ht _]. pose proof (bought_world s s' _ Ht (ok_SubBalance (feeAddress s) (fee_share (m_Gas msg * m_GasPrice msg) (feePercent s)) _ (bought_ok s s' Ht))) as Ht2.
    apply (bought_world s _ _ Ht2). apply ok_SubBalance. exact (bought_ok s _ Ht2).
  - by subst.
Qed.

Lemma metaCheck_spec s : ready s →
  match metaTransactionCheck tenv msg s with
  | (s', Ok _) => ready s' ∧ gp s' = gp s ∧ evm s' = evm s ∧ gas s' = gas s
  | (s', Err _) => s' = s
  | _ => False
  end.
Proof.
  intros [[Hd Hl] He Hro]. unfold metaTransactionCheck, mbind at 1, st_bind at 1, st_get. destruct (IsMetaTransaction (data s)); [|by split_and!].
  pose proof (DecodeMetaData_ok (data s) (BlockNumber env) Hd Hl) as Hmd.
  destruct (DecodeMetaData (data s) (BlockNumber env)) as [md|e| |]; try done. unfold ParseMetaData.
  destruct (recoverPlain _ _ _ _ _ _ _); [|done]. cbn. split_and!; try done. by split; [split; apply Hmd|..].
Qed.

Lemma check_fees_spec s : env_ok env → msg_ok →
  match check_fees tenv msg s with (s', Ok _) => s' = s | (s', Err _) => s' = s | _ => False end.
Proof.
  intros Henv [_ _ _ _ [[fc Hfc] [tc Htc]]]. unfold check_fees. rewrite Hfc, Htc. pose proof (BaseFee_ok env Henv) as Hb.
  destruct (IsLondon _); [|done]. destruct (Hb eq_refl) as [bf ->]. cbn [negb].
  unfold mbind, st_bind. destruct (negb (NoBaseFee tenv) || _); cbn; [|destruct (0 <? big_BitLen tc); [|done]]; cbn;
    (destruct (256 <? big_BitLen fc); [done|]); (destruct (256 <? big_BitLen tc); [done|]); (destruct (fc <? tc); [done|]);
    by destruct (fc <? bf).
Qed.
Lemma check_sender_spec s : match check_sender tenv msg s with (s', Ok _) => s' = s | (s', Err _) => s' = s | _ => False end.
Proof. unfold check_sender, mbind, st_bind, st_get. destruct (IsFake msg); [done|].
  destruct (_ <? m_Nonce msg); [done|]. destruct (m_Nonce msg <? _); [done|]. destruct (u64 _ <? _); [done|]. by destruct (_ && _). Qed.

Lemma preCheck_spec s : env_ok env → msg_ok → ready s → gas s = 0 →
  match preCheck tenv msg s with (s', Ok _) => bought s s' | (s', Err _) => refused s s' | _ => False end.
Proof.
  intros Henv Hm Hr Hg. unfold preCheck, mbind, st_bind.
  pose proof (check_sender_spec s) as H1. destruct (check_sender tenv msg s) as [s1 [u1|e1| |]]; try done; subst s1; [|done].
  pose proof (check_fees_spec s Henv Hm) as H2. destruct (check_fees tenv msg s) as [s2 [u2|e2| |]]; try done; subst s2; [|done].
  pose proof (metaCheck_spec s Hr) as H3. destruct (metaTransactionCheck tenv msg s) as [s3 [u3|e3| |]]; try done; [|by subst s3].
  destruct H3 as (Hr3 & Hgp & Hevm & Hgas). unfold st_get.
  assert (match (if isMeta s3 then buyGasMeta msg else buyGas msg) s3 with (s', Ok _) => bought s3 s' | (s', Err _) => refused s3 s' | _ => False end) as H4
    by (destruct (isMeta s3); [apply buyGasMeta_spec|apply buyGas_spec]; congruence).
  destruct ((if isMeta s3 then buyGasMeta msg else buyGas msg) s3) as [s4 [u4|e4| |]]; try done.
  - destruct H4 as (? & ? & ? & ? & ?). split_and!; congruence || done.
  - destruct H4 as (? & ? & ?). split_and!; congruence.
Qed.

(** After buying gas: [n] of the bought gas is certainly spent. *)
Record spent (pool n : Z) s : Prop := {
  run_initial : initialGas s = m_Gas msg;
  run_pool : gp s = pool - m_Gas msg ∧ m_Gas msg ≤ pool;
  run_gas : 0 ≤ gas s ≤ m_Gas msg - n
}.
Definition running (pool n : Z) s : Prop := ready s ∧ spent pool n s.
Lemma running_world pool n s w : running pool n s → world_ok w → running pool n (set_evm (set_world w (evm s)) s).
Proof. intros [Hr []] Hw. split; [by apply ready_world|by split]. Qed.

Lemma charge_spec s0 s : bought s0 s → msg_ok →
  match charge_intrinsic tenv msg s with
  | (s', Ok _) => ∃ g, IntrinsicGas (data s) (m_AccessList msg) (bool_decide (To msg = None)) (IsHomestead (chainRules env))
                         (IsIstanbul (chainRules env)) = Ok g ∧ g ≤ m_Gas msg ∧ running (gp s0) g s'
  | (s', Err _) => gp s' = gp s0 - m_Gas msg
  | _ => False
  end.
Proof.
  intros (Hr & Hg & Hi & Hp & Hle) Hm. unfold charge_intrinsic, mbind, st_bind, st_get, st_lift.
  rewrite intrinsic_eq by (split; [apply len_nonneg|]; destruct Hr as [[_ Hl] _ _]; lia).
  destruct (MaxUint64 <? _); [done|]. set (g := u64 _). assert (is_u64 g) as [Hg0 _] by apply u64_range. rewrite Hg.
  destruct (Z.ltb_spec (m_Gas msg) g); [done|]. exists g. split; [done|]. split; [done|].
  split; [by destruct Hr; split|]. split; [done..|cbn; lia].
Qed.

Lemma checks_spec pool n s : tenv_ok → running pool n s →
  match (check_transfer tenv msg ≫= λ _, prepare_access tenv msg ≫= λ _, check_create tenv msg) s with
  | (s', Ok _) => running pool n s' ∧ data s' = data s
  | (s', Err _) => gp s' = pool - m_Gas msg
  | _ => False
  end.
Proof.
  intros Hte Hr. pose proof (run_pool _ _ _ (proj2 Hr)) as [Hp _]. unfold check_transfer, mbind, st_bind, st_get. destruct (_ && _); [done|]. cbn.
  assert (∃ s1, prepare_access tenv msg s = (s1, Ok tt) ∧ running pool n s1 ∧ data s1 = data s) as (s1 & -> & Hr1 & Hd1).
  { unfold prepare_access. destruct (IsBerlin _); [|by eexists]. eexists. split; [reflexivity|]. split; [|done].
    apply running_world; [done|]. apply te_access; [done|]. apply ready_ok, Hr. }
  unfold check_create, mbind, st_bind, st_get. pose proof (run_pool _ _ _ (proj2 Hr1)) as [Hp1 _].
  destruct (To msg); [done|]. destruct (CanCreate env); [|done]. by destruct (negb _).
Qed.

Lemma execute_spec pool n fuel s : env_ok env → msg_ok → running pool n s → m_Gas msg < Z.of_nat fuel → 0 ≤ n →
  match execute tenv msg fuel s with
  | (s', Ok _) => running pool n s'
  | (s', Err _) => False
  | (_, Panic p) => evm_panic p
  | (_, OutOfFuel) => False
  end.
Proof.
  intros Henv Hm Hr Hf Hn. pose proof (msg_gas Hm) as Hu. unfold is_u64 in Hu. pose proof (run_gas _ _ _ (proj2 Hr)) as Hg.
  assert (is_u64 (gas s)) as Hgu by (unfold is_u64; lia).
  assert (∀ s1 e' rest, running pool n s1 → 0 ≤ rest ≤ gas s → evm_ok (fresh e') → readOnly e' = false → running pool n (set_gas rest (set_evm e' s1))) as Hfin.
  { intros s1 e' rest [[? _ _] [? ? ?]] Hrest He Hro. split; [done|]. split; [done..|cbn; lia]. }
  unfold execute, mbind at 1, st_bind at 1, st_get.
  destruct (To msg) as [a|] eqn:Hto.
  - set (s1 := set_evm (set_world (SetNonce (From msg) (u64 (GetNonce (world_of s) (From msg) + 1)) (world_of s)) (evm s)) s).
    assert (running pool n s1) as Hr1 by (apply running_world; [done|]; apply ok_SetNonce, ready_ok, Hr).
    pose proof (proj1 Hr1) as [[Hd Hl] He Hro].
    pose proof (evm_Call_returns env fuel (evm s1) (From msg) (to msg) (data s) (gas s) (m_Value msg) Henv He (msg_from Hm) (msg_to Hm) Hd Hl Hgu
      ltac:(lia) Hro) as Hc.
    unfold mbind, st_bind. change (update_world _ s) with (s1, Ok (E:=tx_err) tt). unfold run_evm.
    destruct (evm_Call env fuel (From msg) (to msg) (data s) (gas s) (m_Value msg) (evm s1)) as [e' [[[ret rest] err]|[]| |]]; try done.
    apply Hfin; [done|apply Hc..].
  - pose proof (proj1 Hr) as [[Hd Hl] He Hro].
    pose proof (evm_Create_returns env fuel (evm s) (From msg) (data s) (gas s) (m_Value msg) Henv He (msg_from Hm) Hd Hl Hgu ltac:(lia) Hro) as Hc.
    unfold mbind, st_bind, run_evm.
    destruct (evm_Create env fuel (From msg) (data s) (gas s) (m_Value msg) (evm s)) as [e' [[[[ret rest] err] addr]|[]| |]]; try done.
    apply Hfin; [done|apply Hc..].
Qed.

(** What a refund leaves: the pool gets back the gas that was not used. *)
Lemma refund_spec pool n q s : 0 ≤ GetRefund (world_of s) → is_u64 pool → is_u64 (m_Gas msg) → 2 ≤ q → 0 ≤ n → spent pool n s →
  match refundGas msg q s with
  | (s', Ok _) => (0 ≤ gasUsed s' ≤ m_Gas msg ∧ gp s' = pool - gasUsed s' ∧ n * (q - 1) ≤ gasUsed s' * q) ∧
                  gas s' = m_Gas msg - gasUsed s' ∧
                  (isMeta s = false → world_of s' = AddBalance (From msg) (gas s' * m_GasPrice msg) (world_of s))
  | _ => False
  end.
Proof.
  intros Hrf [Hp0 Hp1] [Hg0 Hg1] Hq Hn [Hi [Hp Hle] Hg]. unfold refundGas, mbind at 1, st_bind at 1, st_get.
  assert (gasUsed s = m_Gas msg - gas s) as Hused by (unfold gasUsed; rewrite Hi, u64_small by (unfold is_u64; lia); done).
  rewrite Hused. set (used := m_Gas msg - gas s) in *.
  set (r := if _ <? _ then _ else _).
  assert (0 ≤ r ∧ r * q ≤ used) as [Hr0 Hrq].
  { pose proof (Z.mul_div_le used q ltac:(lia)). pose proof (Z.div_pos used q ltac:(lia) ltac:(lia)).
    unfold r. destruct (Z.ltb_spec (GetRefund (world_of s)) (used / q)); nia. }
  assert (r ≤ used) by nia.
  rewrite (u64_small (gas s + r)) by (unfold is_u64; lia).
  unfold mbind at 1, st_bind at 1, st_modify.
  assert (∀ s', initialGas s' = m_Gas msg → gas s' = gas s + r → gp s' = pool - m_Gas msg →
    (isMeta s = false → world_of s' = AddBalance (From msg) ((gas s + r) * m_GasPrice msg) (world_of s)) →
    match (s0 ← st_get; p ← st_lift (AddGas (gas s0) (gp s0)); st_modify (set_gp p)) s' with
    | (s', Ok _) => (0 ≤ gasUsed s' ≤ m_Gas msg ∧ gp s' = pool - gasUsed s' ∧ n * (q - 1) ≤ gasUsed s' * q) ∧
                    gas s' = m_Gas msg - gasUsed s' ∧
                    (isMeta s = false → world_of s' = AddBalance (From msg) (gas s' * m_GasPrice msg) (world_of s))
    | _ => False end) as Hend.
  { intros s' Hi' Hg' Hp' Hw'. unfold mbind, st_bind, st_get, st_lift, AddGas, MaxUint64. rewrite Hg', Hp'.
    rewrite (proj2 (Z.ltb_ge _ _)) by lia. cbn. unfold gasUsed. cbn. rewrite Hi', Hg'.
    rewrite u64_small by (unfold is_u64; lia). split; [|split; [lia|exact Hw']]. split; [lia|]. split; [lia|]. nia. }
  unfold mbind at 1, st_bind at 1, st_get. cbn [isMeta set_gas].
  destruct (isMeta s); unfold mbind at 1, st_bind at 1; apply Hend; done.
Qed.

(** A message that is no meta transaction runs on its own data. *)
Lemma preCheck_plain s s' u : IsMetaTransaction (data s) = false → isMeta s = false → preCheck tenv msg s = (s', Ok u) →
  data s' = data s ∧ isMeta s' = false ∧ initialGas s' = m_Gas msg ∧
  world_of s' = SubBalance (From msg) (m_Gas msg * m_GasPrice msg) (world_of s).
Proof.
  intros Hno Him. unfold preCheck, mbind, st_bind.
  pose proof (check_sender_spec s) as H1. destruct (check_sender tenv msg s) as [s1 [u1|e1| |]]; try done; subst s1.
  destruct (check_fees tenv msg s) as [s2 [u2|e2| |]] eqn:H2; try done.
  assert (s2 = s) as ->.
  { revert H2. unfold check_fees. destruct (negb _); [by intros [= <-]|]. destruct (m_GasFeeCap msg); [|done].
    unfold mbind, st_bind. destruct (m_GasTipCap msg), (BaseFee env);
      repeat match goal with |- context [if ?b then _ else _] => destruct b; cbn end;
      cbv [st_panic st_err mret st_ret]; intros Hx; by simplify_eq. }
  unfold metaTransactionCheck, mbind, st_bind, st_get. rewrite Hno. cbn. rewrite Him.
  unfold buyGas, mbind, st_bind, st_get. destruct (_ <? _); [done|]. unfold take_gas, mbind, st_bind, st_get, st_lift.
  destruct (SubGas _ _); try done. cbn. intros [= <- _]. done.
Qed.

Lemma pay_fee_spec s : env_ok env → msg_ok →
  match pay_fee tenv msg s with (s', Ok _) => gasUsed s' = gasUsed s ∧ gp s' = gp s ∧ gas s' = gas s | _ => False end.
Proof.
  intros Henv [_ _ _ _ [[fc Hfc] [tc Htc]]]. unfold pay_fee. rewrite Hfc, Htc. unfold mbind, st_bind, st_get. pose proof (BaseFee_ok env Henv) as Hb.
  destruct (IsLondon _); [destruct (Hb eq_refl) as [bf ->]|]; destruct (Congress tenv); cbn; try done. by destruct (0 <? bf).
Qed.
(** Refunds and fees touch the world of the EVM only, and credit accounts there. *)
Definition only_world s s' : Prop := ∃ w, evm s' = set_world w (evm s) ∧ (world_ok (world_of s) → world_ok w).
Lemma only_world_ok s s' : only_world s s' → evm_ok (fresh (evm s)) ∧ readOnly (evm s) = false → evm_ok (fresh (evm s')) ∧ readOnly (evm s') = false.
Proof. intros (w & -> & Hw) [[Hok] Hr]. split; [|done]. split; [by apply Hw|done..]. Qed.
Lemma refund_only q s : only_world s (refundGas msg q s).1.
Proof.
  unfold refundGas, mbind, st_bind, st_get, st_modify, update_world, st_lift. cbn [isMeta set_gas].
  destruct (isMeta s); unfold st_modify; destruct (AddGas _ _); cbn; eexists; (split; [reflexivity|]); intros Hw; repeat apply ok_AddBalance; exact Hw.
Qed.
Lemma pay_fee_only s : only_world s (pay_fee tenv msg s).1.
Proof.
  assert (only_world s s) as Hs by (exists (db (evm s)); split; [by destruct (evm s)|done]).
  unfold pay_fee, mbind, st_bind, st_get, update_world, st_modify.
  destruct (IsLondon _), (m_GasTipCap msg), (m_GasFeeCap msg), (BaseFee env) as [bf|], (Congress tenv); cbn;
    try destruct (0 <? bf); try exact Hs; eexists; (split; [reflexivity|]); intros Hw; repeat apply ok_AddBalance; exact Hw.
Qed.
End phases.

Lemma ApplyMessage_gas_ok {W} `{!Uint256, !Uint256Laws, !StateDB W, !WorldLaws W} (tenv : TxEnv W) msg fuel e pool :
  tenv_ok tenv → msg_ok msg → evm_ok (fresh e) → readOnly e = false →
  is_u64 pool → m_Gas msg < Z.of_nat fuel →
  match ApplyMessage tenv msg fuel e pool with
  | (s', Ok r) =>
      0 ≤ UsedGas r ≤ m_Gas msg ∧ gp s' = pool - UsedGas r ∧
      ∃ d g, (d = m_Data msg ∨ IsMetaTransaction (m_Data msg) = true) ∧
        IntrinsicGas d (m_AccessList msg) (bool_decide (To msg = None)) (IsHomestead (chainRules (vmenv tenv)))
          (IsIstanbul (chainRules (vmenv tenv))) = Ok g ∧ g ≤ m_Gas msg ∧
        let q := if IsLondon (chainRules (vmenv tenv)) then RefundQuotientEIP3529 else RefundQuotient in
        g * (q - 1) ≤ UsedGas r * q ∧ m_Gas msg ≤ pool ∧ gas s' = m_Gas msg - UsedGas r ∧ evm_ok (fresh (evm s')) ∧ readOnly (evm s') = false
  | (s', Err _) => (gp s' = pool ∧ evm s' = e) ∨ gp s' = pool - m_Gas msg
  | (_, Panic p) => evm_panic p
  | (_, OutOfFuel) => False
  end.
Proof.
  intros Hte Hm He Hro Hpool Hfuel. pose proof (te_env _ Hte) as Henv. unfold ApplyMessage, TransitionDb. set (s := NewStateTransition msg e pool).
  assert (ready s) as Hr by (split; [apply Hm|done..]). unfold mbind at 1, st_bind at 1.
  pose proof (preCheck_spec tenv msg s Henv Hm Hr eq_refl) as Hpre.
  destruct (preCheck tenv msg s) as [s1 [u|err| |]] eqn:Hpc; try done.
  2: { left. by destruct Hpre as (? & ? & _). }
  assert (data s1 = m_Data msg ∨ IsMetaTransaction (m_Data msg) = true) as Hdata.
  { destruct (IsMetaTransaction (m_Data msg)) eqn:Hmeta; [by right|left]. by apply (preCheck_plain tenv msg s s1 u) in Hpc as [? _]. }
  pose proof (charge_spec tenv msg s s1 Hpre Hm) as Hch. unfold mbind at 1, st_bind at 1.
  destruct (charge_intrinsic tenv msg s1) as [s2 [u2|err| |]] eqn:Hci; try done; [|by right].
  destruct Hch as (g & Hg & Hgm & Hrun). assert (0 ≤ g) as Hg0.
  { rewrite intrinsic_eq in Hg by (split; [apply len_nonneg|]; destruct Hpre as [[[_ ?] _ _] _]; lia).
    destruct (_ <? _); [done|]. injection Hg as <-. apply u64_range. }
  pose proof (checks_spec tenv msg pool g s2 Hte Hrun) as Hck. revert Hck. unfold mbind, st_bind.
  destruct (check_transfer tenv msg s2) as [s3 [u3|err| |]]; try done; [|by intros; right].
  destruct (prepare_access tenv msg s3) as [s4 [u4|err| |]]; try done; [|by intros; right].
  destruct (check_create tenv msg s4) as [s5 [u5|err| |]]; try done; [|by intros; right]. intros [Hrun5 _].
  pose proof (execute_spec tenv msg pool g fuel s5 Henv Hm Hrun5 Hfuel Hg0) as Hex.
  destruct (execute tenv msg fuel s5) as [s6 [[ret vmerr]|err| |]]; try done.
  set (q := if IsLondon _ then RefundQuotientEIP3529 else RefundQuotient).
  assert (2 ≤ q) as Hq by (unfold q, RefundQuotientEIP3529, RefundQuotient; destruct (IsLondon _); lia).
  pose proof (refund_spec msg pool g q s6 (ok_GetRefund _ (ready_ok s6 (proj1 Hex))) Hpool (msg_gas msg Hm) Hq Hg0 (proj2 Hex)) as Hre.
  pose proof (refund_only msg q s6) as Hw7. destruct (refundGas msg q s6) as [s7 [u7|err| |]]; try done. destruct Hre as ((Hu & Hgp & Hlow) & Hg7 & _).
  pose proof (pay_fee_spec tenv msg s7 Henv Hm) as Hpf. pose proof (pay_fee_only tenv msg s7) as Hw8. destruct (pay_fee tenv msg s7) as [s8 [u8|err| |]]; try done.
  destruct Hpf as (Hu8 & Hgp8 & Hg8). cbv [st_get mret st_ret]. cbn [UsedGas]. rewrite Hu8, Hgp8. split; [done|]. split; [done|].
  exists (data s1), g. split_and!; try done; [apply Hrun|congruence|..]; apply (only_world_ok s7 s8 Hw8), (only_world_ok s6 s7 Hw7); (split; apply (proj1 Hex)).
Qed.

