(* ===== verification/TxFees.v ===== *)
(** * The money of a message (src/geth/core/state_transition.go, core/types/transaction.go)

    A message that is no meta transaction, applied to the journaled database: the
    sender pays exactly the gas that was used at the price of the message, the fee
    is received in full, no balance gets negative and no money is created.

    For meta transactions this fails: the two balances that buy the gas are
    checked one by one, so that an account that pays both shares can be overdrawn. *)
From stdpp Require Import gmap.
From S2P Require Import Prelude RlpBase StateAccess StateDb StateJournal StateUndo StateOps StateRevert.
From S2P Require Import EvmAnalysis EvmBase EvmMachine EvmGas EvmTable EvmInterp EvmTrace EvmSafety EvmTheorems.
From S2P Require Import StateEvm StateLedger StateTyped TxMeta TxTransition TxGas.

(** The gas price of [AsMessage], when the block has a base fee. *)
Definition AsMessage_gasPrice (gasTipCap gasFeeCap baseFee : Z) : Z := BigMin (gasTipCap + baseFee) gasFeeCap.

Section fees.
Context {T E : Type} `{!Database T E, !DatabaseLaws T E, !StoredCode T E} `{!Uint256, !Uint256Laws} (blockNumber : Z).
Abbreviation SDB := (@StateDb.StateDB T E).
Abbreviation world := (@world T E).
#[local] Instance fees_StateDB : EvmBase.StateDB world := StateDB_world blockNumber.
#[local] Instance fees_WorldLaws : WorldLaws world := typed_WorldLaws blockNumber.
Context (tenv : TxEnv world) (msg : Message).
Abbreviation env := (vmenv tenv).
Implicit Types (s : StateTransition world) (d : SDB).

(** The environment is the one of a block. *)
Record block_env : Prop := {
  be_transfer a b x w : Transfer env a b x w = core_Transfer a b x w;
  be_can w a x : CanTransfer env w a x = core_CanTransfer w a x;
  be_access sender dst ps al w : tx_PrepareAccessList tenv sender dst ps al w = run_st (PrepareAccessList sender dst ps al) w;
  be_basefee : NoBaseFee tenv = false ∧ 0 ≤ default 0 (BaseFee env)
}.
(** The prices of a message are those of a transaction. *)
Record priced (feeCap tipCap : Z) : Prop := {
  pr_feeCap : m_GasFeeCap msg = Some feeCap;
  pr_tipCap : m_GasTipCap msg = Some tipCap;
  pr_tip : 0 ≤ tipCap;
  pr_price : 0 ≤ m_GasPrice msg ≤ feeCap;
  pr_london : IsLondon (chainRules env) = true → m_GasPrice msg = AsMessage_gasPrice tipCap feeCap (default 0 (BaseFee env));
  pr_value : 0 ≤ m_Value msg
}.

Lemma block_tenv : block_env → env_ok env → tenv_ok tenv.
Proof. intros Hbe He. split; [done|]. intros sender dst ps al w Hw. rewrite be_access by done. apply typed_run; [apply Keeps_PrepareAccessList|done]. Qed.

(** What the sender was found to have. *)
Lemma preCheck_funds s s' u feeCap tipCap : block_env → priced feeCap tipCap → IsMetaTransaction (data s) = false → isMeta s = false →
  preCheck tenv msg s = (s', Ok u) →
  m_Gas msg * feeCap + m_Value msg ≤ EvmBase.GetBalance (world_of s) (From msg) ∧
  (IsLondon (chainRules env) = true → ∃ b, BaseFee env = Some b ∧ b ≤ feeCap).
Proof.
  intros Hbe [Hfc Htc _ _ _ _] Hno Him. unfold preCheck, mbind, st_bind.
  pose proof (check_sender_spec tenv msg s) as H1. destruct (check_sender tenv msg s) as [s1 [u1|e1| |]]; try done; subst s1.
  destruct (check_fees tenv msg s) as [s2 [u2|e2| |]] eqn:H2; try done.
  assert (s2 = s ∧ (IsLondon (chainRules env) = true → ∃ b, BaseFee env = Some b ∧ b ≤ feeCap)) as [-> Hbase].
  { revert H2. unfold check_fees. rewrite Hfc, Htc, (proj1 (be_basefee Hbe)). destruct (IsLondon _); cbn [negb orb]; [|by intros [= <-]].
    unfold mbind, st_bind, mret, st_ret. cbn [negb]. destruct (256 <? _); [done|]. destruct (256 <? _); [done|].
    destruct (feeCap <? tipCap); [done|]. destruct (BaseFee env) as [b|]; [|done]. destruct (Z.ltb_spec feeCap b); [done|]. intros [= <-]. split; [done|]. by exists b. }
  unfold metaTransactionCheck, mbind, st_bind, st_get. rewrite Hno. cbn. rewrite Him.
  unfold buyGas, mbind, st_bind, st_get. rewrite Hfc. destruct (Z.ltb_spec (EvmBase.GetBalance (world_of s) (From msg)) (m_Gas msg * feeCap + m_Value msg)); done.
Qed.

(** Between buying gas and running the message only the access list changes. *)
Lemma charge_world s s' u : charge_intrinsic tenv msg s = (s', Ok u) → world_of s' = world_of s ∧ isMeta s' = isMeta s ∧ initialGas s' = initialGas s.
Proof.
  unfold charge_intrinsic, mbind, st_bind, st_get, st_lift. destruct (IntrinsicGas _ _ _ _ _); try done. destruct (_ <? _); [done|].
  by intros [= <-].
Qed.
Lemma checks_world s s' u : (check_transfer tenv msg ≫= λ _, prepare_access tenv msg ≫= λ _, check_create tenv msg) s = (s', Ok u) →
  isMeta s' = isMeta s ∧ initialGas s' = initialGas s ∧
  (world_of s' = world_of s ∨
   world_of s' = tx_PrepareAccessList tenv (From msg) (To msg) (ActivePrecompiles tenv) (m_AccessList msg) (world_of s)).
Proof.
  unfold check_transfer, prepare_access, check_create, mbind, st_bind, st_get. destruct (_ && _); [done|].
  unfold mret, st_ret. destruct (IsBerlin _); unfold update_world, st_modify; destruct (To msg);
    (destruct (CanCreate env) as [f|]; [try destruct (negb _)|]); try done; intros [= <-]; auto.
Qed.

(** The message runs from [w] to [w']. *)
Lemma execute_trace fuel s s' r : 0 ≤ m_Value msg → execute tenv msg fuel s = (s', Ok r) →
  Tr (org:=of_message (world_of s) 0) env (world_of s) (world_of s') ∧ isMeta s' = isMeta s ∧ initialGas s' = initialGas s.
Proof.
  intros Hv. set (o := of_message (world_of s) 0). assert (allowed (Origin := o) (m_Value msg)) as Hval by (by left).
  unfold execute, mbind at 1, st_bind at 1, st_get. destruct (To msg) as [a|] eqn:Hto.
  - unfold mbind, st_bind, update_world, st_modify, run_evm. set (s1 := set_evm _ s).
    assert (Tr (org:=o) env (world_of s) (world_of s1)) as H1 by apply (Tr_SetNonce (org:=o)).
    pose proof (Call_trace env (world_of s) (loop env fuel) (From msg) (to msg) (data s) (gas s) (m_Value msg) Hval
      (loop_trace env fuel) (fresh (evm s1))) as Hc.
    unfold evm_Call, mbind, st_bind, st_modify.
    destruct (Call_ env (loop env fuel) (From msg) (to msg) (data s) (gas s) (m_Value msg) (fresh (evm s1))) as [e' [[[ret rest] err]|[]| |]]; try done.
    intros [= <- <-]. split; [|done]. apply Hc. split; [apply Tr_refl|exact H1].
  - unfold mbind, st_bind, run_evm, evm_Create, Create_, mbind, st_bind, st_modify, g_db, st_get, mret, st_ret, mbind, st_bind.
    pose proof (create_trace env (world_of s) (loop env fuel) (From msg) (data s) 0 (gas s) (m_Value msg)
      (CreateAddress env (From msg) (GetNonce (db (fresh (evm s))) (From msg))) Hval (loop_trace env fuel) (fresh (evm s))) as Hc.
    destruct (create env (loop env fuel) (From msg) (data s) 0 (gas s) (m_Value msg) _ (fresh (evm s))) as [e' [[[[ret rest] err] addr]|[]| |]]; try done.
    intros [= <- <-]. split; [|done]. apply Hc. split; apply Tr_refl.
Qed.

(** What the sender gets back, and what the fee is. *)
Lemma refund_world q s s' u : isMeta s = false → refundGas msg q s = (s', Ok u) →
  world_of s' = EvmBase.AddBalance (From msg) (gas s' * m_GasPrice msg) (world_of s) ∧ is_u64 (gas s') ∧ initialGas s' = initialGas s.
Proof.
  intros Him. unfold refundGas, mbind, st_bind, st_get, st_modify. cbn [isMeta set_gas]. rewrite Him.
  unfold update_world, st_modify, st_lift, AddGas. set (g := u64 _).
  assert (is_u64 g) by apply u64_range. clearbody g. destruct (MaxUint64 - _ <? _); [done|]. by intros [= <-].
Qed.

Definition receiver : Z := if Congress tenv then FeeRecoder else Coinbase env.
Definition fee_rate : Z :=
  if negb (Congress tenv) && IsLondon (chainRules env) then m_GasPrice msg - default 0 (BaseFee env) else m_GasPrice msg.

Lemma shifts_shifts a x y d1 d2 d3 : shifts a x d1 d2 → shifts a y d2 d3 → shifts a (x + y) d1 d3.
Proof. intros H1 H2 b Hb. rewrite (H2 b Hb), (H1 b Hb). destruct (decide (b = a)); lia. Qed.
Lemma AddBalance_run a x (w : world) d' : EvmBase.AddBalance a x w = Ok d' →
  ∃ d, w = Ok d ∧ (standing d → standing d' ∧ shifts (Bytes20 a) x d d').
Proof.
  intros (d & r & -> & Hd)%add_ok. exists d. split; [done|]. intros Hs. split.
  - apply (Ext_standing d); [|done]. apply (AddBalance_Good _ x (Bytes20_addr a) d d' r); [apply Hs|done].
  - apply (AddBalance_shifts _ x d d' r); [apply Hs|apply Bytes20_addr|done].
Qed.

Lemma pay_fee_shifts feeCap tipCap s s' u d' : block_env → priced feeCap tipCap → pay_fee tenv msg s = (s', Ok u) → world_of s' = Ok d' →
  gas s' = gas s ∧ initialGas s' = initialGas s ∧
  ∃ d, world_of s = Ok d ∧ (standing d → standing d' ∧ shifts (Bytes20 receiver) (gasUsed s * fee_rate) d d').
Proof.
  intros [_ _ _ [_ Hbase]] [Hfc Htc _ _ Hl _]. unfold pay_fee, mbind, st_bind, st_get. rewrite Hfc, Htc.
  unfold receiver, fee_rate. unfold AsMessage_gasPrice, BigMin in *. set (used := gasUsed s).
  destruct (IsLondon _); unfold mret, st_ret; cbn [andb negb].
  - destruct (BaseFee env) as [b|]; [|done]. cbn [default from_option id] in *. rewrite Hl by done. set (rate := if feeCap - _ <? tipCap then _ else _).
    assert ((if feeCap <? tipCap + b then feeCap else tipCap + b) = rate + b) as ->.
    { unfold rate. destruct (Z.ltb_spec feeCap (tipCap + b)), (Z.ltb_spec (feeCap - b) tipCap); lia. }
    destruct (Congress tenv); cbn [negb andb].
    + unfold update_world at 1, st_modify at 1. destruct (Z.ltb_spec 0 b) as [Hb|Hb].
      * unfold update_world, st_modify. intros [= <- _] (d1 & Hd1 & Hsh1)%AddBalance_run.
        apply AddBalance_run in Hd1 as (d & Hd & Hsh). split; [done|]. split; [done|]. exists d. split; [done|]. intros [Hs1 H1]%Hsh.
        replace (used * (rate + b)) with (used * rate + used * b) by lia.
        split; [by apply Hsh1|]. apply shifts_shifts with d1; [done|by apply Hsh1].
      * intros [= <- _] (d & Hd & Hsh)%AddBalance_run. split; [done|]. split; [done|]. exists d. split; [done|]. intros [Hs1 H1]%Hsh.
        split; [done|]. by replace (rate + b) with rate by lia.
    + unfold update_world, st_modify. intros [= <- _] (d & Hd & Hsh)%AddBalance_run. split; [done|]. split; [done|]. exists d. split; [done|].
      intros [Hs1 H1]%Hsh. split; [done|]. by replace (rate + b - b) with rate by lia.
  - rewrite andb_false_r. destruct (Congress tenv); unfold update_world, st_modify; intros [= <- _] (d & Hd & Hsh)%AddBalance_run;
      (split; [done|]); (split; [done|]); exists d; (split; [done|]); exact Hsh.
Qed.

(** The phases of a message that was executed, with the databases between them. *)
Lemma ApplyMessage_phases feeCap tipCap fuel e pool s' r d' : block_env → priced feeCap tipCap → IsMetaTransaction (m_Data msg) = false →
  ApplyMessage tenv msg fuel e pool = (s', Ok r) → world_of s' = Ok d' →
  UsedGas r = u64 (m_Gas msg - gas s') ∧ is_u64 (gas s') ∧ (IsLondon (chainRules env) = true → ∃ b, BaseFee env = Some b ∧ b ≤ feeCap) ∧
  m_Gas msg * feeCap + m_Value msg ≤ EvmBase.GetBalance (db e) (From msg) ∧
  ∃ w1 w2 w3 d4, w1 = EvmBase.SubBalance (From msg) (m_Gas msg * m_GasPrice msg) (db e) ∧
    (w2 = w1 ∨ w2 = run_st (PrepareAccessList (From msg) (To msg) (ActivePrecompiles tenv) (m_AccessList msg)) w1) ∧
    Tr (org:=of_message w2 0) env w2 w3 ∧
    EvmBase.AddBalance (From msg) (gas s' * m_GasPrice msg) w3 = Ok d4 ∧
    (standing d4 → standing d' ∧ shifts (Bytes20 receiver) (UsedGas r * fee_rate) d4 d').
Proof.
  intros Hbe Hpr Hno. unfold ApplyMessage, TransitionDb. set (s := NewStateTransition msg e pool).
  intros (s1 & u1 & Hpre & (s2 & u2 & Hch & Hck)%st_bind_inv)%st_bind_inv Hw.
  destruct (preCheck_funds s s1 u1 feeCap tipCap Hbe Hpr Hno eq_refl Hpre) as [Hfunds Hbase].
  apply preCheck_plain in Hpre as (_ & Him1 & Hi1 & Hw1); [|done..]. apply charge_world in Hch as (Hw2 & Him2 & Hi2).
  apply st_bind_inv in Hck as (s3 & u3 & H3 & (s4 & u4 & H4 & (s5 & u5 & H5 & Hex)%st_bind_inv)%st_bind_inv).
  assert ((check_transfer tenv msg ≫= λ _, prepare_access tenv msg ≫= λ _, check_create tenv msg) s2 = (s5, Ok u5)) as Hck
    by (unfold mbind, st_bind; by rewrite H3, H4, H5).
  apply checks_world in Hck as (Him5 & Hi5 & Hw5). clear H3 H4 H5 s3 s4 u3 u4.
  apply st_bind_inv in Hex as (s6 & [ret vmerr] & Hex & (s7 & u7 & Hre & (s8 & u8 & Hpay & (s9 & s9' & [= <- <-] & [= <- <-])%st_bind_inv)%st_bind_inv)%st_bind_inv).
  apply execute_trace in Hex as (Htr & Him6 & Hi6); [|apply Hpr]. apply refund_world in Hre as (Hw7 & Hg7 & Hi7); [|congruence].
  destruct (pay_fee_shifts feeCap tipCap s7 s8 u8 d' Hbe Hpr Hpay Hw) as (Hg8 & Hi8 & d4 & Hd4 & Hsh).
  assert (gasUsed s7 = u64 (m_Gas msg - gas s8)) as Hu by (unfold gasUsed; congruence).
  assert (gasUsed s8 = u64 (m_Gas msg - gas s8)) as Hu8 by (unfold gasUsed; congruence).
  cbn [UsedGas]. rewrite Hg8. split; [by rewrite Hu8, Hg8|]. split; [done|]. split; [done|]. split; [exact Hfunds|].
  exists (world_of s1), (world_of s5), (world_of s6), d4. split; [done|]. split.
  { rewrite Hw2 in Hw5. destruct Hw5 as [->| ->]; [by left|right]. apply be_access, Hbe. }
  split; [done|]. split; [congruence|]. by rewrite Hu8, <-Hu.
Qed.

Lemma PrepareAccessList_Good sender dst ps al : Good (T:=T) (E:=E) (PrepareAccessList sender dst ps al).
Proof.
  assert (∀ (m : st SDB Empty_set unit) (k : unit → st SDB Empty_set unit), Good m → (∀ u, Good (k u)) → Good (m ≫= k)) as Hbind.
  { intros m k Hm Hk d d' x Hi. unfold mbind, st_bind. destruct (m d) as [d1 [u|[]| |]] eqn:Hd; try done. intros Hd'.
    pose proof (Hm d d1 u Hi Hd) as Hx. apply Ext_trans with d1; [done|]. by apply (Hk u d1 d' x); [apply Hx|]. }
  assert (∀ {A} (f : A → st SDB Empty_set unit) l, (∀ y, Good (f y)) → Good (for_each f l)) as Heach.
  { intros A f l Hf. induction l as [|y l IH]; [intros d d' x Hi [= <- <-]; by apply Ext_refl|]. by apply Hbind. }
  apply Hbind; [apply AddAddressToAccessList_Good|]. intros _. apply Hbind.
  { destruct dst; [apply AddAddressToAccessList_Good|intros d d' x Hi [= <- <-]; by apply Ext_refl]. }
  intros _. apply Hbind; [apply Heach, AddAddressToAccessList_Good|]. intros _. apply Heach. intros el.
  apply Hbind; [apply AddAddressToAccessList_Good|]. intros _. apply Heach, AddSlotToAccessList_Good.
Qed.

(** The sender's account after paying for the gas limit. *)
Lemma buy_prudent d d1 x : standing d → solvent d → 0 ≤ x ≤ bal d (Bytes20 (From msg)) →
  EvmBase.SubBalance (From msg) x (Ok d : world) = Ok d1 →
  standing d1 ∧ solvent d1 ∧ shifts (Bytes20 (From msg)) (- x) d d1 ∧ supply d1 = supply d - x.
Proof.
  intros Hs Hso Hx (d0 & r & [= <-] & Hd)%sub_ok. pose proof (Bytes20_addr (From msg)) as Ha.
  assert (shifts (Bytes20 (From msg)) (- x) d d1) as Hsh by (apply (SubBalance_shifts _ x d d1 r); [apply Hs|done..]).
  split_and!; [|apply (shifts_solvent _ _ d d1 Hsh); [lia|done]|done|rewrite (shifts_supply _ _ d d1 Ha Hsh); lia].
  apply (Ext_standing d); [|done]. apply (SubBalance_Good _ x Ha d d1 r); [apply Hs|done].
Qed.

Lemma ApplyMessage_money feeCap tipCap fuel (e : EVM world) pool s' r d d' :
  block_env → priced feeCap tipCap → is_u64 (m_Gas msg) → IsMetaTransaction (m_Data msg) = false →
  db e = (Ok d : world) → standing d → solvent d →
  ApplyMessage tenv msg fuel e pool = (s', Ok r) → world_of s' = Ok d' →
  let sender := Bytes20 (From msg) in
  (∃ d1 d2, shifts sender (- (m_Gas msg * m_GasPrice msg)) d d1 ∧ solvent d2 ∧ supply d2 ≤ supply d1 ∧
     ∀ b, is_addr b → bal d' b = bal d2 b + (if decide (b = sender) then gas s' * m_GasPrice msg else 0)
                                + (if decide (b = Bytes20 receiver) then UsedGas r * fee_rate else 0)) ∧
  standing d' ∧ solvent d' ∧ (gas s' ≤ m_Gas msg → UsedGas r = m_Gas msg - gas s' ∧ supply d' ≤ supply d).
Proof.
  intros Hbe Hpr Hgas Hno Hd Hs Hso Hap Hw sender.
  destruct (ApplyMessage_phases feeCap tipCap fuel e pool s' r d' Hbe Hpr Hno Hap Hw)
    as (Hu & Hg & Hbase & Hfunds & w1 & w2 & w3 & d4 & -> & Hw2 & Htr & Hd4 & Hfee).
  destruct Hgas as [Hgas0 Hgas1], Hg as [Hg _]. pose proof (pr_price _ _ Hpr) as Hprice. pose proof (pr_value _ _ Hpr) as Hval. rewrite Hd in Hfunds.
  assert (m_Gas msg * feeCap + m_Value msg ≤ bal d sender) as Hpay by (unfold sender; rewrite <-(balance_of blockNumber); exact Hfunds).
  apply AddBalance_run in Hd4 as (d3 & -> & Hback).
  set (o := of_message w2 0) in *. assert (∃ dx, w2 = Ok dx) as [dx Hdx].
  { destruct (trace_safe blockNumber env (be_transfer Hbe) w2 _ Htr d3 eq_refl) as (dx & ? & _). by exists dx. }
  assert (∃ d1, EvmBase.SubBalance (From msg) (m_Gas msg * m_GasPrice msg) (db e) = Ok d1 ∧ (standing d1 → standing dx ∧ still d1 dx)) as (d1 & Hd1 & Hx).
  { destruct Hw2 as [Hw2|Hw2]; rewrite Hdx in Hw2; [by exists dx|]. symmetry in Hw2. apply run_st_ok in Hw2 as (d1 & u & Hd1 & Hp).
    exists d1. split; [done|]. intros Hs1. split; [|exact (apart_still _ d1 dx u (PrepareAccessList_apart _ _ _ _) Hp)].
    apply (Ext_standing d1); [|done]. refine (PrepareAccessList_Good _ _ _ _ d1 dx u _ Hp). apply Hs1. }
  rewrite Hd in Hd1. apply (buy_prudent d d1) in Hd1 as (Hs1 & Hso1 & Hsh1 & Hsup1); [|done|done|unfold sender in *; nia].
  destruct (Hx Hs1) as [Hsx Hstx].
  destruct (trace_thrifty blockNumber env (be_transfer Hbe) (be_can Hbe) w2 (Ok d3)) with (d' := d3) as (dx' & Hdx' & [Hst3 Hso3 Hsup3]); [| |done|done|].
  { intros x [?| ->]; lia. }
  { intros d0 Hd0. change (w2 = Ok d0) in Hd0. congruence. }
  assert (dx' = dx) as -> by congruence. specialize (Hst3 Hsx). specialize (Hso3 Hsx (still_solvent _ _ Hstx Hso1)).
  specialize (Hsup3 Hsx (still_solvent _ _ Hstx Hso1)). rewrite (still_supply _ _ Hstx) in Hsup3.
  destruct (Hback Hst3) as [Hs4 Hsh4]. destruct (Hfee Hs4) as [Hs5 Hsh5]. clear Hfee. rename Hsh5 into Hfee.
  assert (0 ≤ UsedGas r * fee_rate) as Hfee0.
  { rewrite Hu. pose proof (u64_range (m_Gas msg - gas s')) as [? _]. unfold fee_rate. pose proof (pr_tip _ _ Hpr).
    destruct (negb (Congress tenv) && IsLondon (chainRules env)) eqn:Hl; [|nia]. apply andb_true_iff in Hl as [_ Hl]. destruct (Hbase Hl) as (b & Hb & Hbf).
    rewrite (pr_london _ _ Hpr Hl), Hb. cbn. unfold AsMessage_gasPrice, BigMin. destruct (Z.ltb_spec feeCap (tipCap + b)); nia. }
  pose proof (Bytes20_addr (From msg)) as Haf. pose proof (Bytes20_addr receiver) as Har.
  split; [exists d1, d3; split; [done|]; split; [done|]; split; [done|]|split; [done|split]].
  - intros b Hb. by rewrite (Hfee b Hb), (Hsh4 b Hb).
  - apply (shifts_solvent _ _ d4 d' Hfee); [|apply (shifts_solvent _ _ d3 d4 Hsh4); [|done]].
    + rewrite (Hsh4 _ Har). pose proof (Hso3 _ Har). destruct (decide _); nia.
    + pose proof (Hso3 _ Haf). nia.
  - intros Hle. assert (UsedGas r = m_Gas msg - gas s') as Hused by (rewrite Hu; apply u64_small; unfold is_u64; lia). split; [done|].
    rewrite (shifts_supply _ _ d4 d' Har Hfee), (shifts_supply _ _ d3 d4 Haf Hsh4), Hused.
    assert (fee_rate ≤ m_GasPrice msg) by (unfold fee_rate; pose proof (proj2 (be_basefee Hbe)); destruct (_ && _); lia). nia.
Qed.
(** A database that is usable after a message was so before. *)
Lemma usable_before feeCap tipCap fuel (e : EVM world) pool s' r d' : block_env → priced feeCap tipCap → IsMetaTransaction (m_Data msg) = false →
  ApplyMessage tenv msg fuel e pool = (s', Ok r) → world_of s' = Ok d' → ∃ d, db e = Ok d.
Proof.
  intros Hbe Hpr Hno Hap Hw.
  destruct (ApplyMessage_phases feeCap tipCap fuel e pool s' r d' Hbe Hpr Hno Hap Hw) as (_ & _ & _ & _ & w1 & w2 & w3 & d4 & -> & Hw2 & Htr & Hd4 & _).
  apply AddBalance_run in Hd4 as (d3 & -> & _). destruct (trace_safe blockNumber env (be_transfer Hbe) w2 _ Htr d3 eq_refl) as (d2 & -> & _).
  assert (∃ d1, EvmBase.SubBalance (From msg) (m_Gas msg * m_GasPrice msg) (db e) = Ok d1) as (d1 & Hd1).
  { destruct Hw2 as [<-|Hw2]; [by exists d2|]. symmetry in Hw2. apply run_st_ok in Hw2 as (d1 & u & Hd1 & _). by exists d1. }
  apply sub_ok in Hd1 as (d & u & -> & _). by exists d.
Qed.
(** A message that can be run. *)
Record runs (fuel : nat) (e : EVM world) (pool : Z) : Prop := {
  ru_env : env_ok env;
  ru_msg : msg_ok msg;
  ru_evm : evm_ok (fresh e);
  ru_ro : readOnly e = false;
  ru_pool : is_u64 pool;
  ru_fuel : m_Gas msg < Z.of_nat fuel
}.
(** The refund is capped, so that no more gas comes back than was bought. *)
Lemma gas_bound fuel (e : EVM world) pool s' r : block_env → runs fuel e pool → ApplyMessage tenv msg fuel e pool = (s', Ok r) →
  gas s' ≤ m_Gas msg ∧ typed_world (world_of s').
Proof.
  intros Hbe [He Hm Hev Hro Hp Hf] Hap. pose proof (ApplyMessage_gas_ok tenv msg fuel e pool (block_tenv Hbe He) Hm Hev Hro Hp Hf) as Hok.
  rewrite Hap in Hok. destruct Hok as (Hu & _ & dt & g & _ & _ & _ & _ & _ & Hg & Hev' & _). split; [lia|]. exact (evm_world _ Hev').
Qed.
End fees.

(** ** Messages over a concrete database *)

Definition pay_db (balance : Z) : @StateDb.StateDB toy_trie unit :=
  set_stateObjects {[1 := newObject 1 (mk_StateAccount 0 (Some balance) 7 None)]} toy_state.
#[local] Instance pay_StateDB : EvmBase.StateDB (@world toy_trie unit) := StateDB_world 100.
Definition pay_tenv : TxEnv (@world toy_trie unit) := mk_TxEnv _ example_env true false [1; 2]
  (λ sender dst ps al, run_st (PrepareAccessList sender dst ps al)) (λ _ _, None).
Definition pay_msg : Message := mk_Message 1 (Some 3) 9 (Some 20) (Some 2) 30000 100 0 true [] [].
Definition pay_evm (balance : Z) : EVM (@world toy_trie unit) := mk_EVM (Ok (pay_db balance)) 0 0 false [] ∅.

Lemma pay_accounts balance a o : account_of (pay_db balance) a = Ok (Some o) →
  a = 1 ∧ o = newObject 1 (mk_StateAccount 0 (Some balance) 7 None).
Proof.
  unfold account_of. cbn [pay_db stateObjects set_stateObjects]. destruct (decide (a = 1)) as [->|Hn].
  - rewrite lookup_singleton_eq. by intros [= <-].
  - rewrite lookup_singleton_ne by done. clear. vm_compute. done.
Qed.
Lemma pay_standing balance : standing (pay_db balance).
Proof.
  split; [|split; cbn; intros; by rewrite ?lookup_nil in *]. split; [|split; cbn; intros; by rewrite ?lookup_empty in *|done].
  intros a o Ha [-> ->]%pay_accounts. split; [done|]. split; [done|]. apply hash_bytes_ok.
Qed.
Lemma pay_solvent balance : 0 ≤ balance → solvent (pay_db balance).
Proof.
  intros Hb a Ha. unfold bal, held. destruct (account_of (pay_db balance) a) as [[o|]|[]| |] eqn:Ho; try done.
  apply pay_accounts in Ho as [-> ->]. done.
Qed.
Lemma pay_block : block_env 100 pay_tenv.
Proof. by split. Qed.
Lemma pay_priced : priced pay_tenv pay_msg 20 2.
Proof. by split. Qed.

Lemma pay_typed balance : typed (pay_db balance).
Proof. split; [|constructor]. cbn. by intros x o [<- <-]%lookup_singleton_Some. Qed.
Lemma pay_msg_ok : msg_ok pay_msg.
Proof. split; [done|split; [constructor|done]|done|done|split; by eexists]. Qed.
Lemma pay_runs : runs 100 pay_tenv pay_msg (Z.to_nat 30001) (pay_evm 1000000) 100000.
Proof.
  split; [exact example_env_ok|exact pay_msg_ok| |done|done|done]. split; [exact (pay_typed 1000000)|apply code_ok_nil|done|done].
Qed.



(** ** Overdrawing an account with a meta transaction *)

Section overdraft.
Context {T E : Type} `{!Database T E, !DatabaseLaws T E} (blockNumber : Z).
#[local] Instance meta_StateDB : EvmBase.StateDB (@world T E) := StateDB_world blockNumber.

(** C37: an account that pays both shares of a meta transaction's fee can be
    overdrawn: when the fee address is the sender and its balance covers each share,
    though not their sum, [buyGasMeta] accepts the transaction and takes both shares,
    and the balance it leaves is negative. *)
Theorem buyGasMeta_overdraft (msg : Message) (s : StateTransition (@world T E)) (d : @StateDb.StateDB T E) :
  let a := Bytes20 (From msg) in
  let fee := fee_share (m_Gas msg * m_GasPrice msg) (feePercent s) in
  let self := self_share (m_Gas msg * m_GasPrice msg) (feePercent s) in
  world_of s = Ok d → standing d → Bytes20 (feeAddress s) = a → m_Gas msg ≤ gp s →
  fee ≤ bal d a → self ≤ bal d a → bal d a < fee + self →
  snd (buyGasMeta msg s) = Ok tt ∧
  ∀ d', world_of (fst (buyGasMeta msg s)) = Ok d' → bal d' a = bal d a - fee - self ∧ bal d' a < 0.
Proof.
  intros a fee self Hw Hs Hfa Hgp Hfee Hself Hlt. unfold buyGasMeta, mbind, st_bind, st_get. fold fee self.
  assert (∀ x, EvmBase.GetBalance (world_of s) x = bal d (Bytes20 x)) as Hbal
    by (intros x; rewrite Hw; exact (balance_of blockNumber d x)).
  rewrite !Hbal, Hfa. fold a. rewrite (proj2 (Z.ltb_ge _ _) Hfee), (proj2 (Z.ltb_ge _ _) Hself). cbn [orb].
  unfold take_gas, mbind, st_bind, st_get, st_lift, SubGas. rewrite (proj2 (Z.ltb_ge _ _) Hgp). split; [reflexivity|].
  intros d' (d1 & r1 & Hd1 & Hd')%(sub_ok blockNumber). apply (sub_ok blockNumber) in Hd1 as (d0 & r0 & Hd0 & Hd1).
  assert (d0 = d) as ->.
  { change (world_of s = Ok d0) in Hd0. congruence. }
  assert (standing d1) as Hs1.
  { apply (Ext_standing d); [|done]. apply (SubBalance_Good _ fee (Bytes20_addr (feeAddress s)) d d1 r0); [apply Hs|done]. }
  apply (SubBalance_shifts _ _ _ _ _ (proj1 Hs) (Bytes20_addr _)) in Hd1. apply (SubBalance_shifts _ _ _ _ _ (proj1 Hs1) (Bytes20_addr _)) in Hd'.
  pose proof (Bytes20_addr (From msg)) as Ha. rewrite (Hd' a Ha), (Hd1 a Ha), Hfa, !decide_True by done. lia.
Qed.
End overdraft.

(** Half the fee each: 135000 of the 150000 that are there, twice. *)
Definition meta_transition : StateTransition (@world toy_trie unit) :=
  mk_ST 100000 0 0 [] true 1 5000 [] (pay_evm 150000).
Lemma buyGasMeta_overdraft_witness :
  snd (buyGasMeta pay_msg meta_transition) = Ok tt ∧
  ∀ d', world_of (fst (buyGasMeta pay_msg meta_transition)) = Ok d' → bal d' 1 = 150000 - 135000 - 135000 ∧ bal d' 1 < 0.
Proof.
  apply (buyGasMeta_overdraft 100 pay_msg meta_transition (pay_db 150000)); [|apply pay_standing|..]; vm_compute; reflexivity || discriminate.
Defined.
