(* ===== verification/TxTypes.v ===== *)
(** * Transactions (src/geth/core/types/transaction.go and the types of its contents)

    The three kinds of contents with their getters, the canonical encodings, the hash and
    the effective tip.  Contents are those of transactions built by [NewTx] or by a
    decoder, in which no big integer is nil; the time a transaction was first seen is
    left out. *)
From S2P Require Import Prelude RlpBase RlpEncode RlpStream RlpStruct StateDb TxMeta TxTransition.

#[local] Abbreviation R := (res rlp_err).

Definition LegacyTxType : Z := 0.
Definition AccessListTxType : Z := 1.
Definition DynamicFeeTxType : Z := 2.

Record LegacyTx := mk_LegacyTx {
  l_Nonce : Z; l_GasPrice : Z; l_Gas : Z; l_To : option Z; l_Value : Z; l_Data : bytes; l_V : Z; l_R : Z; l_S : Z
}.
Record AccessListTx := mk_AccessListTx {
  a_ChainID : Z; a_Nonce : Z; a_GasPrice : Z; a_Gas : Z; a_To : option Z; a_Value : Z; a_Data : bytes;
  a_AccessList : AccessList; a_V : Z; a_R : Z; a_S : Z
}.
Record DynamicFeeTx := mk_DynamicFeeTx {
  f_ChainID : Z; f_Nonce : Z; f_GasTipCap : Z; f_GasFeeCap : Z; f_Gas : Z; f_To : option Z; f_Value : Z; f_Data : bytes;
  f_AccessList : AccessList; f_V : Z; f_R : Z; f_S : Z
}.
Inductive TxData := TLegacy (t : LegacyTx) | TAccessList (t : AccessListTx) | TDynamicFee (t : DynamicFeeTx).

(** ** Getters *)

(** [deriveChainId]: the chain that the recovery value of a legacy transaction names. *)
Definition deriveChainId (v : Z) : Z :=
  if big_BitLen v <=? 64 then
    let v := u64 (Z.abs v) in
    if (v =? 27) || (v =? 28) then 0 else u64 (v - 35) / 2
  else (v - 35) / 2.

Definition txType (tx : TxData) : Z :=
  match tx with TLegacy _ => LegacyTxType | TAccessList _ => AccessListTxType | TDynamicFee _ => DynamicFeeTxType end.
Definition ChainId (tx : TxData) : Z :=
  match tx with TLegacy t => deriveChainId (l_V t) | TAccessList t => a_ChainID t | TDynamicFee t => f_ChainID t end.
Definition tx_accessList (tx : TxData) : AccessList :=
  match tx with TLegacy _ => [] | TAccessList t => a_AccessList t | TDynamicFee t => f_AccessList t end.
Definition tx_data (tx : TxData) : bytes :=
  match tx with TLegacy t => l_Data t | TAccessList t => a_Data t | TDynamicFee t => f_Data t end.
Definition tx_gas (tx : TxData) : Z :=
  match tx with TLegacy t => l_Gas t | TAccessList t => a_Gas t | TDynamicFee t => f_Gas t end.
Definition tx_gasPrice (tx : TxData) : Z :=
  match tx with TLegacy t => l_GasPrice t | TAccessList t => a_GasPrice t | TDynamicFee t => f_GasFeeCap t end.
Definition tx_gasTipCap (tx : TxData) : Z :=
  match tx with TLegacy t => l_GasPrice t | TAccessList t => a_GasPrice t | TDynamicFee t => f_GasTipCap t end.
Definition tx_gasFeeCap (tx : TxData) : Z :=
  match tx with TLegacy t => l_GasPrice t | TAccessList t => a_GasPrice t | TDynamicFee t => f_GasFeeCap t end.
Definition tx_value (tx : TxData) : Z :=
  match tx with TLegacy t => l_Value t | TAccessList t => a_Value t | TDynamicFee t => f_Value t end.
Definition tx_nonce (tx : TxData) : Z :=
  match tx with TLegacy t => l_Nonce t | TAccessList t => a_Nonce t | TDynamicFee t => f_Nonce t end.
Definition tx_to (tx : TxData) : option Z :=
  match tx with TLegacy t => l_To t | TAccessList t => a_To t | TDynamicFee t => f_To t end.
Definition RawSignatureValues (tx : TxData) : Z * Z * Z :=
  match tx with TLegacy t => (l_V t, l_R t, l_S t) | TAccessList t => (a_V t, a_R t, a_S t) | TDynamicFee t => (f_V t, f_R t, f_S t) end.
(** The chain id is nil for the signers before EIP-155, which only sign legacy contents. *)
Definition setSignatureValues (chainID : option Z) (v r s : Z) (tx : TxData) : TxData :=
  match tx with
  | TLegacy t => TLegacy (mk_LegacyTx (l_Nonce t) (l_GasPrice t) (l_Gas t) (l_To t) (l_Value t) (l_Data t) v r s)
  | TAccessList t => TAccessList (mk_AccessListTx (default 0 chainID) (a_Nonce t) (a_GasPrice t) (a_Gas t) (a_To t) (a_Value t) (a_Data t)
                       (a_AccessList t) v r s)
  | TDynamicFee t => TDynamicFee (mk_DynamicFeeTx (default 0 chainID) (f_Nonce t) (f_GasTipCap t) (f_GasFeeCap t) (f_Gas t) (f_To t) (f_Value t)
                       (f_Data t) (f_AccessList t) v r s)
  end.
Definition Cost (tx : TxData) : Z := tx_gasPrice tx * tx_gas tx + tx_value tx.

(** ** The effective tip *)

(** [EffectiveGasTip] with whether it reports that the fee cap is below the base fee. *)
Definition EffectiveGasTip (tx : TxData) (baseFee : option Z) : Z * bool :=
  match baseFee with
  | None => (tx_gasTipCap tx, false)
  | Some baseFee => (BigMin (tx_gasTipCap tx) (tx_gasFeeCap tx - baseFee), tx_gasFeeCap tx <? baseFee)
  end.
Definition EffectiveGasTipValue (tx : TxData) (baseFee : option Z) : Z := fst (EffectiveGasTip tx baseFee).
Definition EffectiveGasTipCmp (tx other : TxData) (baseFee : option Z) : comparison :=
  match baseFee with
  | None => tx_gasTipCap tx ?= tx_gasTipCap other
  | Some _ => EffectiveGasTipValue tx baseFee ?= EffectiveGasTipValue other baseFee
  end.
Definition EffectiveGasTipIntCmp (tx : TxData) (other : Z) (baseFee : option Z) : comparison :=
  match baseFee with None => tx_gasTipCap tx ?= other | Some _ => EffectiveGasTipValue tx baseFee ?= other end.

(** ** Encoding *)

(** The contents as the rlp writers see them. *)
Definition field (v : gval) : bool * bool * gval := (false, false, v).
Definition big_val (i : Z) : gval := VBigIntPtr (Some i).
Definition address_val (a : Z) : gval := VByteArray (address_bytes a).
Definition hash_val (h : Z) : gval := VByteArray (hash_bytes h).
Definition to_val (to : option Z) : gval := VPtr String (option_map address_val to).
Definition access_tuple_val (el : Z * list Z) : gval :=
  VStruct [field (address_val (fst el)); field (VSlice false (map hash_val (snd el)))].
Definition access_list_val (al : AccessList) : gval := VSlice false (map access_tuple_val al).
Definition inner_val (tx : TxData) : gval :=
  VStruct (map field match tx with
  | TLegacy t => [VUint (l_Nonce t); big_val (l_GasPrice t); VUint (l_Gas t); to_val (l_To t); big_val (l_Value t); VBytes (l_Data t);
                  big_val (l_V t); big_val (l_R t); big_val (l_S t)]
  | TAccessList t => [big_val (a_ChainID t); VUint (a_Nonce t); big_val (a_GasPrice t); VUint (a_Gas t); to_val (a_To t);
                      big_val (a_Value t); VBytes (a_Data t); access_list_val (a_AccessList t); big_val (a_V t); big_val (a_R t); big_val (a_S t)]
  | TDynamicFee t => [big_val (f_ChainID t); VUint (f_Nonce t); big_val (f_GasTipCap t); big_val (f_GasFeeCap t); VUint (f_Gas t);
                      to_val (f_To t); big_val (f_Value t); VBytes (f_Data t); access_list_val (f_AccessList t);
                      big_val (f_V t); big_val (f_R t); big_val (f_S t)]
  end).

Definition encodeTyped (tx : TxData) : R bytes := b ← EncodeToBytes (inner_val tx); Ok (txType tx :: b).
(** What is written by [EncodeRLP]. *)
Definition EncodeRLP (tx : TxData) : R bytes :=
  if txType tx =? LegacyTxType then EncodeToBytes (inner_val tx) else b ← encodeTyped tx; EncodeToBytes (VBytes b).
(** Also what [EncodeIndex] writes for a transaction of a list. *)
Definition MarshalBinary (tx : TxData) : R bytes :=
  if txType tx =? LegacyTxType then EncodeToBytes (inner_val tx) else encodeTyped tx.

(** ** Decoding *)

Inductive codec_err := ErrRlp (e : rlp_err) | errEmptyTypedTx | ErrTypeNotSupported.
Definition of_rlp {A} (r : R A) : res codec_err A :=
  match r with Ok a => Ok a | Err e => Err (ErrRlp e) | Panic p => Panic p | OutOfFuel => OutOfFuel end.

(** Decoders of the fields; slices take fuel for their elements. *)
Definition decodeAddress : S_ Z := b ← decodeByteArray 20; mret (be_val b).
Definition decodeHash : S_ Z := b ← decodeByteArray 32; mret (be_val b).
Definition decodeTo : S_ (option Z) := decodeNilPtr String decodeAddress.
Definition decodeAccessTuple (fuel : nat) : S_ (Z * list Z) :=
  decodeStruct
    (a ← decodeField decodeAddress;
     ks ← decodeField (decodeListSlice fuel decodeHash);
     mret (a, ks)).
Definition decodeAccessList (fuel : nat) : S_ AccessList := decodeListSlice fuel (decodeAccessTuple fuel).

Definition decodeLegacyTx : S_ TxData :=
  decodeStruct
    (nonce ← decodeField (decodeUint 64);
     gasPrice ← decodeField decodeBigInt;
     gas ← decodeField (decodeUint 64);
     to ← decodeField decodeTo;
     value ← decodeField decodeBigInt;
     data ← decodeField decodeBytes;
     v ← decodeField decodeBigInt;
     r ← decodeField decodeBigInt;
     s ← decodeField decodeBigInt;
     mret (TLegacy (mk_LegacyTx nonce gasPrice gas to value data v r s))).
Definition decodeAccessListTx (fuel : nat) : S_ TxData :=
  decodeStruct
    (chainID ← decodeField decodeBigInt;
     nonce ← decodeField (decodeUint 64);
     gasPrice ← decodeField decodeBigInt;
     gas ← decodeField (decodeUint 64);
     to ← decodeField decodeTo;
     value ← decodeField decodeBigInt;
     data ← decodeField decodeBytes;
     al ← decodeField (decodeAccessList fuel);
     v ← decodeField decodeBigInt;
     r ← decodeField decodeBigInt;
     s ← decodeField decodeBigInt;
     mret (TAccessList (mk_AccessListTx chainID nonce gasPrice gas to value data al v r s))).
Definition decodeDynamicFeeTx (fuel : nat) : S_ TxData :=
  decodeStruct
    (chainID ← decodeField decodeBigInt;
     nonce ← decodeField (decodeUint 64);
     tip ← decodeField decodeBigInt;
     cap ← decodeField decodeBigInt;
     gas ← decodeField (decodeUint 64);
     to ← decodeField decodeTo;
     value ← decodeField decodeBigInt;
     data ← decodeField decodeBytes;
     al ← decodeField (decodeAccessList fuel);
     v ← decodeField decodeBigInt;
     r ← decodeField decodeBigInt;
     s ← decodeField decodeBigInt;
     mret (TDynamicFee (mk_DynamicFeeTx chainID nonce tip cap gas to value data al v r s))).

(** An element of a slice takes at least a byte, so that the length of the input is fuel
    enough. *)
Definition decodeTyped (b : bytes) : res codec_err TxData :=
  match b with
  | [] => Err errEmptyTypedTx
  | t :: b =>
      if t =? AccessListTxType then of_rlp (DecodeBytes_with (decodeAccessListTx (length b)) b)
      else if t =? DynamicFeeTxType then of_rlp (DecodeBytes_with (decodeDynamicFeeTx (length b)) b)
      else Err ErrTypeNotSupported
  end.
Definition UnmarshalBinary (b : bytes) : res codec_err TxData :=
  match b with
  | t :: _ => if 0x7f <? t then of_rlp (DecodeBytes_with decodeLegacyTx b) else decodeTyped b
  | [] => decodeTyped b
  end.
(** [DecodeRLP], with the size that is cached: that of the list, or of the envelope's
    contents. *)
Definition on_stream {A} (m : S_ A) : st Stream codec_err A := λ s, let '(s, r) := m s in (s, of_rlp r).
Definition ListSize (contentSize : Z) : Z := u64 (headsize contentSize + contentSize).
Definition DecodeRLP : st Stream codec_err (TxData * Z) :=
  '(kind, size) ← on_stream s_Kind;
  match kind with
  | List => inner ← on_stream decodeLegacyTx; mret (inner, ListSize size)
  | String => b ← on_stream s_Bytes; inner ← st_lift (decodeTyped b); mret (inner, len b)
  | Byte => st_err (ErrRlp ErrExpectedList)
  end.

(** ** The hash and the size *)

Section hash.
Context (keccak256 : bytes → Z).
Definition prefixedRlpHash (prefix : Z) (v : gval) : Z :=
  keccak256 (prefix :: match EncodeToBytes v with Ok b => b | _ => [] end).
Definition tx_hash (tx : TxData) : Z :=
  if txType tx =? LegacyTxType then rlpHash keccak256 (inner_val tx) else prefixedRlpHash (txType tx) (inner_val tx).
End hash.
(** The size that [Size] computes when none is cached; the writer counts what the encoder
    gives it. *)
Definition fresh_size (tx : TxData) : Z := match EncodeToBytes (inner_val tx) with Ok b => len b | _ => 0 end.
