(* ===== verification/TxCodec.v ===== *)
(** * Canonical encodings of transactions (src/geth/core/types/transaction.go)

    What [MarshalBinary] and [EncodeRLP] write is read back by [UnmarshalBinary] and
    [DecodeRLP], so that the hash of a transaction determines its contents. *)
From stdpp Require Import sets.
From S2P Require Import Prelude RlpBase RlpRaw RlpEncode RlpStream RlpStruct RlpCodes StateDb StateJournal StatePersist TxMeta TxTransition TxTypes.

(** ** Contents that a transaction can have *)

Definition big_ok (i : Z) : Prop := 0 ≤ i ∧ is_u64 (big_BitLen i).
Definition to_ok (to : option Z) : Prop := ∀ a, to = Some a → is_addr a.
Definition access_ok (al : AccessList) : Prop := Forall (λ el, is_addr (fst el) ∧ Forall is_word (snd el)) al.
Definition content_ok (tx : TxData) : Prop :=
  is_u64 (tx_nonce tx) ∧ is_u64 (tx_gas tx) ∧ to_ok (tx_to tx) ∧ string_ok (tx_data tx) ∧ access_ok (tx_accessList tx) ∧
  big_ok (tx_gasPrice tx) ∧ big_ok (tx_gasTipCap tx) ∧ big_ok (tx_value tx) ∧
  let '(v, r, s) := RawSignatureValues tx in big_ok v ∧ big_ok r ∧ big_ok s ∧
  match tx with TLegacy _ => True | _ => big_ok (ChainId tx) end.

(** ** Sizes of slices *)

Lemma enc_parts vs bs v : concat_res (map enc_ref vs) = Ok bs → v ∈ vs → ∃ b, enc_ref v = Ok b ∧ (length b ≤ length bs)%nat.
Proof.
  revert bs. induction vs as [|u vs IH]; intros bs; [set_solver|]. cbn. destruct (enc_ref u) as [b|e| |] eqn:Hu; cbn; try done.
  fold (concat_res (map enc_ref vs)). destruct (concat_res (map enc_ref vs)) as [cs|e| |]; cbn; try done. intros [= <-].
  rewrite length_app. intros [->|Hv]%elem_of_cons; [exists b; split; [done|lia]|]. destruct (IH cs eq_refl Hv) as (b' & Hb & Hl). exists b'. split; [done|lia].
Qed.
Lemma enc_count vs bs : concat_res (map enc_ref vs) = Ok bs → Forall (λ v, enc_ref v ≠ Ok []) vs → (length vs ≤ length bs)%nat.
Proof.
  revert bs. induction vs as [|u vs IH]; intros bs; [cbn; lia|]. cbn. destruct (enc_ref u) as [b|e| |] eqn:Hu; cbn; try done.
  fold (concat_res (map enc_ref vs)). destruct (concat_res (map enc_ref vs)) as [cs|e| |]; cbn; try done. intros [= <-] [Hn Hvs]%Forall_cons_1.
  rewrite length_app. specialize (IH cs eq_refl Hvs). destruct b; [congruence|]. cbn. lia.
Qed.
Lemma slice_size vs bs : enc_ref (VSlice false vs) = Ok bs → Forall (λ v, enc_ref v ≠ Ok []) vs →
  (length vs < length bs)%nat ∧ ∀ v, v ∈ vs → ∃ b, enc_ref v = Ok b ∧ (length b ≤ length bs)%nat.
Proof.
  cbn. destruct (concat_res (map enc_ref vs)) as [cs|e| |] eqn:Hc; cbn; try done. intros [= <-] Hne. unfold rlp_list.
  destruct (rlp_head_nonempty 0xC0 (len cs)) as (x & l & ->). cbn. rewrite length_app. pose proof (enc_count vs cs Hc Hne). split; [lia|].
  intros v Hv. destruct (enc_parts vs cs v Hc Hv) as (b & Hb & Hl). exists b. split; [done|lia].
Qed.
Lemma struct_size vs bs : enc_ref (VStruct (map field vs)) = Ok bs → ∀ v, v ∈ vs → ∃ b, enc_ref v = Ok b ∧ (length b ≤ length bs)%nat.
Proof.
  intros Hs v Hv. cbn [enc_ref] in Hs. unfold field in Hs. rewrite struct_fields_all, map_map in Hs.
  replace (take (length vs) _) with (map enc_ref vs) in Hs by (symmetry; apply firstn_all2; by rewrite length_map).
  destruct (concat_res (map enc_ref vs)) as [cs|e| |] eqn:Hc; cbn in Hs; try done. injection Hs as <-.
  destruct (enc_parts vs cs v Hc Hv) as (b & Hb & Hl). exists b. split; [done|]. unfold rlp_list. rewrite length_app. lia.
Qed.

(** Fuel that is enough for the slices of an access list. *)
Definition enough (fuel : nat) (al : AccessList) : Prop := (length al < fuel)%nat ∧ Forall (λ el, (length (snd el) < fuel)%nat) al.
Lemma enough_access al bs : enc_ref (access_list_val al) = Ok bs → enough (length bs) al.
Proof.
  intros Hal. destruct (slice_size _ _ Hal) as [Hl Hel].
  { apply list.Forall_forall. intros v (el & <- & _)%list_elem_of_In%in_map_iff. cbn.
    destruct (concat_res _) as [cs|e| |]; cbn; try done. intros [= He]. by apply rlp_list_nonempty in He. }
  rewrite length_map in Hl. split; [done|]. apply list.Forall_forall. intros el Hin.
  destruct (Hel (access_tuple_val el)) as (b & Hb & Hlb). { apply list_elem_of_In, in_map, list_elem_of_In, Hin. }
  destruct (struct_size [address_val (fst el); VSlice false (map hash_val (snd el))] b Hb (VSlice false (map hash_val (snd el)))) as (c & Hc & Hlc); [set_solver|].
  destruct (slice_size _ _ Hc) as [Hk _]; [|rewrite length_map in Hk; lia].
  apply list.Forall_forall. intros v (k & <- & _)%list_elem_of_In%in_map_iff. intros He. apply (rlp_string_nonempty (hash_bytes k)). cbn [enc_ref hash_val] in He. congruence.
Qed.

(** ** The round trip of the contents *)

Lemma codes_address a : is_addr a → codes (address_val a) decodeAddress a.
Proof.
  intros Ha. assert (be_val (address_bytes a) = a) as Hv by (unfold address_bytes; rewrite be_val_be_bytes; by apply Z.mod_small).
  rewrite <-Hv at 2. apply (codes_array (address_bytes a) 20 be_val); [|apply len_be_bytes|done]. split; [apply be_bytes_ok|].
  unfold address_bytes. by rewrite len_be_bytes.
Qed.
Lemma codes_hash h : is_word h → codes (hash_val h) decodeHash h.
Proof.
  intros Hh. assert (be_val (hash_bytes h) = h) as Hv by (unfold hash_bytes; rewrite be_val_be_bytes; by apply Z.mod_small).
  rewrite <-Hv at 2. apply (codes_array (hash_bytes h) 32 be_val); [|apply len_be_bytes|done]. split; [apply be_bytes_ok|].
  unfold hash_bytes. by rewrite len_be_bytes.
Qed.
Lemma codes_to to : to_ok to → codes (to_val to) decodeTo to.
Proof.
  intros Ht. destruct to as [a|]; [|apply codes_nil]. specialize (Ht a eq_refl).
  assert (be_val (address_bytes a) = a) as Hv by (unfold address_bytes; rewrite be_val_be_bytes; by apply Z.mod_small).
  rewrite <-Hv at 2. apply (codes_some (address_bytes a) 20 be_val); [|apply len_be_bytes|done]. split; [apply be_bytes_ok|].
  unfold address_bytes. by rewrite len_be_bytes.
Qed.
Lemma codes_access fuel al : access_ok al → enough fuel al → codes (access_list_val al) (decodeAccessList fuel) al.
Proof.
  intros Hok [Hl He]. apply codes_slice; [apply at_end_struct| |done]. clear Hl.
  induction Hok as [|[a ks] al [Ha Hks] _ IH]; [constructor|]. apply Forall_cons_1 in He as [Hk He]. constructor; [|by apply IH]. cbn in *.
  apply (codes_struct [address_val a; VSlice false (map hash_val ks)]). eapply codes_fields_cons; [by apply codes_address|].
  eapply codes_fields_cons; [|apply codes_fields_nil]. apply codes_slice; [apply at_end_bind, at_end_byteArray| |done]. clear Hk.
  induction Hks as [|k ks Hk _ IHk]; constructor; [by apply codes_hash|done].
Qed.
Lemma codes_big_ok i : big_ok i → codes (big_val i) decodeBigInt i.
Proof. intros [? ?]. by apply codes_big. Qed.

Definition content_decoder (fuel : nat) (tx : TxData) : S_ TxData :=
  match tx with TLegacy _ => decodeLegacyTx | TAccessList _ => decodeAccessListTx fuel | TDynamicFee _ => decodeDynamicFeeTx fuel end.
#[local] Hint Resolve codes_uint codes_big_ok codes_to codes_bytes codes_access codes_fields_nil : codes.
Lemma content_codes fuel tx : content_ok tx → enough fuel (tx_accessList tx) → codes (inner_val tx) (content_decoder fuel tx) tx.
Proof.
  intros (Hn & Hg & Ht & Hd & Hal & Hp & Htip & Hv & Hs) Hf. destruct tx as [t|t|t], t; cbn in *; destruct Hs as (? & ? & ? & ?);
    apply codes_struct; repeat (eapply codes_fields_cons; [eauto with codes nocore|]); eauto with codes nocore.
Qed.

(** ** The encodings *)

Definition wire_fits (tx : TxData) : Prop := ∀ b, enc_ref (inner_val tx) = Ok b → len b + 1 < 2 ^ 63.

(** The bytes of the contents, and what reads them. *)
Lemma content_bytes tx : content_ok tx → wire_fits tx →
  ∃ p b, b = rlp_list p ∧ EncodeToBytes (inner_val tx) = Ok b ∧ bytes_ok b ∧ is_u64 (len b) ∧ len b + 1 < 2 ^ 63 ∧
    ∀ fuel, (length b ≤ fuel)%nat → decodes (content_decoder fuel tx) b tx.
Proof.
  intros Hok Hw.
  assert (∃ n, enough n (tx_accessList tx)) as [n Hn].
  { clear. induction (tx_accessList tx) as [|[a ks] al (n & Hl & He)]; [exists 1%nat; split; [cbn; lia|constructor]|].
    exists (S (n + length ks)). split; [cbn; lia|]. constructor; [cbn; lia|]. eapply Forall_impl; [|exact He]. intros el. cbn. lia. }
  destruct (content_codes n tx Hok Hn) as (Hv & b & Hb & _ & Hbok & _). pose proof (Hw b Hb) as Hlen. pose proof (len_nonneg b).
  assert (is_u64 (len b)) as Hu by (unfold is_u64; lia).
  assert (∃ p, b = rlp_list p) as [p ->].
  { unfold inner_val in Hb. cbn [enc_ref] in Hb. destruct (concat_res _); cbn in Hb; try done. injection Hb as <-. by eexists. }
  exists p, (rlp_list p). split; [done|]. split; [|split; [by apply Hbok|split; [done|split; [done|]]]].
  { rewrite EncodeToBytes_enc_ref; [done|done|]. intros b' Hb'. by rewrite Hb in Hb'; injection Hb' as <-. }
  intros fuel Hf. destruct (content_codes fuel tx Hok) as (_ & b' & Hb' & _ & _ & Hd); [|by rewrite Hb in Hb'; injection Hb' as <-].
  assert (∃ c, enc_ref (access_list_val (tx_accessList tx)) = Ok c ∧ (length c ≤ length (rlp_list p))%nat) as (c & Hc & Hl).
  { destruct tx as [t|t|t]; cbn [tx_accessList]; [exists [0xC0]; split; [done|]; unfold rlp_list; destruct (rlp_head_nonempty 0xC0 (len p)) as (? & ? & ->); cbn; lia|..];
      unfold inner_val in Hb; eapply struct_size; [exact Hb|set_solver|exact Hb|set_solver]. }
  destruct (enough_access _ _ Hc) as [H1' H2']. split; [lia|]. eapply Forall_impl; [|exact H2']. intros el. cbn. lia.
Qed.

Lemma rlp_list_first p : ∃ x l, rlp_list p = x :: l ∧ 0x7f < x.
Proof.
  unfold rlp_list, rlp_head. destruct (_ <? 56); cbn; eexists _, _; (split; [reflexivity|]); [pose proof (len_nonneg p)|]; lia.
Qed.
Lemma MarshalBinary_bytes tx : content_ok tx → wire_fits tx →
  ∃ b, EncodeToBytes (inner_val tx) = Ok b ∧ MarshalBinary tx = Ok (match tx with TLegacy _ => b | _ => txType tx :: b end).
Proof.
  intros Hok Hw. destruct (content_bytes tx Hok Hw) as (p & b & _ & He & _). exists b. split; [done|]. unfold MarshalBinary, encodeTyped. rewrite He. by destruct tx.
Qed.
Lemma DecodeBytes_content tx b fuel : bytes_ok b → is_u64 (len b) → decodes (content_decoder fuel tx) b tx →
  of_rlp (DecodeBytes_with (content_decoder fuel tx) b) = Ok tx.
Proof. intros Hb Hu Hd. by rewrite (DecodeBytes_decodes _ b tx). Qed.

Lemma binary_roundtrip tx : content_ok tx → wire_fits tx → ∃ b, MarshalBinary tx = Ok b ∧ UnmarshalBinary b = Ok tx.
Proof.
  intros Hok Hw. destruct (content_bytes tx Hok Hw) as (p & b & Hp & He & Hb & Hu & _ & Hd). unfold MarshalBinary, encodeTyped. rewrite He.
  destruct tx as [t|t|t]; eexists; (split; [reflexivity|]).
  - destruct (rlp_list_first p) as (x & l & Hx & Hgt). unfold UnmarshalBinary. rewrite Hp, Hx. rewrite (proj2 (Z.ltb_lt _ _) Hgt), <-Hx, <-Hp.
    apply (DecodeBytes_content (TLegacy t) b (length b) Hb Hu). by apply Hd.
  - apply (DecodeBytes_content (TAccessList t) b (length b) Hb Hu). by apply Hd.
  - apply (DecodeBytes_content (TDynamicFee t) b (length b) Hb Hu). by apply Hd.
Qed.
Lemma decodeTyped_content tx b : EncodeToBytes (inner_val tx) = Ok b → content_ok tx → wire_fits tx → txType tx ≠ LegacyTxType →
  decodeTyped (txType tx :: b) = Ok tx.
Proof.
  intros He Hok Hw Ht. destruct (binary_roundtrip tx Hok Hw) as (b' & Hm & Hu). unfold MarshalBinary, encodeTyped in Hm. rewrite He in Hm.
  destruct tx; [done|..]; injection Hm as <-; exact Hu.
Qed.

(** Reading from a stream, where [Kind] has looked ahead. *)
Lemma s_List_cached s s1 k sz : s_Kind s = (s1, Ok (k, sz)) → s_Kind s1 = (s1, Ok (k, sz)) → s_List s1 = s_List s.
Proof. intros H1 H2. unfold s_List. run. by rewrite H1, H2. Qed.
Lemma s_Bytes_cached s s1 k sz : s_Kind s = (s1, Ok (k, sz)) → s_Kind s1 = (s1, Ok (k, sz)) → s_Bytes s1 = s_Bytes s.
Proof. intros H1 H2. unfold s_Bytes. run. by rewrite H1, H2. Qed.
Lemma decodeStruct_cached {A} (m : S_ A) s s1 : s_List s1 = s_List s → decodeStruct m s1 = decodeStruct m s.
Proof. intros Hl. unfold decodeStruct, wrapped. run. by rewrite Hl. Qed.
Lemma s_Bytes_ok b s tl : bytes_ok b → sync s → kind s = None → rd s = rlp_string b ++ tl → fits (len (rlp_string b)) (stack s) →
  ∃ s', s_Bytes s = (s', Ok b) ∧ eats (rlp_string b) s s'.
Proof.
  intros Hb Hs Hk Hr Hf. destruct (decodes_bytes b Hb s tl Hs Hk Hr Hf) as (s' & Hd & Hx). exists s'. split; [|done].
  unfold decodeBytes, wrapped in Hd. revert Hd. run. destruct (s_Bytes s) as [s2 [c|e| |]]; done.
Qed.

(** What a stream must be to read [wire] from it. *)
Definition reads (wire : bytes) (x : TxData * Z) : Prop :=
  ∀ s tl, sync s → kind s = None → rd s = wire ++ tl → fits (len wire) (stack s) → ∃ s', DecodeRLP s = (s', Ok x) ∧ eats wire s s'.
Lemma reads_legacy t p : let c := rlp_list p in is_u64 (len c) → decodes decodeLegacyTx c (TLegacy t) → reads c (TLegacy t, len c).
Proof.
  intros c Hu Hd s tl Hs Hk Hr Hf. destruct (list_opened s p tl Hs Hk Hr Hf) as (s0 & Hopen & _).
  assert (∃ s1, s_Kind s = (s1, Ok (List, len p))) as [s1 HK].
  { revert Hopen. unfold s_List. run. destruct (s_Kind s) as [s1 [[k sz]|e| |]]; try done. destruct (bool_decide (k = List)) eqn:Hb; [|done].
    apply bool_decide_eq_true in Hb as ->. intros [= _ ->]. by exists s1. }
  pose proof (s_Kind_cached _ _ _ _ Hs Hk HK) as HK1. destruct (Hd s tl) as (s' & Hds & Hx); try done.
  exists s'. split; [|done]. unfold DecodeRLP, on_stream. run. rewrite HK. cbn [of_rlp].
  unfold decodeLegacyTx in *. rewrite (decodeStruct_cached _ s s1 (s_List_cached _ _ _ _ HK HK1)), Hds. cbn [of_rlp]. unfold ListSize.
  assert (headsize (len p) + len p = len c) as -> by (unfold c in *; rewrite len_rlp_list; [done|]; unfold rlp_list in Hu; by apply is_u64_app_r in Hu).
  by rewrite u64_small.
Qed.
Lemma reads_typed tx b : bytes_ok b → 1 < len b → decodeTyped b = Ok tx → reads (rlp_string b) (tx, len b).
Proof.
  intros Hb Hl Hd s tl Hs Hk Hr Hf. destruct (s_Bytes_ok b s tl Hb Hs Hk Hr Hf) as (s' & Hby & Hx).
  destruct (string_ahead s b tl) as [(x & s1 & -> & _)|(s1 & s2 & _ & _ & HK & _)]; try done.
  pose proof (s_Kind_cached _ _ _ _ Hs Hk HK) as HK1.
  exists s'. split; [|done]. unfold DecodeRLP, on_stream. run. rewrite HK. cbn [of_rlp]. rewrite (s_Bytes_cached _ _ _ _ HK HK1), Hby. cbn [of_rlp]. by rewrite Hd.
Qed.
Lemma envelope_fits b : string_ok b → len b < 2 ^ 63 → EncodeToBytes (VBytes b) = Ok (rlp_string b).
Proof.
  intros Hb Hl. rewrite EncodeToBytes_enc_ref; [done|done|]. intros w Hw. cbn [enc_ref] in Hw. assert (w = rlp_string b) as -> by congruence. clear Hw.
  destruct (rlp_string_cases b) as [(x & _ & _ & ->)|[_ ->]]; [done|]. rewrite len_app. pose proof (len_nonneg b).
  assert (len (rlp_head 0x80 (len b)) ≤ 9); [|unfold is_u64; pose proof (len_nonneg (rlp_head 0x80 (len b))); lia].
  unfold rlp_head. destruct (_ <? 56); [done|]. rewrite len_cons, len_be_bytes. pose proof (nbytes_u64 (len b)). unfold is_u64 in *. lia.
Qed.

(** C19: Transactions and their encodings.  For contents that fit into the types, the canonical
    encoding of [MarshalBinary] is read back by [UnmarshalBinary], and wherever a stream
    stands before what [EncodeRLP] writes, inside any list that has room for it,
    [DecodeRLP] returns the same contents, caches the length of the canonical encoding as
    the size and stands behind it. *)
Theorem transaction_roundtrip tx : content_ok tx → wire_fits tx →
  ∃ b wire, MarshalBinary tx = Ok b ∧ UnmarshalBinary b = Ok tx ∧ EncodeRLP tx = Ok wire ∧ reads wire (tx, len b).
Proof.
  intros Hok Hw. destruct (binary_roundtrip tx Hok Hw) as (b & Hm & Hu). exists b.
  destruct (content_bytes tx Hok Hw) as (p & c & Hp & He & Hc & Huc & Hlen & Hd).
  destruct (decide (txType tx = LegacyTxType)) as [Ht|Ht].
  - exists c. unfold EncodeRLP, MarshalBinary in *. rewrite Ht, He in *. cbn in Hm |- *. injection Hm as <-. split_and!; try done.
    destruct tx as [t|t|t]; [|done..]. subst c. apply reads_legacy; [done|]. by apply (Hd (length (rlp_list p))).
  - assert (b = txType tx :: c) as -> by (unfold MarshalBinary, encodeTyped in Hm; rewrite He in Hm; destruct tx; [done|..]; by injection Hm as <-).
    assert (bytes_ok (txType tx :: c)) as Hbt by (apply bytes_ok_cons; split; [by destruct tx|done]).
    assert (string_ok (txType tx :: c)) as Hst by (split; [done|]; rewrite len_cons; unfold is_u64 in *; pose proof (len_nonneg c); lia).
    exists (rlp_string (txType tx :: c)). split_and!; try done.
    + unfold EncodeRLP, encodeTyped. rewrite He, (proj2 (Z.eqb_neq _ _) Ht). cbn [mbind res_bind]. apply envelope_fits; [done|]. rewrite len_cons. lia.
    + apply reads_typed; [done| |by apply decodeTyped_content]. destruct (rlp_list_first p) as (y & l & Hy & _).
      rewrite Hp, Hy, !len_cons. pose proof (len_nonneg l). lia.
Qed.
Definition sample_tx : TxData :=
  TDynamicFee (mk_DynamicFeeTx 11 7 2 30 21000 (Some 0xaa) 1000 [1; 2; 3] [(5, [1; 2 ^ 255]); (6, [])] 1 (2 ^ 200) 77).
Lemma sample_ok : content_ok sample_tx ∧ wire_fits sample_tx.
Proof.
  split; [|intros b Hb; vm_compute in Hb; injection Hb as <-; vm_compute; reflexivity].
  split_and!; try (split; done); try (by intros a [= <-]).
  - split; [repeat constructor; done|done].
  - repeat constructor; done.
Qed.
Lemma transaction_roundtrip_witness : ∃ b wire, MarshalBinary sample_tx = Ok b ∧ len b = 183 ∧ UnmarshalBinary b = Ok sample_tx ∧
  EncodeRLP sample_tx = Ok wire ∧ len wire = 185.
Proof.
  assert (match MarshalBinary sample_tx with Ok b => len b = 183 | _ => False end) as Hb by (vm_compute; reflexivity).
  assert (match EncodeRLP sample_tx with Ok b => len b = 185 | _ => False end) as Hw by (vm_compute; reflexivity).
  destruct (transaction_roundtrip sample_tx (proj1 sample_ok) (proj2 sample_ok)) as (b & wire & Hm & Hu & He & _).
  rewrite Hm in Hb. rewrite He in Hw. exists b, wire. split; [exact Hm|]. split; [exact Hb|]. split; [exact Hu|]. split; [exact He|exact Hw].
Defined.

(** ** What the encodings are used for *)

(** The hash of a transaction identifies it: two transactions with the same hash have the
    same contents, signature included, unless their encodings are a collision. *)
Theorem tx_hash_identifies (keccak256 : bytes → Z) tx1 tx2 :
  (∀ x y, MarshalBinary tx1 = Ok x → MarshalBinary tx2 = Ok y → keccak256 x = keccak256 y → x = y) →
  content_ok tx1 → wire_fits tx1 → content_ok tx2 → wire_fits tx2 → tx_hash keccak256 tx1 = tx_hash keccak256 tx2 → tx1 = tx2.
Proof.
  intros Hinj Hok1 Hw1 Hok2 Hw2 Hh. destruct (binary_roundtrip tx1 Hok1 Hw1) as (b1 & Hm1 & Hu1). destruct (binary_roundtrip tx2 Hok2 Hw2) as (b2 & Hm2 & Hu2).
  assert (∀ tx b, MarshalBinary tx = Ok b → tx_hash keccak256 tx = keccak256 b) as Hhash.
  { intros tx b. unfold MarshalBinary, encodeTyped, tx_hash, rlpHash, prefixedRlpHash. destruct (EncodeToBytes (inner_val tx)); destruct tx; cbn; congruence. }
  rewrite (Hhash _ _ Hm1), (Hhash _ _ Hm2) in Hh. apply (Hinj b1 b2 Hm1 Hm2) in Hh. congruence.
Qed.

(** The size of a typed transaction.  [Size] of a transaction that was not decoded counts
    the contents only, one byte less than the size that decoding the same transaction
    caches; for legacy transactions the two agree. *)
Theorem Size_misses_type tx b : content_ok tx → wire_fits tx → MarshalBinary tx = Ok b →
  fresh_size tx = if txType tx =? LegacyTxType then len b else len b - 1.
Proof.
  intros Hok Hw Hm. destruct (MarshalBinary_bytes tx Hok Hw) as (c & He & Hm'). unfold fresh_size. rewrite He. rewrite Hm in Hm'.
  destruct tx; injection Hm' as ->; cbn; rewrite ?len_cons; lia.
Qed.
Lemma Size_misses_type_witness : fresh_size sample_tx = 182.
Proof.
  assert (match MarshalBinary sample_tx with Ok b => len b = 183 | _ => False end) as Hb by (vm_compute; reflexivity).
  destruct (MarshalBinary sample_tx) as [b| | |] eqn:Hm; [|exfalso; exact Hb..].
  rewrite (Size_misses_type sample_tx b (proj1 sample_ok) (proj2 sample_ok) Hm), Hb. reflexivity.
Defined.
