(* ===== verification/TxSign.v ===== *)
(** * Signers (src/geth/core/types/transaction_signing.go)

    The signers of the forks, with the values and the hashes they sign, and the recovery
    of senders with its cache.  The elliptic curve is a parameter. *)
From S2P Require Import Prelude RlpBase RlpEncode StateDb TxMeta TxTransition TxTypes.

(** [ErrSignature] stands for [ErrInvalidSig] and for the errors of the recovery of a
    public key. *)
Inductive sign_err := ErrInvalidChainId | ErrTxTypeNotSupported | ErrSignature.

Inductive Signer :=
| FrontierSigner
| HomesteadSigner
| EIP155Signer (chainId chainIdMul : Z)
| eip2930Signer (chainId chainIdMul : Z)
| londonSigner (chainId chainIdMul : Z).

Definition NewEIP155Signer (chainId : option Z) : Signer := EIP155Signer (default 0 chainId) (default 0 chainId * 2).
Definition NewEIP2930Signer (chainId : option Z) : Signer := eip2930Signer (default 0 chainId) (default 0 chainId * 2).
Definition NewLondonSigner (chainId : option Z) : Signer := londonSigner (default 0 chainId) (default 0 chainId * 2).

(** [MakeSigner]: the rules of the chain at the block. *)
Definition MakeSigner (chainID : option Z) (IsLondon IsBerlin IsEIP155 IsHomestead : bool) : Signer :=
  if IsLondon then NewLondonSigner chainID
  else if IsBerlin then NewEIP2930Signer chainID
  else if IsEIP155 then NewEIP155Signer chainID
  else if IsHomestead then HomesteadSigner
  else FrontierSigner.
(** [LatestSigner]: which forks are scheduled at all. *)
Definition LatestSigner (chainID londonBlock berlinBlock eip155Block : option Z) : Signer :=
  match chainID with
  | None => HomesteadSigner
  | Some _ =>
      match londonBlock, berlinBlock, eip155Block with
      | Some _, _, _ => NewLondonSigner chainID
      | None, Some _, _ => NewEIP2930Signer chainID
      | None, None, Some _ => NewEIP155Signer chainID
      | None, None, None => HomesteadSigner
      end
  end.
Definition LatestSignerForChainID (chainID : option Z) : Signer :=
  match chainID with None => HomesteadSigner | Some _ => NewLondonSigner chainID end.

Definition signer_ChainID (s : Signer) : option Z :=
  match s with FrontierSigner | HomesteadSigner => None | EIP155Signer c _ | eip2930Signer c _ | londonSigner c _ => Some c end.
Definition signer_Equal (s s2 : Signer) : bool :=
  match s, s2 with
  | FrontierSigner, FrontierSigner | HomesteadSigner, HomesteadSigner => true
  | EIP155Signer c _, EIP155Signer x _ | eip2930Signer c _, eip2930Signer x _ | londonSigner c _, londonSigner x _ => x =? c
  | _, _ => false
  end.

(** ** What is signed *)

Definition sig_list (vs : list gval) : gval := VSlice false (map (λ v, VInterface (Some v)) vs).
Definition plain_fields (tx : TxData) (data : bytes) : list gval :=
  [VUint (tx_nonce tx); big_val (tx_gasPrice tx); VUint (tx_gas tx); to_val (tx_to tx); big_val (tx_value tx); VBytes data].

Section signers.
Context (Ecrecover : bytes → bytes → option bytes) (keccak256 : bytes → Z).

Definition frontier_Hash (tx : TxData) : Z := rlpHash keccak256 (sig_list (plain_fields tx (tx_data tx))).
(** The signer of EIP-155 leaves the meta data of a meta transaction out. *)
Definition signed_data (data : bytes) : bytes :=
  if IsMetaTransaction data then match DecodeMetaData data 0 with Ok md => Payload md | _ => data end else data.
Definition eip155_Hash (chainId : Z) (tx : TxData) : Z :=
  rlpHash keccak256 (sig_list (plain_fields tx (signed_data (tx_data tx)) ++ [big_val chainId; VUint 0; VUint 0])).
Definition eip2930_Hash (chainId : Z) (tx : TxData) : Z :=
  if txType tx =? LegacyTxType then
    rlpHash keccak256 (sig_list (plain_fields tx (tx_data tx) ++ [big_val chainId; VUint 0; VUint 0]))
  else if txType tx =? AccessListTxType then
    prefixedRlpHash keccak256 (txType tx)
      (sig_list ([big_val chainId] ++ plain_fields tx (tx_data tx) ++ [access_list_val (tx_accessList tx)]))
  else 0.
Definition london_Hash (chainId : Z) (tx : TxData) : Z :=
  if negb (txType tx =? DynamicFeeTxType) then eip2930_Hash chainId tx
  else prefixedRlpHash keccak256 (txType tx)
         (sig_list [big_val chainId; VUint (tx_nonce tx); big_val (tx_gasTipCap tx); big_val (tx_gasFeeCap tx); VUint (tx_gas tx);
                    to_val (tx_to tx); big_val (tx_value tx); VBytes (tx_data tx); access_list_val (tx_accessList tx)]).
Definition signer_Hash (s : Signer) (tx : TxData) : Z :=
  match s with
  | FrontierSigner | HomesteadSigner => frontier_Hash tx
  | EIP155Signer c _ => eip155_Hash c tx
  | eip2930Signer c _ => eip2930_Hash c tx
  | londonSigner c _ => london_Hash c tx
  end.

(** ** Senders *)

Definition isProtectedV (V : Z) : bool :=
  if big_BitLen V <=? 8 then
    let v := u64 (Z.abs V) in negb (v =? 27) && negb (v =? 28) && negb (v =? 1) && negb (v =? 0)
  else true.
Definition Protected (tx : TxData) : bool := match tx with TLegacy t => isProtectedV (l_V t) | _ => true end.

Definition recover (sighash R S Vb : Z) (homestead : bool) : res sign_err Z :=
  match recoverPlain Ecrecover keccak256 sighash R S Vb homestead with Some a => Ok a | None => Err ErrSignature end.

Definition frontier_Sender (homestead : bool) (tx : TxData) : res sign_err Z :=
  if negb (txType tx =? LegacyTxType) then Err ErrTxTypeNotSupported
  else let '(v, r, s) := RawSignatureValues tx in recover (frontier_Hash tx) r s v homestead.
Definition eip155_Sender (chainId chainIdMul : Z) (tx : TxData) : res sign_err Z :=
  if negb (txType tx =? LegacyTxType) then Err ErrTxTypeNotSupported
  else if negb (Protected tx) then frontier_Sender true tx
  else if negb (ChainId tx =? chainId) then Err ErrInvalidChainId
  else let '(v, r, s) := RawSignatureValues tx in recover (eip155_Hash chainId tx) r s (v - chainIdMul - 8) true.
Definition eip2930_Sender (chainId chainIdMul : Z) (tx : TxData) : res sign_err Z :=
  let '(v, r, s) := RawSignatureValues tx in
  let finish V := if negb (ChainId tx =? chainId) then Err ErrInvalidChainId else recover (eip2930_Hash chainId tx) r s V true in
  match tx with
  | TLegacy _ => if negb (Protected tx) then frontier_Sender true tx else finish (v - chainIdMul - 8)
  | TAccessList _ => finish (v + 27)
  | TDynamicFee _ => Err ErrTxTypeNotSupported
  end.
Definition london_Sender (chainId chainIdMul : Z) (tx : TxData) : res sign_err Z :=
  if negb (txType tx =? DynamicFeeTxType) then eip2930_Sender chainId chainIdMul tx
  else let '(v, r, s) := RawSignatureValues tx in
       if negb (ChainId tx =? chainId) then Err ErrInvalidChainId else recover (london_Hash chainId tx) r s (v + 27) true.
Definition signer_Sender (s : Signer) (tx : TxData) : res sign_err Z :=
  match s with
  | FrontierSigner => frontier_Sender false tx
  | HomesteadSigner => frontier_Sender true tx
  | EIP155Signer c m => eip155_Sender c m tx
  | eip2930Signer c m => eip2930_Sender c m tx
  | londonSigner c m => london_Sender c m tx
  end.

(** [Sender] with the cache of a transaction. *)
Definition sigCache : Type := option (Signer * Z).
Definition Sender (signer : Signer) (tx : TxData) (from : sigCache) : sigCache * res sign_err Z :=
  let derive := match signer_Sender signer tx with
                | Ok addr => (Some (signer, addr), Ok addr)
                | r => (from, r)
                end in
  match from with
  | Some (cached, addr) => if signer_Equal cached signer then (from, Ok addr) else derive
  | None => derive
  end.

(** ** Signatures *)

(** [R || S || V], [V] being 0 or 1; a wrong length is a panic. *)
Definition decodeSignature (sig : bytes) : res sign_err (Z * Z * Z) :=
  if negb (len sig =? 65) then Panic (raised "wrong size for signature")
  else Ok (be_val (take 32 sig), be_val (take 32 (drop 32 sig)), u8 (nth 64 sig 0 + 27)).
Definition eip155_SignatureValues (chainId chainIdMul : Z) (tx : TxData) (sig : bytes) : res sign_err (Z * Z * Z) :=
  if negb (txType tx =? LegacyTxType) then Err ErrTxTypeNotSupported
  else '(r, s, v) ← decodeSignature sig;
       Ok (r, s, if chainId =? 0 then v else u8 (nth 64 sig 0 + 35) + chainIdMul).
(** Typed contents may leave the chain id open, as zero. *)
Definition typed_SignatureValues (txChainID chainId : Z) (sig : bytes) : res sign_err (Z * Z * Z) :=
  if negb (txChainID =? 0) && negb (txChainID =? chainId) then Err ErrInvalidChainId
  else '(r, s, _) ← decodeSignature sig; Ok (r, s, nth 64 sig 0).
Definition eip2930_SignatureValues (chainId chainIdMul : Z) (tx : TxData) (sig : bytes) : res sign_err (Z * Z * Z) :=
  match tx with
  | TLegacy _ => eip155_SignatureValues chainId chainIdMul tx sig
  | TAccessList t => typed_SignatureValues (a_ChainID t) chainId sig
  | TDynamicFee _ => Err ErrTxTypeNotSupported
  end.
Definition signer_SignatureValues (s : Signer) (tx : TxData) (sig : bytes) : res sign_err (Z * Z * Z) :=
  match s with
  | FrontierSigner | HomesteadSigner => if negb (txType tx =? LegacyTxType) then Err ErrTxTypeNotSupported else decodeSignature sig
  | EIP155Signer c m => eip155_SignatureValues c m tx sig
  | eip2930Signer c m => eip2930_SignatureValues c m tx sig
  | londonSigner c m =>
      match tx with
      | TDynamicFee t => typed_SignatureValues (f_ChainID t) c sig
      | _ => eip2930_SignatureValues c m tx sig
      end
  end.
Definition WithSignature (signer : Signer) (sig : bytes) (tx : TxData) : res sign_err TxData :=
  '(r, s, v) ← signer_SignatureValues signer tx sig;
  Ok (setSignatureValues (signer_ChainID signer) v r s tx).

(** [SignTx]; [Sign] is [crypto.Sign] with a private key. *)
Definition SignTx (Sign : bytes → option bytes) (signer : Signer) (tx : TxData) : res sign_err TxData :=
  match Sign (be_bytes 32 (signer_Hash signer tx)) with
  | None => Err ErrSignature
  | Some sig => WithSignature signer sig tx
  end.

(** [sanityCheckSignature], for transactions that arrive as JSON: true if it accepts. *)
Definition sanityCheckSignature (v r s : Z) (maybeProtected : bool) : bool :=
  if isProtectedV v && negb maybeProtected then false
  else
    let plainV := if isProtectedV v then u8 (u64 (Z.abs v) - 35 - 2 * u64 (Z.abs (deriveChainId v)))
                  else if maybeProtected then u8 (u64 (Z.abs v) - 27)
                  else u8 (u64 (Z.abs v)) in
    ValidateSignatureValues plainV r s false.
End signers.
