(* ===== verification/TxSignOk.v ===== *)
(** * Signing and recovering senders (src/geth/core/types/transaction_signing.go)

    What a signer has signed it attributes to the key's address, no signer of another
    chain attributes it to anyone, and the cache of senders is never seen. *)
From S2P Require Import Prelude RlpBase RlpRaw RlpEncode RlpStream RlpStruct RlpCodes StateDb TxMeta TxTransition TxTypes TxSign.

(** ** The recovery value *)

Lemma BitLen_le n x : 0 ≤ x → 0 ≤ n → big_BitLen x ≤ n ↔ x < 2 ^ n.
Proof.
  intros Hx Hn. unfold big_BitLen. rewrite Z.abs_eq by done. destruct (Z.eqb_spec x 0) as [->|Hne]; [split; [intros _; apply Z.pow_pos_nonneg; lia|lia]|].
  pose proof (Z.log2_spec x ltac:(lia)) as [Hl1 Hl2]. pose proof (Z.log2_nonneg x). split.
  - intros Hle. apply Z.lt_le_trans with (2 ^ Z.succ (Z.log2 x)); [done|]. apply Z.pow_le_mono_r; lia.
  - intros Hlt. assert (2 ^ Z.log2 x < 2 ^ n) as Hp by lia. apply Z.pow_lt_mono_r_iff in Hp; lia.
Qed.
(** The value of a protected signature names its chain. *)
Lemma protected_V c v : 0 < c → v = 0 ∨ v = 1 → deriveChainId (35 + v + c * 2) = c ∧ isProtectedV (35 + v + c * 2) = true.
Proof.
  intros Hc Hv. set (x := 35 + v + c * 2). assert (0 ≤ x) as Hx by (unfold x; lia). split.
  - unfold deriveChainId. destruct (Z.leb_spec (big_BitLen x) 64) as [Hb|Hb].
    + apply BitLen_le in Hb; [|done..]. rewrite Z.abs_eq, (u64_small x) by (done || unfold is_u64; lia).
      rewrite (proj2 (Z.eqb_neq x 27)), (proj2 (Z.eqb_neq x 28)) by (unfold x; lia). cbn [orb]. rewrite u64_small by (unfold is_u64, x in *; lia).
      unfold x. replace (35 + v + c * 2 - 35) with (v + c * 2) by lia. rewrite Z.div_add by lia. by destruct Hv as [->| ->].
    + unfold x. replace (35 + v + c * 2 - 35) with (v + c * 2) by lia. rewrite Z.div_add by lia. by destruct Hv as [->| ->].
  - unfold isProtectedV. destruct (Z.leb_spec (big_BitLen x) 8) as [Hb|]; [|done]. apply BitLen_le in Hb; [|done..].
    rewrite Z.abs_eq, (u64_small x) by (done || unfold is_u64; lia).
    by rewrite (proj2 (Z.eqb_neq x 27)), (proj2 (Z.eqb_neq x 28)), (proj2 (Z.eqb_neq x 1)), (proj2 (Z.eqb_neq x 0)) by (unfold x; lia).
Qed.

(** ** Signing *)

(** A signer as the constructors build it, for a chain with a positive id. *)
Definition signer_ok (s : Signer) : Prop :=
  match s with FrontierSigner | HomesteadSigner => True | EIP155Signer c m | eip2930Signer c m | londonSigner c m => 0 < c ∧ m = c * 2 end.
(** The contents a signer signs: of a kind it knows, for its chain or for none yet. *)
Definition supports (s : Signer) (tx : TxData) : Prop :=
  match tx, s with
  | TLegacy _, _ => True
  | TAccessList t, (eip2930Signer c _ | londonSigner c _) => a_ChainID t = 0 ∨ a_ChainID t = c
  | TDynamicFee t, londonSigner c _ => f_ChainID t = 0 ∨ f_ChainID t = c
  | _, _ => False
  end.

Section signing.
Context (Ecrecover : bytes → bytes → option bytes) (keccak256 : bytes → Z).
(** [Sign] signs with the private key of [pub]: 65 bytes with the lower of the two
    possible values of [S], from which the public key can be recovered. *)
Context (Sign : bytes → option bytes) (pub : bytes).
Record signature_of (h sig : bytes) : Prop := {
  sig_bytes : bytes_ok sig ∧ len sig = 65;
  sig_R : 1 ≤ be_val (take 32 sig) < secp256k1N;
  sig_S : 1 ≤ be_val (take 32 (drop 32 sig)) ≤ secp256k1halfN;
  sig_V : nth 64 sig 0 = 0 ∨ nth 64 sig 0 = 1;
  sig_recovers : Ecrecover h sig = Some (4 :: pub)
}.
Context (Sign_ok : ∀ h sig, Sign h = Some sig → signature_of h sig).
Definition address_of_key : Z := keccak256 pub mod 2 ^ 160.

Lemma sig_split sig : bytes_ok sig → len sig = 65 →
  be_bytes 32 (be_val (take 32 sig)) ++ be_bytes 32 (be_val (take 32 (drop 32 sig))) ++ [nth 64 sig 0] = sig.
Proof.
  intros Hb Hl. assert (length sig = 65%nat) as Hlen by (unfold len in Hl; lia).
  assert (∀ k, (k ≤ 33)%nat → be_bytes 32 (be_val (take 32 (drop k sig))) = take 32 (drop k sig)) as Hpart.
  { intros k Hk. rewrite <-(be_bytes_be_val (take 32 (drop k sig))) at 2 by (by apply bytes_ok_take, bytes_ok_drop).
    by rewrite length_take, length_drop, Hlen, Nat.min_l by lia. }
  rewrite (Hpart 32%nat) by lia. specialize (Hpart 0%nat ltac:(lia)). rewrite drop_0 in Hpart. rewrite Hpart.
  assert ([nth 64 sig 0] = drop 64 sig) as ->.
  { destruct (drop 64 sig) as [|x [|y l]] eqn:Hd; pose proof (f_equal length Hd) as Hx; rewrite length_drop, Hlen in Hx; cbn in Hx; try lia.
    by rewrite <-(take_drop 64 sig), Hd, app_nth2, length_take, Hlen by (rewrite length_take, Hlen; lia). }
  rewrite <-(take_drop 32 sig) at 4. f_equal. rewrite <-(take_drop 32 (drop 32 sig)) at 2. f_equal. by rewrite drop_drop.
Qed.
Lemma recover_signed h sig homestead : signature_of (be_bytes 32 h) sig →
  recover Ecrecover keccak256 h (be_val (take 32 sig)) (be_val (take 32 (drop 32 sig))) (nth 64 sig 0 + 27) homestead = Ok address_of_key.
Proof.
  intros [[Hb Hl] Hr Hs Hv Hrec]. unfold recover, recoverPlain. pose proof (sig_split sig Hb Hl) as Hsplit.
  set (r := be_val (take 32 sig)) in *. set (s := be_val (take 32 (drop 32 sig))) in *. set (v := nth 64 sig 0) in *.
  assert (secp256k1halfN < secp256k1N) as Hn by done.
  rewrite (proj2 (Z.ltb_ge 8 _)) by (apply BitLen_le; lia). rewrite Z.abs_eq by lia.
  rewrite (u64_small (v + 27)) by (unfold is_u64; lia). replace (v + 27 - 27) with v by lia. rewrite (u8_small v) by (unfold is_u8; lia).
  unfold ValidateSignatureValues. rewrite (proj2 (Z.ltb_ge r 1)), (proj2 (Z.ltb_ge s 1)), (proj2 (Z.ltb_ge secp256k1halfN s)), andb_false_r by lia.
  rewrite (proj2 (Z.ltb_lt r _)), (proj2 (Z.ltb_lt s _)) by lia. cbn [orb andb].
  rewrite Hsplit, Hrec. by destruct Hv as [-> | ->].
Qed.

(** The hash that is signed does not depend on the signature, and typed contents name the
    chain of their signer. *)
Lemma Hash_setSignature s v r w tx : signer_Hash keccak256 s (setSignatureValues (signer_ChainID s) v r w tx) = signer_Hash keccak256 s tx.
Proof. by destruct s, tx. Qed.

(** The values that a signature is stored with. *)
Definition stored_V (s : Signer) (tx : TxData) (v : Z) : Z :=
  match tx, s with
  | TLegacy _, (FrontierSigner | HomesteadSigner) => v + 27
  | TLegacy _, (EIP155Signer c _ | eip2930Signer c _ | londonSigner c _) => 35 + v + c * 2
  | _, _ => v
  end.
Lemma WithSignature_ok s tx h sig : signer_ok s → supports s tx → signature_of h sig →
  WithSignature s sig tx = Ok (setSignatureValues (signer_ChainID s) (stored_V s tx (nth 64 sig 0)) (be_val (take 32 sig)) (be_val (take 32 (drop 32 sig))) tx).
Proof.
  intros Hs Hsup [[Hb Hl] _ _ Hv _]. unfold WithSignature.
  assert (decodeSignature sig = Ok (be_val (take 32 sig), be_val (take 32 (drop 32 sig)), nth 64 sig 0 + 27)) as Hd.
  { unfold decodeSignature. rewrite Hl. cbn [negb Z.eqb Pos.eqb]. rewrite u8_small; [done|unfold is_u8; lia]. }
  assert (∀ c m, 0 < c ∧ m = c * 2 → txType tx = LegacyTxType → eip155_SignatureValues c m tx sig =
    Ok (be_val (take 32 sig), be_val (take 32 (drop 32 sig)), 35 + nth 64 sig 0 + c * 2)) as Hleg.
  { intros c m [Hc ->] Ht. unfold eip155_SignatureValues. rewrite Ht, Hd. cbn. rewrite (proj2 (Z.eqb_neq c 0)) by lia.
    rewrite u8_small by (unfold is_u8; lia). do 3 f_equal. lia. }
  assert (∀ x c, x = 0 ∨ x = c → typed_SignatureValues x c sig = Ok (be_val (take 32 sig), be_val (take 32 (drop 32 sig)), nth 64 sig 0)) as Htyp.
  { intros x c [-> | ->]; unfold typed_SignatureValues; rewrite Hd; cbn; [done|]. by rewrite Z.eqb_refl, andb_false_r. }
  destruct s as [| |c m|c m|c m], tx as [t|t|t]; try done; cbn [signer_SignatureValues eip2930_SignatureValues signer_ok supports] in *;
    rewrite ?Hd, ?Hleg, ?Htyp by done; done.
Qed.

(** What the signer makes of the values it stored. *)
Lemma Sender_stored s tx v r w : signer_ok s → supports s tx → v = 0 ∨ v = 1 →
  signer_Sender Ecrecover keccak256 s (setSignatureValues (signer_ChainID s) (stored_V s tx v) r w tx) =
  recover Ecrecover keccak256 (signer_Hash keccak256 s tx) r w (v + 27) (match s with FrontierSigner => false | _ => true end).
Proof.
  intros Hs Hsup Hv. rewrite <-(Hash_setSignature s (stored_V s tx v) r w tx).
  destruct s as [| |c m|c m|c m], tx as [t|t|t]; try done; cbn [signer_ok supports] in *; destruct Hs as [Hc ->]; destruct (protected_V c v Hc Hv) as [Hid Hpr];
    cbn [signer_Sender]; unfold london_Sender, eip155_Sender, eip2930_Sender;
    cbn [signer_ChainID setSignatureValues stored_V RawSignatureValues txType Protected ChainId l_V l_R l_S a_V a_R a_S f_V f_R f_S a_ChainID f_ChainID default];
    rewrite ?Hpr, ?Hid, !Z.eqb_refl; cbn [negb]; try done; replace (35 + v + c * 2 - c * 2 - 8) with (v + 27) by lia; done.
Qed.

(** C20: Signing and recovering.  When a signer of some fork signs contents that it supports, the
    transaction it returns is attributed by the same signer to the address of the key, and
    neither its contents nor the hash that was signed have changed. *)
Theorem SignTx_Sender s tx sig : signer_ok s → supports s tx → Sign (be_bytes 32 (signer_Hash keccak256 s tx)) = Some sig →
  ∃ tx', SignTx keccak256 Sign s tx = Ok tx' ∧ signer_Sender Ecrecover keccak256 s tx' = Ok address_of_key ∧
    signer_Hash keccak256 s tx' = signer_Hash keccak256 s tx ∧ ∃ c v r w, tx' = setSignatureValues c v r w tx.
Proof.
  intros Hs Hsup Hsig. pose proof (Sign_ok _ _ Hsig) as Hok. unfold SignTx. rewrite Hsig, (WithSignature_ok s tx _ sig Hs Hsup Hok).
  eexists. split; [reflexivity|]. split; [|split; [apply Hash_setSignature|by eexists _, _, _, _]].
  rewrite Sender_stored by (done || apply (sig_V _ _ Hok)). by apply recover_signed.
Qed.

(** Signers from before EIP-155 take no protected value. *)
Lemma recover_protected h r w x homestead : 28 < x → recover Ecrecover keccak256 h r w x homestead = Err ErrSignature.
Proof.
  intros Hx. unfold recover, recoverPlain. destruct (Z.ltb_spec 8 (big_BitLen x)) as [|Hb]; [done|]. apply BitLen_le in Hb; [|lia..].
  rewrite Z.abs_eq, (u64_small x) by (unfold is_u64; lia). rewrite (u8_small (x - 27)) by (unfold is_u8; lia).
  unfold ValidateSignatureValues. rewrite (proj2 (Z.eqb_neq (x - 27) 0)), (proj2 (Z.eqb_neq (x - 27) 1)), andb_false_r by lia.
  by destruct ((r <? 1) || (w <? 1)), (homestead && (secp256k1halfN <? w)).
Qed.
(** A transaction that names another chain. *)
Lemma foreign_rejected s' tx : signer_ok s' → Protected tx = true → (∀ c, signer_ChainID s' = Some c → ChainId tx ≠ c) →
  (match tx with TLegacy t => 28 < l_V t | _ => True end) →
  ∃ e, signer_Sender Ecrecover keccak256 s' tx = Err e ∧ (e = ErrInvalidChainId ∨ e = ErrTxTypeNotSupported ∨ signer_ChainID s' = None).
Proof.
  intros Hs' Hp Hid Hlv. destruct s' as [| |c m|c m|c m]; cbn [signer_Sender signer_ChainID] in *;
    try (specialize (Hid c eq_refl); apply Z.eqb_neq in Hid).
  - unfold frontier_Sender. destruct tx as [t|t|t]; cbn; [rewrite recover_protected by done|..]; eauto.
  - unfold frontier_Sender. destruct tx as [t|t|t]; cbn; [rewrite recover_protected by done|..]; eauto.
  - unfold eip155_Sender. rewrite Hp, Hid. destruct tx; cbn; eauto.
  - unfold eip2930_Sender. rewrite Hp, Hid. destruct tx; cbn; eauto.
  - unfold london_Sender, eip2930_Sender. rewrite Hp, Hid. destruct tx; cbn; eauto.
Qed.

(** C18: Replay protection.  What a signer of EIP-155 or later has signed for its chain is
    attributed to no one by any signer of another chain, nor by the signers from before
    EIP-155. *)
Theorem replay_protected s s' tx tx' : signer_ok s → signer_ok s' → signer_ChainID s ≠ None → signer_ChainID s' ≠ signer_ChainID s → supports s tx →
  SignTx keccak256 Sign s tx = Ok tx' →
  ∃ e, signer_Sender Ecrecover keccak256 s' tx' = Err e ∧ (e = ErrInvalidChainId ∨ e = ErrTxTypeNotSupported ∨ signer_ChainID s' = None).
Proof.
  intros Hs Hs' Hn Hne Hsup. unfold SignTx. destruct (Sign _) as [sig|] eqn:Hsig; [|done]. pose proof (Sign_ok _ _ Hsig) as Hok.
  rewrite (WithSignature_ok s tx _ sig Hs Hsup Hok). intros [= <-]. pose proof (sig_V _ _ Hok) as Hv. generalize (be_val (take 32 sig)) (be_val (take 32 (drop 32 sig))).
  generalize dependent (nth 64 sig 0). intros v Hv r w.
  assert (∃ c, signer_ChainID s = Some c ∧ 0 < c) as (c & Hsc & Hc) by (destruct s as [| |c m|c m|c m]; try done; exists c; by destruct Hs).
  destruct (protected_V c v Hc Hv) as [Hid Hpr].
  apply foreign_rejected; [done|..]; rewrite Hsc; destruct s as [| |c0 m|c0 m|c0 m], tx as [t|t|t]; try done; injection Hsc as ->; cbn in *; try congruence; lia.
Qed.
End signing.

(** ** The cache of senders *)

Section cache.
Context (Ecrecover : bytes → bytes → option bytes) (keccak256 : bytes → Z).

(** The signers that a program can build: the second component is twice the chain id. *)
Definition built (s : Signer) : Prop := match s with EIP155Signer c m | eip2930Signer c m | londonSigner c m => m = c * 2 | _ => True end.
Lemma Equal_same s s' : built s → built s' → signer_Equal s s' = true → s = s'.
Proof. destruct s, s'; cbn; try done; intros -> -> ->%Z.eqb_eq; done. Qed.
Lemma MakeSigner_built c l b e h : built (MakeSigner c l b e h).
Proof. by destruct l, b, e, h. Qed.

(** The answers to a sequence of questions about one transaction. *)
Fixpoint Senders (signers : list Signer) (tx : TxData) (from : sigCache) : list (res sign_err Z) :=
  match signers with
  | [] => []
  | s :: signers => let '(from, r) := Sender Ecrecover keccak256 s tx from in r :: Senders signers tx from
  end.
Definition cache_ok (tx : TxData) (from : sigCache) : Prop :=
  ∀ s a, from = Some (s, a) → built s ∧ signer_Sender Ecrecover keccak256 s tx = Ok a.

Lemma Sender_ok s tx from : built s → cache_ok tx from →
  snd (Sender Ecrecover keccak256 s tx from) = signer_Sender Ecrecover keccak256 s tx ∧ cache_ok tx (fst (Sender Ecrecover keccak256 s tx from)).
Proof.
  intros Hs Hc. unfold Sender. set (derive := match signer_Sender _ _ s tx with Ok _ => _ | _ => _ end).
  assert (snd derive = signer_Sender Ecrecover keccak256 s tx ∧ cache_ok tx (fst derive)) as Hd.
  { unfold derive. destruct (signer_Sender Ecrecover keccak256 s tx) as [a|e| |] eqn:Ha; cbn; try done. split; [done|]. by intros s0 a0 [= <- <-]. }
  destruct from as [[cached a]|]; [|done]. destruct (signer_Equal cached s) eqn:He; [|done]. destruct (Hc cached a eq_refl) as [Hb Ha].
  apply Equal_same in He as ->; [|done..]. by split.
Qed.

(** The cache of senders.  However many signers ask for the sender of a transaction and in
    whichever order, each gets the answer it would derive itself, errors included: a sender
    cached for another chain or fork is never returned. *)
Theorem Senders_uncached signers tx : Forall built signers → Senders signers tx None = map (λ s, signer_Sender Ecrecover keccak256 s tx) signers.
Proof.
  intros Hs. assert (cache_ok tx None) as Hc by done. revert Hc. generalize (None : sigCache) as from.
  induction Hs as [|s signers Hb _ IH]; intros from Hc; [done|]. cbn [Senders map]. destruct (Sender_ok s tx from Hb Hc) as [Hr Hc'].
  destruct (Sender Ecrecover keccak256 s tx from) as [from' r]. cbn in Hr, Hc'. by rewrite Hr, IH.
Qed.
End cache.

(** ** Meta transactions across forks *)

Lemma rlp_list_inj a b : bytes_ok (rlp_list a) → is_u64 (len (rlp_list a)) → rlp_list a = rlp_list b → a = b.
Proof.
  intros Hok Hu He. pose proof (sync_Reset _ Hok Hu) as Hs.
  destruct (list_opened (s_Reset (rlp_list a) (len (rlp_list a))) a [] Hs eq_refl) as (s0 & Ho & _ & _ & Hr & _); [by rewrite app_nil_r|done|].
  destruct (list_opened (s_Reset (rlp_list a) (len (rlp_list a))) b [] Hs eq_refl) as (s1 & Ho1 & _ & _ & Hr1 & _); [by rewrite app_nil_r, <-He|done|].
  rewrite Ho in Ho1. injection Ho1 as <- _. rewrite Hr in Hr1. by rewrite !app_nil_r in Hr1.
Qed.
Lemma rlp_string_inj a b : bytes_ok a → bytes_ok b → is_u64 (len (rlp_string a)) → rlp_string a = rlp_string b → a = b.
Proof.
  intros Ha Hb Hu He. assert (is_u64 (len a)) as Hla. { pose proof (rlp_string_len a). pose proof (len_nonneg a). unfold is_u64 in *. lia. }
  pose proof (DecodeBytes_decodes decodeBytes (rlp_string a) a (rlp_string_ok a Ha Hla) Hu (decodes_bytes a Ha)) as Hd.
  pose proof (DecodeBytes_decodes decodeBytes (rlp_string a) b (rlp_string_ok a Ha Hla) Hu) as Hd'. rewrite He in Hd' at 1. specialize (Hd' (decodes_bytes b Hb)).
  congruence.
Qed.
Lemma concat_res_app l k : concat_res (l ++ k) = (a ← concat_res l; b ← concat_res k; Ok (a ++ b)).
Proof.
  induction l as [|m l IH]; [change (concat_res ([] ++ k)) with (concat_res k); by destruct (concat_res k)|].
  change (concat_res ((m :: l) ++ k)) with (b ← m; bs ← concat_res (l ++ k); Ok (b ++ bs)). change (concat_res (m :: l)) with (b ← m; bs ← concat_res l; Ok (b ++ bs)).
  rewrite IH. destruct m; try done. cbn [mbind res_bind]. destruct (concat_res l); try done. cbn [mbind res_bind]. destruct (concat_res k); try done.
  cbn [mbind res_bind]. by rewrite app_assoc.
Qed.
(** Where the data are in the list that is signed. *)
Lemma sig_list_bytes pre d suf b : enc_ref (sig_list (pre ++ [VBytes d] ++ suf)) = Ok b →
  ∃ p q, concat_res (map enc_ref pre) = Ok p ∧ concat_res (map enc_ref suf) = Ok q ∧ b = rlp_list (p ++ rlp_string d ++ q).
Proof.
  unfold sig_list. cbn [enc_ref]. rewrite map_map. cbn [enc_ref].
  rewrite !map_app, concat_res_app, concat_res_app. destruct (concat_res (map _ pre)) as [p|e| |]; cbn; try done.
  destruct (concat_res (map _ suf)) as [q|e| |]; cbn; try done. intros [= <-]. exists p, q. by rewrite app_nil_r.
Qed.

Definition eip155_preimage (c : Z) (tx : TxData) (d : bytes) : gval := sig_list (plain_fields tx d ++ [big_val c; VUint 0; VUint 0]).
(** The list that is signed can be encoded. *)
Definition encodable (v : gval) : Prop := gval_ok v ∧ ∃ b, enc_ref v = Ok b ∧ bytes_ok b ∧ is_u64 (len b).

(** C40: The sender of a meta transaction changes with the Berlin fork.  The signer of EIP-155
    hashes the payload of a meta transaction; the later signers, which take the same
    legacy transactions, hash the whole data.  The two strings that are hashed are always
    different, so that the hash that the sender has signed is verified after the fork only
    if the hash function collides on these two. *)
Theorem meta_hash_differs (keccak256 : bytes → Z) (c : Z) (tx : TxData) (md : MetaData) :
  txType tx = LegacyTxType → bytes_ok (tx_data tx) → IsMetaTransaction (tx_data tx) = true → DecodeMetaData (tx_data tx) 0 = Ok md →
  encodable (eip155_preimage c tx (tx_data tx)) → encodable (eip155_preimage c tx (Payload md)) →
  ∃ before after,
    EncodeToBytes (eip155_preimage c tx (Payload md)) = Ok before ∧ EncodeToBytes (eip155_preimage c tx (tx_data tx)) = Ok after ∧
    signer_Hash keccak256 (NewEIP155Signer (Some c)) tx = keccak256 before ∧
    signer_Hash keccak256 (NewEIP2930Signer (Some c)) tx = keccak256 after ∧ before ≠ after.
Proof.
  intros Ht Hd Him Hmd (Hv1 & b1 & He1 & Hb1 & Hu1) (Hv2 & b2 & He2 & Hb2 & Hu2). cbn [signer_Hash NewEIP155Signer NewEIP2930Signer default].
  unfold eip155_Hash, eip2930_Hash, signed_data, rlpHash. rewrite Ht, Him, Hmd, Z.eqb_refl.
  change (id c) with c. fold (eip155_preimage c tx (Payload md)). fold (eip155_preimage c tx (tx_data tx)).
  assert (∀ v b, gval_ok v → enc_ref v = Ok b → is_u64 (len b) → EncodeToBytes v = Ok b) as Henc.
  { intros v b Hv He Hu. rewrite EncodeToBytes_enc_ref; [done|done|]. intros b' Hb'. rewrite He in Hb'. by injection Hb' as <-. }
  rewrite (Henc _ b1 Hv1 He1 Hu1), (Henc _ b2 Hv2 He2 Hu2). exists b2, b1. do 4 (split; [done|]). intros ->.
  set (pre := [VUint (tx_nonce tx); big_val (tx_gasPrice tx); VUint (tx_gas tx); to_val (tx_to tx); big_val (tx_value tx)]).
  destruct (sig_list_bytes pre (tx_data tx) [big_val c; VUint 0; VUint 0] b1 He1) as (p & q & Hp & Hq & ->).
  destruct (sig_list_bytes pre (Payload md) [big_val c; VUint 0; VUint 0] _ He2) as (p' & q' & Hp' & Hq' & Hb').
  rewrite Hp in Hp'. rewrite Hq in Hq'. injection Hp' as <-. injection Hq' as <-.
  apply rlp_list_inj in Hb'; [|done..]. apply app_inv_head, app_inv_tail in Hb'.
  pose proof (DecodeMetaData_payload (tx_data tx) 0 Hd) as Hpl. rewrite Hmd in Hpl. destruct Hpl as (Hpb & Hpl & _).
  apply rlp_string_inj in Hb'; [rewrite Hb' in Hpl; lia|done..|].
  unfold rlp_list in Hu1. apply is_u64_app_r in Hu1. by apply is_u64_app_r, is_u64_app_l in Hu1.
Qed.

(** ** A small curve *)

(** The signature of a hash contains it; only this signature recovers the key. *)
Definition toy_pub : bytes := [9; 9].
Definition toy_Sign (h : bytes) : option bytes := Some (be_bytes 32 (1 + be_val h mod 2 ^ 200) ++ be_bytes 32 1 ++ [1]).
Definition toy_Ecrecover (h sig : bytes) : option bytes := if bool_decide (toy_Sign h = Some sig) then Some (4 :: toy_pub) else None.
Definition toy_keccak (b : bytes) : Z := be_val b mod 2 ^ 256.
Lemma toy_Sign_ok h sig : toy_Sign h = Some sig → signature_of toy_Ecrecover toy_pub h sig.
Proof.
  intros Hs. assert (toy_Ecrecover h sig = Some (4 :: toy_pub)) as Hrec by (unfold toy_Ecrecover; by rewrite bool_decide_eq_true_2).
  unfold toy_Sign in Hs. set (x := be_val h mod 2 ^ 200) in *. assert (0 ≤ x < 2 ^ 200) as Hx by (apply Z.mod_pos_bound; lia).
  set (w := be_bytes 32 (1 + x)) in *. assert (length w = 32%nat) as Hl by apply length_be_bytes. assert (bytes_ok w) as Hw by apply be_bytes_ok.
  assert (be_val w = 1 + x) as Hv.
  { unfold w. rewrite be_val_be_bytes. apply Z.mod_small. assert (2 ^ 200 < 2 ^ (8 * Z.of_nat 32)) by (by apply Z.pow_lt_mono_r). lia. }
  assert (2 ^ 200 < secp256k1N) as HN by done. clearbody w. assert (sig = w ++ be_bytes 32 1 ++ [1]) as -> by congruence. clear Hs.
  split; [|..|done].
  - split; [apply bytes_ok_app; split; [done|repeat constructor; done]|]. rewrite len_app. unfold len. by rewrite Hl.
  - rewrite take_app_length' by done. rewrite Hv. lia.
  - rewrite drop_app_length' by done. by vm_compute.
  - right. rewrite app_nth2 by (rewrite Hl; lia). by rewrite Hl.
Qed.
Definition toy_transfer : TxData := TDynamicFee (mk_DynamicFeeTx 0 3 2 30 21000 (Some 5) 1000 [] [] 0 0 0).

Lemma SignTx_Sender_witness : ∃ tx', SignTx toy_keccak toy_Sign (NewLondonSigner (Some 7)) toy_transfer = Ok tx' ∧
  signer_Sender toy_Ecrecover toy_keccak (NewLondonSigner (Some 7)) tx' = Ok (address_of_key toy_keccak toy_pub).
Proof.
  assert (signer_ok (NewLondonSigner (Some 7))) as Hs by (split; reflexivity).
  assert (supports (NewLondonSigner (Some 7)) toy_transfer) as Hsup by (left; reflexivity).
  destruct (SignTx_Sender toy_Ecrecover toy_keccak toy_Sign toy_pub toy_Sign_ok (NewLondonSigner (Some 7)) toy_transfer _ Hs Hsup eq_refl) as (tx' & Htx & Hse & _).
  exists tx'. split; [exact Htx|exact Hse].
Defined.
Lemma replay_protected_witness : ∃ tx' e, SignTx toy_keccak toy_Sign (NewLondonSigner (Some 7)) toy_transfer = Ok tx' ∧
  signer_Sender toy_Ecrecover toy_keccak (NewLondonSigner (Some 8)) tx' = Err e.
Proof.
  assert (∀ c, 0 < c → signer_ok (NewLondonSigner (Some c))) as Hs by (intros c Hc; split; [exact Hc|reflexivity]).
  assert (supports (NewLondonSigner (Some 7)) toy_transfer) as Hsup by (left; reflexivity).
  destruct (SignTx toy_keccak toy_Sign (NewLondonSigner (Some 7)) toy_transfer) as [tx'| | |] eqn:Htx; [|discriminate..].
  destruct (replay_protected toy_Ecrecover toy_keccak toy_Sign toy_pub toy_Sign_ok (NewLondonSigner (Some 7)) (NewLondonSigner (Some 8)) toy_transfer tx'
    (Hs 7 eq_refl) (Hs 8 eq_refl) ltac:(discriminate) ltac:(discriminate) Hsup Htx) as (e & He & _).
  exists tx', e. split; [reflexivity|exact He].
Defined.
Lemma Senders_uncached_witness : ∃ tx', SignTx toy_keccak toy_Sign (NewLondonSigner (Some 7)) toy_transfer = Ok tx' ∧
  Senders toy_Ecrecover toy_keccak [NewLondonSigner (Some 7); NewLondonSigner (Some 8); HomesteadSigner] tx' None =
  [Ok (address_of_key toy_keccak toy_pub); Err ErrInvalidChainId; Err ErrTxTypeNotSupported].
Proof.
  destruct (SignTx toy_keccak toy_Sign (NewLondonSigner (Some 7)) toy_transfer) as [tx'| | |] eqn:Htx; [|discriminate..].
  exists tx'. split; [reflexivity|]. rewrite (Senders_uncached toy_Ecrecover toy_keccak); [|repeat constructor].
  vm_compute in Htx. injection Htx as <-. vm_compute. reflexivity.
Defined.

(** A meta transaction whose payload is one byte. *)
Definition toy_meta : TxData := TLegacy (mk_LegacyTx 0 9 30000 (Some 5) 0 (MetaPrefix ++ [0xC6; 9; 100; 1; 1; 1; 7]) 0 0 0).
Lemma meta_hash_differs_witness : ∃ before after,
  signer_Hash toy_keccak (NewEIP155Signer (Some 7)) toy_meta = toy_keccak before ∧
  signer_Hash toy_keccak (NewEIP2930Signer (Some 7)) toy_meta = toy_keccak after ∧ before ≠ after.
Proof.
  assert (∀ d, string_ok d → (∃ b, enc_ref (eip155_preimage 7 toy_meta d) = Ok b ∧ bytes_ok b ∧ is_u64 (len b)) → encodable (eip155_preimage 7 toy_meta d)) as Henc.
  { intros d Hd Hb. split; [|exact Hb]. assert (string_ok (address_bytes 5)) as Ha by (split; [apply be_bytes_ok|done]).
    cbn. split_and!; exact Hd || exact Ha || done. }
  destruct (meta_hash_differs toy_keccak 7 toy_meta (mk_MetaData 9 100 1 1 1 [7])) as (b2 & b1 & _ & _ & H2 & H1 & Hne); [reflexivity| |reflexivity|reflexivity|apply Henc..|].
  - repeat constructor; done.
  - split; [repeat constructor; done|done].
  - eexists. split; [reflexivity|]. split; [repeat constructor; done|done].
  - split; [repeat constructor; done|done].
  - eexists. split; [reflexivity|]. split; [repeat constructor; done|done].
  - exists b2, b1. split; [exact H2|]. split; [exact H1|exact Hne].
Defined.
