(* ===== verification/CongressSnapshot.v ===== *)
(** * The validators of Congress (src/geth/consensus/congress/snapshot.go, congress.go, core/types/block.go)

    The proof-of-authority engine keeps, for every block, the set of validators
    that may sign the next one and who signed recently.  Applying headers to a
    snapshot checks each signer and moves both sets; at the first block of an epoch
    the validators are read from the extra data of the header.

    The recovery of public keys (libsecp256k1), the hash and the cache of signers
    (golang-lru) are parameters. *)
From stdpp Require Import gmap sorting.
From S2P Require Import Prelude RlpBase RlpRaw RlpEncode StateDb TxMeta.

(** ** Headers *)

(** [types.Header]; hashes, addresses, the bloom and the nonce are the integers of their bytes. *)
Record Header := mk_Header {
  ParentHash : Z; UncleHash : Z; h_Coinbase : Z; h_Root : Z; TxHash : Z; ReceiptHash : Z; h_Bloom : Z;
  h_Difficulty : option Z; h_Number : option Z; h_GasLimit : Z; h_GasUsed : Z; h_Time : Z; Extra : bytes;
  MixDigest : Z; h_Nonce : Z; h_BaseFee : option Z
}.

Inductive cong_err :=
| errUnknownBlock | errMissingVanity | errMissingSignature | errExtraValidators | errInvalidExtraValidators
| errInvalidMixDigest | errInvalidUncleHash | errInvalidDifficulty | errWrongDifficulty | ErrInvalidTimestamp
| errInvalidVotingChain | errUnauthorizedValidator | errRecentlySigned | errInvalidCoinbase
| errEcrecover | ErrFutureBlock | ErrUnknownAncestor | errGasLimit | errGasUsed | errBaseFee | errForkHash | errDatabase | errCall | errSign.

(** [header.Number.Uint64()]: a nil number is a nil dereference, the sign is dropped. *)
Definition num (h : Header) : res cong_err Z :=
  match h_Number h with Some n => Ok (u64 (Z.abs n)) | None => Panic runtime_error end.

Definition extraVanity : Z := 32.
Definition extraSeal : Z := 65.
Definition AddressLength : Z := 20.
Definition diffInTurn : Z := 2.
Definition diffNoTurn : Z := 1.

(** The fields in order, before the extra data and after it. *)
Definition header_front (h : Header) : list gval :=
  [VByteArray (hash_bytes (ParentHash h)); VByteArray (hash_bytes (UncleHash h)); VByteArray (address_bytes (h_Coinbase h));
   VByteArray (hash_bytes (h_Root h)); VByteArray (hash_bytes (TxHash h)); VByteArray (hash_bytes (ReceiptHash h));
   VByteArray (be_bytes 256 (h_Bloom h)); VBigIntPtr (h_Difficulty h); VBigIntPtr (h_Number h);
   VUint (h_GasLimit h); VUint (h_GasUsed h); VUint (h_Time h)].
Definition header_back (h : Header) : list gval := [VByteArray (hash_bytes (MixDigest h)); VByteArray (be_bytes 8 (h_Nonce h))].
Definition header_gval (h : Header) : gval :=
  VStruct (map (λ v, (false, false, v)) (header_front h ++ [VBytes (Extra h)] ++ header_back h) ++
           [(true, bool_decide (h_BaseFee h = None), VBigIntPtr (h_BaseFee h))]).

(** The addresses in the extra data between the vanity and the seal. *)
Definition extra_validators (extra : bytes) : res cong_err (list Z) :=
  let n := Z.quot (len extra - extraVanity - extraSeal) AddressLength in
  if n <? 0 then Panic runtime_error else
  Ok (map (λ i, be_val (take 20 (drop (32 + i * 20) extra))) (seq 0 (Z.to_nat n))).

(** ** Caches of golang-lru

    A cache holds some of the pairs that were added; reading may reorder it and
    adding may evict. *)
Class Cache (K V C : Type) := {
  cache_Get : K → C → C * option V;
  cache_Add : K → V → C → C;
  cache_has : C → K → V → Prop
}.
Class CacheLaws (K V C : Type) `{!Cache K V C} := {
  cache_Get_has k c c' v : cache_Get k c = (c', Some v) → cache_has c k v;
  cache_Get_keeps k c k' v' : cache_has (fst (cache_Get k c)) k' v' → cache_has c k' v';
  cache_Add_has k v c k' v' : cache_has (cache_Add k v c) k' v' → (k' = k ∧ v' = v) ∨ cache_has c k' v'
}.

Record CongressConfig := mk_CongressConfig {
  Period : Z; Epoch : Z; EnableDevVerification : bool; FeeReceiver : option Z
}.

Record Snapshot := mk_Snapshot {
  s_Number : Z; s_Hash : Z; Validators : gset Z; Recents : gmap Z Z
}.

Section snapshot.
Context (Ecrecover : bytes → bytes → option bytes) (keccak256 : bytes → Z).
Context {C : Type} `{!Cache Z Z C} (config : CongressConfig).
Abbreviation M := (st C cong_err).
Implicit Types (h : Header) (s : Snapshot).

(** [header.Hash()]. *)
Definition header_Hash h : Z := rlpHash keccak256 (header_gval h).

(** [CongressRLP]: the encoding of the header without its seal. *)
Definition encodeSigHeader h : res cong_err bytes :=
  extra ← go_slice (Extra h) 0 (len (Extra h) - extraSeal);
  match EncodeToBytes (VSlice false (map (λ v, VInterface (Some v)) (header_front h ++ [VBytes extra] ++ header_back h))) with
  | Ok b => Ok b
  | _ => Panic runtime_error
  end.
Definition SealHash h : res cong_err Z := b ← encodeSigHeader h; Ok (keccak256 b).

Definition ecrecover h : M Z :=
  let hash := header_Hash h in
  c ← st_get;
  let '(c, known) := cache_Get hash c in
  st_put c ≫= λ _,
  match known with
  | Some address => mret address
  | None =>
      if len (Extra h) <? extraSeal then st_err errMissingSignature else
      signature ← st_lift (go_slice (Extra h) (len (Extra h) - extraSeal) (len (Extra h)));
      sighash ← st_lift (SealHash h);
      match Ecrecover (hash_bytes sighash) signature with
      | None => st_err errEcrecover
      | Some [] => st_panic runtime_error
      | Some (_ :: pub) =>
          let validator := keccak256 pub mod 2 ^ 160 in
          st_modify (cache_Add hash validator) ≫= λ _, mret validator
      end
  end.

Definition newSnapshot (number hash : Z) (validators : list Z) : Snapshot :=
  mk_Snapshot number hash (list_to_set validators) ∅.

(** [len(snap.Validators)/2 + 1]. *)
Definition limit_of (vals : gset Z) : Z := Z.of_nat (size vals) / 2 + 1.
Definition signed_recently (recents : gmap Z Z) (v : Z) : bool := existsb (λ p, snd p =? v) (map_to_list recents).

(** The loop that forgets signers when the validators get fewer. *)
Fixpoint forget (recents : gmap Z Z) (number limit : Z) (i n : nat) : gmap Z Z :=
  match n with
  | O => recents
  | S n => forget (delete (u64 (number - limit - Z.of_nat i)) recents) number limit (S i) n
  end.

(** One header of the loop of [apply]. *)
Definition apply_header (vr : gset Z * gmap Z Z) h : M (gset Z * gmap Z Z) :=
  let '(vals, recents) := vr in
  number ← st_lift (num h);
  let recents := if limit_of vals <=? number then delete (number - limit_of vals) recents else recents in
  validator ← ecrecover h;
  if negb (bool_decide (validator ∈ vals)) then st_err errUnauthorizedValidator
  else if signed_recently recents validator then st_err errRecentlySigned
  else
    let recents := <[number := validator]> recents in
    if negb (0 <? number) then mret (vals, recents)
    else if Epoch config =? 0 then st_panic runtime_error
    else if negb (number mod Epoch config =? 0) then mret (vals, recents)
    else
      vs ← st_lift (extra_validators (Extra h));
      let newValidators : gset Z := list_to_set vs in
      mret (newValidators,
            forget recents number (limit_of newValidators) 0
              (Z.to_nat (Z.of_nat (size vals) / 2 - Z.of_nat (size newValidators) / 2))).
Fixpoint apply_loop (vr : gset Z * gmap Z Z) (hs : list Header) : M (gset Z * gmap Z Z) :=
  match hs with [] => mret vr | h :: hs => vr ← apply_header vr h; apply_loop vr hs end.

(** The sanity check that the numbers follow each other. *)
Fixpoint contiguous (hs : list Header) : res cong_err unit :=
  match hs with
  | h :: ((h' :: _) as hs') =>
      n' ← num h'; n ← num h;
      if negb (n' =? u64 (n + 1)) then Err errInvalidVotingChain else contiguous hs'
  | _ => Ok tt
  end.

Definition apply s (headers : list Header) : M Snapshot :=
  match headers with
  | [] => mret s
  | h0 :: hs =>
      _ ← st_lift (contiguous headers);
      n ← st_lift (num h0);
      if negb (n =? u64 (s_Number s + 1)) then st_err errInvalidVotingChain else
      '(vals, recents) ← apply_loop (Validators s, Recents s) headers;
      mret (mk_Snapshot (u64 (s_Number s + len headers)) (header_Hash (List.last hs h0)) vals recents)
  end.

(** ** Turns *)

Definition validators s : list Z := merge_sort Z.le (elements (Validators s)).

Fixpoint offset_of (v : Z) (l : list Z) : Z :=
  match l with [] => 0 | w :: l => if w =? v then 0 else 1 + offset_of v l end.
Definition inturn s (number validator : Z) : res cong_err bool :=
  let vs := validators s in
  let offset := offset_of validator vs in
  if len vs =? 0 then Panic runtime_error else Ok (number mod len vs =? offset).

Definition calcDifficulty s (validator : Z) : res cong_err Z :=
  b ← inturn s (u64 (s_Number s + 1)) validator; Ok (if (b : bool) then diffInTurn else diffNoTurn).
End snapshot.

(** The check of two headers and more. *)
Lemma contiguous_cons h0 h1 hs : contiguous (h0 :: h1 :: hs) =
  (n' ← num h1; n ← num h0; if negb (n' =? u64 (n + 1)) then Err errInvalidVotingChain else contiguous (h1 :: hs)).
Proof. reflexivity. Qed.
