(* ===== verification/CongressSafe.v ===== *)
(** * Who may sign the next block (src/geth/consensus/congress/snapshot.go)

    The recent signers of a snapshot are always those of a window of less than
    half of the validators' number plus one blocks, nobody twice.  So at least half
    of the validators can sign the next block, whatever happened before, also when an
    epoch changes the number of validators. *)
From stdpp Require Import gmap sorting.
From S2P Require Import Prelude RlpBase RlpRaw RlpEncode StateDb TxMeta CongressSnapshot.

Section safe.
Context (Ecrecover : bytes → bytes → option bytes) (keccak256 : bytes → Z).
Context {C : Type} `{!Cache Z Z C} (config : CongressConfig).
Implicit Types (h : Header) (s : Snapshot) (vals : gset Z) (recents : gmap Z Z).
Abbreviation ecrecover := (ecrecover Ecrecover keccak256).
Abbreviation apply_header := (apply_header Ecrecover keccak256 config).
Abbreviation apply_loop := (apply_loop Ecrecover keccak256 config).
Abbreviation apply := (apply Ecrecover keccak256 config).

(** ** The window of recent signers *)

(** After block [n]: signers of the last [limit_of vals] blocks at most, nobody twice. *)
Record window_ok (n : Z) (vr : gset Z * gmap Z Z) : Prop := {
  w_number : is_u64 n;
  w_size : Z.of_nat (size (fst vr)) < 2 ^ 62;
  w_window k v : snd vr !! k = Some v → 0 ≤ k ∧ n - limit_of (fst vr) < k ≤ n;
  w_once k k' v : snd vr !! k = Some v → snd vr !! k' = Some v → k = k'
}.
Definition snap_ok s : Prop := window_ok (s_Number s) (Validators s, Recents s).

(** The recent signers that count for block [n]. *)
Definition shifted vals recents (n : Z) : gmap Z Z :=
  if limit_of vals <=? n then delete (n - limit_of vals) recents else recents.
(** Who may sign the block after the snapshot. *)
Definition eligible s : gset Z :=
  filter (λ v, signed_recently (shifted (Validators s) (Recents s) (s_Number s + 1)) v = false) (Validators s).

Lemma signed_recently_spec recents v : signed_recently recents v = true ↔ ∃ k, recents !! k = Some v.
Proof.
  unfold signed_recently. rewrite existsb_exists. split.
  - intros ([k w] & Hin & Hv). apply Z.eqb_eq in Hv. cbn in Hv. subst w. exists k. apply elem_of_map_to_list. by apply list_elem_of_In.
  - intros [k Hk]. exists (k, v). split; [apply list_elem_of_In; by apply elem_of_map_to_list|apply Z.eqb_refl].
Qed.
Lemma signed_recently_false recents v : signed_recently recents v = false ↔ ∀ k, recents !! k ≠ Some v.
Proof.
  rewrite <-not_true_iff_false, signed_recently_spec. split; [intros Hn k Hk; apply Hn; by exists k|intros Hn [k Hk]; by apply (Hn k)].
Qed.

Lemma limit_pos vals : 1 ≤ limit_of vals.
Proof. unfold limit_of. pose proof (Z.div_pos (Z.of_nat (size vals)) 2). lia. Qed.

Lemma shifted_lookup vals recents n k v : shifted vals recents n !! k = Some v → recents !! k = Some v.
Proof. unfold shifted. destruct (_ <=? _); [|done]. intros [_ Hk]%lookup_delete_Some. done. Qed.
Lemma shifted_window n vals recents k v : window_ok n (vals, recents) →
  shifted vals recents (n + 1) !! k = Some v → 0 ≤ k ∧ n + 1 - limit_of vals < k ≤ n.
Proof.
  intros Hw Hk. pose proof (w_window _ _ Hw k v (shifted_lookup _ _ _ _ _ Hk)) as [Hk0 [Hlo Hhi]]. cbn in Hlo.
  split; [done|]. split; [|done]. unfold shifted in Hk. destruct (Z.leb_spec (limit_of vals) (n + 1)) as [Hle|Hgt]; [|lia].
  apply lookup_delete_Some in Hk as [Hne _]. lia.
Qed.

(** The counters of [forget] that wrap around are those of no block. *)
Lemma forget_lookup recents number limit i n k v :
  forget recents number limit i n !! k = Some v ↔
  recents !! k = Some v ∧ ∀ j, (i ≤ j < i + n)%nat → k ≠ u64 (number - limit - Z.of_nat j).
Proof.
  revert recents i. induction n as [|n IH]; intros recents i; cbn [forget].
  - split; [intros Hk; split; [done|]; intros j ?; lia|by intros [Hk _]].
  - rewrite IH, lookup_delete_Some. split.
    + intros [[Hne Hk] Hj]. split; [done|]. intros j Hji. destruct (decide (j = i)) as [->|]; [done|]. apply Hj. lia.
    + intros [Hk Hj]. split; [split; [|done]|]; [intros <-; apply (Hj i); [lia|done]|]. intros j Hji. apply Hj. lia.
Qed.

(** Changing the validators after block [n]. *)
Lemma forget_window n vals vals' recents : window_ok n (vals, recents) → Z.of_nat (size vals') < 2 ^ 62 →
  window_ok n (vals', forget recents n (limit_of vals') 0 (Z.to_nat (Z.of_nat (size vals) / 2 - Z.of_nat (size vals') / 2))).
Proof.
  intros [Hn Hs Hw Ho] Hs'. cbn [fst snd] in *. split; cbn [fst snd]; [done|done| |].
  - intros k v [Hk Hd]%forget_lookup. destruct (Hw k v Hk) as [Hk0 [Hlo Hhi]].
    split; [done|]. split; [|done]. apply Z.nle_gt. intros Hle. unfold limit_of in *.
    apply (Hd (Z.to_nat (n - (Z.of_nat (size vals') / 2 + 1) - k))); [lia|].
    rewrite Z2Nat.id by lia. rewrite u64_small by (unfold is_u64 in *; lia). lia.
  - intros k k' v [Hk _]%forget_lookup [Hk' _]%forget_lookup. by apply (Ho k k' v).
Qed.

(** The signer of block [n + 1] joins the window. *)
Lemma sign_window n vals recents v : window_ok n (vals, recents) → n + 1 < 2 ^ 64 →
  signed_recently (shifted vals recents (n + 1)) v = false →
  window_ok (n + 1) (vals, <[n + 1 := v]> (shifted vals recents (n + 1))).
Proof.
  intros Hw Hn Hv. pose proof (w_number _ _ Hw) as [Hn0 _]. pose proof (limit_pos vals). rewrite signed_recently_false in Hv.
  split; cbn [fst snd]; [unfold is_u64; lia|apply Hw| |].
  - intros k w. destruct (decide (k = n + 1)) as [->|Hne]; [lia|]. rewrite lookup_insert_ne by done. intros Hk.
    pose proof (shifted_window n vals recents k w Hw Hk). lia.
  - intros k k' w. rewrite !lookup_insert. destruct (decide (n + 1 = k)) as [<-|], (decide (n + 1 = k')) as [<-|]; try done.
    + intros [= <-] Hk'. by destruct (Hv k').
    + intros Hk [= <-]. by destruct (Hv k).
    + intros Hk Hk'. apply (w_once _ _ Hw k k' w); by apply (shifted_lookup vals recents (n + 1)).
Qed.

(** ** Applying headers *)

Lemma extra_validators_len extra vs : extra_validators extra = Ok vs → len vs ≤ len extra.
Proof.
  unfold extra_validators, extraVanity, extraSeal, AddressLength. destruct (Z.ltb_spec (Z.quot (len extra - 32 - 65) 20) 0); [done|].
  intros [= <-]. unfold len at 1. rewrite length_map, length_seq, Z2Nat.id by done.
  pose proof (len_nonneg extra). destruct (Z.le_gt_cases 0 (len extra - 97)).
  - transitivity (len extra - 97); [|lia]. replace (len extra - 32 - 65) with (len extra - 97) by lia. apply Z.quot_le_upper_bound; lia.
  - assert (Z.quot (len extra - 32 - 65) 20 ≤ 0) by (apply Z.quot_le_upper_bound; lia). lia.
Qed.
Lemma list_to_set_size (l : list Z) : Z.of_nat (size (list_to_set l : gset Z)) ≤ len l.
Proof.
  induction l as [|x l IH]; [done|]. rewrite list_to_set_cons, len_cons.
  pose proof (size_union_alt ({[x]} : gset Z) (list_to_set l)) as Hs. rewrite size_singleton in Hs.
  pose proof (subseteq_size (list_to_set l ∖ {[x]}) (list_to_set l : gset Z) ltac:(set_solver)). lia.
Qed.

(** The signer of a header is one of the validators, and not a recent one. *)
Lemma apply_header_spec n vals recents h c c' vr : window_ok n (vals, recents) → n + 1 < 2 ^ 64 →
  num h = Ok (n + 1) → len (Extra h) < 2 ^ 62 → apply_header (vals, recents) h c = (c', Ok vr) →
  window_ok (n + 1) vr ∧
  ∃ v, ecrecover h c = (c', Ok v) ∧ v ∈ vals ∧ signed_recently (shifted vals recents (n + 1)) v = false ∧ snd vr !! (n + 1) = Some v.
Proof.
  intros Hw Hn Hnum Hlen. unfold CongressSnapshot.apply_header. unfold mbind at 1, st_bind at 1, st_lift at 1. rewrite Hnum.
  fold (shifted vals recents (n + 1)). unfold mbind at 1, st_bind at 1.
  destruct (ecrecover h c) as [c1 [v|e| |]] eqn:Hrec; try done.
  destruct (bool_decide (v ∈ vals)) eqn:Hv; [|done]. apply bool_decide_eq_true in Hv. cbn [negb].
  destruct (signed_recently (shifted vals recents (n + 1)) v) eqn:Hsr; [done|].
  pose proof (sign_window n vals recents v Hw Hn Hsr) as Hw1. set (r1 := <[n + 1 := v]> _) in *.
  assert (r1 !! (n + 1) = Some v) as Hr1 by apply lookup_insert_eq.
  destruct (0 <? n + 1); cbn [negb]; [|by intros [= <- <-]; eauto 10].
  destruct (Epoch config =? 0); [done|]. destruct (_ =? 0); cbn [negb]; [|by intros [= <- <-]; eauto 10].
  unfold mbind at 1, st_bind at 1, st_lift at 1. destruct (extra_validators (Extra h)) as [vs| | |] eqn:Hvs; try done.
  intros [= <- <-]. split.
  - apply forget_window; [done|]. pose proof (list_to_set_size vs). pose proof (extra_validators_len _ _ Hvs). lia.
  - exists v. split_and!; try done. apply forget_lookup. split; [done|]. intros j Hj. cbn [snd] in *.
    pose proof (w_number _ _ Hw) as [Hn0 _]. pose proof (w_size _ _ Hw) as Hsz. cbn [fst] in Hsz.
    pose proof (list_to_set_size vs). pose proof (extra_validators_len _ _ Hvs). unfold limit_of, u64.
    set (a := Z.of_nat (size (list_to_set vs : gset Z))) in *. set (b := Z.of_nat (size vals)) in *.
    assert (0 ≤ a / 2 ≤ a ∧ b / 2 ≤ b) by (Z.to_euclidean_division_equations; lia). intros Heq.
    rewrite Z.mod_eq in Heq by lia. set (q := (n + 1 - (a / 2 + 1) - Z.of_nat j) / 2 ^ 64) in *. clearbody q. lia.
Qed.

(** A header of addressable size that names a validator if it begins an epoch. *)
Definition proper h : Prop :=
  len (Extra h) < 2 ^ 62 ∧ ∀ n, num h = Ok n → n mod Epoch config = 0 → extraVanity + extraSeal + AddressLength ≤ len (Extra h).

Lemma proper_validators extra : extraVanity + extraSeal + AddressLength ≤ len extra →
  ∃ vs, extra_validators extra = Ok vs ∧ (list_to_set vs : gset Z) ≠ ∅.
Proof.
  unfold extra_validators, extraVanity, extraSeal, AddressLength. intros Hl.
  assert (1 ≤ Z.quot (len extra - 32 - 65) 20) as Hq by (apply Z.quot_le_lower_bound; lia).
  rewrite (proj2 (Z.ltb_ge _ _)) by lia. eexists. split; [done|].
  destruct (Z.to_nat (Z.quot (len extra - 32 - 65) 20)) eqn:Hn; [lia|]. cbn. set_solver.
Qed.

(** Applying one header: it depends on its signer alone. *)
Lemma apply_header_total n vals recents h c c' v : num h = Ok n → 0 < n → Epoch config ≠ 0 → proper h → ecrecover h c = (c', Ok v) →
  (∃ vr, apply_header (vals, recents) h c = (c', Ok vr)) ↔ v ∈ vals ∧ signed_recently (shifted vals recents n) v = false.
Proof.
  intros Hn Hpos He [_ Hp] Hrec. unfold CongressSnapshot.apply_header. unfold mbind at 1, st_bind at 1, st_lift at 1. rewrite Hn.
  fold (shifted vals recents n). unfold mbind at 1, st_bind at 1. rewrite Hrec.
  destruct (bool_decide_reflect (v ∈ vals)) as [Hv|Hv]; cbn [negb]; [|split; [by intros [? [=]]|by intros [? _]]].
  destruct (signed_recently (shifted vals recents n) v); [split; [by intros [? [=]]|by intros [_ ?]]|]. split; [done|intros _].
  rewrite (proj2 (Z.ltb_lt _ _) Hpos). cbn [negb]. rewrite (proj2 (Z.eqb_neq _ _) He).
  destruct (Z.eqb_spec (n mod Epoch config) 0) as [He0|]; cbn [negb]; [|by eexists].
  destruct (proper_validators (Extra h)) as (vs & Hvs & _); [by apply (Hp n)|].
  unfold mbind, st_bind, st_lift. rewrite Hvs. by eexists.
Qed.
(** The validators are replaced at an epoch only, and never by nobody. *)
Lemma apply_header_vals n vals recents h c c' vr : vals ≠ ∅ → num h = Ok n → proper h →
  apply_header (vals, recents) h c = (c', Ok vr) → fst vr ≠ ∅.
Proof.
  intros Hne Hn [_ Hp]. unfold CongressSnapshot.apply_header. unfold mbind at 1, st_bind at 1, st_lift at 1. rewrite Hn.
  unfold mbind at 1, st_bind at 1. destruct (ecrecover h c) as [c1 [v|e| |]]; try done.
  destruct (negb _); [done|]. destruct (signed_recently _ v); [done|]. destruct (negb (0 <? n)); [by intros [= <- <-]|].
  destruct (Epoch config =? 0); [done|]. destruct (Z.eqb_spec (n mod Epoch config) 0) as [He0|]; cbn [negb]; [|by intros [= <- <-]].
  unfold mbind, st_bind, st_lift. destruct (proper_validators (Extra h)) as (vs & -> & Hvs); [by apply (Hp n)|]. by intros [= <- <-].
Qed.

Lemma apply_loop_spec hs : ∀ n vr c c' vr', window_ok n vr → fst vr ≠ ∅ → n + len hs < 2 ^ 64 →
  (∀ i h, hs !! i = Some h → num h = Ok (n + 1 + Z.of_nat i)) → Forall proper hs →
  apply_loop vr hs c = (c', Ok vr') → window_ok (n + len hs) vr' ∧ fst vr' ≠ ∅.
Proof.
  induction hs as [|h hs IH]; intros n vr c c' vr' Hw Hne Hb Hnum Hp.
  - intros [= <- <-]. by rewrite Z.add_0_r.
  - apply Forall_cons_1 in Hp as [Hph Hp]. rewrite len_cons in *. pose proof (len_nonneg hs).
    cbn [CongressSnapshot.apply_loop]. unfold mbind, st_bind. destruct (apply_header vr h c) as [c1 [vr1|e| |]] eqn:Ha; try done.
    assert (num h = Ok (n + 1)) as Hn by (rewrite (Hnum 0%nat h eq_refl); f_equal; lia). destruct vr as [vals recents].
    pose proof (apply_header_spec n vals recents h c c1 vr1 Hw ltac:(lia) Hn (proj1 Hph) Ha) as [Hw1 _].
    pose proof (apply_header_vals _ _ _ _ _ _ _ Hne Hn Hph Ha) as Hne1.
    intros Hl. replace (n + (1 + len hs)) with (n + 1 + len hs) by lia. apply (IH (n + 1) vr1 c1 c'); try done; [lia|].
    intros i h' Hi. rewrite (Hnum (S i) h' Hi). f_equal. lia.
Qed.

Lemma contiguous_num h0 hs n : is_u64 n → n + len (h0 :: hs) < 2 ^ 64 → contiguous (h0 :: hs) = Ok tt → num h0 = Ok (n + 1) →
  ∀ i h, (h0 :: hs) !! i = Some h → num h = Ok (n + 1 + Z.of_nat i).
Proof.
  revert h0 n. induction hs as [|h1 hs IH]; intros h0 n Hn Hb Hc H0 i h.
  - destruct i; [|done]. intros [= <-]. rewrite H0. f_equal. lia.
  - rewrite !len_cons in Hb. pose proof (len_nonneg hs). unfold is_u64 in Hn. rewrite contiguous_cons, H0 in Hc.
    destruct (num h1) as [n1| | |] eqn:H1; try done. unfold mbind, res_bind in Hc.
    destruct (Z.eqb_spec n1 (u64 (n + 1 + 1))) as [->|]; [|done]. cbn [negb] in Hc. rewrite u64_small in H1 by (unfold is_u64; lia).
    destruct i; [intros [= <-]; rewrite H0; f_equal; lia|]. cbn. intros Hi.
    rewrite (IH h1 (n + 1) ltac:(unfold is_u64; lia) ltac:(rewrite len_cons; lia) Hc H1 i h Hi). f_equal. lia.
Qed.

Lemma apply_spec s hs c c' s' : snap_ok s → Validators s ≠ ∅ → s_Number s + len hs < 2 ^ 64 → Forall proper hs →
  apply s hs c = (c', Ok s') → snap_ok s' ∧ Validators s' ≠ ∅ ∧ s_Number s' = s_Number s + len hs.
Proof.
  intros Hs Hne Hb Hp. pose proof (w_number _ _ Hs) as Hn. unfold CongressSnapshot.apply. destruct hs as [|h0 hs].
  { intros [= <- <-]. rewrite Z.add_0_r. done. }
  pose proof (len_nonneg hs). pose proof Hb as Hb'. rewrite len_cons in Hb. unfold is_u64 in Hn.
  unfold mbind at 1, st_bind at 1, st_lift at 1. destruct (contiguous (h0 :: hs)) as [[]| | |] eqn:Hc; try done.
  unfold mbind at 1, st_bind at 1, st_lift at 1. destruct (num h0) as [n0| | |] eqn:H0; try done.
  rewrite u64_small by (unfold is_u64; lia). destruct (Z.eqb_spec n0 (s_Number s + 1)) as [->|]; [|done]. cbn [negb].
  unfold mbind, st_bind. destruct (apply_loop _ _ c) as [c1 [[vals recents]|e| |]] eqn:Hl; try done. intros [= <- <-].
  cbn [s_Number Validators Recents].
  rewrite (u64_small (s_Number s + len (h0 :: hs))) by (rewrite len_cons; unfold is_u64; lia).
  apply (apply_loop_spec _ (s_Number s)) in Hl as [Hw Hv]; [done..|by apply (contiguous_num h0 hs); unfold is_u64|done].
Qed.

(** ** Reachable snapshots *)

Inductive reachable : Snapshot → Prop :=
| reach_new n x vs : is_u64 n → vs ≠ [] → len vs < 2 ^ 62 → reachable (newSnapshot n x vs)
| reach_apply s hs c c' s' : reachable s → s_Number s + len hs < 2 ^ 64 → Forall proper hs →
    apply s hs c = (c', Ok s') → reachable s'.

Lemma reachable_ok s : reachable s → snap_ok s ∧ Validators s ≠ ∅.
Proof.
  induction 1 as [n x vs Hn Hne Hl|s hs c c' s' _ [Hs Hv] Hb Hp Ha].
  - split; [split; cbn; [done| |intros k v; by rewrite lookup_empty|intros k k' v; by rewrite lookup_empty]|].
    + pose proof (list_to_set_size vs). lia.
    + cbn. destruct vs; [done|]. set_solver.
  - by apply apply_spec in Ha as (? & ? & _).
Qed.

(** A map whose keys are in an interval. *)
Lemma interval_size (m : gmap Z Z) lo k : 0 ≤ k → (∀ x v, m !! x = Some v → lo ≤ x < lo + k) → Z.of_nat (size m) ≤ k.
Proof.
  intros Hk Hm. rewrite <-(size_dom (D:=gset Z)).
  assert (dom m ⊆ (list_to_set (seqZ lo k) : gset Z)) as Hsub.
  { intros x [v Hx]%elem_of_dom. apply elem_of_list_to_set, elem_of_seqZ. by apply (Hm x v). }
  apply subseteq_size in Hsub. pose proof (list_to_set_size (seqZ lo k)) as Hl. unfold len in Hl. rewrite length_seqZ in Hl. lia.
Qed.
(** Fewer recent signers than half of the validators. *)
Lemma shifted_size n vals recents : window_ok n (vals, recents) →
  Z.of_nat (size (shifted vals recents (n + 1))) ≤ Z.of_nat (size vals) / 2.
Proof.
  intros Hw. pose proof (limit_pos vals). replace (Z.of_nat (size vals) / 2) with (limit_of vals - 1) by (unfold limit_of; lia).
  apply (interval_size _ (n + 2 - limit_of vals)); [lia|]. intros k v Hk. pose proof (shifted_window n vals recents k v Hw Hk). lia.
Qed.
Lemma eligible_size s : snap_ok s → Z.of_nat (size (Validators s)) - Z.of_nat (size (Validators s)) / 2 ≤ Z.of_nat (size (eligible s)).
Proof.
  intros Hs. pose proof (shifted_size _ _ _ Hs) as Hm. set (m := shifted _ _ _) in *.
  assert (Validators s ∖ list_to_set (map snd (map_to_list m)) ⊆ eligible s) as Hsub.
  { intros v [Hv Hn]%elem_of_difference. apply elem_of_filter. split; [|done]. apply signed_recently_false. intros k Hk. apply Hn.
    apply elem_of_list_to_set, list_elem_of_fmap. exists (k, v). split; [done|]. by apply elem_of_map_to_list. }
  apply subseteq_size in Hsub. pose proof (list_to_set_size (map snd (map_to_list m))) as Hl.
  unfold len in Hl. rewrite length_map, length_map_to_list in Hl.
  pose proof (size_difference_alt (Validators s) (list_to_set (map snd (map_to_list m)))).
  pose proof (subseteq_size (Validators s ∩ list_to_set (map snd (map_to_list m))) (list_to_set (map snd (map_to_list m))) ltac:(set_solver)). lia.
Qed.

(** C31: snapshots are well formed.  Applying headers to a well-formed snapshot gives a
    well-formed one: its number has advanced by the number of headers, there is a
    validator, every recent signer is of one of the last [len(Validators)/2 + 1] blocks, so
    there are at most that many, and nobody is among them twice; also when epochs
    shrink the set of validators. *)
Theorem apply_well_formed s hs c c' s' : snap_ok s → Validators s ≠ ∅ → s_Number s + len hs < 2 ^ 64 → Forall proper hs →
  apply s hs c = (c', Ok s') →
  snap_ok s' ∧ Validators s' ≠ ∅ ∧ s_Number s' = s_Number s + len hs ∧ Z.of_nat (size (Recents s')) ≤ limit_of (Validators s').
Proof.
  intros Hs Hne Hb Hp Ha. destruct (apply_spec s hs c c' s' Hs Hne Hb Hp Ha) as (Hs' & Hne' & Hn). split_and!; [done..|].
  pose proof (limit_pos (Validators s')). apply (interval_size _ (s_Number s' - limit_of (Validators s') + 1)); [lia|].
  intros k v Hk. destruct (w_window _ _ Hs' k v Hk) as [_ Hk']. cbn in Hk'. lia.
Qed.

(** C15: the chain of Congress never gets stuck: in every snapshot that is reached from
    a non-empty set of validators by applying headers, over any number of epochs with
    growing or shrinking sets of validators, at least half of the validators may sign
    the next block; a header for the next block is accepted exactly if its signer is
    one of them. *)
Theorem congress_live s : reachable s → s_Number s + 1 < 2 ^ 64 → Epoch config ≠ 0 →
  Z.of_nat (size (Validators s)) ≤ 2 * Z.of_nat (size (eligible s)) ∧ (∃ v, v ∈ eligible s) ∧
  ∀ h c c' v, num h = Ok (s_Number s + 1) → proper h → ecrecover h c = (c', Ok v) →
    v ∈ eligible s ↔ ∃ s', apply s [h] c = (c', Ok s') ∧ reachable s'.
Proof.
  intros Hr Hn He. destruct (reachable_ok s Hr) as [Hs Hne]. pose proof (eligible_size s Hs) as Hsz. pose proof (w_number _ _ Hs) as [Hn0 _].
  assert (0 < Z.of_nat (size (Validators s))) as Hpos.
  { destruct (size (Validators s)) eqn:H0; [|lia]. apply size_empty_inv in H0. by apply leibniz_equiv in H0. }
  split; [Z.to_euclidean_division_equations; lia|]. split.
  { apply set_choose_L. intros H0. rewrite H0, size_empty in Hsz. Z.to_euclidean_division_equations; lia. }
  intros h c c' v Hnum Hp Hrec.
  assert ((∃ s', apply s [h] c = (c', Ok s')) ↔ ∃ vr, apply_header (Validators s, Recents s) h c = (c', Ok vr)) as Hap.
  { unfold CongressSnapshot.apply, mbind, st_bind, st_lift, mret, st_ret. cbn [contiguous]. rewrite Hnum, u64_small by (unfold is_u64; lia).
    rewrite Z.eqb_refl. cbn [negb CongressSnapshot.apply_loop]. unfold mbind, st_bind.
    destruct (apply_header (Validators s, Recents s) h c) as [c1 [[vals recents]|e| |]]; cbn;
      (split; intros [x Hx]; [simplify_eq; by eexists|simplify_eq; by eexists]). }
  rewrite (apply_header_total (s_Number s + 1) _ _ h c c' v) in Hap by (done || lia).
  unfold eligible. rewrite elem_of_filter, (and_comm (_ = false)). split.
  - intros [s' Hs']%Hap. exists s'. split; [done|]. by apply (reach_apply s [h] c c'); [|rewrite len_cons, len_nil; lia|apply Forall_singleton|].
  - intros (s' & Hs' & _). apply Hap. by exists s'.
Qed.
End safe.
