(* ===== verification/CongressVerify.v ===== *)
(** * Verifying, preparing and sealing headers (src/geth/consensus/congress/congress.go, consensus/misc)

    The engine keeps the snapshots it computed in a cache and, every 1024 blocks, in
    the database; the signers of headers are cached too.  A header is verified against
    the snapshot of its parent; a validator prepares the consensus fields of its next
    header and seals it.

    The chain, the database, the JSON codec, the caches, the clock, random numbers, signing
    and the call of the validators contract are parameters. *)
From stdpp Require Import gmap sorting.
From S2P Require Import Prelude RlpBase RlpRaw RlpEncode StateDb TxMeta CongressSnapshot.

Definition checkpointInterval : Z := 1024.
Definition FullImmutabilityThreshold : Z := 90000.
Definition GasLimitBoundDivisor : Z := 1024.
Definition MinGasLimit : Z := 5000.

(** The forks of [params.ChainConfig] that the engine reads. *)
Record ChainConfig := mk_ChainConfig {
  EIP150Block : option Z; EIP150Hash : Z; LondonBlock : option Z;
  RedCoastBlock : option Z; SophonBlock : option Z; RewardPoolBlock : option Z
}.
Definition isForked (s head : option Z) : bool :=
  match s, head with Some s, Some head => s <=? head | _, _ => false end.
Definition is_London (c : ChainConfig) (n : option Z) : bool := isForked (LondonBlock c) n.
Definition IsRedCoast (c : ChainConfig) (n : option Z) : bool := isForked (RedCoastBlock c) n.
Definition IsRewardPool (c : ChainConfig) (n : option Z) : bool := isForked (RewardPoolBlock c) n.

(** [consensus.ChainHeaderReader]. *)
Record ChainReader := mk_ChainReader {
  Config : ChainConfig;
  GetHeader : Z → Z → option Header;
  GetHeaderByNumber : Z → option Header
}.

(** [ethdb.KeyValueStore]. *)
Class KeyValueStore (D : Type) := {
  kv_Get : bytes → D → option bytes;
  kv_Put : bytes → bytes → D → option D
}.

(** ** Limits of the gas *)

Definition VerifyGaslimit (parentGasLimit headerGasLimit : Z) : res cong_err unit :=
  let diff := i64 (i64 parentGasLimit - i64 headerGasLimit) in
  let diff := if diff <? 0 then i64 (diff * -1) else diff in
  let limit := parentGasLimit / GasLimitBoundDivisor in
  if limit <=? u64 diff then Err errGasLimit
  else if headerGasLimit <? MinGasLimit then Err errGasLimit
  else Ok tt.

Definition CalcBaseFee (config : ChainConfig) (parent : Header) : Z := 0.

Definition VerifyEip1559Header (config : ChainConfig) (parent header : Header) : res cong_err unit :=
  _ ← VerifyGaslimit (h_GasLimit parent) (h_GasLimit header);
  match h_BaseFee header with
  | None => Err errBaseFee
  | Some f => if negb (f =? CalcBaseFee config parent) then Err errBaseFee else Ok tt
  end.

Section engine.
Context (Ecrecover : bytes → bytes → option bytes) (keccak256 : bytes → Z).
Context {C CS D : Type} `{!Cache Z Z C, !Cache Z Snapshot CS, !KeyValueStore D}.
Context (json_Marshal : Snapshot → option bytes) (json_Unmarshal : bytes → option Snapshot).
Context (config : CongressConfig) (fakeDiff : bool) (chain : ChainReader).
Implicit Types (h header parent : Header) (s snap : Snapshot).

Definition VerifyForkHashes (c : ChainConfig) header (uncle : bool) : res cong_err unit :=
  if uncle then Ok tt else
  match EIP150Block c with
  | None => Ok tt
  | Some b =>
      match h_Number header with
      | None => Panic runtime_error
      | Some n =>
          if (b =? n) && negb (EIP150Hash c =? 0) && negb (EIP150Hash c =? header_Hash keccak256 header) then Err errForkHash
          else Ok tt
      end
  end.

(** The fields of [Congress] that verification changes. *)
Record Engine := mk_Engine { recents : CS; signatures : C; c_db : D }.
Abbreviation M := (st Engine cong_err).

Definition with_signatures {A} (m : st C cong_err A) : M A := λ e,
  let '(c, r) := m (signatures e) in (mk_Engine (recents e) c (c_db e), r).

(** ** Snapshots *)

Definition snap_key (hash : Z) : bytes := [99; 111; 110; 103; 114; 101; 115; 115; 45] ++ hash_bytes hash.
Definition loadSnapshot (db : D) (hash : Z) : option Snapshot :=
  blob ← kv_Get (snap_key hash) db; json_Unmarshal blob.
Definition store snap (db : D) : option D :=
  blob ← json_Marshal snap; kv_Put (snap_key (s_Hash snap)) blob db.
Definition store_snap snap : M unit := λ e,
  match store snap (c_db e) with
  | Some db => (mk_Engine (recents e) (signatures e) db, Ok tt)
  | None => (e, Err errDatabase)
  end.
Definition recents_Get (hash : Z) : M (option Snapshot) := λ e,
  let '(c, r) := cache_Get hash (recents e) in (mk_Engine c (signatures e) (c_db e), Ok r).
Definition recents_Add snap : M unit := λ e,
  (mk_Engine (cache_Add (s_Hash snap) snap (recents e)) (signatures e) (c_db e), Ok tt).

(** Whether the checkpoint of the block is trusted. *)
Definition trusts (number piled : Z) : res cong_err bool :=
  if number =? 0 then Ok true
  else if Epoch config =? 0 then Panic runtime_error
  else Ok ((number mod Epoch config =? 0) &&
           ((FullImmutabilityThreshold <? piled) || bool_decide (GetHeaderByNumber chain (number - 1) = None))).

(** The header of the block, from the parents that were passed or from the chain. *)
Definition next_header (number hash : Z) (parents : list Header) : res cong_err (Header * list Header) :=
  match list.last parents with
  | Some header =>
      if negb (header_Hash keccak256 header =? hash) then Err ErrUnknownAncestor else
      n ← num header;
      if negb (n =? number) then Err ErrUnknownAncestor else Ok (header, removelast parents)
  | None =>
      match GetHeader chain hash number with
      | None => Err ErrUnknownAncestor
      | Some header => Ok (header, [])
      end
  end.

(** The loop that walks back to a known snapshot; [headers] is what was gathered. *)
Fixpoint gather (fuel : nat) (number hash : Z) (parents headers : list Header) : M (Snapshot * list Header) :=
  match fuel with
  | O => st_lift OutOfFuel
  | S fuel =>
      cached ← recents_Get hash;
      match cached with
      | Some s => mret (s, headers)
      | None =>
          e ← st_get;
          match (if number mod checkpointInterval =? 0 then loadSnapshot (c_db e) hash else None) with
          | Some s => mret (s, headers)
          | None =>
              trusted ← st_lift (trusts number (len headers));
              match (if (trusted : bool) then GetHeaderByNumber chain number else None) with
              | Some checkpoint =>
                  vs ← st_lift (extra_validators (Extra checkpoint));
                  let snap := newSnapshot number (header_Hash keccak256 checkpoint) vs in
                  _ ← store_snap snap;
                  mret (snap, headers)
              | None =>
                  '(header, parents) ← st_lift (next_header number hash parents);
                  gather fuel (u64 (number - 1)) (ParentHash header) parents (headers ++ [header])
              end
          end
      end
  end.

Definition snapshot (fuel : nat) (number hash : Z) (parents : list Header) : M Snapshot :=
  '(snap, headers) ← gather fuel number hash parents [];
  snap ← with_signatures (apply Ecrecover keccak256 config snap (rev headers));
  _ ← recents_Add snap;
  (if (s_Number snap mod checkpointInterval =? 0) && (0 <? len headers) then store_snap snap else mret tt) ≫= λ _,
  mret snap.

(** ** Verification *)

(** The loop over the recent signers of [verifySeal]. *)
Definition seal_too_early snap (number signer : Z) : bool :=
  existsb (λ p, (snd p =? signer) && (u64 (number - limit_of (Validators snap)) <? fst p)) (map_to_list (Recents snap)).

(** What [verifySeal] checks once it has the snapshot. *)
Definition check_seal snap header (number : Z) : M unit :=
  signer ← with_signatures (ecrecover Ecrecover keccak256 header);
  if negb (signer =? h_Coinbase header) then st_err errInvalidCoinbase
  else if negb (bool_decide (signer ∈ Validators snap)) then st_err errUnauthorizedValidator
  else if seal_too_early snap number signer then st_err errRecentlySigned
  else if fakeDiff then mret tt else
    turn ← st_lift (inturn snap number signer);
    match h_Difficulty header with
    | None => st_panic runtime_error
    | Some d => if negb (d =? (if (turn : bool) then diffInTurn else diffNoTurn)) then st_err errWrongDifficulty else mret tt
    end.
Definition verifySeal (fuel : nat) header (parents : list Header) : M unit :=
  number ← st_lift (num header);
  if number =? 0 then st_err errUnknownBlock else
  snap ← snapshot fuel (number - 1) (ParentHash header) parents;
  check_seal snap header number.
Definition VerifySeal (fuel : nat) header : M unit := verifySeal fuel header [].

(** The checks of the gas and the base fee in [verifyCascadingFields]. *)
Definition verify_fees parent header : res cong_err unit :=
  if h_GasLimit header <? h_GasUsed header then Err errGasUsed
  else if negb (is_London (Config chain) (h_Number header)) then
    if bool_decide (h_BaseFee header ≠ None) then Err errBaseFee
    else VerifyGaslimit (h_GasLimit parent) (h_GasLimit header)
  else VerifyEip1559Header (Config chain) parent header.
Definition parent_of header (number : Z) (parents : list Header) : option Header :=
  match list.last parents with
  | Some parent => Some parent
  | None => GetHeader chain (ParentHash header) (number - 1)
  end.
Definition verifyCascadingFields (fuel : nat) header (parents : list Header) : M unit :=
  number ← st_lift (num header);
  if number =? 0 then mret tt else
  match parent_of header number parents with
  | None => st_err ErrUnknownAncestor
  | Some parent =>
      pn ← st_lift (num parent);
      if negb (pn =? number - 1) || negb (header_Hash keccak256 parent =? ParentHash header) then st_err ErrUnknownAncestor
      else if h_Time header <? u64 (h_Time parent + Period config) then st_err ErrInvalidTimestamp
      else _ ← st_lift (verify_fees parent header); verifySeal fuel header parents
  end.

Definition uncleHash : Z := rlpHash keccak256 (VSlice false []).

(** The checks of [verifyHeader] on the header alone. *)
Definition verify_standalone (now : Z) header : res cong_err unit :=
  match h_Number header with
  | None => Err errUnknownBlock
  | Some _ =>
      number ← num header;
      let validatorsBytes := len (Extra header) - extraVanity - extraSeal in
      if now <? h_Time header then Err ErrFutureBlock
      else if len (Extra header) <? extraVanity then Err errMissingVanity
      else if len (Extra header) <? extraVanity + extraSeal then Err errMissingSignature
      else if Epoch config =? 0 then Panic runtime_error
      else
        let isEpoch := number mod Epoch config =? 0 in
        if negb isEpoch && negb (validatorsBytes =? 0) then Err errExtraValidators
        else if isEpoch && negb (Z.rem validatorsBytes AddressLength =? 0) then Err errExtraValidators
        else if negb (MixDigest header =? 0) then Err errInvalidMixDigest
        else if negb (UncleHash header =? uncleHash) then Err errInvalidUncleHash
        else if (0 <? number) && bool_decide (h_Difficulty header = None) then Err errInvalidDifficulty
        else if 0x7fffffffffffffff <? h_GasLimit header then Err errGasLimit
        else VerifyForkHashes (Config chain) header false
  end.
Definition verifyHeader (fuel : nat) (now : Z) header (parents : list Header) : M unit :=
  _ ← st_lift (verify_standalone now header); verifyCascadingFields fuel header parents.
Definition VerifyHeader (fuel : nat) (now : Z) header : M unit := verifyHeader fuel now header [].

(** ** Preparing and sealing *)

Context (validator : Z) (callTopValidators : Header → Header → option (list Z)) (signFn : bytes → option bytes).

Definition getTopValidators header (number : Z) : res cong_err (list Z) :=
  match GetHeader chain (ParentHash header) (u64 (number - 1)) with
  | None => Err ErrUnknownAncestor
  | Some parent =>
      match callTopValidators parent header with
      | None => Err errCall
      | Some vs => Ok (merge_sort Z.le vs)
      end
  end.

Definition set_consensus header (d : option Z) (extra : bytes) (time : Z) : Header :=
  mk_Header (ParentHash header) (UncleHash header) validator (h_Root header) (TxHash header) (ReceiptHash header)
    (h_Bloom header) d (h_Number header) (h_GasLimit header) (h_GasUsed header) time extra 0 0 (h_BaseFee header).
(** The header while [Prepare] works on it: author, nonce, difficulty and vanity are set. *)
Definition set_turn header (d : Z) (extra : bytes) : Header :=
  mk_Header (ParentHash header) (UncleHash header) validator (h_Root header) (TxHash header) (ReceiptHash header)
    (h_Bloom header) (Some d) (h_Number header) (h_GasLimit header) (h_GasUsed header) (h_Time header) extra
    (MixDigest header) 0 (h_BaseFee header).
Definition set_extra header (extra : bytes) : Header :=
  mk_Header (ParentHash header) (UncleHash header) (h_Coinbase header) (h_Root header) (TxHash header) (ReceiptHash header)
    (h_Bloom header) (h_Difficulty header) (h_Number header) (h_GasLimit header) (h_GasUsed header) (h_Time header) extra
    (MixDigest header) (h_Nonce header) (h_BaseFee header).

(** The vanity, cut or filled up to its 32 bytes. *)
Definition vanity (extra : bytes) : bytes := take 32 (extra ++ replicate (32 - length extra) 0).

(** The validators that [Prepare] writes into the first header of an epoch. *)
Definition epoch_validators snap header (number : Z) : res cong_err (list Z) :=
  if number mod Epoch config =? 0 then
    match FeeReceiver config with
    | Some _ => Ok (validators snap)
    | None => getTopValidators header number
    end
  else Ok [].

(** [now] and [now'] are the clock at its two readings. *)
Definition Prepare (fuel : nat) (now now' : Z) header : M Header :=
  number ← st_lift (num header);
  snap ← snapshot fuel (u64 (number - 1)) (ParentHash header) [];
  difficulty ← st_lift (calcDifficulty snap validator);
  if Epoch config =? 0 then st_panic runtime_error else
  newSortedValidators ← st_lift (epoch_validators snap (set_turn header difficulty (vanity (Extra header))) number);
  let extra := vanity (Extra header) ++ mjoin (map (be_bytes 20) newSortedValidators) ++ replicate 65 0 in
  match GetHeader chain (ParentHash header) (u64 (number - 1)) with
  | None => st_err ErrUnknownAncestor
  | Some parent =>
      let time := u64 (h_Time parent + Period config) in
      mret (set_consensus header (Some difficulty) extra (if time <? now then now' else time))
  end.

(** The loop over the recent signers of [Seal]. *)
Definition must_wait snap (number val : Z) : bool :=
  existsb (λ p, (snd p =? val) &&
                ((number <? limit_of (Validators snap)) || (u64 (number - limit_of (Validators snap)) <? fst p)))
    (map_to_list (Recents snap)).

(** How long a validator holds back its block, in nanoseconds: until the time of the header
    ([Sub] of the clock saturates), and out of turn by a random part of the wiggle time. *)
Definition wiggleTime : Z := 500 * 10 ^ 6.
Definition time_until (time nanos : Z) : Z := Z.max (- 2 ^ 63) (Z.min (2 ^ 63 - 1) (i64 time * 10 ^ 9 - nanos)).
Definition seal_delay snap header (nanos : Z) (Int63n : Z → Z) : res cong_err Z :=
  let delay := time_until (h_Time header) nanos in
  match h_Difficulty header with
  | None => Panic runtime_error
  | Some difficulty =>
      Ok (if difficulty =? diffNoTurn then i64 (delay + Int63n (i64 (limit_of (Validators snap) * wiggleTime))) else delay)
  end.

(** The sealed header with the delay after which it is handed out, or nothing if the
    validator waits; [nanos] is the clock and [Int63n] the random number generator. *)
Definition Seal (fuel : nat) (nanos : Z) (Int63n : Z → Z) header (txs : Z) : M (option (Header * Z)) :=
  number ← st_lift (num header);
  if number =? 0 then st_err errUnknownBlock
  else if (Period config =? 0) && (txs =? 0) then mret None
  else
    snap ← snapshot fuel (number - 1) (ParentHash header) [];
    if negb (bool_decide (validator ∈ Validators snap)) then st_err errUnauthorizedValidator
    else if must_wait snap number validator then mret None
    else
      delay ← st_lift (seal_delay snap header nanos Int63n);
      msg ← st_lift (encodeSigHeader header);
      match signFn msg with
      | None => st_err errSign
      | Some sighash =>
          front ← st_lift (go_slice (Extra header) 0 (len (Extra header) - extraSeal));
          let seal := drop (length front) (Extra header) in
          mret (Some (set_extra header (front ++ take 65 sighash ++ drop (length (take 65 sighash)) seal), delay))
      end.
End engine.
