(* ===== verification/CongressCache.v ===== *)
(** * The snapshots that the engine retrieves (src/geth/consensus/congress/congress.go)

    Retrieval walks back from a block until the cache, the database or a trusted
    checkpoint has a snapshot, and applies the headers it gathered.  Whatever the caches
    hold, the result is that of applying the headers of the chain one after the other to
    a checkpoint of the chain, with signers that are recovered anew.

    Hashes identify headers, so what is assumed of them is that two headers the node has
    seen do not collide. *)
From stdpp Require Import gmap sorting.
From S2P Require Import Prelude RlpBase RlpRaw RlpEncode StateDb TxMeta CongressSnapshot CongressVerify.

(** No cache at all: the reference for what a cache may answer. *)
Global Instance no_cache : Cache Z Z unit := {| cache_Get _ c := (c, None); cache_Add _ _ c := c; cache_has _ _ _ := False |}.

(** A database returns what was put last. *)
Class KeyValueLaws (D : Type) `{!KeyValueStore D} := {
  kv_Get_Put k v d d' : kv_Put k v d = Some d' → kv_Get k d' = Some v;
  kv_Get_Put_ne k k' v d d' : kv_Put k v d = Some d' → k ≠ k' → kv_Get k' d' = kv_Get k' d
}.

Section cache.
Context (Ecrecover : bytes → bytes → option bytes) (keccak256 : bytes → Z).
Context {C CS D : Type} `{!Cache Z Z C, !CacheLaws Z Z C, !Cache Z Snapshot CS, !CacheLaws Z Snapshot CS}.
Context `{!KeyValueStore D, !KeyValueLaws D}.
Context (json_Marshal : Snapshot → option bytes) (json_Unmarshal : bytes → option Snapshot).
Context (config : CongressConfig) (chain : ChainReader).
Context (known : Header → Prop).
Implicit Types (h : Header) (s : Snapshot) (hs parents : list Header).
Abbreviation Hash := (header_Hash keccak256).
Abbreviation ecrecover := (ecrecover Ecrecover keccak256).
Abbreviation apply := (apply Ecrecover keccak256 config).
Abbreviation gather := (gather keccak256 json_Marshal json_Unmarshal config chain).
Abbreviation snapshot := (snapshot Ecrecover keccak256 json_Marshal json_Unmarshal config chain).
Abbreviation load := (loadSnapshot json_Unmarshal).
Abbreviation Engine := (@Engine C CS D).

(** What the code relies on: the hash has 32 bytes and does not collide on the headers
    that were seen, the chain finds headers by their hash, and JSON reads back what it wrote. *)
Record world_ok : Prop := {
  wo_range b : is_u256 (keccak256 b);
  wo_inj h h' : known h → known h' → Hash h = Hash h' → h = h';
  wo_chain x n h : GetHeader chain x n = Some h → known h ∧ Hash h = x;
  wo_parent h : known h → is_u256 (ParentHash h);
  wo_json s b : json_Marshal s = Some b → json_Unmarshal b = Some s
}.

(** ** The cache of signers *)

(** The signer of a header, and the snapshot after headers, without a cache. *)
Definition signer_of h : res cong_err Z := snd (ecrecover h tt).
Definition replay s hs : res cong_err Snapshot := snd (apply s hs tt).

Definition sig_ok (c : C) : Prop := ∀ x v h, cache_has c x v → known h → Hash h = x → signer_of h = Ok v.
Definition agrees {A} (m : st C cong_err A) (m0 : st unit cong_err A) : Prop :=
  ∀ c, sig_ok c → ∃ c', m c = (c', snd (m0 tt)) ∧ sig_ok c'.

Lemma agrees_bind {A B} (m : st C cong_err A) m0 (f : A → st C cong_err B) f0 :
  agrees m m0 → (∀ a, agrees (f a) (f0 a)) → agrees (m ≫= f) (m0 ≫= f0).
Proof.
  intros Hm Hf c Hc. destruct (Hm c Hc) as (c1 & Hm1 & Hc1). unfold mbind, st_bind. rewrite Hm1.
  destruct (m0 tt) as [[] [a| | |]]; cbn [snd]; [|by exists c1..]. by apply Hf.
Qed.
Lemma agrees_here {A} (r : res cong_err A) : agrees (λ c, (c, r)) (λ c, (c, r)).
Proof. intros c Hc. by exists c. Qed.

Lemma sig_ok_get c x : sig_ok c → sig_ok (fst (cache_Get x c)).
Proof. intros Hc k v h Hk. apply (Hc k v h). by apply (cache_Get_keeps x). Qed.

Lemma ecrecover_agrees h : world_ok → known h → agrees (ecrecover h) (ecrecover h).
Proof.
  intros Hwo Hh c Hc. assert (ecrecover h tt = (tt, signer_of h)) as H0 by (unfold signer_of; by destruct (ecrecover h tt) as [[] ?]).
  fold (signer_of h). pose proof (sig_ok_get c (Hash h) Hc) as Hc1. revert H0.
  unfold CongressSnapshot.ecrecover, mbind, st_bind, st_get, st_put, st_lift, st_err, st_panic, st_modify, mret, st_ret. cbn -[hash_bytes].
  destruct (cache_Get (Hash h) c) as [c1 [v|]] eqn:Hg.
  { intros _. exists c1. split; [|done]. f_equal. symmetry. apply (Hc (Hash h)); [|done..]. by eapply cache_Get_has. }
  cbn in Hc1. destruct (len (Extra h) <? extraSeal); [intros [= <-]; by exists c1|].
  destruct (go_slice _ _ _) as [sg| | |]; [|intros [= <-]; by exists c1..].
  destruct (SealHash keccak256 h) as [sh| | |]; [|intros [= <-]; by exists c1..].
  destruct (Ecrecover (hash_bytes sh) sg) as [[|b pub]|]; [intros [= <-]; by exists c1| |intros [= <-]; by exists c1].
  intros [= Hs]. eexists. split; [by rewrite <-Hs|]. intros x v h' [[-> ->]|Hk]%cache_Add_has Hk' Hx; [|by apply (Hc1 x)].
  rewrite (wo_inj Hwo h' h Hk' Hh Hx). done.
Qed.

Lemma apply_header_agrees vr h : world_ok → known h → agrees (apply_header Ecrecover keccak256 config vr h) (apply_header Ecrecover keccak256 config vr h).
Proof.
  intros Hwo Hh. destruct vr as [vals recents]. unfold apply_header.
  apply agrees_bind; [apply agrees_here|]. intros n. apply agrees_bind; [by apply ecrecover_agrees|]. intros v.
  destruct (negb (bool_decide _)); [apply agrees_here|]. destruct (signed_recently _ _); [apply agrees_here|].
  destruct (negb (0 <? n)); [apply agrees_here|]. destruct (Epoch config =? 0); [apply agrees_here|].
  destruct (negb _); [apply agrees_here|]. apply agrees_bind; [apply agrees_here|]. intros vs. apply agrees_here.
Qed.
Lemma apply_agrees s hs : world_ok → Forall known hs → agrees (apply s hs) (apply s hs).
Proof.
  intros Hwo Hk. unfold CongressSnapshot.apply. destruct hs as [|h0 hs]; [apply agrees_here|].
  apply agrees_bind; [apply agrees_here|]. intros _. apply agrees_bind; [apply agrees_here|]. intros n.
  destruct (negb _); [apply agrees_here|]. apply agrees_bind; [|intros [vals recents]; apply agrees_here].
  generalize (Validators s, Recents s) as vr. revert Hk. generalize (h0 :: hs) as l. clear s h0 hs n.
  induction l as [|h l IH]; intros Hk vr; cbn [apply_loop]; [apply agrees_here|]. apply Forall_cons_1 in Hk as [Hh Hk].
  apply agrees_bind; [by apply apply_header_agrees|]. intros vr1. by apply IH.
Qed.

(** ** The snapshots of the chain *)

(** The checkpoint of a block that starts an epoch. *)
Inductive checkpoint : Snapshot → Prop :=
| checkpoint_intro n h vs : GetHeaderByNumber chain n = Some h → n = 0 ∨ n mod Epoch config = 0 →
    extra_validators (Extra h) = Ok vs → checkpoint (newSnapshot n (Hash h) vs).

(** The snapshot after the block with a hash: a checkpoint, or that of the parent with one header applied. *)
Inductive justified : Z → Snapshot → Prop :=
| justified_checkpoint x s : checkpoint s → justified x s
| justified_step h s s' : known h → justified (ParentHash h) s → replay s [h] = Ok s' → justified (Hash h) s'.

(** The headers lead from the block [x] to the block [y]. *)
Fixpoint linked (x : Z) hs (y : Z) : Prop :=
  match hs with
  | [] => x = y
  | h :: hs => known h ∧ ParentHash h = x ∧ linked (Hash h) hs y
  end.

Lemma linked_known x hs y : linked x hs y → Forall known hs.
Proof. revert x. induction hs as [|h hs IH]; intros x; [constructor|]. intros (Hh & _ & Hl). constructor; [done|by eapply IH]. Qed.

Lemma last_default {A} (l : list A) a d : List.last (a :: l) d = List.last l a.
Proof. revert a d. induction l as [|b l IH]; intros a d; [done|]. change (List.last (b :: l) d = List.last (b :: l) a). by rewrite (IH b d), (IH b a). Qed.
Lemma replay_nil s : replay s [] = Ok s. Proof. done. Qed.
(** Applying headers is applying the first and then the rest. *)
Lemma replay_cons s h hs s' : replay s (h :: hs) = Ok s' → ∃ s1, replay s [h] = Ok s1 ∧ replay s1 hs = Ok s'.
Proof.
  unfold replay, CongressSnapshot.apply, mbind, st_bind, st_lift, mret, st_ret, st_err.
  replace (contiguous [h]) with (Ok tt : res cong_err unit) by done.
  destruct (contiguous (h :: hs)) as [[]| | |] eqn:Hc; try done. destruct (num h) as [n| | |] eqn:Hn; try done.
  destruct (Z.eqb_spec n (u64 (s_Number s + 1))) as [Hns|]; [|done]. cbn [negb apply_loop].
  unfold mbind, st_bind, mret, st_ret. destruct (apply_header _ _ _ _ h tt) as [[] [vr1| | |]]; try done.
  destruct vr1 as [vals1 recents1]. cbn [snd]. intros Hl. eexists. split; [done|].
  destruct hs as [|h1 hs]; cbn [apply_loop] in *; [exact Hl|]. unfold mbind, st_bind, mret, st_ret in *. rewrite contiguous_cons in Hc. revert Hc.
  unfold mbind, res_bind. destruct (num h1) as [n1| | |] eqn:Hn1; try done. rewrite Hn.
  destruct (Z.eqb_spec n1 (u64 (n + 1))) as [->|]; [|done]. cbn [negb s_Number Validators Recents]. intros ->. cbn iota.
  rewrite Hns. cbn [len length Z.of_nat]. change (Z.pos (Pos.of_succ_nat 0)) with 1. rewrite Z.eqb_refl. cbn [negb].
  destruct (apply_header _ _ _ (vals1, recents1) h1 tt) as [[] [vr2| | |]]; try done.
  destruct (apply_loop _ _ _ vr2 hs tt) as [[] [[vals2 recents2]| | |]]; try done. cbn [snd] in *. rewrite <-Hl. f_equal. f_equal.
  - unfold u64. rewrite Zplus_mod_idemp_l. f_equal. rewrite !len_cons, len_nil. lia.
  - by rewrite last_default.
Qed.

Lemma justified_linked x hs y s s' : justified x s → linked x hs y → replay s hs = Ok s' → justified y s'.
Proof.
  revert x s. induction hs as [|h hs IH]; intros x s Hj; cbn [linked].
  - intros -> [= <-]. done.
  - intros (Hh & Hx & Hl) (s1 & H1 & Hr)%replay_cons. apply (IH (Hash h) s1); [|done..]. apply (justified_step h s); [done| |done]. by rewrite Hx.
Qed.

(** ** The state of the engine *)

(** Every snapshot that is kept is one of the chain. *)
Record coherent (e : Engine) : Prop := {
  co_sig : sig_ok (signatures e);
  co_recents x s : cache_has (recents e) x s → justified x s ∧ justified (s_Hash s) s;
  co_db x s : is_u256 x → load (c_db e) x = Some s → justified x s ∧ justified (s_Hash s) s
}.

Lemma snap_key_inj x y : is_u256 x → is_u256 y → snap_key x = snap_key y → x = y.
Proof.
  unfold snap_key, is_u256. intros Hx Hy Heq%app_inv_head.
  assert (be_val (hash_bytes x) = be_val (hash_bytes y)) as Hb by by rewrite Heq.
  unfold hash_bytes in Hb. rewrite !be_val_be_bytes in Hb. change (8 * Z.of_nat 32) with 256 in Hb.
  by rewrite !Z.mod_small in Hb by done.
Qed.

Lemma coherent_Get x e e' r : coherent e → recents_Get x e = (e', r) →
  coherent e' ∧ signatures e' = signatures e ∧ ∃ o, r = Ok o ∧ ∀ s, o = Some s → justified x s ∧ justified (s_Hash s) s.
Proof.
  intros [Hsig Hrec Hdb]. unfold recents_Get. destruct (cache_Get x (recents e)) as [c o] eqn:Hg. intros [= <- <-]. cbn.
  split; [split; cbn; [done| |done]|split; [done|]].
  - intros x' s Hh. apply (Hrec x' s). apply (cache_Get_keeps x). by rewrite Hg.
  - exists o. split; [done|]. intros s ->. apply Hrec. by eapply cache_Get_has.
Qed.
Lemma coherent_Add s e : coherent e → justified (s_Hash s) s → coherent (fst (recents_Add s e)).
Proof.
  intros [Hsig Hrec Hdb] Hj. split; cbn; [done| |done]. by intros x s' [[-> ->]|Hh]%cache_Add_has; [|apply Hrec].
Qed.
Lemma coherent_store s e e' r : world_ok → coherent e → is_u256 (s_Hash s) → justified (s_Hash s) s →
  store_snap json_Marshal s e = (e', r) → coherent e' ∧ signatures e' = signatures e.
Proof.
  intros Hwo Hco Hu Hj. unfold store_snap, store. destruct (json_Marshal s) as [b|] eqn:Hb; [|by intros [= <- <-]]. cbn [mbind option_bind].
  destruct (kv_Put _ b (c_db e)) as [d|] eqn:Hp; [|by intros [= <- <-]]. intros [= <- <-]. split; [|done]. destruct Hco as [Hsig Hrec Hdb].
  split; cbn; [done..|]. intros x s' Hx. unfold loadSnapshot. destruct (decide (x = s_Hash s)) as [->|Hne].
  - rewrite (kv_Get_Put _ _ _ _ Hp). cbn [mbind option_bind]. rewrite (wo_json Hwo _ _ Hb). by intros [= <-].
  - rewrite (kv_Get_Put_ne _ (snap_key x) _ _ _ Hp) by (intros Hk; apply Hne; symmetry; by apply snap_key_inj).
    by apply Hdb.
Qed.

Lemma header_Hash_range h : world_ok → is_u256 (Hash h).
Proof. intros Hwo. unfold header_Hash, rlpHash. destruct (EncodeToBytes _); apply (wo_range Hwo). Qed.

Lemma next_header_spec n x parents h parents' : world_ok → Forall known parents →
  next_header keccak256 chain n x parents = Ok (h, parents') → known h ∧ Hash h = x ∧ Forall known parents'.
Proof.
  intros Hwo Hk. unfold next_header. destruct (list.last parents) as [h1|] eqn:Hl.
  - destruct (Z.eqb_spec (Hash h1) x) as [Hx|]; [|done]. cbn [negb]. destruct (num h1) as [n1| | |]; try done. unfold mbind, res_bind.
    destruct (n1 =? n); [|done]. intros [= <- <-]. apply last_Some in Hl as [l ->]. rewrite removelast_last.
    apply Forall_app in Hk as [Hk Hh]. rewrite Forall_singleton in Hh. done.
  - destruct (GetHeader chain x n) as [h1|] eqn:Hg; [|done]. intros [= <- <-]. destruct (wo_chain Hwo _ _ _ Hg). by split_and!.
Qed.

Lemma trusts_spec n k : trusts config chain n k = Ok true → n = 0 ∨ n mod Epoch config = 0.
Proof.
  unfold trusts. destruct (Z.eqb_spec n 0); [by left|]. destruct (_ =? 0); [done|]. intros [= [Hb _]%andb_prop]. right. lia.
Qed.

(** What the walk back returns. *)
Definition gathered (y : Z) (sh : Snapshot * list Header) : Prop :=
  ∃ x, justified x (fst sh) ∧ justified (s_Hash (fst sh)) (fst sh) ∧ linked x (rev (snd sh)) y.

Lemma gather_spec fuel : ∀ n x parents hs y e e' r, world_ok → coherent e → is_u256 x → Forall known parents → linked x (rev hs) y →
  gather fuel n x parents hs e = (e', r) → coherent e' ∧ signatures e' = signatures e ∧ ∀ sh, r = Ok sh → gathered y sh.
Proof.
  induction fuel as [|fuel IH]; intros n x parents hs y e e' r Hwo Hco Hx Hk Hl; cbn [CongressVerify.gather]; [by intros [= <- <-]|].
  unfold mbind at 1, st_bind at 1. destruct (recents_Get x e) as [e1 r1] eqn:Hg.
  destruct (coherent_Get x e e1 r1 Hco Hg) as (Hco1 & Hsig1 & o & -> & Ho). rewrite <-Hsig1. clear e Hco Hg Hsig1. rename e1 into e, Hco1 into Hco.
  destruct o as [s|]. { intros [= <- <-]. split_and!; [done..|]. intros sh [= <-]. destruct (Ho s eq_refl). by exists x. }
  unfold mbind at 1, st_bind at 1, st_get at 1. clear Ho. destruct (if n mod _ =? 0 then _ else _) as [s|] eqn:Hld.
  { intros [= <- <-]. split_and!; [done..|]. intros sh [= <-]. destruct (n mod _ =? 0); [|done]. destruct (co_db e Hco x s Hx Hld). by exists x. }
  clear Hld. unfold mbind at 1, st_bind at 1, st_lift at 1. destruct (trusts _ _ _ _) as [t| | |] eqn:Ht; [|by intros [= <- <-]..].
  destruct (if t then _ else _) as [c|] eqn:Hc.
  - destruct t; [|done]. unfold mbind, st_bind, st_lift. destruct (extra_validators (Extra c)) as [vs| | |] eqn:Hvs; [|by intros [= <- <-]..].
    set (s := newSnapshot _ _ _). assert (∀ z, justified z s) as Hj by (intros z; apply justified_checkpoint; by apply (checkpoint_intro n c vs); [|eapply trusts_spec|]).
    destruct (store_snap _ s e) as [e2 r2] eqn:Hst. destruct (coherent_store s e e2 r2 Hwo Hco) as [Hco2 Hsig2]; [by apply header_Hash_range|done..|].
    destruct r2; intros [= <- <-]; split_and!; try done. intros sh [= <-]. by exists x.
  - unfold mbind, st_bind, st_lift. destruct (next_header _ _ n x parents) as [[h parents']| | |] eqn:Hn; [|by intros [= <- <-]..].
    destruct (next_header_spec n x parents h parents' Hwo Hk Hn) as (Hh & Hhx & Hk'). apply IH; try done; [by apply (wo_parent Hwo)|].
    rewrite rev_unit. cbn [linked]. by rewrite Hhx.
Qed.

Lemma replay_Hash s h hs s' : replay s (h :: hs) = Ok s' → s_Hash s' = Hash (List.last hs h).
Proof.
  unfold replay, CongressSnapshot.apply, mbind, st_bind, st_lift, mret, st_ret, st_err.
  destruct (contiguous (h :: hs)); try done. destruct (num h); try done. destruct (negb _); [done|].
  destruct (apply_loop _ _ _ _ _ tt) as [[] [[vals recents]| | |]]; try done. by intros [= <-].
Qed.
Lemma linked_last x h hs y : linked x (h :: hs) y → Hash (List.last hs h) = y.
Proof.
  revert x h. induction hs as [|h1 hs IH]; intros x h; cbn [linked]; [by intros (_ & _ & <-)|].
  intros (_ & _ & Hl). rewrite last_default. by apply (IH (Hash h)).
Qed.

(** Retrieval from what was gathered: the headers are replayed, the snapshot is kept. *)
Lemma snapshot_gathered fuel n x parents e e1 s0 hs : world_ok → coherent e1 → is_u256 x → gathered x (s0, hs) →
  gather fuel n x parents [] e = (e1, Ok (s0, hs)) →
  ∃ e' r, snapshot fuel n x parents e = (e', r) ∧ coherent e' ∧
    (r = replay s0 (rev hs) ∨ r = Err errDatabase ∧ ∃ s d, store json_Marshal s d = None) ∧ ∀ s, r = Ok s → justified x s.
Proof.
  intros Hwo Hco Hx (x0 & Hj & Hjh & Hl) Hg. cbn [fst snd] in *.
  unfold CongressVerify.snapshot. unfold mbind at 1, st_bind at 1. rewrite Hg. unfold mbind at 1, st_bind at 1, with_signatures at 1.
  destruct (apply_agrees s0 (rev hs) Hwo (linked_known _ _ _ Hl) (signatures e1) (co_sig e1 Hco)) as (c' & -> & Hc'). fold (replay s0 (rev hs)).
  assert (coherent (mk_Engine (recents e1) c' (c_db e1))) as Hco1 by (destruct Hco; by split).
  destruct (replay s0 (rev hs)) as [s| | |] eqn:Hr; [|by do 2 eexists; split_and!; [done|done|left|]..].
  assert (justified x s) as Hjs by exact (justified_linked x0 (rev hs) x s0 s Hj Hl Hr).
  assert (justified (s_Hash s) s ∧ (hs ≠ [] → s_Hash s = x)) as [Hjs' Hxs].
  { destruct (rev hs) as [|h l] eqn:Hrev; [injection Hr as <-; split; [done|]; intros Hne; by apply (f_equal (@rev _)) in Hrev; rewrite rev_involutive in Hrev|].
    rewrite (replay_Hash _ _ _ _ Hr), (linked_last _ _ _ _ Hl). done. }
  unfold mbind at 1, st_bind at 1. destruct (recents_Add s _) as [e2 r2] eqn:Ha.
  pose proof (coherent_Add s _ Hco1 Hjs') as Hco2. rewrite Ha in Hco2. injection Ha as _ <-. cbn [fst] in Hco2.
  unfold mbind, st_bind, mret, st_ret. destruct (_ && _) eqn:Hb; [|by do 2 eexists; split_and!; [done|done|left|intros ? [= <-]]].
  apply andb_prop in Hb as [_ Hb]. destruct hs as [|h hs]; [done|]. rewrite <-(Hxs ltac:(done)) in Hx.
  destruct (store_snap json_Marshal s e2) as [e3 r3] eqn:Hst. destruct (coherent_store s e2 e3 r3 Hwo Hco2 Hx Hjs' Hst) as [Hco3 _].
  unfold store_snap in Hst. destruct (store json_Marshal s (c_db e2)) eqn:Hstore; injection Hst as <- <-.
  - do 2 eexists. split_and!; [done|done|by left|by intros ? [= <-]].
  - do 2 eexists. split_and!; [done|done|right; split; [done|by do 2 eexists]|done].
Qed.

(** The engine stays coherent, and a snapshot it returns is one of the chain. *)
Lemma snapshot_coherent fuel n x parents e e' r : world_ok → coherent e → is_u256 x → Forall known parents →
  snapshot fuel n x parents e = (e', r) → coherent e' ∧ ∀ s, r = Ok s → justified x s.
Proof.
  intros Hwo Hco Hx Hk. destruct (gather fuel n x parents [] e) as [e1 r1] eqn:Hg.
  destruct (gather_spec fuel n x parents [] x e e1 r1 Hwo Hco Hx Hk eq_refl Hg) as (Hco1 & _ & Hsh).
  destruct r1 as [[s0 hs]| | |]; [|unfold CongressVerify.snapshot, mbind, st_bind; rewrite Hg; by intros [= <- <-]..].
  destruct (snapshot_gathered fuel n x parents e e1 s0 hs Hwo Hco1 Hx (Hsh _ eq_refl) Hg) as (e2 & r2 & -> & Hco2 & _ & Hj). by intros [= <- <-].
Qed.

(** ** Retrieval returns *)

(** The ancestors of a block down to the genesis block are in the chain. *)
Inductive available : Z → Z → Prop :=
| available_0 x : available 0 x
| available_S n x h : 0 < n → GetHeader chain x n = Some h → available (n - 1) (ParentHash h) → available n x.

(** The genesis block is there, checkpoints have room for the vanity and the seal, and the database can be written. *)
Record node_ok : Prop := {
  no_epoch : Epoch config ≠ 0;
  no_genesis : GetHeaderByNumber chain 0 ≠ None;
  no_extra n h : GetHeaderByNumber chain n = Some h → extraVanity + extraSeal ≤ len (Extra h);
  no_store s (d : D) : store json_Marshal s d ≠ None
}.
Lemma extra_validators_ok b : extraVanity + extraSeal ≤ len b → ∃ vs, extra_validators b = Ok vs.
Proof.
  unfold extra_validators, extraVanity, extraSeal, AddressLength. intros Hl.
  rewrite (proj2 (Z.ltb_ge _ _)); [by eexists|]. apply Z.quot_pos; lia.
Qed.

Lemma store_returns s (e : Engine) : node_ok → ∃ e', store_snap json_Marshal s e = (e', Ok tt).
Proof.
  intros Hno. unfold store_snap. destruct (store json_Marshal s (c_db e)) eqn:Hst; [by eexists|by destruct (no_store Hno _ _ Hst)].
Qed.

(** At the genesis block nothing is gathered. *)
Lemma gather_genesis fuel x parents hs (e : Engine) : node_ok → ∃ e' s, gather (S fuel) 0 x parents hs e = (e', Ok (s, hs)).
Proof.
  intros Hno. cbn [CongressVerify.gather].
  unfold mbind at 1, st_bind at 1, recents_Get at 1. destruct (cache_Get x (recents e)) as [c [s|]]; [by do 2 eexists|].
  unfold mbind at 1, st_bind at 1, st_get at 1. destruct (if _ mod _ =? 0 then _ else _) as [s|]; [by do 2 eexists|].
  unfold mbind at 1, st_bind at 1, st_lift at 1. unfold trusts at 1. cbn.
  destruct (GetHeaderByNumber chain 0) as [h|] eqn:Hh; [|by destruct (no_genesis Hno)].
  destruct (extra_validators_ok (Extra h) (no_extra Hno _ _ Hh)) as [vs ->]. unfold mbind, st_bind, st_lift.
  destruct (store_returns (newSnapshot 0 (Hash h) vs) (mk_Engine c (signatures e) (c_db e)) Hno) as [e' ->]. by do 2 eexists.
Qed.
Lemma gather_returns n x : available n x → node_ok → n < 2 ^ 64 → ∀ fuel hs (e : Engine), (Z.to_nat n < fuel)%nat →
  ∃ e' sh, gather fuel n x [] hs e = (e', Ok sh).
Proof.
  intros Ha Hno Hn. induction Ha as [x|n x h Hpos Hg Ha IH]; intros [|fuel] hs e Hf; try lia.
  { destruct (gather_genesis fuel x [] hs e Hno) as (e' & s & ->). by do 2 eexists. }
  cbn [CongressVerify.gather]. unfold mbind at 1, st_bind at 1, recents_Get at 1. destruct (cache_Get x (recents e)) as [c [s|]]; [by do 2 eexists|].
  unfold mbind at 1, st_bind at 1, st_get at 1. destruct (if _ mod _ =? 0 then _ else _) as [s|]; [by do 2 eexists|].
  unfold mbind at 1, st_bind at 1, st_lift at 1. unfold trusts at 1.
  rewrite (proj2 (Z.eqb_neq n 0)) by lia. rewrite (proj2 (Z.eqb_neq _ _) (no_epoch Hno)).
  set (t := _ && _). destruct (if t then _ else _) as [h'|] eqn:Hh.
  - assert (GetHeaderByNumber chain n = Some h') as Hn' by by destruct t.
    destruct (extra_validators_ok (Extra h') (no_extra Hno _ _ Hn')) as [vs ->]. unfold mbind, st_bind, st_lift.
    destruct (store_returns (newSnapshot n (Hash h') vs) (mk_Engine c (signatures e) (c_db e)) Hno) as [e' ->]. by do 2 eexists.
  - unfold next_header. cbn [list.last]. rewrite Hg. unfold mbind, st_bind, st_lift.
    rewrite u64_small by (unfold is_u64; lia). apply IH; lia.
Qed.
(** The snapshot of the genesis block. *)
Lemma snapshot_genesis fuel x e : world_ok → node_ok → coherent e → is_u256 x →
  ∃ e' s, snapshot (S fuel) 0 x [] e = (e', Ok s) ∧ coherent e' ∧ justified x s.
Proof.
  intros Hwo Hno Hco Hx. destruct (gather_genesis fuel x [] [] e Hno) as (e1 & s & Hg).
  destruct (gather_spec (S fuel) 0 x [] [] x e e1 _ Hwo Hco Hx (Forall_nil_2 _) eq_refl Hg) as (Hco1 & _ & Hsh).
  destruct (snapshot_gathered (S fuel) 0 x [] e e1 s [] Hwo Hco1 Hx (Hsh _ eq_refl) Hg) as (e2 & r2 & Hs & Hco2 & Hr & Hj).
  destruct Hr as [->|(_ & s' & d & Hst)]; [|by destruct (no_store Hno _ _ Hst)]. exists e2, s. split_and!; [done..|]. by apply Hj.
Qed.

(** C16: retrieving the snapshot of a block.  If the ancestors of the block are in the chain,
    then whatever the caches and the database of a coherent engine hold, retrieval ends,
    within one iteration per block number, with exactly the result of replaying a linked
    list of headers that leads to the block on a snapshot of the chain, with every signer
    recovered anew; the engine stays coherent and a snapshot that is returned is one of
    the chain. *)
Theorem snapshot_replays fuel n x e : world_ok → node_ok → coherent e → available n x → is_u64 n → is_u256 x → (Z.to_nat n < fuel)%nat →
  ∃ e' x0 s0 hs, justified x0 s0 ∧ linked x0 hs x ∧ snapshot fuel n x [] e = (e', replay s0 hs) ∧ coherent e' ∧
    ∀ s, replay s0 hs = Ok s → justified x s.
Proof.
  intros Hwo Hno Hco Ha [_ Hn] Hx Hf. destruct (gather_returns n x Ha Hno Hn fuel [] e Hf) as (e1 & [s0 hs] & Hg).
  destruct (gather_spec fuel n x [] [] x e e1 _ Hwo Hco Hx (Forall_nil_2 _) eq_refl Hg) as (Hco1 & _ & Hsh). specialize (Hsh _ eq_refl).
  destruct (snapshot_gathered fuel n x [] e e1 s0 hs Hwo Hco1 Hx Hsh Hg) as (e2 & r2 & Hs & Hco2 & Hr & Hj).
  destruct Hr as [->|(-> & s & d & Hst)]; [|by destruct (no_store Hno _ _ Hst)].
  destruct Hsh as (x0 & Hj0 & _ & Hl). by exists e2, x0, s0, (rev hs).
Qed.
End cache.
