(* ===== verification/CongressSeal.v ===== *)
(** * Turns, seals and their verification (src/geth/consensus/congress/congress.go, snapshot.go)

    One validator is in turn for each block and everyone's turn comes; the header that
    a validator prepares and seals passes the verification of every node that agrees on
    the snapshot of the parent; the checks of [Seal] and [apply] on recent signers are
    the same, and [verifySeal] makes them from block [len(Validators)/2 + 1] on. *)
From stdpp Require Import gmap sorting.
From S2P Require Import Prelude RlpBase RlpRaw RlpEncode StateDb TxMeta CongressSnapshot CongressSafe CongressVerify CongressCache.

(** ** Turns *)

Lemma validators_perm s : validators s ≡ₚ elements (Validators s).
Proof. apply merge_sort_Permutation. Qed.
Lemma validators_nodup s : NoDup (validators s).
Proof. rewrite validators_perm. apply NoDup_elements. Qed.
Lemma validators_elem s v : v ∈ validators s ↔ v ∈ Validators s.
Proof. rewrite validators_perm. apply elem_of_elements. Qed.
Lemma validators_len s : len (validators s) = Z.of_nat (size (Validators s)).
Proof. unfold len. by rewrite validators_perm. Qed.

Lemma offset_lookup vs i v : NoDup vs → vs !! i = Some v → offset_of v vs = Z.of_nat i.
Proof.
  revert i. induction vs as [|w vs IH]; intros i Hnd Hi; [done|]. apply list.NoDup_cons in Hnd as [Hw Hnd]. cbn [offset_of].
  destruct i as [|i]; [injection Hi as <-; by rewrite Z.eqb_refl|].
  rewrite (proj2 (Z.eqb_neq w v)) by (intros ->; apply Hw; by eapply list_elem_of_lookup_2). rewrite (IH i) by done. lia.
Qed.
Lemma offset_elem vs v : v ∈ vs → 0 ≤ offset_of v vs < len vs ∧ vs !! Z.to_nat (offset_of v vs) = Some v.
Proof.
  induction vs as [|w vs IH]; intros Hv; [by apply not_elem_of_nil in Hv|]. cbn [offset_of]. rewrite len_cons. pose proof (len_nonneg vs).
  destruct (Z.eqb_spec w v) as [->|Hne]; [split; [lia|done]|]. apply elem_of_cons in Hv as [?|Hv]; [done|].
  destruct (IH Hv) as [Hb Hl]. split; [lia|]. by replace (Z.to_nat (1 + offset_of v vs)) with (S (Z.to_nat (offset_of v vs))) by lia.
Qed.

Lemma inturn_spec s n v : Validators s ≠ ∅ → v ∈ Validators s →
  inturn s n v = Ok (bool_decide (n mod len (validators s) = offset_of v (validators s))).
Proof.
  intros Hne Hv. unfold inturn. rewrite (proj2 (Z.eqb_neq (len (validators s)) 0)).
  { f_equal. by destruct (Z.eqb_spec (n mod len (validators s)) (offset_of v (validators s))); [rewrite bool_decide_eq_true_2|rewrite bool_decide_eq_false_2]. }
  destruct (offset_elem _ _ (proj2 (validators_elem s v) Hv)). lia.
Qed.

(** C32: with at least one validator, exactly one validator is in turn for each block number,
    the others get the lower difficulty; and among as many consecutive numbers as there
    are validators each validator is in turn exactly once. *)
Theorem turns_fair s : Validators s ≠ ∅ →
  (∀ n, ∃ v, v ∈ Validators s ∧ inturn s n v = Ok true ∧ ∀ w, w ∈ Validators s → w ≠ v → inturn s n w = Ok false) ∧
  (∀ v start, v ∈ Validators s → ∃ n, start ≤ n < start + Z.of_nat (size (Validators s)) ∧ inturn s n v = Ok true ∧
    ∀ m, start ≤ m < start + Z.of_nat (size (Validators s)) → m ≠ n → inturn s m v = Ok false).
Proof.
  intros Hne. rewrite <-validators_len. set (vs := validators s).
  assert (0 < len vs) as Hpos.
  { destruct (set_choose_L _ Hne) as [v Hv]. destruct (offset_elem _ _ (proj2 (validators_elem s v) Hv)). unfold vs. lia. }
  split.
  - intros n. pose proof (Z.mod_pos_bound n (len vs) Hpos) as Hm.
    destruct (lookup_lt_is_Some_2 vs (Z.to_nat (n mod len vs))) as [v Hv]; [unfold len in *; lia|]. exists v.
    assert (offset_of v vs = n mod len vs) as Ho by (rewrite (offset_lookup vs _ v) by (done || apply validators_nodup); lia).
    assert (v ∈ Validators s) as Hvs by (apply validators_elem; by eapply list_elem_of_lookup_2).
    split_and!; [done|rewrite inturn_spec by done; by rewrite bool_decide_eq_true_2|].
    intros w Hw Hwv. rewrite inturn_spec by done. fold vs. rewrite bool_decide_eq_false_2; [done|]. intros Hn. apply Hwv.
    destruct (offset_elem vs w (proj2 (validators_elem s w) Hw)) as [_ Hl]. rewrite <-Hn, Hv in Hl. by injection Hl.
  - intros v start Hv. destruct (offset_elem vs v (proj2 (validators_elem s v) Hv)) as [Ho _].
    set (o := offset_of v vs) in *. pose proof (Z.mod_pos_bound (o - start) (len vs) Hpos) as Hd.
    exists (start + (o - start) mod len vs). split; [lia|]. split.
    + rewrite inturn_spec by done. fold vs o. rewrite bool_decide_eq_true_2; [done|].
      rewrite Zplus_mod_idemp_r. replace (start + (o - start)) with o by lia. by apply Z.mod_small.
    + intros m Hm Hne'. rewrite inturn_spec by done. fold vs o. rewrite bool_decide_eq_false_2; [done|]. intros Hmo. apply Hne'.
      assert ((m - start) mod len vs = (o - start) mod len vs) as Heq.
      { rewrite <-Hmo. by rewrite Zminus_mod_idemp_l. }
      rewrite (Z.mod_small (m - start)) in Heq by lia. lia.
Qed.

(** ** Recent signers *)

(** [Seal] waits exactly if [apply] would refuse the block. *)
Lemma must_wait_shifted s v : snap_ok s → s_Number s + 1 < 2 ^ 64 →
  must_wait s (s_Number s + 1) v = signed_recently (shifted (Validators s) (Recents s) (s_Number s + 1)) v.
Proof.
  intros Hs Hn. pose proof (w_number _ _ Hs) as [Hn0 _]. pose proof (limit_pos (Validators s)) as Hlim. apply eq_true_iff_eq.
  rewrite signed_recently_spec. unfold must_wait. rewrite existsb_exists. split.
  - intros ([k w] & Hin%list_elem_of_In%elem_of_map_to_list & [Hw Hk]%andb_prop). cbn [fst snd] in *. exists k.
    apply Z.eqb_eq in Hw as ->. unfold shifted. destruct (Z.leb_spec (limit_of (Validators s)) (s_Number s + 1)) as [Hle|Hgt]; [|done].
    rewrite (proj2 (Z.ltb_ge _ _)) in Hk by lia. apply Z.ltb_lt in Hk. rewrite u64_small in Hk by (unfold is_u64; lia).
    rewrite lookup_delete_ne by lia. done.
  - intros [k Hk]. exists (k, v). split; [apply list_elem_of_In, elem_of_map_to_list; by eapply shifted_lookup|]. cbn [fst snd].
    rewrite Z.eqb_refl. cbn [andb]. destruct (Z.ltb_spec (s_Number s + 1) (limit_of (Validators s))); [done|]. apply Z.ltb_lt.
    pose proof (shifted_window _ _ _ k v Hs Hk). rewrite u64_small by (unfold is_u64; lia). lia.
Qed.
Lemma seal_late s v n : limit_of (Validators s) ≤ n → seal_too_early s n v = must_wait s n v.
Proof. intros Hle. unfold seal_too_early, must_wait. rewrite (proj2 (Z.ltb_ge _ _)) by lia. done. Qed.
Lemma seal_early s v : snap_ok s → s_Number s + 1 < limit_of (Validators s) → seal_too_early s (s_Number s + 1) v = false.
Proof.
  intros Hs Hlt. pose proof (w_number _ _ Hs) as [Hn0 _]. pose proof (w_size _ _ Hs) as Hsz. cbn [fst] in Hsz.
  apply not_true_iff_false. unfold seal_too_early. rewrite existsb_exists.
  intros ([k w] & Hin%list_elem_of_In%elem_of_map_to_list & [_ Hk%Z.ltb_lt]%andb_prop). cbn [fst snd] in *.
  destruct (w_window _ _ Hs k w Hin) as [Hk0 [_ Hk1]]. unfold limit_of in *. unfold u64 in Hk.
  assert (Z.of_nat (size (Validators s)) / 2 ≤ 2 ^ 62) by (apply Z.div_le_upper_bound; lia).
  rewrite <-(Z_mod_plus_full _ 1), Z.mod_small in Hk by lia. lia.
Qed.

Section seal.
Context (Ecrecover : bytes → bytes → option bytes) (keccak256 : bytes → Z).
Context {C CS D : Type} `{!Cache Z Z C, !Cache Z Snapshot CS, !KeyValueStore D}.
Context (config : CongressConfig).
Implicit Types (h : Header) (s : Snapshot).
Abbreviation Engine := (@Engine C CS D).
Abbreviation ecrecover := (ecrecover Ecrecover keccak256).
Abbreviation apply := (apply Ecrecover keccak256 config).
Abbreviation check_seal := (check_seal Ecrecover keccak256 false).
Abbreviation reachable := (reachable Ecrecover keccak256 config (C:=C)).

(** The header is of the validator that signed it and has the difficulty of its turn. *)
Definition in_order s h (v : Z) : Prop := h_Coinbase h = v ∧ ∃ d, h_Difficulty h = Some d ∧ calcDifficulty s v = Ok d.

(** The outcome of the seal's check. *)
Lemma check_seal_spec s h (e : Engine) c' v : Validators s ≠ ∅ → is_u64 (s_Number s + 1) → ecrecover h (signatures e) = (c', Ok v) →
  (∃ e', check_seal s h (s_Number s + 1) e = (e', Ok tt)) ↔
  in_order s h v ∧ v ∈ Validators s ∧ seal_too_early s (s_Number s + 1) v = false.
Proof.
  intros Hne Hn Hrec. unfold CongressVerify.check_seal, in_order, calcDifficulty. rewrite u64_small by done.
  unfold mbind at 1, st_bind at 1, with_signatures at 1. rewrite Hrec.
  destruct (Z.eqb_spec v (h_Coinbase h)) as [<-|Hc]; cbn [negb]; [|split; [by intros [? [=]]|by intros [[? _] _]]].
  destruct (bool_decide_reflect (v ∈ Validators s)) as [Hv|Hv]; cbn [negb]; [|split; [by intros [? [=]]|by intros (_ & ? & _)]].
  destruct (seal_too_early s _ v); [split; [by intros [? [=]]|by intros (_ & _ & ?)]|].
  unfold mbind, st_bind, st_lift, res_bind, mret, st_ret. rewrite (inturn_spec s _ v Hne Hv). set (t := bool_decide _).
  destruct (h_Difficulty h) as [d|]; [|split; [by intros [? [=]]|by intros [(_ & ? & [=] & _) _]]].
  destruct (Z.eqb_spec d (if t then diffInTurn else diffNoTurn)) as [->|Hd]; cbn [negb].
  - split; [intros _; by eauto 10|intros _; by eexists].
  - split; [by intros [? [=]]|]. intros [(_ & d' & [= <-] & [= Hd']) _]. by destruct t.
Qed.

(** One header applied. *)
Lemma apply_one s h c c' v : reachable s → s_Number s + 1 < 2 ^ 64 → Epoch config ≠ 0 → num h = Ok (s_Number s + 1) →
  proper config h → ecrecover h c = (c', Ok v) → v ∈ Validators s →
  if signed_recently (shifted (Validators s) (Recents s) (s_Number s + 1)) v
  then apply s [h] c = (c', Err errRecentlySigned) else ∃ s', apply s [h] c = (c', Ok s').
Proof.
  intros Hr Hn He Hnum Hp Hrec Hv. destruct (reachable_ok _ _ _ s Hr) as [Hs _]. pose proof (w_number _ _ Hs) as [Hn0 _].
  unfold CongressSnapshot.apply, mbind, st_bind, st_lift, mret, st_ret. replace (contiguous [h]) with (Ok tt : res cong_err unit) by done.
  rewrite Hnum, u64_small by (unfold is_u64; lia). rewrite Z.eqb_refl. cbn [negb apply_loop]. unfold mbind, st_bind.
  destruct (signed_recently _ v) eqn:Hsr.
  - unfold apply_header, mbind, st_bind, st_lift. rewrite Hnum, Hrec. rewrite bool_decide_eq_true_2 by done. cbn [negb].
    fold (shifted (Validators s) (Recents s) (s_Number s + 1)). by rewrite Hsr.
  - destruct (proj2 (apply_header_total Ecrecover keccak256 config (s_Number s + 1) (Validators s) (Recents s) h c c' v Hnum ltac:(lia) He Hp Hrec)
      (conj Hv Hsr)) as [[vals recents] ->]. by eexists.
Qed.

(** C23: verification and application agree, from block [len(Validators)/2 + 1] on: the seal
    of a header for the next block is accepted by [verifySeal] exactly if [apply] accepts
    the header, its coinbase is the signer and its difficulty is that of the signer's
    turn.  So a header that was verified never makes the next snapshot fail. *)
Theorem seal_applies s h (e : Engine) c' v : reachable s → limit_of (Validators s) ≤ s_Number s + 1 < 2 ^ 64 → Epoch config ≠ 0 →
  num h = Ok (s_Number s + 1) → proper config h → ecrecover h (signatures e) = (c', Ok v) →
  (∃ e', check_seal s h (s_Number s + 1) e = (e', Ok tt)) ↔ in_order s h v ∧ ∃ s', apply s [h] (signatures e) = (c', Ok s').
Proof.
  intros Hr [Hlim Hn] He Hnum Hp Hrec. destruct (reachable_ok _ _ _ s Hr) as [Hs Hne]. pose proof (w_number _ _ Hs) as [Hn0 _].
  rewrite (check_seal_spec s h e c' v Hne ltac:(unfold is_u64; lia) Hrec). apply and_iff_compat_l.
  rewrite seal_late, must_wait_shifted by done. split.
  - intros [Hv Hsr]. pose proof (apply_one s h (signatures e) c' v Hr Hn He Hnum Hp Hrec Hv) as Ha. by rewrite Hsr in Ha.
  - intros [s' Hs']. assert (v ∈ Validators s) as Hv.
    { revert Hs'. unfold CongressSnapshot.apply, mbind, st_bind, st_lift, mret, st_ret. replace (contiguous [h]) with (Ok tt : res cong_err unit) by done.
      rewrite Hnum, u64_small by (unfold is_u64; lia). rewrite Z.eqb_refl. cbn [negb apply_loop]. unfold apply_header, mbind, st_bind, st_lift.
      rewrite Hnum, Hrec. by destruct (bool_decide_reflect (v ∈ Validators s)). }
    split; [done|]. pose proof (apply_one s h (signatures e) c' v Hr Hn He Hnum Hp Hrec Hv) as Ha. rewrite Hs' in Ha. by destruct (signed_recently _ v).
Qed.

(** C24: before block [len(Validators)/2 + 1] the subtraction in [verifySeal] wraps around and
    the check of recent signers is void: a validator that signed any of the first blocks
    can seal the next one and [verifySeal] accepts it, while [Seal] refuses to make such a
    block and [apply] fails on it, so no block on top of it can be verified. *)
Theorem early_seal_gap s h (e : Engine) c' v k : reachable s → s_Number s + 1 < limit_of (Validators s) → s_Number s + 1 < 2 ^ 64 → Epoch config ≠ 0 →
  num h = Ok (s_Number s + 1) → proper config h → ecrecover h (signatures e) = (c', Ok v) →
  in_order s h v → v ∈ Validators s → Recents s !! k = Some v →
  (∃ e', check_seal s h (s_Number s + 1) e = (e', Ok tt)) ∧ must_wait s (s_Number s + 1) v = true ∧
  apply s [h] (signatures e) = (c', Err errRecentlySigned).
Proof.
  intros Hr Hlim Hn He Hnum Hp Hrec Ho Hv Hk. destruct (reachable_ok _ _ _ s Hr) as [Hs Hne]. pose proof (w_number _ _ Hs) as [Hn0 _].
  assert (signed_recently (shifted (Validators s) (Recents s) (s_Number s + 1)) v = true) as Hsr.
  { apply signed_recently_spec. exists k. unfold shifted. rewrite (proj2 (Z.leb_gt _ _)) by lia. done. }
  split_and!.
  - apply (check_seal_spec s h e c' v Hne ltac:(unfold is_u64; lia) Hrec). split_and!; [done..|]. by apply seal_early.
  - by rewrite must_wait_shifted.
  - pose proof (apply_one s h (signatures e) c' v Hr Hn He Hnum Hp Hrec Hv) as Ha. by rewrite Hsr in Ha.
Qed.
End seal.
