(* ===== verification/CongressMint.v ===== *)
(** * A block that is minted is accepted (src/geth/consensus/congress/congress.go)

    [Prepare] sets the consensus fields of a header, the miner fills in the rest and
    [Seal] signs.  The header passes [verifyHeader] at every node that finds the same
    snapshot for the parent. *)
From stdpp Require Import gmap sorting.
From S2P Require Import Prelude RlpBase RlpRaw RlpEncode StateDb TxMeta CongressSnapshot CongressSafe CongressVerify CongressCache CongressSeal.

Section mint.
Context (Ecrecover : bytes → bytes → option bytes) (keccak256 : bytes → Z).
Context {C CS D : Type} `{!Cache Z Z C, !CacheLaws Z Z C, !Cache Z Snapshot CS, !CacheLaws Z Snapshot CS}.
Context `{!KeyValueStore D, !KeyValueLaws D}.
Context (json_Marshal : Snapshot → option bytes) (json_Unmarshal : bytes → option Snapshot).
Context (config : CongressConfig) (chain : ChainReader) (known : Header → Prop).
Context (validator : Z) (callTopValidators : Header → Header → option (list Z)) (signFn : bytes → option bytes).
Implicit Types (h : Header) (s : Snapshot).
Abbreviation Engine := (@Engine C CS D).
Abbreviation Hash := (header_Hash keccak256).
Abbreviation snapshot := (snapshot Ecrecover keccak256 json_Marshal json_Unmarshal config chain).
Abbreviation coherent := (coherent Ecrecover keccak256 json_Unmarshal config chain known).
Abbreviation world_ok := (world_ok keccak256 json_Marshal json_Unmarshal chain known).
Abbreviation Prepare := (Prepare Ecrecover keccak256 json_Marshal json_Unmarshal config chain validator callTopValidators).
Abbreviation Seal := (Seal Ecrecover keccak256 json_Marshal json_Unmarshal config chain validator signFn).
Abbreviation verifyHeader := (verifyHeader Ecrecover keccak256 json_Marshal json_Unmarshal config false chain).

(** The signing function signs for the validator. *)
Definition signs : Prop := ∀ msg sig, signFn msg = Some sig →
  len sig = extraSeal ∧ ∃ b pub, Ecrecover (hash_bytes (keccak256 msg)) sig = Some (b :: pub) ∧ keccak256 pub mod 2 ^ 160 = validator.

(** Nodes with coherent caches find the snapshot [s] for the block. *)
Definition agreed (fuel : nat) (n x : Z) s : Prop :=
  ∀ e : Engine, coherent e → ∃ e', snapshot fuel n x [] e = (e', Ok s) ∧ coherent e'.

(** The miner keeps the fields that [Prepare] sets. *)
Record filled h h' : Prop := {
  fi_parent : ParentHash h' = ParentHash h; fi_coinbase : h_Coinbase h' = h_Coinbase h; fi_diff : h_Difficulty h' = h_Difficulty h;
  fi_number : h_Number h' = h_Number h; fi_time : h_Time h' = h_Time h; fi_extra : Extra h' = Extra h; fi_mix : MixDigest h' = MixDigest h
}.

(** ** The fields that Prepare sets *)

Record prepared (n : Z) s parent h : Prop := {
  pr_number : num h = Ok n;
  pr_coinbase : h_Coinbase h = validator;
  pr_difficulty : ∃ d, h_Difficulty h = Some d ∧ calcDifficulty s validator = Ok d;
  pr_mix : MixDigest h = 0;
  pr_time : u64 (h_Time parent + Period config) ≤ h_Time h;
  pr_long : extraVanity + extraSeal ≤ len (Extra h);
  pr_plain : n mod Epoch config ≠ 0 → len (Extra h) = extraVanity + extraSeal;
  pr_epoch : Z.rem (len (Extra h) - extraVanity - extraSeal) AddressLength = 0
}.

Lemma len_vanity b : len (vanity b) = 32.
Proof. unfold vanity, len. rewrite length_take, length_app, length_replicate. lia. Qed.
Lemma len_addresses (vs : list Z) : len (mjoin (map (be_bytes 20) vs)) = 20 * len vs.
Proof.
  induction vs as [|v vs IH]; [done|]. cbn [map]. change (mjoin (be_bytes 20 v :: map (be_bytes 20) vs)) with (be_bytes 20 v ++ mjoin (map (be_bytes 20) vs)).
  rewrite len_app, IH, len_be_bytes, len_cons. lia.
Qed.

Lemma Prepare_prepared fuel now now' h n s (e e' : Engine) h' parent : coherent e → agreed fuel (n - 1) (ParentHash h) s →
  num h = Ok n → 0 < n < 2 ^ 64 → now ≤ now' → GetHeader chain (ParentHash h) (n - 1) = Some parent →
  Prepare fuel now now' h e = (e', Ok h') → prepared n s parent h' ∧ ParentHash h' = ParentHash h ∧ coherent e'.
Proof.
  intros Hco Hag Hn Hpos Hnow Hpar. destruct (Hag e Hco) as (e1 & Hs & Hco1). unfold CongressVerify.Prepare.
  unfold mbind at 1, st_bind at 1, st_lift at 1. rewrite Hn. rewrite !(u64_small (n - 1)) by (unfold is_u64; lia).
  unfold mbind at 1, st_bind at 1. rewrite Hs. unfold mbind at 1, st_bind at 1, st_lift at 1.
  destruct (calcDifficulty s validator) as [d| | |] eqn:Hd; try done. destruct (Epoch config =? 0); [done|].
  unfold mbind, st_bind, st_lift. destruct (epoch_validators _ _ _ s _ n) as [vs| | |] eqn:Hvs; try done. rewrite Hpar.
  assert (n mod Epoch config ≠ 0 → vs = []) as Hm.
  { intros Hne. unfold epoch_validators in Hvs. rewrite (proj2 (Z.eqb_neq _ _) Hne) in Hvs. by injection Hvs. }
  assert (len (vanity (Extra h) ++ mjoin (map (be_bytes 20) vs) ++ replicate 65 0) = 32 + 20 * len vs + 65) as Hlen.
  { rewrite !len_app, len_vanity, len_addresses. unfold len at 2. rewrite length_replicate. lia. }
  pose proof (len_nonneg vs). set (extra := vanity (Extra h) ++ _) in *. clearbody extra. intros [= <- <-]. split; [|done]. split; cbn [num h_Number h_Coinbase h_Difficulty MixDigest h_Time Extra set_consensus]; try done.
  - by exists d.
  - destruct (Z.ltb_spec (u64 (h_Time parent + Period config)) now); lia.
  - rewrite Hlen. unfold extraVanity, extraSeal. lia.
  - intros Hne. rewrite Hlen, (Hm Hne). done.
  - rewrite Hlen. unfold extraVanity, extraSeal, AddressLength. replace (_ - 32 - 65) with (len vs * 20) by lia. apply Z.rem_mul. lia.
Qed.

(** ** The seal *)

(** Extra data with room for a seal: what comes before it, and the seal. *)
Lemma split_seal (b : bytes) : extraSeal ≤ len b → ∃ front seal : bytes, b = front ++ seal ∧ len seal = extraSeal.
Proof.
  intros Hl. exists (take (length b - 65) b), (drop (length b - 65) b). split; [by rewrite take_drop|].
  unfold len, extraSeal in *. rewrite length_drop. lia.
Qed.
Lemma slice_front {E} (front seal : bytes) : len seal = extraSeal → go_slice (E:=E) (front ++ seal) 0 (len (front ++ seal) - extraSeal) = Ok front.
Proof. intros Hl. apply (go_slice_app [] front seal); [done|]. rewrite len_app, len_nil. lia. Qed.
Lemma slice_seal {E} (front seal : bytes) : len seal = extraSeal →
  go_slice (E:=E) (front ++ seal) (len (front ++ seal) - extraSeal) (len (front ++ seal)) = Ok seal.
Proof. intros Hl. rewrite len_app. replace (len front + len seal - extraSeal) with (len front) by lia. by apply go_slice_tail. Qed.

(** The signer that is recovered from a seal. *)
Lemma signer_sealed h front seal sig msg b pub : Extra h = front ++ seal → len seal = extraSeal → len sig = extraSeal →
  encodeSigHeader h = Ok msg → Ecrecover (hash_bytes (keccak256 msg)) sig = Some (b :: pub) →
  signer_of Ecrecover keccak256 (set_extra h (front ++ sig)) = Ok (keccak256 pub mod 2 ^ 160).
Proof.
  intros He Hl Hls Hmsg Hrec. unfold signer_of, ecrecover, SealHash.
  assert (encodeSigHeader (set_extra h (front ++ sig)) = Ok msg) as Henc.
  { rewrite <-Hmsg. unfold encodeSigHeader. rewrite He. change (Extra (set_extra h (front ++ sig))) with (front ++ sig). by rewrite !slice_front. }
  rewrite Henc. unfold mbind, st_bind, st_get, st_put, st_lift, res_bind. cbn [cache_Get no_cache].
  change (Extra (set_extra h (front ++ sig))) with (front ++ sig). rewrite (slice_seal front sig Hls).
  rewrite (proj2 (Z.ltb_ge _ _)) by (rewrite len_app; pose proof (len_nonneg front); lia). by rewrite Hrec.
Qed.

Lemma Seal_sealed fuel nanos Int63n h n s txs (e e' : Engine) h' delay : coherent e → agreed fuel (n - 1) (ParentHash h) s → signs → num h = Ok n → n ≠ 0 →
  extraSeal ≤ len (Extra h) → Seal fuel nanos Int63n h txs e = (e', Ok (Some (h', delay))) →
  validator ∈ Validators s ∧ must_wait s n validator = false ∧
  ∃ extra, h' = set_extra h extra ∧ len extra = len (Extra h) ∧ signer_of Ecrecover keccak256 h' = Ok validator.
Proof.
  intros Hco Hag Hsig Hn Hpos Hlen. destruct (Hag e Hco) as (e1 & Hs & _). unfold CongressVerify.Seal.
  unfold mbind at 1, st_bind at 1, st_lift at 1. rewrite Hn, (proj2 (Z.eqb_neq _ _) Hpos). destruct (_ && _); [done|].
  unfold mbind at 1, st_bind at 1. rewrite Hs. destruct (bool_decide_reflect (validator ∈ Validators s)) as [Hv|]; [|done]. cbn [negb].
  destruct (must_wait s n validator); [done|]. unfold mbind, st_bind, st_lift, mret, st_ret. destruct (seal_delay s h nanos Int63n); try done.
  destruct (encodeSigHeader h) as [msg| | |] eqn:Hmsg; try done. destruct (signFn msg) as [sig|] eqn:Hsf; [|done].
  destruct (Hsig msg sig Hsf) as (Hls & b & pub & Hrec & Hpub).
  destruct (split_seal _ Hlen) as (front & seal & He & Hl). rewrite He, slice_front by done. intros [= _ <- _]. split_and!; [done..|].
  rewrite (take_ge sig) by (unfold len, extraSeal in *; lia).
  rewrite drop_app_length, (drop_ge seal) by (unfold len in *; lia). rewrite app_nil_r.
  exists (front ++ sig). split_and!; [done|rewrite !len_app; lia|]. rewrite <-Hpub. by apply (signer_sealed h front seal sig msg b).
Qed.

(** ** Verification *)

(** The seal's check depends on the signer alone. *)
Lemma check_seal_ok s h (e : Engine) v : world_ok → coherent e → known h → Validators s ≠ ∅ → is_u64 (s_Number s + 1) →
  signer_of Ecrecover keccak256 h = Ok v → in_order s h v → v ∈ Validators s → must_wait s (s_Number s + 1) v = false →
  ∃ e', check_seal Ecrecover keccak256 false s h (s_Number s + 1) e = (e', Ok tt) ∧ coherent e'.
Proof.
  intros Hwo Hco Hh Hne Hn Hs [Hc (d & Hd & Hcd)] Hv Hw.
  destruct (ecrecover_agrees _ _ _ _ chain known h Hwo Hh (signatures e) (co_sig _ _ _ _ _ _ e Hco)) as (c' & Hrec & Hc').
  fold (signer_of Ecrecover keccak256 h) in Hrec. rewrite Hs in Hrec.
  assert (seal_too_early s (s_Number s + 1) v = false) as Hse.
  { apply not_true_iff_false. intros He. apply not_true_iff_false in Hw. apply Hw. unfold seal_too_early, must_wait in *.
    apply existsb_exists in He as (p & Hin & [H1 H2]%andb_prop). apply existsb_exists. exists p. split; [done|]. by rewrite H1, H2, orb_true_r. }
  unfold check_seal, mbind, st_bind, with_signatures, st_lift. rewrite Hrec.
  rewrite Hc, Z.eqb_refl. cbn [negb]. rewrite bool_decide_eq_true_2 by done. cbn [negb]. rewrite Hse.
  unfold calcDifficulty in Hcd. rewrite u64_small in Hcd by done. unfold mbind, res_bind in Hcd.
  destruct (inturn s (s_Number s + 1) v) as [t| | |]; try done. injection Hcd as <-. rewrite Hd, Z.eqb_refl. cbn [negb].
  eexists. split; [done|]. destruct Hco. by split.
Qed.

(** What [verifyHeader] checks before the seal. *)
Lemma standalone_ok n s parent h now : prepared n s parent h → 0 < n → Epoch config ≠ 0 → h_Time h ≤ now →
  UncleHash h = uncleHash keccak256 → h_GasLimit h ≤ 0x7fffffffffffffff → EIP150Hash (Config chain) = 0 →
  verify_standalone keccak256 config chain now h = Ok tt.
Proof.
  intros [Hn Hc (d & Hd & _) Hmix _ Hlong Hplain Hep] Hpos He Ht Hu Hg H150. unfold verify_standalone.
  destruct (h_Number h) as [z|] eqn:Hz; [|unfold num in Hn; by rewrite Hz in Hn]. rewrite Hn. unfold mbind, res_bind.
  rewrite (proj2 (Z.ltb_ge now _)) by done. unfold extraVanity, extraSeal in *. rewrite !(proj2 (Z.ltb_ge (len (Extra h)) _)) by lia.
  rewrite (proj2 (Z.eqb_neq _ _) He).
  assert (negb (n mod Epoch config =? 0) && negb (len (Extra h) - 32 - 65 =? 0) = false) as ->.
  { destruct (Z.eqb_spec (n mod Epoch config) 0); [done|]. rewrite Hplain by done. done. }
  rewrite Hep, Hmix, Hu, Z.eqb_refl. cbn [negb]. rewrite andb_false_r. cbn [Z.eqb negb]. rewrite Hd. rewrite (bool_decide_eq_false_2 (Some d = None)) by done. rewrite andb_false_r, Z.eqb_refl. cbn [negb].
  rewrite (proj2 (Z.ltb_ge _ (h_GasLimit h))) by done. unfold VerifyForkHashes. rewrite H150. destruct (EIP150Block _); [|done].
  rewrite Hz. by rewrite andb_false_r.
Qed.

(** C14: a block that a validator mints is accepted.  The header that [Prepare] makes, with the
    other fields filled in by the miner within the limits of gas and base fee, and that
    [Seal] signs, passes [verifyHeader] at every node whose caches are coherent and that
    finds the same snapshot for the parent; the node's caches stay coherent. *)
Theorem minted_verifies fuel n s parent now now' now2 nanos Int63n delay txs h0 h1 h2 h3 (e e' e1 e2 ev : Engine) :
  world_ok → signs → Epoch config ≠ 0 → EIP150Hash (Config chain) = 0 →
  coherent e → coherent e1 → coherent ev → agreed fuel (n - 1) (ParentHash h0) s → s_Number s = n - 1 → Validators s ≠ ∅ →
  num h0 = Ok n → 0 < n < 2 ^ 64 → now ≤ now' → GetHeader chain (ParentHash h0) (n - 1) = Some parent → num parent = Ok (n - 1) →
  Prepare fuel now now' h0 e = (e', Ok h1) →
  filled h1 h2 → UncleHash h2 = uncleHash keccak256 → h_GasLimit h2 ≤ 0x7fffffffffffffff → verify_fees chain parent h2 = Ok tt →
  Seal fuel nanos Int63n h2 txs e1 = (e2, Ok (Some (h3, delay))) → known h3 → h_Time h3 ≤ now2 →
  ∃ ev', verifyHeader fuel now2 h3 [] ev = (ev', Ok tt) ∧ coherent ev'.
Proof.
  intros Hwo Hsig He H150 Hco Hco1 Hcov Hag Hsn Hne Hn Hpos Hnow Hpar Hparn Hprep Hfill Hu Hg Hfees Hseal Hk Ht.
  destruct (Prepare_prepared fuel now now' h0 n s e e' h1 parent Hco Hag Hn Hpos Hnow Hpar Hprep) as ([Pn Pc Pd Pm Pt Pl Pp Pe] & Hp & _).
  destruct Hfill as [Fp Fc Fd Fn Ft Fe Fm].
  assert (num h2 = Ok n) as Hn2 by (unfold num in *; by rewrite Fn).
  assert (ParentHash h2 = ParentHash h0) as Hp2 by by rewrite Fp. rewrite <-Hp2 in Hag.
  destruct (Seal_sealed fuel nanos Int63n h2 n s txs e1 e2 h3 delay Hco1 Hag Hsig Hn2 ltac:(lia) ltac:(rewrite Fe; unfold extraVanity, extraSeal in *; lia) Hseal)
    as (Hv & Hw & extra & -> & Hle & Hsgn).
  set (h3 := set_extra h2 extra) in *.
  assert (prepared n s parent h3) as Hpr.
  { split; cbn [h3 set_extra h_Coinbase h_Difficulty MixDigest h_Time Extra]; rewrite ?Hle, ?Fe, ?Fc, ?Fd, ?Fm, ?Ft; done. }
  unfold CongressVerify.verifyHeader. unfold mbind at 1, st_bind at 1, st_lift at 1.
  rewrite (standalone_ok n s parent h3 now2 Hpr) by (done || lia). unfold verifyCascadingFields. unfold mbind at 1, st_bind at 1, st_lift at 1.
  change (num h3) with (num h2). rewrite Hn2. rewrite (proj2 (Z.eqb_neq n 0)) by lia. unfold parent_of. cbn [list.last].
  change (ParentHash h3) with (ParentHash h2). rewrite Hp2, Hpar. unfold mbind at 1, st_bind at 1, st_lift at 1. rewrite Hparn, Z.eqb_refl.
  rewrite (proj2 (wo_chain _ _ _ _ _ Hwo _ _ _ Hpar)), Z.eqb_refl. cbn [negb orb].
  rewrite (proj2 (Z.ltb_ge (h_Time h3) _)) by (apply (pr_time _ _ _ _ Hpr)). change (verify_fees chain parent h3) with (verify_fees chain parent h2).
  unfold mbind at 1, st_bind at 1, st_lift at 1. rewrite Hfees.
  unfold verifySeal. unfold mbind at 1, st_bind at 1, st_lift at 1. change (num h3) with (num h2). rewrite Hn2, (proj2 (Z.eqb_neq n 0)) by lia.
  unfold mbind, st_bind. change (ParentHash h3) with (ParentHash h2). destruct (Hag ev Hcov) as (ev1 & -> & Hcov1).
  replace n with (s_Number s + 1) in * by lia.
  apply (check_seal_ok s h3 ev1 validator Hwo Hcov1 Hk Hne); [unfold is_u64; lia|done| |done..].
  split; [apply (pr_coinbase _ _ _ _ Hpr)|apply (pr_difficulty _ _ _ _ Hpr)].
Qed.
End mint.
