(* ===== verification/CongressAccess.v ===== *)
(** * Access control of Congress (src/geth/consensus/congress/congress.go, blacklist_validator.go)

    A system contract keeps two lists of addresses that may not send or not receive, rules
    on which topics of events are checked, and who may create contracts.  The engine reads
    the lists through caches, refuses transactions, and hands the EVM a validator.

    The state, the calls of the system contract and the caches are parameters. *)
From stdpp Require Import gmap.
From S2P Require Import Prelude RlpBase RlpRaw RlpEncode StateDb TxMeta CongressSnapshot CongressVerify.

Inductive blacklistDirection := DirectionFrom | DirectionTo | DirectionBoth.
#[export] Instance blacklistDirection_eq_dec : EqDecision blacklistDirection.
Proof. solve_decision. Defined.

(** [common.AddressCheckType]: an integer with four names. *)
Definition CheckNone : Z := 0.
Definition CheckFrom : Z := 1.
Definition CheckTo : Z := 2.
Definition CheckBothInAny : Z := 3.

Definition SysGovContractAddr : Z := 0xF003.
Definition AddressListContractAddr : Z := 0xF004.
Definition RewardPoolContractAddr : Z := 0xF007.
Definition SysGovToAddr : Z := 0xffff.
Definition DevMappingPosition : Z := 2.
Definition BlackLastUpdatedNumberPosition : Z := 7.
Definition RulesLastUpdatedNumberPosition : Z := 8.

Inductive access_err := ErrAddressDenied | errContractCall.

(** ** The validator that the EVM gets *)

(** Rules: the checks of the topics of an event. *)
Record blacklistValidator := mk_blacklistValidator { blacks : gmap Z blacklistDirection; rules : gmap Z (gmap Z Z) }.

Definition is_denied (m : gmap Z blacklistDirection) (address cType : Z) : bool :=
  match m !! address with
  | None => false
  | Some d =>
      if cType =? CheckFrom then negb (bool_decide (d = DirectionTo))
      else if cType =? CheckTo then negb (bool_decide (d = DirectionFrom))
      else cType =? CheckBothInAny
  end.

(** The loop over the checks of a rule; a negative index is out of range. *)
Fixpoint check_topics (m : gmap Z blacklistDirection) (topics : list Z) (checks : list (Z * Z)) : res access_err bool :=
  match checks with
  | [] => Ok false
  | (idx, checkType) :: checks =>
      if len topics <=? idx then check_topics m topics checks
      else
        topic ← go_index topics idx;
        if is_denied m (topic mod 2 ^ 160) checkType then Ok true else check_topics m topics checks
  end.
Definition is_log_denied (b : blacklistValidator) (topics : list Z) : res access_err bool :=
  match topics with
  | sig :: _ :: _ =>
      match rules b !! sig with
      | Some checks => check_topics (blacks b) topics (map_to_list checks)
      | None => Ok false
      end
  | _ => Ok false
  end.

(** ** System transactions *)

(** [IsSysTransaction] of a transaction to [to] at a gas price. *)
Definition IsSysTransaction (sender : Z) (to : option Z) (gasPrice : Z) (header : Header) : bool :=
  match to with
  | None => false
  | Some to =>
      ((sender =? h_Coinbase header) && (to =? SysGovToAddr) && (gasPrice =? 0)) ||
      ((sender =? h_Coinbase header) && (to =? SysGovContractAddr))
  end.

Section access.
Context (keccak256 : bytes → Z).
Context {W CB CR : Type} `{!Cache Z (gmap Z blacklistDirection) CB, !Cache Z (gmap Z (gmap Z Z)) CR}.
Context (GetState : W → Z → Z → Z).
Context (getBlacksFrom getBlacksTo : W → Header → option (list Z)).
Context (rulesLen : W → Header → option Z) (getRuleByIndex : W → Header → Z → option (Z * Z * Z)).
Context (cconf : ChainConfig) (config : CongressConfig) (chain : ChainReader).
Implicit Types (w : W) (header : Header).

(** ** Who may create contracts *)

Definition isDeveloperVerificationEnabled w : bool :=
  nth 30 (hash_bytes (GetState w AddressListContractAddr 0)) 0 =? 1.
Definition calcSlotOfDevMappingKey (addr : Z) : Z :=
  keccak256 (hash_bytes addr ++ replicate 30 0 ++ be_bytes 2 DevMappingPosition).
Definition CanCreate w (addr : Z) (height : option Z) : bool :=
  if IsRedCoast cconf height && EnableDevVerification config then
    if isDeveloperVerificationEnabled w then 0 <? GetState w AddressListContractAddr (calcSlotOfDevMappingKey addr)
    else true
  else true.

(** ** The lists *)

Definition lastBlacklistUpdatedNumber w : Z := u64 (GetState w AddressListContractAddr BlackLastUpdatedNumberPosition).
Definition lastRulesUpdatedNumber w : Z := u64 (GetState w AddressListContractAddr RulesLastUpdatedNumberPosition).

(** The map that is built from the two lists. *)
Definition add_to (m : gmap Z blacklistDirection) (a : Z) : gmap Z blacklistDirection :=
  if bool_decide (m !! a = None) then <[a := DirectionTo]> m else <[a := DirectionBoth]> m.
Definition make_blacklist (froms tos : list Z) : gmap Z blacklistDirection :=
  fold_left add_to tos (fold_left (λ m a, <[a := DirectionFrom]> m) froms ∅).

Section cached.
Context {V CV : Type} `{!Cache Z V CV}.
Abbreviation MV := (st CV access_err).

Definition v_Get (x : Z) : MV (option V) := λ c, let '(c, r) := cache_Get x c in (c, Ok r).
Definition v_Add (x : Z) (v : V) : MV unit := λ c, (cache_Add x v c, Ok tt).

(** If the last update is long ago, the value of the grandparent block. *)
Definition from_grandparent header (number lastUpdated : Z) : MV (option V) :=
  if (2 <=? number) && (u64 (lastUpdated + 1) <? number) then
    match GetHeader chain (ParentHash header) (number - 1) with
    | Some parent =>
        v ← v_Get (ParentHash parent);
        match v with
        | Some m => v_Add (ParentHash header) m ≫= λ _, mret (Some m)
        | None => mret None
        end
    | None => mret None
    end
  else mret None.

(** The shape of [getBlacklist] and [getEventCheckRules]: the cache twice, before and after
    the lock, the grandparent's value, the contract. *)
Definition cached header (older : MV (option V)) (call : res access_err V) : MV V :=
  v ← v_Get (ParentHash header);
  match v with
  | Some m => mret m
  | None =>
      v ← v_Get (ParentHash header);
      match v with
      | Some m => mret m
      | None =>
          v ← older;
          match v with
          | Some m => mret m
          | None => m ← st_lift call; v_Add (ParentHash header) m ≫= λ _, mret m
          end
      end
  end.
End cached.

(** [header.Number] read as a number; nil is a panic. *)
Definition header_number header : res access_err Z :=
  match h_Number header with Some n => Ok n | None => Panic runtime_error end.

Definition call_blacklist header w : res access_err (gmap Z blacklistDirection) :=
  match getBlacksFrom w header with
  | None => Err errContractCall
  | Some froms =>
      match getBlacksTo w header with
      | None => Err errContractCall
      | Some tos => Ok (make_blacklist froms tos)
      end
  end.
Definition getBlacklist header w : st CB access_err (gmap Z blacklistDirection) :=
  cached header
    (match SophonBlock cconf with
     | Some b =>
         n ← st_lift (header_number header);
         if b <? n then from_grandparent header (u64 (Z.abs n)) (lastBlacklistUpdatedNumber w) else mret None
     | None => mret None
     end)
    (call_blacklist header w).

(** One rule read from the contract joins the map. *)
Definition add_rule (m : gmap Z (gmap Z Z)) (r : Z * Z * Z) : gmap Z (gmap Z Z) :=
  let '(sig, idx, ct) := r in <[sig := <[i64 idx := ct]> (default ∅ (m !! sig))]> m.
Fixpoint read_rules header w (i : Z) (n : nat) (m : gmap Z (gmap Z Z)) : res access_err (gmap Z (gmap Z Z)) :=
  match n with
  | O => Ok m
  | S n =>
      match getRuleByIndex w header i with
      | None => Err errContractCall
      | Some r => read_rules header w (i + 1) n (add_rule m r)
      end
  end.
Definition call_rules header w : res access_err (gmap Z (gmap Z Z)) :=
  match rulesLen w header with
  | None => Err errContractCall
  | Some cnt => read_rules header w 0 (Z.to_nat cnt) ∅
  end.
Definition getEventCheckRules header w : st CR access_err (gmap Z (gmap Z Z)) :=
  cached header
    (n ← st_lift (header_number header); from_grandparent header (u64 (Z.abs n)) (lastRulesUpdatedNumber w))
    (call_rules header w).

(** Whether a fork block lies before the header. *)
Definition fork_passed (fork : option Z) header : res access_err bool :=
  match fork with
  | None => Ok false
  | Some b => n ← header_number header; Ok (b <? n)
  end.

(** ** Transactions *)

(** The conditions [d != DirectionTo] and [d != DirectionFrom] are those of [is_denied]. *)
Definition ValidateTx (sender : Z) (to : option Z) header w : st CB access_err unit :=
  active ← st_lift (fork_passed (RedCoastBlock cconf) header);
  if negb active then mret tt else
  m ← getBlacklist header w;
  if is_denied m sender CheckFrom then st_err ErrAddressDenied
  else match to with
       | Some to => if is_denied m to CheckTo then st_err ErrAddressDenied else mret tt
       | None => mret tt
       end.

(** The two caches of the engine. *)
Definition on_blacks {A} (m : st CB access_err A) : st (CB * CR) access_err A := λ c, let '(b, r) := m (fst c) in ((b, snd c), r).
Definition on_rules {A} (m : st CR access_err A) : st (CB * CR) access_err A := λ c, let '(b, r) := m (snd c) in ((fst c, b), r).
(** An error of a call is logged and the validator is nil. *)
Definition or_nil {A} (m : st (CB * CR) access_err A) (f : A → st (CB * CR) access_err (option blacklistValidator)) :
    st (CB * CR) access_err (option blacklistValidator) := λ c,
  match m c with (c, Err _) => (c, Ok None) | (c, Ok a) => f a c | (c, Panic why) => (c, Panic why) | (c, OutOfFuel) => (c, OutOfFuel) end.
Definition CreateEvmExtraValidator header w : st (CB * CR) access_err (option blacklistValidator) :=
  active ← st_lift (fork_passed (SophonBlock cconf) header);
  if negb active then mret None else
  or_nil (on_blacks (getBlacklist header w)) (λ m,
    or_nil (on_rules (getEventCheckRules header w)) (λ r, mret (Some (mk_blacklistValidator m r)))).
End access.
