(* ===== verification/CongressGuard.v ===== *)
(** * The blacklist is enforced (src/geth/consensus/congress/congress.go, blacklist_validator.go)

    Through its caches the engine sees exactly the two lists of the contract in the
    state of the parent block. *)
From stdpp Require Import gmap.
From S2P Require Import Prelude RlpBase RlpRaw RlpEncode StateDb TxMeta CongressSnapshot CongressVerify CongressAccess.

(** ** The map of the lists *)

Lemma froms_lookup froms (m : gmap Z blacklistDirection) a :
  fold_left (λ m a, <[a := DirectionFrom]> m) froms m !! a = if bool_decide (a ∈ froms) then Some DirectionFrom else m !! a.
Proof.
  revert m. induction froms as [|b froms IH]; intros m; cbn [fold_left]; [by rewrite bool_decide_eq_false_2 by apply not_elem_of_nil|].
  rewrite IH. destruct (decide (a = b)) as [->|Hne].
  - rewrite lookup_insert_eq. rewrite (bool_decide_eq_true_2 (b ∈ b :: froms)) by (apply elem_of_cons; by left). by destruct (bool_decide _).
  - rewrite lookup_insert_ne by done. rewrite (bool_decide_ext (a ∈ b :: froms) (a ∈ froms)); [done|]. rewrite elem_of_cons. naive_solver.
Qed.
Lemma tos_lookup tos (m : gmap Z blacklistDirection) a : NoDup tos →
  fold_left add_to tos m !! a =
  if bool_decide (a ∈ tos) then Some (if bool_decide (m !! a = None) then DirectionTo else DirectionBoth) else m !! a.
Proof.
  revert m. induction tos as [|b tos IH]; intros m Hnd; cbn [fold_left]; [by rewrite bool_decide_eq_false_2 by apply not_elem_of_nil|].
  apply list.NoDup_cons in Hnd as [Hb Hnd]. rewrite IH by done. destruct (decide (a = b)) as [->|Hne].
  - rewrite (bool_decide_eq_false_2 (b ∈ tos)) by done. rewrite (bool_decide_eq_true_2 (b ∈ b :: tos)) by (apply elem_of_cons; by left).
    unfold add_to. repeat case_bool_decide; try done; by rewrite lookup_insert_eq.
  - assert (add_to m b !! a = m !! a) as -> by (unfold add_to; destruct (bool_decide (m !! b = None)); apply lookup_insert_ne; by apply not_eq_sym).
    rewrite (bool_decide_ext (a ∈ b :: tos) (a ∈ tos)); [done|]. rewrite elem_of_cons. naive_solver.
Qed.

(** Denied as a sender exactly if on the first list, as a receiver if on the second. *)
Lemma make_blacklist_denied froms tos a : NoDup tos →
  is_denied (make_blacklist froms tos) a CheckFrom = bool_decide (a ∈ froms) ∧
  is_denied (make_blacklist froms tos) a CheckTo = bool_decide (a ∈ tos) ∧
  is_denied (make_blacklist froms tos) a CheckBothInAny = bool_decide (a ∈ froms ∨ a ∈ tos) ∧
  is_denied (make_blacklist froms tos) a CheckNone = false.
Proof.
  intros Hnd. unfold is_denied, make_blacklist. rewrite tos_lookup by done. rewrite froms_lookup, lookup_empty.
  destruct (bool_decide_reflect (a ∈ froms)) as [Hf|Hf], (bool_decide_reflect (a ∈ tos)) as [Ht|Ht]; cbn.
  1-3: rewrite (bool_decide_eq_true_2 (a ∈ froms ∨ a ∈ tos)) by tauto; done.
  rewrite (bool_decide_eq_false_2 (a ∈ froms ∨ a ∈ tos)) by tauto. done.
Qed.

(** ** The caches *)

Section cached.
Context {V CV : Type} `{!Cache Z V CV, !CacheLaws Z V CV} (chain : ChainReader) (value : Z → V).

(** Every value that is kept is that of its block. *)
Definition values_ok (c : CV) : Prop := ∀ x v, cache_has c x v → v = value x.

Definition yields (m : st CV access_err (option V)) (v : V) : Prop :=
  ∀ c, values_ok c → ∃ c' o, m c = (c', Ok o) ∧ values_ok c' ∧ ∀ u, o = Some u → u = v.

Lemma v_Get_yields x : yields (v_Get x) (value x).
Proof.
  intros c Hc. unfold v_Get. destruct (cache_Get x c) as [c' o] eqn:Hg. exists c', o. split_and!; [done| |].
  - intros y v Hy. apply Hc. apply (cache_Get_keeps x). by rewrite Hg.
  - intros u ->. apply Hc. by eapply cache_Get_has.
Qed.
Lemma values_ok_Add x c : values_ok c → values_ok (cache_Add x (value x) c).
Proof. intros Hc y v [[-> ->]|Hy]%cache_Add_has; [done|by apply Hc]. Qed.

Lemma from_grandparent_yields header n last : last < 2 ^ 64 - 1 → 0 ≤ last →
  (∀ parent, GetHeader chain (ParentHash header) (n - 1) = Some parent → last < n - 1 → value (ParentHash parent) = value (ParentHash header)) →
  yields (from_grandparent chain header n last) (value (ParentHash header)).
Proof.
  intros Hl Hl0 Hv c Hc. unfold from_grandparent. destruct (_ && _) eqn:Hb; [|by exists c, None].
  apply andb_prop in Hb as [_ Hb%Z.ltb_lt]. rewrite u64_small in Hb by (unfold is_u64; lia).
  destruct (GetHeader chain (ParentHash header) (n - 1)) as [parent|] eqn:Hp; [|by exists c, None].
  destruct (v_Get_yields (ParentHash parent) c Hc) as (c1 & o & Hg & Hc1 & Ho). unfold mbind, st_bind. rewrite Hg.
  destruct o as [m|]; [|by exists c1, None]. rewrite (Ho m eq_refl), (Hv parent) by (done || lia).
  eexists _, _. split_and!; [done|by apply values_ok_Add|by intros ? [= <-]].
Qed.

Lemma cached_exact header older c : values_ok c → yields older (value (ParentHash header)) →
  ∃ c', cached header older (Ok (value (ParentHash header))) c = (c', Ok (value (ParentHash header))) ∧ values_ok c'.
Proof.
  intros Hc Hold. unfold cached, mbind, st_bind.
  destruct (v_Get_yields (ParentHash header) c Hc) as (c1 & o1 & -> & Hc1 & Ho1). destruct o1 as [m|]; [exists c1; by rewrite (Ho1 m eq_refl)|].
  destruct (v_Get_yields (ParentHash header) c1 Hc1) as (c2 & o2 & -> & Hc2 & Ho2). destruct o2 as [m|]; [exists c2; by rewrite (Ho2 m eq_refl)|].
  destruct (Hold c2 Hc2) as (c3 & o3 & -> & Hc3 & Ho3). destruct o3 as [m|]; [exists c3; by rewrite (Ho3 m eq_refl)|].
  eexists. split; [done|]. by apply values_ok_Add.
Qed.
End cached.

(** ** Transactions *)

Section guard.
Context {W CB : Type} `{!Cache Z (gmap Z blacklistDirection) CB, !CacheLaws Z (gmap Z blacklistDirection) CB}.
Context (GetState : W → Z → Z → Z) (getBlacksFrom getBlacksTo : W → Header → option (list Z)).
Context (cconf : ChainConfig) (chain : ChainReader).
Context (state_of : Z → W) (froms tos : W → list Z).
Abbreviation updated := (lastBlacklistUpdatedNumber GetState).

(** The contract: its calls return its lists, without duplicates, and it records the number
    of the block that changed them last. *)
Record contract_ok : Prop := {
  ct_from w h : getBlacksFrom w h = Some (froms w);
  ct_to w h : getBlacksTo w h = Some (tos w);
  ct_nodup w : NoDup (tos w);
  ct_updated w : updated w < 2 ^ 64 - 1;
  ct_unchanged x n parent : GetHeader chain x n = Some parent → updated (state_of x) < n →
    froms (state_of (ParentHash parent)) = froms (state_of x) ∧ tos (state_of (ParentHash parent)) = tos (state_of x)
}.
Definition blacklist_at (x : Z) : gmap Z blacklistDirection := make_blacklist (froms (state_of x)) (tos (state_of x)).

(** The sender is on the first list or the receiver on the second. *)
Definition refused (w : W) (sender : Z) (to : option Z) : bool :=
  bool_decide (sender ∈ froms w) || match to with Some a => bool_decide (a ∈ tos w) | None => false end.

Lemma getBlacklist_exact header n c : contract_ok → h_Number header = Some n → 0 ≤ n < 2 ^ 64 → values_ok blacklist_at c →
  ∃ c', getBlacklist GetState getBlacksFrom getBlacksTo cconf chain header (state_of (ParentHash header)) c =
    (c', Ok (blacklist_at (ParentHash header))) ∧ values_ok blacklist_at c'.
Proof.
  intros Hct Hn Hr Hc. unfold getBlacklist, call_blacklist. rewrite (ct_from Hct), (ct_to Hct). fold (blacklist_at (ParentHash header)).
  apply cached_exact; [done|]. intros c1 Hc1. destruct (SophonBlock cconf) as [b|]; [|by exists c1, None].
  unfold mbind, st_bind, st_lift, header_number. rewrite Hn. destruct (b <? n); [|by exists c1, None].
  apply (from_grandparent_yields chain); [apply Hct| |intros parent Hp Hl|done].
  - unfold lastBlacklistUpdatedNumber. pose proof (u64_range (GetState (state_of (ParentHash header)) AddressListContractAddr BlackLastUpdatedNumberPosition)) as Hu.
    unfold is_u64 in Hu. lia.
  - unfold blacklist_at. destruct (ct_unchanged Hct _ _ _ Hp Hl) as [-> ->]. done.
Qed.

(** C33: after the RedCoast fork a transaction is refused exactly if its sender is on the
    contract's list of senders or its receiver on the list of receivers, in the state of
    the parent block, whether the lists come from the contract, from the cache or from
    the grandparent's entry; the cache keeps holding the lists of its blocks. *)
Theorem ValidateTx_exact sender to header n b c : contract_ok → RedCoastBlock cconf = Some b → h_Number header = Some n → b < n → 0 ≤ n < 2 ^ 64 →
  values_ok blacklist_at c →
  let w := state_of (ParentHash header) in
  ∃ c', ValidateTx GetState getBlacksFrom getBlacksTo cconf chain sender to header w c =
    (c', if refused w sender to then Err ErrAddressDenied else Ok tt) ∧ values_ok blacklist_at c'.
Proof.
  intros Hct Hb Hn Hbn Hr Hc w. destruct (getBlacklist_exact header n c Hct Hn Hr Hc) as (c' & Hg & Hc'). exists c'. split; [|done].
  unfold ValidateTx, fork_passed, header_number. rewrite Hb, Hn. unfold mbind, st_bind, st_lift, res_bind.
  rewrite (proj2 (Z.ltb_lt _ _) Hbn). cbn [negb]. fold w in Hg. rewrite Hg. unfold blacklist_at. fold w.
  destruct (make_blacklist_denied (froms w) (tos w) sender (ct_nodup Hct w)) as [-> _].
  unfold refused. destruct (bool_decide (sender ∈ froms w)); [done|]. destruct to as [a|]; [|done].
  destruct (make_blacklist_denied (froms w) (tos w) a (ct_nodup Hct w)) as (_ & -> & _). by destruct (bool_decide (a ∈ tos w)).
Qed.
End guard.
