(* ===== verification/CongressGas.v ===== *)
(** * The gas limit of a block (src/geth/core/block_validator.go, consensus/misc/gaslimit.go)

    The limit that a miner computes for the next block is within the bounds that every
    verifier enforces. *)
From stdpp Require Import gmap.
From S2P Require Import Prelude CongressSnapshot CongressVerify.

Definition CalcGasLimit (parentGasLimit desiredLimit : Z) : Z :=
  let delta := u64 (parentGasLimit / GasLimitBoundDivisor - 1) in
  let desiredLimit := if desiredLimit <? MinGasLimit then MinGasLimit else desiredLimit in
  if parentGasLimit <? desiredLimit then
    let limit := u64 (parentGasLimit + delta) in
    if desiredLimit <? limit then desiredLimit else limit
  else if desiredLimit <? parentGasLimit then
    let limit := u64 (parentGasLimit - delta) in
    if limit <? desiredLimit then desiredLimit else limit
  else parentGasLimit.

(** The check without its conversions, for limits that fit a signed integer. *)
Lemma VerifyGaslimit_spec p h : 0 ≤ p < 2 ^ 63 → 0 ≤ h < 2 ^ 63 →
  VerifyGaslimit p h = if bool_decide (Z.abs (p - h) < p / 1024 ∧ 5000 ≤ h) then Ok tt else Err errGasLimit.
Proof.
  intros Hp Hh. unfold VerifyGaslimit, GasLimitBoundDivisor, MinGasLimit. rewrite (i64_small p), (i64_small h) by lia.
  rewrite (i64_small (p - h)) by lia.
  assert (u64 (if p - h <? 0 then i64 ((p - h) * -1) else p - h) = Z.abs (p - h)) as ->.
  { destruct (Z.ltb_spec (p - h) 0); [rewrite i64_small by lia|]; rewrite u64_small by (unfold is_u64; lia); lia. }
  destruct (Z.leb_spec (p / 1024) (Z.abs (p - h))); [by rewrite bool_decide_eq_false_2 by lia|].
  destruct (Z.ltb_spec h 5000); [by rewrite bool_decide_eq_false_2 by lia|by rewrite bool_decide_eq_true_2 by lia].
Qed.

(** C34: the gas limit that [CalcGasLimit] computes passes [VerifyGaslimit], never goes past
    the desired limit (or the minimum of 5000), and the desired limit itself is chosen
    whenever it passes. *)
Theorem CalcGasLimit_verifies p d : 5000 ≤ p < 2 ^ 63 → 0 ≤ d < 2 ^ 63 →
  let target := Z.max d 5000 in
  VerifyGaslimit p (CalcGasLimit p d) = Ok tt ∧
  Z.min p target ≤ CalcGasLimit p d ≤ Z.max p target ∧
  (VerifyGaslimit p target = Ok tt → CalcGasLimit p d = target).
Proof.
  intros Hp Hd target. assert (1 ≤ p / 1024 - 1 + 1 ∧ p / 1024 ≤ p ∧ 4 ≤ p / 1024) as Hdiv by (Z.to_euclidean_division_equations; lia).
  assert ((if d <? MinGasLimit then MinGasLimit else d) = target) as Ht by (unfold target, MinGasLimit; destruct (Z.ltb_spec d 5000); lia).
  assert (5000 ≤ target < 2 ^ 63) as Htb by (unfold target; lia). clearbody target.
  assert (CalcGasLimit p d = if p <? target then Z.min target (p + (p / 1024 - 1)) else Z.max target (p - (p / 1024 - 1))) as ->.
  { unfold CalcGasLimit, GasLimitBoundDivisor. cbv zeta. rewrite Ht. rewrite (u64_small (p / 1024 - 1)) by (unfold is_u64; lia).
    rewrite (u64_small (p + _)) by (unfold is_u64; lia). rewrite (u64_small (p - _)) by (unfold is_u64; lia).
    destruct (Z.ltb_spec p target).
    - destruct (Z.ltb_spec target (p + (p / 1024 - 1))); lia.
    - destruct (Z.ltb_spec target p); [|lia]. destruct (Z.ltb_spec (p - (p / 1024 - 1)) target); lia. }
  rewrite !VerifyGaslimit_spec by (destruct (Z.ltb_spec p target); lia). split_and!.
  - rewrite bool_decide_eq_true_2; [done|]. destruct (Z.ltb_spec p target); lia.
  - destruct (Z.ltb_spec p target); lia.
  - destruct (Z.ltb_spec p target); lia.
  - destruct (bool_decide_reflect (Z.abs (p - target) < p / 1024 ∧ 5000 ≤ target)); [|done]. intros _. destruct (Z.ltb_spec p target); lia.
Qed.
Lemma CalcGasLimit_verifies_witness : VerifyGaslimit 8000000 (CalcGasLimit 8000000 30000000) = Ok tt ∧ CalcGasLimit 8000000 30000000 = 8007811.
Proof. destruct (CalcGasLimit_verifies 8000000 30000000 ltac:(lia) ltac:(lia)) as (Hv & _). split; [exact Hv|vm_compute; reflexivity]. Defined.
