(* ===== verification/CongressReward.v ===== *)
(** * Paying out the fees of a block (src/geth/consensus/congress/congress.go)

    The fees of a block are collected at a recorder address.  At the end of the block they
    go to the configured receiver, to the reward pool, or to the validator, who then
    deposits them with the validators contract; the call of that contract is not part of
    this file. *)
From stdpp Require Import gmap.
From S2P Require Import Prelude RlpBase StateAccess StateDb StateJournal StateUndo StateOps StateRevert.
From S2P Require Import EvmAnalysis EvmBase EvmMachine EvmInterp EvmTrace StateEvm StateLedger TxMeta TxTransition CongressSnapshot CongressVerify CongressAccess.

Section reward.
Context {T E : Type} `{!Database T E, !DatabaseLaws T E}.
Context (config : CongressConfig) (cconf : ChainConfig).
Abbreviation SDB := (@StateDb.StateDB T E).
Abbreviation M := (st SDB Empty_set).
Implicit Types (d : SDB) (header : Header).

(** Where the fees of a block go, and whether that is all of [trySendBlockReward]. *)
Definition fee_target header : Z * bool :=
  match FeeReceiver config with
  | Some r => (r, true)
  | None => if IsRewardPool cconf (h_Number header) then (RewardPoolContractAddr, true) else (h_Coinbase header, false)
  end.
(** [trySendBlockReward] up to the deposit by the validator; false if a deposit follows. *)
Definition settle_fee header : M bool :=
  fee ← StateDb.GetBalance FeeRecoder;
  if fee <=? 0 then mret true else
  let '(target, done) := fee_target header in
  StateDb.AddBalance target fee ≫= λ _, StateDb.SetBalance FeeRecoder 0 ≫= λ _, mret done.

Lemma FeeRecoder_addr : is_addr FeeRecoder.
Proof. unfold is_addr, FeeRecoder. lia. Qed.

Lemma SetBalance_db_shifts a y d d' r : inv d → is_addr a → StateDb.SetBalance a y d = (d', Ok r) → shifts a (y - bal d a) d d'.
Proof.
  intros Hi Ha. unfold StateDb.SetBalance, mbind, st_bind. destruct (GetOrNewStateObject a d) as [d1 [o|[]| |]] eqn:Hg; try done.
  apply GetOrNew_balance in Hg as (Hst & Hb & Hi1 & Hso & Hde & Hao); [|done..]. intros Hs.
  apply SetBalance_shifts in Hs; [|done|by rewrite Hao; apply bal_loaded]. rewrite Hao in Hs. apply still_shifts with d1; [done|].
  rewrite <-(Hst a Ha), (bal_loaded d1 a o Hso Hde). done.
Qed.
Lemma GetBalance_bal a d d' x : is_addr a → StateDb.GetBalance a d = (d', Ok x) → x = bal d a ∧ still d d' ∧ (inv d → inv d').
Proof.
  intros Ha. unfold StateDb.GetBalance, mbind, st_bind. destruct (getStateObject a d) as [d1 [o|[]| |]] eqn:Hg; try done.
  intros [= <- <-]. pose proof (getStateObject_spec a d d1 o Hg) as (Heq & _ & _ & Ho). split_and!.
  - unfold bal, held. destruct o as [o|]; [destruct Ho as (-> & _ & Hde)|destruct Ho as [->|(o & -> & Hde)]]; cbn; by rewrite ?Hde.
  - by apply still_equiv.
  - by apply inv_equiv.
Qed.

(** The fees of a block are paid out in full and only once: the target gets exactly the
    balance of the recorder, the recorder is empty afterwards, no other balance changes
    and no money is created or lost; without fees no balance changes. *)
Theorem settle_fee_conserves header d d' b : inv d → is_addr (fst (fee_target header)) → fst (fee_target header) ≠ FeeRecoder → 0 ≤ bal d FeeRecoder →
  settle_fee header d = (d', Ok b) →
  (∀ a, is_addr a → bal d' a = if decide (a = FeeRecoder) then 0 else if decide (a = fst (fee_target header)) then bal d a + bal d FeeRecoder else bal d a) ∧
  supply d' = supply d ∧ (0 < bal d FeeRecoder → b = snd (fee_target header)).
Proof.
  intros Hi Ht Hne Hpos. unfold settle_fee. unfold mbind at 1, st_bind at 1. destruct (StateDb.GetBalance FeeRecoder d) as [d1 [x|[]| |]] eqn:Hg; try done.
  destruct (GetBalance_bal FeeRecoder d d1 x FeeRecoder_addr Hg) as (-> & Hst & Hi1). specialize (Hi1 Hi).
  destruct (Z.leb_spec (bal d FeeRecoder) 0) as [Hz|Hfee].
  { intros [= <- <-]. assert (bal d FeeRecoder = 0) as H0 by lia. split_and!; [|by apply still_supply|lia].
    intros a Ha. rewrite (Hst a Ha), H0. repeat destruct (decide _); subst; lia. }
  destruct (fee_target header) as [target fin]. cbn [fst snd] in *. unfold mbind, st_bind.
  destruct (StateDb.AddBalance target _ d1) as [d2 [[]|[]| |]] eqn:Hadd; try done.
  destruct (StateDb.SetBalance FeeRecoder 0 d2) as [d3 [[]|[]| |]] eqn:Hset; try done. intros [= <- <-].
  pose proof (AddBalance_shifts _ _ _ _ _ Hi1 Ht Hadd) as Hs2. assert (inv d2) as Hi2 by (apply (AddBalance_Good target (bal d FeeRecoder) Ht d1 d2 tt Hi1 Hadd)).
  pose proof (SetBalance_db_shifts _ _ _ _ _ Hi2 FeeRecoder_addr Hset) as Hs3.
  assert (bal d2 FeeRecoder = bal d FeeRecoder) as Hr.
  { rewrite (Hs2 _ FeeRecoder_addr), (Hst _ FeeRecoder_addr). rewrite decide_False by done. lia. }
  rewrite Hr in Hs3. split_and!; [| |done].
  - intros a Ha. rewrite (Hs3 a Ha), (Hs2 a Ha), (Hst a Ha). repeat destruct (decide _); subst; try done; lia.
  - rewrite (shifts_supply FeeRecoder (0 - bal d FeeRecoder) d2 d3), (shifts_supply target (bal d FeeRecoder) d1 d2), (still_supply d d1); [lia|done|done|done|apply FeeRecoder_addr|done].
Qed.
End reward.

(** ** A block with fees *)

Definition fee_db : @StateDb.StateDB toy_trie unit :=
  set_stateObjects {[FeeRecoder := newObject FeeRecoder (mk_StateAccount 0 (Some 70) 7 None)]} toy_state.
Definition fee_config : CongressConfig := mk_CongressConfig 3 200 false (Some 9).
Definition fee_cconf : ChainConfig := mk_ChainConfig None 0 None None None None.
Definition fee_header : Header := mk_Header 0 0 5 0 0 0 0 None (Some 1) 0 0 0 [] 0 0 None.
Lemma fee_accounts a o : account_of fee_db a = Ok (Some o) → a = FeeRecoder ∧ o = newObject FeeRecoder (mk_StateAccount 0 (Some 70) 7 None).
Proof.
  unfold account_of. cbn [fee_db stateObjects set_stateObjects]. destruct (decide (a = FeeRecoder)) as [->|Hn].
  - rewrite lookup_singleton_eq. by intros [= <-].
  - rewrite lookup_singleton_ne by done. clear. vm_compute. done.
Qed.
Lemma fee_inv : inv fee_db.
Proof.
  split; [|split; cbn; intros; by rewrite ?lookup_empty in *|done].
  intros a o Ha [-> ->]%fee_accounts. split; [done|]. split; [done|]. apply hash_bytes_ok.
Qed.
Lemma settle_fee_conserves_witness : ∃ d', settle_fee fee_config fee_cconf fee_header fee_db = (d', Ok true) ∧
  bal d' 9 = bal fee_db 9 + 70 ∧ bal d' FeeRecoder = 0 ∧ supply d' = supply fee_db.
Proof.
  destruct (settle_fee fee_config fee_cconf fee_header fee_db) as [d' r] eqn:Hr.
  assert (r = Ok true) as -> by (revert Hr; vm_compute; intros [= _ <-]; reflexivity). exists d'. split; [reflexivity|].
  destruct (settle_fee_conserves fee_config fee_cconf fee_header fee_db d' true fee_inv) as (Hb & Hs & _).
  - unfold is_addr. cbn. lia.
  - discriminate.
  - vm_compute. discriminate.
  - exact Hr.
  - split; [rewrite Hb by (unfold is_addr; lia); reflexivity|]. split; [rewrite Hb by (unfold is_addr, FeeRecoder; lia); reflexivity|exact Hs].
Defined.
