(* ===== verification/CongressToy.v ===== *)
(** * A small network

    Instances of the parameters of the Congress engine: a hash that is a polynomial, keys
    whose signatures are their name, caches that never evict and a database that is a map.
    They show that the hypotheses of the engine's theorems can hold. *)
From stdpp Require Import gmap sorting.
From S2P Require Import Prelude RlpBase RlpRaw RlpEncode StateDb TxMeta CongressSnapshot CongressSafe CongressVerify CongressCache CongressSeal CongressMint CongressAccess CongressGuard.

Global Instance list_cache (K V : Type) `{!EqDecision K} : Cache K V (list (K * V)) := {|
  cache_Get k c := (c, snd <$> find (λ p, bool_decide (fst p = k)) c);
  cache_Add k v c := (k, v) :: c;
  cache_has c k v := (k, v) ∈ c
|}.
Global Instance list_cache_laws (K V : Type) `{!EqDecision K} : CacheLaws K V (list (K * V)).
Proof.
  split; cbn; [|done|].
  - intros k c c' v [= <- Hf]. destruct (find _ c) as [[k' v']|] eqn:Hfind; [|done]. injection Hf as <-.
    apply find_some in Hfind as [Hin Hk]. apply bool_decide_eq_true in Hk. cbn in Hk. subst. by apply list_elem_of_In.
  - intros k v c k' v' [[= -> ->]|Hin]%elem_of_cons; [by left|by right].
Qed.
Global Instance map_store : KeyValueStore (gmap bytes bytes) := {| kv_Get k d := d !! k; kv_Put k v d := Some (<[k := v]> d) |}.
Global Instance map_store_laws : KeyValueLaws (gmap bytes bytes).
Proof.
  split; cbn.
  - intros k v d d' [= <-]. apply lookup_insert_eq.
  - intros k k' v d d' [= <-] Hne. by apply lookup_insert_ne.
Qed.

Definition toy_hash (b : bytes) : Z := fold_left (λ a x, (a * 257 + x + 1) mod 2 ^ 256) b 7.
Definition toy_ecrecover (hash sig : bytes) : option bytes := Some (4 :: sig).
Definition toy_marshal (s : Snapshot) : option bytes := Some [Z.pos (encode (s_Number s, s_Hash s, Validators s, Recents s))].
Definition toy_unmarshal (b : bytes) : option Snapshot :=
  match b with
  | [Z.pos p] => '(n, x, v, r) ← decode p; Some (mk_Snapshot n x v r)
  | _ => None
  end.

(** The seals and addresses of the keys. *)
Definition toy_seal (i : Z) : bytes := replicate 65 i.
Definition toy_addr (i : Z) : Z := toy_hash (toy_seal i) mod 2 ^ 160.
Definition addr1 : Z := Eval vm_compute in toy_addr 1.
Definition addr2 : Z := Eval vm_compute in toy_addr 2.
Definition addr3 : Z := Eval vm_compute in toy_addr 3.
Definition addr4 : Z := Eval vm_compute in toy_addr 4.
Definition toy_config : CongressConfig := mk_CongressConfig 3 200 false (Some 0).
Definition toy_vals : list Z := [addr1; addr2; addr3; addr4].
Definition toy_header (parent n d time signer : Z) (extra : bytes) : Header :=
  mk_Header parent (uncleHash toy_hash) signer 0 0 0 0 (Some d) (Some n) 8000000 0 time extra 0 0 None.
Definition toy_genesis : Header := toy_header 0 0 1 0 0 (replicate 32 0 ++ mjoin (map (be_bytes 20) toy_vals) ++ replicate 65 0).
Abbreviation toy_Hash := (header_Hash toy_hash).
Definition genesis_hash : Z := Eval vm_compute in toy_Hash toy_genesis.
Definition toy_block (i addr parent n d : Z) : Header := toy_header parent n d (3 * n) addr (replicate 32 0 ++ toy_seal i).
Definition toy_h1 : Header := toy_block 1 addr1 genesis_hash 1 1.
Definition toy_h2 : Header := toy_block 1 addr1 77 2 2.
Definition toy_chain : ChainReader := mk_ChainReader (mk_ChainConfig None 0 None None None None)
  (λ x n, if (x =? genesis_hash) && (n =? 0) then Some toy_genesis else None)
  (λ n, if n =? 0 then Some toy_genesis else None).

Definition toy_snap : Snapshot := newSnapshot 0 genesis_hash toy_vals.
Definition toy_snap1 : Snapshot := mk_Snapshot 1 (toy_Hash toy_h1) (list_to_set toy_vals) {[1 := addr1]}.
Abbreviation TC := (list (Z * Z)).
Abbreviation TS := (list (Z * Snapshot)).
Abbreviation TD := (gmap bytes bytes).
Definition toy_engine : @Engine TC TS TD := mk_Engine [] [] ∅.
Abbreviation toy_apply := (apply toy_ecrecover toy_hash toy_config (C:=TC)).
Abbreviation toy_rec := (ecrecover toy_ecrecover toy_hash (C:=TC)).
Abbreviation toy_reachable := (reachable toy_ecrecover toy_hash toy_config (C:=TC)).

Lemma genesis_hash_eq : toy_Hash toy_genesis = genesis_hash.
Proof. vm_compute. reflexivity. Qed.

Lemma toy_apply1 : toy_apply toy_snap [toy_h1] [] = ([(toy_Hash toy_h1, addr1)], Ok toy_snap1).
Proof. vm_compute. reflexivity. Qed.
Lemma toy_snap_ne : Validators toy_snap ≠ ∅.
Proof. apply (bool_decide_unpack _). vm_compute. exact I. Qed.

(** ** The chain goes on *)

Lemma toy_proper i addr p n d : Z.abs n < 200 → 0 < n → 0 ≤ i < 256 → proper toy_config (toy_block i addr p n d).
Proof.
  intros Hn Hp Hi. split; [vm_compute; reflexivity|]. intros m. unfold num. cbn [h_Number toy_block toy_header].
  rewrite u64_small by (unfold is_u64; lia). intros [= <-] Hm. cbn [Epoch toy_config] in Hm. rewrite Z.mod_small in Hm by lia. lia.
Qed.
Lemma toy_genesis_reachable : toy_reachable toy_snap.
Proof. apply reach_new; [unfold is_u64; lia|done|vm_compute; reflexivity]. Qed.
Lemma toy_snap1_reachable : toy_reachable toy_snap1.
Proof.
  apply (reach_apply _ _ _ toy_snap [toy_h1] [] [(toy_Hash toy_h1, addr1)]); [apply toy_genesis_reachable|vm_compute; reflexivity| |apply toy_apply1].
  apply Forall_singleton, toy_proper; lia.
Qed.

Lemma apply_well_formed_witness :
  snap_ok toy_snap1 ∧ Validators toy_snap1 ≠ ∅ ∧ s_Number toy_snap1 = s_Number toy_snap + len [toy_h1] ∧
  Z.of_nat (size (Recents toy_snap1)) ≤ limit_of (Validators toy_snap1).
Proof.
  apply (apply_well_formed toy_ecrecover toy_hash toy_config toy_snap [toy_h1] [] [(toy_Hash toy_h1, addr1)] toy_snap1).
  - apply (reachable_ok toy_ecrecover toy_hash toy_config toy_snap toy_genesis_reachable).
  - apply toy_snap_ne.
  - vm_compute. reflexivity.
  - apply Forall_singleton, toy_proper; lia.
  - apply toy_apply1.
Defined.

Lemma congress_live_witness :
  Z.of_nat (size (Validators toy_snap1)) ≤ 2 * Z.of_nat (size (eligible toy_snap1)) ∧ (∃ v, v ∈ eligible toy_snap1) ∧
  ∀ h c c' v, num h = Ok (s_Number toy_snap1 + 1) → proper toy_config h → toy_rec h c = (c', Ok v) →
    v ∈ eligible toy_snap1 ↔ ∃ s', toy_apply toy_snap1 [h] c = (c', Ok s') ∧ toy_reachable s'.
Proof. apply (congress_live toy_ecrecover toy_hash toy_config toy_snap1 toy_snap1_reachable); [vm_compute; reflexivity|done]. Defined.

(** ** Turns and seals *)

Lemma turns_fair_witness : ∃ v, v ∈ Validators toy_snap ∧ inturn toy_snap 1 v = Ok true.
Proof.
  destruct (turns_fair toy_snap toy_snap_ne) as [Ht _]. destruct (Ht 1) as (v & Hv & Hi & _). exact (ex_intro _ v (conj Hv Hi)).
Defined.

Definition toy_pair : Snapshot := newSnapshot 10 5 [addr1; addr2].
Definition toy_h11 : Header := toy_block 1 addr1 5 11 1.
Lemma seal_applies_witness :
  (∃ e', check_seal toy_ecrecover toy_hash false toy_pair toy_h11 (s_Number toy_pair + 1) toy_engine = (e', Ok tt)) ↔
  in_order toy_pair toy_h11 addr1 ∧ ∃ s', toy_apply toy_pair [toy_h11] [] = ([(toy_Hash toy_h11, addr1)], Ok s').
Proof.
  apply (seal_applies toy_ecrecover toy_hash toy_config toy_pair toy_h11 toy_engine [(toy_Hash toy_h11, addr1)] addr1).
  - apply reach_new; [unfold is_u64; lia|done|vm_compute; reflexivity].
  - vm_compute. split; [discriminate|reflexivity].
  - done.
  - vm_compute. reflexivity.
  - apply toy_proper; lia.
  - vm_compute. reflexivity.
Defined.

Lemma early_seal_gap_witness :
  (∃ e', check_seal toy_ecrecover toy_hash false toy_snap1 toy_h2 (s_Number toy_snap1 + 1) toy_engine = (e', Ok tt)) ∧
  must_wait toy_snap1 (s_Number toy_snap1 + 1) addr1 = true ∧
  toy_apply toy_snap1 [toy_h2] [] = ([(toy_Hash toy_h2, addr1)], Err errRecentlySigned).
Proof.
  apply (early_seal_gap toy_ecrecover toy_hash toy_config toy_snap1 toy_h2 toy_engine [(toy_Hash toy_h2, addr1)] addr1 1).
  - apply toy_snap1_reachable.
  - vm_compute. reflexivity.
  - vm_compute. reflexivity.
  - done.
  - vm_compute. reflexivity.
  - apply toy_proper; lia.
  - vm_compute. reflexivity.
  - split; [done|]. exists 2. split; [done|]. vm_compute. reflexivity.
  - apply (bool_decide_unpack _). vm_compute. exact I.
  - done.
Defined.

(** ** Retrieval and minting *)

(** The second key mints block 1. *)
Definition toy_new : Header := toy_header genesis_hash 1 0 0 0 [].
Abbreviation toy_prepare := (Prepare toy_ecrecover toy_hash toy_marshal toy_unmarshal toy_config toy_chain addr2 (λ _ _, None)).
Abbreviation toy_sealer := (Seal toy_ecrecover toy_hash toy_marshal toy_unmarshal toy_config toy_chain addr2 (λ _, Some (toy_seal 2)) 1 99500000000 (λ n, n / 2)).
Definition toy_minted : Header := toy_header genesis_hash 1 1 100 addr2 (replicate 32 0 ++ toy_seal 2).
Definition minted_hash : Z := Eval vm_compute in toy_Hash toy_minted.
Lemma minted_hash_eq : toy_Hash toy_minted = minted_hash.
Proof. vm_compute. reflexivity. Qed.

Definition toy_known (h : Header) : Prop := h = toy_genesis ∨ h = toy_minted.
Abbreviation toy_coherent := (coherent toy_ecrecover toy_hash toy_unmarshal toy_config toy_chain toy_known (C:=TC) (CS:=TS) (D:=TD)).
Abbreviation toy_justified := (justified toy_ecrecover toy_hash toy_config toy_chain toy_known).

Lemma toy_chain_Some x n h : GetHeader toy_chain x n = Some h → h = toy_genesis ∧ x = genesis_hash ∧ n = 0.
Proof. cbn. destruct (Z.eqb_spec x genesis_hash) as [->|]; [|done]. destruct (Z.eqb_spec n 0) as [->|]; [|done]. cbn [andb]. by intros [= <-]. Qed.
Lemma toy_world : world_ok toy_hash toy_marshal toy_unmarshal toy_chain toy_known.
Proof.
  split.
  - intros b. unfold toy_hash, is_u256. assert (0 ≤ 7 < 2 ^ 256) as Ha by lia. revert Ha. generalize 7.
    induction b as [|x b IH]; intros a Ha; [exact Ha|]. cbn [fold_left]. apply IH, Z.mod_pos_bound. lia.
  - intros h h' [->| ->] [->| ->]; rewrite ?genesis_hash_eq, ?minted_hash_eq; intros Heq; try reflexivity; vm_compute in Heq; discriminate.
  - intros x n h (-> & -> & _)%toy_chain_Some. split; [by left|apply genesis_hash_eq].
  - intros h [->| ->]; split; vm_compute; congruence.
  - intros s b [= <-]. unfold toy_unmarshal. rewrite decode_encode. cbn. by destruct s.
Qed.
Lemma toy_node : node_ok toy_marshal toy_config toy_chain (D:=TD).
Proof.
  split; [done|done| |done]. intros n h. cbn. destruct (n =? 0); [|done]. intros [= <-]. vm_compute. discriminate.
Qed.
Lemma toy_engine_coherent : toy_coherent toy_engine.
Proof. split; cbn; [intros x v h Hh|intros x s Hh|intros x s _]; [by apply not_elem_of_nil in Hh..|]. unfold loadSnapshot. cbn. rewrite lookup_empty. done. Qed.

Lemma snapshot_replays_witness : ∃ e' x0 s0 hs, toy_justified x0 s0 ∧ linked toy_hash toy_known x0 hs genesis_hash ∧
  snapshot toy_ecrecover toy_hash toy_marshal toy_unmarshal toy_config toy_chain 1 0 genesis_hash [] toy_engine =
    (e', replay toy_ecrecover toy_hash toy_config s0 hs) ∧ toy_coherent e' ∧
  ∀ s, replay toy_ecrecover toy_hash toy_config s0 hs = Ok s → toy_justified genesis_hash s.
Proof.
  apply (snapshot_replays toy_ecrecover toy_hash toy_marshal toy_unmarshal toy_config toy_chain toy_known 1 0 genesis_hash toy_engine
    toy_world toy_node toy_engine_coherent).
  - apply available_0.
  - unfold is_u64. lia.
  - split; vm_compute; congruence.
  - cbn. lia.
Defined.

(** A snapshot of this chain is that of the genesis block, or that after the block. *)
Lemma replay_number s h s' : replay toy_ecrecover toy_hash toy_config s [h] = Ok s' → num h = Ok (u64 (s_Number s + 1)) ∧ s_Number s' = u64 (s_Number s + 1).
Proof.
  unfold replay, apply, mbind, st_bind, st_lift, mret, st_ret, st_err. replace (contiguous [h]) with (Ok tt : res cong_err unit) by done.
  destruct (num h) as [n| | |]; try done. destruct (Z.eqb_spec n (u64 (s_Number s + 1))) as [->|]; [|done]. cbn [negb].
  destruct (apply_loop _ _ _ _ _ tt) as [[] [[vals recents]| | |]]; try done. by intros [= <-].
Qed.
Lemma toy_justified_inv x s : toy_justified x s → s = toy_snap ∨ s_Number s = 1 ∧ x = minted_hash.
Proof.
  induction 1 as [x s [n h vs Hn _ Hvs]|h s s' Hh _ IH Hr].
  - left. cbn in Hn. destruct (Z.eqb_spec n 0) as [->|]; [|done]. injection Hn as <-. rewrite genesis_hash_eq.
    assert (extra_validators (Extra toy_genesis) = Ok toy_vals) as Hv by (vm_compute; reflexivity). rewrite Hv in Hvs. by injection Hvs as <-.
  - apply replay_number in Hr as [Hn Hs']. assert (s_Number s = 0 ∨ s_Number s = 1) as Hs by (destruct IH as [->|[-> _]]; [by left|by right]).
    right. destruct Hh as [->| ->].
    + destruct Hs as [Hs|Hs]; rewrite Hs in Hn; vm_compute in Hn; discriminate.
    + rewrite minted_hash_eq. split; [|done]. destruct Hs as [Hs|Hs]; rewrite Hs in Hn, Hs'; [exact Hs'|]. vm_compute in Hn. discriminate.
Qed.

Lemma toy_agreed : agreed toy_ecrecover toy_hash toy_marshal toy_unmarshal toy_config toy_chain toy_known 1 (1 - 1) (ParentHash toy_new) toy_snap
  (C:=TC) (CS:=TS) (D:=TD).
Proof.
  intros e Hco. change (1 - 1) with 0. change (ParentHash toy_new) with genesis_hash. assert (is_u256 genesis_hash) as Hu by (split; vm_compute; congruence).
  destruct (snapshot_genesis toy_ecrecover toy_hash toy_marshal toy_unmarshal toy_config toy_chain toy_known 0 genesis_hash e
    toy_world toy_node Hco Hu) as (e' & s & Hs & Hco' & Hj). exists e'. split; [|done]. rewrite Hs.
  apply toy_justified_inv in Hj as [->|[_ Hx]]; [reflexivity|]. vm_compute in Hx. discriminate.
Qed.

Definition toy_prepared : Header := toy_header genesis_hash 1 1 100 addr2 (replicate 97 0).
Lemma toy_prepare_eq : toy_prepare 1 100 100 toy_new toy_engine = (fst (toy_prepare 1 100 100 toy_new toy_engine), Ok toy_prepared).
Proof. vm_cast_no_check (eq_refl (fst (toy_prepare 1 100 100 toy_new toy_engine), Ok toy_prepared : res cong_err Header)). Qed.
(** Half a second before its time, out of turn, with half of the wiggle time. *)
Lemma toy_seal_eq : toy_sealer toy_prepared 0 toy_engine = (fst (toy_sealer toy_prepared 0 toy_engine), Ok (Some (toy_minted, 1250000000))).
Proof. vm_cast_no_check (eq_refl (fst (toy_sealer toy_prepared 0 toy_engine), Ok (Some (toy_minted, 1250000000)) : res cong_err (option (Header * Z)))). Qed.

Lemma minted_verifies_witness : ∃ ev', verifyHeader toy_ecrecover toy_hash toy_marshal toy_unmarshal toy_config false toy_chain 1 100 toy_minted [] toy_engine =
  (ev', Ok tt) ∧ toy_coherent ev'.
Proof.
  apply (minted_verifies toy_ecrecover toy_hash toy_marshal toy_unmarshal toy_config toy_chain toy_known addr2 (λ _ _, None) (λ _, Some (toy_seal 2))
    1 1 toy_snap toy_genesis 100 100 100 99500000000 (λ n, n / 2) 1250000000 0 toy_new toy_prepared toy_prepared toy_minted toy_engine
    (fst (toy_prepare 1 100 100 toy_new toy_engine)) toy_engine (fst (toy_sealer toy_prepared 0 toy_engine)) toy_engine toy_world).
  - intros msg sig [= <-]. split; [reflexivity|]. exists 4, (toy_seal 2). split; [reflexivity|]. vm_compute. reflexivity.
  - done.
  - done.
  - apply toy_engine_coherent.
  - apply toy_engine_coherent.
  - apply toy_engine_coherent.
  - apply toy_agreed.
  - done.
  - apply toy_snap_ne.
  - reflexivity.
  - lia.
  - lia.
  - reflexivity.
  - reflexivity.
  - apply toy_prepare_eq.
  - by split.
  - done.
  - vm_compute. discriminate.
  - reflexivity.
  - apply toy_seal_eq.
  - by right.
  - vm_compute. discriminate.
Defined.

(** ** Access control *)

(** A contract with one address on each list since the genesis block, and an empty cache. *)
Definition toy_cconf : ChainConfig := mk_ChainConfig None 0 None (Some 2) (Some 3) None.
Definition toy_reader : ChainReader := mk_ChainReader toy_cconf (λ _ _, None) (λ _, None).
Definition toy_tx_header : Header := mk_Header 5 0 0 0 0 0 0 None (Some 9) 0 0 0 [] 0 0 None.
Lemma ValidateTx_exact_witness :
  ∃ c', ValidateTx (λ (_ : unit) _ _, 0) (λ _ _, Some [7]) (λ _ _, Some [8]) toy_cconf toy_reader 1 (Some 8) toy_tx_header tt [] =
    (c', Err ErrAddressDenied) ∧ values_ok (blacklist_at (λ _, tt) (λ _, [7]) (λ _, [8])) c'.
Proof.
  apply (ValidateTx_exact (λ (_ : unit) _ _, 0) (λ _ _, Some [7]) (λ _ _, Some [8]) toy_cconf toy_reader (λ _, tt) (λ _, [7]) (λ _, [8])
    1 (Some 8) toy_tx_header 9 2 []); [|done|done|lia|lia|].
  - split; try done. intros w. apply NoDup_singleton.
  - intros x v Hx. by apply not_elem_of_nil in Hx.
Defined.
