(* ===== verification/Bloom.v ===== *)
(** * The bloom filter of logs (src/geth/core/types/bloom9.go)

    A header carries a filter of 2048 bits over the addresses and topics of the logs of
    its block: a light search that finds nothing must mean that there is nothing.  The
    hash is a parameter; three bits are set for each datum. *)
From stdpp Require Import gmap.
From S2P Require Import Prelude StateDb.

Definition BloomByteLength : Z := 256.

Inductive bloom_err := .

Section bloom.
Context (keccak256 : bytes → Z).

(** The two bytes of the hash at [i] as [binary.BigEndian.Uint16]. *)
Definition Uint16 (b : bytes) (i : nat) : Z := Z.lor (nth (S i) b 0) (Z.shiftl (nth i b 0) 8).
Definition bloom_index (hashbuf : bytes) (i : nat) : Z :=
  BloomByteLength - Z.shiftr (Z.land (Uint16 hashbuf i) 0x7ff) 3 - 1.
Definition bloom_bit (hashbuf : bytes) (i : nat) : Z := u8 (Z.shiftl 1 (Z.land (nth (S i) hashbuf 0) 0x7)).
Definition bloomValues (data : bytes) : list (Z * Z) :=
  let hashbuf := take 6 (hash_bytes (keccak256 data)) in
  [(bloom_index hashbuf 0, bloom_bit hashbuf 0); (bloom_index hashbuf 2, bloom_bit hashbuf 2); (bloom_index hashbuf 4, bloom_bit hashbuf 4)].

(** [b[i] |= v]. *)
Definition or_at (b : bytes) (p : Z * Z) : res bloom_err bytes :=
  x ← go_index b (fst p); go_set b (fst p) (Z.lor x (snd p)).
Fixpoint or_all (b : bytes) (l : list (Z * Z)) : res bloom_err bytes :=
  match l with [] => Ok b | p :: l => b ← or_at b p; or_all b l end.
Definition bloom_add (b d : bytes) : res bloom_err bytes := or_all b (bloomValues d).

(** [v == v & b[i]] for the three pairs, with short-circuit evaluation. *)
Fixpoint test_all (b : bytes) (l : list (Z * Z)) : res bloom_err bool :=
  match l with
  | [] => Ok true
  | (i, v) :: l => x ← go_index b i; if v =? Z.land v x then test_all b l else Ok false
  end.
Definition bloom_Test (b topic : bytes) : res bloom_err bool := test_all b (bloomValues topic).

Fixpoint add_each (b : bytes) (ds : list bytes) : res bloom_err bytes :=
  match ds with [] => Ok b | d :: ds => b ← bloom_add b d; add_each b ds end.
(** The data of a log: its address and its topics. *)
Definition log_data (l : Log) : list bytes := address_bytes (log_Address l) :: map hash_bytes (log_Topics l).
Definition LogsBloom (logs : list Log) : res bloom_err bytes :=
  add_each (replicate 256 0) (mjoin (map log_data logs)).
Definition CreateBloom (receipts : list (list Log)) : res bloom_err bytes := LogsBloom (mjoin receipts).
Definition BytesToBloom (d : bytes) : res bloom_err bytes :=
  if BloomByteLength <? len d then Panic (raised "bloom bytes too big") else Ok (replicate (256 - length d) 0 ++ d).

(** ** The filter as a set of bits *)

(** The bits that a datum sets: byte index and bit within it. *)
Definition bits_of (d : bytes) : list (Z * Z) :=
  let hashbuf := take 6 (hash_bytes (keccak256 d)) in
  map (λ i, (bloom_index hashbuf i, Z.land (nth (S i) hashbuf 0) 0x7)) [0%nat; 2%nat; 4%nat].
Definition has_bit (b : bytes) (p : Z * Z) : Prop := ∃ x, b !! Z.to_nat (fst p) = Some x ∧ Z.testbit x (snd p) = true.

Lemma bloomValues_bits d : bloomValues d = map (λ p, (fst p, 2 ^ snd p)) (bits_of d) ∧ Forall (λ p, 0 ≤ fst p < 256 ∧ 0 ≤ snd p < 8) (bits_of d).
Proof.
  unfold bloomValues, bits_of. set (hb := take 6 _).
  assert (∀ x, 0 ≤ Z.land x 0x7 < 8) as H7.
  { intros x. change 0x7 with (Z.ones 3). rewrite Z.land_ones by lia. by apply Z.mod_pos_bound. }
  assert (∀ i, bloom_bit hb i = 2 ^ Z.land (nth (S i) hb 0) 0x7) as Hb.
  { intros i. unfold bloom_bit. pose proof (H7 (nth (S i) hb 0)). rewrite Z.shiftl_1_l, u8_small; [done|]. unfold is_u8. split; [by apply Z.pow_nonneg|]. apply Z.pow_lt_mono_r; lia. }
  assert (∀ i, 0 ≤ bloom_index hb i < 256) as Hi.
  { intros i. unfold bloom_index, BloomByteLength. change 0x7ff with (Z.ones 11). rewrite Z.land_ones, Z.shiftr_div_pow2 by lia.
    pose proof (Z.mod_pos_bound (Uint16 hb i) (2 ^ 11) ltac:(lia)). change (2 ^ 11) with 2048 in *. change (2 ^ 3) with 8.
    assert (0 ≤ Uint16 hb i mod 2048 / 8 < 256) by (split; [apply Z.div_pos; lia|apply Z.div_lt_upper_bound; lia]). lia. }
  cbn [map fst snd]. rewrite !Hb. split; [done|]. repeat constructor; cbn [fst snd]; first [apply Hi|apply H7].
Qed.

Definition wf_bit (p : Z * Z) : Prop := 0 ≤ fst p < 256 ∧ 0 ≤ snd p < 8.

Lemma or_at_spec b p : length b = 256%nat → wf_bit p →
  ∃ b', or_at b (fst p, 2 ^ snd p) = Ok b' ∧ length b' = 256%nat ∧ ∀ q, wf_bit q → has_bit b' q ↔ has_bit b q ∨ q = p.
Proof.
  intros Hb [Hi Hk]. destruct p as [i k]. cbn [fst snd] in *. destruct (lookup_lt_is_Some_2 b (Z.to_nat i)) as [x Hx]; [lia|].
  unfold or_at. cbn [fst snd]. rewrite (go_index_ok b i x) by (done || lia). unfold mbind, res_bind. rewrite go_set_ok by (unfold len; lia).
  eexists. split_and!; [done|by rewrite length_insert|]. intros [j m] [Hj Hm]. cbn [fst snd] in *. unfold has_bit. cbn [fst snd].
  destruct (decide (j = i)) as [->|Hne].
  - rewrite list_lookup_insert_eq by lia. rewrite Hx. split.
    + intros (y & [= <-] & Ht). rewrite Z.lor_spec, Z.pow2_bits_eqb in Ht by lia. apply orb_prop in Ht as [Ht|Ht%Z.eqb_eq]; [left; by exists x|right; by subst].
    + intros Ho. eexists. split; [done|]. rewrite Z.lor_spec, Z.pow2_bits_eqb by lia. destruct Ho as [(y & [= <-] & ->)|[= ->]]; [done|].
      by rewrite Z.eqb_refl, orb_true_r.
  - rewrite list_lookup_insert_ne by lia. split; [by left|]. by intros [?|[= -> _]].
Qed.
Lemma or_all_spec l b : length b = 256%nat → Forall wf_bit l →
  ∃ b', or_all b (map (λ p, (fst p, 2 ^ snd p)) l) = Ok b' ∧ length b' = 256%nat ∧ ∀ q, wf_bit q → has_bit b' q ↔ has_bit b q ∨ q ∈ l.
Proof.
  revert b. induction l as [|p l IH]; intros b Hb Hl.
  - exists b. split_and!; [done..|]. intros q _. split; [by left|]. by intros [?|?%not_elem_of_nil].
  - apply Forall_cons_1 in Hl as [Hp Hl]. destruct (or_at_spec b p Hb Hp) as (b1 & H1 & Hb1 & Hq1). cbn [map or_all]. unfold mbind, res_bind. rewrite H1.
    destruct (IH b1 Hb1 Hl) as (b2 & H2 & Hb2 & Hq2). exists b2. split_and!; [done..|]. intros q Hq. rewrite Hq2, Hq1, elem_of_cons by done. tauto.
Qed.
Lemma add_each_spec ds b : length b = 256%nat →
  ∃ b', add_each b ds = Ok b' ∧ length b' = 256%nat ∧ ∀ q, wf_bit q → has_bit b' q ↔ has_bit b q ∨ ∃ d, d ∈ ds ∧ q ∈ bits_of d.
Proof.
  revert b. induction ds as [|d ds IH]; intros b Hb.
  - exists b. split_and!; [done..|]. intros q _. split; [by left|]. by intros [?|(? & ?%not_elem_of_nil & _)].
  - cbn [add_each]. unfold bloom_add. destruct (bloomValues_bits d) as [-> Hwf]. destruct (or_all_spec _ b Hb Hwf) as (b1 & H1 & Hb1 & Hq1).
    unfold mbind, res_bind. rewrite H1. destruct (IH b1 Hb1) as (b2 & H2 & Hb2 & Hq2). exists b2. split_and!; [done..|].
    intros q Hq. rewrite Hq2, Hq1 by done. split.
    + intros [[Hq0|Hq0]|(d' & Hd & Hq0)]; [by left|right; exists d; split; [apply elem_of_cons; by left|done]|].
      right. exists d'. split; [apply elem_of_cons; by right|done].
    + intros [Hq0|(d' & [->|Hd]%elem_of_cons & Hq0)]; [by left; left|by left; right|right; by exists d'].
Qed.

Lemma land_pow2 x k : 0 ≤ k → (2 ^ k =? Z.land (2 ^ k) x) = Z.testbit x k.
Proof.
  intros Hk. destruct (Z.eqb_spec (2 ^ k) (Z.land (2 ^ k) x)) as [He|He].
  - symmetry. apply (f_equal (λ y, Z.testbit y k)) in He. rewrite Z.land_spec, Z.pow2_bits_true in He by done. done.
  - symmetry. apply not_true_iff_false. intros Ht. apply He. apply Z.bits_inj'. intros m Hm. rewrite Z.land_spec, Z.pow2_bits_eqb by done.
    destruct (Z.eqb_spec k m) as [<-|]; [by rewrite Ht|done].
Qed.
Lemma test_all_spec b l : length b = 256%nat → Forall wf_bit l →
  ∃ r, test_all b (map (λ p, (fst p, 2 ^ snd p)) l) = Ok r ∧ (r = true ↔ ∀ p, p ∈ l → has_bit b p).
Proof.
  intros Hb. induction l as [|p l IH]; intros Hl.
  - exists true. split; [done|]. split; [|done]. intros _ p Hp. by apply not_elem_of_nil in Hp.
  - apply Forall_cons_1 in Hl as [[Hi Hk] Hl]. destruct p as [i k]. cbn [fst snd map test_all] in *.
    destruct (lookup_lt_is_Some_2 b (Z.to_nat i)) as [x Hx]; [lia|]. rewrite (go_index_ok b i x) by (done || lia). unfold mbind, res_bind.
    rewrite land_pow2 by lia. destruct (Z.testbit x k) eqn:Ht.
    + destruct (IH Hl) as (r & -> & Hr). exists r. split; [done|]. rewrite Hr. split.
      * intros Hall p [->|Hp]%elem_of_cons; [by exists x|by apply Hall].
      * intros Hall p Hp. apply Hall, elem_of_cons. by right.
    + exists false. split; [done|]. split; [done|]. intros Hall. destruct (Hall (i, k)) as (y & Hy & Hty); [apply elem_of_cons; by left|].
      cbn [fst snd] in *. rewrite Hx in Hy. injection Hy as <-. by rewrite Ht in Hty.
Qed.

Lemma has_bit_zero q : ¬ has_bit (replicate 256 0) q.
Proof. intros (x & [-> _]%lookup_replicate & Ht). by rewrite Z.testbit_0_l in Ht. Qed.

(** A filter made of data answers from the bits of the data. *)
Lemma add_each_test ds : ∃ b, add_each (replicate 256 0) ds = Ok b ∧ length b = 256%nat ∧
  ∀ d, ∃ r, bloom_Test b d = Ok r ∧ (r = true ↔ ∀ p, p ∈ bits_of d → ∃ d', d' ∈ ds ∧ p ∈ bits_of d').
Proof.
  destruct (add_each_spec ds (replicate 256 0)) as (b & Hb & Hl & Hq); [done|]. exists b. split_and!; [done..|]. intros d.
  unfold bloom_Test. destruct (bloomValues_bits d) as [-> Hwf]. destruct (test_all_spec b (bits_of d) Hl Hwf) as (r & -> & Hr).
  exists r. split; [done|]. rewrite Hr. apply forall_proper. intros p. split; intros Hp Hin; specialize (Hp Hin);
    pose proof (proj1 (list.Forall_forall _ _) Hwf p Hin) as Hwp.
  - apply Hq in Hp as [Hp|Hp]; [by apply has_bit_zero in Hp|done|done].
  - apply Hq; [done|]. by right.
Qed.

(** C35: the filter of a block's receipts always exists, has 256 bytes, and a test answers yes
    exactly if each of the three bits of the datum is one of those of an address or a
    topic of some log; in particular every address and topic of a log is found. *)
Theorem CreateBloom_exact receipts : ∃ b, CreateBloom receipts = Ok b ∧ length b = 256%nat ∧
  (∀ d, ∃ r, bloom_Test b d = Ok r ∧
    (r = true ↔ ∀ p, p ∈ bits_of d → ∃ l d', l ∈ mjoin receipts ∧ d' ∈ log_data l ∧ p ∈ bits_of d')) ∧
  (∀ l d, l ∈ mjoin receipts → d ∈ log_data l → bloom_Test b d = Ok true).
Proof.
  unfold CreateBloom, LogsBloom. set (ds := mjoin (map log_data (mjoin receipts))).
  assert (∀ d, d ∈ ds ↔ ∃ l, l ∈ mjoin receipts ∧ d ∈ log_data l) as Hds.
  { intros d. unfold ds. rewrite list_elem_of_join. split.
    - intros (x & Hd & (l & -> & Hl)%list_elem_of_fmap). by exists l.
    - intros (l & Hl & Hd). exists (log_data l). split; [done|]. apply list_elem_of_fmap. by exists l. }
  destruct (add_each_test ds) as (b & Hb & Hlen & Ht). exists b. split_and!; [done..| |].
  - intros d. destruct (Ht d) as (r & Hr & Hiff). exists r. split; [done|]. rewrite Hiff. apply forall_proper. intros p. split; intros Hp Hin.
    + destruct (Hp Hin) as (d' & (l & Hl & Hd)%Hds & Hpd). by exists l, d'.
    + destruct (Hp Hin) as (l & d' & Hl & Hd & Hpd). exists d'. split; [|done]. apply Hds. by exists l.
  - intros l d Hl Hd. destruct (Ht d) as (r & Hr & Hiff). rewrite Hr. f_equal. apply Hiff. intros p Hp. exists d. split; [|done]. apply Hds. by exists l.
Qed.
End bloom.
