(* ===== verification/TxHeap.v ===== *)
(** * Heaps of nonces (src/geth/core/tx_list.go, over Go's container/heap)

    [nonceHeap] is a binary heap in a slice; the package [container/heap] keeps its order
    with [up] and [down].  The operations permute the slice and keep the order, so the
    first element is the least. *)
From stdpp Require Import gmap list.
From S2P Require Import Prelude.

(** ** Operations *)

(** [h[i], h[j] = h[j], h[i]]. *)
Definition swap (l : list Z) (i j : nat) : list Z := <[i := l !!! j]> (<[j := l !!! i]> l).

(** [up(h, j)]; at most [j] rounds. *)
Fixpoint up (fuel : nat) (l : list Z) (j : nat) : list Z :=
  match fuel with
  | O => l
  | S fuel =>
      let i := Nat.div2 (j - 1) in
      if Nat.eqb i j || negb (l !!! j <? l !!! i) then l else up fuel (swap l i j) i
  end.

(** [down(h, i, n)], with the final position; at most [n - i] rounds. *)
Fixpoint down (fuel : nat) (l : list Z) (i n : nat) : list Z * nat :=
  match fuel with
  | O => (l, i)
  | S fuel =>
      let j1 := (2 * i + 1)%nat in
      if Nat.leb n j1 then (l, i) else
      let j := if Nat.ltb (j1 + 1) n && (l !!! (j1 + 1)%nat <? l !!! j1) then (j1 + 1)%nat else j1 in
      if negb (l !!! j <? l !!! i) then (l, i) else down fuel (swap l i j) j n
  end.

Fixpoint init_loop (l : list Z) (i n : nat) : list Z :=
  match i with O => l | S i => init_loop (fst (down n l i n)) i n end.
Definition heap_Init (l : list Z) : list Z := init_loop l (Nat.div2 (length l)) (length l).
Definition heap_Push (l : list Z) (x : Z) : list Z := up (length l + 1) (l ++ [x]) (length l).
(** [nonceHeap.Pop]: the last element and the others. *)
Definition pop_last (l : list Z) : Z * list Z := (l !!! (length l - 1)%nat, take (length l - 1) l).
(** A heap that is empty makes [Pop] panic; the callers test its length. *)
Definition heap_Pop (l : list Z) : Z * list Z :=
  let n := (length l - 1)%nat in pop_last (fst (down n (swap l 0 n) 0 n)).
Definition heap_Remove (l : list Z) (i : nat) : Z * list Z :=
  let n := (length l - 1)%nat in
  if Nat.eqb n i then pop_last l else
  let '(l1, i') := down n (swap l i n) i n in
  pop_last (if Nat.ltb i i' then l1 else up (i + 1) l1 i).

(** ** The order of a heap *)

Definition child (i c : nat) : Prop := c = (2 * i + 1)%nat ∨ c = (2 * i + 2)%nat.
(** The order holds below the positions from [k] on, within the first [n] elements. *)
Definition heap_from (k n : nat) (l : list Z) : Prop := ∀ i c, child i c → (k ≤ i)%nat → (c < n)%nat → l !!! i ≤ l !!! c.
Definition heap (l : list Z) : Prop := heap_from 0 (length l) l.

Lemma swap_length l i j : length (swap l i j) = length l.
Proof. unfold swap. by rewrite !length_insert. Qed.
Lemma swap_lookup l i j m : (i < length l)%nat → (j < length l)%nat →
  swap l i j !!! m = if decide (m = i) then l !!! j else if decide (m = j) then l !!! i else l !!! m.
Proof.
  intros Hi Hj. unfold swap. destruct (decide (m = i)) as [->|Hmi]; [by rewrite list_lookup_total_insert_eq by by rewrite length_insert|].
  rewrite list_lookup_total_insert_ne by done. destruct (decide (m = j)) as [->|]; [by rewrite list_lookup_total_insert_eq|].
  by rewrite list_lookup_total_insert_ne.
Qed.
Lemma swap_perm l i j : (i < length l)%nat → (j < length l)%nat → swap l i j ≡ₚ l.
Proof.
  intros Hi Hj. apply Permutation_inj. split; [apply swap_length|].
  exists (λ m, if decide (m = i) then j else if decide (m = j) then i else m). split.
  - intros a b. destruct (decide (a = i)), (decide (b = i)), (decide (a = j)), (decide (b = j)); subst; try congruence; naive_solver.
  - intros m. destruct (decide (m < length l)%nat) as [Hm|Hm].
    + assert (∀ k, (k < length l)%nat → l !! k = Some (l !!! k)) as Hl by (intros k Hk; by apply list_lookup_lookup_total_lt).
      rewrite (list_lookup_lookup_total_lt (swap l i j)) by by rewrite swap_length. rewrite swap_lookup by done.
      destruct (decide (m = i)), (decide (m = j)); subst; by rewrite Hl.
    + rewrite (lookup_ge_None_2 (swap l i j)) by (rewrite swap_length; lia). symmetry. apply lookup_ge_None_2.
      destruct (decide (m = i)), (decide (m = j)); subst; lia.
Qed.

(** ** Down *)

(** The order may fail only at position [i], whose parent is below its children. *)
Record hole (k n i : nat) (l : list Z) : Prop := {
  hole_rest a c : child a c → (k ≤ a)%nat → (c < n)%nat → a ≠ i → c ≠ i → l !!! a ≤ l !!! c;
  hole_skip a c : child a i → child i c → (k ≤ a)%nat → (c < n)%nat → l !!! a ≤ l !!! c
}.
Definition below_parent (k i : nat) (l : list Z) : Prop := ∀ a, child a i → (k ≤ a)%nat → l !!! a ≤ l !!! i.

Lemma hole_heap k n i l : hole k n i l → below_parent k i l → (∀ c, child i c → (c < n)%nat → l !!! i ≤ l !!! c) → heap_from k n l.
Proof.
  intros [Hr Hs] Hb Hc a c Hac Ha Hcn. destruct (decide (a = i)) as [->|Hai]; [by apply Hc|].
  destruct (decide (c = i)) as [->|Hci]; [by apply Hb|by apply Hr].
Qed.

(** Swapping with the least child moves the hole there, below its new parent. *)
Lemma swap_hole k n i j l : hole k n i l → child i j → (j < n ≤ length l)%nat → (k ≤ i)%nat → l !!! j < l !!! i →
  (∀ c, child i c → (c < n)%nat → l !!! j ≤ l !!! c) →
  hole k n j (swap l i j) ∧ below_parent k j (swap l i j) ∧ below_parent k i (swap l i j).
Proof.
  intros [Hr Hs] Hij Hjn Hki Hlt Hmin. assert (i < j)%nat as Hlt' by (unfold child in Hij; lia).
  split_and!.
  - split.
    + intros a c Hac Ha Hc Haj Hcj. rewrite !swap_lookup by lia. unfold child in *.
      repeat destruct (decide _); subst; try lia; try (by apply Hmin); try (apply Hs; unfold child; lia); apply Hr; unfold child; lia.
    + intros a c Haj Hjc Ha Hc. assert (a = i) as -> by (unfold child in *; lia). rewrite !swap_lookup by lia. unfold child in *.
      repeat destruct (decide _); subst; try lia. apply Hr; unfold child; lia.
  - intros a Haj Ha. assert (a = i) as -> by (unfold child in *; lia). rewrite !swap_lookup by lia.
    repeat destruct (decide _); subst; try lia.
  - intros a Hai Ha. rewrite !swap_lookup by lia. unfold child in *. repeat destruct (decide _); subst; try lia. apply Hs; unfold child; lia.
Qed.

Lemma down_spec fuel : ∀ k n i l, hole k n i l → (k ≤ i)%nat → (n ≤ length l)%nat → (n ≤ fuel + i)%nat →
  let '(l', i') := down fuel l i n in
  l' ≡ₚ l ∧ (∀ m, (n ≤ m)%nat → l' !!! m = l !!! m) ∧ (i ≤ i')%nat ∧
  (i' = i → l' = l ∧ ∀ c, child i c → (c < n)%nat → l !!! i ≤ l !!! c) ∧ (i' ≠ i ∨ below_parent k i l → heap_from k n l').
Proof.
  induction fuel as [|fuel IH]; intros k n i l Hh Hk Hn Hf.
  { cbn [down]. split_and!; [done..|intros _; split; [done|intros c Hc; unfold child in Hc; lia]|].
    intros [?|Hb]; [done|]. apply (hole_heap k n i); [done..|]. intros c Hc. unfold child in Hc. lia. }
  cbn [down]. destruct (Nat.leb_spec n (2 * i + 1)) as [Hge|Hlt].
  { assert (∀ c, child i c → (c < n)%nat → l !!! i ≤ l !!! c) as Hc by (intros c Hc; unfold child in Hc; lia).
    split_and!; [done..|]. intros [?|Hb]; [done|]. by apply (hole_heap k n i). }
  set (j := if Nat.ltb (2 * i + 1 + 1) n && (l !!! (2 * i + 1 + 1)%nat <? l !!! (2 * i + 1)%nat) then (2 * i + 1 + 1)%nat else (2 * i + 1)%nat).
  assert (child i j ∧ (j < n)%nat ∧ ∀ c, child i c → (c < n)%nat → l !!! j ≤ l !!! c) as (Hij & Hjn & Hmin).
  { unfold j. destruct (Nat.ltb_spec (2 * i + 1 + 1) n) as [H2|H2]; cbn [andb].
    - destruct (Z.ltb_spec (l !!! (2 * i + 1 + 1)%nat) (l !!! (2 * i + 1)%nat)) as [Hl|Hl].
      + split; [right; lia|]. split; [lia|]. intros c [->| ->] _; [lia|]. replace (2 * i + 2)%nat with (2 * i + 1 + 1)%nat by lia. lia.
      + split; [by left|]. split; [lia|]. intros c [->| ->] _; [lia|]. replace (2 * i + 2)%nat with (2 * i + 1 + 1)%nat by lia. lia.
    - split; [by left|]. split; [lia|]. intros c [->| ->] Hc; [lia|lia]. }
  clearbody j. destruct (Z.ltb_spec (l !!! j) (l !!! i)) as [Hji|Hji]; cbn [negb].
  - destruct (swap_hole k n i j l Hh Hij ltac:(lia) Hk Hji Hmin) as (Hh' & Hb' & _). assert (i < j)%nat by (unfold child in Hij; lia).
    specialize (IH k n j (swap l i j) Hh' ltac:(lia) ltac:(rewrite swap_length; lia) ltac:(lia)).
    destruct (down fuel (swap l i j) j n) as [l' i']. destruct IH as (Hp & Hout & Hle & _ & Hheap).
    split_and!; [by rewrite Hp; apply swap_perm; lia| |lia|lia|intros _; by apply Hheap; right].
    intros m Hm. rewrite Hout by done. rewrite swap_lookup by lia. repeat destruct (decide _); lia.
  - assert (∀ c, child i c → (c < n)%nat → l !!! i ≤ l !!! c) as Hc by (intros c Hc Hcn; specialize (Hmin c Hc Hcn); lia).
    split_and!; [done..|]. intros [?|Hb]; [done|]. by apply (hole_heap k n i).
Qed.

(** ** Up *)

Lemma div2_child j : (0 < j)%nat → child (Nat.div2 (j - 1)) j.
Proof.
  intros Hj. unfold child. destruct (Nat.Even_or_Odd (j - 1)) as [He|Ho].
  - apply Nat.Even_double in He. unfold Nat.double in He. lia.
  - apply Nat.Odd_double in Ho. unfold Nat.double in Ho. lia.
Qed.

(** The order may fail only between position [j] and its parent. *)
Record raised (n j : nat) (l : list Z) : Prop := {
  raised_rest a c : child a c → (c < n)%nat → c ≠ j → l !!! a ≤ l !!! c;
  raised_skip a c : child a j → child j c → (c < n)%nat → l !!! a ≤ l !!! c
}.
Lemma up_spec fuel : ∀ n j l, raised n j l → (j < n ≤ length l)%nat → (j < fuel)%nat →
  up fuel l j ≡ₚ l ∧ heap_from 0 n (up fuel l j) ∧ ∀ m, (n ≤ m)%nat → up fuel l j !!! m = l !!! m.
Proof.
  induction fuel as [|fuel IH]; intros n j l [Hr Hs] Hj Hf; [lia|]. cbn [up]. destruct (Nat.eqb_spec (Nat.div2 (j - 1)) j) as [He|He]; cbn [orb].
  - assert (j = 0)%nat as ->. { destruct (decide (j = 0)%nat); [done|]. pose proof (div2_child j ltac:(lia)) as Hc. rewrite He in Hc. unfold child in Hc. lia. }
    split_and!; [done| |done]. intros a c Hac _ Hc. apply Hr; [done|done|]. unfold child in Hac. lia.
  - assert (0 < j)%nat as Hj0 by (destruct j; [done|lia]). pose proof (div2_child j Hj0) as Hij. set (i := Nat.div2 (j - 1)) in *. clearbody i.
    assert (i < j)%nat by (unfold child in Hij; lia). destruct (Z.ltb_spec (l !!! j) (l !!! i)) as [Hlt|Hge]; cbn [negb].
    + destruct (IH n i (swap l i j)) as (Hp & Hh & Hout).
      * split.
        -- intros a c Hac Hc Hci. rewrite !swap_lookup by lia. unfold child in *. repeat destruct (decide _); subst; try lia.
           all: try (apply Hs; unfold child; lia). all: try (apply Hr; unfold child; lia).
           assert (l !!! i ≤ l !!! c) by (apply Hr; unfold child; lia). lia.
        -- intros a c Hai Hic Hc. assert (l !!! a ≤ l !!! i) by (apply Hr; unfold child in *; lia). rewrite !swap_lookup by lia.
           unfold child in *. repeat destruct (decide _); subst; try lia.
           assert (l !!! i ≤ l !!! c) by (apply Hr; unfold child; lia). lia.
      * rewrite swap_length. lia.
      * lia.
      * split_and!; [by rewrite Hp; apply swap_perm; lia|done|]. intros m Hm. rewrite Hout by done. rewrite swap_lookup by lia. repeat destruct (decide _); lia.
    + split_and!; [done| |done]. intros a c Hac _ Hc. destruct (decide (c = j)) as [->|]; [|by apply Hr].
      assert (a = i) as -> by (unfold child in *; lia). done.
Qed.

(** ** The operations of the package *)

Lemma heap_min l m : heap l → (m < length l)%nat → l !!! 0%nat ≤ l !!! m.
Proof.
  intros Hh. induction (lt_wf m) as [m _ IH]. intros Hm. destruct (decide (m = 0)%nat) as [->|]; [done|].
  pose proof (div2_child m ltac:(lia)) as Hc. set (i := Nat.div2 (m - 1)) in *. assert (i < m)%nat by (unfold child in Hc; lia).
  pose proof (IH i ltac:(lia) ltac:(lia)). pose proof (Hh i m Hc ltac:(lia) Hm). lia.
Qed.

Lemma init_loop_spec i n : ∀ l, length l = n → (i ≤ n)%nat → heap_from i n l → init_loop l i n ≡ₚ l ∧ heap_from 0 n (init_loop l i n).
Proof.
  induction i as [|i IH]; intros l Hl Hi Hh; cbn [init_loop]; [done|].
  assert (hole i n i l) as Hhole.
  { split; [intros a c Hac Ha Hc Hne _; apply Hh; [done|lia|done]|]. intros a c Hai _ Ha _. unfold child in Hai. lia. }
  pose proof (down_spec n i n i l Hhole ltac:(lia) ltac:(lia) ltac:(lia)) as Hd. destruct (down n l i n) as [l' i']. cbn [fst].
  destruct Hd as (Hp & _ & _ & _ & Hh'). destruct (IH l') as [Hp' Hh'']; [by rewrite Hp|lia| |].
  - apply Hh'. right. intros a Hai Ha. unfold child in Hai. lia.
  - split; [by rewrite Hp'|done].
Qed.
Lemma heap_Init_spec l : heap_Init l ≡ₚ l ∧ heap (heap_Init l).
Proof.
  unfold heap_Init, heap. pose proof (Nat.le_div2_diag_l (length l)) as Hle. destruct (init_loop_spec (Nat.div2 (length l)) (length l) l) as [Hp Hh]; [done..| |].
  - intros i c Hc Hi Hcn. exfalso. unfold child in Hc. destruct (Nat.Even_or_Odd (length l)) as [He|Ho].
    + apply Nat.Even_double in He. unfold Nat.double in He. lia.
    + apply Nat.Odd_double in Ho. unfold Nat.double in Ho. lia.
  - split; [done|]. by rewrite (Permutation_length Hp).
Qed.

Lemma heap_Push_spec l x : heap l → heap_Push l x ≡ₚ x :: l ∧ heap (heap_Push l x).
Proof.
  intros Hh. unfold heap_Push. assert (∀ m, (m < length l)%nat → (l ++ [x]) !!! m = l !!! m) as Hl by (intros m Hm; by apply lookup_total_app_l).
  assert (length (l ++ [x]) = (length l + 1)%nat) as Hlen by (rewrite length_app; cbn; lia).
  destruct (up_spec (length l + 1) (length l + 1) (length l) (l ++ [x])) as (Hp & Hh' & _); [|lia|lia|].
  - split.
    + intros a c Hac Hc Hne. assert (a < c)%nat by (unfold child in Hac; lia). rewrite !Hl by lia. apply Hh; [done|lia|lia].
    + intros a c _ Hc Hcn. unfold child in Hc. lia.
  - split; [by rewrite Hp, (comm (++))|]. unfold heap. by rewrite (Permutation_length Hp), Hlen.
Qed.

(** Taking off the last element. *)
Lemma pop_last_spec l n : length l = S n → heap_from 0 n l → snd (pop_last l) ++ [fst (pop_last l)] = l ∧ heap (snd (pop_last l)) ∧ fst (pop_last l) = l !!! n.
Proof.
  intros Hl Hh. unfold pop_last. rewrite Hl. cbn [fst snd]. replace (S n - 1)%nat with n by lia. split_and!; [|  |done].
  - rewrite <-(take_drop n l) at 3. f_equal. assert (l !! n = Some (l !!! n)) as Hn by (apply list_lookup_lookup_total_lt; lia).
    rewrite (drop_S l (l !!! n) n Hn). rewrite drop_ge by lia. done.
  - unfold heap. rewrite length_take. replace (min n (length l))%nat with n by lia. intros i c Hc Hk Hcn. assert (i < c)%nat by (unfold child in Hc; lia).
    rewrite !list_lookup_total_alt, !lookup_take_lt by lia. rewrite <-!list_lookup_total_alt. by apply Hh.
Qed.

Lemma heap_Pop_spec l x l' : heap l → l ≠ [] → heap_Pop l = (x, l') → l ≡ₚ x :: l' ∧ heap l' ∧ x = l !!! 0%nat ∧ Forall (λ y, x ≤ y) l.
Proof.
  intros Hh Hne. unfold heap_Pop. destruct (length l) as [|n] eqn:Hl; [by apply nil_length_inv in Hl|]. replace (S n - 1)%nat with n by lia.
  assert (hole 0 n 0 (swap l 0 n)) as Hhole.
  { split; [|intros a c Ha0; unfold child in Ha0; lia]. intros a c Hac _ Hc Ha Hc0. assert (a < c)%nat by (unfold child in Hac; lia).
    rewrite !swap_lookup by lia. repeat destruct (decide _); try lia. apply Hh; [done|lia|lia]. }
  pose proof (down_spec n 0 n 0 (swap l 0 n) Hhole ltac:(lia) ltac:(rewrite swap_length; lia) ltac:(lia)) as Hd.
  destruct (down n (swap l 0 n) 0 n) as [l1 i']. cbn [fst]. destruct Hd as (Hp & Hout & _ & _ & Hh1).
  assert (length l1 = S n) as Hl1 by (rewrite Hp, swap_length; done).
  destruct (pop_last_spec l1 n Hl1) as (Happ & Hheap & Hlast); [apply Hh1; right; intros a Ha; unfold child in Ha; lia|].
  destruct (pop_last l1) as [y l2]. cbn [fst snd] in *. intros [= <- <-].
  assert (y = l !!! 0%nat) as Hy. { rewrite Hlast, Hout by done. rewrite swap_lookup by lia. repeat destruct (decide _); subst; [done|done|lia]. }
  split_and!; [|done|done|].
  - rewrite <-(swap_perm l 0 n) by lia. rewrite <-Hp, <-Happ. by rewrite (comm (++)).
  - rewrite Hy. apply list.Forall_forall. intros z (m & Hm)%list_elem_of_lookup. pose proof (lookup_lt_Some _ _ _ Hm).
    pose proof (heap_min l m Hh ltac:(lia)). by rewrite (list_lookup_total_correct _ _ _ Hm) in *.
Qed.

Lemma heap_Remove_spec l i x l' : heap l → (i < length l)%nat → heap_Remove l i = (x, l') → l ≡ₚ x :: l' ∧ heap l' ∧ x = l !!! i.
Proof.
  intros Hh Hi. unfold heap_Remove. destruct (length l) as [|n] eqn:Hl; [lia|]. replace (S n - 1)%nat with n by lia.
  assert (∀ l1, length l1 = S n → l1 ≡ₚ l → heap_from 0 n l1 → l1 !!! n = l !!! i → pop_last l1 = (x, l') → l ≡ₚ x :: l' ∧ heap l' ∧ x = l !!! i) as Hfin.
  { intros l1 Hl1 Hp1 Hh1 Hn1 Hpop. destruct (pop_last_spec l1 n Hl1 Hh1) as (Happ & Hheap & Hlast). rewrite Hpop in Happ, Hheap, Hlast. cbn [fst snd] in *.
    split_and!; [|done|by rewrite Hlast]. rewrite <-Hp1, <-Happ. by rewrite (comm (++)). }
  destruct (Nat.eqb_spec n i) as [->|Hne].
  { apply Hfin; [done..| |done]. intros a c Hac _ Hc. apply Hh; [done|lia|lia]. }
  assert (hole 0 n i (swap l i n)) as Hhole.
  { split.
    - intros a c Hac _ Hc Ha Hci. assert (a < c)%nat by (unfold child in Hac; lia). rewrite !swap_lookup by lia.
      repeat destruct (decide _); try lia. apply Hh; [done|lia|lia].
    - intros a c Hai Hic _ Hc. assert (a < i < c)%nat by (unfold child in *; lia). rewrite !swap_lookup by lia. repeat destruct (decide _); try lia.
      pose proof (Hh a i Hai ltac:(lia) ltac:(lia)). pose proof (Hh i c Hic ltac:(lia) ltac:(lia)). lia. }
  pose proof (down_spec n 0 n i (swap l i n) Hhole ltac:(lia) ltac:(rewrite swap_length; lia) ltac:(lia)) as Hd.
  destruct (down n (swap l i n) i n) as [l1 i']. destruct Hd as (Hp & Hout & Hle & Hstay & Hh1).
  assert (length l1 = S n) as Hl1 by (rewrite Hp, swap_length; done).
  assert (l1 ≡ₚ l) as Hp1 by (rewrite Hp; apply swap_perm; lia).
  assert (l1 !!! n = l !!! i) as Hn1. { rewrite Hout by done. rewrite swap_lookup by lia. repeat destruct (decide _); subst; [done|done|lia]. }
  destruct (Nat.ltb_spec i i') as [Hlt|Hge]; [apply Hfin; [done..|apply Hh1; left; lia|done]|].
  destruct (Hstay ltac:(lia)) as [-> Hc].
  destruct (up_spec (i + 1) n i (swap l i n)) as (Hpu & Hhu & Hou); [|rewrite swap_length; lia|lia|].
  - split; [|intros a c Ha Hci Hcn; apply (hole_skip _ _ _ _ Hhole); [done|done|lia|done]].
    intros a c Hac Hcn Hci. destruct (decide (a = i)) as [->|]; [by apply Hc|apply (hole_rest _ _ _ _ Hhole); [done|lia|done..]].
  - apply Hfin; [by rewrite Hpu|by rewrite Hpu|done|by rewrite Hou].
Qed.
