(* ===== verification/TxList.v ===== *)
(** * The transactions of an account in the pool (src/geth/core/tx_list.go)

    [txSortedMap] keeps transactions by nonce in a map, with a heap of the nonces and a
    cache of the sorted list; [txList] adds the price and gas limits that the pool uses.
    Go's maps are iterated in no fixed order: the model takes that of [map_to_list]. *)
From stdpp Require Import gmap list sorting.
From S2P Require Import Prelude TxHeap.

(** The fields of [types.Transaction] that the lists read. *)
Record Tx := mk_Tx { Nonce : Z; tx_Gas : Z; tx_GasPrice : Z; GasFeeCap : Z; GasTipCap : Z; tx_Value : Z; tx_Hash : Z }.
Definition tx_Cost (tx : Tx) : Z := tx_GasPrice tx * tx_Gas tx + tx_Value tx.

(** [types.Transactions], a slice of pointers. *)
Abbreviation Transactions := (list (option Tx)).
Inductive list_err := .
Abbreviation R := (res list_err).

(** ** The sorted map *)

Record txSortedMap := mk_txSortedMap { items : gmap Z Tx; index : list Z; cache : option Transactions }.

Definition newTxSortedMap : txSortedMap := mk_txSortedMap ∅ [] None.
Definition Get (m : txSortedMap) (nonce : Z) : option Tx := items m !! nonce.

Definition Put (tx : Tx) (m : txSortedMap) : txSortedMap :=
  let idx := if bool_decide (items m !! Nonce tx = None) then heap_Push (index m) (Nonce tx) else index m in
  mk_txSortedMap (<[Nonce tx := tx]> (items m)) idx None.

Fixpoint forward_loop (fuel : nat) (its : gmap Z Tx) (idx : list Z) (threshold : Z) : gmap Z Tx * list Z * Transactions :=
  match fuel, idx with
  | S fuel, x :: _ =>
      if x <? threshold then
        let '(nonce, idx) := heap_Pop idx in
        let '(its', idx, removed) := forward_loop fuel (delete nonce its) idx threshold in
        (its', idx, its !! nonce :: removed)
      else (its, idx, [])
  | _, _ => (its, idx, [])
  end.
Definition Forward (threshold : Z) (m : txSortedMap) : R (txSortedMap * Transactions) :=
  let '(its, idx, removed) := forward_loop (length (index m)) (items m) (index m) threshold in
  match cache m with
  | None => Ok (mk_txSortedMap its idx None, removed)
  | Some c => c ← go_slice c (len removed) (len c); Ok (mk_txSortedMap its idx (Some c), removed)
  end.

Definition filter_ (f : Tx → bool) (m : txSortedMap) : txSortedMap * Transactions :=
  let removed := map (λ p, Some (snd p)) (map_to_list (base.filter (λ p, f (snd p) = true) (items m))) in
  (mk_txSortedMap (base.filter (λ p, f (snd p) = false) (items m)) (index m) (if 0 <? len removed then None else cache m), removed).
Definition reheap (m : txSortedMap) : txSortedMap :=
  mk_txSortedMap (items m) (heap_Init (map fst (map_to_list (items m)))) None.
Definition Filter (f : Tx → bool) (m : txSortedMap) : txSortedMap * Transactions :=
  let '(m, removed) := filter_ f m in
  (if 0 <? len removed then reheap m else m, removed).

(** The loop of [Cap], from [size] down. *)
Fixpoint cap_loop (n : nat) (its : gmap Z Tx) (idx : list Z) (size : Z) : R (gmap Z Tx * Transactions) :=
  match n with
  | O => Ok (its, [])
  | S n =>
      x ← go_index idx (size - 1);
      '(its', drops) ← cap_loop n (delete x its) idx (size - 1);
      Ok (its', its !! x :: drops)
  end.
Definition Cap (threshold : Z) (m : txSortedMap) : R (txSortedMap * Transactions) :=
  let n := Z.of_nat (size (items m)) in
  if n <=? threshold then Ok (m, []) else
  let idx := merge_sort Z.le (index m) in
  '(its, drops) ← cap_loop (Z.to_nat (n - threshold)) (items m) idx n;
  idx ← go_slice idx 0 threshold;
  match cache m with
  | None => Ok (mk_txSortedMap its (heap_Init idx) None, drops)
  | Some c => c ← go_slice c 0 (len c - len drops); Ok (mk_txSortedMap its (heap_Init idx) (Some c), drops)
  end.

Fixpoint find_index (idx : list Z) (nonce : Z) (i : nat) : option nat :=
  match idx with [] => None | x :: idx => if x =? nonce then Some i else find_index idx nonce (S i) end.
Definition Remove (nonce : Z) (m : txSortedMap) : txSortedMap * bool :=
  match items m !! nonce with
  | None => (m, false)
  | Some _ =>
      let idx := match find_index (index m) nonce 0 with Some i => snd (heap_Remove (index m) i) | None => index m end in
      (mk_txSortedMap (delete nonce (items m)) idx None, true)
  end.

Fixpoint ready_loop (fuel : nat) (its : gmap Z Tx) (idx : list Z) (next : Z) : gmap Z Tx * list Z * Transactions :=
  match fuel, idx with
  | S fuel, x :: _ =>
      if x =? next then
        let '(its', idx, ready) := ready_loop fuel (delete next its) (snd (heap_Pop idx)) (u64 (next + 1)) in
        (its', idx, its !! next :: ready)
      else (its, idx, [])
  | _, _ => (its, idx, [])
  end.
Definition Ready (start : Z) (m : txSortedMap) : txSortedMap * Transactions :=
  match index m with
  | [] => (m, [])
  | x :: _ =>
      if start <? x then (m, []) else
      let '(its, idx, ready) := ready_loop (length (index m)) (items m) (index m) x in
      (mk_txSortedMap its idx None, ready)
  end.

Definition tx_Len (m : txSortedMap) : Z := Z.of_nat (size (items m)).

(** Sorting by nonce; the values of the map are not nil. *)
Definition by_nonce (a b : Tx) : Prop := Nonce a ≤ Nonce b.
#[export] Instance by_nonce_dec a b : Decision (by_nonce a b).
Proof. unfold by_nonce. apply _. Defined.
Definition flatten (m : txSortedMap) : txSortedMap * Transactions :=
  match cache m with
  | Some c => (m, c)
  | None =>
      let c := map Some (merge_sort by_nonce (map snd (map_to_list (items m)))) in
      (mk_txSortedMap (items m) (index m) (Some c), c)
  end.
Definition Flatten (m : txSortedMap) : txSortedMap * Transactions := flatten m.
Definition LastElement (m : txSortedMap) : txSortedMap * R (option Tx) :=
  let '(m, c) := flatten m in (m, go_index c (len c - 1)).

(** ** The list of an account *)

Record txList := mk_txList { strict : bool; txs : txSortedMap; costcap : Z; gascap : Z }.
Definition newTxList (s : bool) : txList := mk_txList s newTxSortedMap 0 0.
Definition Overlaps (l : txList) (tx : Tx) : bool := bool_decide (Get (txs l) (Nonce tx) ≠ None).

(** The price that a replacement must reach. *)
Definition threshold (priceBump price : Z) : Z := i64 (100 + i64 priceBump) * price / 100.
Definition Add (tx : Tx) (priceBump : Z) (l : txList) : txList * bool * option Tx :=
  let old := Get (txs l) (Nonce tx) in
  let refused :=
    match old with
    | Some old =>
        (GasFeeCap tx <=? GasFeeCap old) || (GasTipCap tx <=? GasTipCap old) ||
        (GasFeeCap tx <? threshold priceBump (GasFeeCap old)) || (GasTipCap tx <? threshold priceBump (GasTipCap old))
    | None => false
    end in
  if refused then (l, false, None) else
  (mk_txList (strict l) (Put tx (txs l))
     (if costcap l <? tx_Cost tx then tx_Cost tx else costcap l)
     (if gascap l <? tx_Gas tx then tx_Gas tx else gascap l), true, old).

Definition list_Forward (t : Z) (l : txList) : R (txList * Transactions) :=
  '(m, removed) ← Forward t (txs l); Ok (mk_txList (strict l) m (costcap l) (gascap l), removed).
(** A nil transaction has no nonce: a panic. *)
Fixpoint lowest_nonce (removed : Transactions) (lowest : Z) : R Z :=
  match removed with
  | [] => Ok lowest
  | Some tx :: removed => lowest_nonce removed (if Nonce tx <? lowest then Nonce tx else lowest)
  | None :: _ => Panic runtime_error
  end.
Definition list_Filter (costLimit gasLimit : Z) (l : txList) : R (txList * Transactions * Transactions) :=
  if (costcap l <=? costLimit) && (gascap l <=? gasLimit) then Ok (l, [], []) else
  let '(m, removed) := Filter (λ tx, (gasLimit <? tx_Gas tx) || (costLimit <? tx_Cost tx)) (txs l) in
  if len removed =? 0 then Ok (mk_txList (strict l) m costLimit gasLimit, [], []) else
  '(m, invalids) ←
    (if strict l then lowest ← lowest_nonce removed (2 ^ 64 - 1); Ok (filter_ (λ tx, lowest <? Nonce tx) m) else Ok (m, []));
  Ok (mk_txList (strict l) (reheap m) costLimit gasLimit, removed, invalids).
Definition list_Cap (t : Z) (l : txList) : R (txList * Transactions) :=
  '(m, drops) ← Cap t (txs l); Ok (mk_txList (strict l) m (costcap l) (gascap l), drops).
Definition list_Remove (tx : Tx) (l : txList) : txList * bool * Transactions :=
  let nonce := Nonce tx in
  let '(m, removed) := Remove nonce (txs l) in
  if negb removed then (mk_txList (strict l) m (costcap l) (gascap l), false, [])
  else if strict l then
    let '(m, invalids) := Filter (λ tx, nonce <? Nonce tx) m in
    (mk_txList (strict l) m (costcap l) (gascap l), true, invalids)
  else (mk_txList (strict l) m (costcap l) (gascap l), true, []).
Definition list_Ready (start : Z) (l : txList) : txList * Transactions :=
  let '(m, ready) := Ready start (txs l) in (mk_txList (strict l) m (costcap l) (gascap l), ready).
