(* ===== verification/TxListOk.v ===== *)
(** * The sorted map implements a sorted list (src/geth/core/tx_list.go)

    Map, heap and cache together represent one list of transactions with strictly
    increasing nonces.  Each operation is the obvious one on that list. *)
From stdpp Require Import gmap list sorting.
From S2P Require Import Prelude TxHeap TxList.

Implicit Types (tx : Tx) (S : list Tx) (m : txSortedMap).

Definition before (a b : Tx) : Prop := Nonce a < Nonce b.
Definition map_of S : gmap Z Tx := list_to_map (map (λ tx, (Nonce tx, tx)) S).

(** The state represents the sorted list [S]. *)
Record holds m S : Prop := {
  h_items : items m = map_of S;
  h_sorted : StronglySorted before S;
  h_range : Forall (λ tx, is_u64 (Nonce tx)) S;
  h_perm : index m ≡ₚ map Nonce S;
  h_heap : heap (index m);
  h_cache c : cache m = Some c → c = map Some S
}.

(** ** Sorted lists of transactions *)

Lemma sorted_cons tx S : StronglySorted before (tx :: S) ↔ Forall (before tx) S ∧ StronglySorted before S.
Proof. split; [by inversion 1|intros [? ?]; by constructor]. Qed.
Lemma sorted_app S1 S2 : StronglySorted before (S1 ++ S2) ↔
  StronglySorted before S1 ∧ StronglySorted before S2 ∧ ∀ a b, a ∈ S1 → b ∈ S2 → before a b.
Proof.
  induction S1 as [|x S1 IH].
  - split; [intros H; split_and!; [constructor|done|]; intros a b Ha; by apply not_elem_of_nil in Ha|by intros (_ & ? & _)].
  - cbn [app]. rewrite !sorted_cons, IH, Forall_app, (list.Forall_forall _ S2). split.
    + intros [[Hx1 Hx2] (H1 & H2 & H12)]. split_and!; [done..|]. intros a b [->|Ha]%elem_of_cons Hb; [by apply Hx2|by apply H12].
    + intros ((Hx & H1) & H2 & H12). split_and!; [done| |done|done|].
      * intros b Hb. apply H12; [apply elem_of_cons; by left|done].
      * intros a b Ha Hb. apply H12; [apply elem_of_cons; by right|done].
Qed.
Lemma sorted_sublist S1 S2 : sublist S1 S2 → StronglySorted before S2 → StronglySorted before S1.
Proof.
  induction 1 as [|x S1 S2 Hs IH|x S1 S2 Hs IH]; [done| |].
  - rewrite !sorted_cons. intros [Hx H2]. split; [|by apply IH]. rewrite list.Forall_forall in Hx |- *. intros a Ha. apply Hx. by eapply sublist_subseteq.
  - rewrite sorted_cons. intros [_ H2]. by apply IH.
Qed.
Lemma sublist_filter (P : Tx → Prop) `{∀ x, Decision (P x)} S : sublist (base.filter P S) S.
Proof. induction S as [|x S IH]; [done|]. rewrite filter_cons. destruct (decide (P x)); by constructor. Qed.

Lemma map_of_cons tx S : map_of (tx :: S) = <[Nonce tx := tx]> (map_of S).
Proof. done. Qed.
Lemma map_of_lookup S n tx : StronglySorted before S → map_of S !! n = Some tx ↔ tx ∈ S ∧ Nonce tx = n.
Proof.
  induction S as [|x S IH]; intros Hs.
  - unfold map_of. cbn. rewrite lookup_empty. split; [done|]. by intros [?%not_elem_of_nil _].
  - apply sorted_cons in Hs as [Hx Hs]. rewrite map_of_cons, lookup_insert_Some, (IH Hs), elem_of_cons. rewrite list.Forall_forall in Hx. split.
    + intros [[<- <-]|(Hne & Hin & <-)]; [split; [by left|done]|split; [by right|done]].
    + intros [[->|Hin] <-]; [by left|]. right. split_and!; [|done|done]. pose proof (Hx tx Hin) as Hb. unfold before in Hb. lia.
Qed.
(** Maps of sorted lists with the same elements are equal. *)
Lemma map_of_eq (M : gmap Z Tx) S : StronglySorted before S → (∀ n tx, M !! n = Some tx ↔ tx ∈ S ∧ Nonce tx = n) → M = map_of S.
Proof.
  intros Hs Hm. apply map_eq. intros n. apply option_eq. intros tx. by rewrite Hm, map_of_lookup.
Qed.
Lemma delete_head tx S : StronglySorted before (tx :: S) → delete (Nonce tx) (map_of (tx :: S)) = map_of S.
Proof.
  intros Hs. pose proof Hs as [Hx Hs']%sorted_cons. apply map_of_eq; [done|]. intros n y. rewrite lookup_delete_Some, map_of_lookup, elem_of_cons by done.
  rewrite list.Forall_forall in Hx. split; [|intros [Hin <-]].
  - intros (Hne & [->|Hin] & <-); [done|by split].
  - split_and!; [|by right|done]. pose proof (Hx y Hin) as Hb. unfold before in Hb. lia.
Qed.
Lemma map_of_values S : StronglySorted before S → map_to_list (map_of S) ≡ₚ map (λ tx, (Nonce tx, tx)) S.
Proof.
  intros Hs. unfold map_of. apply map_to_list_to_map. rewrite <-list_fmap_compose. change (NoDup (map Nonce S)).
  induction Hs as [|x S Hs IH Hx]; [constructor|]. cbn [map]. apply list.NoDup_cons. split; [|done].
  intros (y & Hy & Hin)%list_elem_of_fmap. rewrite list.Forall_forall in Hx. pose proof (Hx y Hin) as Hb. unfold before in Hb. lia.
Qed.
Lemma map_of_size S : StronglySorted before S → size (map_of S) = length S.
Proof. intros Hs. rewrite <-length_map_to_list, (map_of_values S Hs). by rewrite length_map. Qed.

(** Sorting finds the list again. *)
Lemma sorted_weaken S : StronglySorted before S → StronglySorted Z.le (map Nonce S) ∧ StronglySorted by_nonce S.
Proof.
  induction 1 as [|x S Hs [IH1 IH2] Hx]; [by split; constructor|]. split; (constructor; [done|]).
  - apply list.Forall_forall. intros n (y & -> & Hy)%list_elem_of_fmap. rewrite list.Forall_forall in Hx. specialize (Hx y Hy). unfold before in Hx. lia.
  - apply list.Forall_forall. intros y Hy. rewrite list.Forall_forall in Hx. specialize (Hx y Hy). unfold before, by_nonce in *. lia.
Qed.
Lemma sort_nonces S idx : StronglySorted before S → idx ≡ₚ map Nonce S → merge_sort Z.le idx = map Nonce S.
Proof.
  intros Hs Hp. apply (StronglySorted_unique Z.le).
  - apply StronglySorted_merge_sort; apply _.
  - by apply sorted_weaken.
  - by rewrite merge_sort_Permutation.
Qed.
#[export] Instance by_nonce_total : Total by_nonce.
Proof. intros a b. unfold by_nonce. lia. Qed.
#[export] Instance by_nonce_trans : Transitive by_nonce.
Proof. intros a b c. unfold by_nonce. lia. Qed.
Lemma sort_txs S : StronglySorted before S → merge_sort by_nonce (map snd (map_to_list (map_of S))) = S.
Proof.
  intros Hs. assert (merge_sort by_nonce (map snd (map_to_list (map_of S))) ≡ₚ S) as Hp.
  { rewrite merge_sort_Permutation, (map_of_values S Hs), map_map. cbn [snd]. by rewrite map_id. }
  apply (StronglySorted_unique_strong by_nonce); [|apply StronglySorted_merge_sort; apply _|by apply sorted_weaken|done].
  intros a b Ha Hb Hab Hba. rewrite Hp in Ha. unfold by_nonce in *. assert (Nonce a = Nonce b) as He by lia.
  assert (map_of S !! Nonce a = Some a) as H1 by (by apply map_of_lookup).
  assert (map_of S !! Nonce a = Some b) as H2 by (apply map_of_lookup; done). rewrite H1 in H2. by injection H2.
Qed.

(** ** The parts of a sorted list *)

Lemma filter_none (P : Tx → Prop) `{∀ x, Decision (P x)} S : (∀ x, x ∈ S → ¬ P x) → base.filter P S = [].
Proof.
  induction S as [|x S IH]; intros Hn; [done|]. rewrite filter_cons, decide_False by (apply Hn, elem_of_cons; by left).
  apply IH. intros y Hy. apply Hn, elem_of_cons. by right.
Qed.
Lemma filter_all (P : Tx → Prop) `{∀ x, Decision (P x)} S : (∀ x, x ∈ S → P x) → base.filter P S = S.
Proof.
  induction S as [|x S IH]; intros Ha; [done|]. rewrite filter_cons, decide_True by (apply Ha, elem_of_cons; by left).
  f_equal. apply IH. intros y Hy. apply Ha, elem_of_cons. by right.
Qed.
Lemma sorted_split S t : StronglySorted before S → base.filter (λ tx, Nonce tx < t) S ++ base.filter (λ tx, t ≤ Nonce tx) S = S.
Proof.
  induction 1 as [|x S Hs IH Hx]; [done|]. rewrite list.Forall_forall in Hx. rewrite !filter_cons.
  destruct (decide (Nonce x < t)), (decide (t ≤ Nonce x)); try lia; [cbn [app]; by rewrite IH|].
  rewrite filter_none, filter_all; [done|..]; intros y Hy; specialize (Hx y Hy); unfold before in Hx; lia.
Qed.
(** The three parts of a list around a nonce. *)
Lemma sorted_around S n : StronglySorted before S →
  S = base.filter (λ tx, Nonce tx < n) S ++ option_list (map_of S !! n) ++ base.filter (λ tx, n < Nonce tx) S.
Proof.
  induction 1 as [|x S Hs IH Hx]; [done|]. rewrite list.Forall_forall in Hx. rewrite map_of_cons, !filter_cons.
  destruct (Z.lt_trichotomy (Nonce x) n) as [Hlt|[Heq|Hgt]].
  - rewrite decide_True, decide_False, lookup_insert_ne by lia. cbn [app]. by rewrite <-IH.
  - rewrite !decide_False by lia. rewrite <-Heq, lookup_insert_eq. rewrite filter_none, filter_all; [done|..]; intros y Hy; specialize (Hx y Hy); unfold before in Hx; lia.
  - rewrite decide_False, decide_True, lookup_insert_ne by lia. rewrite filter_none, filter_all;
      [|intros y Hy; specialize (Hx y Hy); unfold before in Hx; lia..].
    assert (map_of S !! n = None) as ->; [|done]. apply eq_None_not_Some. intros [y [Hy Hn]%map_of_lookup]; [|done]. specialize (Hx y Hy). unfold before in Hx. lia.
Qed.

(** The operations on sorted lists. *)
Definition spec_put tx S : list Tx := base.filter (λ t, Nonce t < Nonce tx) S ++ [tx] ++ base.filter (λ t, Nonce tx < Nonce t) S.
Fixpoint run (next : Z) S : list Tx :=
  match S with tx :: rest => if Nonce tx =? next then tx :: run (next + 1) rest else [] | [] => [] end.
Definition ready_of (start : Z) S : list Tx :=
  match S with tx :: _ => if start <? Nonce tx then [] else run (Nonce tx) S | [] => [] end.

(** ** The heap and the head of the list *)

Lemma pop_head tx S idx : StronglySorted before (tx :: S) → idx ≡ₚ map Nonce (tx :: S) → heap idx →
  head idx = Some (Nonce tx) ∧ ∃ idx', heap_Pop idx = (Nonce tx, idx') ∧ idx' ≡ₚ map Nonce S ∧ heap idx'.
Proof.
  intros [Hx Hs]%sorted_cons Hp Hh. assert (idx ≠ []) as Hne by (intros ->; by apply Permutation_nil_l in Hp).
  destruct (heap_Pop idx) as [x idx'] eqn:Hpop. destruct (heap_Pop_spec idx x idx' Hh Hne Hpop) as (Hp' & Hh' & Hx0 & Hmin).
  assert (x = Nonce tx) as ->.
  { rewrite list.Forall_forall in Hmin. rewrite list.Forall_forall in Hx. apply Z.le_antisymm.
    - apply Hmin. rewrite Hp. cbn [map]. apply elem_of_cons. by left.
    - assert (x ∈ map Nonce (tx :: S)) as Hin by (rewrite <-Hp, Hp'; apply elem_of_cons; by left). apply elem_of_cons in Hin as [->|Hin]; [done|].
      apply list_elem_of_fmap in Hin as (y & -> & Hy). specialize (Hx y Hy). unfold before in Hx. lia. }
  split; [by destruct idx as [|y idx]; [|cbn in *; rewrite Hx0]|]. exists idx'. split_and!; [done| |done].
  rewrite Hp in Hp'. cbn [map] in Hp'. by apply Permutation_cons_inv in Hp'.
Qed.
Lemma head_cons (idx : list Z) x : head idx = Some x → ∃ l, idx = x :: l.
Proof. destruct idx; [done|]. intros [= ->]. by eexists. Qed.

Lemma forward_loop_spec S t : ∀ fuel idx, StronglySorted before S → idx ≡ₚ map Nonce S → heap idx → (length S ≤ fuel)%nat →
  ∃ idx', forward_loop fuel (map_of S) idx t = (map_of (base.filter (λ tx, t ≤ Nonce tx) S), idx', map Some (base.filter (λ tx, Nonce tx < t) S)) ∧
    idx' ≡ₚ map Nonce (base.filter (λ tx, t ≤ Nonce tx) S) ∧ heap idx'.
Proof.
  induction S as [|tx S IH]; intros fuel idx Hs Hp Hh Hf.
  { apply Permutation_nil_r in Hp as ->. exists []. by destruct fuel. }
  destruct fuel as [|fuel]; [cbn in Hf; lia|]. destruct (pop_head tx S idx Hs Hp Hh) as [[l Hl]%head_cons (idx' & Hpop & Hp' & Hh')].
  pose proof (delete_head tx S Hs) as Hdel. pose proof Hs as [Hx Hs']%sorted_cons. rewrite list.Forall_forall in Hx.
  assert (map_of (tx :: S) !! Nonce tx = Some tx) as Hlk by (apply map_of_lookup; [done|]; split; [apply elem_of_cons; by left|done]).
  rewrite !filter_cons. rewrite Hl in *. cbn [forward_loop]. destruct (Z.ltb_spec (Nonce tx) t) as [Hlt|Hge].
  - rewrite decide_False, decide_True by lia. rewrite Hpop, Hdel, Hlk.
    destruct (IH fuel idx' Hs' Hp' Hh' ltac:(cbn in Hf; lia)) as (idx2 & -> & Hp2 & Hh2). by exists idx2.
  - rewrite decide_True, decide_False by lia. rewrite (filter_none (λ tx, Nonce tx < t)), (filter_all (λ tx, t ≤ Nonce tx)); [by exists (Nonce tx :: l)|..];
      intros y Hy; specialize (Hx y Hy); unfold before in Hx; lia.
Qed.

Lemma ready_loop_spec S : ∀ fuel idx next, StronglySorted before S → Forall (λ tx, is_u64 (Nonce tx)) S → idx ≡ₚ map Nonce S → heap idx →
  (length S ≤ fuel)%nat → is_u64 next →
  ∃ idx', ready_loop fuel (map_of S) idx next = (map_of (drop (length (run next S)) S), idx', map Some (run next S)) ∧
    idx' ≡ₚ map Nonce (drop (length (run next S)) S) ∧ heap idx'.
Proof.
  induction S as [|tx S IH]; intros fuel idx next Hs Hr Hp Hh Hf Hn.
  { apply Permutation_nil_r in Hp as ->. exists []. by destruct fuel. }
  destruct fuel as [|fuel]; [cbn in Hf; lia|]. destruct (pop_head tx S idx Hs Hp Hh) as [[l Hl]%head_cons (idx' & Hpop & Hp' & Hh')].
  pose proof (delete_head tx S Hs) as Hdel. pose proof Hs as [Hx Hs']%sorted_cons. apply Forall_cons_1 in Hr as [_ Hr].
  assert (map_of (tx :: S) !! Nonce tx = Some tx) as Hlk by (apply map_of_lookup; [done|]; split; [apply elem_of_cons; by left|done]).
  rewrite Hl in *. cbn [ready_loop run]. destruct (Z.eqb_spec (Nonce tx) next) as [<-|Hne]; [|by exists (Nonce tx :: l)].
  rewrite Hpop, Hdel, Hlk. cbn [snd].
  assert (run (Nonce tx + 1) S = run (u64 (Nonce tx + 1)) S) as ->.
  { destruct (decide (Nonce tx + 1 < 2 ^ 64)); [by rewrite u64_small by (unfold is_u64 in *; lia)|]. destruct S as [|y S]; [done|]. exfalso.
    apply Forall_cons_1 in Hx as [Hxy _]. apply Forall_cons_1 in Hr as [Hy _]. unfold before, is_u64 in *. lia. }
  destruct (IH fuel idx' (u64 (Nonce tx + 1)) Hs' Hr Hp' Hh' ltac:(cbn in Hf; lia) (u64_range _)) as (idx2 & -> & Hp2 & Hh2). by exists idx2.
Qed.

(** ** The operations *)

Lemma holds_new : holds newTxSortedMap [].
Proof. split; [done|constructor|constructor|done|intros i c Hc Hi Hn; cbn in Hn; lia|done]. Qed.

Lemma holds_items_elem m S tx : holds m S → tx ∈ S ↔ items m !! Nonce tx = Some tx.
Proof. intros Hh. rewrite (h_items m S Hh), map_of_lookup by apply Hh. naive_solver. Qed.
Lemma range_sublist S1 S2 : sublist S1 S2 → Forall (λ tx, is_u64 (Nonce tx)) S2 → Forall (λ tx, is_u64 (Nonce tx)) S1.
Proof. intros Hsub. rewrite !list.Forall_forall. intros Ha x Hx. apply Ha. by eapply sublist_subseteq. Qed.

Lemma holds_Put m S tx : holds m S → is_u64 (Nonce tx) → holds (Put tx m) (spec_put tx S).
Proof.
  intros [Hi Hs Hr Hp Hh Hc] Hu. pose proof (sorted_around S (Nonce tx) Hs) as Har. rewrite Har in Hp. unfold spec_put.
  set (lo := base.filter (λ t, Nonce t < Nonce tx) S) in *. set (hi := base.filter (λ t, Nonce tx < Nonce t) S) in *.
  assert (∀ x, x ∈ lo → Nonce x < Nonce tx) as Hlo by (by intros x [? _]%list_elem_of_filter).
  assert (∀ x, x ∈ hi → Nonce tx < Nonce x) as Hhi by (by intros x [? _]%list_elem_of_filter).
  assert (StronglySorted before (lo ++ [tx] ++ hi)) as Hsn.
  { apply sorted_app. split_and!; [by eapply sorted_sublist; [apply sublist_filter|]| |].
    - apply (sorted_cons tx hi). split; [by apply list.Forall_forall|by eapply sorted_sublist; [apply sublist_filter|]].
    - intros a b Ha [->|Hb]%elem_of_cons; [by apply Hlo|]. unfold before. specialize (Hlo a Ha). specialize (Hhi b Hb). lia. }
  unfold Put. split; cbn [items index cache]; try done.
  - apply map_of_eq; [done|]. intros n y. rewrite lookup_insert_Some, Hi, map_of_lookup by done. cbn [app]. rewrite elem_of_app, elem_of_cons.
    unfold lo, hi. rewrite !list_elem_of_filter. split.
    + intros [[<- <-]|(Hne & Hy & <-)]; [by split; [right; left|]|]. split; [|done]. destruct (Z.lt_trichotomy (Nonce y) (Nonce tx)) as [?|[?|?]]; [by left|done|by right; right].
    + intros [[[? Hy]|[->|[? Hy]]] <-]; [right; split_and!; [lia|done|done]|by left|right; split_and!; [lia|done|done]].
  - rewrite !Forall_app. split_and!; [by eapply range_sublist; [apply sublist_filter|]|by apply Forall_singleton|by eapply range_sublist; [apply sublist_filter|]].
  - rewrite Hi. rewrite !map_app in *. destruct (map_of S !! Nonce tx) as [old|] eqn:Ho; cbn [option_list map app] in *.
    + rewrite bool_decide_eq_false_2 by done. apply map_of_lookup in Ho as [_ Hon]; [|done]. by rewrite <-Hon.
    + rewrite bool_decide_eq_true_2 by done. rewrite (proj1 (heap_Push_spec _ _ Hh)), Hp. apply Permutation_middle.
  - case_bool_decide; [by apply heap_Push_spec|done].
Qed.

Lemma holds_Forward m S t : holds m S →
  ∃ m', Forward t m = Ok (m', map Some (base.filter (λ tx, Nonce tx < t) S)) ∧ holds m' (base.filter (λ tx, t ≤ Nonce tx) S).
Proof.
  intros [Hi Hs Hr Hp Hh Hc]. unfold Forward. rewrite Hi.
  destruct (forward_loop_spec S t (length (index m)) (index m) Hs Hp Hh) as (idx' & -> & Hp' & Hh').
  { rewrite (Permutation_length Hp), length_map. done. }
  assert (∀ c, (∀ x, c = Some x → x = map Some (base.filter (λ tx, t ≤ Nonce tx) S)) →
    holds (mk_txSortedMap (map_of (base.filter (λ tx, t ≤ Nonce tx) S)) idx' c) (base.filter (λ tx, t ≤ Nonce tx) S)) as Hnew.
  { intros c Hcc. split; cbn [items index cache]; try done; [by eapply sorted_sublist; [apply sublist_filter|]|by eapply range_sublist; [apply sublist_filter|]]. }
  destruct (cache m) as [c|] eqn:Hcache; [|by eexists; split; [done|apply Hnew]].
  rewrite (Hc c eq_refl). rewrite <-(f_equal (map Some) (sorted_split S t Hs)), map_app.
  unfold mbind, res_bind. rewrite go_slice_tail by (by rewrite len_app). eexists. split; [done|]. apply Hnew. by intros x [= <-].
Qed.

Lemma filter_items f S : StronglySorted before S →
  base.filter (λ p : Z * Tx, f (snd p) = false) (map_of S) = map_of (base.filter (λ tx, f tx = false) S) ∧
  base.filter (λ p : Z * Tx, f (snd p) = true) (map_of S) = map_of (base.filter (λ tx, f tx = true) S).
Proof.
  intros Hs. split; apply map_of_eq; try (by eapply sorted_sublist; [apply sublist_filter|]);
    intros n tx; rewrite map_lookup_filter_Some, map_of_lookup, list_elem_of_filter by done; cbn [snd]; tauto.
Qed.
Lemma holds_reheap its idx S : its = map_of S → StronglySorted before S → Forall (λ tx, is_u64 (Nonce tx)) S → ∀ c, holds (reheap (mk_txSortedMap its idx c)) S.
Proof.
  intros -> Hs Hr c. unfold reheap. cbn [items]. destruct (heap_Init_spec (map fst (map_to_list (map_of S)))) as [Hp Hh].
  split; cbn [items index cache]; try done. rewrite Hp, (map_of_values S Hs), map_map. done.
Qed.
Lemma filter_spec f m S : holds m S → ∃ c removed,
  filter_ f m = (mk_txSortedMap (map_of (base.filter (λ tx, f tx = false) S)) (index m) c, removed) ∧
  removed ≡ₚ map Some (base.filter (λ tx, f tx = true) S) ∧ (removed = [] → c = cache m).
Proof.
  intros [Hi Hs Hr Hp Hh Hc]. unfold filter_. rewrite Hi. destruct (filter_items f S Hs) as [-> ->]. do 2 eexists. split; [done|]. split.
  - rewrite <-(map_map snd Some). apply fmap_Permutation. rewrite map_of_values by (by eapply sorted_sublist; [apply sublist_filter|]).
    rewrite map_map. cbn [snd]. by rewrite map_id.
  - by intros ->.
Qed.
Lemma filter_partition (f : Tx → bool) S : base.filter (λ tx, f tx = true) S = [] → base.filter (λ tx, f tx = false) S = S.
Proof.
  intros Hn. apply filter_all. intros x Hx. apply not_true_iff_false. intros Ht.
  assert (x ∈ base.filter (λ tx, f tx = true) S) as Hin by (by apply list_elem_of_filter). rewrite Hn in Hin. by apply not_elem_of_nil in Hin.
Qed.
Lemma holds_Filter f m S : holds m S →
  ∃ m' removed, Filter f m = (m', removed) ∧ removed ≡ₚ map Some (base.filter (λ tx, f tx = true) S) ∧ holds m' (base.filter (λ tx, f tx = false) S).
Proof.
  intros Hh. destruct (filter_spec f m S Hh) as (c & removed & Hf & Hp & Hc). unfold Filter. rewrite Hf. do 2 eexists. split; [done|]. split; [done|].
  destruct removed as [|r removed].
  - cbn. rewrite (Hc eq_refl). assert (base.filter (λ tx, f tx = true) S = []) as Hn.
    { apply Permutation_length in Hp. rewrite length_map in Hp. by apply nil_length_inv. }
    rewrite (filter_partition f S Hn). destruct Hh as [Hi Hs Hr Hpi Hh Hcc]. by split.
  - rewrite len_cons. pose proof (len_nonneg removed). rewrite (proj2 (Z.ltb_lt _ _)) by lia. apply holds_reheap; [done|..].
    + eapply sorted_sublist; [apply sublist_filter|apply Hh].
    + eapply range_sublist; [apply sublist_filter|apply Hh].
Qed.

Lemma delete_last tx S : StronglySorted before (S ++ [tx]) → delete (Nonce tx) (map_of (S ++ [tx])) = map_of S ∧ map_of (S ++ [tx]) !! Nonce tx = Some tx.
Proof.
  intros Hs. split; [|apply map_of_lookup; [done|]; split; [apply elem_of_app; right; by apply list_elem_of_singleton|done]].
  pose proof Hs as (Hs1 & _ & Hlt)%sorted_app. apply map_of_eq; [done|]. intros n y.
  rewrite lookup_delete_Some, map_of_lookup, elem_of_app, list_elem_of_singleton by done. split.
  - intros (Hne & [Hy| ->] & <-); [by split|done].
  - intros [Hy <-]. split_and!; [|by left|done]. specialize (Hlt y tx Hy ltac:(by apply list_elem_of_singleton)). unfold before in Hlt. lia.
Qed.
Lemma cap_loop_spec (P Q : list Tx) rest : StronglySorted before (P ++ Q) →
  cap_loop (length Q) (map_of (P ++ Q)) (map Nonce (P ++ Q) ++ rest) (len (P ++ Q)) = Ok (map_of P, map Some (rev Q)).
Proof.
  revert rest. induction Q as [|tx Q IH] using rev_ind; intros rest Hs; [by rewrite app_nil_r|].
  rewrite length_app, Nat.add_comm. cbn [length Nat.add cap_loop]. rewrite app_assoc in *. set (S := P ++ Q) in *.
  rewrite map_app, <-app_assoc. cbn [map app].
  assert (len (S ++ [tx]) - 1 = len S) as Hlen by (rewrite len_app, len_cons, len_nil; lia). rewrite Hlen.
  rewrite (go_index_ok _ (len S) (Nonce tx)).
  - unfold mbind, res_bind. destruct (delete_last tx S Hs) as [-> ->]. apply sorted_app in Hs as (Hs & _).
    rewrite (IH (Nonce tx :: rest) Hs). rewrite rev_unit. done.
  - apply len_nonneg.
  - unfold len. rewrite Nat2Z.id, lookup_app_r by (by rewrite length_map). by rewrite length_map, Nat.sub_diag.
Qed.
Lemma holds_Cap k m S : holds m S → 0 ≤ k → ∃ m', Cap k m = Ok (m', map Some (rev (drop (Z.to_nat k) S))) ∧ holds m' (take (Z.to_nat k) S).
Proof.
  intros Hh Hk. pose proof Hh as [Hi Hs Hr Hp Hhp Hc]. unfold Cap. rewrite Hi, map_of_size by done. fold (len S).
  destruct (Z.leb_spec (len S) k) as [Hle|Hgt].
  { exists m. rewrite drop_ge, take_ge by (unfold len in Hle; lia). done. }
  rewrite (sort_nonces S _ Hs Hp).
  assert (∃ P Q, S = P ++ Q ∧ take (Z.to_nat k) S = P ∧ drop (Z.to_nat k) S = Q ∧ len P = k) as (P & Q & HPQ & -> & -> & HlP).
  { do 2 eexists. split; [symmetry; apply (take_drop (Z.to_nat k))|]. split_and!; [done..|]. unfold len in *. rewrite length_take. lia. }
  subst S. assert (Z.to_nat (len (P ++ Q) - k) = length Q) as -> by (rewrite len_app, HlP; unfold len; lia).
  pose proof (cap_loop_spec P Q [] Hs) as Hcap. rewrite app_nil_r in Hcap. rewrite Hcap. clear Hcap.
  unfold mbind at 1, res_bind at 1. rewrite map_app.
  assert (len (map Nonce P) = k) as HlN by (rewrite <-HlP; unfold len; by rewrite length_map).
  pose proof (go_slice_app (E:=list_err) [] (map Nonce P) (map Nonce Q) 0 k eq_refl ltac:(rewrite len_nil; lia)) as Hsl. cbn [app] in Hsl. rewrite Hsl.
  unfold mbind at 1, res_bind at 1. destruct (heap_Init_spec (map Nonce P)) as [HpI HhI]. pose proof Hs as (HsP & _ & _)%sorted_app.
  assert (∀ c, (∀ x, c = Some x → x = map Some P) → holds (mk_txSortedMap (map_of P) (heap_Init (map Nonce P)) c) P) as Hnew.
  { intros c Hcc. split; cbn [items index cache]; try done. by apply Forall_app in Hr as [? _]. }
  destruct (cache m) as [c|]; [|by eexists; split; [done|apply Hnew]]. rewrite (Hc c eq_refl), map_app.
  assert (len (map Some P) = k) as HlS by (rewrite <-HlP; unfold len; by rewrite length_map).
  pose proof (go_slice_app (E:=list_err) [] (map Some P) (map Some Q) 0 (len (map Some P ++ map Some Q) - len (map Some (rev Q))) eq_refl) as Hsl2.
  cbn [app] in Hsl2. rewrite Hsl2; [by eexists; split; [done|apply Hnew; intros x [= <-]]|].
  rewrite len_app, len_nil. unfold len. rewrite !length_map, length_rev. lia.
Qed.

Lemma find_index_spec idx n i : n ∈ idx → ∃ j, find_index idx n i = Some (i + j)%nat ∧ idx !! j = Some n.
Proof.
  revert i. induction idx as [|x idx IH]; intros i Hin; [by apply not_elem_of_nil in Hin|]. cbn [find_index].
  destruct (Z.eqb_spec x n) as [->|Hne]; [exists 0%nat; by rewrite Nat.add_0_r|]. apply elem_of_cons in Hin as [?|Hin]; [done|].
  destruct (IH (S i) Hin) as (j & -> & Hj). exists (S j). split; [f_equal; lia|done].
Qed.
Lemma elem_nonce n S : StronglySorted before S → n ∈ map Nonce S ↔ ∃ tx, map_of S !! n = Some tx.
Proof.
  intros Hs. rewrite list_elem_of_fmap. split.
  - intros (tx & -> & Hin). exists tx. by apply map_of_lookup.
  - intros (tx & [Hin <-]%map_of_lookup); [|done]. by exists tx.
Qed.
Lemma holds_Remove n m S : holds m S → ∃ m', Remove n m = (m', bool_decide (n ∈ map Nonce S)) ∧ holds m' (base.filter (λ tx, Nonce tx ≠ n) S).
Proof.
  intros Hh. pose proof Hh as [Hi Hs Hr Hp Hhp Hc]. unfold Remove. rewrite Hi. destruct (map_of S !! n) as [old|] eqn:Ho.
  - rewrite bool_decide_eq_true_2 by (apply elem_nonce; [done|by exists old]). eexists. split; [done|].
    assert (n ∈ index m) as Hin by (rewrite Hp; apply elem_nonce; [done|by exists old]).
    destruct (find_index_spec (index m) n 0 Hin) as (j & -> & Hj). cbn [Nat.add]. pose proof (lookup_lt_Some _ _ _ Hj) as Hlt.
    destruct (heap_Remove (index m) j) as [x l'] eqn:Hrm. destruct (heap_Remove_spec _ _ _ _ Hhp Hlt Hrm) as (Hp' & Hh' & Hx).
    rewrite (list_lookup_total_correct _ _ _ Hj) in Hx. subst x. cbn [snd].
    assert (StronglySorted before (base.filter (λ tx, Nonce tx ≠ n) S)) as Hs' by (by eapply sorted_sublist; [apply sublist_filter|]).
    split; cbn [items index cache]; try done; [|by eapply range_sublist; [apply sublist_filter|]|].
    + apply map_of_eq; [done|]. intros k y. rewrite lookup_delete_Some, map_of_lookup, list_elem_of_filter by done. naive_solver.
    + rewrite Hp in Hp'. pose proof (sorted_around S n Hs) as Har. rewrite Ho in Har. apply map_of_lookup in Ho as [_ Hon]; [|done].
      assert (base.filter (λ tx, Nonce tx ≠ n) S = base.filter (λ tx, Nonce tx < n) S ++ base.filter (λ tx, n < Nonce tx) S) as ->.
      { rewrite Har at 1. rewrite !list.filter_app. change (option_list (Some old)) with [old]. rewrite filter_cons, decide_False by (intros Hne; by apply Hne). cbn [app].
        rewrite (filter_all (λ tx, Nonce tx ≠ n) (base.filter (λ tx, Nonce tx < n) S)), (filter_all (λ tx, Nonce tx ≠ n) (base.filter (λ tx, n < Nonce tx) S)); [done|..];
          intros y [Hy _]%list_elem_of_filter; lia. }
      rewrite Har in Hp'. rewrite !map_app in *. change (map Nonce (option_list (Some old))) with [Nonce old] in Hp'. cbn [app] in Hp'. rewrite Hon, <-Permutation_middle in Hp'.
      by apply Permutation_cons_inv in Hp'.
  - exists m. rewrite bool_decide_eq_false_2 by (rewrite elem_nonce by done; rewrite Ho; by intros [? [=]]). split; [done|].
    rewrite filter_all; [done|]. intros y Hy Hn. subst n. assert (map_of S !! Nonce y = Some y) as Hly by (by apply map_of_lookup). by rewrite Ho in Hly.
Qed.

Lemma holds_Ready start m S : holds m S →
  ∃ m', Ready start m = (m', map Some (ready_of start S)) ∧ holds m' (drop (length (ready_of start S)) S).
Proof.
  intros Hh. pose proof Hh as [Hi Hs Hr Hp Hhp Hc]. unfold Ready, ready_of. destruct S as [|tx S].
  { apply Permutation_nil_r in Hp as Hx. rewrite Hx. by exists m. }
  destruct (pop_head tx S (index m) Hs Hp Hhp) as [[l Hl]%head_cons _]. rewrite Hl. destruct (start <? Nonce tx); [by exists m|]. rewrite <-Hl, Hi.
  destruct (ready_loop_spec (tx :: S) (length (index m)) (index m) (Nonce tx) Hs Hr Hp Hhp) as (idx' & -> & Hp' & Hh').
  { rewrite (Permutation_length Hp), length_map. done. }
  { by apply Forall_cons_1 in Hr as [? _]. }
  eexists. split; [done|]. split; cbn [items index cache]; try done.
  - eapply sorted_sublist; [apply sublist_drop|done].
  - eapply range_sublist; [apply sublist_drop|done].
Qed.
Lemma holds_flatten m S : holds m S → ∃ m', flatten m = (m', map Some S) ∧ holds m' S.
Proof.
  intros [Hi Hs Hr Hp Hh Hc]. unfold flatten. destruct (cache m) as [c|] eqn:Hcm.
  - rewrite (Hc c eq_refl). exists m. split; [done|]. split; try done. intros c' Hc'. rewrite Hcm in Hc'. by rewrite <-(Hc c eq_refl); injection Hc' as ->.
  - rewrite Hi, (sort_txs S Hs). eexists. split; [done|]. split; cbn [items index cache]; try done. by intros c [= <-].
Qed.

(** ** Refinement *)

Inductive op := OPut (tx : Tx) | OForward (t : Z) | OFilter (f : Tx → bool) | OCap (k : Z) | ORemove (n : Z) | OReady (start : Z) | OFlatten.

(** An operation on the map, with what it returns. *)
Definition exec (o : op) m : R (txSortedMap * Transactions * bool) :=
  match o with
  | OPut tx => Ok (Put tx m, [], true)
  | OForward t => '(m, l) ← Forward t m; Ok (m, l, true)
  | OFilter f => let '(m, l) := Filter f m in Ok (m, l, true)
  | OCap k => '(m, l) ← Cap k m; Ok (m, l, true)
  | ORemove n => let '(m, b) := Remove n m in Ok (m, [], b)
  | OReady s => let '(m, l) := Ready s m in Ok (m, l, true)
  | OFlatten => let '(m, l) := Flatten m in Ok (m, l, true)
  end.
(** The same operation on a sorted list. *)
Definition spec (o : op) S : list Tx * list Tx * bool :=
  match o with
  | OPut tx => (spec_put tx S, [], true)
  | OForward t => (base.filter (λ tx, t ≤ Nonce tx) S, base.filter (λ tx, Nonce tx < t) S, true)
  | OFilter f => (base.filter (λ tx, f tx = false) S, base.filter (λ tx, f tx = true) S, true)
  | OCap k => (take (Z.to_nat k) S, rev (drop (Z.to_nat k) S), true)
  | ORemove n => (base.filter (λ tx, Nonce tx ≠ n) S, [], bool_decide (n ∈ map Nonce S))
  | OReady s => (drop (length (ready_of s S)) S, ready_of s S, true)
  | OFlatten => (S, S, true)
  end.
Definition valid (o : op) : Prop := match o with OPut tx => is_u64 (Nonce tx) | OCap k => 0 ≤ k | _ => True end.
(** The order of what a filter removes is not fixed. *)
Definition same_out (o : op) (out : Transactions * bool) (ref : list Tx * bool) : Prop :=
  (match o with OFilter _ => fst out ≡ₚ map Some (fst ref) | _ => fst out = map Some (fst ref) end) ∧ snd out = snd ref.

Lemma exec_spec o m S : holds m S → valid o →
  ∃ m' l b, exec o m = Ok (m', l, b) ∧ holds m' (fst (fst (spec o S))) ∧ same_out o (l, b) (snd (fst (spec o S)), snd (spec o S)).
Proof.
  intros Hh Hv. destruct o as [tx|t|f|k|n|s|]; cbn [exec spec fst snd valid] in *; unfold mbind, res_bind, same_out.
  - do 3 eexists. split_and!; [done|by apply holds_Put|done|done].
  - destruct (holds_Forward m S t Hh) as (m' & -> & Hh'). do 3 eexists. by split_and!.
  - destruct (holds_Filter f m S Hh) as (m' & l & -> & Hp & Hh'). do 3 eexists. by split_and!.
  - destruct (holds_Cap k m S Hh Hv) as (m' & -> & Hh'). do 3 eexists. by split_and!.
  - destruct (holds_Remove n m S Hh) as (m' & -> & Hh'). do 3 eexists. by split_and!.
  - destruct (holds_Ready s m S Hh) as (m' & -> & Hh'). do 3 eexists. by split_and!.
  - destruct (holds_flatten m S Hh) as (m' & Hf & Hh'). unfold Flatten. rewrite Hf. do 3 eexists. by split_and!.
Qed.

Fixpoint exec_all (os : list op) m : R (txSortedMap * list (Transactions * bool)) :=
  match os with
  | [] => Ok (m, [])
  | o :: os => '(m, l, b) ← exec o m; '(m, outs) ← exec_all os m; Ok (m, (l, b) :: outs)
  end.
Fixpoint spec_all (os : list op) S : list Tx * list (list Tx * bool) :=
  match os with
  | [] => (S, [])
  | o :: os => let '(S1, l, b) := spec o S in let '(S2, outs) := spec_all os S1 in (S2, (l, b) :: outs)
  end.

Lemma exec_all_spec os : ∀ m S, holds m S → Forall valid os →
  ∃ m' outs, exec_all os m = Ok (m', outs) ∧ holds m' (fst (spec_all os S)) ∧
    Forall2 (λ o p, same_out o (fst p) (snd p)) os (zip outs (snd (spec_all os S))) ∧ length outs = length (snd (spec_all os S)).
Proof.
  induction os as [|o os IH]; intros m S Hh Hv; [by exists m, []|]. apply Forall_cons_1 in Hv as [Ho Hv].
  destruct (exec_spec o m S Hh Ho) as (m1 & l & b & H1 & Hh1 & Hs). cbn [exec_all spec_all]. destruct (spec o S) as [[S1 l0] b0]. cbn [fst snd] in *.
  destruct (IH m1 S1 Hh1 Hv) as (m2 & outs & H2 & Hh2 & Hs2 & Hl). unfold mbind, res_bind. rewrite H1, H2. destruct (spec_all os S1) as [S2 outs0]. cbn [fst snd] in *.
  exists m2, ((l, b) :: outs). split_and!; [done|done|by constructor|cbn; by rewrite Hl].
Qed.

(** C17: the map with its heap and its cache implements a list of transactions sorted by
    nonce: every sequence of insertions, removals, filters, caps, promotions and
    flattenings from the empty map succeeds, without panic, and returns what the same
    operations return on the sorted list (for filters up to the order). *)
Theorem txSortedMap_refines os : Forall valid os →
  ∃ m outs, exec_all os newTxSortedMap = Ok (m, outs) ∧ holds m (fst (spec_all os [])) ∧
    Forall2 (λ o p, same_out o (fst p) (snd p)) os (zip outs (snd (spec_all os []))) ∧ length outs = length (snd (spec_all os [])).
Proof. intros Hv. apply exec_all_spec; [apply holds_new|done]. Qed.

Definition toy_tx (n : Z) : Tx := mk_Tx n 21000 1 1 1 0 n.
Definition toy_ops : list op := [OPut (toy_tx 5); OPut (toy_tx 3); OPut (toy_tx 4); OPut (toy_tx 9); OFlatten; OForward 4; OReady 4; ORemove 9].
Lemma txSortedMap_refines_witness :
  ∃ m outs, exec_all toy_ops newTxSortedMap = Ok (m, outs) ∧ holds m [] ∧
    Forall2 (λ o p, same_out o (fst p) (snd p)) toy_ops (zip outs (snd (spec_all toy_ops []))) ∧ length outs = 8%nat.
Proof. apply (txSortedMap_refines toy_ops). repeat (apply Forall_cons_2; [cbn; unfold is_u64; first [lia|exact I]|]). apply Forall_nil_2. Defined.
