(* ===== verification/TxListCaps.v ===== *)
(** * Transactions that an account can pay for (src/geth/core/tx_list.go)

    [txList] remembers upper bounds of the cost and the gas of its transactions, so that a
    filter that cannot remove anything returns at once.  The bounds are kept by every
    operation; a filter removes exactly what is too expensive, and in a strict list also
    everything after the first gap. *)
From stdpp Require Import gmap list sorting.
From S2P Require Import Prelude TxHeap TxList TxListOk.

Implicit Types (tx : Tx) (S : list Tx) (l : txList).

(** The list represents [S], within its caps. *)
Record capped l S : Prop := {
  cp_holds : holds (txs l) S;
  cp_caps : Forall (λ tx, tx_Cost tx ≤ costcap l ∧ tx_Gas tx ≤ gascap l) S
}.
(** Too expensive for the account or for a block. *)
Definition too_much (costLimit gasLimit : Z) tx : bool := (gasLimit <? tx_Gas tx) || (costLimit <? tx_Cost tx).
(** The transactions before the first one that is removed. *)
Fixpoint upto (f : Tx → bool) S : list Tx :=
  match S with [] => [] | tx :: rest => if f tx then [] else tx :: upto f rest end.

Lemma capped_sublist l S S' m : capped l S → sublist S' S → holds m S' → capped (mk_txList (strict l) m (costcap l) (gascap l)) S'.
Proof.
  intros [_ Hc] Hsub Hh. split; [done|]. rewrite list.Forall_forall in Hc |- *. intros tx Hin. apply Hc. by eapply sublist_subseteq.
Qed.

(** Adding respects the caps; a replacement must bid more. *)
Lemma capped_Add tx bump l S : capped l S → is_u64 (Nonce tx) →
  let '(l', ok, old) := Add tx bump l in
  if ok then capped l' (spec_put tx S) ∧ old = map_of S !! Nonce tx else l' = l ∧ ∃ o, o ∈ S ∧ Nonce o = Nonce tx.
Proof.
  intros [Hh Hc] Hu. unfold Add, Get. rewrite (h_items _ _ Hh). set (refused := match _ with Some _ => _ | None => _ end).
  assert (refused = true → ∃ o, o ∈ S ∧ Nonce o = Nonce tx) as Hr.
  { unfold refused. destruct (map_of S !! Nonce tx) as [o|] eqn:Ho; [|done]. intros _. exists o. apply map_of_lookup in Ho; [done|apply Hh]. }
  destruct refused; [split; [done|by apply Hr]|]. split; [|done]. split; cbn [txs costcap gascap]; [by apply holds_Put|].
  rewrite list.Forall_forall in Hc. apply list.Forall_forall. unfold spec_put. intros y. rewrite elem_of_app, elem_of_app, list_elem_of_singleton, !list_elem_of_filter.
  assert (y ∈ S → tx_Cost y ≤ (if costcap l <? tx_Cost tx then tx_Cost tx else costcap l) ∧ tx_Gas y ≤ (if gascap l <? tx_Gas tx then tx_Gas tx else gascap l)) as Hin.
  { intros Hy. destruct (Hc y Hy). destruct (Z.ltb_spec (costcap l) (tx_Cost tx)), (Z.ltb_spec (gascap l) (tx_Gas tx)); lia. }
  intros [[_ Hy]|[->|[_ Hy]]]; [by apply Hin| |by apply Hin].
  destruct (Z.ltb_spec (costcap l) (tx_Cost tx)), (Z.ltb_spec (gascap l) (tx_Gas tx)); lia.
Qed.

(** The lowest nonce of what was removed. *)
Lemma lowest_spec (L : list Tx) : ∀ i, ∃ v, lowest_nonce (map Some L) i = Ok v ∧ v ≤ i ∧ (∀ tx, tx ∈ L → v ≤ Nonce tx) ∧ (v = i ∨ ∃ tx, tx ∈ L ∧ v = Nonce tx).
Proof.
  induction L as [|x L IH]; intros i; cbn [map lowest_nonce].
  - exists i. split_and!; [done|done| |by left]. intros tx Hin. by apply not_elem_of_nil in Hin.
  - destruct (IH (if Nonce x <? i then Nonce x else i)) as (v & -> & Hle & Hall & Hor). exists v.
    assert (v ≤ i ∧ v ≤ Nonce x) by (destruct (Z.ltb_spec (Nonce x) i); lia). split_and!; [done|lia| |].
    + intros tx [->|Hin]%elem_of_cons; [lia|by apply Hall].
    + destruct Hor as [Hv|(tx & Hin & ->)]; [|right; exists tx; split; [apply elem_of_cons; by right|done]].
      destruct (Z.ltb_spec (Nonce x) i); [|by left]. right. exists x. split; [apply elem_of_cons; by left|done].
Qed.

(** What is left of a strict list is what comes before the first removed transaction. *)
Lemma upto_filter f S v : StronglySorted before S → (∀ tx, tx ∈ S → f tx = true → v ≤ Nonce tx) → (∃ tx, tx ∈ S ∧ f tx = true ∧ v = Nonce tx) →
  base.filter (λ tx, (v <? Nonce tx) = false) (base.filter (λ tx, f tx = false) S) = upto f S.
Proof.
  intros Hs. induction Hs as [|x S Hs IH Hx]; intros Hle (tx & Hin & Hf & ->); [done|]. rewrite list.Forall_forall in Hx. rewrite filter_cons. cbn [upto].
  destruct (f x) eqn:Hfx.
  - rewrite decide_False by done. assert (tx = x) as ->.
    { apply elem_of_cons in Hin as [->|Hin]; [done|]. specialize (Hx tx Hin). specialize (Hle x ltac:(apply elem_of_cons; by left) Hfx). unfold before in Hx. lia. }
    apply filter_none. intros y [_ Hy]%list_elem_of_filter. specialize (Hx y Hy). unfold before in Hx. rewrite (proj2 (Z.ltb_lt _ _)) by lia. done.
  - rewrite decide_True by done. apply elem_of_cons in Hin as [->|Hin]; [by rewrite Hf in Hfx|]. specialize (Hx tx Hin) as Hxt. unfold before in Hxt.
    rewrite filter_cons, decide_True by (apply Z.ltb_ge; lia). f_equal. apply IH; [|by exists tx]. intros y Hy. apply Hle, elem_of_cons. by right.
Qed.

Lemma upto_elem f S tx : tx ∈ upto f S → tx ∈ S ∧ f tx = false.
Proof.
  induction S as [|x S IH]; cbn [upto]; [by intros ?%not_elem_of_nil|]. destruct (f x) eqn:Hf; [by intros ?%not_elem_of_nil|].
  intros [->|Hin]%elem_of_cons; [split; [apply elem_of_cons; by left|done]|]. destruct (IH Hin). split; [apply elem_of_cons; by right|done].
Qed.
Lemma upto_all f S : base.filter (λ tx, f tx = true) S = [] → upto f S = S.
Proof.
  induction S as [|x S IH]; [done|]. rewrite filter_cons. cbn [upto]. destruct (f x); [by rewrite decide_True|].
  rewrite decide_False by done. intros Hn. by rewrite IH.
Qed.
Lemma filter_split (f : Tx → bool) S : base.filter (λ tx, f tx = true) S ++ base.filter (λ tx, f tx = false) S ≡ₚ S.
Proof.
  induction S as [|x S IH]; [done|]. rewrite !filter_cons. destruct (f x).
  - rewrite decide_True, decide_False by done. cbn [app]. by rewrite IH.
  - rewrite decide_False, decide_True by done. by rewrite <-Permutation_middle, IH.
Qed.
(** Nothing to remove. *)
Lemma kept_all b f S : base.filter (λ tx, f tx = true) S = [] → (if b : bool then upto f S else base.filter (λ tx, f tx = false) S) = S.
Proof. intros Hn. destruct b; [by apply upto_all|by apply filter_partition]. Qed.

(** The second part of a strict filter. *)
Lemma strict_rest f m S removed : holds m (base.filter (λ tx, f tx = false) S) → StronglySorted before S → Forall (λ tx, is_u64 (Nonce tx)) S →
  removed ≡ₚ map Some (base.filter (λ tx, f tx = true) S) → removed ≠ [] →
  ∃ v invalids m', lowest_nonce removed (2 ^ 64 - 1) = Ok v ∧ filter_ (λ tx, v <? Nonce tx) m = (m', invalids) ∧
    holds (reheap m') (upto f S) ∧ invalids ++ map Some (upto f S) ≡ₚ map Some (base.filter (λ tx, f tx = false) S).
Proof.
  intros Hh Hs Hr Hp Hne. destruct (Permutation_map_inv Some _ Hp) as (L & -> & HL). destruct (lowest_spec L (2 ^ 64 - 1)) as (v & Hv & Hvm & Hall & Hor).
  assert (∃ tx, tx ∈ S ∧ f tx = true ∧ v = Nonce tx) as Hex.
  { destruct Hor as [Hvi|(tx & Hin & ->)].
    - destruct L as [|x L]; [done|]. assert (x ∈ base.filter (λ tx, f tx = true) S) as Hx by (rewrite HL; apply elem_of_cons; by left).
      apply list_elem_of_filter in Hx as [Hfx Hx]. exists x. split_and!; [done|done|]. rewrite list.Forall_forall in Hr. specialize (Hr x Hx).
      specialize (Hall x ltac:(apply elem_of_cons; by left)). unfold is_u64 in Hr. lia.
    - rewrite <-HL in Hin. apply list_elem_of_filter in Hin as [? ?]. by exists tx. }
  assert (∀ tx, tx ∈ S → f tx = true → v ≤ Nonce tx) as Hle.
  { intros tx Hin Hf. apply Hall. rewrite <-HL. by apply list_elem_of_filter. }
  destruct (filter_spec (λ tx, v <? Nonce tx) m _ Hh) as (c & invalids & Hf & Hpi & _). pose proof (upto_filter f S v Hs Hle Hex) as Hup.
  rewrite Hup in Hf. exists v, invalids, (mk_txSortedMap (map_of (upto f S)) (index m) c). split_and!; [done|done| |].
  - apply holds_reheap; [done|..]; rewrite <-Hup; [eapply sorted_sublist; [apply sublist_filter|apply Hh]|eapply range_sublist; [apply sublist_filter|apply Hh]].
  - rewrite Hpi, <-Hup, <-map_app. apply Permutation_map, filter_split.
Qed.

Lemma kept_limits b costLimit gasLimit S :
  Forall (λ tx, tx_Cost tx ≤ costLimit ∧ tx_Gas tx ≤ gasLimit)
    (if b : bool then upto (too_much costLimit gasLimit) S else base.filter (λ tx, too_much costLimit gasLimit tx = false) S).
Proof.
  apply list.Forall_forall. intros tx Hin. assert (too_much costLimit gasLimit tx = false) as Hf.
  { destruct b; [by apply upto_elem in Hin as [_ ?]|by apply list_elem_of_filter in Hin as [? _]]. }
  apply orb_false_elim in Hf as [?%Z.ltb_ge ?%Z.ltb_ge]. done.
Qed.

(** C36: filtering a list by the balance of the account and the gas limit of a block, whether
    it returns at once or not: exactly the transactions that cost too much or need too
    much gas are removed; in a strict list everything after the first removed one goes
    too, so what stays is a prefix without a new gap; everything that stays is within the
    new limits and the caps keep bounding the list. *)
Theorem list_Filter_affordable l S costLimit gasLimit : capped l S →
  let bad := too_much costLimit gasLimit in
  let kept := if strict l then upto bad S else base.filter (λ tx, bad tx = false) S in
  ∃ l' removed invalids, list_Filter costLimit gasLimit l = Ok (l', removed, invalids) ∧
    removed ≡ₚ map Some (base.filter (λ tx, bad tx = true) S) ∧
    removed ++ invalids ++ map Some kept ≡ₚ map Some S ∧
    capped l' kept ∧ Forall (λ tx, tx_Cost tx ≤ costLimit ∧ tx_Gas tx ≤ gasLimit) kept.
Proof.
  intros [Hh Hc] bad kept. pose proof (kept_limits (strict l) costLimit gasLimit S) as Hk. fold bad in Hk. fold kept in Hk.
  unfold list_Filter. destruct (_ && _) eqn:Hcap.
  - apply andb_prop in Hcap as [Hcc%Z.leb_le Hgc%Z.leb_le]. assert (base.filter (λ tx, bad tx = true) S = []) as Hn.
    { apply filter_none. intros tx Hin. rewrite list.Forall_forall in Hc. destruct (Hc tx Hin). unfold bad, too_much.
      rewrite !(proj2 (Z.ltb_ge _ _)) by lia. done. }
    assert (kept = S) as HS by (by apply kept_all). rewrite HS in Hk |- *. exists l, [], []. split_and!; [done|by rewrite Hn|done|by split|done].
  - destruct (holds_Filter bad (txs l) S Hh) as (m1 & removed & Hf & Hp & Hh1). fold (too_much costLimit gasLimit). fold bad.
    change (λ tx, (gasLimit <? tx_Gas tx) || (costLimit <? tx_Cost tx)) with bad. rewrite Hf. destruct removed as [|r removed].
    + cbn. apply Permutation_length in Hp as Hpl. rewrite length_map in Hpl. symmetry in Hpl. apply nil_length_inv in Hpl as Hn.
      assert (kept = S) as HS by (by apply kept_all). rewrite (filter_partition bad S Hn) in Hh1. rewrite HS in Hk |- *.
      do 3 eexists. split_and!; [done|by rewrite Hn|done|by split|done].
    + rewrite len_cons. pose proof (len_nonneg removed). rewrite (proj2 (Z.eqb_neq _ _)) by lia. set (rs := r :: removed) in *.
      assert (rs ≠ []) as Hne by done. clearbody rs. unfold kept in *. destruct (strict l).
      * destruct (strict_rest bad m1 S rs Hh1 (h_sorted _ _ Hh) (h_range _ _ Hh) Hp Hne) as (v & invalids & m2 & Hv & Hf2 & Hh2 & Hperm).
        unfold mbind, res_bind. rewrite Hv, Hf2. do 3 eexists. split_and!; [done|done| |by split|done].
        rewrite Hperm, Hp, <-map_app. apply Permutation_map, filter_split.
      * unfold mbind, res_bind. do 3 eexists. split_and!; [done|done| | |done].
        -- cbn [app]. rewrite Hp, <-map_app. apply Permutation_map, filter_split.
        -- split; [|done]. cbn [txs]. destruct m1 as [its idx c]. apply holds_reheap; apply Hh1.
Qed.

Definition toy_rich : txList := mk_txList true (Put (toy_tx 3) (Put (toy_tx 2) newTxSortedMap)) 21000 21000.
Lemma list_Filter_affordable_witness : ∃ l' removed invalids, list_Filter 5 30000 toy_rich = Ok (l', removed, invalids) ∧
  removed ≡ₚ map Some [toy_tx 2; toy_tx 3] ∧ removed ++ invalids ++ [] ≡ₚ map Some [toy_tx 2; toy_tx 3] ∧ capped l' [] ∧
  Forall (λ tx, tx_Cost tx ≤ 5 ∧ tx_Gas tx ≤ 30000) [].
Proof.
  apply (list_Filter_affordable toy_rich [toy_tx 2; toy_tx 3] 5 30000). split.
  - apply (holds_Put (Put (toy_tx 2) newTxSortedMap) [toy_tx 2] (toy_tx 3)); [|unfold is_u64; cbn; lia].
    apply (holds_Put newTxSortedMap [] (toy_tx 2)); [apply holds_new|unfold is_u64; cbn; lia].
  - repeat (apply Forall_cons_2; [split; vm_compute; discriminate|]). apply Forall_nil_2.
Defined.
