(* ===== verification/ForkId.v ===== *)
(** * Fork identifiers (src/geth/core/forkid/forkid.go)

    Peers announce a checksum of the genesis hash and the forks they have passed, and the
    next fork they know; a filter rejects peers on other chains.  The checksum is the
    CRC-32 of Go's hash/crc32.  Reflection over the configuration is modelled by the
    list of the fields of the structure, each with its name, its type and its value. *)
From Stdlib Require Import String.
From stdpp Require Import gmap list sorting.
From S2P Require Import Prelude StateDb.

(** ** CRC-32 with the IEEE polynomial *)

Definition crc_poly : Z := 0xedb88320.
Fixpoint crc_bits (n : nat) (crc : Z) : Z :=
  match n with
  | O => crc
  | S n => crc_bits n (if Z.odd crc then Z.lxor (Z.shiftr crc 1) crc_poly else Z.shiftr crc 1)
  end.
(** [tab[byte(crc) ^ v] ^ (crc >> 8)], the table entry being eight shifts of its index. *)
Definition crc_byte (crc v : Z) : Z := Z.lxor (crc_bits 8 (Z.lxor (u8 crc) v)) (Z.shiftr crc 8).
Definition crc_Update (crc : Z) (p : bytes) : Z := Z.lxor (fold_left crc_byte p (Z.lxor crc (2 ^ 32 - 1))) (2 ^ 32 - 1).
Definition ChecksumIEEE (p : bytes) : Z := crc_Update 0 p.

Definition checksumUpdate (hash fork : Z) : Z := crc_Update hash (be_bytes 8 fork).
Definition checksumToBytes (hash : Z) : bytes := be_bytes 4 hash.

(** ** The forks of a configuration *)

(** The rounds of the inner loop for the element at position [i]. *)
Fixpoint exchange (x : Z) (l : list Z) : Z * list Z :=
  match l with
  | [] => (x, [])
  | y :: l => if y <? x then let '(m, r) := exchange y l in (m, x :: r) else let '(m, r) := exchange x l in (m, y :: r)
  end.
Fixpoint exchange_sort (n : nat) (l : list Z) : list Z :=
  match n, l with
  | S n, x :: l => let '(m, r) := exchange x l in m :: exchange_sort n r
  | _, _ => l
  end.
(** Dropping numbers that equal the one before. *)
Fixpoint dedup (x : Z) (l : list Z) : list Z :=
  match l with [] => [] | y :: l => if y =? x then dedup x l else y :: dedup y l end.
(** A field of [ChainConfig]: a [*big.Int], or something the forks are not read from. *)
Inductive field_value := FBigInt (v : option Z) | FOther.
Record config_field := mk_field { field_Name : String.string; field_Value : field_value }.
Definition HasSuffix (suffix s : String.string) : bool :=
  (String.length suffix <=? String.length s)%nat &&
  String.eqb (String.substring (String.length s - String.length suffix) (String.length suffix) s) suffix.
Definition fork_rule (f : config_field) : option Z :=
  if negb (HasSuffix "Block"%string (field_Name f)) then None
  else match field_Value f with FBigInt (Some rule) => Some (u64 (Z.abs rule)) | _ => None end.
Definition gatherForks (config : list config_field) : list Z :=
  let forks := omap fork_rule config in
  let forks := exchange_sort (length forks) forks in
  let forks := match forks with [] => [] | x :: l => x :: dedup x l end in
  match forks with x :: l => if x =? 0 then l else forks | [] => [] end.

(** ** Identifiers and filters *)

Record ID := mk_ID { id_Hash : bytes; Next : Z }.
Inductive fork_err := ErrRemoteStale | ErrLocalIncompatibleOrStale.

Fixpoint id_loop (hash : Z) (forks : list Z) (head : Z) {struct forks} : ID :=
  match forks with
  | [] => mk_ID (checksumToBytes hash) 0
  | fork :: forks => if fork <=? head then id_loop (checksumUpdate hash fork) forks head else mk_ID (checksumToBytes hash) fork
  end.
Definition NewID (config : list config_field) (genesis head : Z) : ID :=
  id_loop (ChecksumIEEE (hash_bytes genesis)) (gatherForks config) head.

(** The checksums before and after each fork. *)
Fixpoint sums_from (hash : Z) (forks : list Z) {struct forks} : list bytes :=
  checksumToBytes hash :: match forks with [] => [] | fork :: forks => sums_from (checksumUpdate hash fork) forks end.
Definition fork_sums (config : list config_field) (genesis : Z) : list bytes :=
  sums_from (ChecksumIEEE (hash_bytes genesis)) (gatherForks config).

(** Rule 2: the first checksum before [i] that is the remote's. *)
Fixpoint subset_check (sums : list bytes) (forks : list Z) (id : ID) (n : nat) : option (res fork_err unit) :=
  match n, sums, forks with
  | S n, s :: sums, f :: forks =>
      if bool_decide (s = id_Hash id) then Some (if negb (f =? Next id) then Err ErrRemoteStale else Ok tt)
      else subset_check sums forks id n
  | _, _, _ => None
  end.
(** The rules at the first fork [i] that the head has not passed. *)
Definition fork_rules (sums : list bytes) (forks : list Z) (head : Z) (id : ID) (i : nat) : res fork_err unit :=
  match sums !! i with
  | None => Panic runtime_error
  | Some s =>
      if bool_decide (s = id_Hash id) then
        if (0 <? Next id) && (Next id <=? head) then Err ErrLocalIncompatibleOrStale else Ok tt
      else
        match subset_check sums forks id i with
        | Some r => r
        | None => if existsb (λ s, bool_decide (s = id_Hash id)) (drop (S i) sums) then Ok tt else Err ErrLocalIncompatibleOrStale
        end
  end.
Fixpoint filter_loop (sums : list bytes) (forks all : list Z) (head : Z) (id : ID) (i : nat) : res fork_err unit :=
  match forks with
  | [] => Ok tt
  | fork :: forks => if fork <=? head then filter_loop sums forks all head id (S i) else fork_rules sums all head id i
  end.
Definition newFilter (config : list config_field) (genesis head : Z) (id : ID) : res fork_err unit :=
  let forks := gatherForks config ++ [2 ^ 64 - 1] in
  filter_loop (fork_sums config genesis) forks forks head id 0.

(** The chain's methods that the constructors read. *)
Record Blockchain := mk_Blockchain { bc_Config : list config_field; bc_Genesis : Z; bc_CurrentNumber : Z }.
Definition NewIDWithChain (chain : Blockchain) : ID :=
  NewID (bc_Config chain) (bc_Genesis chain) (u64 (Z.abs (bc_CurrentNumber chain))).
Definition NewFilter (chain : Blockchain) : ID → res fork_err unit :=
  newFilter (bc_Config chain) (bc_Genesis chain) (u64 (Z.abs (bc_CurrentNumber chain))).
Definition NewStaticFilter (config : list config_field) (genesis : Z) : ID → res fork_err unit := newFilter config genesis 0.

Example crc_check : ChecksumIEEE [49; 50; 51; 52; 53; 54; 55; 56; 57] = 0xcbf43926.
Proof. vm_compute. reflexivity. Qed.

(** ** The gathered forks are sorted *)

Lemma exchange_spec l x m r : exchange x l = (m, r) → m :: r ≡ₚ x :: l ∧ Forall (Z.le m) r ∧ length r = length l.
Proof.
  revert x m r. induction l as [|y l IH]; intros x m r; cbn [exchange]; [intros [= <- <-]; done|].
  destruct (Z.ltb_spec y x) as [Hlt|Hge].
  - destruct (exchange y l) as [m1 r1] eqn:He. intros [= <- <-]. destruct (IH y m1 r1 He) as (Hp & Hf & Hl).
    split_and!; [by rewrite Permutation_swap, Hp| |cbn; by rewrite Hl]. constructor; [|done].
    assert (m1 ≤ y); [|lia]. assert (y ∈ m1 :: r1) as [->|Hy]%elem_of_cons by (rewrite Hp; apply elem_of_cons; by left); [done|].
    rewrite list.Forall_forall in Hf. by apply Hf.
  - destruct (exchange x l) as [m1 r1] eqn:He. intros [= <- <-]. destruct (IH x m1 r1 He) as (Hp & Hf & Hl).
    split_and!; [rewrite Permutation_swap, Hp; apply Permutation_swap| |cbn; by rewrite Hl]. constructor; [|done].
    assert (m1 ≤ x); [|lia]. assert (x ∈ m1 :: r1) as [->|Hx]%elem_of_cons by (rewrite Hp; apply elem_of_cons; by left); [done|].
    rewrite list.Forall_forall in Hf. by apply Hf.
Qed.
Lemma exchange_sort_spec n l : (length l ≤ n)%nat → exchange_sort n l ≡ₚ l ∧ StronglySorted Z.le (exchange_sort n l).
Proof.
  revert l. induction n as [|n IH]; intros l Hn; [destruct l; [split; [done|constructor]|cbn in Hn; lia]|].
  destruct l as [|x l]; [split; [done|constructor]|]. cbn [exchange_sort]. destruct (exchange x l) as [m r] eqn:He.
  destruct (exchange_spec l x m r He) as (Hp & Hf & Hl). destruct (IH r ltac:(cbn in Hn; lia)) as [Hp' Hs']. split; [by rewrite Hp'|].
  constructor; [done|]. by rewrite Hp'.
Qed.
Lemma dedup_spec x l : StronglySorted Z.le (x :: l) → StronglySorted Z.lt (x :: dedup x l) ∧ ∀ y, y ∈ x :: dedup x l ↔ y ∈ x :: l.
Proof.
  revert x. induction l as [|y l IH]; intros x Hs; [split; [repeat constructor|done]|]. cbn [dedup].
  apply StronglySorted_inv in Hs as [Hs Hx]. apply Forall_cons_1 in Hx as [Hxy Hx]. destruct (Z.eqb_spec y x) as [->|Hne].
  - destruct (IH x Hs) as [Hs' He]. split; [done|]. intros z. rewrite He, !elem_of_cons. tauto.
  - destruct (IH y Hs) as [Hs' He]. split.
    + constructor; [done|]. constructor; [lia|]. apply StronglySorted_inv in Hs' as [_ Hf]. rewrite list.Forall_forall in Hf |- *.
      intros z Hz. specialize (Hf z Hz). lia.
    + intros z. specialize (He z). rewrite !elem_of_cons in *. tauto.
Qed.
(** The forks of a configuration are its distinct fork blocks after genesis, in order. *)
Lemma gatherForks_spec config :
  StronglySorted Z.lt (gatherForks config) ∧
  ∀ f, f ∈ gatherForks config ↔ f ≠ 0 ∧ ∃ field, field ∈ config ∧ fork_rule field = Some f.
Proof.
  assert (∀ f, f ∈ omap fork_rule config ↔ ∃ field, field ∈ config ∧ fork_rule field = Some f) as Hr by (intros f; apply list_elem_of_omap).
  assert (∀ f, f ∈ omap fork_rule config → 0 ≤ f) as H0.
  { intros f (r & _ & Hf)%Hr. unfold fork_rule in Hf. destruct (negb _); [done|]. destruct (field_Value r) as [[n|]|]; [|done..].
    injection Hf as <-. apply u64_range. }
  unfold gatherForks. set (l := omap _ config) in *. destruct (exchange_sort_spec (length l) l ltac:(done)) as [Hp Hs].
  setoid_rewrite <-Hr. clear Hr. destruct (exchange_sort (length l) l) as [|x s]; setoid_rewrite <-Hp; setoid_rewrite <-Hp in H0; clear Hp.
  { split; [constructor|intros f; rewrite elem_of_nil; tauto]. }
  destruct (dedup_spec x s Hs) as [Hs' He]. setoid_rewrite <-He. setoid_rewrite <-He in H0. clear He Hs.
  pose proof Hs' as [Hs1 Hx]%StronglySorted_inv. rewrite list.Forall_forall in Hx. pose proof (H0 x ltac:(apply elem_of_cons; by left)).
  destruct (Z.eqb_spec x 0) as [->|Hne]; (split; [done|]); intros f; rewrite elem_of_cons.
  - split; [intros Hf; specialize (Hx f Hf); split; [lia|by right]|intros [? [?|?]]; done].
  - split; [|tauto]. intros [->|Hf]; [by split; [|left]|]. specialize (Hx f Hf). split; [lia|by right].
Qed.

(** ** How far a head has come *)

(** The forks at or below the head. *)
Definition passed (forks : list Z) (head : Z) : nat := length (filter (λ f, f ≤ head) forks).

Lemma passed_cons f fs head :
  StronglySorted Z.lt (f :: fs) → passed (f :: fs) head = if f <=? head then S (passed fs head) else O.
Proof.
  intros [_ Hf]%StronglySorted_inv. unfold passed. destruct (Z.leb_spec f head) as [Hle|Hgt].
  - rewrite filter_cons_True by done. done.
  - rewrite filter_cons_False by lia.
    assert (filter (λ f, f ≤ head) fs = []) as ->; [|done]. induction Hf as [|y fs Hy Hf IH]; [done|].
    rewrite filter_cons_False by lia. done.
Qed.
Lemma passed_le forks head : (passed forks head ≤ length forks)%nat.
Proof. apply length_filter. Qed.

Lemma id_loop_spec hash forks head :
  StronglySorted Z.lt forks →
  sums_from hash forks !! passed forks head = Some (id_Hash (id_loop hash forks head)) ∧
  Next (id_loop hash forks head) = default 0 (forks !! passed forks head).
Proof.
  revert hash. induction forks as [|f fs IH]; intros hash Hs; [done|]. rewrite passed_cons by done. cbn [id_loop].
  apply StronglySorted_inv in Hs as [Hs _]. destruct (Z.leb_spec f head); [exact (IH _ Hs)|done].
Qed.
Lemma next_not_passed forks head f : StronglySorted Z.lt forks → forks !! passed forks head = Some f → head < f.
Proof.
  induction forks as [|g fs IH]; intros Hs; [done|]. rewrite passed_cons by done. apply StronglySorted_inv in Hs as [Hs _].
  destruct (Z.leb_spec g head); [exact (IH Hs)|]. by intros [= <-].
Qed.
Lemma sums_from_length hash forks : length (sums_from hash forks) = S (length forks).
Proof. revert hash. induction forks as [|f fs IH]; intros hash; [done|]. cbn [sums_from length]. by rewrite IH. Qed.

Lemma filter_loop_spec sums forks all head id i :
  StronglySorted Z.lt forks → head < 2 ^ 64 - 1 →
  filter_loop sums (forks ++ [2 ^ 64 - 1]) all head id i = fork_rules sums all head id (i + passed forks head).
Proof.
  intros Hs Hh. revert i. induction forks as [|f fs IH]; intros i.
  - cbn [app filter_loop]. rewrite (proj2 (Z.leb_gt _ _) Hh). by rewrite Nat.add_0_r.
  - rewrite passed_cons by done. apply StronglySorted_inv in Hs as [Hs _]. cbn [app filter_loop].
    destruct (Z.leb_spec f head); [rewrite (IH Hs); f_equal; lia|by rewrite Nat.add_0_r].
Qed.
Lemma subset_check_none sums forks id n : id_Hash id ∉ take n sums → subset_check sums forks id n = None.
Proof.
  revert sums forks. induction n as [|n IH]; intros sums forks Hn; [by destruct sums, forks|]. destruct sums as [|s sums], forks as [|f forks]; try done.
  cbn [subset_check]. rewrite firstn_cons, elem_of_cons in Hn. rewrite bool_decide_eq_false_2 by (intros ->; tauto). apply IH. tauto.
Qed.
Lemma subset_check_some sums forks id n k f :
  NoDup sums → sums !! k = Some (id_Hash id) → forks !! k = Some f → (k < n)%nat →
  subset_check sums forks id n = Some (if negb (f =? Next id) then Err ErrRemoteStale else Ok tt).
Proof.
  revert sums forks n. induction k as [|k IH]; intros sums forks n Hnd Hs Hf Hn;
    (destruct n as [|n]; [lia|]); destruct sums as [|s sums], forks as [|g forks]; try done; cbn [subset_check].
  - injection Hs as ->. injection Hf as ->. by rewrite bool_decide_eq_true_2.
  - cbn in Hs, Hf. apply list.NoDup_cons in Hnd as [Hni Hnd]. rewrite bool_decide_eq_false_2 by (intros ->; by apply Hni, (list_elem_of_lookup_2 _ k)).
    apply IH; [done..|lia].
Qed.

(** ** What the filter decides *)

Section filter.
Context (config : list config_field) (genesis head : Z).
Context (Hnodup : NoDup (fork_sums config genesis)) (Hhead : head < 2 ^ 64 - 1).
Local Abbreviation forks := (gatherForks config).
Local Abbreviation sums := (fork_sums config genesis).

(** A checksum of the local chain: an equal state is judged by the announced fork, an
    earlier one must announce the fork that followed it, a later one is accepted. *)
Lemma newFilter_known id k :
  sums !! k = Some (id_Hash id) →
  newFilter config genesis head id =
    if bool_decide (k < passed forks head)%nat then
      if bool_decide (forks !! k = Some (Next id)) then Ok tt else Err ErrRemoteStale
    else if bool_decide (k = passed forks head) && (0 <? Next id) && (Next id <=? head) then Err ErrLocalIncompatibleOrStale
    else Ok tt.
Proof.
  intros Hk. unfold newFilter. rewrite filter_loop_spec by (apply gatherForks_spec || done). rewrite Nat.add_0_l.
  pose proof (passed_le forks head) as Hp. assert (length sums = S (length forks)) as Hl by apply sums_from_length.
  unfold fork_rules. destruct (sums !! passed forks head) as [s|] eqn:Hs; [|apply lookup_ge_None_1 in Hs; lia].
  destruct (decide (k = passed forks head)) as [->|Hne].
  { rewrite Hk in Hs. injection Hs as <-. rewrite (bool_decide_eq_true_2 (id_Hash id = _)), (bool_decide_eq_false_2 (_ < _)%nat), (bool_decide_eq_true_2 (passed _ _ = _)) by lia || done. done. }
  rewrite (bool_decide_eq_false_2 (s = _)) by (intros ->; apply Hne; by eapply NoDup_lookup).
  rewrite (bool_decide_eq_false_2 (k = _)) by done. cbn [andb]. case_bool_decide as Hlt.
  - destruct (forks !! k) as [f|] eqn:Hf; [|apply lookup_ge_None_1 in Hf; lia].
    rewrite (subset_check_some sums _ id _ k f) by (done || by apply lookup_app_l_Some). destruct (Z.eqb_spec f (Next id)) as [->|Hfn].
    + by rewrite bool_decide_eq_true_2.
    + by rewrite bool_decide_eq_false_2 by congruence.
  - rewrite subset_check_none.
    + assert (existsb (λ s, bool_decide (s = id_Hash id)) (drop (S (passed forks head)) sums) = true) as ->; [|done].
      apply existsb_exists. exists (id_Hash id). split; [|by apply bool_decide_eq_true_2]. apply list_elem_of_In.
      apply (list_elem_of_lookup_2 _ (k - S (passed forks head))%nat). rewrite lookup_drop. rewrite <-Hk. f_equal. lia.
    + intros (j & Hj & Hjl)%elem_of_take. pose proof (NoDup_lookup _ _ _ _ Hnodup Hj Hk). lia.
Qed.

(** A checksum that the local chain never has. *)
Lemma newFilter_unknown id : id_Hash id ∉ sums → newFilter config genesis head id = Err ErrLocalIncompatibleOrStale.
Proof.
  intros Hni. unfold newFilter. rewrite filter_loop_spec by (apply gatherForks_spec || done). rewrite Nat.add_0_l.
  pose proof (passed_le forks head) as Hp. assert (length sums = S (length forks)) as Hl by apply sums_from_length.
  unfold fork_rules. destruct (sums !! passed forks head) as [s|] eqn:Hs; [|apply lookup_ge_None_1 in Hs; lia].
  rewrite bool_decide_eq_false_2 by (intros ->; by apply Hni, (list_elem_of_lookup_2 _ (passed forks head))).
  rewrite subset_check_none by (intros Hin; by apply Hni, (subseteq_take (passed forks head))).
  destruct (existsb _ _) eqn:He; [|done]. apply existsb_exists in He as (x & Hx%list_elem_of_In & ->%bool_decide_eq_true_1).
  destruct Hni. by apply (subseteq_drop (S (passed forks head))).
Qed.

(** A peer of the same chain is accepted wherever it has come to. *)
Lemma newFilter_same remote : newFilter config genesis head (NewID config genesis remote) = Ok tt.
Proof.
  assert (StronglySorted Z.lt forks) as Hs by apply gatherForks_spec.
  destruct (id_loop_spec (ChecksumIEEE (hash_bytes genesis)) forks remote Hs) as [Hk Hn].
  unfold NewID. rewrite (newFilter_known _ (passed forks remote) Hk), Hn. case_bool_decide as Hlt.
  - destruct (forks !! passed forks remote) as [f|] eqn:Hf; [by rewrite bool_decide_eq_true_2|].
    apply lookup_ge_None_1 in Hf. pose proof (passed_le forks head). lia.
  - case_bool_decide as He; [|done]. cbn [andb]. rewrite He. destruct (forks !! passed forks head) as [f|] eqn:Hf; [|done].
    apply next_not_passed in Hf; [|done]. change (default 0 (Some f)) with f. rewrite (proj2 (Z.leb_gt f head) Hf), andb_false_r. done.
Qed.
End filter.

(** C30: The fork filter connects the nodes of one chain and separates the others.  For a
    chain whose checksums before and after its forks are distinct and a head below the
    sentinel block: a peer with the same configuration and genesis is accepted at any
    head it announces; a checksum of the same fork state is refused exactly when its
    announced fork has already been passed here; one of an earlier state is accepted
    exactly when it announces the fork that followed, and is told to update otherwise;
    one of a later state is accepted; and a checksum this chain never has is refused. *)
Theorem newFilter_exact (config : list config_field) (genesis head : Z) :
  NoDup (fork_sums config genesis) → head < 2 ^ 64 - 1 →
  (∀ remote, newFilter config genesis head (NewID config genesis remote) = Ok tt) ∧
  (∀ id k, fork_sums config genesis !! k = Some (id_Hash id) →
     newFilter config genesis head id =
       if bool_decide (k < passed (gatherForks config) head)%nat then
         if bool_decide (gatherForks config !! k = Some (Next id)) then Ok tt else Err ErrRemoteStale
       else if bool_decide (k = passed (gatherForks config) head) && (0 <? Next id) && (Next id <=? head)
       then Err ErrLocalIncompatibleOrStale else Ok tt) ∧
  (∀ id, id_Hash id ∉ fork_sums config genesis → newFilter config genesis head id = Err ErrLocalIncompatibleOrStale).
Proof.
  intros Hn Hh. split_and!; intros.
  - by apply newFilter_same.
  - by apply newFilter_known.
  - by apply newFilter_unknown.
Qed.

(** A chain with forks at blocks 10 and 20, the first of them named twice. *)
Definition toy_config : list config_field :=
  [mk_field "ChainID" (FBigInt (Some 7)); mk_field "LondonBlock" (FBigInt (Some 20)); mk_field "HomesteadBlock" (FBigInt (Some 0));
   mk_field "DAOForkBlock" (FBigInt None); mk_field "EIP150Block" (FBigInt (Some 10)); mk_field "DAOForkSupport" FOther;
   mk_field "EIP155Block" (FBigInt (Some 10))].
Example toy_forks : gatherForks toy_config = [10; 20].
Proof. vm_compute. reflexivity. Qed.

Lemma newFilter_exact_witness :
  newFilter toy_config 5 12 (NewID toy_config 5 25) = Ok tt ∧
  newFilter toy_config 5 12 (mk_ID (id_Hash (NewID toy_config 5 3)) 11) = Err ErrRemoteStale.
Proof.
  assert (NoDup (fork_sums toy_config 5)) as Hn by (apply (bool_decide_eq_true_1 _); vm_compute; reflexivity).
  destruct (newFilter_exact toy_config 5 12 Hn ltac:(lia)) as (Hsame & Hknown & _). split; [apply Hsame|].
  rewrite (Hknown _ 0%nat) by (vm_compute; reflexivity). vm_compute. reflexivity.
Defined.
