(* ===== verification/BlockProcess.v ===== *)
(** * Processing the transactions of a block (src/geth/core/state_processor.go, core/evm.go)

    [Process] prepares the block's context for the EVM, lets the engine look at the
    block, applies the transactions one by one to the state and hands what is left, the
    system transactions, to the engine.  The database is a parameter with the interface
    of the EVM and that of the processor; the engine is a record of operations.  Blooms
    are computed by goroutines that are waited for before the engine finalizes the
    block; each writes to its own receipt, so that they are modelled in place. *)
From S2P Require Import Prelude StateDb StateEvm EvmAnalysis EvmBase EvmMachine EvmInterp TxMeta TxTransition TxTypes CongressSnapshot Bloom.

(** ** Transactions and receipts *)

(** A transaction as the processor sees it, by its getters. *)
Record Transaction := mk_Transaction {
  tx_Type : Z; tx_Hash : Z; tx_Nonce : Z; tx_GasPrice : Z; tx_GasTipCap : Z; tx_GasFeeCap : Z; tx_Gas : Z;
  tx_To : option Z; tx_Value : Z; tx_Data : bytes; tx_AccessList : AccessList
}.

(** The getters of a transaction with these contents. *)
Definition of_TxData (keccak256 : bytes → Z) (tx : TxData) : Transaction :=
  mk_Transaction (txType tx) (tx_hash keccak256 tx) (tx_nonce tx) (tx_gasPrice tx) (tx_gasTipCap tx) (tx_gasFeeCap tx) (tx_gas tx)
    (tx_to tx) (tx_value tx) (tx_data tx) (tx_accessList tx).

Inductive proc_err := ErrSender | ErrEngine | ErrMessage (e : tx_err) | ErrCouldNotApply (i : Z) (err : proc_err).

(** [AsMessage]; [from] is what the signer recovers. *)
Definition AsMessage (from : option Z) (tx : Transaction) (baseFee : option Z) : res proc_err Message :=
  let gasPrice := match baseFee with
                  | Some baseFee => BigMin (tx_GasTipCap tx + baseFee) (tx_GasFeeCap tx)
                  | None => tx_GasPrice tx
                  end in
  match from with
  | Some from => Ok (mk_Message from (tx_To tx) gasPrice (Some (tx_GasFeeCap tx)) (Some (tx_GasTipCap tx)) (tx_Gas tx)
                       (tx_Value tx) (tx_Nonce tx) false (tx_Data tx) (tx_AccessList tx))
  | None => Err ErrSender
  end.

Definition ReceiptStatusFailed : Z := 0.
Definition ReceiptStatusSuccessful : Z := 1.
Record Receipt := mk_Receipt {
  r_Type : Z; PostState : bytes; Status : Z; CumulativeGasUsed : Z; r_Bloom : bytes; r_Logs : list Log;
  r_TxHash : Z; ContractAddress : Z; r_GasUsed : Z; r_BlockHash : Z; r_BlockNumber : Z; TransactionIndex : Z
}.

(** ** The interfaces *)

(** The operations of the state database that only the processor uses. *)
Class BlockDB (W : Type) := {
  b_Prepare : Z → Z → W → W;
  b_Finalise : bool → W → W;
  b_IntermediateRoot : bool → W → W * Z;
  b_GetLogs : Z → Z → W → W * list Log;
  b_TxIndex : W → Z;
  b_PreloadAccounts : list Z → W → W
}.

(** [consensus.PoSA] and [consensus.Engine]. *)
Record PoSA (W : Type) := mk_PoSA {
  PreHandle : Header → W → res proc_err W;
  CreateEvmExtraValidator : Header → W → option Validator;
  IsSysTransaction : Z → Transaction → Header → res proc_err bool;
  ValidateTx : Z → Transaction → Header → W → res proc_err unit;
  posa_CanCreate : W → Z → Z → bool
}.
Arguments PreHandle {W} _ _ _.
Arguments CreateEvmExtraValidator {W} _ _ _.
Arguments IsSysTransaction {W} _ _ _ _.
Arguments ValidateTx {W} _ _ _ _ _.
Arguments posa_CanCreate {W} _ _ _ _.
Record Engine (W : Type) := mk_Engine {
  posa : option (PoSA W);
  Author : Header → Z;
  Finalize : Header → W → list Transaction → list Header → list Receipt → list Transaction →
    res proc_err (W * list Transaction * list Receipt)
}.
Arguments posa {W} _.
Arguments Author {W} _ _.
Arguments Finalize {W} _ _ _ _ _ _ _.

(** ** Contexts of the EVM *)

(** [GetHashFn]: the closure with its cache; [GetHeader] is that of the chain. *)
Section get_hash.
Context (GetHeader : Z → Z → option Header) (ref_ParentHash ref_Number : Z).

Fixpoint hash_walk (fuel : nat) (n : Z) (cache : list Z) (lastKnownHash lastKnownNumber : Z) : res proc_err (list Z * Z) :=
  match fuel with
  | O => OutOfFuel
  | S fuel =>
      match GetHeader lastKnownHash lastKnownNumber with
      | None => Ok (cache, 0)
      | Some header =>
          match h_Number header with
          | None => Panic runtime_error
          | Some number =>
              let cache := cache ++ [ParentHash header] in
              let lastKnownHash := ParentHash header in
              let lastKnownNumber := u64 (u64 (Z.abs number) - 1) in
              if n =? lastKnownNumber then Ok (cache, lastKnownHash) else hash_walk fuel n cache lastKnownHash lastKnownNumber
          end
      end
  end.
Definition get_hash (fuel : nat) (n : Z) (cache : list Z) : res proc_err (list Z * Z) :=
  let cache := match cache with [] => [ref_ParentHash] | _ => cache end in
  let idx := u64 (ref_Number - n - 1) in
  if idx <? len cache then h ← go_index cache idx; Ok (cache, h)
  else
    lastKnownHash ← go_index cache (len cache - 1);
    hash_walk fuel n cache lastKnownHash (u64 (ref_Number - len cache)).
End get_hash.

Section process.
Context {W : Type} `{!Uint256, !StateDB W, !BlockDB W}.

Definition GetCanCreateFn (engine : Engine W) : W → Z → Z → bool :=
  match posa engine with Some p => posa_CanCreate p | None => λ _ _ _, true end.

(** [NewEVMBlockContext] over the parts of the EVM that no block changes. *)
Definition NewEVMBlockContext (base : Env W) (engine : Engine W) (header : Header) (getHash : Z → Z) (author : option Z) :
    res proc_err (Env W) :=
  let beneficiary := match author with Some a => a | None => Author engine header end in
  match h_Number header, h_Difficulty header with
  | Some number, Some difficulty =>
      Ok (mk_Env W (chainRules base) (ChainID base)
            core_CanTransfer core_Transfer getHash (Some (GetCanCreateFn engine)) (ExtraValidator base)
            beneficiary (h_GasLimit header) number (h_Time header) difficulty (h_BaseFee header)
            (Origin base) (GasPrice base) (NoRecursion base) (EnablePreimageRecording base) (precompile base)
            (EvmMachine.keccak256 base) (EvmMachine.cache_Get base))
  | _, _ => Panic runtime_error
  end.
Definition set_validator (v : option Validator) (env : Env W) : Env W :=
  mk_Env W (chainRules env) (ChainID env) (CanTransfer env) (Transfer env) (GetHash env) (CanCreate env) v
    (Coinbase env) (GasLimit env) (BlockNumber env) (Time env) (Difficulty env) (BaseFee env) (Origin env) (GasPrice env)
    (NoRecursion env) (EnablePreimageRecording env) (precompile env) (EvmMachine.keccak256 env) (EvmMachine.cache_Get env).
(** [NewEVMTxContext] and [Reset]; the database is the one the EVM has. *)
Definition evm_Reset (msg : Message) (env : Env W) : Env W :=
  mk_Env W (chainRules env) (ChainID env) (CanTransfer env) (Transfer env) (GetHash env) (CanCreate env) (ExtraValidator env)
    (Coinbase env) (GasLimit env) (BlockNumber env) (Time env) (Difficulty env) (BaseFee env) (From msg) (m_GasPrice msg)
    (NoRecursion env) (EnablePreimageRecording env) (precompile env) (EvmMachine.keccak256 env) (EvmMachine.cache_Get env).
Definition set_vmenv (env : Env W) (t : TxEnv W) : TxEnv W :=
  mk_TxEnv W env (Congress t) (NoBaseFee t) (ActivePrecompiles t) (tx_PrepareAccessList t) (tx_Ecrecover t).

(** ** One transaction *)

(** What the transactions of a block share: the EVM with the database, the gas pool and
    the gas used so far. *)
Record Proc := mk_Proc { p_evm : EVM W; p_gp : Z; usedGas : Z }.
Abbreviation P := (st Proc proc_err).
Context (tenv : TxEnv W) (crypto_keccak : bytes → Z) (Sender : Transaction → option Z).

Definition on_db (f : W → W) : P unit := st_modify (λ p, mk_Proc (set_world (f (db (p_evm p))) (p_evm p)) (p_gp p) (usedGas p)).

(** [ApplyMessage] on the state that the block shares. *)
Definition apply_message (fuel : nat) (msg : Message) : P ExecutionResult := λ p,
  let '(s, r) := ApplyMessage (set_vmenv (evm_Reset msg (vmenv tenv)) tenv) msg fuel (p_evm p) (p_gp p) in
  (mk_Proc (evm s) (gp s) (usedGas p),
   match r with Ok r => Ok r | Err e => Err (ErrMessage e) | Panic p => Panic p | OutOfFuel => OutOfFuel end).

Definition receipt_bloom (logs : list Log) : P bytes :=
  match CreateBloom crypto_keccak [logs] with Ok b => mret b | _ => st_panic runtime_error end.

Definition applyTransaction (fuel : nat) (msg : Message) (blockNumber blockHash : Z) (tx : Transaction) : P Receipt :=
  result ← apply_message fuel msg;
  root ← (if IsByzantium (chainRules (vmenv tenv)) then on_db (b_Finalise true) ≫= λ _, mret []
          else λ p, let '(w, root) := b_IntermediateRoot (IsEIP158 (chainRules (vmenv tenv))) (db (p_evm p)) in
                    (mk_Proc (set_world w (p_evm p)) (p_gp p) (usedGas p), Ok (hash_bytes root)));
  st_modify (λ p, mk_Proc (p_evm p) (p_gp p) (u64 (usedGas p + UsedGas result))) ≫= λ _,
  logs ← (λ p, let '(w, logs) := b_GetLogs (tx_Hash tx) blockHash (db (p_evm p)) in
               (mk_Proc (set_world w (p_evm p)) (p_gp p) (usedGas p), Ok logs));
  bloom ← receipt_bloom logs;
  p ← st_get;
  mret (mk_Receipt (tx_Type tx) root (match res_Err result with Some _ => ReceiptStatusFailed | None => ReceiptStatusSuccessful end) (usedGas p) bloom logs
          (tx_Hash tx) (match To msg with None => CreateAddress (vmenv tenv) (From msg) (tx_Nonce tx) | Some _ => 0 end)
          (UsedGas result) blockHash blockNumber (b_TxIndex (db (p_evm p)))).

(** ** The block *)

(** The rest of the loop from transaction [i]: the receipts, logs, common and system
    transactions it adds. *)
Context (engine : Engine W) (header : Header) (blockNumber blockHash : Z).

(** The engine's view of a transaction: true for a system transaction. *)
Definition screen (tx : Transaction) : P bool :=
  match posa engine with
  | None => mret false
  | Some p =>
      match Sender tx with
      | None => st_err ErrSender
      | Some sender =>
          ok ← st_lift (IsSysTransaction p sender tx header);
          if ok : bool then mret true
          else s ← st_get; _ ← st_lift (ValidateTx p sender tx header (db (p_evm s))); mret false
      end
  end.
(** The error of a transaction is reported with its index. *)
Definition could_not_apply {A} (i : Z) (m : P A) : P A := λ p,
  let '(p, r) := m p in (p, match r with Err err => Err (ErrCouldNotApply i err) | _ => r end).
Fixpoint process_txs (fuel : nat) (i : Z) (txs : list Transaction) : P (list Receipt * list Log * list Transaction * list Transaction) :=
  match txs with
  | [] => mret ([], [], [], [])
  | tx :: txs =>
      sys ← screen tx;
      if sys : bool then
        '(receipts, allLogs, commonTxs, systemTxs) ← process_txs fuel (i + 1) txs;
        mret (receipts, allLogs, commonTxs, tx :: systemTxs)
      else
        msg ← could_not_apply i (st_lift (AsMessage (Sender tx) tx (h_BaseFee header)));
        on_db (b_Prepare (tx_Hash tx) i) ≫= λ _,
        receipt ← could_not_apply i (applyTransaction fuel msg blockNumber blockHash tx);
        '(receipts, allLogs, commonTxs, systemTxs) ← process_txs fuel (i + 1) txs;
        mret (receipt :: receipts, r_Logs receipt ++ allLogs, tx :: commonTxs, systemTxs)
  end.
End process.

(** The addresses that [PreloadAccounts] gathers, up to the first sender that cannot be
    recovered. *)
Fixpoint preload_addresses (Sender : Transaction → option Z) (txs : list Transaction) : list Z :=
  match txs with
  | [] => []
  | tx :: txs =>
      match Sender tx with
      | None => []
      | Some from => from :: match tx_To tx with Some a => [a] | None => [] end ++ preload_addresses Sender txs
      end
  end.

(** [Process]: the header's hash and the EVM's fixed parts are arguments. *)
Definition Process {W} `{!Uint256, !StateDB W, !BlockDB W} (base : TxEnv W) (crypto_keccak : bytes → Z)
    (Sender : Transaction → option Z) (engine : Engine W) (getHash : Z → Z) (fuel : nat)
    (header : Header) (blockHash : Z) (txs : list Transaction) (uncles : list Header) (statedb : W) :
    res proc_err (W * list Receipt * list Log * Z) :=
  pool ← match AddGas (h_GasLimit header) 0 with Ok g => Ok g | Err e => Err (ErrMessage e) | Panic p => Panic p | OutOfFuel => OutOfFuel end;
  env ← NewEVMBlockContext (vmenv base) engine header getHash None;
  '(statedb, env) ← match posa engine with
                    | Some p => w ← PreHandle p header statedb; Ok (w, set_validator (CreateEvmExtraValidator p header w) env)
                    | None => Ok (statedb, env)
                    end;
  let statedb := b_PreloadAccounts (preload_addresses Sender txs) statedb in
  let p := mk_Proc (mk_EVM statedb 0 0 false [] ∅) pool 0 in
  let '(p, r) := process_txs (set_vmenv env base) crypto_keccak Sender engine header (BlockNumber env) blockHash fuel 0 txs p in
  '(receipts, allLogs, commonTxs, systemTxs) ← r;
  '(w, _, receipts) ← Finalize engine header (db (p_evm p)) commonTxs uncles receipts systemTxs;
  Ok (w, receipts, allLogs, usedGas p).

(** [ApplyTransaction], as the miner applies a transaction: with an EVM of its own and the
    author and the validator that the caller has. *)
Definition ApplyTransaction {W} `{!Uint256, !StateDB W, !BlockDB W} (base : TxEnv W) (crypto_keccak : bytes → Z)
    (Sender : Transaction → option Z) (engine : Engine W) (getHash : Z → Z) (fuel : nat) (author : option Z) (gp : Z) (statedb : W)
    (header : Header) (blockHash : Z) (tx : Transaction) (used : Z) (extraValidator : option Validator) :
    @Proc W * res proc_err Receipt :=
  let p := mk_Proc (mk_EVM statedb 0 0 false [] ∅) gp used in
  (msg ← st_lift (AsMessage (Sender tx) tx (h_BaseFee header));
   env ← st_lift (NewEVMBlockContext (vmenv base) engine header getHash author);
   applyTransaction (set_vmenv (set_validator extraValidator env) base) crypto_keccak fuel msg (BlockNumber env) blockHash tx) p.
