(* ===== verification/BlockHash.v ===== *)
(** * The hashes of the ancestors of a block (src/geth/core/evm.go)

    The closure that [GetHashFn] returns walks from the parent of the block to the
    ancestor that is asked for and keeps the hashes it has passed.  Whatever was asked
    before, its answer is that of the walk alone. *)
From S2P Require Import Prelude EvmBase CongressSnapshot BlockProcess.

Section ancestors.
Context (GetHeader : Z → Z → option Header) (ref_ParentHash ref_Number : Z).

(** The hash of the ancestor [i] blocks before the parent, if the chain has the headers
    on the way. *)
Fixpoint ancestor (i : nat) : option Z :=
  match i with
  | O => Some ref_ParentHash
  | S i => h ← ancestor i; hd ← GetHeader h (ref_Number - 1 - Z.of_nat i); Some (ParentHash hd)
  end.
(** What BLOCKHASH gives for block [n]. *)
Definition ancestor_hash (n : Z) : Z := default 0 (ancestor (Z.to_nat (ref_Number - 1 - n))).

(** A sequence of questions to one closure. *)
Fixpoint get_hashes (fuel : nat) (ns : list Z) (cache : list Z) : res proc_err (list Z) :=
  match ns with
  | [] => Ok []
  | n :: ns =>
      '(cache, h) ← get_hash GetHeader ref_ParentHash ref_Number fuel n cache;
      hs ← get_hashes fuel ns cache;
      Ok (h :: hs)
  end.

Context (Hnumber : ∀ h k hd, GetHeader h k = Some hd → h_Number hd = Some k) (Hwidth : is_u64 ref_Number).

Definition knows (cache : list Z) : Prop := ∀ i h, cache !! i = Some h → ancestor i = Some h.

Lemma ancestor_missing i j : ancestor i = None → (i ≤ j)%nat → ancestor j = None.
Proof. intros Hi. induction 1 as [|j _ IH]; [done|]. cbn. by rewrite IH. Qed.
Lemma knows_snoc cache h : knows cache → ancestor (length cache) = Some h → knows (cache ++ [h]).
Proof.
  intros Hk Hh i h'. rewrite lookup_app. destruct (cache !! i) as [h0|] eqn:Hi; [intros [= <-]; by apply Hk|].
  intros [Hz <-]%list_lookup_singleton_Some. apply lookup_ge_None in Hi. by replace i with (length cache) by lia.
Qed.

(** The walk from the last hash of the cache, [m] blocks above the one asked for. *)
Lemma hash_walk_ok fuel : ∀ m n cache last, (m < fuel)%nat → 0 ≤ n → n + Z.of_nat m + 1 = ref_Number - len cache → knows cache →
  cache !! (length cache - 1)%nat = Some last →
  ∃ cache', hash_walk GetHeader fuel n cache last (ref_Number - len cache) = Ok (cache', ancestor_hash n) ∧ knows cache' ∧ cache' ≠ [].
Proof.
  induction fuel as [|fuel IH]; intros m n cache last Hm Hn Hlen Hk Hlast; [lia|]. cbn [hash_walk].
  assert (length cache ≠ 0)%nat as Hne by (intros Hz; apply length_zero_iff_nil in Hz as ->; done).
  assert (ancestor (length cache) = (hd ← GetHeader last (ref_Number - len cache); Some (ParentHash hd))) as Hanc.
  { destruct (length cache) as [|l] eqn:Hl; [done|]. cbn [ancestor]. replace (S l - 1)%nat with l in Hlast by lia. rewrite (Hk l last Hlast). cbn.
    unfold len. rewrite Hl. by replace (ref_Number - 1 - Z.of_nat l) with (ref_Number - Z.of_nat (S l)) by lia. }
  destruct (GetHeader last (ref_Number - len cache)) as [hd|] eqn:Hhd; cbn in Hanc.
  2:{ exists cache. split; [|split; [done|intros ->; done]]. unfold ancestor_hash. rewrite (ancestor_missing (length cache)); [done..|]. unfold len in *. lia. }
  rewrite (Hnumber _ _ _ Hhd). pose proof (knows_snoc cache _ Hk Hanc) as Hk'.
  assert (len (cache ++ [ParentHash hd]) = len cache + 1) as Hl' by (rewrite len_app; done).
  assert (u64 (u64 (Z.abs (ref_Number - len cache)) - 1) = ref_Number - len (cache ++ [ParentHash hd])) as ->.
  { rewrite Hl'. unfold is_u64 in *. rewrite (u64_small (Z.abs _)) by (unfold is_u64, len in *; lia). rewrite u64_small; unfold is_u64, len in *; lia. }
  destruct (Z.eqb_spec n (ref_Number - len (cache ++ [ParentHash hd]))) as [Heq|Hneq].
  - exists (cache ++ [ParentHash hd]). split; [|split; [done|by destruct cache]]. unfold ancestor_hash. rewrite Heq, Hl'.
    replace (Z.to_nat _) with (length cache) by (unfold len; lia). by rewrite Hanc.
  - destruct m as [|m]; [lia|]. apply (IH m n (cache ++ [ParentHash hd])); [lia|done|lia|done|]. rewrite length_app. cbn.
    rewrite lookup_app_r by lia. by replace (_ - _ - _)%nat with 0%nat by lia.
Qed.

Lemma get_hash_ok fuel n cache : ref_Number ≤ Z.of_nat fuel → 0 ≤ n < ref_Number → knows cache →
  ∃ cache', get_hash GetHeader ref_ParentHash ref_Number fuel n cache = Ok (cache', ancestor_hash n) ∧ knows cache'.
Proof.
  intros Hf Hn Hk. unfold get_hash. set (c := match cache with [] => _ | _ => _ end).
  assert (knows c ∧ c ≠ []) as [Hc Hne].
  { destruct cache; [|done]. split; [|done]. intros i h [-> <-]%list_lookup_singleton_Some. done. }
  clearbody c. rewrite (u64_small (ref_Number - n - 1)) by (unfold is_u64 in *; lia). assert (0 < len c) as Hpos by (destruct c; [done|unfold len; cbn; lia]).
  destruct (Z.ltb_spec (ref_Number - n - 1) (len c)) as [Hlt|Hge].
  - destruct (lookup_lt_is_Some_2 c (Z.to_nat (ref_Number - n - 1))) as [h Hh]; [unfold len in *; lia|].
    rewrite (go_index_ok _ _ h) by (done || lia). cbn. exists c. split; [|done]. unfold ancestor_hash.
    replace (ref_Number - 1 - n) with (ref_Number - n - 1) by lia. by rewrite (Hc _ h Hh).
  - destruct (lookup_lt_is_Some_2 c (length c - 1)) as [h Hh]; [unfold len in *; lia|].
    assert (Z.to_nat (len c - 1) = length c - 1)%nat as Hi by (unfold len; lia). rewrite (go_index_ok _ _ h) by (lia || by rewrite Hi). cbn [mbind res_bind].
    rewrite (u64_small (ref_Number - len c)) by (unfold is_u64 in *; lia).
    destruct (hash_walk_ok fuel (Z.to_nat (ref_Number - n - 1 - len c)) n c h) as (c' & -> & Hk' & _); try done; [lia..|]. by exists c'.
Qed.

(** C22: The ancestors of a block.  On a chain that stores headers under their numbers, the
    closure of [GetHashFn] answers every sequence of questions about earlier blocks with the
    hashes of the ancestors, zero where a header on the way is missing: what it has cached
    is never seen, and each answer takes at most as many rounds as the block has ancestors. *)
Theorem get_hashes_ancestors fuel ns : ref_Number ≤ Z.of_nat fuel → Forall (λ n, 0 ≤ n < ref_Number) ns →
  get_hashes fuel ns [] = Ok (map ancestor_hash ns).
Proof.
  intros Hf Hns. assert (knows []) as Hk by (intros i h; by rewrite lookup_nil). revert Hk. generalize (@nil Z) as cache.
  induction Hns as [|n ns Hn _ IH]; intros cache Hk; [done|]. cbn. destruct (get_hash_ok fuel n cache Hf Hn Hk) as (cache' & -> & Hk'). cbn.
  by rewrite (IH cache' Hk').
Qed.
End ancestors.

(** A chain of four blocks in which block [k] has the hash [10 * k + 3]; the header of
    block 1 is lost. *)
Definition short_chain (h k : Z) : option Header :=
  if decide (h = 10 * k + 3 ∧ 2 ≤ k ≤ 4) then Some (mk_Header (10 * (k - 1) + 3) 0 0 0 0 0 0 (Some 1) (Some k) 0 0 0 [] 0 0 None) else None.
Lemma get_hashes_ancestors_witness :
  get_hashes short_chain 43 5 5 [3; 4; 1; 0; 2] [] = Ok [33; 43; 13; 0; 23].
Proof.
  assert (∀ h k hd, short_chain h k = Some hd → h_Number hd = Some k) as Hn.
  { intros h k hd. unfold short_chain. destruct (decide _); [|discriminate]. intros Hhd. injection Hhd as <-. reflexivity. }
  assert (is_u64 5) as Hw by (split; [discriminate|reflexivity]).
  rewrite (get_hashes_ancestors short_chain 43 5 Hn Hw); [reflexivity|discriminate|].
  repeat constructor; discriminate.
Defined.
