(* ===== verification/BlockGas.v ===== *)
(** * The gas of a block

    Processing the transactions of a block ends, and its receipts account for the gas:
    one for each transaction that is no system transaction, in order, with the gas
    summed up as the block goes on and never more than the block's limit. *)
From S2P Require Import Prelude StateDb StateEvm EvmAnalysis EvmBase EvmMachine EvmInterp EvmSafety EvmTheorems TxMeta TxTransition TxGas CongressSnapshot Bloom BlockProcess.

(** The sum of the gas that some receipts report. *)
Fixpoint total_gas (rs : list Receipt) : Z := match rs with [] => 0 | r :: rs => r_GasUsed r + total_gas rs end.

(** The processor's operations keep what the EVM relies on. *)
Class BlockLaws (W : Type) `{!EvmBase.StateDB W, !WorldLaws W, !BlockDB W} := {
  ok_Prepare h i (w : W) : world_ok w → world_ok (b_Prepare h i w);
  ok_Finalise b (w : W) : world_ok w → world_ok (b_Finalise b w);
  ok_IntermediateRoot b (w : W) : world_ok w → world_ok (fst (b_IntermediateRoot b w));
  ok_GetLogs h bh (w : W) : world_ok w → world_ok (fst (b_GetLogs h bh w));
  ok_PreloadAccounts l (w : W) : world_ok w → world_ok (b_PreloadAccounts l w)
}.

Section gas.
Context {W : Type} `{!Uint256, !Uint256Laws, !EvmBase.StateDB W, !WorldLaws W, !BlockDB W, !BlockLaws W}.
Context (tenv : TxEnv W) (crypto_keccak : bytes → Z) (Sender : Transaction → option Z).
Context (engine : Engine W) (header : Header) (blockNumber blockHash : Z) (fuel : nat).
Abbreviation Proc := (@Proc W).
Abbreviation env := (vmenv tenv).
Implicit Types (p : Proc) (tx : Transaction) (r : Receipt).

(** A transaction as it is decoded from a block. *)
Record tx_ok tx : Prop := {
  tok_gas : is_u64 (tx_Gas tx) ∧ tx_Gas tx < Z.of_nat fuel;
  tok_data : bytes_ok (tx_Data tx) ∧ len (tx_Data tx) < 2 ^ 62;
  tok_to : is_u256 (default 0 (tx_To tx));
  tok_from from : Sender tx = Some from → is_u256 from
}.
(** A processor between two transactions. *)
Record proc_ok p : Prop := {
  pok_evm : evm_ok (fresh (p_evm p));
  pok_ro : readOnly (p_evm p) = false;
  pok_gp : is_u64 (p_gp p);
  pok_used : 0 ≤ usedGas p ∧ usedGas p + p_gp p < 2 ^ 64
}.
Context (Htenv : tenv_ok tenv).

Lemma evm_Reset_ok msg : is_u256 (From msg) → tenv_ok (set_vmenv (evm_Reset msg env) tenv).
Proof. intros Hf. destruct Htenv as [[] ?]. by split; [split|]. Qed.
Lemma AsMessage_ok tx baseFee msg : tx_ok tx → AsMessage (Sender tx) tx baseFee = Ok msg → msg_ok msg ∧ m_Gas msg = tx_Gas tx.
Proof.
  intros [[Hg _] Hd Ht Hf]. unfold AsMessage. destruct (Sender tx) as [from|]; [|done]. intros [= <-]. split; [|done].
  split; cbn; [done..|by apply Hf|by unfold to; cbn; destruct (tx_To tx)|split; by eexists].
Qed.
Lemma proc_ok_world p : proc_ok p → world_ok (db (p_evm p)).
Proof. intros Hp. exact (evm_world _ (pok_evm _ Hp)). Qed.
Lemma proc_ok_db p w : world_ok w → proc_ok p → proc_ok (mk_Proc (set_world w (p_evm p)) (p_gp p) (usedGas p)).
Proof. intros Hw [[] ? ? ?]. by split; [split|..]. Qed.

(** One transaction. *)
Definition applied p tx p' r : Prop :=
  proc_ok p' ∧ usedGas p' = usedGas p + r_GasUsed r ∧ p_gp p' = p_gp p - r_GasUsed r ∧ CumulativeGasUsed r = usedGas p' ∧
  0 ≤ r_GasUsed r ≤ tx_Gas tx ∧ r_TxHash r = tx_Hash tx.
Lemma apply_message_ok msg p : msg_ok msg → m_Gas msg < Z.of_nat fuel → proc_ok p →
  match apply_message tenv fuel msg p with
  | (p', Ok r) => proc_ok (mk_Proc (p_evm p') (p_gp p') (usedGas p' + UsedGas r)) ∧ p_gp p' = p_gp p - UsedGas r ∧ usedGas p' = usedGas p ∧ 0 ≤ UsedGas r ≤ m_Gas msg
  | (p', Err _) => True
  | (_, Panic why) => evm_panic why
  | (_, OutOfFuel) => False
  end.
Proof.
  intros Hm Hf [He Hro Hgp Hu]. unfold apply_message.
  pose proof (ApplyMessage_gas_ok (set_vmenv (evm_Reset msg env) tenv) msg fuel (p_evm p) (p_gp p) (evm_Reset_ok msg (msg_from _ Hm)) Hm
    He Hro Hgp Hf) as Hok.
  destruct (ApplyMessage _ msg fuel (p_evm p) (p_gp p)) as [s' [r|err| |]]; try done.
  destruct Hok as (Hug & Hp & d & g & _ & _ & _ & _ & Hle & _ & He' & Hro'). cbn [p_evm p_gp usedGas]. split_and!; try done; try apply Hug.
  split; cbn; [done|done|unfold is_u64 in *; lia|lia].
Qed.
Lemma receipt_bloom_ok logs p : ∃ b, receipt_bloom crypto_keccak logs p = (p, Ok b).
Proof.
  unfold receipt_bloom, CreateBloom, LogsBloom. destruct (add_each_test crypto_keccak (mjoin (map log_data (mjoin [logs])))) as (b & -> & _). by exists b.
Qed.
Lemma applyTransaction_ok msg bn bh tx p : msg_ok msg → m_Gas msg = tx_Gas tx → tx_Gas tx < Z.of_nat fuel → proc_ok p →
  match applyTransaction tenv crypto_keccak fuel msg bn bh tx p with
  | (p', Ok r) => applied p tx p' r
  | (p', Err _) => True
  | (_, Panic why) => evm_panic why
  | (_, OutOfFuel) => False
  end.
Proof.
  intros Hm Hg Hf Hp. pose proof (apply_message_ok msg p Hm ltac:(lia) Hp) as Ha. unfold applyTransaction. unfold mbind at 1, st_bind at 1.
  destruct (apply_message tenv fuel msg p) as [p1 [r|err| |]]; try done. destruct Ha as (Hp1 & Hgp & Hu & Hug).
  assert (u64 (usedGas p1 + UsedGas r) = usedGas p1 + UsedGas r) as Hsum.
  { apply u64_small. destruct Hp1 as [_ _ [Hx _] [Hy Hz]]. cbn in *. unfold is_u64. lia. }
  unfold mbind at 1, st_bind at 1. set (m := if IsByzantium _ then _ else _).
  assert (∃ w root, m p1 = (mk_Proc (set_world w (p_evm p1)) (p_gp p1) (usedGas p1), Ok root) ∧ world_ok w) as (w & root & -> & Hw).
  { pose proof (proc_ok_world _ Hp1) as Hw1. unfold m. destruct (IsByzantium _); [eexists _, _; split; [done|]; by apply ok_Finalise|].
    pose proof (ok_IntermediateRoot (IsEIP158 (chainRules env)) _ Hw1) as Hw. cbn [p_evm] in Hw. destruct (b_IntermediateRoot _ _) as [w root]. by eexists _, _. }
  clear m. unfold mbind at 1, st_bind at 1, st_modify. cbn [p_evm p_gp usedGas]. rewrite Hsum. unfold mbind at 1, st_bind at 1. cbn [p_evm].
  pose proof (ok_GetLogs (tx_Hash tx) bh w Hw) as Hw'. cbn [db set_world]. destruct (b_GetLogs _ _ _) as [w' logs]. cbn [fst] in Hw'. cbn [p_gp usedGas]. unfold mbind at 1, st_bind at 1.
  destruct (receipt_bloom_ok logs (mk_Proc (set_world w' (set_world w (p_evm p1))) (p_gp p1) (usedGas p1 + UsedGas r))) as [b ->].
  cbv [mbind st_bind st_get mret st_ret]. unfold applied. cbn [p_gp usedGas r_GasUsed CumulativeGasUsed r_TxHash].
  split_and!; [exact (proc_ok_db _ w' Hw' (proc_ok_db _ w Hw Hp1))|lia..|done].
Qed.

Lemma screen_ok tx p : match screen Sender engine header tx p with (p', Ok b) => p' = p | _ => True end.
Proof.
  unfold screen. destruct (posa engine) as [q|]; [|done]. destruct (Sender tx) as [sender|]; [|done]. unfold mbind, st_bind, st_lift.
  destruct (IsSysTransaction q sender tx header) as [[]| | |]; try done. unfold st_get. by destruct (ValidateTx _ _ _ _ _).
Qed.
(** The engine's own checks may panic or not end; nothing else of the loop does. *)
Definition sane_engine : Prop :=
  ∀ q sender tx w, posa engine = Some q →
    match IsSysTransaction q sender tx header with Panic _ | OutOfFuel => False | _ => True end ∧
    match ValidateTx q sender tx header w with Panic _ | OutOfFuel => False | _ => True end.
Lemma screen_sane tx p : sane_engine → match screen Sender engine header tx p with (_, Panic _) | (_, OutOfFuel) => False | _ => True end.
Proof.
  intros Hs. unfold screen. destruct (posa engine) as [q|] eqn:Hq; [|done]. destruct (Sender tx) as [sender|]; [|done]. unfold mbind, st_bind, st_lift.
  destruct (Hs q sender tx (db (p_evm p)) Hq) as [H1' H2']. destruct (IsSysTransaction q sender tx header) as [[]| | |]; try done.
  unfold st_get. by destruct (ValidateTx _ _ _ _ _).
Qed.

(** The receipts [rs] account for the transactions [txs] from [used] on. *)
Inductive accounts : Z → list Transaction → list Receipt → Prop :=
| accounts_nil used : accounts used [] []
| accounts_cons used tx txs r rs :
    r_TxHash r = tx_Hash tx → 0 ≤ r_GasUsed r ≤ tx_Gas tx → CumulativeGasUsed r = used + r_GasUsed r →
    accounts (used + r_GasUsed r) txs rs → accounts used (tx :: txs) (r :: rs).
Lemma accounts_total used txs rs : accounts used txs rs → length rs = length txs ∧ 0 ≤ total_gas rs.
Proof. induction 1 as [|used tx txs r rs _ Hg _ _ [IH IHg]]; [done|]. cbn. split; lia. Qed.
(** [txs] is an interleaving of the common and the system transactions. *)
Inductive splits : list Transaction → list Transaction → list Transaction → Prop :=
| splits_nil : splits [] [] []
| splits_common tx txs cs ss : splits txs cs ss → splits (tx :: txs) (tx :: cs) ss
| splits_system tx txs cs ss : splits txs cs ss → splits (tx :: txs) cs (tx :: ss).

Lemma process_txs_ok txs : sane_engine → Forall tx_ok txs → ∀ i p, proc_ok p →
  match process_txs tenv crypto_keccak Sender engine header blockNumber blockHash fuel i txs p with
  | (p', Ok (receipts, logs, common, system)) =>
      splits txs common system ∧ accounts (usedGas p) common receipts ∧ logs = mjoin (r_Logs <$> receipts) ∧
      usedGas p' = usedGas p + total_gas receipts ∧ p_gp p' = p_gp p - total_gas receipts ∧ proc_ok p'
  | (_, Err _) => True
  | (_, Panic why) => evm_panic why
  | (_, OutOfFuel) => False
  end.
Proof.
  intros Hs. induction 1 as [|tx txs Htx _ IH]; intros i p Hp.
  { cbv [process_txs mret st_ret]. cbn [total_gas]. split_and!; [constructor..|done|lia|lia|done]. }
  cbn [process_txs]. unfold mbind at 1, st_bind at 1. pose proof (screen_ok tx p) as Hsc. pose proof (screen_sane tx p Hs) as Hsn.
  destruct (screen Sender engine header tx p) as [p0 [[]|err| |]]; try done; subst p0.
  - specialize (IH (i + 1) p Hp). unfold mbind at 1, st_bind at 1. destruct (process_txs _ _ _ _ _ _ _ _ _ txs p) as [p' [[[[rs ls] cs] ss]|err| |]]; try done.
    destruct IH as (Hsp & IH). split; [by constructor|done].
  - unfold mbind at 1, st_bind at 1, could_not_apply at 1, st_lift. destruct (AsMessage (Sender tx) tx (h_BaseFee header)) as [msg|err| |] eqn:Hm; try done.
    2-3: unfold AsMessage in Hm; by destruct (Sender tx).
    destruct (AsMessage_ok tx _ msg Htx Hm) as [Hmok Hmg]. unfold mbind at 1, st_bind at 1, on_db at 1, st_modify.
    set (p1 := mk_Proc _ _ _). assert (proc_ok p1) as Hp1 by exact (proc_ok_db p _ (ok_Prepare _ _ _ (proc_ok_world p Hp)) Hp).
    pose proof (applyTransaction_ok msg blockNumber blockHash tx p1 Hmok Hmg (proj2 (tok_gas _ Htx)) Hp1) as Ha.
    unfold mbind at 1, st_bind at 1, could_not_apply at 1. destruct (applyTransaction _ _ _ _ _ _ _ p1) as [p2 [r|err| |]]; try done.
    destruct Ha as (Hp2 & Hu & Hg & Hc & Hr & Hh). specialize (IH (i + 1) p2 Hp2). unfold mbind at 1, st_bind at 1.
    destruct (process_txs _ _ _ _ _ _ _ _ _ txs p2) as [p' [[[[rs ls] cs] ss]|err| |]]; try done.
    destruct IH as (Hsp & Hac & -> & Hu' & Hg' & Hp'). change (usedGas p1) with (usedGas p) in *. change (p_gp p1) with (p_gp p) in *.
    split_and!; [by constructor| |done|cbn [total_gas]; lia..|done]. constructor; [done..|by rewrite Hc|by rewrite <-Hu].
Qed.
End gas.

(** ** The whole block *)

Definition returns {E A} (m : res E A) : Prop := match m with Panic _ | OutOfFuel => False | _ => True end.
(** The engine's handlers return, and its preparation keeps what the EVM relies on. *)
Record engine_returns {W} `{!EvmBase.StateDB W, !WorldLaws W} (engine : Engine W) (header : Header) : Prop := {
  er_screen : sane_engine engine header;
  er_PreHandle q w : posa engine = Some q → world_ok w →
    match PreHandle q header w with Ok w' => world_ok w' | Err _ => True | _ => False end;
  er_Finalize w cs us rs ss : returns (Finalize engine header w cs us rs ss)
}.

(** A header with the numbers that the processor dereferences. *)
Record header_ok {W} (rules : Rules) (engine : Engine W) (author : option Z) (header : Header) : Prop := {
  hd_author : is_u256 (default (Author engine header) author);
  hd_limit : is_u64 (h_GasLimit header);
  hd_number : is_Some (h_Number header);
  hd_difficulty : is_Some (h_Difficulty header);
  hd_fee : IsLondon rules = true → is_Some (h_BaseFee header)
}.
Lemma block_env_ok {W} `{!Uint256, !Uint256Laws, !EvmBase.StateDB W, !WorldLaws W} (base : TxEnv W) engine header getHash author :
  tenv_ok base → header_ok (chainRules (vmenv base)) engine author header →
  ∃ env, NewEVMBlockContext (vmenv base) engine header getHash author = Ok env ∧
    tenv_ok (set_vmenv env base) ∧ ∀ v, tenv_ok (set_vmenv (set_validator v env) base).
Proof.
  intros [[] Hac] [Ha Hg [n Hn] [df Hd] Hf]. unfold NewEVMBlockContext. rewrite Hn, Hd. eexists. split; [done|].
  assert (∀ a b x (w : W), world_ok w → world_ok (core_Transfer a b x w)) as Ht by (intros a b x w Hw; by apply ok_AddBalance, ok_SubBalance).
  by split; [|intros v]; (split; [split|]).
Qed.

(** A transaction applied on its own. *)
Lemma ApplyTransaction_ok {W} `{!Uint256, !Uint256Laws, !EvmBase.StateDB W, !WorldLaws W, !BlockDB W, !BlockLaws W} (base : TxEnv W) (crypto_keccak : bytes → Z)
    (Sender : Transaction → option Z) (engine : Engine W) getHash fuel author gp (statedb : W) header blockHash tx used v p r :
  tenv_ok base → world_ok statedb → header_ok (chainRules (vmenv base)) engine author header →
  tx_ok Sender fuel tx → is_u64 gp → 0 ≤ used → used + gp < 2 ^ 64 →
  ApplyTransaction base crypto_keccak Sender engine getHash fuel author gp statedb header blockHash tx used v = (p, Ok r) →
  usedGas p = used + r_GasUsed r ∧ p_gp p = gp - r_GasUsed r ∧ CumulativeGasUsed r = usedGas p ∧ 0 ≤ r_GasUsed r ≤ tx_Gas tx ∧ r_TxHash r = tx_Hash tx.
Proof.
  intros Hte Hw Hh Htx Hgp Hu0 Hu. unfold ApplyTransaction. intros (p1 & msg & Hmsg & (p2 & env & Hctx & Hap)%st_bind_inv)%st_bind_inv.
  injection Hmsg as <- Hmsg. injection Hctx as <- Hctx. destruct (AsMessage_ok Sender fuel tx _ msg Htx Hmsg) as [Hmok Hmg].
  destruct (block_env_ok base engine header getHash author Hte Hh) as (env' & Henv & _ & Hv). assert (env' = env) as -> by congruence.
  set (p0 := mk_Proc _ _ _) in Hap. set (tenv := set_vmenv _ base) in Hap.
  assert (proc_ok p0) as Hp. { split; cbn; [split; cbn; try done; split; [constructor|done]|done..]. }
  pose proof (applyTransaction_ok tenv crypto_keccak fuel (Hv v) msg (BlockNumber env) blockHash tx p0 Hmok Hmg (proj2 (tok_gas _ _ _ Htx)) Hp) as Hok.
  rewrite Hap in Hok. by destruct Hok as [_ Hok].
Qed.

(** The engine's preparation of the block. *)
Lemma prepared_ok {W} `{!Uint256, !Uint256Laws, !EvmBase.StateDB W, !WorldLaws W} (base : TxEnv W) (engine : Engine W) header (statedb : W) env :
  engine_returns engine header → world_ok statedb → tenv_ok (set_vmenv env base) → (∀ v, tenv_ok (set_vmenv (set_validator v env) base)) →
  match (match posa engine with Some p => w ← PreHandle p header statedb; Ok (w, set_validator (CreateEvmExtraValidator p header w) env) | None => Ok (statedb, env) end : res proc_err (W * Env W)) with
  | Ok (w, env0) => world_ok w ∧ tenv_ok (set_vmenv env0 base) ∧ BlockNumber env0 = BlockNumber env
  | Err _ => True
  | _ => False
  end.
Proof.
  intros Her Hw He Hev. destruct (posa engine) as [q|] eqn:Hq; [|done]. pose proof (er_PreHandle _ _ Her q statedb Hq Hw) as Hp.
  by destruct (PreHandle q header statedb).
Qed.
Lemma proc_ok_start {W} `{!EvmBase.StateDB W, !WorldLaws W, !BlockDB W, !BlockLaws W} l (w : W) pool : world_ok w → is_u64 pool →
  proc_ok (mk_Proc (mk_EVM (b_PreloadAccounts l w) 0 0 false [] ∅) pool 0).
Proof.
  intros Hw Hp. split; cbn; [split; cbn; [by apply ok_PreloadAccounts|split; [constructor|done]|done..]|done|done|unfold is_u64 in *; lia].
Qed.

