(* ===== verification/BlockLedger.v ===== *)
(** * The money of a block (src/geth/core/state_processor.go over src/geth/core/state)

    The journaled database as the database of the block processor, and what the
    transactions of a block do to the balances: no account gets into debt and no money
    is created, over the ends of transactions at which accounts are deleted. *)
From stdpp Require Import gmap.
From S2P Require Import Prelude RlpBase RlpEncode StateAccess StateDb StateJournal StateUndo StateOps StateRevert StateCommit StatePersist.
From S2P Require Import EvmAnalysis EvmBase EvmMachine EvmGas EvmTable EvmInterp EvmTrace EvmSafety EvmTheorems.
From S2P Require Import StateEvm StateLedger StateTyped TxMeta TxTransition TxGas TxFees TxTypes TxCodec CongressSnapshot Bloom BlockProcess BlockGas.

(** ** The database of the processor *)

Section instance.
Context {T E : Type} `{!Database T E}.
Abbreviation SDB := (@StateDb.StateDB T E).
Abbreviation M := (st SDB Empty_set).
Abbreviation world := (@world T E).

(** [PreloadAccounts]: accounts of the snapshot become objects. *)
Definition preloadAccountFromSnap (addr : Z) : M unit :=
  d ← st_get;
  match snap_account d addr with
  | Some (Some acc) =>
      match stateObjects d !! addr with
      | None => setStateObject (newObject addr (snap_data acc))
      | Some _ => mret tt
      end
  | _ => mret tt
  end.
Definition PreloadAccounts (addrs : list Z) : M unit :=
  d ← st_get;
  match snap d with None => mret tt | Some _ => for_each preloadAccountFromSnap addrs end.

(** An operation with a result; the result of a panic is never looked at. *)
Definition run_with {A} (m : M A) (none : A) (w : world) : world * A := (run_st m w, ask m none w).
#[export] Instance BlockDB_world : BlockDB world := {
  b_Prepare h ti := run_st (Prepare h ti);
  b_Finalise b := run_st (Finalise b);
  b_IntermediateRoot b := run_with (IntermediateRoot b) 0;
  b_GetLogs h bh := run_with (GetLogs h bh) [];
  b_TxIndex := ask TxIndex 0;
  b_PreloadAccounts addrs := run_st (PreloadAccounts (map Bytes20 addrs))
}.
End instance.

(** ** Addresses and code *)

Section laws.
Context {T E : Type} `{!Database T E, !DatabaseLaws T E, !StoredCode T E} (stateNumber : Z).
Abbreviation SDB := (@StateDb.StateDB T E).
Abbreviation M := (st SDB Empty_set).
Abbreviation Keeps m := (Ty m (λ _, True)).
Implicit Types (d : SDB) (o : @stateObject T E).

Definition same_object o o' : Prop := address o' = address o ∧ code o' = code o.
Lemma finalise_same o : same_object o (obj_finalise o).
Proof. unfold obj_finalise. by destruct (decide _). Qed.
Lemma getTrie_fields_same o : same_object o (getTrie o).1.
Proof. unfold getTrie. by repeat case_match. Qed.
Lemma update_slots_same d l : ∀ o tr sto o' tr' sto', update_slots d l (o, tr, sto) = Ok (o', tr', sto') → same_object o o'.
Proof.
  induction l as [|[k v] l IH]; intros o tr sto o' tr' sto'; [by intros [= <- _ _]|]. cbn [update_slots].
  destruct (update_slot d (k, v) (o, tr, sto)) as [[[o1 tr1] sto1]|[]| |] eqn:Hs; try done. cbn [mbind res_bind]. intros [Ha Hc]%IH.
  assert (same_object o o1) as [Ha1 Hc1]; [|unfold same_object; split; congruence]. clear Ha Hc IH. revert Hs. unfold update_slot. destruct (v =? _); [by intros [= <- _ _]|]. destruct tr as [t|]; [|done].
  match goal with |- context [mbind _ ?m] => destruct m as [[[t1 err] b]|[]| |] end; cbn [mbind res_bind]; try done.
  intros [= <- _ _]. by destruct err.
Qed.
Lemma preUpdate_same d o o' : preUpdateStateObject d o = Ok o' → same_object o o'.
Proof.
  unfold preUpdateStateObject, updateTrieConcurrencySafe. set (m := if decide _ then _ else _).
  assert (∀ o1 t1, m = Ok (o1, t1) → same_object o o1) as Hm.
  { intros o1 t1. unfold m. destruct (decide _); [by intros [= <- _]|]. pose proof (getTrie_fields_same o) as [Ha Hc]. destruct (getTrie o) as [o2 tr]. cbn [fst] in *.
    destruct (update_slots d _ _) as [[[o3 tr3] sto]|[]| |] eqn:Hs; cbn [mbind res_bind]; try done. apply update_slots_same in Hs as [Ha' Hc'].
    intros [= <- _]. unfold same_object. cbn. split; congruence. }
  destruct m as [[o1 t1]|[]| |]; cbn [mbind res_bind]; try done. destruct (Hm o1 t1 eq_refl) as [Ha Hc]. clear Hm.
  set (o2 := match o_trie o1 with Some _ => _ | None => _ end). assert (same_object o1 o2) as [Ha2 Hc2]
    by (unfold o2; destruct (o_trie o1) as [t|]; [destruct (tr_Hash t)|]; done).
  destruct (snap d); [|intros [= <-]; unfold same_object; cbn; split; congruence].
  destruct (EncodeToBytes _); try done. intros [= <-]. unfold same_object. cbn. split; congruence.
Qed.
Lemma Ty_loaded x o d : typed d → stateObjects d !! x = Some o → ∀ o', same_object o o' → object_ok x o'.
Proof. intros Hd Ho o' [Ha Hc]. apply (object_ok_same x o); [done..|]. by apply (ty_objects _ Hd). Qed.

Lemma Keeps_finalise_account del x : Keeps (finalise_account (T:=T) (E:=E) del x).
Proof.
  apply Ty_get. intros d Hd. destruct (stateObjects d !! x) as [o|] eqn:Ho; [|by apply (Ty_ret tt)]. pose proof (Ty_loaded x o d Hd Ho) as Hob.
  refine (Keeps_seq _ _ _ _ d Hd); [|intros _; by apply Ty_modify].
  destruct (suicided o || _).
  - apply Keeps_seq; [by apply (Ty_set x), Hob|]. intros _. destruct (snap d); [by apply Ty_modify|by apply Ty_ret].
  - apply (Ty_set x), Hob, finalise_same.
Qed.
Lemma Keeps_Finalise del : Keeps (Finalise (T:=T) (E:=E) del).
Proof.
  apply Ty_get. intros d Hd. refine (Keeps_seq _ _ _ _ d Hd); [apply Ty_each; intros x _; apply Keeps_finalise_account|].
  intros _ d1 [H1 H2]. split; [|done]. cbn. split; [by destruct (0 <? _)|]. destruct (0 <? _); [constructor|done].
Qed.
Lemma Keeps_setError (e : db_err E) : Keeps (StateDb.setError (T:=T) (E:=E) e).
Proof. by apply Ty_modify. Qed.
Lemma Keeps_prepare_account x : Keeps (prepare_account (T:=T) (E:=E) x).
Proof.
  apply Ty_get. intros d Hd. destruct (stateObjects d !! x) as [o|] eqn:Ho; [|by apply (Ty_panic _ (λ _, True))]. destruct (deleted o); [by apply (Ty_ret tt)|].
  refine (Ty_bind _ _ (object_ok x) _ _ _ d Hd); [|intros o' Ho'; by apply (Ty_set x)].
  apply Ty_lift. intros o' [Ha Hc]%preUpdate_same. destruct (finalise_same o). apply (Ty_loaded x o d Hd Ho). split; congruence.
Qed.
Lemma Keeps_write_account x : Keeps (write_account (T:=T) (E:=E) x).
Proof.
  apply Ty_get. intros d Hd. destruct (stateObjects d !! x) as [o|] eqn:Ho; [|by apply (Ty_panic _ (λ _, True))].
  pose proof (ty_objects _ Hd x o Ho) as Hob. destruct (deleted o).
  - refine (Ty_get _ (λ _, True) _ d Hd). clear d Hd Ho. intros d Hd. destruct (tr_TryDelete _ _) as [t err].
    refine (Keeps_seq _ _ _ _ d Hd); [apply Ty_put; by apply (typed_ext d)|]. intros _. destruct err; [apply Keeps_setError|by apply Ty_ret].
  - refine (Ty_bind _ _ (object_ok x) _ _ _ d Hd).
    { unfold updateSnapshot. destruct (o_snapStorage o); [|by apply Ty_ret]. apply (Ty_bind _ _ (λ _, True)); [by apply Ty_modify|].
      intros _ _. apply Ty_ret. by apply (object_ok_same x o). }
    clear d Hd Ho o Hob. intros o Hob. destruct (accountRLP o) as [enc| | |]; [|by apply Ty_panic..]. apply Ty_get. intros d Hd.
    destruct (tr_TryUpdate _ _ _) as [t err]. refine (Keeps_seq _ _ _ _ d Hd); [apply Ty_put; by apply (typed_ext d)|]. intros _.
    apply Keeps_seq; [destruct err; [apply Keeps_setError|by apply Ty_ret]|]. intros _.
    apply Keeps_seq; [destruct (snap d); [by apply Ty_modify|by apply Ty_ret]|]. intros _. apply (Ty_set x). by apply (object_ok_same x o).
Qed.
Lemma Keeps_IntermediateRoot del : Keeps (IntermediateRoot (T:=T) (E:=E) del).
Proof.
  apply Keeps_seq; [apply Keeps_Finalise|]. intros _. apply Ty_get. intros d Hd.
  refine (Keeps_seq _ _ _ _ d Hd); [apply Ty_each; intros x _; apply Keeps_prepare_account|]. intros _.
  apply Keeps_seq; [apply Ty_each; intros x _; apply Keeps_write_account|]. intros _. apply Ty_get. clear d Hd. intros d Hd.
  destruct (tr_Hash _) as [t h]. refine (Keeps_seq _ _ _ _ d Hd); [apply Ty_put; by apply (typed_ext d)|]. intros _. by apply Ty_ret.
Qed.
Lemma Keeps_GetLogs h bh : Keeps (GetLogs (T:=T) (E:=E) h bh).
Proof.
  apply Ty_get. intros d Hd. destruct (logs d !! h); [|by apply (Ty_ret [])].
  refine (Keeps_seq _ _ _ _ d Hd); [apply Ty_put; by apply (typed_ext d)|]. intros _. by apply Ty_ret.
Qed.
Lemma Keeps_PreloadAccounts addrs : Forall is_addr addrs → Keeps (PreloadAccounts (T:=T) (E:=E) addrs).
Proof.
  intros Hall. apply Ty_get. intros d Hd. destruct (snap d); [|by apply (Ty_ret tt)]. refine (Ty_each _ _ _ d Hd). clear d Hd. intros a Ha.
  apply Ty_get. intros d Hd. destruct (snap_account d a) as [[acc|]|]; [|by apply (Ty_ret tt)..].
  destruct (stateObjects d !! a); [by apply (Ty_ret tt)|]. refine (Ty_set a _ _ d Hd). apply object_ok_new. by apply (proj1 (list.Forall_forall _ _) Hall).
Qed.
(** Every state that is opened is such a database. *)
Lemma New_typed root snaps d : New root snaps = inr d → typed d.
Proof. unfold New. destruct (OpenTrie root); [done|]. intros [= <-]. split; [|constructor]. intros x o Hx. cbn in Hx. by rewrite lookup_empty in Hx. Qed.
Lemma Bytes20_all addrs : Forall is_addr (map Bytes20 addrs).
Proof. induction addrs; constructor; [apply Bytes20_addr|done]. Qed.

#[local] Instance laws_StateDB : EvmBase.StateDB (@world T E) := StateDB_world stateNumber.
#[export] Instance world_BlockLaws : @BlockLaws (@world T E) (StateDB_world stateNumber) (typed_WorldLaws stateNumber) BlockDB_world.
Proof.
  split; intros; apply typed_run; try done.
  - by apply Ty_modify.
  - apply Keeps_Finalise.
  - apply Keeps_IntermediateRoot.
  - apply Keeps_GetLogs.
  - apply Keeps_PreloadAccounts, Bytes20_all.
Qed.
End laws.

(** ** The end of a transaction *)

Section finalise.
Context {T E : Type} `{!Database T E, !DatabaseLaws T E}.
Abbreviation SDB := (@StateDb.StateDB T E).
Implicit Types (d : SDB) (a b x : Z).

(** Balances stay or are gone, and objects stay well formed. *)
Record shrinks d d' : Prop := {
  sk_bal a : is_addr a → bal d' a = bal d a ∨ bal d' a = 0;
  sk_inv : inv d → inv d'
}.
Lemma shrinks_trans d1 d2 d3 : shrinks d1 d2 → shrinks d2 d3 → shrinks d1 d3.
Proof.
  intros [Hb1 Hi1] [Hb2 Hi2]. split; [|auto]. intros a Ha. destruct (Hb2 a Ha) as [->| ->]; auto.
Qed.
Lemma shrinks_still d d' : still d d' → (inv d → inv d') → shrinks d d'.
Proof. intros Hs Hi. split; [|done]. intros a Ha. left. by apply Hs. Qed.
Lemma shrinks_solvent d d' : shrinks d d' → solvent d → solvent d'.
Proof. intros Hs Hso a Ha. destruct (sk_bal _ _ Hs a Ha) as [->| ->]; [by apply Hso|done]. Qed.
Lemma sum_of_le f g l : (∀ a, a ∈ l → g a ≤ f a) → sum_of g l ≤ sum_of f l.
Proof.
  induction l as [|b l IH]; [done|]. intros Hfg. cbn. pose proof (Hfg b ltac:(set_solver)). specialize (IH ltac:(set_solver)). lia.
Qed.
Lemma shrinks_supply d d' : shrinks d d' → solvent d → supply d' ≤ supply d.
Proof.
  intros Hs Hso. apply sum_of_le. intros a Ha%elem_of_all. pose proof (Hso a Ha). destruct (sk_bal _ _ Hs a Ha) as [->| ->]; lia.
Qed.

(** An object replaced by one with the same identity, kept or deleted. *)
Lemma shrinks_object d d' a o o' :
  stateObjects d !! a = Some o → stateObjects d' = <[a := o']> (stateObjects d) → snap d' = snap d → trie d' = trie d →
  access d' = access d → logSize d' = logSize d →
  address o' = address o → addrHash o' = addrHash o → StateDb.CodeHash o' = StateDb.CodeHash o → deleted o' = true ∨ (deleted o' = deleted o ∧ Balance o' = Balance o) →
  shrinks d d'.
Proof.
  intros Ho Hd Hsn Htr Hal Hls Ha Hh Hc Hb.
  assert (∀ b, account_of d' b = if decide (b = a) then Ok (Some o') else account_of d b) as Hacc.
  { intros b. destruct (decide (b = a)) as [->|Hn]; [apply account_of_loaded; by rewrite Hd, lookup_insert_eq|].
    apply account_of_ext; [by rewrite Hd, lookup_insert_ne|done|by rewrite Htr]. }
  split.
  - intros b _. unfold bal. rewrite Hacc. destruct (decide (b = a)) as [->|]; [|by left]. rewrite (account_of_loaded d a o) by done. cbn.
    destruct Hb as [->|[-> ->]]; [by right|by left].
  - intros [Hia Hial Hil]. split; [|by rewrite Hal|by rewrite Hls]. intros b o2 Hab. rewrite Hacc. destruct (decide (b = a)) as [->|]; [|by apply Hia].
    intros [= <-]. rewrite Ha, Hh, Hc. apply (Hia a o Hab). by apply account_of_loaded.
Qed.
Lemma finalise_account_spec (del : bool) x d : typed d → ∃ d', finalise_account del x d = (d', Ok tt) ∧ typed d' ∧ shrinks d d' ∧ entries d' = entries d.
Proof.
  intros Ht. unfold finalise_account, mbind, st_bind, st_get. destruct (stateObjects d !! x) as [o|] eqn:Ho.
  2:{ exists d. split_and!; [done..| |done]. by apply shrinks_still. }
  destruct (ty_objects _ Ht x o Ho) as (Hx & Hax & _).
  assert (∀ d' o', stateObjects d' = <[x := o']> (stateObjects d) → same_object o o' → entries d' = entries d → typed d') as Hty.
  { intros d' o' Hso Ha He. split; [|rewrite He; apply Ht]. intros y o2. rewrite Hso.
    intros [[<- <-]|[_ Hy]]%lookup_insert_Some; [by apply (Ty_loaded x o d)|by apply Ht]. }
  destruct (suicided o || del && obj_empty o).
  - destruct (snap d) as [s|] eqn:Hsn; eexists; (split; [reflexivity|]); (split; [apply (Hty _ (set_deleted true o)); [cbn; by rewrite ?Hax|done..]|]);
      (split; [|done]); apply (shrinks_object _ _ x o (set_deleted true o)); cbn; rewrite ?Hax; auto.
  - destruct (finalise_fields o) as (Hc & Hr & _). destruct Hc as (Hca & Hch & _ & Hcb & Hcc & _ & _ & Hcd).
    eexists. split; [reflexivity|]. split; [apply (Hty _ (obj_finalise o)); [cbn; by rewrite ?Hca, ?Hax|apply finalise_same|done]|]. split; [|done].
    apply (shrinks_object _ _ x o (obj_finalise o)); cbn; rewrite ?Hca, ?Hax; auto.
Qed.
Lemma finalise_accounts_spec (del : bool) l : ∀ d, typed d → ∃ d', for_each (finalise_account del) l d = (d', Ok tt) ∧ typed d' ∧ shrinks d d'.
Proof.
  induction l as [|x l IH]; intros d Ht; [exists d; split_and!; [done..|]; by apply shrinks_still|].
  destruct (finalise_account_spec del x d Ht) as (d1 & Hd1 & Ht1 & Hs1 & _). destruct (IH d1 Ht1) as (d2 & Hd2 & Ht2 & Hs2).
  exists d2. split; [|split; [done|by apply shrinks_trans with d1]]. cbn. unfold mbind, st_bind. by rewrite Hd1.
Qed.

(** A database between two transactions: it can be reverted, objects are stored under
    their addresses and nobody is in debt. *)
Record sound d : Prop := { so_standing : standing d; so_typed : typed d; so_solvent : solvent d }.

Lemma Finalise_sound del d d' r : Finalise del d = (d', Ok r) → sound d → sound d' ∧ supply d' ≤ supply d.
Proof.
  intros Hf [[Hi Hr] Ht Hso]. unfold Finalise, mbind, st_bind, st_get in Hf. cbn in Hf.
  destruct (finalise_accounts_spec del (map fst (map_to_list (dirties d))) d Ht) as (d1 & Hd1 & Ht1 & Hs1). rewrite Hd1 in Hf. injection Hf as <- _.
  assert (∀ d2, validRevisions d2 = [] → revs_ok d2) as Hrev by (intros d2 H0; split; rewrite H0; intros ?; try intros ?; done).
  destruct Hs1 as [Hb1 Hi1]. specialize (Hi1 Hi).
  assert (∀ d2, stateObjects d2 = stateObjects d1 → snap d2 = snap d1 → trie d2 = trie d1 → access d2 = access d1 → logSize d2 = logSize d1 →
    validRevisions d2 = [] → (entries d2 = [] ∨ entries d2 = entries d1) → sound d2 ∧ supply d2 ≤ supply d) as Hend.
  { intros d2 Ho Hsn Htr Hac Hls Hv He. assert (still d1 d2) as Hst by by apply still_ext.
    assert (solvent d1) as Hso1 by by apply (shrinks_solvent d d1).
    split; [split; [split; [|by apply Hrev]|..]|].
    - destruct Hi1 as [Ha Hal Hlo]. split; [|by rewrite Hac|by rewrite Hls]. intros a o Haa. rewrite (account_of_ext d2 d1) by congruence. by apply Ha.
    - destruct Ht1 as [H1' H2']. split; [by rewrite Ho|]. destruct He as [->| ->]; [constructor|done].
    - by apply (still_solvent d1).
    - rewrite (still_supply _ _ Hst). by apply shrinks_supply. }
  apply Hend; destruct (0 <? len (entries d1)); cbn; auto.
Qed.
(** A change outside of the accounts and the journal. *)
Lemma sound_ext d d' : stateObjects d' = stateObjects d → snap d' = snap d → trie d' = trie d → entries d' = entries d →
  validRevisions d' = validRevisions d → nextRevisionId d' = nextRevisionId d → logSize d' = logSize d → (inv d → al_ok (access d')) →
  sound d → sound d' ∧ supply d' ≤ supply d.
Proof.
  intros Ho Hsn Htr He Hv Hn Hls Hal [[Hi [Hr1 Hr2]] [Ht1 Ht2] Hso]. assert (still d d') as Hst by by apply still_ext.
  split; [split; [split|..]|by rewrite (still_supply _ _ Hst)].
  - specialize (Hal Hi). destruct Hi as [Ha _ Hl]. split; [|done|by rewrite Hls]. intros a o Haa. rewrite (account_of_ext d' d) by congruence. by apply Ha.
  - split; rewrite Hv; [done|]. by rewrite Hn, He.
  - split; [by rewrite Ho|by rewrite He].
  - by apply (still_solvent d).
Qed.
Lemma Prepare_sound h ti d d' r : Prepare h ti d = (d', Ok r) → sound d → sound d' ∧ supply d' ≤ supply d.
Proof. intros [= <- _]. apply sound_ext; done || (intros _; apply al_ok_new). Qed.
Lemma GetLogs_sound h bh d d' r : GetLogs h bh d = (d', Ok r) → sound d → sound d' ∧ supply d' ≤ supply d.
Proof.
  unfold GetLogs, mbind, st_bind, st_get. destruct (logs d !! h) as [l|]; [|by intros [= <- _]]. intros [= <- _]. apply sound_ext; try done. by intros [].
Qed.

(** Preloading changes no account. *)
Lemma preload_sound a d : is_addr a → ∃ d', preloadAccountFromSnap a d = (d', Ok tt) ∧ (sound d → sound d' ∧ supply d' ≤ supply d).
Proof.
  intros Ha. unfold preloadAccountFromSnap, mbind, st_bind, st_get. destruct (snap_account d a) as [[acc|]|] eqn:Hsn; [|by exists d..].
  destruct (stateObjects d !! a) as [o|] eqn:Ho; [by exists d|]. set (o := newObject a (snap_data acc)). exists (put o d). split; [done|].
  assert (∀ b, account_of (put o d) b = account_of d b) as Hacc.
  { intros b. rewrite account_of_put. cbn [address newObject o]. destruct (decide (b = a)) as [->|]; [|done].
    unfold account_of. rewrite Ho. unfold loaded_data. by rewrite Hsn. }
  intros [[[Hia Hial Hil] [Hr1 Hr2]] [Ht1 Ht2] Hso].
  assert (still d (put o d)) as Hst by (intros b _; unfold bal; by rewrite Hacc).
  split; [split; [split; [split|]|..]|by rewrite (still_supply _ _ Hst)]; try done.
  - intros b o2 Hb. rewrite Hacc. by apply Hia.
  - split; [|done]. intros x o2. cbn. intros [[<- <-]|[_ Hx]]%lookup_insert_Some; [done|by apply Ht1].
  - by apply (still_solvent d).
Qed.
Lemma PreloadAccounts_sound addrs d d' r : Forall is_addr addrs → PreloadAccounts addrs d = (d', Ok r) → sound d → sound d' ∧ supply d' ≤ supply d.
Proof.
  intros Hall. unfold PreloadAccounts. unfold mbind, st_bind at 1, st_get. destruct (snap d) as [s|]; [|by intros [= <- _]]. clear s. revert d.
  induction Hall as [|a addrs Ha _ IH]; intros d; [by intros [= <- _]|]. cbn. unfold mbind, st_bind.
  destruct (preload_sound a d Ha) as (d1 & -> & Hd1). intros Hr Hs. destruct (Hd1 Hs) as [Hs1 Hl1]. destruct (IH d1 Hr Hs1) as [Hs2 Hl2]. split; [done|lia].
Qed.
End finalise.

(** ** The transactions of a block *)

Section ledger.
Context {T E : Type} `{!Database T E, !DatabaseLaws T E, !StoredCode T E} `{!Uint256, !Uint256Laws} (stateNumber : Z).
Abbreviation SDB := (@StateDb.StateDB T E).
Abbreviation M := (st SDB Empty_set).
Abbreviation world := (@world T E).
#[local] Instance block_StateDB : EvmBase.StateDB world := StateDB_world stateNumber.
#[local] Instance block_WorldLaws : WorldLaws world := typed_WorldLaws stateNumber.
#[local] Instance block_BlockLaws : BlockLaws world := world_BlockLaws stateNumber.
Implicit Types (d : SDB) (w : world) (tx : Transaction).

(** From a sound database nobody gets into debt and no money is created. *)
Definition moves w w' : Prop := ∀ d', w' = Ok d' → ∃ d, w = Ok d ∧ (sound d → sound d' ∧ supply d' ≤ supply d).
Lemma moves_refl w : moves w w.
Proof. intros d ->. by exists d. Qed.
Lemma moves_trans w1 w2 w3 : moves w1 w2 → moves w2 w3 → moves w1 w3.
Proof.
  intros H12 H23 d3 Hd3. destruct (H23 d3 Hd3) as (d2 & Hd2 & Hp2). destruct (H12 d2 Hd2) as (d1 & Hd1 & Hp1). exists d1. split; [done|].
  intros [Hs2 Hl2]%Hp1. destruct (Hp2 Hs2) as [Hs3 Hl3]. split; [done|]. lia.
Qed.
Definition keeps_sound {A} (m : M A) : Prop := ∀ d d' r, m d = (d', Ok r) → sound d → sound d' ∧ supply d' ≤ supply d.
Lemma moves_run {A} (m : M A) w w' : moves w w' → keeps_sound m → moves w (run_st m w').
Proof.
  intros Hw Hm. apply moves_trans with w'; [done|]. intros d' (d & r & -> & Hd)%run_st_ok. exists d. split; [done|].
  intros Hs. by apply (Hm d d' r).
Qed.

(** The prices of a transaction; meta transactions are left out. *)
Record tx_priced tx : Prop := {
  tp_tip : 0 ≤ tx_GasTipCap tx;
  tp_price : 0 ≤ tx_GasPrice tx ≤ tx_GasFeeCap tx;
  tp_value : 0 ≤ tx_Value tx;
  tp_plain : IsMetaTransaction (tx_Data tx) = false
}.
(** Contents that can be encoded have such prices. *)
Lemma content_priced (keccak256 : bytes → Z) (c : TxData) : content_ok c → IsMetaTransaction (tx_data c) = false → tx_priced (of_TxData keccak256 c).
Proof. intros (_ & _ & _ & _ & _ & [Hp _] & [Ht _] & [Hv _] & _) Hm. by split. Qed.
(** The receipts are those of the transactions. *)
Definition receipts_of (txs : list Transaction) (rs : list Receipt) : Prop := Forall2 (λ tx r, r_TxHash r = tx_Hash tx) txs rs.
Lemma accounts_receipts used txs rs : accounts used txs rs → receipts_of txs rs.
Proof. induction 1; constructor; done. Qed.

Section loop.
Context (tenv : TxEnv world) (crypto_keccak : bytes → Z) (Sender : Transaction → option Z).
Context (engine : Engine world) (header : Header) (blockNumber blockHash : Z) (fuel : nat).
Context (Hbe : block_env stateNumber tenv) (Henv : env_ok (vmenv tenv)) (Hbyz : IsByzantium (chainRules (vmenv tenv)) = true).
Context (Hfee : BaseFee (vmenv tenv) = h_BaseFee header).

Lemma loop_tenv : tenv_ok tenv.
Proof. by apply (block_tenv stateNumber). Qed.
Lemma AsMessage_priced tx msg : tx_priced tx → AsMessage (Sender tx) tx (h_BaseFee header) = Ok msg →
  priced (set_vmenv (evm_Reset msg (vmenv tenv)) tenv) msg (tx_GasFeeCap tx) (tx_GasTipCap tx) ∧
  IsMetaTransaction (m_Data msg) = false ∧ m_Gas msg = tx_Gas tx.
Proof.
  intros [Ht Hp Hv Hm]. unfold AsMessage. destruct (Sender tx) as [from|]; [|done]. intros [= <-]. split; [|done].
  pose proof (proj2 (be_basefee _ _ Hbe)) as Hb. rewrite Hfee in Hb.
  split; cbn [m_GasFeeCap m_GasTipCap m_GasPrice m_Value]; try done.
  - destruct (h_BaseFee header) as [b|]; [|done]. cbn in Hb. unfold BigMin. destruct (Z.ltb_spec (tx_GasFeeCap tx) (tx_GasTipCap tx + b)); lia.
  - intros Hl. destruct (BaseFee_ok _ Henv Hl) as [b Hb']. cbn. rewrite Hfee in Hb'. by rewrite Hfee, Hb'.
Qed.
Lemma block_env_reset msg : block_env stateNumber (set_vmenv (evm_Reset msg (vmenv tenv)) tenv).
Proof. by destruct Hbe; split. Qed.

(** A message of the block that is no meta transaction. *)
Record plain (msg : Message) (feeCap tipCap : Z) : Prop := {
  pl_ok : msg_ok msg;
  pl_fuel : m_Gas msg < Z.of_nat fuel;
  pl_priced : priced (set_vmenv (evm_Reset msg (vmenv tenv)) tenv) msg feeCap tipCap;
  pl_no : IsMetaTransaction (m_Data msg) = false
}.
Lemma apply_message_moves msg p p' r feeCap tipCap : plain msg feeCap tipCap → proc_ok p →
  apply_message tenv fuel msg p = (p', Ok r) → moves (db (p_evm p)) (db (p_evm p')).
Proof.
  intros [Hm Hf Hpr Hno] [He Hro Hgp _] Ha d' Hd'. unfold apply_message in Ha.
  destruct (ApplyMessage _ msg fuel (p_evm p) (p_gp p)) as [s' [r'|err| |]] eqn:Hap; try done. injection Ha as <- <-.
  pose proof (block_env_reset msg) as Hbe'.
  assert (runs stateNumber (set_vmenv (evm_Reset msg (vmenv tenv)) tenv) msg fuel (p_evm p) (p_gp p)) as Hru
    by (split; [apply (te_env _ (evm_Reset_ok tenv loop_tenv msg (msg_from _ Hm)))|done..]).
  destruct (gas_bound stateNumber _ msg fuel _ _ s' r' Hbe' Hru Hap) as [Hg Hty]. cbn in Hd'. unfold world_of in Hty. rewrite Hd' in Hty.
  destruct (usable_before stateNumber _ msg feeCap tipCap fuel _ _ s' r' d' Hbe' Hpr Hno Hap Hd') as [d Hd].
  exists d. split; [done|]. intros [Hst _ Hso].
  destruct (ApplyMessage_money stateNumber _ msg feeCap tipCap fuel _ _ s' r' d d' Hbe' Hpr (msg_gas _ Hm) Hno Hd Hst Hso Hap Hd') as (_ & Hst' & Hso' & Hsup).
  split; [by split|]. by apply Hsup.
Qed.
Lemma receipt_bloom_keeps ls (p p' : @Proc world) b : receipt_bloom crypto_keccak ls p = (p', Ok b) → p' = p.
Proof. destruct (receipt_bloom_ok (W:=world) crypto_keccak ls p) as [b' ->]. congruence. Qed.

Lemma applyTransaction_moves msg tx p p' r feeCap tipCap : plain msg feeCap tipCap → proc_ok p →
  applyTransaction tenv crypto_keccak fuel msg blockNumber blockHash tx p = (p', Ok r) → moves (db (p_evm p)) (db (p_evm p')).
Proof.
  intros Hpl Hp. unfold applyTransaction. rewrite Hbyz. intros (p1 & r1 & Ha & (p2 & root & Hroot & Hr)%st_bind_inv)%st_bind_inv.
  pose proof (apply_message_moves msg p p1 r1 feeCap tipCap Hpl Hp Ha) as Hmv. injection Hroot as <- <-.
  apply st_bind_inv in Hr as (p3 & u3 & Hp3 & (p4 & ls & Hp4 & (p5 & b & Hp5 & Hr)%st_bind_inv)%st_bind_inv). injection Hp3 as <- <-. injection Hp4 as <- <-.
  apply receipt_bloom_keeps in Hp5 as ->. cbv [mbind st_bind st_get mret st_ret] in Hr. injection Hr as <- <-. cbn [p_evm db set_world].
  apply moves_run; [|exact (GetLogs_sound _ _)]. apply moves_run; [done|exact (Finalise_sound true)].
Qed.
Lemma could_not_apply_Ok {A} i (m : st (@Proc world) proc_err A) p p' x : could_not_apply i m p = (p', Ok x) → m p = (p', Ok x).
Proof. unfold could_not_apply. destruct (m p) as [p1 []]; congruence. Qed.
Lemma process_txs_moves txs : Forall tx_priced txs → Forall (tx_ok Sender fuel) txs → ∀ i p p' rs ls cs ss, proc_ok p →
  process_txs tenv crypto_keccak Sender engine header blockNumber blockHash fuel i txs p = (p', Ok (rs, ls, cs, ss)) →
  moves (db (p_evm p)) (db (p_evm p')).
Proof.
  induction 1 as [|tx txs Htp _ IH]; intros Hall i p p' rs ls cs ss Hp; [intros [= <- <- _ <- <-]; apply moves_refl|].
  apply Forall_cons_1 in Hall as [Htx Hall]. cbn [process_txs]. intros (p0 & sys & Hsc & Hr)%st_bind_inv.
  pose proof (screen_ok Sender engine header tx p) as Heq. rewrite Hsc in Heq. subst p0. destruct sys.
  - apply st_bind_inv in Hr as (p1 & [[[rs' ls'] cs'] ss'] & Hr & [= <- <- _ <- <-]). by apply (IH Hall (i + 1) p p1 rs' ls' cs' ss').
  - apply st_bind_inv in Hr as (p1 & msg & Hmsg%could_not_apply_Ok & Hr). injection Hmsg as <- Hmsg.
    apply st_bind_inv in Hr as (p1 & u & Hprep & Hr). injection Hprep as <- <-. set (p1 := mk_Proc _ _ _) in Hr.
    apply st_bind_inv in Hr as (p2 & rc & Ha%could_not_apply_Ok & (p3 & [[[rs' ls'] cs'] ss'] & Hr & [= <- <- _ <- <-])%st_bind_inv).
    destruct (AsMessage_priced tx msg Htp Hmsg) as (Hprice & Hno & Hmg). destruct (AsMessage_ok Sender fuel tx _ msg Htx Hmsg) as [Hmok _].
    assert (proc_ok p1) as Hp1 by exact (proc_ok_db p _ (ok_Prepare _ _ _ (proc_ok_world p Hp)) Hp).
    assert (plain msg (tx_GasFeeCap tx) (tx_GasTipCap tx)) as Hpl by (split; [done|rewrite Hmg; apply (tok_gas _ _ _ Htx)|done..]).
    pose proof (applyTransaction_ok tenv crypto_keccak fuel loop_tenv msg blockNumber blockHash tx p1 Hmok Hmg (proj2 (tok_gas _ _ _ Htx)) Hp1) as Hok.
    rewrite Ha in Hok. apply moves_trans with (db (p_evm p1)).
    { apply (moves_run (Prepare (tx_Hash tx) i)); [apply moves_refl|exact (Prepare_sound _ _)]. }
    apply moves_trans with (db (p_evm p2)); [by apply (applyTransaction_moves msg tx p1 p2 rc (tx_GasFeeCap tx) (tx_GasTipCap tx))|].
    apply (IH Hall (i + 1) p2 p3 rs' ls' cs' ss'); [apply Hok|done].
Qed.
End loop.

(** A chain whose rules and fees the ledger covers. *)
Record chain_ok (base : TxEnv world) (header : Header) : Prop := {
  ck_access sender dst ps al w : tx_PrepareAccessList base sender dst ps al w = run_st (PrepareAccessList sender dst ps al) w;
  ck_fee : NoBaseFee base = false ∧ 0 ≤ default 0 (h_BaseFee header);
  ck_byzantium : IsByzantium (chainRules (vmenv base)) = true;
  ck_env : env_ok (vmenv base)
}.
Lemma chain_tenv base header : chain_ok base header → tenv_ok base.
Proof. intros [Hac _ _ He]. split; [done|]. intros sender dst ps al w Hw. rewrite Hac. apply typed_run; [apply Keeps_PrepareAccessList|done]. Qed.
(** The context of the block's transactions. *)
Lemma chain_context base header engine getHash env v : chain_ok base header → NewEVMBlockContext (vmenv base) engine header getHash None = Ok env →
  (block_env stateNumber (set_vmenv env base) ∧ block_env stateNumber (set_vmenv (set_validator v env) base)) ∧
  chainRules env = chainRules (vmenv base) ∧ BaseFee env = h_BaseFee header.
Proof.
  intros [Hac Hbf _ _] Hctx. unfold NewEVMBlockContext in Hctx. destruct (h_Number header), (h_Difficulty header); try done. injection Hctx as <-.
  split_and!; [by split..|done|done].
Qed.

(** C2: The money of a block without meta transactions.  When the processing of a block
    over the journaled database succeeds, the transactions are split, in order, into those
    applied, with one receipt each, and those left to the engine.  Compare the database
    after the engine's preparation with the one that the engine finalizes, whatever the
    transactions executed and whichever of them failed: if no account was in debt none is,
    and the sum of all balances has not grown; the database can still be reverted and holds
    its objects under their addresses. *)
Theorem Process_ledger (base : TxEnv world) (crypto_keccak : bytes → Z) (Sender : Transaction → option Z) (engine : Engine world)
    (getHash : Z → Z) (fuel : nat) (header : Header) (blockHash : Z) (txs : list Transaction) (uncles : list Header) (statedb : world)
    w receipts logs used :
  chain_ok base header → header_ok (chainRules (vmenv base)) engine None header → engine_returns engine header →
  Forall (tx_ok Sender fuel) txs → Forall tx_priced txs → typed_world statedb →
  Process base crypto_keccak Sender engine getHash fuel header blockHash txs uncles statedb = Ok (w, receipts, logs, used) →
  ∃ w0 w1 common system applied common',
    match posa engine with Some p => PreHandle p header statedb = Ok w0 | None => w0 = statedb end ∧
    Finalize engine header w1 common uncles applied system = Ok (w, common', receipts) ∧
    splits txs common system ∧ receipts_of common applied ∧
    ∀ d', w1 = Ok d' → ∃ d, w0 = Ok d ∧ (sound d → sound d' ∧ supply d' ≤ supply d).
Proof.
  intros Hck Hh Her Htok Htx Hw. pose proof (hd_limit _ _ _ _ Hh) as Hg. unfold Process, AddGas. rewrite (proj2 (Z.ltb_ge _ _)) by (unfold is_u64, MaxUint64 in *; lia). cbn [mbind res_bind].
  destruct (block_env_ok base engine header getHash None (chain_tenv _ _ Hck) Hh) as (env & Hctx & He & Hev). rewrite Hctx. cbn [mbind res_bind].
  pose proof (prepared_ok base engine header statedb env Her Hw He Hev) as Hp0. set (pre := match posa engine with Some _ => _ | None => _ end) in *.
  assert (∀ w0 env0, pre = Ok (w0, env0) → match posa engine with Some p => PreHandle p header statedb = Ok w0 | None => w0 = statedb end ∧
    block_env stateNumber (set_vmenv env0 base) ∧ chainRules env0 = chainRules (vmenv base) ∧ BaseFee env0 = h_BaseFee header) as Hpre.
  { unfold pre. destruct (posa engine) as [q|]; [|intros w0 env0 [= <- <-]; split; [done|];
      destruct (chain_context base header engine getHash env None Hck Hctx) as [[Hb _] Hc]; by split].
    intros w0 env0. destruct (PreHandle q header statedb) as [w0'| | |]; try done. cbn. intros [= <- <-]. split; [done|].
    destruct (chain_context base header engine getHash env (CreateEvmExtraValidator q header w0') Hck Hctx) as [[_ Hb] Hc]. by split. }
  destruct pre as [[w0 env0]|err| |]; cbn [mbind res_bind]; try done. destruct (Hpre w0 env0 eq_refl) as (Hpr & Hbe & Hru & Hfee). destruct Hp0 as (Hw0 & He0 & _).
  set (p := mk_Proc _ _ _). assert (proc_ok p) as Hp by by apply proc_ok_start. intros Hr.
  pose proof (process_txs_ok (set_vmenv env0 base) crypto_keccak Sender engine header (BlockNumber env0) blockHash fuel He0 txs (er_screen _ _ Her) Htok 0 p Hp) as Hok.
  destruct (process_txs _ _ _ _ _ _ _ _ _ txs p) as [p' [[[[rs ls] cs] ss]|err| |]] eqn:Hloop; cbn [mbind res_bind] in Hr; try done.
  destruct (Finalize _ _ _ _ _ _ _) as [[[w' cs'] rs']|err| |] eqn:Hf; cbn [mbind res_bind] in Hr; try done. injection Hr as <- <- <- <-.
  apply (process_txs_moves (set_vmenv env0 base)) in Hloop as Hmv; [|done|apply He0|cbn; rewrite Hru; apply Hck|done..].
  destruct Hok as (Hsp & Hac & _). exists w0, (db (p_evm p')), cs, ss, rs, cs'. split; [done|]. split; [done|]. split; [done|].
  split; [by apply accounts_receipts with 0|]. apply moves_trans with (db (p_evm p)); [|done].
  apply (moves_run (PreloadAccounts _)); [apply moves_refl|]. intros d d' x. apply PreloadAccounts_sound, Bytes20_all.
Qed.
End ledger.

(** ** A block over a concrete database, with a system transaction *)

#[local] Instance ledger_StateDB : EvmBase.StateDB (@world toy_trie unit) := StateDB_world 100.
Definition pay_posa : PoSA (@world toy_trie unit) :=
  mk_PoSA _ (λ _ w, Ok w) (λ _ _, None) (λ _ tx _, Ok (tx_Hash tx =? 5)) (λ _ _ _ _, Ok tt) (λ _ _ _, true).
Definition pay_engine : Engine (@world toy_trie unit) := mk_Engine _ (Some pay_posa) (λ h, h_Coinbase h) (λ _ w cs _ rs _, Ok (w, cs, rs)).
Definition pay_header : Header := mk_Header 1 2 5 0 0 0 0 (Some 2) (Some 100) 100000 0 1000 [] 0 0 (Some 7).
Definition pay_tx (hash nonce to value : Z) : Transaction := mk_Transaction 2 hash nonce 20 2 20 30000 (Some to) value [] [].
Definition pay_txs : list Transaction := [pay_tx 1 0 3 100; pay_tx 5 0 3 0; pay_tx 6 1 4 50].
Definition pay_sender (tx : Transaction) : option Z := Some 1.

Lemma pay_sound : sound (pay_db 1000000).
Proof. split; [apply pay_standing|apply pay_typed|by apply pay_solvent]. Qed.
Lemma pay_chain : chain_ok 100 pay_tenv pay_header.
Proof. split; [done|done|done|exact example_env_ok]. Qed.
Lemma pay_header_ok : header_ok (chainRules (vmenv pay_tenv)) pay_engine None pay_header.
Proof. split; try done; by eexists. Qed.
Lemma pay_returns : engine_returns (WorldLaws0 := typed_WorldLaws 100) pay_engine pay_header.
Proof. split; [|by intros q w [= <-]|done]. by intros q sender tx w [= <-]. Qed.
Lemma pay_txs_ok : Forall (tx_ok pay_sender (Z.to_nat 30001)) pay_txs.
Proof.
  unfold pay_txs. repeat apply Forall_cons_2; [..|apply Forall_nil_2]; (split; cbn; [done|split; [constructor|done]|done|by intros from [= <-]]).
Qed.
Lemma pay_txs_priced : Forall tx_priced pay_txs.
Proof. unfold pay_txs. repeat apply Forall_cons_2; [..|apply Forall_nil_2]; by split. Qed.

Lemma Process_ledger_witness :
  ∃ d' receipts logs used,
    Process pay_tenv toy_hash pay_sender pay_engine (λ _, 0) (Z.to_nat 30001) pay_header 9 pay_txs [] (Ok (pay_db 1000000)) = Ok (Ok d', receipts, logs, used) ∧
    length receipts = 2%nat ∧ solvent d' ∧ supply d' ≤ supply (pay_db 1000000).
Proof.
  assert (match Process pay_tenv toy_hash pay_sender pay_engine (λ _, 0) (Z.to_nat 30001) pay_header 9 pay_txs [] (Ok (pay_db 1000000)) with
          | Ok (w, rs, _, _) => is_ok w ∧ length rs = 2%nat | _ => False end) as Hok
    by (vm_compute; repeat split).
  pose proof (λ w rs ls used, Process_ledger 100 pay_tenv toy_hash pay_sender pay_engine (λ _, 0) (Z.to_nat 30001) pay_header 9 pay_txs [] (Ok (pay_db 1000000)) w rs ls used
    pay_chain pay_header_ok pay_returns pay_txs_ok pay_txs_priced (pay_typed 1000000)) as Hl.
  destruct (Process pay_tenv toy_hash pay_sender pay_engine (λ _, 0) (Z.to_nat 30001) pay_header 9 pay_txs [] (Ok (pay_db 1000000))) as [[[[w rs] ls] used]| | |];
    [|exfalso; exact Hok..].
  destruct Hok as (Hw & Hlen). destruct w as [d'|[]| |]; cbn [is_ok] in Hw; [|exfalso; exact Hw..].
  exists d', rs, ls, used. split; [reflexivity|]. split; [exact Hlen|].
  destruct (Hl (Ok d') rs ls used eq_refl) as (w0 & w1 & cs & ss & ap & cs' & Hpre & Hfin & _ & _ & Hmv).
  injection Hpre as <-. injection Hfin as -> _ ->. destruct (Hmv d' eq_refl) as (d & Hd & Hd'). injection Hd as <-. destruct (Hd' pay_sound) as [[_ _ Hso] Hsup].
  split; [exact Hso|exact Hsup].
Defined.

